(* ===== verification/_CoqProject ===== *)
-Q . S2P
Prelude.v
Decimal.v
Text.v
Paths.v
Net.v
Message.v
Guid.v
Heap.v
InFlightPQ.v
PQueue.v
DiskQueue.v
DiskQueueProofs.v
DiskQueueFaults.v
Backend.v
Channel.v
ChannelProofs.v
ChannelScan.v
ChannelProps.v
ChannelFrame.v
ChannelDemo.v
Topic.v
TopicProofs.v
TopicProps.v
TopicDemo.v
Wire.v
HttpApi.v
HttpClient.v
RegistrationDB.v
LookupProtocol.v
LookupProtocolProps.v
LookupHTTP.v
LookupHTTPProps.v
LookupDemo.v
Auth.v
Options.v
Client.v
Nsqd.v
Protocol.v
ClientProps.v
DaemonProofs.v
MetadataProps.v
ProtocolProofs.v
ProtocolProps.v
DaemonProps.v
DaemonDemo.v
Order.v
Quantile.v
Aggregate.v
Stats.v
NsqdHTTP.v
NsqdHTTPProps.v
NsqdHTTPEffects.v
NsqdHTTPDemo.v
LookupPeer.v
LookupPeerProps.v
Announce.v
AnnounceDemo.v
ClusterTypes.v
ClusterInfo.v
ClusterProps.v
ClusterStats.v
Directory.v
ClusterDemo.v
Admin.v
AdminProps.v
AdminDemo.v
FileLogger.v
FileLoggerCalls.v
FileLoggerOps.v
FileLoggerProps.v
FileLoggerDemo.v
ToNsq.v
ToNsqProps.v
ToHttp.v
Statsd.v
Startup.v
Pipes.v
Discoverer.v
Stat.v
Program.v
