(* ===== verification/Prelude.v ===== *)
(** * nsq: a verification library

    nsq is a realtime distributed messaging platform. [nsqd] (src/nsqd) takes
    messages, queues them by topic, copies each to every channel of its topic
    and delivers it to one consumer of the channel, again and again until the
    consumer finishes it. [nsqlookupd] (src/nsqlookupd) is the directory:
    every nsqd announces its topics and channels there, and consumers ask it
    for producers. [nsqadmin] (src/nsqadmin) shows and changes a cluster of
    them, and a handful of tools (src/apps) move messages in and out. This
    library models the daemons, the tools and the packages they stand on, from
    the source, and proves what makes them correct.

    ** How the model is made

    - An integer of Go is a [Z] in the range of its type; where arithmetic can
      leave the range it is wrapped explicitly ([i64], [u16], ... below). A
      string and a byte slice are lists of [Byte.byte]; a map is a [gmap]; a
      slice of pointers is a list of locations.
    - What several parties point to (messages, deferred items, channels,
      topics, clients, producers, peers) lives in a store indexed by
      locations, so aliasing is that of the code.
    - Code that changes state is a program of the monad [ST]: [None] is a
      panic, or, where the comment of the definition says so, a call that
      never returns. Theorems that a program is safe prove that it is never
      [None].
    - A goroutine is a step function; the state says where it stands, and a
      run is a list of steps of the goroutines in any order. A critical
      section is one step. Every turn of a loop that waits ([select]) is a
      step that takes the chosen case as an argument.
    - The order in which Go ranges over a map is a parameter [range], of which
      only that it permutes is assumed. Clock readings and random numbers are
      arguments.
    - Files are maps from names to contents, what a process has bound and
      locked is a state of its own, and what may fail of the system fails as
      an argument says.
    - Code outside the repository (go-nsq, perks/quantile, JSON, TLS,
      compression, regular expressions, the HTTP server, go-options) is a
      class or an argument; the few laws that are used of it are named hypotheses, and
      each has an instance in a [...Demo] file.

    ** Files

    Prelude: integers, bytes, the monads, lists, and the tactics [callST] and
    the hint databases. Text, Decimal, Order: names, tokens, decimal numbers,
    sorting (internal/protocol/names.go, byte_base10.go, internal/stringy,
    internal/util/rand.go). Paths and Net: what the programs use of path, net
    and of decoding JSON into a slice.

    _Queues._ Message (nsqd/message.go), Guid (nsqd/guid.go), Heap, InFlightPQ
    (nsqd/in_flight_pqueue.go), PQueue (internal/pqueue), DiskQueue
    (disk/diskqueue.go) with DiskQueueProofs (without faults) and
    DiskQueueFaults (with them), Backend (nsqd/backend_queue.go,
    dummy_backend_queue.go): the class [BackendQueue] with its laws, which the
    disk queue implements.

    _Channels and topics._ Channel (nsqd/channel.go) with ChannelProofs (the
    invariant), ChannelScan (the loops), ChannelProps (the promises),
    ChannelFrame (the footprint), ChannelDemo; Topic (nsqd/topic.go) with
    TopicProofs, TopicProps, TopicDemo.

    _nsqd._ Options, Client (client_v2.go), Auth (internal/auth), Nsqd
    (nsqd.go), Protocol (protocol_v2.go); ClientProps, DaemonProofs (the
    invariant [daemon_ok] of the whole daemon), MetadataProps, ProtocolProofs,
    ProtocolProps, DaemonProps (a node: the daemon with its pumps and its scan
    loop), DaemonDemo. Quantile (internal/quantile) and Stats (stats.go).
    NsqdHTTP (http.go) over HttpApi (internal/http_api), with NsqdHTTPProps,
    NsqdHTTPEffects, NsqdHTTPDemo.

    _nsqlookupd._ Wire (internal/protocol, internal/lg), RegistrationDB
    (registration_db.go), LookupProtocol (lookup_protocol_v1.go, tcp.go) with
    LookupProtocolProps, LookupHTTP (http.go) with LookupHTTPProps,
    LookupDemo.

    _Both._ LookupPeer (nsqd/lookup.go, lookup_peer.go) with LookupPeerProps;
    Announce composes it with LookupProtocol; AnnounceDemo.

    _nsqadmin._ HttpClient (internal/http_api/api_request.go), Aggregate
    (internal/quantile/aggregate.go), ClusterTypes and ClusterInfo
    (internal/clusterinfo) with ClusterProps and ClusterStats; Directory
    composes them with LookupHTTP; ClusterDemo. Admin (nsqadmin/http.go,
    notify.go, options.go, nsqadmin.go) with AdminProps and AdminDemo.

    _The programs._ Startup (the start of nsqd and nsqlookupd, tcp.go,
    tcp_server.go, http_server.go, dirlock.go, the flags of the three daemons)
    and Program (the main.go of the three daemons), which composes it with the
    metadata of Nsqd. Statsd (nsqd/statsd.go, internal/statsd,
    internal/writers).

    _The tools._ FileLogger (apps/nsq_to_file/file_logger.go, strftime.go) with
    FileLoggerCalls (one call of the file system), FileLoggerOps (the
    operations), FileLoggerProps (the router) and FileLoggerDemo; Discoverer
    (nsq_to_file.go, topic_discoverer.go), which finds the topics through
    ClusterInfo. ToNsq (apps/nsq_to_nsq) with ToNsqProps, ToHttp
    (apps/nsq_to_http), Pipes (apps/to_nsq, apps/nsq_tail), Stat
    (apps/nsq_stat).

    ** What is shown

    - Storage: the disk queue refines a FIFO queue, through restarts
      ([diskqueue_fifo]); its loop reaches its [select] whatever fails
      ([diskqueue_progress]), except on the metadata of [diskqueue_runaway];
      messages and identifiers ([message_roundtrip], [guid_unique]).
    - Delivery: no run of a channel or of a topic with its channels panics or
      breaks its invariant ([channel_safe], [topic_safe]); finish, requeue,
      touch and the scans do exactly what they say; a topic gives each message
      to each channel ([pump_fans_out]); closing loses nothing
      ([close_flushes], [topic_close_flushes]); channels do not touch each
      other's messages ([channel_isolation]).
    - nsqd: no sequence of steps of its goroutines, whatever its clients send,
      panics or breaks the invariant ([daemon_safe]); a publish that was
      answered is held ([pub_held], [http_pub_held]); a refused command
      changes nothing ([refused_keeps]); a client that is not ready gets no
      message ([not_ready_takes_nothing]); metadata survive restarts and
      failures ([metadata_restart], [metadata_atomic], [http_pause_survives]);
      no HTTP request breaks it ([nsqd_http_safe]); what it reports to statsd
      fits its packets ([report_packets]).
    - The program: what it acquires when it starts it gives back when it exits
      ([nsqd_starts], [services_give_back]), its flags agree with its options
      ([flags_agree]), and a daemon that is stopped or killed and started
      again is the daemon it was ([service_restarts], [crash_keeps]).
      A compressed response decodes to what it was ([compressed_same]).
    - nsqlookupd: a session changes its own registrations only and leaves none
      ([session_isolated], [register_exact]); lookups are exact
      ([lookup_exact], [delete_topic_exact]); no request breaks it.
    - Together: after an nsqd connected, nsqlookupd holds it under exactly its
      topics and channels ([announced]); a topic deleted through nsqadmin is
      gone from every nsqlookupd ([topic_deleted_everywhere]); what nsqadmin
      asks for is read as it was meant ([query_roundtrip]).
    - nsqadmin: it merges what the nodes answer ([producers_merge],
      [stats_sum], [names_union]), lets only administrators change things
      ([admin_only]), and is configured from where it may be
      ([config_guarded], [new_checked]).
    - The tools: a message nsq_to_file has finished is in a file
      ([acked_durable]), its names are found ([rotation_terminates]) and it
      logs the topics it should ([topics_logged]); nsq_to_nsq answers each
      message once and loses none ([forwarded_once]); to_nsq publishes the
      lines it reads, no faster than told ([lines_fed], [rate_bounded]);
      nsq_tail and nsq_stat stop after what they were asked for
      ([tail_counts], [stat_reports]).

    ** Bounds and fuel

    A loop over a slice or a map is a structural recursion. The others carry
    fuel: the loops of the heaps, the length of the heap; IOLoop of
    nsqlookupd, the length of the input, as a turn takes a line from it;
    [DQ.to_select], two turns, which [diskqueue_progress] shows to be enough
    and [diskqueue_runaway] shows that no number is on its metadata;
    [LookupPeer.Command], two levels, which [command_returns] shows to be
    enough; the searches of FileLogger for a free name, twice the number of
    files, which [rotation_terminates] shows to be enough; [Feed.feed], the
    length of the input, which [lines_fed] shows to be enough. Running out of fuel is [None], so the safety theorems show that it
    does not happen.

    ** Not modelled

    TLS handshakes, reading certificates and the accept loop of net/http are
    the system's; profiling routes; log output; the buffer pools and wait
    groups, which hold no state of the program; Windows variants; the
    generated web assets of nsqadmin (bindata.go); benchmarks and tests. *)
From stdpp Require Import base gmap list strings numbers sorting.
From Stdlib Require Import ZArith Lia.
From Stdlib Require Export ZifyNat.
From Stdlib Require Strings.Byte.

Set Default Goal Selector "!".

Declare Scope nsq_scope.
Delimit Scope nsq_scope with nsq.

(** ** Machine integers

    A Go integer of width [w] is a [Z] in the range of its type; arithmetic
    that can leave the range is wrapped explicitly. *)

Definition uwrap (w z : Z) : Z := z `mod` 2 ^ w.
Definition swrap (w z : Z) : Z := (z + 2 ^ (w - 1)) `mod` 2 ^ w - 2 ^ (w - 1).

Notation u8 := (uwrap 8).
Notation u16 := (uwrap 16).
Notation u32 := (uwrap 32).
Notation u64 := (uwrap 64).
Notation i32 := (swrap 32).
Notation i64 := (swrap 64).

Definition in_i64 (z : Z) : Prop := (- 2 ^ 63 <= z < 2 ^ 63)%Z.
Definition in_i32 (z : Z) : Prop := (- 2 ^ 31 <= z < 2 ^ 31)%Z.
Definition in_u64 (z : Z) : Prop := (0 <= z < 2 ^ 64)%Z.
Definition in_u16 (z : Z) : Prop := (0 <= z < 2 ^ 16)%Z.

(** [lia] after turning division and modulo into their defining equations. *)
Ltac Zify.zify_post_hook ::= Z.to_euclidean_division_equations.

(** The powers of two the code uses, computed so that [lia] sees numerals. *)
Ltac pow2 :=
  unfold in_i64, in_i32, in_u64, in_u16, uwrap, swrap in *;
  repeat match goal with
  | |- context [Z.pow 2 ?n] => let v := eval vm_compute in (Z.pow 2 n) in
      lazymatch v with Z.pow _ _ => fail | _ => change (Z.pow 2 n) with v end
  | H : context [Z.pow 2 ?n] |- _ => let v := eval vm_compute in (Z.pow 2 n) in
      lazymatch v with Z.pow _ _ => fail | _ => change (Z.pow 2 n) with v in H end
  end.

Lemma i64_id (z : Z) : in_i64 z → i64 z = z.
Proof. intros ?. pow2. lia. Qed.

Lemma i32_id (z : Z) : in_i32 z → i32 z = z.
Proof. intros ?. pow2. lia. Qed.

Lemma u64_id (z : Z) : in_u64 z → u64 z = z.
Proof. intros ?. pow2. lia. Qed.

Lemma u16_id (z : Z) : in_u16 z → u16 z = z.
Proof. intros ?. pow2. lia. Qed.

Lemma i64_range (z : Z) : in_i64 (i64 z).
Proof. pow2. lia. Qed.

Lemma i32_range (z : Z) : in_i32 (i32 z).
Proof. pow2. lia. Qed.

Lemma u64_range (z : Z) : in_u64 (u64 z).
Proof. pow2. lia. Qed.

(** Reinterpreting the bits of a signed integer as unsigned and back. *)
Lemma i64_u64 (z : Z) : in_i64 z → i64 (u64 z) = z.
Proof. intros ?. pow2. lia. Qed.

Lemma i32_u32 (z : Z) : in_i32 z → i32 (u32 z) = z.
Proof. intros ?. pow2. lia. Qed.

(** ** Bytes *)

Notation byte := Byte.byte.
Notation bytes := (list Byte.byte).

Definition Z_of_byte (b : byte) : Z := Z.of_N (Byte.to_N b).
Definition byte_of_Z (z : Z) : byte :=
  default Byte.x00 (Byte.of_N (Z.to_N (z `mod` 256))).

Lemma Z_of_byte_range (b : byte) : (0 <= Z_of_byte b < 256)%Z.
Proof. unfold Z_of_byte. pose proof (Byte.to_N_bounded b). lia. Qed.

Lemma byte_of_Z_of_byte (b : byte) : byte_of_Z (Z_of_byte b) = b.
Proof. by destruct b. Qed.

Lemma Z_of_byte_of_Z (z : Z) : Z_of_byte (byte_of_Z z) = (z `mod` 256)%Z.
Proof.
  unfold Z_of_byte, byte_of_Z.
  assert (Hz : (0 <= z `mod` 256 < 256)%Z) by (apply Z.mod_pos_bound; lia).
  destruct (Byte.of_N (Z.to_N (z `mod` 256))) as [b|] eqn:Hb; simpl.
  - apply Byte.to_of_N in Hb. rewrite Hb. lia.
  - apply Byte.of_N_None_iff in Hb. lia.
Qed.

#[export] Instance byte_eq_dec : EqDecision byte := Byte.byte_eq_dec.
#[export] Instance byte_countable : Countable byte :=
  inj_countable Byte.to_N Byte.of_N Byte.of_to_N.

(** ** Big-endian integers ([encoding/binary]'s [BigEndian]) *)

Fixpoint be_encode (n : nat) (z : Z) : bytes :=
  match n with
  | O => []
  | S n' => byte_of_Z (z / 2 ^ (8 * Z.of_nat n')) :: be_encode n' z
  end.

Definition be_decode (bs : bytes) : Z :=
  foldl (λ acc b, acc * 256 + Z_of_byte b)%Z 0%Z bs.

Lemma length_be_encode n z : length (be_encode n z) = n.
Proof. induction n; simpl; congruence. Qed.

Lemma be_decode_acc bs acc :
  foldl (λ acc b, acc * 256 + Z_of_byte b)%Z acc bs
  = (acc * 2 ^ (8 * Z.of_nat (length bs)) + be_decode bs)%Z.
Proof.
  unfold be_decode. revert acc.
  induction bs as [|b bs IH]; intros acc; cbn [foldl length].
  - change (2 ^ (8 * Z.of_nat 0))%Z with 1%Z. lia.
  - rewrite IH. rewrite (IH (0 * 256 + Z_of_byte b)%Z).
    replace (8 * Z.of_nat (S (length bs)))%Z with (8 + 8 * Z.of_nat (length bs))%Z by lia.
    rewrite Z.pow_add_r by lia. change (2 ^ 8)%Z with 256%Z. lia.
Qed.

Lemma be_decode_cons b bs :
  be_decode (b :: bs) = (Z_of_byte b * 2 ^ (8 * Z.of_nat (length bs)) + be_decode bs)%Z.
Proof. unfold be_decode at 1. cbn [foldl]. rewrite be_decode_acc. f_equal. Qed.

Lemma be_decode_range bs : (0 <= be_decode bs < 2 ^ (8 * Z.of_nat (length bs)))%Z.
Proof.
  induction bs as [|b bs IH]; [done|].
  rewrite be_decode_cons. pose proof (Z_of_byte_range b). cbn [length].
  replace (8 * Z.of_nat (S (length bs)))%Z with (8 + 8 * Z.of_nat (length bs))%Z by lia.
  rewrite Z.pow_add_r by lia. change (2 ^ 8)%Z with 256%Z. nia.
Qed.

Lemma be_decode_encode n z :
  be_decode (be_encode n z) = (z `mod` 2 ^ (8 * Z.of_nat n))%Z.
Proof.
  induction n as [|n IH]; cbn [be_encode].
  - change (2 ^ (8 * Z.of_nat 0))%Z with 1%Z. by rewrite Z.mod_1_r.
  - rewrite be_decode_cons, length_be_encode, IH, Z_of_byte_of_Z.
    replace (8 * Z.of_nat (S n))%Z with (8 * Z.of_nat n + 8)%Z by lia.
    rewrite Z.pow_add_r by lia. change (2 ^ 8)%Z with 256%Z.
    rewrite (Z.rem_mul_r z (2 ^ (8 * Z.of_nat n)) 256) by (try apply Z.pow_nonzero; lia).
    lia.
Qed.

Lemma be_encode_decode bs : be_encode (length bs) (be_decode bs) = bs.
Proof.
  assert (Hgen : ∀ bs k, be_encode (length bs) (k * 2 ^ (8 * Z.of_nat (length bs)) + be_decode bs) = bs).
  { clear bs. induction bs as [|b bs IH]; intros k; [done|].
    cbn [length be_encode]. rewrite be_decode_cons.
    pose proof (be_decode_range bs) as Hr.
    set (p := (2 ^ (8 * Z.of_nat (length bs)))%Z) in *.
    assert (Hp : (0 < p)%Z) by (apply Z.pow_pos_nonneg; lia).
    replace (2 ^ (8 * Z.of_nat (S (length bs))))%Z with (256 * p)%Z.
    2: { unfold p. replace (8 * Z.of_nat (S (length bs)))%Z with (8 + 8 * Z.of_nat (length bs))%Z by lia.
         rewrite Z.pow_add_r by lia. reflexivity. }
    replace (k * (256 * p) + (Z_of_byte b * p + be_decode bs))%Z
      with ((k * 256 + Z_of_byte b) * p + be_decode bs)%Z by lia.
    f_equal; [|apply IH].
    rewrite Z.div_add_l by lia. rewrite (Z.div_small (be_decode bs)) by lia.
    rewrite Z.add_0_r. unfold byte_of_Z.
    rewrite Z.add_comm, Z.mod_add by lia.
    rewrite (Z.mod_small (Z_of_byte b)) by (pose proof (Z_of_byte_range b); lia).
    pose proof (byte_of_Z_of_byte b) as Hb. unfold byte_of_Z in Hb.
    rewrite (Z.mod_small (Z_of_byte b)) in Hb by (pose proof (Z_of_byte_range b); lia). done. }
  exact (Hgen bs 0%Z).
Qed.

Lemma be_encode_inj n z z' :
  (0 <= z < 2 ^ (8 * Z.of_nat n))%Z → (0 <= z' < 2 ^ (8 * Z.of_nat n))%Z →
  be_encode n z = be_encode n z' → z = z'.
Proof.
  intros Hz Hz' Heq%(f_equal be_decode). rewrite !be_decode_encode in Heq.
  rewrite !Z.mod_small in Heq by done. done.
Qed.

(** ** Strings and byte slices *)

Notation bytes_of_string := String.list_byte_of_string.
Notation string_of_bytes := String.string_of_list_byte.

Lemma bytes_of_string_of_bytes (b : bytes) : bytes_of_string (string_of_bytes b) = b.
Proof. apply String.list_byte_of_string_of_list_byte. Qed.

Lemma string_of_bytes_of_string (s : string) : string_of_bytes (bytes_of_string s) = s.
Proof. apply String.string_of_list_byte_of_string. Qed.

(** ** Results

    A Go function that returns [(value, error)] is a [res]. *)

Inductive res (E A : Type) : Type :=
| Ok (a : A)
| Err (e : E).
Arguments Ok {E A} a.
Arguments Err {E A} e.

#[export] Instance res_ret {E} : MRet (res E) := λ A a, Ok a.
#[export] Instance res_bind {E} : MBind (res E) := λ A B f r,
  match r with Ok a => f a | Err e => Err e end.
#[export] Instance res_fmap {E} : FMap (res E) := λ A B f r,
  match r with Ok a => Ok (f a) | Err e => Err e end.

Definition is_ok {E A} (r : res E A) : bool :=
  match r with Ok _ => true | Err _ => false end.

Lemma res_bind_ok {E A B} (r : res E A) (f : A → res E B) b :
  r ≫= f = Ok b ↔ ∃ a, r = Ok a ∧ f a = Ok b.
Proof. destruct r; simpl; naive_solver. Qed.

(** ** State with panics

    Code that updates shared state and may panic (an index out of range, a
    nil dereference): [None] is the panic. *)

Definition ST (S A : Type) : Type := S → option (A * S).
#[export] Instance ST_ret {S} : MRet (ST S) := λ A a s, Some (a, s).
#[export] Instance ST_bind {S} : MBind (ST S) := λ A B f m s,
  match m s with Some (a, s) => f a s | None => None end.
Definition getST {S} : ST S S := λ s, Some (s, s).
Definition putST {S} (s : S) : ST S () := λ _, Some ((), s).
Definition modST {S} (f : S → S) : ST S () := λ s, Some ((), f s).
Definition panic {S A} : ST S A := λ _, None.
Definition liftST {S A} (o : option A) : ST S A := λ s, a ← o; Some (a, s).
Definition whenST {S} (b : bool) (m : ST S ()) : ST S () := if b then m else mret ().

Lemma ST_bind_eq {S A B} (m : ST S A) (f : A → ST S B) s a s' :
  m s = Some (a, s') → (m ≫= f) s = f a s'.
Proof. intros E. unfold mbind, ST_bind. by rewrite E. Qed.

Lemma ST_bind_inv {S A B} (m : ST S A) (f : A → ST S B) s b s'' :
  (m ≫= f) s = Some (b, s'') → ∃ a s', m s = Some (a, s') ∧ f a s' = Some (b, s'').
Proof. unfold mbind, ST_bind. destruct (m s) as [[a s']|]; [|done]. by exists a, s'. Qed.

(** ** Time

    [time.Time] and [time.Duration] are counts of nanoseconds. A [Duration]
    is an [int64]: a subtraction of times saturates, [UnixNano] wraps. *)

Notation time := Z (only parsing).
Notation duration := Z (only parsing).
Definition Nanosecond : duration := 1.
Definition Millisecond : duration := 1000000.
Definition Second : duration := 1000000000.

Definition time_add (t : time) (d : duration) : time := (t + d)%Z.
Definition time_sub (t u : time) : duration :=
  Z.max (- 2 ^ 63) (Z.min (2 ^ 63 - 1) (t - u)).
Definition UnixNano (t : time) : Z := i64 t.

(** ** Generic list lemmas *)

Section lists.
Context {A : Type}.
Implicit Types (l : list A) (P : A → Prop).

Lemma lookup_snoc_inv l x i y :
  (l ++ [x]) !! i = Some y →
  (l !! i = Some y ∧ i < length l) ∨ (i = length l ∧ y = x).
Proof.
  intros H. destruct (decide (i < length l)).
  - left. rewrite lookup_app_l in H by done. done.
  - right. rewrite lookup_app_r in H by lia.
    assert (i - length l = 0) as E.
    { apply lookup_lt_Some in H. simpl in H. lia. }
    rewrite E in H. simplify_eq/=. split; [lia|done].
Qed.

Lemma length_ge_app l (n : nat) :
  n ≤ length l → ∃ l1 l2, l = l1 ++ l2 ∧ length l1 = n.
Proof.
  intros. exists (take n l), (drop n l).
  rewrite take_drop, length_take. split; [done|lia].
Qed.
End lists.

Lemma StronglySorted_impl {A} (R R' : A → A → Prop) (l : list A) :
  (∀ a b, R a b → R' a b) → StronglySorted R l → StronglySorted R' l.
Proof.
  intros HR. induction 1 as [|a l _ IH Hf]; constructor; [done|].
  eapply Forall_impl; [exact Hf|]. naive_solver.
Qed.

(** ** Automation *)

Create HintDb nsq discriminated.
#[export] Hint Resolve i64_range i32_range u64_range Z_of_byte_range : nsq.
#[export] Hint Rewrite @length_app @length_be_encode @length_take @length_drop
  @length_insert @length_fmap : nsq.

(** Case analysis on the first [match] or [if] of a hypothesis, the usual
    step when a handler's guards are examined one after the other. *)
Ltac step_match H :=
  match type of H with
  | context [match ?x with _ => _ end] => destruct x eqn:?; try discriminate H
  end.

Ltac step_goal :=
  match goal with
  | |- context [match ?x with _ => _ end] => destruct x eqn:?
  end.

(** Runs the next action of an [ST] program, whose equation [tac] proves. *)
Ltac callST tac := erewrite ST_bind_eq by tac; cbv beta iota zeta.

Lemma mapM_total {A A'} (f : A → option A') l : (∀ a, a ∈ l → is_Some (f a)) → is_Some (mapM f l).
Proof. intros Hf. by apply mapM_is_Some_2, Forall_forall. Qed.

Ltac bool_to_prop :=
  repeat match goal with
  | H : (_ =? _)%Z = true |- _ => apply Z.eqb_eq in H
  | H : (_ =? _)%Z = false |- _ => apply Z.eqb_neq in H
  | H : (_ <? _)%Z = true |- _ => apply Z.ltb_lt in H
  | H : (_ <? _)%Z = false |- _ => apply Z.ltb_ge in H
  | H : (_ <=? _)%Z = true |- _ => apply Z.leb_le in H
  | H : (_ <=? _)%Z = false |- _ => apply Z.leb_gt in H
  | H : (_ <? _)%nat = true |- _ => apply Nat.ltb_lt in H
  | H : (_ <? _)%nat = false |- _ => apply Nat.ltb_ge in H
  | H : (_ <=? _)%nat = true |- _ => apply Nat.leb_le in H
  | H : (_ <=? _)%nat = false |- _ => apply Nat.leb_gt in H
  | H : (_ =? _)%nat = true |- _ => apply Nat.eqb_eq in H
  | H : (_ =? _)%nat = false |- _ => apply Nat.eqb_neq in H
  | H : negb _ = true |- _ => apply negb_true_iff in H
  | H : negb _ = false |- _ => apply negb_false_iff in H
  | H : _ && _ = true |- _ => apply andb_true_iff in H; destruct H
  | H : _ || _ = false |- _ => apply orb_false_iff in H; destruct H
  | H : bool_decide _ = true |- _ => apply bool_decide_eq_true in H
  | H : bool_decide _ = false |- _ => apply bool_decide_eq_false in H
  end.
