(* ===== verification/Decimal.v ===== *)
(** * Decimal numbers as the [fmt] verbs print and scan them

    [%d] (print and scan) and [%06d], and [protocol.ByteToBase10]
    (internal/protocol/byte_base10.go). *)
From stdpp Require Import base gmap list strings.
From Stdlib Require Import ZArith Lia.
From S2P Require Import Prelude.
Set Default Goal Selector "!".
Local Open Scope Z_scope.

Module Decimal.

Definition digit (n : Z) : byte := byte_of_Z (48 + n).
Definition is_digit (b : byte) : bool := (48 <=? Z_of_byte b) && (Z_of_byte b <=? 57).
Definition digit_val (b : byte) : Z := Z_of_byte b - 48.

Fixpoint digits_acc (fuel : nat) (n : Z) (acc : bytes) : bytes :=
  match fuel with
  | O => acc
  | S fuel =>
    if n <? 10 then digit n :: acc
    else digits_acc fuel (n / 10) (digit (n `mod` 10) :: acc)
  end.

(** The digits of [n], most significant first; a number has no more decimal
    than binary digits, which bounds the recursion. *)
Definition digits (n : Z) : bytes := digits_acc (S (Z.to_nat (Z.log2 n))) n [].

Definition minus : byte := byte_of_Z 45.

(** [%d] *)
Definition fmt_d (z : Z) : bytes := if z <? 0 then minus :: digits (- z) else digits z.

(** [%06d] *)
Definition fmt_06d (z : Z) : bytes :=
  if z <? 0 then minus :: replicate (5 - length (digits (- z))) (digit 0) ++ digits (- z)
  else replicate (6 - length (digits z)) (digit 0) ++ digits z.

Definition val (bs : bytes) : Z := foldl (λ acc b, acc * 10 + digit_val b) 0 bs.

(** The longest prefix of digits. *)
Fixpoint span_digits (bs : bytes) : bytes * bytes :=
  match bs with
  | b :: bs' => if is_digit b then let '(d, r) := span_digits bs' in (b :: d, r) else ([], bs)
  | [] => ([], [])
  end.

(** Scanning [%d] into an [int64]: an optional sign, at least one digit, in
    range. *)
Definition scan_d (bs : bytes) : option (Z * bytes) :=
  let '(neg, bs) :=
    match bs with
    | b :: bs' => if bool_decide (b = minus) then (true, bs')
                  else if bool_decide (b = byte_of_Z 43) then (false, bs') else (false, bs)
    | [] => (false, [])
    end in
  let '(d, r) := span_digits bs in
  if bool_decide (d = []) then None else
  let z := if neg : bool then - val d else val d in
  if (- 2 ^ 63 <=? z) && (z <? 2 ^ 63) then Some (z, r) else None.

(** [protocol.ByteToBase10]: every byte a digit, on [uint64] that wraps. *)
Fixpoint ByteToBase10_loop (n : Z) (b : bytes) : res string Z :=
  match b with
  | [] => Ok n
  | d :: b =>
    if is_digit d
    then let v := digit_val d in
         let n := u64 (n * 10) in
         let n := u64 (n + v) in
         ByteToBase10_loop n b
    else Err "failed to convert to Base10"%string
  end.
Definition ByteToBase10 (b : bytes) : res string Z := ByteToBase10_loop 0 b.

(** [strconv.ParseInt(s, 10, 64)] *)
Definition ParseInt (s : bytes) : res string Z :=
  let '(neg, d) := match s with
                   | b :: d => if bool_decide (b = byte_of_Z 43) then (false, d)
                               else if bool_decide (b = minus) then (true, d) else (false, s)
                   | [] => (false, [])
                   end in
  if bool_decide (d = []) || negb (forallb is_digit d) then Err "invalid syntax"%string else
  let z := if neg then - val d else val d in
  if (z <? - 2 ^ 63) || (2 ^ 63 <=? z) then Err "value out of range"%string else Ok z.

(** [strconv.Atoi] on 64 bits: the value beside an error is 0, or the nearest
    integer when the number is out of range. *)
Definition Atoi (s : bytes) : Z * option string :=
  match ParseInt s with
  | Ok z => (z, None)
  | Err e => (if bool_decide (e = "value out of range"%string) then (if bool_decide (head s = Some minus) then - 2 ^ 63 else 2 ^ 63 - 1) else 0, Some e)
  end.

(** ** Lemmas *)

Lemma digit_val_digit n : 0 <= n < 10 → digit_val (digit n) = n ∧ is_digit (digit n) = true.
Proof.
  intros Hn. unfold digit_val, digit, is_digit. rewrite Z_of_byte_of_Z, Z.mod_small by lia.
  split; [lia|]. apply andb_true_iff. lia.
Qed.

Lemma val_acc acc bs :
  foldl (λ acc b, acc * 10 + digit_val b) acc bs = acc * 10 ^ Z.of_nat (length bs) + val bs.
Proof.
  unfold val. revert acc. induction bs as [|b bs IH]; intros acc; cbn [foldl length].
  - change (10 ^ Z.of_nat 0) with 1. lia.
  - rewrite IH, (IH (0 * 10 + digit_val b)). rewrite Nat2Z.inj_succ, Z.pow_succ_r by lia. lia.
Qed.

Lemma val_cons b bs : val (b :: bs) = digit_val b * 10 ^ Z.of_nat (length bs) + val bs.
Proof. unfold val at 1. cbn [foldl]. rewrite val_acc. lia. Qed.

Lemma val_app bs bs' : val (bs ++ bs') = val bs * 10 ^ Z.of_nat (length bs') + val bs'.
Proof. unfold val at 1. rewrite foldl_app, val_acc. done. Qed.

Lemma log2_div10 n : 10 <= n → Z.log2 (n / 10) < Z.log2 n.
Proof.
  intros Hn. apply Z.log2_lt_pow2; [lia|].
  pose proof (Z.log2_spec n ltac:(lia)) as [_ Hs]. rewrite Z.pow_succ_r in Hs by apply Z.log2_nonneg. lia.
Qed.

Lemma digits_acc_spec fuel n acc :
  0 <= n → (Z.to_nat (Z.log2 n) < fuel)%nat →
  ∃ d, digits_acc fuel n acc = d ++ acc ∧ val d = n ∧ Forall (λ b, is_digit b = true) d ∧ d ≠ [].
Proof.
  revert n acc. induction fuel as [|fuel IH]; intros n acc Hn Hf; [lia|].
  cbn [digits_acc]. destruct (n <? 10) eqn:E; bool_to_prop.
  - exists [digit n]. destruct (digit_val_digit n) as [Hv Hd]; [lia|].
    split_and!; [done| |by repeat constructor|done]. unfold val. cbn. lia.
  - destruct (IH (n / 10) (digit (n `mod` 10) :: acc)) as (d & Ed & Hv & Hd & Hne).
    { lia. } { pose proof (log2_div10 n). pose proof (Z.log2_nonneg (n / 10)). lia. }
    destruct (digit_val_digit (n `mod` 10)) as [Hv' Hd']; [lia|].
    exists (d ++ [digit (n `mod` 10)]). split_and!.
    + rewrite Ed, <- app_assoc. done.
    + rewrite val_app, Hv. unfold val. cbn [foldl length]. rewrite Hv'. change (10 ^ Z.of_nat 1) with 10. lia.
    + apply Forall_app. split; [done|by repeat constructor].
    + by destruct d.
Qed.

Lemma digits_spec n : 0 <= n →
  val (digits n) = n ∧ Forall (λ b, is_digit b = true) (digits n) ∧ digits n ≠ [].
Proof.
  intros Hn. unfold digits. destruct (digits_acc_spec (S (Z.to_nat (Z.log2 n))) n []) as (d & -> & ? & ? & ?).
  { done. } { lia. }
  by rewrite app_nil_r.
Qed.

Lemma span_digits_app d r :
  Forall (λ b, is_digit b = true) d →
  match r with b :: _ => is_digit b = false | [] => True end →
  span_digits (d ++ r) = (d, r).
Proof.
  intros Hd Hr. induction Hd as [|b d Hb _ IH]; cbn.
  - destruct r as [|b r]; [done|]. cbn. by rewrite Hr.
  - by rewrite Hb, IH.
Qed.

Lemma digit_not_sign b : is_digit b = true → b ≠ minus ∧ b ≠ byte_of_Z 43.
Proof. intros H. split; intros ->; vm_compute in H; done. Qed.

(** Scanning what was printed, followed by anything but a digit. *)
Lemma scan_fmt_d z r :
  in_i64 z → match r with b :: _ => is_digit b = false | [] => True end →
  scan_d (fmt_d z ++ r) = Some (z, r).
Proof.
  intros Hz Hr. unfold fmt_d, in_i64 in *. destruct (z <? 0) eqn:E; bool_to_prop.
  - destruct (digits_spec (- z)) as (Hv & Hd & Hne); [lia|].
    unfold scan_d. cbn [app]. rewrite bool_decide_eq_true_2 by done.
    rewrite span_digits_app by done. rewrite bool_decide_eq_false_2 by done. rewrite Hv.
    rewrite Z.opp_involutive. rewrite (proj2 (andb_true_iff _ _)); [done|]. lia.
  - destruct (digits_spec z) as (Hv & Hd & Hne); [lia|].
    unfold scan_d. destruct (digits z) as [|b d] eqn:Ed; [done|]. cbn [app].
    apply Forall_cons in Hd as Hd'. destruct Hd' as [Hb _]. destruct (digit_not_sign b Hb) as [H1 H2].
    rewrite !bool_decide_eq_false_2 by done.
    change (b :: d ++ r) with ((b :: d) ++ r). rewrite span_digits_app by done.
    rewrite bool_decide_eq_false_2 by done. rewrite Hv.
    rewrite (proj2 (andb_true_iff _ _)); [done|]. lia.
Qed.

Lemma val_replicate_0 n bs : val (replicate n (digit 0) ++ bs) = val bs.
Proof.
  induction n as [|n IH]; [done|]. cbn [replicate app]. rewrite val_cons, IH.
  destruct (digit_val_digit 0) as [-> _]; lia.
Qed.

Lemma fmt_06d_digits z : 0 <= z → Forall (λ b, is_digit b = true) (fmt_06d z) ∧ val (fmt_06d z) = z.
Proof.
  intros Hz. unfold fmt_06d. destruct (z <? 0) eqn:E; bool_to_prop; [lia|].
  destruct (digits_spec z Hz) as (Hv & Hd & _). split.
  - apply Forall_app. split; [|done]. apply Forall_replicate. by vm_compute.
  - by rewrite val_replicate_0.
Qed.

Lemma fmt_06d_inj z z' : 0 <= z → 0 <= z' → fmt_06d z = fmt_06d z' → z = z'.
Proof.
  intros Hz Hz' E. destruct (fmt_06d_digits z Hz) as [_ <-], (fmt_06d_digits z' Hz') as [_ <-].
  by rewrite E.
Qed.

Lemma ByteToBase10_loop_spec b n :
  in_u64 n →
  ByteToBase10_loop n b =
    if forallb is_digit b then Ok (u64 (n * 10 ^ Z.of_nat (length b) + val b))
    else Err "failed to convert to Base10"%string.
Proof.
  revert n. induction b as [|d b IH]; intros n Hn; cbn [ByteToBase10_loop forallb length].
  - change (10 ^ Z.of_nat 0) with 1. unfold val. cbn. f_equal. rewrite u64_id by (pow2; lia). lia.
  - destruct (is_digit d) eqn:Hd; [|done]. cbn [andb]. rewrite IH by apply u64_range.
    destruct (forallb is_digit b); [|done]. f_equal.
    rewrite val_cons, Nat2Z.inj_succ, Z.pow_succ_r by lia.
    set (p := 10 ^ Z.of_nat (length b)). unfold uwrap.
    replace (n * (10 * p) + (digit_val d * p + val b)) with ((n * 10 + digit_val d) * p + val b) by lia.
    rewrite (Z.add_mod_idemp_l (n * 10)) by done.
    rewrite <- (Z.add_mod_idemp_l (_ * p)) by done.
    rewrite Z.mul_mod_idemp_l, Z.add_mod_idemp_l by done. done.
Qed.

(** ** Properties *)

(** [ByteToBase10] computes the number its digits denote, modulo 2^64 (it
    has no overflow check), fails exactly when some byte is not a digit, and
    inverts [%d] on every [uint64]. *)
Theorem ByteToBase10_value :
  (∀ b, ByteToBase10 b = if forallb is_digit b then Ok (u64 (val b))
                         else Err "failed to convert to Base10"%string) ∧
  (∀ n, in_u64 n → ByteToBase10 (fmt_d n) = Ok n).
Proof.
  assert (H : ∀ b, ByteToBase10 b = if forallb is_digit b then Ok (u64 (val b))
                         else Err "failed to convert to Base10"%string).
  { intros b. unfold ByteToBase10. rewrite ByteToBase10_loop_spec by (pow2; lia).
    by replace (0 * 10 ^ Z.of_nat (length b) + val b) with (val b) by lia. }
  split; [done|]. intros n Hn. rewrite H. unfold fmt_d.
  destruct (n <? 0) eqn:E; bool_to_prop; [pow2; lia|].
  destruct (digits_spec n) as (Hv & Hd & _); [lia|].
  replace (forallb is_digit (digits n)) with true; [by rewrite Hv, u64_id|].
  symmetry. apply forallb_forall. intros x Hx. rewrite Forall_forall in Hd.
  apply Hd. by apply list_elem_of_In.
Qed.

Lemma ByteToBase10_value_witness : ByteToBase10 (fmt_d 18446744073709551615) = Ok 18446744073709551615.
Proof. apply (proj2 ByteToBase10_value). unfold in_u64. lia. Defined.

End Decimal.
