(* ===== verification/Text.v ===== *)
(** * Names, tokens and small string helpers

    [protocol.IsValidTopicName]/[IsValidChannelName] (internal/protocol/names.go)
    with the regular expression they use, the splitting of a command line into
    tokens ([bytes.Split]), [stringy] (internal/stringy/slice.go) and
    [util.UniqRands] (internal/util/rand.go). *)
From stdpp Require Import base gmap list strings.
From Stdlib Require Import ZArith Lia.
From S2P Require Import Prelude.
Set Default Goal Selector "!".

Module Regex.

(** The operators of Go's [regexp] the names use, matched by derivatives. *)
Inductive re :=
| Empty
| Eps
| Class (p : byte → bool)
| Seq (r s : re)
| Alt (r s : re)
| Star (r : re).

Definition Plus (r : re) : re := Seq r (Star r).
Definition Opt (r : re) : re := Alt Eps r.
Fixpoint Lit (bs : bytes) : re :=
  match bs with
  | [] => Eps
  | b :: bs => Seq (Class (λ c, bool_decide (c = b))) (Lit bs)
  end.

Fixpoint nullable (r : re) : bool :=
  match r with
  | Empty => false
  | Eps => true
  | Class _ => false
  | Seq r s => nullable r && nullable s
  | Alt r s => nullable r || nullable s
  | Star _ => true
  end.

Fixpoint deriv (b : byte) (r : re) : re :=
  match r with
  | Empty | Eps => Empty
  | Class p => if p b then Eps else Empty
  | Seq r s => if nullable r then Alt (Seq (deriv b r) s) (deriv b s) else Seq (deriv b r) s
  | Alt r s => Alt (deriv b r) (deriv b s)
  | Star r => Seq (deriv b r) (Star r)
  end.

(** [^r$] *)
Fixpoint matches (r : re) (bs : bytes) : bool :=
  match bs with
  | [] => nullable r
  | b :: bs => matches (deriv b r) bs
  end.

(** The language a regular expression denotes. *)
Inductive lang : re → bytes → Prop :=
| lang_eps : lang Eps []
| lang_class p b : p b = true → lang (Class p) [b]
| lang_seq r s x y : lang r x → lang s y → lang (Seq r s) (x ++ y)
| lang_alt_l r s x : lang r x → lang (Alt r s) x
| lang_alt_r r s x : lang s x → lang (Alt r s) x
| lang_star_nil r : lang (Star r) []
| lang_star_cons r x y : lang r x → lang (Star r) y → lang (Star r) (x ++ y).

Lemma nullable_lang r : nullable r = true ↔ lang r [].
Proof.
  split.
  - induction r as [| | |r IHr s IHs|r IHr s IHs|r IHr]; cbn; try done.
    + constructor.
    + intros [Hr Hs]%andb_true_iff. change (@nil byte) with (@nil byte ++ []). constructor; auto.
    + intros [Hr|Hs]%orb_true_iff; [apply lang_alt_l|apply lang_alt_r]; auto.
    + constructor.
  - remember [] as x eqn:E. induction 1; cbn; simplify_eq; try done.
    + apply app_nil in E as [-> ->]. rewrite IHlang1, IHlang2; done.
    + by rewrite IHlang.
    + rewrite IHlang by done. apply orb_true_r.
Qed.

Lemma star_cons_inv r b x : lang (Star r) (b :: x) → ∃ y z, x = y ++ z ∧ lang r (b :: y) ∧ lang (Star r) z.
Proof.
  remember (Star r) as rs eqn:Er. remember (b :: x) as bx eqn:Ex. intros H. revert b x Ex.
  induction H as [| | | | | |r0 x y Hx _ Hy IH]; intros b' x' Ex; simplify_eq.
  destruct x as [|b0 x]; cbn in Ex; [by apply IH|]. simplify_eq. by exists x, y.
Qed.

Lemma deriv_lang b r x : lang (deriv b r) x ↔ lang r (b :: x).
Proof.
  revert x. induction r as [| |p|r IHr s IHs|r IHr s IHs|r IHr]; intros x; cbn [deriv].
  - split; inversion 1.
  - split; inversion 1.
  - destruct (p b) eqn:E.
    + split; [inversion 1; by constructor|]. inversion 1; subst. constructor.
    + split; [inversion 1|]. inversion 1; congruence.
  - assert (Hseq : lang (Seq (deriv b r) s) x → lang (Seq r s) (b :: x)).
    { inversion 1; subst. rewrite app_comm_cons. constructor; [by apply IHr|done]. }
    destruct (nullable r) eqn:E; split.
    + inversion 1; subst; [by apply Hseq|].
      change (b :: x) with ([] ++ b :: x). constructor; [by apply nullable_lang|by apply IHs].
    + inversion 1 as [| |? ? y z Hy Hz Er Ex| | | |]; subst. destruct y as [|b0 y]; cbn in Ex.
      * subst z. apply lang_alt_r. by apply IHs.
      * injection Ex as -> <-. apply lang_alt_l. constructor; [by apply IHr|done].
    + apply Hseq.
    + inversion 1 as [| |? ? y z Hy Hz Er Ex| | | |]; subst. destruct y as [|b0 y]; cbn in Ex.
      * apply nullable_lang in Hy. congruence.
      * injection Ex as -> <-. constructor; [by apply IHr|done].
  - split; inversion 1; subst; [apply lang_alt_l|apply lang_alt_r|apply lang_alt_l|apply lang_alt_r];
      by (apply IHr || apply IHs).
  - split.
    + inversion 1; subst. rewrite app_comm_cons. constructor; [by apply IHr|done].
    + intros (y & z & -> & Hy & Hz)%star_cons_inv. constructor; [by apply IHr|done].
Qed.

Lemma matches_lang r x : matches r x = true ↔ lang r x.
Proof.
  revert r. induction x as [|b x IH]; intros r; cbn; [apply nullable_lang|].
  rewrite IH. apply deriv_lang.
Qed.

Lemma lang_Lit bs x : lang (Lit bs) x ↔ x = bs.
Proof.
  revert x. induction bs as [|b bs IH]; intros x; cbn.
  - split; [by inversion 1|intros ->; constructor].
  - split.
    + inversion 1 as [| |? ? y z Hy Hz Er Ex| | | |]; subst. inversion Hy; subst. bool_to_prop. subst.
      cbn. f_equal. by apply IH.
    + intros ->. change (b :: bs) with ([b] ++ bs). constructor; [|by apply IH].
      constructor. by apply bool_decide_eq_true.
Qed.

Lemma lang_Star_Class p x : lang (Star (Class p)) x ↔ Forall (λ b, p b = true) x.
Proof.
  split.
  - remember (Star (Class p)) as rs eqn:Er. induction 1 as [| | | | | |r x y Hx _ Hy IH]; simplify_eq; [constructor|].
    apply Forall_app. split; [|by apply IH]. inversion Hx; subst. by repeat constructor.
  - induction 1 as [|b x Hb Hx IH]; [constructor|].
    change (b :: x) with ([b] ++ x). constructor; [by constructor|done].
Qed.

End Regex.

Module Names.
Import Regex.

Definition in_range (b : byte) (lo hi : Z) : bool := ((lo <=? Z_of_byte b) && (Z_of_byte b <=? hi))%Z.

(** [[\.a-zA-Z0-9_-]] *)
Definition name_char (b : byte) : bool :=
  bool_decide (Z_of_byte b = 46)%Z || in_range b 97 122 || in_range b 65 90 || in_range b 48 57
  || bool_decide (Z_of_byte b = 95)%Z || bool_decide (Z_of_byte b = 45)%Z.

Definition ephemeral_suffix : bytes := bytes_of_string "#ephemeral".

(** [^[\.a-zA-Z0-9_-]+(#ephemeral)?$] *)
Definition validTopicChannelNameRegex : re :=
  Seq (Plus (Class name_char)) (Opt (Lit ephemeral_suffix)).

Definition isValidName (name : bytes) : bool :=
  if bool_decide (64 < length name)%nat || bool_decide (length name < 1)%nat then false
  else matches validTopicChannelNameRegex name.

Definition IsValidTopicName (name : bytes) : bool := isValidName name.
Definition IsValidChannelName (name : bytes) : bool := isValidName name.

(** [strings.HasSuffix] *)
Definition HasSuffix (s suffix : bytes) : bool :=
  bool_decide (length suffix <= length s)%nat &&
  bool_decide (drop (length s - length suffix) s = suffix).

(** The test nsqd uses for names that must not be persisted. *)
Definition is_ephemeral (name : bytes) : bool := HasSuffix name ephemeral_suffix.

Lemma HasSuffix_spec s suffix : HasSuffix s suffix = true ↔ ∃ base, s = base ++ suffix.
Proof.
  unfold HasSuffix. rewrite andb_true_iff, !bool_decide_eq_true. split.
  - intros [Hl E]. exists (take (length s - length suffix) s). rewrite <- E at 2. by rewrite take_drop.
  - intros [base ->]. rewrite length_app. split; [lia|].
    replace (length base + length suffix - length suffix)%nat with (length base) by lia.
    apply drop_app_length.
Qed.

(** A topic or channel name is accepted exactly when it has 1 to 64
    bytes and is a non-empty run of letters, digits, dots, underscores and
    dashes, followed by nothing or by [#ephemeral]; in particular an accepted
    name is ephemeral exactly when the run is the name without that suffix. *)
Theorem isValidName_spec (name : bytes) :
  (isValidName name = true ↔
    (1 <= length name <= 64)%nat ∧
    ∃ base, base ≠ [] ∧ Forall (λ b, name_char b = true) base ∧
      (name = base ∨ name = base ++ ephemeral_suffix)) ∧
  (isValidName name = true → (is_ephemeral name = false ↔ Forall (λ b, name_char b = true) name)).
Proof.
  assert (Hlang : ∀ x, lang validTopicChannelNameRegex x ↔
    ∃ base, base ≠ [] ∧ Forall (λ b, name_char b = true) base ∧ (x = base ∨ x = base ++ ephemeral_suffix)).
  { intros x. unfold validTopicChannelNameRegex, Opt. generalize ephemeral_suffix as suf. intros suf. split.
    - unfold Plus. inversion 1 as [| |? ? y z Hy Hz Er Ex| | | |]; subst.
      inversion Hy as [| |? ? y1 y2 Hy1 Hy2 Er2 Ey| | | |]; subst. inversion Hy1; subst.
      apply lang_Star_Class in Hy2. exists ([b] ++ y2). split_and!; [done|by constructor|].
      inversion Hz as [| | |? ? ? Hn|? ? ? Hn| |]; subst.
      + inversion Hn; subst. left. by rewrite app_nil_r.
      + apply lang_Lit in Hn. subst. by right.
    - intros (base & Hne & Hf & Hx).
      assert (Hp : lang (Plus (Class name_char)) base).
      { destruct base as [|b base]; [done|]. apply Forall_cons in Hf as [Hb Hf].
        change (b :: base) with ([b] ++ base). constructor; [by constructor|by apply lang_Star_Class]. }
      destruct Hx as [->| ->].
      + rewrite <- (app_nil_r base). constructor; [done|]. apply lang_alt_l. constructor.
      + constructor; [done|]. apply lang_alt_r. by apply lang_Lit. }
  assert (Hv : isValidName name = true ↔ (1 <= length name <= 64)%nat ∧
    ∃ base, base ≠ [] ∧ Forall (λ b, name_char b = true) base ∧ (name = base ∨ name = base ++ ephemeral_suffix)).
  { unfold isValidName. rewrite <- Hlang, <- matches_lang.
    case_bool_decide; [cbn; split; [done|lia]|]. case_bool_decide; cbn [orb]; [split; [done|lia]|].
    split; [intros ?; split; [lia|done]|by intros [_ ?]]. }
  split; [exact Hv|]. rewrite Hv. clear Hv Hlang. intros (_ & base & Hne & Hf & Hx). split.
  - intros He. destruct Hx as [->| ->]; [done|]. exfalso. apply not_true_iff_false in He. apply He.
    apply HasSuffix_spec. by exists base.
  - intros Hall. apply not_true_iff_false. intros [b' ->]%HasSuffix_spec.
    apply Forall_app in Hall as [_ Hall]. apply Forall_cons in Hall as [Hall _]. vm_compute in Hall. done.
Qed.

Lemma isValidName_spec_witness :
  is_ephemeral (bytes_of_string "a#ephemeral") = false ↔
  Forall (λ b, name_char b = true) (bytes_of_string "a#ephemeral").
Proof. apply (proj2 (isValidName_spec _)). vm_compute. reflexivity. Defined.

End Names.

(** ** Splitting *)
Module Split.

(** [bytes.Split(s, sep)] and [strings.Split] for a one-byte separator. *)
Fixpoint split (sep : byte) (s : bytes) : list bytes :=
  match s with
  | [] => [[]]
  | b :: s =>
    if bool_decide (b = sep) then [] :: split sep s
    else match split sep s with
         | w :: ws => (b :: w) :: ws
         | [] => [[b]]
         end
  end.

(** [bytes.Join] *)
Fixpoint join (sep : byte) (ws : list bytes) : bytes :=
  match ws with
  | [] => []
  | [w] => w
  | w :: ws => w ++ sep :: join sep ws
  end.

Lemma split_cons sep s : ∃ w ws, split sep s = w :: ws.
Proof.
  destruct s as [|b s]; cbn; [by eexists _, _|]. case_bool_decide; [by eexists _, _|].
  destruct (split sep s); by eexists _, _.
Qed.

Lemma split_not_nil sep s : split sep s ≠ [].
Proof. destruct (split_cons sep s) as (w & ws & E). by rewrite E. Qed.

Lemma join_cons sep w ws : ws ≠ [] → join sep (w :: ws) = w ++ sep :: join sep ws.
Proof. by destruct ws. Qed.

Lemma join_split sep s : join sep (split sep s) = s.
Proof.
  induction s as [|b s IH]; [done|]. cbn [split].
  destruct (split_cons sep s) as (w & ws & E). case_bool_decide as Hb.
  - rewrite join_cons by (by rewrite E). rewrite IH. by subst.
  - rewrite E in *. destruct ws as [|w' ws]; cbn in *; congruence.
Qed.

Lemma split_no_sep sep s : Forall (λ w, sep ∉ w) (split sep s).
Proof.
  induction s as [|b s IH]; cbn.
  - constructor; [apply not_elem_of_nil|constructor].
  - case_bool_decide as Hb.
    + constructor; [apply not_elem_of_nil|done].
    + destruct (split_cons sep s) as (w & ws & E). rewrite E in *.
      apply Forall_cons in IH as [Hw Hws]. constructor; [|done].
      rewrite not_elem_of_cons. split; [congruence|done].
Qed.

Lemma split_word sep w : sep ∉ w → split sep w = [w].
Proof.
  induction w as [|b w IH]; [done|]. rewrite not_elem_of_cons. intros [Hb Hw]. cbn [split].
  rewrite bool_decide_eq_false_2 by congruence. by rewrite IH.
Qed.

Lemma split_app sep w s : sep ∉ w → split sep (w ++ sep :: s) = w :: split sep s.
Proof.
  induction w as [|b w IH]; intros Hw; cbn [app split].
  - by rewrite bool_decide_eq_true_2.
  - apply not_elem_of_cons in Hw as [Hb Hw]. rewrite bool_decide_eq_false_2 by congruence. by rewrite IH.
Qed.

(** Splitting inverts joining words free of the separator. *)
Lemma split_join sep ws : ws ≠ [] → Forall (λ w, sep ∉ w) ws → split sep (join sep ws) = ws.
Proof.
  intros Hne Hws. induction Hws as [|w ws Hw Hws IH]; [done|].
  destruct ws as [|w' ws]; [by apply split_word|].
  rewrite join_cons by done. rewrite split_app by done. by rewrite IH.
Qed.

End Split.

(** ** String sets kept in slices (internal/stringy) *)
Module Stringy.
Section stringy.
Context {A : Type} `{EqDecision A}.

Definition Add (s : list A) (a : A) : list A :=
  if bool_decide (a ∈ s) then s else s ++ [a].

Fixpoint Union (s a : list A) : list A :=
  match a with
  | [] => s
  | entry :: a => Union (if bool_decide (entry ∈ s) then s else s ++ [entry]) a
  end.

Fixpoint Uniq_loop (r s : list A) : list A :=
  match s with
  | [] => r
  | entry :: s => Uniq_loop (if bool_decide (entry ∈ r) then r else r ++ [entry]) s
  end.
Definition Uniq (s : list A) : list A := Uniq_loop [] s.

Lemma Add_spec s a x : (x ∈ Add s a ↔ x ∈ s ∨ x = a) ∧ (NoDup s → NoDup (Add s a)).
Proof.
  unfold Add. case_bool_decide as E; split; try done.
  - split; [by left|]. intros [?| ->]; done.
  - rewrite elem_of_app, list_elem_of_singleton. done.
  - intros Hs. apply NoDup_app. split_and!; [done| |apply NoDup_singleton].
    intros y Hy. rewrite list_elem_of_singleton. by intros ->.
Qed.

Lemma Union_Add s a : Union s a = foldl Add s a.
Proof. revert s. induction a as [|x a IH]; intros s; cbn; [done|]. apply IH. Qed.

Lemma Uniq_Union s : Uniq s = Union [] s.
Proof.
  unfold Uniq. generalize (@nil A) as r. induction s as [|x s IH]; intros r; cbn; [done|]. apply IH.
Qed.

Lemma Union_spec s a x : (x ∈ Union s a ↔ x ∈ s ∨ x ∈ a) ∧ (NoDup s → NoDup (Union s a)).
Proof.
  rewrite Union_Add. revert s. induction a as [|y a IH]; intros s; cbn [foldl].
  - split; [|done]. split; [by left|]. intros [?|?%elem_of_nil]; done.
  - destruct (IH (Add s y)) as [H1 H2], (Add_spec s y x) as [H3 H4]. split; [|by auto].
    rewrite H1, H3, elem_of_cons. tauto.
Qed.

Lemma Uniq_spec s x : (x ∈ Uniq s ↔ x ∈ s) ∧ NoDup (Uniq s).
Proof.
  rewrite Uniq_Union. destruct (Union_spec [] s x) as [H1 H2]. split; [|apply H2; constructor].
  rewrite H1. split; [intros [?%elem_of_nil|?]; done|by right].
Qed.
End stringy.
End Stringy.

(** ** [util.UniqRands] *)
Module Rands.

(** [rand_Int k] is the result of the [k]-th call of [rand.Int()], a
    non-negative number; the model starts at the call [k]. *)
Fixpoint UniqRands_loop (rand_Int : nat → nat) (k n i maxval : nat) (l : list nat) : option (list nat) :=
  match n with
  | O => Some l
  | S n =>
    if bool_decide (maxval = 0)%nat then None (* division by zero *) else
    let j := (rand_Int k `mod` maxval + i)%nat in
    x ← l !! i; y ← l !! j;
    UniqRands_loop rand_Int (S k) n (S i) (maxval - 1) (<[j := x]> (<[i := y]> l))
  end.

Definition UniqRands (rand_Int : nat → nat) (quantity maxval : nat) : option (list nat) :=
  let quantity := if bool_decide (maxval < quantity)%nat then maxval else quantity in
  l ← UniqRands_loop rand_Int 0 quantity 0 maxval (seq 0 maxval);
  Some (take quantity l).

Lemma swap_Permutation (l : list nat) (i j x y : nat) :
  l !! i = Some x → l !! j = Some y → <[j := x]> (<[i := y]> l) ≡ₚ l.
Proof.
  intros Hi Hj. destruct (decide (i = j)) as [->|Hne].
  { rewrite list_insert_insert_eq. simplify_eq. by rewrite list_insert_id. }
  apply Permutation_inj. split.
  - by rewrite !length_insert.
  - exists (λ k, if decide (k = i) then j else if decide (k = j) then i else k). split.
    + intros a b. repeat case_decide; congruence.
    + intros k. pose proof (lookup_lt_Some _ _ _ Hi). pose proof (lookup_lt_Some _ _ _ Hj).
      repeat case_decide; subst.
      * rewrite list_lookup_insert_ne by done. rewrite list_lookup_insert_eq by done. by rewrite Hj.
      * rewrite list_lookup_insert_eq by (by rewrite length_insert). by rewrite Hi.
      * by rewrite !list_lookup_insert_ne by done.
Qed.

Lemma UniqRands_loop_spec rand_Int k n i maxval l :
  (n <= maxval)%nat → (i + maxval = length l)%nat →
  ∃ l', UniqRands_loop rand_Int k n i maxval l = Some l' ∧ l' ≡ₚ l.
Proof.
  revert k i maxval l. induction n as [|n IH]; intros k i maxval l Hn Hl; cbn; [by eexists|].
  rewrite bool_decide_eq_false_2 by lia.
  pose proof (Nat.mod_upper_bound (rand_Int k) maxval ltac:(lia)) as Hm.
  destruct (lookup_lt_is_Some_2 l i) as [x Hx]; [lia|].
  destruct (lookup_lt_is_Some_2 l (rand_Int k `mod` maxval + i)) as [y Hy]; [lia|].
  rewrite Hx. cbn. rewrite Hy. cbn.
  destruct (IH (S k) (S i) (maxval - 1)%nat (<[(rand_Int k `mod` maxval + i)%nat := x]> (<[i := y]> l)))
    as (l' & E & P); [lia|rewrite !length_insert; lia|].
  exists l'. split; [done|]. rewrite P. by apply swap_Permutation.
Qed.

Lemma UniqRands_spec rand_Int quantity maxval :
  ∃ l, UniqRands rand_Int quantity maxval = Some l ∧ NoDup l ∧
    length l = Nat.min quantity maxval ∧ Forall (λ x, (x < maxval)%nat) l.
Proof.
  unfold UniqRands. set (q := if bool_decide (maxval < quantity)%nat then maxval else quantity).
  assert (Hq : q = Nat.min quantity maxval) by (unfold q; case_bool_decide; lia).
  destruct (UniqRands_loop_spec rand_Int 0 q 0 maxval (seq 0 maxval)) as (l & E & P).
  { lia. } { by rewrite length_seq. }
  rewrite E. cbn. exists (take q l). split_and!; [done| | |].
  - assert (Hnd : NoDup l) by (rewrite P; apply NoDup_seq).
    rewrite <- (take_drop q l) in Hnd. by apply NoDup_app in Hnd as [? _].
  - rewrite length_take, P, length_seq. lia.
  - apply Forall_forall. intros x Hx. apply (subseteq_take q) in Hx.
    rewrite P in Hx. apply elem_of_seq in Hx. lia.
Qed.

End Rands.
