(* ===== verification/Paths.v ===== *)
(** * Paths and strings of files

    [path.Clean], [path.Join], [filepath.Split], and [strings.Replace] of all
    occurrences, as the programs use them on the names of files and routes. *)
From stdpp Require Import base list strings.
From Stdlib Require Import ZArith Lia.
From S2P Require Import Prelude.
From S2P Require Import Text.
Set Default Goal Selector "!".
Local Open Scope nat_scope.

Module Paths.

Definition tx := bytes_of_string.
Definition slash : byte := byte_of_Z 47.

(** [path.Clean]: its parts, of a rooted path or another. *)
Definition clean_part (rooted : bool) (parts : list bytes) (p : bytes) : list bytes :=
  if bool_decide (p = []) || bool_decide (p = tx ".") then parts else
  if bool_decide (p = tx "..") then
    match last parts with
    | None => if rooted then [] else [p]
    | Some q => if bool_decide (q = tx "..") then parts ++ [p] else take (length parts - 1) parts
    end
  else parts ++ [p].
Definition Clean (p : bytes) : bytes :=
  let rooted := bool_decide (head p = Some slash) in
  let s := Split.join slash (foldl (clean_part rooted) [] (Split.split slash p)) in
  if rooted then slash :: s else if bool_decide (s = []) then tx "." else s.
(** [path.Join] of two. *)
Definition Join (a b : bytes) : bytes :=
  match a, b with
  | [], [] => []
  | [], _ => Clean b
  | _, _ => Clean (a ++ slash :: b)
  end.

(** [filepath.Split]: up to the last slash, and after it. *)
Fixpoint split_file (p : bytes) : bytes * bytes :=
  match p with
  | [] => ([], [])
  | b :: p => let '(d, f) := split_file p in
              if bool_decide (d = []) && negb (bool_decide (b = slash)) then ([], b :: f) else (b :: d, f)
  end.

(** [strings.HasPrefix], [strings.TrimPrefix] *)
Definition has_prefix (s prefix : bytes) : bool := bool_decide (take (length prefix) s = prefix).
Definition TrimPrefix (s prefix : bytes) : bytes := if has_prefix s prefix then drop (length prefix) s else s.

(** [strings.Replace(s, old, new, -1)] of a non-empty [old]; the first [skip]
    bytes belong to an occurrence that has been replaced. *)
Fixpoint replace (skip : nat) (old new s : bytes) : bytes :=
  match s with
  | [] => []
  | b :: r =>
    match skip with
    | S skip => replace skip old new r
    | O => if has_prefix s old then new ++ replace (length old - 1) old new r else b :: replace 0 old new r
    end
  end.
Definition Replace (s old new : bytes) : bytes := replace 0 old new s.
(** [strings.Index(s, old) != -1] *)
Fixpoint Contains (s old : bytes) : bool := has_prefix s old || match s with [] => false | _ :: r => Contains r old end.

(** ** Clean rooted paths *)

(** A part of a clean path. *)
Definition normal_part (p : bytes) : Prop := p ≠ [] ∧ p ≠ tx "." ∧ p ≠ tx ".." ∧ slash ∉ p.

(** A rooted path without empty, [.] and [..] parts. *)
Definition clean_path (p : bytes) : Prop := ∃ parts, Forall normal_part parts ∧ p = slash :: Split.join slash parts.

Lemma clean_parts ps : ∀ parts, Forall (λ p, slash ∉ p) ps → Forall normal_part parts → Forall normal_part (foldl (clean_part true) parts ps).
Proof.
  induction ps as [|p ps IH]; intros parts Hps Hp; [done|]. apply Forall_cons in Hps as [Hs Hps]. cbn [foldl]. apply IH; [done|].
  unfold clean_part. do 2 case_bool_decide; cbn; try done. case_bool_decide.
  - destruct (last parts) as [q|] eqn:El; [|done]. rewrite bool_decide_eq_false_2; [by apply Forall_take|].
    apply last_Some_elem_of in El. rewrite Forall_forall in Hp. by apply Hp in El as (_ & _ & ? & _).
  - apply Forall_app. split; [done|]. by repeat constructor.
Qed.

Lemma Clean_rooted p : Clean (slash :: p) = slash :: Split.join slash (foldl (clean_part true) [] (Split.split slash (slash :: p))).
Proof. unfold Clean. cbn [head]. by rewrite bool_decide_eq_true_2. Qed.

Lemma Clean_clean p : clean_path (Clean (slash :: p)).
Proof. rewrite Clean_rooted. eexists. split; [|reflexivity]. apply clean_parts; [apply Split.split_no_sep|done]. Qed.

Lemma clean_part_normal ps : ∀ parts, Forall normal_part ps → foldl (clean_part true) parts ps = parts ++ ps.
Proof.
  induction ps as [|p ps IH]; intros parts Hp; cbn [foldl]; [by rewrite app_nil_r|].
  apply Forall_cons in Hp as [(H1 & H2 & H3 & _) Hp]. unfold clean_part at 2. rewrite !bool_decide_eq_false_2 by done. cbn.
  rewrite IH by done. by rewrite <- app_assoc.
Qed.

(** Cleaning a clean path does nothing. *)
Lemma Clean_id p : clean_path p → Clean p = p.
Proof.
  intros (parts & Hp & ->). rewrite Clean_rooted. destruct parts as [|q parts]; [by vm_compute|].
  change (slash :: Split.join slash (q :: parts)) with (Split.join slash ([] :: q :: parts)) at 1.
  rewrite Split.split_join; [|done|].
  - f_equal. change (foldl (clean_part true) [] ([] :: q :: parts)) with (foldl (clean_part true) [] (q :: parts)). by rewrite clean_part_normal.
  - constructor; [apply not_elem_of_nil|]. eapply Forall_impl; [exact Hp|]. intros r (_ & _ & _ & ?). done.
Qed.

(** ** Replacing *)

Lemma replace_skip old new s (k : nat) : replace k old new s = replace 0 old new (drop k s).
Proof. revert s. induction k as [|k IH]; intros [|b s]; cbn; try done. Qed.

(** What is replaced by two texts of which neither starts the other differs. *)
Lemma replace_length old (new new' s : bytes) : old ≠ [] → Contains s old = true → length new < length new' →
  length (Replace s old new) < length (Replace s old new').
Proof.
  intros Hold. assert (Hle : length new < length new' → ∀ n s, length s <= n →
    length (Replace s old new) <= length (Replace s old new') ∧ (Contains s old = true → length (Replace s old new) < length (Replace s old new'))).
  { intros Hl. unfold Replace. induction n as [|n IH]; intros [|b r] Hn; cbn in Hn; try lia.
    - cbn. split; [done|]. unfold has_prefix. destruct old; [done|]. cbn. by rewrite bool_decide_eq_false_2.
    - cbn. split; [done|]. unfold has_prefix. destruct old; [done|]. cbn. by rewrite bool_decide_eq_false_2.
    - cbn [replace Contains]. destruct (has_prefix (b :: r) old).
      + rewrite !(replace_skip old _ r (length old - 1)), !length_app. destruct (IH (drop (length old - 1) r)) as [H _]; [rewrite length_drop; lia|]. split; [lia|intros _; lia].
      + cbn [length orb]. destruct (IH r) as [H1 H2]; [lia|]. split; [lia|]. intros Hc. specialize (H2 Hc). lia. }
  intros Hc Hl. by apply (Hle Hl (length s)).
Qed.

Lemma replace_same_length old (new new' s : bytes) : old ≠ [] → Contains s old = true → length new = length new' →
  Replace s old new = Replace s old new' → new = new'.
Proof.
  intros Hold. unfold Replace. induction s as [|b r IH]; cbn [Contains replace].
  - unfold has_prefix. destruct old; [done|]. cbn. by rewrite bool_decide_eq_false_2.
  - destruct (has_prefix (b :: r) old); cbn [orb]; intros Hc Hl E.
    + by apply app_inj_1 in E as [-> _].
    + injection E as E. by apply IH.
Qed.

(** Different texts make different strings. *)
Lemma Replace_inj old (new new' s : bytes) : old ≠ [] → Contains s old = true → Replace s old new = Replace s old new' → new = new'.
Proof.
  intros Hold Hc E. destruct (Nat.lt_trichotomy (length new) (length new')) as [H|[H|H]].
  - pose proof (replace_length old new new' s Hold Hc H). rewrite E in *. lia.
  - by eapply replace_same_length.
  - pose proof (replace_length old new' new s Hold Hc H). rewrite E in *. lia.
Qed.

Lemma has_prefix_sep (c : byte) old u v : c ∉ old → has_prefix (u ++ c :: v) old = has_prefix u old.
Proof.
  intros Hc. unfold has_prefix. apply bool_decide_ext. destruct (decide (length old <= length u)) as [Hl|Hl].
  - by rewrite take_app_le.
  - split; intros E; exfalso.
    + apply Hc. rewrite <- E, take_app_ge by lia. apply elem_of_app. right. replace (length old - length u) with (S (length old - length u - 1)) by lia. by left.
    + rewrite take_ge in E by lia. subst. lia.
Qed.

(** What has no separator is replaced in each part. *)
Lemma replace_sep (c : byte) old new u v : ∀ k, c ∉ old → old ≠ [] → k <= length u →
  replace k old new (u ++ c :: v) = replace k old new u ++ c :: Replace v old new.
Proof.
  unfold Replace. induction u as [|b u IH]; intros k Hc Ho Hk.
  - cbn in Hk. replace k with 0 by lia. cbn. unfold has_prefix. destruct old as [|x old]; [done|]. cbn. rewrite bool_decide_eq_false_2; [done|].
    intros [= -> _]. apply Hc. by left.
  - cbn [app replace length] in *. destruct k as [|k]; [|apply IH; [done..|lia]].
    change (b :: u ++ c :: v) with ((b :: u) ++ c :: v). rewrite has_prefix_sep by done. destruct (has_prefix (b :: u) old) eqn:Ep.
    + rewrite IH; [by rewrite <- app_assoc|done..|]. apply bool_decide_eq_true in Ep. apply (f_equal length) in Ep. rewrite length_take in Ep. cbn in Ep. lia.
    + rewrite IH; [done..|lia].
Qed.

Lemma replace_grows old new s : ∀ k, length old <= length new → old ≠ [] → k <= length s → length s <= length (replace k old new s) + k.
Proof.
  induction s as [|b s IH]; intros k Hl Ho Hk; cbn in *; [lia|]. destruct k as [|k]; [|specialize (IH k Hl Ho); lia].
  assert (0 < length old) by (destruct old; cbn; [done|lia]). destruct (has_prefix (b :: s) old) eqn:Ep.
  - rewrite length_app. apply bool_decide_eq_true in Ep. apply (f_equal length) in Ep. rewrite length_take in Ep. cbn in Ep.
    specialize (IH (length old - 1) Hl Ho). lia.
  - cbn. specialize (IH 0 Hl Ho). lia.
Qed.

Lemma elem_of_replace old new s x : ∀ k, x ∈ replace k old new s → x ∈ s ∨ x ∈ new.
Proof.
  induction s as [|b s IH]; intros k; cbn; [by left|]. destruct k as [|k].
  - destruct (has_prefix (b :: s) old).
    + intros [?|[?|?]%IH]%elem_of_app; [by right|left; by right|by right].
    + intros [->|[?|?]%IH]%elem_of_cons; [left; by left|left; by right|by right].
  - intros [?|?]%IH; [left; by right|by right].
Qed.

Lemma Contains_length s old : Contains s old = true → length old <= length s.
Proof.
  induction s as [|b s IH]; cbn [Contains].
  - rewrite orb_false_r. intros Ep%bool_decide_eq_true. destruct old; [done|discriminate].
  - intros [Ep%bool_decide_eq_true|?%IH]%orb_true_iff; [|cbn; lia]. apply (f_equal length) in Ep. rewrite length_take in Ep. cbn in *. lia.
Qed.

(** ** The last part of a path *)

Definition base (p : bytes) : bytes := (split_file p).2.

Lemma split_file_spec p : p = (split_file p).1 ++ base p ∧ slash ∉ base p ∧ ((split_file p).1 = [] ∨ ∃ d, (split_file p).1 = d ++ [slash]).
Proof.
  unfold base. induction p as [|b p (E & Hn & Hd)]; cbn; [split; [done|split; [apply not_elem_of_nil|by left]]|].
  destruct (split_file p) as [d f]. cbn in *. case_bool_decide as Hc; cbn.
  - subst d. case_bool_decide as Hb; cbn.
    + subst. split; [done|]. split; [done|]. right. by exists [].
    + split; [by rewrite E|]. split; [|by left]. apply not_elem_of_cons. split; [congruence|done].
  - split; [by rewrite E|]. split; [done|]. right. destruct Hd as [->|[d' ->]]; [done|]. by exists (b :: d').
Qed.

Lemma base_part b : slash ∉ b → split_file b = ([], b).
Proof.
  induction b as [|c b IH]; [done|]. intros [H1 H2]%not_elem_of_cons. cbn. rewrite IH by done. cbn. by rewrite bool_decide_eq_false_2.
Qed.
Lemma split_file_app d b : slash ∉ b → split_file (d ++ slash :: b) = (d ++ [slash], b).
Proof.
  intros Hb. induction d as [|c d IH]; cbn [app split_file].
  - rewrite base_part by done. cbn. done.
  - rewrite IH. cbn. rewrite bool_decide_eq_false_2; [done|]. by destruct d.
Qed.

Lemma split_last sep d b : sep ∉ b → Split.split sep (d ++ sep :: b) = Split.split sep d ++ [b].
Proof.
  intros Hb. induction d as [|c d IH]; cbn [app Split.split].
  - rewrite bool_decide_eq_true_2 by done. by rewrite Split.split_word.
  - rewrite IH. case_bool_decide; [done|]. destruct (Split.split_cons sep d) as (w & ws & ->). done.
Qed.
Lemma join_snoc sep ws b : Split.join sep (ws ++ [b]) = match ws with [] => b | _ => Split.join sep ws ++ sep :: b end.
Proof.
  induction ws as [|w ws IH]; [done|]. cbn [app]. rewrite Split.join_cons by (by destruct ws). rewrite IH. destruct ws as [|w' ws]; [done|].
  rewrite (Split.join_cons sep w) by done. by rewrite <- app_assoc.
Qed.

Lemma clean_part_snoc r parts b : normal_part b → clean_part r parts b = parts ++ [b].
Proof. intros (H1 & H2 & H3 & _). unfold clean_part. by rewrite !bool_decide_eq_false_2. Qed.

(** The last part stays, when it is none of the special ones. *)
Lemma base_Clean d b : normal_part b → base (Clean (d ++ slash :: b)) = b.
Proof.
  intros Hb. pose proof Hb as (Hne & _ & _ & Hs). unfold Clean. rewrite split_last, foldl_app by done. cbn [foldl].
  rewrite clean_part_snoc, join_snoc by done. set (ws := foldl _ _ _). set (r := bool_decide _). clearbody ws r. unfold base.
  destruct ws as [|w ws]; destruct r.
  - change (slash :: b) with ([] ++ slash :: b). by rewrite split_file_app.
  - rewrite bool_decide_eq_false_2 by done. by rewrite base_part.
  - change (slash :: Split.join slash (w :: ws) ++ slash :: b) with ((slash :: Split.join slash (w :: ws)) ++ slash :: b). by rewrite split_file_app.
  - rewrite bool_decide_eq_false_2 by (intros E; by apply app_eq_nil in E as [_ ?]). by rewrite split_file_app.
Qed.
Lemma Clean_part b : normal_part b → Clean b = b.
Proof.
  intros Hb. pose proof Hb as (Hne & _ & _ & Hs). unfold Clean. rewrite Split.split_word by done. cbn [foldl]. rewrite clean_part_snoc by done. cbn.
  rewrite bool_decide_eq_false_2; [by rewrite bool_decide_eq_false_2|]. destruct b as [|c b]; [done|]. intros [= ->]. apply Hs. by left.
Qed.
Lemma base_Join d p : normal_part (base p) → base (Join d p) = base p.
Proof.
  intros Hb. destruct (split_file_spec p) as (E & _ & Hd). pose proof Hb as (Hne & _ & _ & Hs).
  assert (Hp : p ≠ []) by (intros ->; done).
  assert (Hj : Join d p = match d with [] => Clean p | _ => Clean (d ++ slash :: p) end) by (destruct d, p; done). rewrite Hj. clear Hj.
  destruct Hd as [Hd|[q Hq]].
  - rewrite Hd in E. cbn in E. destruct d as [|c d].
    + rewrite E at 1. rewrite Clean_part by done. unfold base at 1. by rewrite base_part.
    + rewrite E at 1. by apply base_Clean.
  - rewrite Hq, <- app_assoc in E. cbn in E. destruct d as [|c d].
    + rewrite E at 1. by apply base_Clean.
    + rewrite E at 1. replace ((c :: d) ++ slash :: q ++ slash :: base p) with (((c :: d) ++ slash :: q) ++ slash :: base p) by (by rewrite <- app_assoc).
      by apply base_Clean.
Qed.

End Paths.
