(* ===== verification/Net.v ===== *)
(** * What the daemons use of net and encoding/json

    [net.SplitHostPort] and [net.JoinHostPort], which the daemons use on the
    addresses of each other; and [json.Unmarshal] of an array into a slice of
    strings, which writes the elements where the slice has its own, so that
    whoever shares them sees the new ones, even when an element of another
    type makes it fail in the end. *)
From stdpp Require Import base list strings.
From Stdlib Require Import ZArith Lia.
From S2P Require Import Prelude.
Set Default Goal Selector "!".
Local Open Scope Z_scope.

Module Net.

Definition colon : byte := byte_of_Z 58.
Definition lbracket : byte := byte_of_Z 91.
Definition rbracket : byte := byte_of_Z 93.

Definition index_of (b : byte) (s : bytes) : option nat := fst <$> list_find (λ c, c = b) s.
Definition last_index_of (b : byte) (s : bytes) : option nat :=
  (λ i, length s - 1 - i)%nat <$> index_of b (reverse s).

Definition SplitHostPort (hostport : bytes) : res string (bytes * bytes) :=
  match last_index_of colon hostport with
  | None => Err "missing port in address"%string
  | Some i =>
    let finish host j k :=
      if bool_decide (is_Some (index_of lbracket (drop j hostport))) then Err "unexpected '[' in address"%string else
      if bool_decide (is_Some (index_of rbracket (drop k hostport))) then Err "unexpected ']' in address"%string else
      Ok (host, drop (S i) hostport) in
    if bool_decide (head hostport = Some lbracket) then
      match index_of rbracket hostport with
      | None => Err "missing ']' in address"%string
      | Some e =>
        if bool_decide (S e = i) then finish (take (e - 1) (drop 1 hostport)) 1%nat (S e) else
        if bool_decide (hostport !! S e = Some colon) then Err "too many colons in address"%string
        else Err "missing port in address"%string
      end
    else
      let host := take i hostport in
      if bool_decide (is_Some (index_of colon host)) then Err "too many colons in address"%string
      else finish host 0%nat 0%nat
  end.

Definition JoinHostPort (host port : bytes) : bytes :=
  if bool_decide (colon ∈ host) then [lbracket] ++ host ++ [rbracket; colon] ++ port
  else host ++ [colon] ++ port.

(** ** Joining and splitting *)

Lemma index_of_app b s t : b ∉ s → index_of b (s ++ b :: t) = Some (length s).
Proof.
  intros Hs. unfold index_of. rewrite list_find_app_r; [cbn; rewrite decide_True by done; cbn; f_equal; lia|].
  apply list_find_None, Forall_forall. intros x Hx ->. done.
Qed.

Lemma last_index_of_app b s t : b ∉ t → last_index_of b (s ++ b :: t) = Some (length s).
Proof.
  intros Ht. unfold last_index_of. rewrite reverse_app, reverse_cons, <- app_assoc. cbn.
  rewrite index_of_app by (by rewrite elem_of_reverse). cbn. rewrite length_reverse, length_app. cbn. f_equal. lia.
Qed.

Lemma index_of_none b s : b ∉ s → ¬ is_Some (index_of b s).
Proof.
  intros Hs [i Hi]. unfold index_of in Hi. destruct (list_find _ s) as [[j x]|] eqn:E; [|done].
  apply list_find_Some in E as (Hx & -> & _). apply Hs. by eapply list_elem_of_lookup_2.
Qed.

(** A port without colons or brackets and a host without brackets are found
    again. *)
Lemma split_join_host host port :
  lbracket ∉ host → rbracket ∉ host → colon ∉ port → lbracket ∉ port → rbracket ∉ port →
  SplitHostPort (JoinHostPort host port) = Ok (host, port).
Proof.
  intros Hl Hr Hc Hpl Hpr. unfold JoinHostPort. case_bool_decide as Hcol.
  - set (hp := [lbracket] ++ host ++ [rbracket; colon] ++ port).
    assert (Hhp1 : hp = (lbracket :: host ++ [rbracket]) ++ colon :: port) by (unfold hp; cbn; by rewrite <- app_assoc).
    assert (Hhp2 : hp = (lbracket :: host) ++ rbracket :: colon :: port) by done.
    assert (Hlast : last_index_of colon hp = Some (length (lbracket :: host ++ [rbracket]))) by (rewrite Hhp1; by apply last_index_of_app).
    assert (Hfirst : index_of rbracket hp = Some (length (lbracket :: host))).
    { rewrite Hhp2. apply index_of_app. intros [E|E]%elem_of_cons; [by vm_compute in E|done]. }
    unfold SplitHostPort. rewrite Hlast. cbv zeta. rewrite bool_decide_eq_true_2 by done. rewrite Hfirst.
    cbn [length]. rewrite bool_decide_eq_true_2 by (rewrite length_app; cbn; lia).
    assert (Hd1 : drop 1 hp = host ++ rbracket :: colon :: port) by by rewrite Hhp2.
    assert (Hd2 : drop (S (S (length host))) hp = colon :: port).
    { rewrite Hhp1. apply drop_app_length'. cbn. rewrite length_app. cbn. lia. }
    rewrite Hd1, Hd2. rewrite bool_decide_eq_false_2.
    2: { apply index_of_none. rewrite elem_of_app, !elem_of_cons. intros [?|[E|[E|?]]]; [done|by vm_compute in E|by vm_compute in E|done]. }
    rewrite bool_decide_eq_false_2.
    2: { apply index_of_none. rewrite !elem_of_cons. intros [E|?]; [by vm_compute in E|done]. }
    rewrite take_app_length' by lia. do 2 f_equal. rewrite Hhp1, drop_app_ge by (cbn; rewrite length_app; cbn; lia).
    by replace (_ - _)%nat with 1%nat by (cbn; rewrite length_app; cbn; lia).
  - change (host ++ [colon] ++ port) with (host ++ colon :: port).
    unfold SplitHostPort. rewrite last_index_of_app by done. cbv zeta. rewrite bool_decide_eq_false_2.
    2: { destruct host as [|b host]; cbn; [by vm_compute|]. intros [= ->]. apply Hl. by left. }
    rewrite take_app_length. rewrite bool_decide_eq_false_2 by by apply index_of_none.
    rewrite bool_decide_eq_false_2.
    2: { apply index_of_none. rewrite drop_0, elem_of_app, elem_of_cons. intros [?|[E|?]]; [done|by vm_compute in E|done]. }
    rewrite bool_decide_eq_false_2.
    2: { apply index_of_none. rewrite drop_0, elem_of_app, elem_of_cons. intros [?|[E|?]]; [done|by vm_compute in E|done]. }
    do 2 f_equal. rewrite drop_app_ge by lia. by replace (_ - _)%nat with 1%nat by lia.
Qed.

End Net.

Module Unmarshal.

(** A JSON value as it is decoded into a slice of strings. *)
Inductive element := EString (s : bytes) | ENull | EOther.
Inductive value := VNull | VArray (es : list element) | VOther.

(** What the array under the slice [old] holds afterwards; a null and a value
    of another type leave the element as it was. *)
Definition overwrite_elem (e : option element) (x : bytes) : bytes := match e with Some (EString s) => s | _ => x end.
Definition overwrite (es : list element) (old : list bytes) : list bytes := imap (λ i x, overwrite_elem (es !! i) x) old.
Definition shared_after (v : value) (old : list bytes) : list bytes := match v with VArray es => overwrite es old | _ => old end.

(** The new slice; [beyond] is what the array holds beyond [old]. *)
Definition slice_of (es : list element) (old beyond : list bytes) : list bytes :=
  imap (λ i e, overwrite_elem (Some e) (default [] ((old ++ beyond) !! i))) es.

Definition is_other (e : element) : bool := match e with EOther => true | _ => false end.

(** [None] is an error. *)
Definition unmarshal (v : value) (old beyond : list bytes) : option (list bytes) :=
  match v with
  | VNull => Some []
  | VArray es => if existsb is_other es then None else Some (slice_of es old beyond)
  | VOther => None
  end.

(** Decoding an array of strings gives these strings. *)
Lemma unmarshal_strings l old beyond : unmarshal (VArray (EString <$> l)) old beyond = Some l.
Proof.
  cbn. assert (Hex : existsb is_other (EString <$> l) = false) by (induction l; done). rewrite Hex. f_equal. unfold slice_of.
  rewrite imap_fmap. etransitivity; [|apply list_fmap_id]. by rewrite <- (imap_const id).
Qed.

End Unmarshal.
