(* ===== verification/Message.v ===== *)
(** * Messages (nsqd/message.go)

    The message record, its wire and disk format ([WriteTo], [decodeMessage])
    and the round trips between the two. [io.Writer] is a type class, so that
    [WriteTo]'s error paths are part of the model. *)
From stdpp Require Import base gmap list strings pretty.
From Stdlib Require Import ZArith Lia.
From S2P Require Import Prelude.
Set Default Goal Selector "!".
Local Open Scope Z_scope.

Definition MsgIDLength : nat := 16.
Definition minValidMsgLength : nat := (MsgIDLength + 8 + 2)%nat.

(** [type MessageID [16]byte]: a list of 16 bytes. *)
Notation MessageID := (list Byte.byte).

Record Message := mkMessage {
  ID : MessageID;
  Body : bytes;
  Timestamp : Z;      (* int64 *)
  Attempts : Z;       (* uint16 *)
  deliveryTS : time;
  clientID : Z;       (* int64 *)
  pri : Z;            (* int64 *)
  index : Z;          (* int *)
  deferred : duration;
}.

(** [NewMessage]: every other field has its zero value. *)
Definition NewMessage (now : time) (id : MessageID) (body : bytes) : Message :=
  mkMessage id body (UnixNano now) 0 0 0 0 0 0.

Definition set_Timestamp (ts : Z) (m : Message) : Message :=
  mkMessage m.(ID) m.(Body) ts m.(Attempts) m.(deliveryTS) m.(clientID) m.(pri) m.(index) m.(deferred).
Definition set_Attempts (n : Z) (m : Message) : Message :=
  mkMessage m.(ID) m.(Body) m.(Timestamp) n m.(deliveryTS) m.(clientID) m.(pri) m.(index) m.(deferred).
Definition set_deliveryTS (t : time) (m : Message) : Message :=
  mkMessage m.(ID) m.(Body) m.(Timestamp) m.(Attempts) t m.(clientID) m.(pri) m.(index) m.(deferred).
Definition set_clientID (c : Z) (m : Message) : Message :=
  mkMessage m.(ID) m.(Body) m.(Timestamp) m.(Attempts) m.(deliveryTS) c m.(pri) m.(index) m.(deferred).
Definition set_pri (p : Z) (m : Message) : Message :=
  mkMessage m.(ID) m.(Body) m.(Timestamp) m.(Attempts) m.(deliveryTS) m.(clientID) p m.(index) m.(deferred).
Definition set_index (i : Z) (m : Message) : Message :=
  mkMessage m.(ID) m.(Body) m.(Timestamp) m.(Attempts) m.(deliveryTS) m.(clientID) m.(pri) i m.(deferred).
Definition set_deferred (d : duration) (m : Message) : Message :=
  mkMessage m.(ID) m.(Body) m.(Timestamp) m.(Attempts) m.(deliveryTS) m.(clientID) m.(pri) m.(index) d.

(** ** Writers

    [w.Write(p)] returns the number of bytes written and an error; the state
    of the writer is threaded. A [bytes.Buffer] never fails. *)
Class Writer (W : Type) := write : W → bytes → W * (Z * option string).

#[export] Instance buffer_writer : Writer bytes :=
  λ buf p, (buf ++ p, (Z.of_nat (length p), None)).

Definition WriteTo {W} `{Writer W} (m : Message) (w : W) : W * (Z * option string) :=
  let buf := be_encode 8 (u64 m.(Timestamp)) ++ be_encode 2 (u16 m.(Attempts)) in
  let total := 0 in
  let '(w, (n, err)) := write w buf in
  let total := total + n in
  match err with
  | Some e => (w, (total, Some e))
  | None =>
    let '(w, (n, err)) := write w m.(ID) in
    let total := total + n in
    match err with
    | Some e => (w, (total, Some e))
    | None =>
      let '(w, (n, err)) := write w m.(Body) in
      let total := total + n in
      match err with
      | Some e => (w, (total, Some e))
      | None => (w, (total, None))
      end
    end
  end.

(** The bytes [WriteTo] puts into an empty [bytes.Buffer]. *)
Definition encode_message (m : Message) : bytes :=
  (WriteTo (W := bytes) m []).1.

Definition decodeMessage (b : bytes) : res string Message :=
  if bool_decide (length b < minValidMsgLength)%nat
  then Err ("invalid message buffer size (" +:+ pretty (length b) +:+ ")")
  else Ok (mkMessage
    (take MsgIDLength (drop 10 b))
    (drop (10 + MsgIDLength) b)
    (i64 (be_decode (take 8 b)))
    (be_decode (take 2 (drop 8 b)))
    0 0 0 0 0).

(** ** Well-formed messages *)
Record msg_wf (m : Message) : Prop := {
  wf_id : length m.(ID) = MsgIDLength;
  wf_ts : in_i64 m.(Timestamp);
  wf_attempts : in_u16 m.(Attempts);
}.

(** What survives a trip through the wire format: the bookkeeping fields of
    the in-flight queue are not serialized. *)
Definition persistent (m : Message) : Message :=
  mkMessage m.(ID) m.(Body) m.(Timestamp) m.(Attempts) 0 0 0 0 0.

Lemma encode_message_eq m :
  encode_message m
  = be_encode 8 (u64 m.(Timestamp)) ++ be_encode 2 (u16 m.(Attempts)) ++ m.(ID) ++ m.(Body).
Proof. unfold encode_message, WriteTo, write, buffer_writer. cbn [fst app]. by rewrite <- !app_assoc. Qed.

Lemma WriteTo_buffer m (buf : bytes) :
  WriteTo m buf
  = (buf ++ encode_message m, (Z.of_nat (length (encode_message m)), None)).
Proof.
  rewrite encode_message_eq. unfold WriteTo, write, buffer_writer.
  cbn [fst snd]. f_equal; [by rewrite <- !app_assoc|].
  f_equal. rewrite !length_app. lia.
Qed.

Lemma length_encode_message m :
  length m.(ID) = MsgIDLength →
  length (encode_message m) = (minValidMsgLength + length m.(Body))%nat.
Proof.
  intros Hid. rewrite encode_message_eq, !length_app, !length_be_encode, Hid.
  unfold minValidMsgLength, MsgIDLength. lia.
Qed.

Lemma decode_encode_message m :
  msg_wf m → decodeMessage (encode_message m) = Ok (persistent m).
Proof.
  intros [Hid Hts Hat]. unfold decodeMessage.
  rewrite bool_decide_eq_false_2 by (rewrite length_encode_message by done; lia).
  rewrite encode_message_eq. unfold persistent. f_equal.
  assert (H8 : length (be_encode 8 (u64 (Timestamp m))) = 8%nat) by apply length_be_encode.
  assert (H2 : length (be_encode 2 (u16 (Attempts m))) = 2%nat) by apply length_be_encode.
  f_equal.
  - rewrite drop_app_ge by lia. rewrite H8. rewrite drop_app_ge by lia. rewrite H2.
    change (10 - 8 - 2)%nat with 0%nat. rewrite drop_0. by rewrite take_app_length' by done.
  - rewrite !drop_app_ge by (rewrite ?H8, ?H2, ?Hid; unfold MsgIDLength; lia).
    rewrite H8, H2, Hid. by replace (10 + MsgIDLength - 8 - 2 - MsgIDLength)%nat with 0%nat by reflexivity.
  - rewrite take_app_length' by done. rewrite be_decode_encode.
    change (2 ^ (8 * Z.of_nat 8)) with (2 ^ 64).
    pow2. lia.
  - rewrite drop_app_length' by done. rewrite take_app_length' by done.
    rewrite be_decode_encode. change (2 ^ (8 * Z.of_nat 2)) with (2 ^ 16). pow2. lia.
Qed.

Lemma decodeMessage_ok b m :
  decodeMessage b = Ok m → msg_wf m ∧ persistent m = m ∧ encode_message m = b.
Proof.
  unfold decodeMessage. case_bool_decide as Hlen; [done|]. intros [= <-].
  unfold minValidMsgLength, MsgIDLength in *.
  assert (H8 : length (take 8 b) = 8%nat) by (rewrite length_take; lia).
  assert (H2 : length (take 2 (drop 8 b)) = 2%nat) by (rewrite length_take, length_drop; lia).
  pose proof (be_decode_range (take 8 b)) as R8. rewrite H8 in R8.
  pose proof (be_decode_range (take 2 (drop 8 b))) as R2. rewrite H2 in R2.
  split_and!.
  - split; cbn [ID Timestamp Attempts].
    + rewrite length_take, length_drop. unfold MsgIDLength. lia.
    + apply i64_range.
    + unfold in_u16. change (2 ^ 16) with (2 ^ (8 * Z.of_nat 2)). done.
  - done.
  - rewrite encode_message_eq. cbn [ID Body Timestamp Attempts].
    assert (E8 : be_encode 8 (u64 (i64 (be_decode (take 8 b)))) = take 8 b).
    { replace (u64 (i64 (be_decode (take 8 b)))) with (be_decode (take 8 b)).
      - rewrite <- H8 at 1. apply be_encode_decode.
      - change (2 ^ (8 * Z.of_nat 8)) with (2 ^ 64) in R8. pow2. lia. }
    assert (E2 : be_encode 2 (u16 (be_decode (take 2 (drop 8 b)))) = take 2 (drop 8 b)).
    { rewrite u16_id by done. rewrite <- H2 at 1. apply be_encode_decode. }
    rewrite E8, E2.
    assert (E16 : take 16 (drop 10 b) ++ drop 26 b = drop 10 b).
    { change 26%nat with (10 + 16)%nat. rewrite <- (drop_drop b 16 10). apply take_drop. }
    change (10 + 16)%nat with 26%nat. rewrite E16.
    change 10%nat with (8 + 2)%nat. rewrite <- (drop_drop b 2 8), (take_drop 2). apply take_drop.
Qed.

Lemma decodeMessage_err b :
  is_ok (decodeMessage b) = false ↔ (length b < minValidMsgLength)%nat.
Proof. unfold decodeMessage. case_bool_decide; simpl; split; try done; lia. Qed.

(** ** Properties *)

(** The contract of [io.Writer]: [Write] appends a prefix of its argument and
    reports its length; a short write comes with an error. *)
Class WriterLaws (W : Type) `{Writer W} (sink : W → bytes) : Prop :=
  write_prefix w p w' n err : write w p = (w', (n, err)) →
    0 <= n <= Z.of_nat (length p) ∧ sink w' = sink w ++ take (Z.to_nat n) p ∧
    (err = None → n = Z.of_nat (length p)).

#[export] Instance buffer_writer_laws : WriterLaws bytes (λ w, w).
Proof.
  intros w p w' n err [= <- <- <-]. split_and!; [lia|lia| |done].
  rewrite Nat2Z.id. by rewrite take_ge.
Qed.

(** A writer that accepts a bounded number of bytes, then fails. *)
Record limited := mkLimited { lim_data : bytes; lim_room : nat }.

#[export] Instance limited_writer : Writer limited := λ w p,
  let n := (length p `min` w.(lim_room))%nat in
  (mkLimited (w.(lim_data) ++ take n p) (w.(lim_room) - n),
   (Z.of_nat n, if bool_decide (length p <= w.(lim_room))%nat then None else Some "short write"%string)).

#[export] Instance limited_writer_laws : WriterLaws limited lim_data.
Proof.
  intros [d r] p w' n err. unfold write, limited_writer. cbn [lim_data lim_room]. intros [= <- <- <-].
  split_and!; [lia|lia|by rewrite Nat2Z.id|]. case_bool_decide; [lia|done].
Qed.

(** C38: the wire and disk format of a message is an exact round trip: a
    well-formed message is decoded to what it persists of itself, every
    buffer that decodes is the encoding of the decoded message, and decoding
    fails exactly on the buffers shorter than the header, 26 bytes. *)
Theorem message_roundtrip :
  (∀ m, msg_wf m → decodeMessage (encode_message m) = Ok (persistent m)) ∧
  (∀ b m, decodeMessage b = Ok m → msg_wf m ∧ persistent m = m ∧ encode_message m = b) ∧
  (∀ b, is_ok (decodeMessage b) = false ↔ (length b < 26)%nat).
Proof.
  split_and!; [exact decode_encode_message|exact decodeMessage_ok|exact decodeMessage_err].
Qed.

Lemma message_roundtrip_witness :
  let m := mkMessage (replicate 16 Byte.x61) [Byte.x00] (-1) 65535 9 9 9 9 9 in
  decodeMessage (encode_message m) = Ok (persistent m).
Proof. intros m. apply (proj1 message_roundtrip). by split. Defined.

(** On every writer that keeps the contract of [io.Writer], [WriteTo]
    writes a prefix of the encoding whose length is the total it returns, and
    returns no error exactly when it wrote all of it. *)
Theorem WriteTo_prefix {W} `{WriterLaws W sink} (m : Message) (w w' : W) total err :
  WriteTo m w = (w', (total, err)) →
  0 <= total ∧ sink w' = sink w ++ take (Z.to_nat total) (encode_message m) ∧
  (err = None → total = Z.of_nat (length (encode_message m))).
Proof.
  rewrite encode_message_eq. unfold WriteTo.
  set (p1 := be_encode 8 (u64 (Timestamp m)) ++ be_encode 2 (u16 (Attempts m))).
  rewrite (app_assoc (be_encode 8 _)). fold p1. clearbody p1.
  destruct (write w p1) as [w1 [n1 e1]] eqn:E1. apply write_prefix in E1 as (R1 & S1 & F1).
  destruct e1 as [e|]; [intros [= <- <- <-]; rewrite S1; split_and!; [lia|f_equal; rewrite take_app_le; [done|lia]|done]|].
  specialize (F1 eq_refl) as ->. rewrite Nat2Z.id, take_ge in S1 by done.
  destruct (write w1 (ID m)) as [w2 [n2 e2]] eqn:E2. apply write_prefix in E2 as (R2 & S2 & F2).
  destruct e2 as [e|].
  { intros [= <- <- <-]. rewrite S2, S1. split_and!; [lia| |done].
    rewrite <- app_assoc. f_equal. rewrite take_app_ge by lia. f_equal.
    rewrite take_app_le by lia. f_equal. lia. }
  specialize (F2 eq_refl) as ->. rewrite Nat2Z.id, take_ge in S2 by done.
  destruct (write w2 (Body m)) as [w3 [n3 e3]] eqn:E3. apply write_prefix in E3 as (R3 & S3 & F3).
  destruct e3; intros [= <- <- <-]; rewrite S3, S2, S1; (split_and!; [lia| |]);
    try (intros; specialize (F3 eq_refl); rewrite !length_app; lia); try done;
    rewrite <- !app_assoc; f_equal; rewrite take_app_ge by lia; f_equal;
    rewrite take_app_ge by lia; f_equal; f_equal; lia.
Qed.

Lemma WriteTo_prefix_witness :
  let m := mkMessage (replicate 16 Byte.x61) [Byte.x00; Byte.x01] (-1) 65535 0 0 0 0 0 in
  let w := mkLimited [] 20 in
  ∃ w' total err, WriteTo m w = (w', (total, err)) ∧ err ≠ None ∧ total = 20 ∧
    lim_data w' = take 20 (encode_message m).
Proof.
  intros m w.
  destruct (WriteTo m w) as [w' [total err]] eqn:E.
  destruct (WriteTo_prefix (sink := lim_data) m w w' total err E) as (_ & H & _).
  vm_compute in E. injection E as <- <- <-.
  eexists _, _, _. split_and!; [reflexivity|done|done|exact H].
Defined.
