(* ===== verification/Guid.v ===== *)
(** * Message identifiers (nsqd/guid.go)

    A snowflake-style generator: 41 bits of pseudo-milliseconds, 10 bits of
    node and 12 bits of sequence. [NewGUID] takes the clock reading as an
    argument; the shifts and the or are those of the code, on [int64]. *)
From stdpp Require Import base gmap list strings sorting.
From Stdlib Require Import ZArith Lia.
From S2P Require Import Prelude.
From S2P Require Import Message.
Set Default Goal Selector "!".
Local Open Scope Z_scope.

Module Guid.

Definition nodeIDBits : Z := 10.
Definition sequenceBits : Z := 12.
Definition nodeIDShift : Z := sequenceBits.
Definition timestampShift : Z := sequenceBits + nodeIDBits.
Definition sequenceMask : Z := Z.lxor (-1) (i64 (Z.shiftl (-1) sequenceBits)).
Definition twepoch : Z := 1288834974288.

Inductive guid_error := ErrTimeBackwards | ErrSequenceExpired | ErrIDBackwards.

Record guidFactory := mkFactory {
  nodeID : Z;
  sequence : Z;
  lastTimestamp : Z;
  lastID : Z;
}.

Definition NewGUIDFactory (nodeID : Z) : guidFactory := mkFactory nodeID 0 0 0.

(** [guid(((ts - twepoch) << timestampShift) | (nodeID << nodeIDShift) | seq)] *)
Definition make_id (ts node seq : Z) : Z :=
  Z.lor (Z.lor (i64 (Z.shiftl (i64 (ts - twepoch)) timestampShift))
               (i64 (Z.shiftl node nodeIDShift)))
        seq.

Definition NewGUID (now : time) (f : guidFactory) : guidFactory * res guid_error Z :=
  let ts := Z.shiftr (UnixNano now) 20 in
  if ts <? f.(lastTimestamp) then (f, Err ErrTimeBackwards) else
  if f.(lastTimestamp) =? ts then
    let f := mkFactory f.(nodeID) (Z.land (i64 (f.(sequence) + 1)) sequenceMask) f.(lastTimestamp) f.(lastID) in
    if f.(sequence) =? 0 then (f, Err ErrSequenceExpired) else
    let f := mkFactory f.(nodeID) f.(sequence) ts f.(lastID) in
    let id := make_id ts f.(nodeID) f.(sequence) in
    if id <=? f.(lastID) then (f, Err ErrIDBackwards)
    else (mkFactory f.(nodeID) f.(sequence) f.(lastTimestamp) id, Ok id)
  else
    let f := mkFactory f.(nodeID) 0 ts f.(lastID) in
    let id := make_id ts f.(nodeID) f.(sequence) in
    if id <=? f.(lastID) then (f, Err ErrIDBackwards)
    else (mkFactory f.(nodeID) f.(sequence) f.(lastTimestamp) id, Ok id).

(** [func (g guid) Hex() MessageID] *)
Definition hex_digit (n : Z) : byte :=
  if n <? 10 then byte_of_Z (48 + n) else byte_of_Z (87 + n).

(** [hex.Encode] *)
Definition hex_encode (bs : bytes) : bytes :=
  b ← bs; [hex_digit (Z_of_byte b / 16); hex_digit (Z_of_byte b `mod` 16)].

Definition Hex (g : Z) : MessageID :=
  hex_encode [byte_of_Z (Z.shiftr g 56); byte_of_Z (Z.shiftr g 48);
              byte_of_Z (Z.shiftr g 40); byte_of_Z (Z.shiftr g 32);
              byte_of_Z (Z.shiftr g 24); byte_of_Z (Z.shiftr g 16);
              byte_of_Z (Z.shiftr g 8); byte_of_Z g].

(** Successive calls with the given clock readings. *)
Fixpoint run (nows : list time) (f : guidFactory) : guidFactory * list (res guid_error Z) :=
  match nows with
  | [] => (f, [])
  | now :: nows =>
    let '(f, r) := NewGUID now f in
    let '(f, rs) := run nows f in (f, r :: rs)
  end.

Fixpoint oks {E A} (rs : list (res E A)) : list A :=
  match rs with
  | [] => []
  | Ok a :: rs => a :: oks rs
  | Err _ :: rs => oks rs
  end.

(** [func (t *Topic) GenerateID()] (nsqd/topic.go): retries, sleeping between
    attempts, until a GUID is returned. The argument is the sequence of clock
    readings the attempts see; [None] is a loop that has not returned yet. *)
Fixpoint GenerateID (nows : list time) (f : guidFactory) : guidFactory * option MessageID :=
  match nows with
  | [] => (f, None)
  | now :: nows =>
    match NewGUID now f with
    | (f, Ok id) => (f, Some (Hex id))
    | (f, Err _) => GenerateID nows f
    end
  end.

(** ** The fields of an identifier *)

(** A clock reading within the generator's range. *)
Definition ts_ok (ts : Z) : Prop := twepoch <= ts < twepoch + 2 ^ 41.
Definition clock_ok (now : time) : Prop := in_i64 now ∧ ts_ok (Z.shiftr now 20).

Lemma land_mask z : Z.land z sequenceMask = z `mod` 4096.
Proof. change sequenceMask with (Z.ones 12). by rewrite Z.land_ones by lia. Qed.

Lemma lor_add a b n : 0 <= n → 0 <= b < 2 ^ n → Z.lor (Z.shiftl a n) b = a * 2 ^ n + b.
Proof.
  intros Hn Hb. rewrite <- Z.add_nocarry_lor.
  - by rewrite Z.shiftl_mul_pow2 by done.
  - apply Z.bits_inj_0. intros k. rewrite Z.land_spec.
    destruct (decide (k < n)).
    + destruct (decide (0 <= k)); [|by rewrite (Z.testbit_neg_r b) by lia; rewrite andb_false_r].
      by rewrite Z.shiftl_spec_low by lia.
    + assert (b `div` 2 ^ n = 0) as Hd by (by apply Z.div_small).
      replace b with (b `mod` 2 ^ n) by (by apply Z.mod_small).
      rewrite Z.mod_pow2_bits_high by lia. apply andb_false_r.
Qed.

Lemma make_id_eq ts node seq :
  ts_ok ts → 0 <= node < 1024 → 0 <= seq < 4096 →
  make_id ts node seq = (ts - twepoch) * 2 ^ 22 + node * 2 ^ 12 + seq.
Proof.
  intros Hts Hn Hs. unfold make_id, timestampShift, nodeIDShift, ts_ok, sequenceBits, nodeIDBits in *.
  change (12 + 10) with 22.
  rewrite (i64_id (ts - twepoch)) by (pow2; unfold twepoch in *; lia).
  rewrite (i64_id (Z.shiftl (ts - twepoch) 22)) by (rewrite Z.shiftl_mul_pow2 by lia; pow2; unfold twepoch in *; lia).
  rewrite (i64_id (Z.shiftl node 12)) by (rewrite Z.shiftl_mul_pow2 by lia; pow2; lia).
  rewrite <- Z.lor_assoc, (lor_add node) by (pow2; lia).
  rewrite lor_add by (pow2; lia). lia.
Qed.

(** ** Invariant of the generator *)
Record factory_ok (f : guidFactory) : Prop := {
  node_range : 0 <= f.(nodeID) < 1024;
  seq_range : 0 <= f.(sequence) < 4096;
  last_ts : 0 <= f.(lastTimestamp);
  last_id : f.(lastID) = 0 ∨
    ts_ok f.(lastTimestamp) ∧
    ∃ ts seq, ts_ok ts ∧ ts <= f.(lastTimestamp) ∧ 0 <= seq < 4096 ∧
      f.(lastID) = make_id ts f.(nodeID) seq;
}.

Lemma new_factory_ok node : 0 <= node < 1024 → factory_ok (NewGUIDFactory node).
Proof. intros. split; cbn; [lia..|by left]. Qed.

Lemma make_id_lt ts ts' node seq seq' :
  ts_ok ts → ts_ok ts' → 0 <= node < 1024 → 0 <= seq < 4096 → 0 <= seq' < 4096 →
  ts < ts' → make_id ts node seq < make_id ts' node seq'.
Proof. intros. rewrite !make_id_eq by done. pow2. lia. Qed.

Lemma UnixNano_ok now : in_i64 now → UnixNano now = now.
Proof. apply i64_id. Qed.

(** What a call can do, branch by branch. *)
Lemma NewGUID_spec now f f' r :
  factory_ok f → clock_ok now → NewGUID now f = (f', r) →
  factory_ok f' ∧ f'.(nodeID) = f.(nodeID) ∧ f.(lastID) <= f'.(lastID) ∧
  match r with
  | Ok id => f.(lastID) < id ∧ f'.(lastID) = id ∧
      ∃ seq, 0 <= seq < 4096 ∧ id = make_id (Z.shiftr now 20) f.(nodeID) seq
  | Err _ => f'.(lastID) = f.(lastID) ∧
      (Z.shiftr now 20 < f.(lastTimestamp) ∨ Z.shiftr now 20 = f.(lastTimestamp) ∨
       make_id (Z.shiftr now 20) f.(nodeID) 0 <= f.(lastID))
  end.
Proof.
  intros [Hn Hs Ht Hl] [Hnow Hts] E. unfold NewGUID in E. rewrite UnixNano_ok in E by done.
  set (ts := Z.shiftr now 20) in *.
  assert (0 <= ts) by (unfold ts_ok, twepoch in Hts; lia).
  destruct (ts <? f.(lastTimestamp)) eqn:E1; bool_to_prop.
  { injection E as <- <-; cbn [nodeID sequence lastTimestamp lastID]. split_and!; [done|done|lia|done|by left]. }
  destruct (f.(lastTimestamp) =? ts) eqn:E2; bool_to_prop; cbn [nodeID sequence lastTimestamp lastID] in E.
  - rewrite land_mask, i64_id in E by (pow2; lia).
    set (seq := (f.(sequence) + 1) `mod` 4096) in *.
    assert (0 <= seq < 4096) by (by apply Z.mod_pos_bound).
    destruct (seq =? 0) eqn:E3; bool_to_prop; [|destruct (_ <=? _) eqn:E4; bool_to_prop]; injection E as <- <-; cbn [nodeID sequence lastTimestamp lastID].
    + split_and!; [|done|lia|done|right; by left].
      split; cbn; [done|done|done|]. rewrite <- E2 in Hts. destruct Hl as [?|(?&?)]; [by left|by right].
    + split_and!; [|done|lia|done|right; by left].
      split; cbn; [done|done|done|]. destruct Hl as [?|(_&ts0&s0&?&?&?&?)]; [by left|right].
      split; [done|]. exists ts0, s0. split_and!; [done|lia|lia|lia|done].
    + split_and!; [|done|lia|lia|done|by exists seq].
      split; cbn; [done|done|done|]. right. split; [done|]. exists ts, seq. split_and!; [done|lia|lia|lia|done].
  - destruct (_ <=? _) eqn:E4; bool_to_prop; injection E as <- <-; cbn [nodeID sequence lastTimestamp lastID].
    + split_and!; [|done|lia|done|right; by right].
      split; cbn; [done|lia|done|]. destruct Hl as [?|(_&ts0&s0&?&?&?&?)]; [by left|right].
      split; [done|]. exists ts0, s0. split_and!; [done|lia|lia|lia|done].
    + split_and!; [|done|lia|lia|done|by exists 0].
      split; cbn; [done|lia|done|]. right. split; [done|]. exists ts, 0. split_and!; [done|lia|lia|lia|done].
Qed.

Lemma run_spec nows f f' rs :
  factory_ok f → Forall clock_ok nows → run nows f = (f', rs) →
  factory_ok f' ∧ Forall (λ id, f.(lastID) < id) (oks rs) ∧ StronglySorted Z.lt (oks rs) ∧
  Forall (λ id, ∃ ts seq, ts_ok ts ∧ 0 <= seq < 4096 ∧ id = make_id ts f.(nodeID) seq) (oks rs).
Proof.
  revert f f' rs. induction nows as [|now nows IH]; intros f f' rs Hf Hc E; cbn [run] in E.
  { simplify_eq. split_and!; [done|constructor..]. }
  apply Forall_cons in Hc as [Hc Hcs].
  destruct (NewGUID now f) as [f1 r] eqn:E1. destruct (run nows f1) as [f2 rs'] eqn:E2. simplify_eq.
  destruct (NewGUID_spec _ _ _ _ Hf Hc E1) as (Hf1 & En & Hle & Hr).
  destruct (IH _ _ _ Hf1 Hcs E2) as (Hf2 & Ha & Hs & Hd). rewrite En in Hd.
  destruct r as [id|e]; cbn [oks].
  - destruct Hr as (Hlt & El & seq & Hseq & Eid). split_and!; [done| | |].
    + constructor; [done|]. eapply Forall_impl; [exact Ha|]. intros ? ?. cbn in *. lia.
    + constructor; [done|]. eapply Forall_impl; [exact Ha|]. intros ? ?. cbn in *. lia.
    + constructor; [|done]. exists (Z.shiftr now 20), seq. split_and!; try done; try lia. apply Hc.
  - split_and!; [done| |done|done].
    eapply Forall_impl; [exact Ha|]. intros ? ?. cbn in *. lia.
Qed.

(** ** Hexadecimal form *)
Lemma hex_digit_val n : 0 <= n < 16 →
  Z_of_byte (hex_digit n) = if n <? 10 then 48 + n else 87 + n.
Proof.
  intros Hn. unfold hex_digit. case_match; rewrite Z_of_byte_of_Z; apply Z.mod_small; bool_to_prop; lia.
Qed.

Lemma hex_digit_inj n m : 0 <= n < 16 → 0 <= m < 16 → hex_digit n = hex_digit m → n = m.
Proof.
  intros Hn Hm E%(f_equal Z_of_byte). rewrite !hex_digit_val in E by done.
  repeat case_match; bool_to_prop; lia.
Qed.

Lemma hex_encode_inj bs bs' : hex_encode bs = hex_encode bs' → bs = bs'.
Proof.
  revert bs'. induction bs as [|b bs IH]; intros [|b' bs'] E; [done|done|done|].
  unfold hex_encode in E. rewrite !bind_cons in E. cbn [app] in E. injection E as E1 E2 E3.
  pose proof (Z_of_byte_range b). pose proof (Z_of_byte_range b').
  apply hex_digit_inj in E1; [|lia..]. apply hex_digit_inj in E2; [|lia..].
  f_equal; [|by apply IH].
  rewrite <- (byte_of_Z_of_byte b), <- (byte_of_Z_of_byte b'). f_equal. lia.
Qed.

Lemma length_hex_encode bs : length (hex_encode bs) = (2 * length bs)%nat.
Proof.
  induction bs as [|b bs IH]; [done|]. unfold hex_encode in *. rewrite bind_cons. cbn. rewrite IH. lia.
Qed.

Lemma Hex_bytes g : in_i64 g → Hex g = hex_encode (be_encode 8 (u64 g)).
Proof.
  intros Hg. unfold Hex. f_equal. cbn [be_encode].
  assert (Hb : ∀ k, 0 <= k <= 56 → k `mod` 8 = 0 →
    byte_of_Z (Z.shiftr g k) = byte_of_Z (u64 g / 2 ^ k)).
  { intros k Hk _. unfold byte_of_Z. do 3 f_equal. rewrite Z.shiftr_div_pow2 by lia.
    unfold uwrap. change 256 with (2 ^ 8).
    rewrite <- !Z.land_ones by lia. rewrite <- !Z.shiftr_div_pow2 by lia.
    apply Z.bits_inj'. intros n Hn. rewrite !Z.land_spec, !Z.shiftr_spec, Z.land_spec by lia.
    destruct (decide (n < 8)).
    - rewrite (Z.ones_spec_low 64) by lia. by rewrite andb_true_r.
    - rewrite (Z.ones_spec_high 8) by lia. by rewrite !andb_false_r. }
  assert (H0 : byte_of_Z g = byte_of_Z (u64 g / 2 ^ 0)).
  { rewrite <- (Hb 0) by (lia || done). by rewrite Z.shiftr_0_r. }
  rewrite (Hb 56), (Hb 48), (Hb 40), (Hb 32), (Hb 24), (Hb 16), (Hb 8), H0 by (lia || done).
  reflexivity.
Qed.

Lemma Hex_inj g g' : in_i64 g → in_i64 g' → Hex g = Hex g' → g = g'.
Proof.
  intros Hg Hg'. rewrite !Hex_bytes by done. intros E%hex_encode_inj.
  apply be_encode_inj in E.
  - rewrite <- (i64_u64 g), <- (i64_u64 g') by done. by rewrite E.
  - apply u64_range.
  - apply u64_range.
Qed.

Lemma length_Hex g : length (Hex g) = MsgIDLength.
Proof. unfold Hex. by rewrite length_hex_encode. Qed.

(** ** Progress *)

Lemma NewGUID_progress now f :
  factory_ok f → clock_ok now → twepoch < Z.shiftr now 20 → f.(lastTimestamp) < Z.shiftr now 20 →
  ∃ f' id, NewGUID now f = (f', Ok id).
Proof.
  intros Hf Hc Hep Hlt. pose proof Hf as [Hn Hs Ht Hl]. destruct Hc as [Hnow Hts]. unfold NewGUID.
  rewrite UnixNano_ok by done. set (ts := Z.shiftr now 20) in *.
  rewrite (proj2 (Z.ltb_ge _ _)), (proj2 (Z.eqb_neq _ _)) by lia. cbn [nodeID sequence lastID].
  rewrite (proj2 (Z.leb_gt _ _)); [by eexists _, _|].
  destruct Hl as [->|(Hts' & ts0 & s0 & Hts0 & Hle & Hs0 & ->)].
  - rewrite make_id_eq by (done || lia). pow2. lia.
  - apply make_id_lt; (done || lia).
Qed.

Lemma NewGUID_lastTimestamp now f f' r :
  clock_ok now → NewGUID now f = (f', r) → f'.(lastTimestamp) <= Z.max f.(lastTimestamp) (Z.shiftr now 20).
Proof.
  intros [Hnow _]. unfold NewGUID. rewrite UnixNano_ok by done.
  intros E. repeat (step_match E; cbn [lastTimestamp sequence nodeID lastID] in E);
    injection E as <- _; cbn [lastTimestamp]; lia.
Qed.

(** ** Properties *)

(** C37: the identifiers a node generates are strictly increasing, whatever
    the clock does between two calls (it may stand still or go backwards),
    and their hexadecimal forms, the message identifiers, are pairwise
    distinct. *)
Theorem guid_unique (node : Z) (nows : list time) :
  0 <= node < 1024 → Forall clock_ok nows →
  StronglySorted Z.lt (oks (run nows (NewGUIDFactory node)).2) ∧
  NoDup (Hex <$> oks (run nows (NewGUIDFactory node)).2).
Proof.
  intros Hn Hc. destruct (run nows _) as [f' rs] eqn:E.
  destruct (run_spec _ _ _ _ (new_factory_ok node Hn) Hc E) as (_ & _ & Hs & Hd). cbn [snd nodeID NewGUIDFactory] in *.
  split; [done|]. induction Hs as [|id ids Hs IH Hlt]; [constructor|].
  apply Forall_cons in Hd as [Hid Hd]. rewrite fmap_cons. constructor; [|by apply IH].
  assert (Hr : ∀ i, (∃ ts seq, ts_ok ts ∧ 0 <= seq < 4096 ∧ i = make_id ts node seq) → in_i64 i).
  { intros i (ts & seq & Hts & Hq & ->). rewrite make_id_eq by done.
    clear -Hts Hn Hq. unfold ts_ok, twepoch in *. pow2. lia. }
  rewrite list_elem_of_fmap. intros (id' & Heq & Hin).
  rewrite Forall_forall in Hlt, Hd. specialize (Hlt _ Hin). specialize (Hd _ Hin).
  apply Hex_inj in Heq; [lia|by apply Hr..].
Qed.

Definition ms (k : Z) : time := Z.shiftl (twepoch + k) 20.

Lemma ms_ok k : 0 <= k < 2 ^ 40 → clock_ok (ms k).
Proof.
  intros Hk. unfold ms, clock_ok, in_i64, ts_ok, twepoch.
  rewrite Z.shiftl_mul_pow2, Z.shiftr_div_pow2, Z.div_mul by lia. pow2. lia.
Qed.

Ltac clocks := repeat (apply Forall_cons_2; [apply ms_ok; lia|]); apply Forall_nil_2.

Lemma guid_unique_witness :
  length (oks (run [ms 5; ms 5; ms 3; ms 6] (NewGUIDFactory 7)).2) = 3%nat ∧
  NoDup (Hex <$> oks (run [ms 5; ms 5; ms 3; ms 6] (NewGUIDFactory 7)).2).
Proof.
  split; [reflexivity|]. apply (guid_unique 7); [lia|].
  clocks.
Defined.

(** Two nodes with different node numbers never generate the same
    message identifier. *)
Theorem guid_nodes_disjoint (node node' : Z) (nows nows' : list time) (id id' : Z) :
  0 <= node < 1024 → 0 <= node' < 1024 → node ≠ node' →
  Forall clock_ok nows → Forall clock_ok nows' →
  id ∈ oks (run nows (NewGUIDFactory node)).2 →
  id' ∈ oks (run nows' (NewGUIDFactory node')).2 → Hex id ≠ Hex id'.
Proof.
  intros Hn Hn' Hne Hc Hc' Hi Hi' E.
  destruct (run nows _) as [f rs] eqn:E1. destruct (run nows' _) as [f' rs'] eqn:E2.
  destruct (run_spec _ _ _ _ (new_factory_ok _ Hn) Hc E1) as (_ & _ & _ & Hd).
  destruct (run_spec _ _ _ _ (new_factory_ok _ Hn') Hc' E2) as (_ & _ & _ & Hd').
  cbn [snd nodeID NewGUIDFactory] in *. rewrite Forall_forall in Hd, Hd'.
  destruct (Hd _ Hi) as (ts & s & Hts & Hs & ->), (Hd' _ Hi') as (ts' & s' & Hts' & Hs' & ->).
  rewrite !make_id_eq in E by done. unfold ts_ok, twepoch in *.
  apply Hex_inj in E; pow2; lia.
Qed.

Lemma guid_nodes_disjoint_witness :
  Hex (make_id (twepoch + 5) 7 0) ≠ Hex (make_id (twepoch + 5) 8 0).
Proof.
  apply (guid_nodes_disjoint 7 8 [ms 5] [ms 5]); [lia|lia|lia| | | |].
  - clocks.
  - clocks.
  - vm_compute. constructor.
  - vm_compute. constructor.
Defined.

(** [Topic.GenerateID] returns: whatever errors the attempts met, the
    first attempt that reads a later pseudo-millisecond than every earlier
    one and than the factory's last yields an identifier. *)
Theorem GenerateID_returns (f : guidFactory) (nows : list time) (now : time) :
  factory_ok f → Forall clock_ok nows → clock_ok now → twepoch < Z.shiftr now 20 →
  f.(lastTimestamp) < Z.shiftr now 20 →
  Forall (λ t, Z.shiftr t 20 < Z.shiftr now 20) nows →
  ∃ f' id, GenerateID (nows ++ [now]) f = (f', Some id) ∧ factory_ok f' ∧ length id = MsgIDLength.
Proof.
  revert f. induction nows as [|t nows IH]; intros f Hf Hc Hnow Hep Hlt Hlts; cbn [GenerateID app].
  - destruct (NewGUID_progress now f) as (f' & id & E); [done..|]. rewrite E.
    exists f', (Hex id). split_and!; [done| |apply length_Hex].
    by destruct (NewGUID_spec _ _ _ _ Hf Hnow E).
  - apply Forall_cons in Hc as [Hc Hcs]. apply Forall_cons in Hlts as [Hl Hlts].
    destruct (NewGUID t f) as [f' r] eqn:E.
    destruct (NewGUID_spec _ _ _ _ Hf Hc E) as (Hf' & _).
    destruct r as [id|e].
    + exists f', (Hex id). split_and!; [done|done|apply length_Hex].
    + apply IH; try done. pose proof (NewGUID_lastTimestamp _ _ _ _ Hc E). lia.
Qed.

Lemma GenerateID_returns_witness :
  ∃ f' id, GenerateID ([ms 4; ms 5; ms 5] ++ [ms 6]) (mkFactory 7 4095 (twepoch + 5) (make_id (twepoch + 5) 7 4095))
    = (f', Some id) ∧ factory_ok f' ∧ length id = MsgIDLength.
Proof.
  apply GenerateID_returns.
  - split; cbn; [lia..|unfold twepoch; lia|]. right. split; [unfold ts_ok, twepoch; lia|].
    exists (twepoch + 5), 4095. unfold ts_ok, twepoch. split_and!; lia || done.
  - clocks.
  - apply ms_ok. lia.
  - vm_compute. done.
  - vm_compute. done.
  - by apply (bool_decide_unpack _).
Defined.

End Guid.
