(* ===== verification/Heap.v ===== *)
(** * Binary heaps over a shared store

    Both priority queues of nsqd (nsqd/in_flight_pqueue.go and
    internal/pqueue with the standard [container/heap]) are slices of
    pointers: the elements live in a store that others alias, and every swap
    writes the new position into the element's index field. This file holds
    the sift loops they share, the invariants (index consistency and the heap
    order) and the lemmas about them. [None] is a run-time panic. *)
From stdpp Require Import base gmap list.
From Stdlib Require Import ZArith Lia.
From S2P Require Import Prelude.
Set Default Goal Selector "!".

Notation loc := nat (only parsing).

(** What a heap needs to know of the objects it points to. *)
Class HeapItem (V : Type) := {
  item_pri : V → Z;
  item_index : V → Z;
  item_set_index : Z → V → V;
}.

Class HeapItemLaws (V : Type) `{HeapItem V} := {
  item_pri_set i v : item_pri (item_set_index i v) = item_pri v;
  item_index_set i v : item_index (item_set_index i v) = i;
  item_set_set i k v : item_set_index i (item_set_index k v) = item_set_index i v;
}.

Section heap.
Context {V : Type} `{HeapItem V}.

(** The store and the slice. *)
Notation store := (gmap loc V).
Notation hstate := (gmap loc V * list loc)%type.

(** [pq[i].pri] *)
Definition pri_at (s : hstate) (i : nat) : option Z :=
  x ← s.2 !! i; v ← s.1 !! x; Some (item_pri v).

(** [pq[i], pq[j] = pq[j], pq[i]; pq[i].index = i; pq[j].index = j] *)
Definition Swap (i j : nat) (s : hstate) : option hstate :=
  let '(st, pq) := s in
  x ← pq !! i; y ← pq !! j;
  let pq := <[i := y]> (<[j := x]> pq) in
  xi ← pq !! i; vi ← st !! xi;
  let st := <[xi := item_set_index (Z.of_nat i) vi]> st in
  xj ← pq !! j; vj ← st !! xj;
  let st := <[xj := item_set_index (Z.of_nat j) vj]> st in
  Some (st, pq).

Fixpoint up_loop (fuel : nat) (j : nat) (s : hstate) : option hstate :=
  match fuel with
  | O => None
  | S fuel =>
    let i := ((j - 1) / 2)%nat in (* parent *)
    if bool_decide (i = j) then Some s else
    pj ← pri_at s j; pi ← pri_at s i;
    if (pj >=? pi)%Z then Some s else
    s ← Swap i j s;
    up_loop fuel i s
  end.

Definition up (j : nat) (s : hstate) : option hstate := up_loop (S j) j s.

(** [right p1 p2]: whether the right child, of priority [p2], is preferred
    to the left one. The result is the final position. *)
Fixpoint down_loop (right : Z → Z → bool) (fuel : nat) (i n : nat) (s : hstate) :
    option (hstate * nat) :=
  match fuel with
  | O => None
  | S fuel =>
    let j1 := (2 * i + 1)%nat in
    if bool_decide (n <= j1)%nat then Some (s, i) else
    let j2 := (j1 + 1)%nat in
    j ← (if bool_decide (j2 < n)%nat
         then p1 ← pri_at s j1; p2 ← pri_at s j2;
              Some (if right p1 p2 then j2 else j1)
         else Some j1);
    pj ← pri_at s j; pi ← pri_at s i;
    if (pj >=? pi)%Z then Some (s, i) else
    s ← Swap i j s;
    down_loop right fuel j n s
  end.

Definition down (right : Z → Z → bool) (i n : nat) (s : hstate) : option (hstate * nat) :=
  down_loop right (S n) i n s.

(** [x := pq[n-1]; x.index = -1; pq = pq[0 : n-1]; return x] *)
Definition detach_last (s : hstate) : option (hstate * loc) :=
  let '(st, pq) := s in
  x ← last pq; v ← st !! x;
  Some (<[x := item_set_index (-1) v]> st, take (length pq - 1) pq, x).

(** [x.index = n; pq = pq[0 : n+1]; pq[n] = x] *)
Definition attach (x : loc) (s : hstate) : option hstate :=
  let '(st, pq) := s in
  v ← st !! x;
  Some (<[x := item_set_index (Z.of_nat (length pq)) v]> st, pq ++ [x]).

(** ** Invariants *)

(** Every element of the slice is a live object that knows its position. *)
Definition indexed (s : hstate) : Prop :=
  ∀ i x, s.2 !! i = Some x → ∃ v, s.1 !! x = Some v ∧ item_index v = Z.of_nat i.

Definition key (s : hstate) (i : nat) : Z := default 0%Z (pri_at s i).

Definition parent (c : nat) : nat := ((c - 1) / 2)%nat.

(** The first [n] keys are in heap order. *)
Definition heap_upto (n : nat) (K : nat → Z) : Prop :=
  ∀ c, (0 < c < n)%nat → (K (parent c) <= K c)%Z.

Definition heap_ok (s : hstate) : Prop := heap_upto (length s.2) (key s).

(** The store up to the index fields. *)
Definition erase (st : store) : store := item_set_index 0 <$> st.

(** [s'] rearranges [s]: the same pointers to the same objects, and nothing
    changed but the index fields of the objects in the slice. *)
Record rearranged (s s' : hstate) : Prop := {
  re_indexed : indexed s';
  re_perm : s'.2 ≡ₚ s.2;
  re_erase : erase s'.1 = erase s.1;
  re_frame : ∀ x, x ∉ s.2 → s'.1 !! x = s.1 !! x;
}.

(** [s'] is [s] with the element [x] taken out. *)
Record removed (s s' : hstate) (x : loc) : Prop := {
  rm_perm : s.2 ≡ₚ x :: s'.2;
  rm_indexed : indexed s';
  rm_heap : heap_ok s';
  rm_erase : erase s'.1 = erase s.1;
  rm_frame : ∀ y, y ∉ s.2 → s'.1 !! y = s.1 !! y;
  rm_index : ∃ v, s'.1 !! x = Some v ∧ item_index v = (-1)%Z;
}.

(** [s'] is [s] with the element [x] put in. *)
Record inserted (s s' : hstate) (x : loc) : Prop := {
  ins_perm : s'.2 ≡ₚ x :: s.2;
  ins_indexed : indexed s';
  ins_heap : heap_ok s';
  ins_erase : erase s'.1 = erase s.1;
  ins_frame : ∀ y, y ∉ x :: s.2 → s'.1 !! y = s.1 !! y;
}.
End heap.

Section heap_lemmas.
Context {V : Type} `{HeapItemLaws V}.
Notation store := (gmap loc V).
Notation hstate := (gmap loc V * list loc)%type.
Implicit Types (s : hstate) (st : store).

Lemma indexed_NoDup s : indexed s → NoDup s.2.
Proof.
  intros Hi. apply NoDup_alt. intros i j x Hx Hy.
  destruct (Hi i x Hx) as (v & Hv & Ei), (Hi j x Hy) as (v' & Hv' & Ej).
  simplify_eq. lia.
Qed.

Lemma rearranged_refl s : indexed s → rearranged s s.
Proof. done. Qed.

Lemma rearranged_trans s1 s2 s3 :
  rearranged s1 s2 → rearranged s2 s3 → rearranged s1 s3.
Proof.
  intros [? P1 E1 F1] [? P2 E2 F2]. split; [done| | |].
  - by rewrite P2.
  - by rewrite E2.
  - intros x Hx. rewrite F2; [by apply F1|]. by rewrite P1.
Qed.

Lemma rearranged_length s s' : rearranged s s' → length s'.2 = length s.2.
Proof. intros [_ P _ _]. by rewrite P. Qed.

(** Erasure determines the priorities. *)
Lemma erase_lookup st st' x :
  erase st' = erase st →
  item_set_index 0 <$> st' !! x = item_set_index 0 <$> st !! x.
Proof. intros E. rewrite <- !lookup_fmap. unfold erase in E. by rewrite E. Qed.

Lemma erase_pri st st' x :
  erase st' = erase st → item_pri <$> st' !! x = item_pri <$> st !! x.
Proof.
  intros E%(erase_lookup _ _ x).
  destruct (st' !! x) as [v'|], (st !! x) as [v|]; simplify_eq/=; try done.
  rewrite <- (item_pri_set 0 v'), <- (item_pri_set 0 v). congruence.
Qed.

Lemma erase_insert_index st x v i :
  st !! x = Some v → erase (<[x := item_set_index i v]> st) = erase st.
Proof.
  intros Hx. unfold erase. rewrite fmap_insert, item_set_set.
  apply insert_id. by rewrite lookup_fmap, Hx.
Qed.

Lemma pri_at_Some s i :
  indexed s → (i < length s.2)%nat → pri_at s i = Some (key s i).
Proof.
  intros Hi Hlt. unfold key, pri_at.
  destruct (lookup_lt_is_Some_2 s.2 i Hlt) as [x Hx].
  destruct (Hi i x Hx) as (v & Hv & _). by rewrite Hx; simpl; rewrite Hv.
Qed.

Lemma pri_at_ge s i : (length s.2 <= i)%nat → pri_at s i = None.
Proof. intros Hge. unfold pri_at. by rewrite lookup_ge_None_2. Qed.

(** The transposition of two positions. *)
Definition transpose (i j k : nat) : nat :=
  if decide (k = i) then j else if decide (k = j) then i else k.

Lemma Swap_spec s i j :
  indexed s → (i < length s.2)%nat → (j < length s.2)%nat →
  ∃ s', Swap i j s = Some s' ∧ rearranged s s' ∧
    (∀ k, s'.2 !! k = s.2 !! transpose i j k) ∧
    (∀ k, key s' k = key s (transpose i j k)).
Proof.
  destruct s as [st pq]. cbn [fst snd]. intros Hi Hli Hlj.
  destruct (lookup_lt_is_Some_2 pq i Hli) as [x Hx].
  destruct (lookup_lt_is_Some_2 pq j Hlj) as [y Hy].
  set (pq' := <[i := y]> (<[j := x]> pq)).
  assert (Hlen : length pq' = length pq) by (unfold pq'; by rewrite !length_insert).
  assert (Hpq : ∀ k, pq' !! k = pq !! transpose i j k).
  { intros k. unfold pq', transpose. repeat case_decide; subst.
    - rewrite list_lookup_insert_eq by (by rewrite length_insert). done.
    - rewrite list_lookup_insert_ne by done. rewrite list_lookup_insert_eq by done. done.
    - rewrite !list_lookup_insert_ne by done. done. }
  assert (Hi' : pq' !! i = Some y).
  { rewrite Hpq. unfold transpose. rewrite decide_True by done. done. }
  assert (Hj' : pq' !! j = Some x).
  { rewrite Hpq. unfold transpose. repeat case_decide; subst; simplify_eq; done. }
  destruct (Hi i x Hx) as (vx & Hvx & Eix), (Hi j y Hy) as (vy & Hvy & Eiy).
  cbn [fst] in *.
  set (st1 := <[y := item_set_index (Z.of_nat i) vy]> st).
  assert (∃ vx', st1 !! x = Some vx' ∧ item_set_index (Z.of_nat j) vx' = item_set_index (Z.of_nat j) vx)
    as (vx' & Hvx' & Evx').
  { unfold st1. destruct (decide (x = y)) as [->|Hne].
    - simplify_map_eq. eexists; split; [done|]. by rewrite item_set_set.
    - rewrite lookup_insert_ne by done. eauto. }
  set (st2 := <[x := item_set_index (Z.of_nat j) vx']> st1).
  exists (st2, pq'). split.
  { unfold Swap. cbn [mbind option_bind]. rewrite Hx. cbn [mbind option_bind]. rewrite Hy.
    cbn [mbind option_bind]. fold pq'. rewrite Hi'. cbn [mbind option_bind]. rewrite Hvy.
    cbn [mbind option_bind]. fold st1. rewrite Hj'. cbn [mbind option_bind]. rewrite Hvx'. done. }
  assert (Here : erase st2 = erase st).
  { unfold st2. rewrite (erase_insert_index st1) by done. unfold st1. by apply erase_insert_index. }
  assert (Hperm : pq' ≡ₚ pq).
  { unfold pq'. 
    apply Permutation_inj. split; [done|]. exists (transpose i j). split; [|done].
    intros a b. unfold transpose. repeat case_decide; congruence. }
  split; [split; cbn [fst snd]|split]; [| done | done | | done |].
  - intros k z Hz. cbn [fst snd] in *. rewrite Hpq in Hz. unfold transpose in Hz.
    unfold st2, st1. repeat case_decide; subst.
    + assert (z = y) as -> by congruence.
      destruct (decide (x = y)) as [->|Hne].
      * destruct (decide (i = j)) as [->|Hij].
        -- rewrite lookup_insert_eq. eexists; split; [done|]. by rewrite item_index_set.
        -- exfalso. apply Hij. pose proof (indexed_NoDup _ Hi) as ND.
           eapply NoDup_lookup; [exact ND|exact Hx|exact Hy].
      * rewrite lookup_insert_ne, lookup_insert_eq by done. eexists; split; [done|]. by rewrite item_index_set.
    + assert (z = x) as -> by congruence. rewrite lookup_insert_eq.
      eexists; split; [done|]. by rewrite item_index_set.
    + destruct (Hi k z Hz) as (v & Hv & Ek). cbn [fst] in Hv.
      assert (z ≠ x ∧ z ≠ y) as [Hzx Hzy].
      { split; intros ->; simplify_eq; lia. }
      rewrite !lookup_insert_ne by done. eauto.
  - intros z Hz. unfold st2, st1.
    rewrite !lookup_insert_ne; [done| |].
    + intros ->. apply Hz. by eapply list_elem_of_lookup_2.
    + intros ->. apply Hz. by eapply list_elem_of_lookup_2.
  - intros k. unfold key, pri_at. cbn [fst snd]. rewrite Hpq.
    destruct (pq !! transpose i j k) as [z|]; [|done]. simpl.
    pose proof (erase_pri st st2 z Here) as Ep.
    destruct (st2 !! z), (st !! z); simplify_eq/=; congruence.
Qed.

(** ** Sifting up

    [hole_up n K j]: heap order holds except perhaps between [j] and its
    parent. *)
Definition hole_up (n : nat) (K : nat → Z) (j : nat) : Prop :=
  (∀ c, (0 < c < n)%nat → c ≠ j → (K (parent c) <= K c)%Z) ∧
  (∀ c, (0 < c < n)%nat → parent c = j → (0 < j)%nat → (K (parent j) <= K c)%Z).

Lemma hole_up_done n K j :
  hole_up n K j → (j = 0%nat ∨ (K (parent j) <= K j)%Z) → heap_upto n K.
Proof.
  intros [H1 _] Hj c Hc. destruct (decide (c = j)) as [->|]; [|by apply H1].
  destruct Hj; [lia|done].
Qed.

Lemma hole_up_step n K K' j :
  (j < n)%nat → hole_up n K j → parent j ≠ j → (K j < K (parent j))%Z →
  (∀ k, K' k = K (transpose (parent j) j k)) →
  hole_up n K' (parent j).
Proof.
  intros Hj [H1 H2] Hne Hlt HK. unfold parent in *.
  assert (Hp : ((j - 1) / 2 < j)%nat) by lia.
  remember ((j - 1) / 2)%nat as p eqn:Ep.
  split.
  - intros c Hc Hcp. rewrite !HK. unfold transpose, parent.
    destruct (decide (c = j)) as [->|Hcj].
    + rewrite <- Ep. repeat case_decide; lia.
    + rewrite (decide_False (P := c = p)) by done.
      pose proof (H1 c Hc Hcj) as Hc1.
      destruct (decide (((c - 1) / 2)%nat = p)) as [E|E];
        [rewrite E in Hc1; lia|].
      case_decide as E'; [|done]. specialize (H2 c Hc E' ltac:(lia)). lia.
  - intros c Hc Hcp Hp0. rewrite !HK. unfold transpose, parent in *.
    assert (((p - 1) / 2 < p)%nat) by lia.
    rewrite (decide_False (P := ((p - 1) / 2)%nat = p)), (decide_False (P := ((p - 1) / 2)%nat = j)) by lia.
    assert (K ((p - 1) / 2)%nat <= K p)%Z by (apply H1; lia).
    destruct (decide (c = j)) as [->|Hcj].
    + repeat case_decide; lia.
    + assert (c ≠ p) by lia.
      rewrite (decide_False (P := c = p)) by done.
      pose proof (H1 c Hc Hcj) as Hc1. rewrite Hcp in Hc1. lia.
Qed.

Lemma up_loop_spec n fuel j s :
  indexed s → (n <= length s.2)%nat → (j < n)%nat → (j < fuel)%nat →
  hole_up n (key s) j →
  ∃ s', up_loop fuel j s = Some s' ∧ rearranged s s' ∧ heap_upto n (key s') ∧
    (∀ k, (n <= k)%nat → s'.2 !! k = s.2 !! k).
Proof.
  revert j s. induction fuel as [|fuel IH]; intros j s Hi Hn Hj Hf Hh; [lia|].
  cbn [up_loop]. fold (parent j). case_bool_decide as Hp.
  - exists s. split_and!; [done|by apply rearranged_refl| |done].
    eapply hole_up_done; [done|]. left. unfold parent in Hp. lia.
  - assert (parent j < j)%nat by (unfold parent in *; lia).
    rewrite !pri_at_Some by (done || lia). cbn [mbind option_bind].
    case_match eqn:Hcmp.
    + exists s. split_and!; [done|by apply rearranged_refl| |done].
      eapply hole_up_done; [done|]. right. lia.
    + destruct (Swap_spec s (parent j) j) as (s1 & -> & R1 & L1 & K1); [done|lia|lia|].
      cbn [mbind option_bind].
      destruct (IH (parent j) s1) as (s2 & -> & R2 & H2 & L2).
      * apply R1.
      * by rewrite (rearranged_length s).
      * lia.
      * lia.
      * eapply hole_up_step; try done. lia.
      * exists s2. split_and!; [done|by eapply rearranged_trans|done|].
        intros k Hk. rewrite L2 by done. rewrite L1. unfold transpose.
        rewrite !decide_False by lia. done.
Qed.

(** ** Sifting down

    Starting from [i0] and now at [i]: order holds except below [i] and
    above [i0], and the elements around the two holes are in order. *)
Definition hole_down (n : nat) (K : nat → Z) (i0 i : nat) : Prop :=
  (∀ c, (0 < c < n)%nat → c ≠ i0 → parent c ≠ i → (K (parent c) <= K c)%Z) ∧
  (∀ c, (0 < c < n)%nat → parent c = i → (0 < i)%nat → (K (parent i) <= K c)%Z) ∧
  (i ≠ i0 → (0 < i0)%nat → (K (parent i0) <= K i0)%Z).

Lemma hole_down_done n K i0 i :
  hole_down n K i0 i →
  (∀ c, (0 < c < n)%nat → parent c = i → (K i <= K c)%Z) →
  hole_up n K i0.
Proof.
  intros (H1 & H2 & H3) Hc. split.
  - intros c Hcn Hne. destruct (decide (parent c = i)) as [<-|]; [by apply Hc|by apply H1].
  - intros c Hcn Hp Hi0. destruct (decide (i = i0)) as [->|Hne]; [by apply H2|].
    transitivity (K i0); [by apply H3|]. rewrite <- Hp. apply H1; [done| |congruence].
    unfold parent in Hp. lia.
Qed.

Lemma hole_down_step n K K' i0 i j :
  (i0 <= i)%nat → (0 < j < n)%nat → parent j = i →
  hole_down n K i0 i →
  (∀ c, (0 < c < n)%nat → parent c = i → (K j <= K c)%Z) →
  (K j < K i)%Z →
  (∀ k, K' k = K (transpose i j k)) →
  hole_down n K' i0 j.
Proof.
  intros Hi0 Hj Hpj (H1 & H2 & H3) Hmin Hlt HK.
  assert (i < j)%nat by (unfold parent in *; lia).
  split_and!.
  - intros c Hc Hc0 Hcj. rewrite !HK. unfold transpose.
    destruct (decide (c = i)) as [->|Hci].
    + assert (parent i ≠ i ∧ parent i ≠ j) as [??] by (unfold parent in *; lia).
      rewrite !(decide_False (P := parent i = _)) by done.
      apply H2; [lia|done|lia].
    + destruct (decide (c = j)) as [->|Hcj'].
      * rewrite Hpj, decide_True by done. lia.
      * rewrite (decide_False (P := parent c = j)) by done.
        case_decide as E; [by apply Hmin|by apply H1].
  - intros c Hc Hcj Hj0. rewrite !HK. unfold transpose.
    assert (c ≠ i ∧ c ≠ j) as [??] by (unfold parent in *; lia).
    rewrite Hpj, (decide_True (P := i = i)) by done.
    rewrite !(decide_False (P := c = _)) by done.
    rewrite <- Hcj. apply H1; [done| |]; unfold parent in *; lia.
  - intros _ Hi. rewrite !HK. unfold transpose.
    assert (parent i0 ≠ i ∧ parent i0 ≠ j) as [??] by (unfold parent in *; lia).
    rewrite !(decide_False (P := parent i0 = _)) by done.
    rewrite (decide_False (P := i0 = j)) by lia.
    case_decide as E; [|by apply H3]. subst i0. by apply H2.
Qed.

(** The left child is kept only when it is no larger, the right one only
    when it is no larger: what both tie-breaking rules guarantee. *)
Definition prefers_smaller (right : Z → Z → bool) : Prop :=
  ∀ p1 p2, if right p1 p2 then (p2 <= p1)%Z else (p1 <= p2)%Z.

Lemma down_loop_spec right n i0 fuel i s :
  prefers_smaller right →
  indexed s → (n <= length s.2)%nat → (i0 <= i)%nat → (n - i < fuel)%nat →
  (i < n ∨ n = 0)%nat →
  hole_down n (key s) i0 i →
  ∃ s' k, down_loop right fuel i n s = Some (s', k) ∧ rearranged s s' ∧
    hole_up n (key s') i0 ∧
    (∀ k, (n <= k)%nat → s'.2 !! k = s.2 !! k).
Proof.
  intros Hright. revert i s. induction fuel as [|fuel IH]; intros i s Hi Hn Hi0 Hf Hin Hh; [lia|].
  cbn [down_loop]. case_bool_decide as Hj1.
  { exists s, i. split_and!; [done|by apply rearranged_refl| |done].
    eapply hole_down_done; [done|]. intros c Hc Hp. unfold parent in Hp. lia. }
  assert (∃ j, (if bool_decide (2 * i + 1 + 1 < n)%nat
      then p1 ← pri_at s (2 * i + 1); p2 ← pri_at s (2 * i + 1 + 1);
           Some (if right p1 p2 then 2 * i + 1 + 1 else 2 * i + 1)%nat
      else Some (2 * i + 1)%nat) = Some j ∧ (0 < j < n)%nat ∧ parent j = i ∧
      (∀ c, (0 < c < n)%nat → parent c = i → (key s j <= key s c)%Z))
    as (j & -> & Hj & Hpj & Hmin).
  { case_bool_decide as Hj2.
    - rewrite !pri_at_Some by (done || lia). cbn [mbind option_bind].
      specialize (Hright (key s (2 * i + 1)) (key s (2 * i + 1 + 1))).
      destruct (right _ _).
      + exists (2 * i + 1 + 1)%nat. split_and!; [done|lia|lia|unfold parent; lia|].
        intros c Hc Hp. assert (c = 2 * i + 1 ∨ c = 2 * i + 1 + 1)%nat as [-> | ->]
          by (unfold parent in Hp; lia); lia.
      + exists (2 * i + 1)%nat. split_and!; [done|lia|lia|unfold parent; lia|].
        intros c Hc Hp. assert (c = 2 * i + 1 ∨ c = 2 * i + 1 + 1)%nat as [-> | ->]
          by (unfold parent in Hp; lia); lia.
    - exists (2 * i + 1)%nat. split_and!; [done|lia|lia|unfold parent; lia|].
      intros c Hc Hp. assert (c = 2 * i + 1)%nat as -> by (unfold parent in Hp; lia). lia. }
  cbn [mbind option_bind].
  rewrite !pri_at_Some by (done || lia). cbn [mbind option_bind].
  case_match eqn:Hcmp.
  { exists s, i. split_and!; [done|by apply rearranged_refl| |done].
    eapply hole_down_done; [done|]. intros c Hc Hp. specialize (Hmin c Hc Hp). lia. }
  assert (i < j)%nat by (unfold parent in Hpj; lia).
  destruct (Swap_spec s i j) as (s1 & -> & R1 & L1 & K1); [done|lia|lia|].
  cbn [mbind option_bind].
  destruct (IH j s1) as (s2 & k & -> & R2 & H2 & L2).
  - apply R1.
  - by rewrite (rearranged_length s).
  - lia.
  - lia.
  - lia.
  - eapply hole_down_step; [done|done|done|done|done|lia|done].
  - exists s2, k. split_and!; [done|by eapply rearranged_trans|done|].
    intros m Hm. rewrite L2 by done. rewrite L1. unfold transpose.
    rewrite !decide_False by lia. done.
Qed.

Lemma up_spec n j s :
  indexed s → (n <= length s.2)%nat → (j < n)%nat →
  hole_up n (key s) j →
  ∃ s', up j s = Some s' ∧ rearranged s s' ∧ heap_upto n (key s') ∧
    (∀ k, (n <= k)%nat → s'.2 !! k = s.2 !! k).
Proof. intros. unfold up. apply up_loop_spec; [done|done|done|lia|done]. Qed.

Lemma down_spec right n i s :
  prefers_smaller right →
  indexed s → (n <= length s.2)%nat → (i < n ∨ n = 0)%nat →
  hole_down n (key s) i i →
  ∃ s' k, down right i n s = Some (s', k) ∧ rearranged s s' ∧
    hole_up n (key s') i ∧
    (∀ k, (n <= k)%nat → s'.2 !! k = s.2 !! k).
Proof. intros. unfold down. apply down_loop_spec; [done|done|done|lia|lia|done|done]. Qed.

(** The root has the least key. *)
Lemma heap_root_min n K i : heap_upto n K → (i < n)%nat → (K 0%nat <= K i)%Z.
Proof.
  intros Hh. induction i as [i IH] using lt_wf_ind. intros Hi.
  destruct (decide (i = 0%nat)) as [->|]; [lia|].
  transitivity (K (parent i)); [|by apply Hh; lia].
  apply IH; unfold parent; lia.
Qed.

Lemma heap_upto_mono n m K : (m <= n)%nat → heap_upto n K → heap_upto m K.
Proof. intros ? Hh c Hc. apply Hh. lia. Qed.

(** ** Taking the last element out

    Every removal ends with the victim at position [n - 1], the index
    field set to -1 and the slice shortened. *)
Lemma indexed_front st (l : list loc) x v :
  indexed (st, l ++ [x]) → st !! x = Some v →
  indexed (<[x := item_set_index (-1) v]> st, l).
Proof.
  intros Hi Hx i y Hy. cbn [fst snd] in *.
  pose proof (indexed_NoDup _ Hi) as ND. cbn [snd] in ND.
  apply NoDup_app in ND as (_ & Hdisj & _).
  rewrite lookup_insert_ne.
  - apply (Hi i y). cbn [snd]. by apply lookup_app_l_Some.
  - intros <-. apply (Hdisj x); [by eapply list_elem_of_lookup_2|]. by apply list_elem_of_singleton.
Qed.

Lemma key_front st st' (l : list loc) x i :
  (i < length l)%nat → erase st' = erase st →
  key (st', l) i = key (st, l ++ [x]) i.
Proof.
  intros Hi He. unfold key, pri_at. cbn [fst snd]. rewrite lookup_app_l by done.
  destruct (l !! i) as [y|]; [|done]. cbn [mbind option_bind].
  pose proof (erase_pri st st' y He). destruct (st' !! y), (st !! y); simplify_eq/=; congruence.
Qed.

Lemma heap_upto_ext n K K' :
  (∀ i, (i < n)%nat → K' i = K i) → heap_upto n K → heap_upto n K'.
Proof.
  intros E Hh c Hc. rewrite !E by (unfold parent; lia). by apply Hh.
Qed.

(** ** Adding an element at the end *)
Lemma indexed_snoc st (l : list loc) x v :
  indexed (st, l) → x ∉ l → st !! x = Some v →
  indexed (<[x := item_set_index (Z.of_nat (length l)) v]> st, l ++ [x]).
Proof.
  intros Hi Hx Hv i y Hy. cbn [fst snd] in *.
  apply lookup_snoc_inv in Hy as [[Hy Hlt]|[-> ->]].
  - rewrite lookup_insert_ne; [by apply (Hi i y)|].
    intros <-. apply Hx. by eapply list_elem_of_lookup_2.
  - rewrite lookup_insert_eq. eexists; split; [done|]. by rewrite item_index_set.
Qed.

Lemma hole_up_snoc K K' n :
  heap_upto n K → (∀ i, (i < n)%nat → K' i = K i) → hole_up (S n) K' n.
Proof.
  intros Hh E. split.
  - intros c Hc Hne. rewrite !E by (unfold parent; lia). apply Hh. lia.
  - intros c Hc Hp. unfold parent in Hp. lia.
Qed.

Lemma detach_last_spec s :
  indexed s → s.2 ≠ [] → heap_upto (length s.2 - 1) (key s) →
  ∃ s' x, detach_last s = Some (s', x) ∧ last s.2 = Some x ∧
    s'.2 = take (length s.2 - 1) s.2 ∧ removed s s' x.
Proof.
  destruct s as [st pq]. cbn [fst snd]. intros Hi Hne Hh.
  destruct (exists_last Hne) as (l & x & ->).
  destruct (Hi (length l) x) as (v & Hv & _).
  { cbn [snd]. by rewrite lookup_app_r, Nat.sub_diag by lia. }
  cbn [fst] in Hv.
  unfold detach_last. rewrite last_snoc. cbn [mbind option_bind]. rewrite Hv. cbn [mbind option_bind].
  rewrite length_app in *. cbn [length] in *. rewrite Nat.add_sub in *.
  rewrite take_app_length' by done.
  eexists _, x. split_and!; [done|done|done|].
  assert (He : erase (<[x := item_set_index (-1) v]> st) = erase st) by (by apply erase_insert_index).
  split; cbn [fst snd].
  - by rewrite Permutation_app_comm.
  - by eapply indexed_front.
  - unfold heap_ok. cbn [snd]. eapply heap_upto_ext; [|done].
    intros i Hil. by apply key_front.
  - done.
  - intros y Hy. rewrite lookup_insert_ne; [done|]. intros ->. set_solver.
  - rewrite lookup_insert_eq. eexists; split; [done|]. by rewrite item_index_set.
Qed.

Lemma removed_rearranged s1 s2 s3 x :
  rearranged s1 s2 → removed s2 s3 x → removed s1 s3 x.
Proof.
  intros [I1 P1 E1 F1] [P2 I2 H2 E2 F2 X2]. split; [|done|done| | |done].
  - by rewrite <- P1.
  - by rewrite E2.
  - intros y Hy. rewrite F2; [by apply F1|]. by rewrite P1.
Qed.

(** Appending and sifting up keeps the heap. *)
Lemma attach_up_spec s x :
  indexed s → heap_ok s → x ∉ s.2 → is_Some (s.1 !! x) →
  ∃ s1 s', attach x s = Some s1 ∧ up (length s.2) s1 = Some s' ∧ inserted s s' x.
Proof.
  destruct s as [st pq]. cbn [fst snd]. intros Hi Hh Hx [v Hv].
  unfold attach. rewrite Hv. cbn [mbind option_bind]. eexists _. 
  set (st1 := <[x := item_set_index (Z.of_nat (length pq)) v]> st).
  assert (He : erase st1 = erase st) by (by apply erase_insert_index).
  assert (Hi1 : indexed (st1, pq ++ [x])) by (by apply indexed_snoc).
  destruct (up_spec (S (length pq)) (length pq) (st1, pq ++ [x])) as (s' & Hup & [I2 P2 E2 F2] & H2 & L2).
  - done.
  - cbn [snd]. rewrite length_app. simpl. lia.
  - lia.
  - eapply hole_up_snoc; [exact Hh|]. intros i Hil. symmetry.
    rewrite <- (key_front st1 st pq x i) by done. done.
  - exists s'. split_and!; [done|done|]. cbn [fst snd] in *. split; cbn [fst snd].
    + rewrite P2. by rewrite Permutation_app_comm.
    + done.
    + unfold heap_ok. rewrite P2, length_app. cbn [length]. by rewrite Nat.add_1_r.
    + by rewrite E2.
    + intros y Hy. rewrite F2.
      * unfold st1. rewrite lookup_insert_ne; [done|]. intros ->. set_solver.
      * set_solver.
Qed.

(** Swapping the root (or any element) to the end and restoring the order
    of the rest. *)
Lemma swap_down_spec right s i :
  prefers_smaller right → indexed s → heap_ok s → (i < length s.2 - 1)%nat →
  ∃ s1 s2 k, Swap i (length s.2 - 1) s = Some s1 ∧
    down right i (length s.2 - 1) s1 = Some (s2, k) ∧
    rearranged s s2 ∧ hole_up (length s.2 - 1) (key s2) i ∧ last s2.2 = s.2 !! i.
Proof.
  intros Hright Hi Hh Hlt. set (n := (length s.2 - 1)%nat) in *.
  destruct (Swap_spec s i n) as (s1 & Es & R1 & L1 & K1); [done|lia|lia|].
  pose proof (rearranged_length s s1 R1) as Hlen1.
  destruct (down_spec right n i s1) as (s2 & k & Ed & R2 & H2 & L2);
    [done|by apply R1|lia|lia| |].
  - split_and!; [| |done].
    + intros c Hc Hci Hp. rewrite !K1. unfold transpose.
      rewrite !decide_False by (unfold parent in *; lia). apply Hh. lia.
    + intros c Hc Hp Hi0. rewrite !K1. unfold transpose.
      rewrite !decide_False by (unfold parent in *; lia).
      transitivity (key s i); [apply Hh; lia|]. rewrite <- Hp. apply Hh. lia.
  - exists s1, s2, k. split_and!; [done|done|by eapply rearranged_trans|done|].
    rewrite last_lookup. rewrite (rearranged_length s1 s2 R2), Hlen1.
    replace (pred (length s.2)) with n by lia. rewrite L2 by done. rewrite L1.
    unfold transpose. rewrite decide_False, decide_True by lia. done.
Qed.
End heap_lemmas.

#[export] Hint Resolve indexed_NoDup rearranged_refl rearranged_trans : nsq.
