(* ===== verification/InFlightPQ.v ===== *)
(** * The in-flight priority queue (nsqd/in_flight_pqueue.go)

    A min-heap of messages ordered by their time-out [pri]; the messages are
    shared with the channel's in-flight map, so they live in a store. The
    capacity of the slice is modelled because growing and shrinking it is
    where the code could panic. *)
From stdpp Require Import base gmap list strings sorting.
From Stdlib Require Import ZArith Lia.
From S2P Require Import Prelude.
From S2P Require Import Message.
From S2P Require Import Heap.
Set Default Goal Selector "!".

#[export] Instance Message_item : HeapItem Message :=
  {| item_pri := pri; item_index := index; item_set_index := set_index |}.
#[export] Instance Message_item_laws : HeapItemLaws Message.
Proof. split; done. Qed.

Notation mstore := (gmap nat Message).

Record inFlightPqueue := mkPQ {
  slice : list loc;
  capacity : nat;
}.

Module IFPQ.

Notation pstate := (mstore * inFlightPqueue)%type.

Definition newInFlightPqueue (capacity : nat) : inFlightPqueue := mkPQ [] capacity.

(** The tie-breaking rule of [down]: the right child wins ties. *)
Definition right_child (p1 p2 : Z) : bool := (p1 >=? p2)%Z.

(** [make(inFlightPqueue, n, c)] followed by [copy]: panics when [c < n]. *)
Definition remake (c : nat) (pq : inFlightPqueue) : option inFlightPqueue :=
  if bool_decide (length pq.(slice) <= c)%nat then Some (mkPQ pq.(slice) c) else None.

Definition Push (x : loc) (s : pstate) : option pstate :=
  let '(st, pq) := s in
  let n := length pq.(slice) in
  let c := pq.(capacity) in
  pq ← (if bool_decide (c < n + 1)%nat then remake (c * 2) pq else Some pq);
  (* reslicing to [0 : n+1] panics beyond the capacity *)
  if bool_decide (pq.(capacity) < n + 1)%nat then None else
  h ← attach x (st, pq.(slice));
  h ← up n h;
  Some (h.1, mkPQ h.2 pq.(capacity)).

Definition Pop (s : pstate) : option (pstate * loc) :=
  let '(st, pq) := s in
  let n := length pq.(slice) in
  let c := pq.(capacity) in
  if bool_decide (n = 0)%nat then None else
  h ← Swap 0 (n - 1) (st, pq.(slice));
  '(h, _) ← down right_child 0 (n - 1) h;
  pq ← (if bool_decide (n < c / 2)%nat && bool_decide (25 < c)%nat
        then remake (c / 2) (mkPQ h.2 c) else Some (mkPQ h.2 c));
  '(h, x) ← detach_last (h.1, pq.(slice));
  Some ((h.1, mkPQ h.2 pq.(capacity)), x).

Definition Remove (i : nat) (s : pstate) : option (pstate * loc) :=
  let '(st, pq) := s in
  let n := length pq.(slice) in
  if bool_decide (n = 0)%nat then None else
  h ← (if bool_decide (n - 1 = i)%nat then Some (st, pq.(slice)) else
       h ← Swap i (n - 1) (st, pq.(slice));
       '(h, _) ← down right_child i (n - 1) h;
       up i h);
  '(h, x) ← detach_last h;
  Some ((h.1, mkPQ h.2 pq.(capacity)), x).

Definition PeekAndShift (max : Z) (s : pstate) : option (pstate * (option loc * Z)) :=
  let '(st, pq) := s in
  match pq.(slice) with
  | [] => Some (s, (None, 0%Z))
  | x :: _ =>
    m ← st !! x;
    if (m.(pri) >? max)%Z then Some (s, (None, i64 (m.(pri) - max)))
    else '(s, _) ← Pop s; Some (s, (Some x, 0%Z))
  end.

(** ** Invariant *)
Definition hs (s : pstate) : mstore * list loc := (s.1, s.2.(slice)).

Record pq_ok (s : pstate) : Prop := {
  pq_indexed : indexed (hs s);
  pq_heap : heap_ok (hs s);
  pq_cap_pos : (1 <= s.2.(capacity))%nat;
  pq_cap : (length s.2.(slice) <= s.2.(capacity))%nat;
}.

Lemma right_child_ok : prefers_smaller right_child.
Proof. intros p1 p2. unfold right_child. case_match; lia. Qed.

Lemma new_ok st c : (1 <= c)%nat → pq_ok (st, newInFlightPqueue c).
Proof.
  intros Hc. split; cbn; [done| |done|lia].
  intros i Hi. cbn in Hi. lia.
Qed.

Lemma Push_spec s x :
  pq_ok s → x ∉ s.2.(slice) → is_Some (s.1 !! x) →
  ∃ s', Push x s = Some s' ∧ pq_ok s' ∧ inserted (hs s) (hs s') x.
Proof.
  destruct s as [st [sl c]]. intros [Hi Hh Hc Hl] Hx Hv. cbn [fst snd slice capacity hs] in *.
  destruct (attach_up_spec (st, sl) x) as (s1 & s' & Ha & Hu & Hins); [done..|].
  assert (Hlen' : length s'.2 = S (length sl)) by (by rewrite (ins_perm _ _ _ Hins)).
  assert (∃ c', (if bool_decide (c < length sl + 1)%nat then remake (c * 2) (mkPQ sl c)
                 else Some (mkPQ sl c)) = Some (mkPQ sl c') ∧ (length sl + 1 <= c')%nat)
    as (c' & E & Hc').
  { case_bool_decide as Hlt.
    - exists (c * 2)%nat. unfold remake. cbn [slice]. rewrite bool_decide_eq_true_2 by lia. split; [done|lia].
    - exists c. split; [done|lia]. }
  exists (s'.1, mkPQ s'.2 c'). split.
  - unfold Push. cbn [slice capacity]. rewrite E. cbn [mbind option_bind capacity].
    rewrite bool_decide_eq_false_2 by lia. cbn [slice]. rewrite Ha. cbn [mbind option_bind].
    cbn [snd] in Hu. by rewrite Hu.
  - assert (hs (s'.1, mkPQ s'.2 c') = s') as E' by (by destruct s').
    split; [|by rewrite E'].
    split; rewrite ?E'; [apply Hins|apply Hins| |]; cbn; lia.
Qed.

Lemma Pop_spec s :
  pq_ok s → s.2.(slice) ≠ [] →
  ∃ s' x, Pop s = Some (s', x) ∧ head s.2.(slice) = Some x ∧ pq_ok s' ∧ removed (hs s) (hs s') x.
Proof.
  destruct s as [st [sl c]]. intros [Hi Hh Hc Hl] Hne. cbn [fst snd slice capacity hs] in *.
  assert (Hn : (0 < length sl)%nat) by (destruct sl; cbn; [done|lia]).
  assert (∃ s2 k, (h ← Swap 0 (length sl - 1) (st, sl); down right_child 0 (length sl - 1) h) = Some (s2, k) ∧
     rearranged (st, sl) s2 ∧ heap_upto (length sl - 1) (key s2) ∧ last s2.2 = sl !! 0%nat)
    as (s2 & k & E & R & H2 & L).
  { destruct (decide (length sl = 1%nat)) as [E1|].
    - rewrite E1. destruct (Swap_spec (st, sl) 0 0) as (s1 & E & R & L & _); [done|cbn; lia..|].
      cbn [Nat.sub]. rewrite E. exists s1, 0%nat. split_and!; [done|done| |].
      + intros i Hi'. lia.
      + rewrite last_lookup, (rearranged_length (st, sl) s1 R). cbn [snd]. rewrite E1. cbn [pred].
        rewrite L. done.
    - destruct (swap_down_spec right_child (st, sl) 0) as (s1 & s2 & k & E1 & E2 & R & H2 & L).
      { apply right_child_ok. } { done. } { done. } { cbn [snd]. lia. }
      cbn [snd] in *. exists s2, k. rewrite E1. split_and!; [done|done| |done].
      eapply hole_up_done; [done|]. by left. }
  pose proof (rearranged_length _ _ R) as Hlen2. cbn [snd] in Hlen2.
  destruct (detach_last_spec s2) as (s3 & x & Ed & Lx & Ls & Rm).
  { apply R. } { intros E'. rewrite E' in Hlen2. cbn in Hlen2. lia. } { by rewrite Hlen2. }
  assert (∃ c', (if bool_decide (length sl < c / 2)%nat && bool_decide (25 < c)%nat
        then remake (c / 2) (mkPQ s2.2 c) else Some (mkPQ s2.2 c)) = Some (mkPQ s2.2 c') ∧
     (1 <= c')%nat ∧ (length sl <= c')%nat) as (c' & Ec & Hc1 & Hc2).
  { destruct (bool_decide (length sl < c / 2)%nat && bool_decide (25 < c)%nat) eqn:Eb; bool_to_prop.
    - exists (c / 2)%nat. unfold remake. cbn [slice]. rewrite bool_decide_eq_true_2 by lia. split; [done|lia].
    - exists c. done. }
  rewrite L in Lx.
  exists (s3.1, mkPQ s3.2 c'), x. split_and!.
  - unfold Pop. cbn [slice capacity]. rewrite bool_decide_eq_false_2 by lia.
    destruct (Swap 0 (length sl - 1) (st, sl)) as [h|]; [|done]. cbn [mbind option_bind] in *.
    rewrite E. cbn [mbind option_bind]. rewrite Ec. cbn [mbind option_bind slice capacity].
    destruct s2 as [st2 sl2]. cbn [fst snd] in *. by rewrite Ed.
  - by rewrite head_lookup.
  - assert (hs (s3.1, mkPQ s3.2 c') = s3) as E' by (by destruct s3).
    split; rewrite ?E'; [apply Rm|apply Rm|done|].
    cbn [snd slice capacity]. rewrite Ls, length_take. lia.
  - assert (hs (s3.1, mkPQ s3.2 c') = s3) as -> by (by destruct s3). by eapply removed_rearranged.
Qed.

Lemma Remove_spec s i :
  pq_ok s → (i < length s.2.(slice))%nat →
  ∃ s' x, Remove i s = Some (s', x) ∧ s.2.(slice) !! i = Some x ∧ pq_ok s' ∧ removed (hs s) (hs s') x.
Proof.
  destruct s as [st [sl c]]. intros [Hi Hh Hc Hl] Hlt. cbn [fst snd slice capacity hs] in *.
  assert (∃ s2, (if bool_decide (length sl - 1 = i)%nat then Some (st, sl) else
       h ← Swap i (length sl - 1) (st, sl);
       '(h, _) ← down right_child i (length sl - 1) h; up i h) = Some s2 ∧
     rearranged (st, sl) s2 ∧ heap_upto (length sl - 1) (key s2) ∧ last s2.2 = sl !! i)
    as (s2 & E & R & H2 & L).
  { case_bool_decide as E1.
    - exists (st, sl). split_and!; [done|by apply rearranged_refl| |].
      + apply (heap_upto_mono (length sl)); [lia|exact Hh].
      + cbn [snd]. rewrite last_lookup. f_equal. lia.
    - destruct (swap_down_spec right_child (st, sl) i) as (s1 & s2 & k & E2 & E3 & R & H2 & L).
      { apply right_child_ok. } { done. } { done. } { cbn [snd]. lia. }
      cbn [snd] in *. rewrite E2. cbn [mbind option_bind]. rewrite E3. cbn [mbind option_bind].
      pose proof (rearranged_length _ _ R) as Hlen. cbn [snd] in Hlen.
      destruct (up_spec (length sl - 1) i s2) as (s3 & E4 & R3 & H3 & L3); [apply R|lia|lia|done|].
      exists s3. split_and!; [done|by eapply rearranged_trans|done|].
      rewrite last_lookup in *. rewrite (rearranged_length _ _ R3), Hlen in *.
      rewrite L3 by lia. done. }
  pose proof (rearranged_length _ _ R) as Hlen2. cbn [snd] in Hlen2.
  destruct (detach_last_spec s2) as (s3 & x & Ed & Lx & Ls & Rm).
  { apply R. } { intros E'. rewrite E' in Hlen2. cbn in Hlen2. lia. } { by rewrite Hlen2. }
  rewrite L in Lx.
  exists (s3.1, mkPQ s3.2 c), x. 
  assert (hs (s3.1, mkPQ s3.2 c) = s3) as E' by (by destruct s3).
  split_and!; [|done| |].
  - unfold Remove. cbn [slice capacity]. rewrite bool_decide_eq_false_2 by lia.
    rewrite E. cbn [mbind option_bind]. by rewrite Ed.
  - split; rewrite ?E'; [apply Rm|apply Rm|done|].
    cbn [snd slice capacity]. rewrite Ls, length_take. lia.
  - rewrite E'. by eapply removed_rearranged.
Qed.

Lemma pq_min s i x y m m' :
  pq_ok s → head s.2.(slice) = Some x → s.2.(slice) !! i = Some y →
  s.1 !! x = Some m → s.1 !! y = Some m' → (m.(pri) <= m'.(pri))%Z.
Proof.
  intros [Hi Hh _ _] Hx Hy Hm Hm'. rewrite head_lookup in Hx.
  pose proof (heap_root_min _ _ i Hh ltac:(by eapply lookup_lt_Some)) as Hle.
  unfold key, pri_at, hs in Hle. cbn [fst snd] in Hle.
  rewrite Hx, Hy in Hle. cbn [mbind option_bind] in Hle. by rewrite Hm, Hm' in Hle.
Qed.

(** The effect of [PeekAndShift max]: nothing is due and the queue is
    unchanged, or the root is due and is removed. *)
Lemma PeekAndShift_spec s max :
  pq_ok s →
  ∃ s' r, PeekAndShift max s = Some (s', r) ∧ pq_ok s' ∧
    match r.1 with
    | None => s' = s ∧ ∀ x m, x ∈ s.2.(slice) → s.1 !! x = Some m → (max < m.(pri))%Z
    | Some x => removed (hs s) (hs s') x ∧ r.2 = 0%Z ∧
        ∃ m, s.1 !! x = Some m ∧ (m.(pri) <= max)%Z ∧
          ∀ y m', y ∈ s.2.(slice) → s.1 !! y = Some m' → (m.(pri) <= m'.(pri))%Z
    end.
Proof.
  intros Hok. pose proof Hok as [Hi _ _ _]. unfold PeekAndShift.
  destruct s as [st [sl c]]. cbn [slice]. destruct sl as [|x sl].
  { eexists _, _. split_and!; [done|done|]. cbn. split; [done|]. intros x m Hx. by apply elem_of_nil in Hx. }
  destruct (Hi 0%nat x) as (m & Hm & _); [done|]. cbn [fst hs] in Hm.
  rewrite Hm. cbn [mbind option_bind].
  assert (Hmin : ∀ y m', y ∈ x :: sl → st !! y = Some m' → (m.(pri) <= m'.(pri))%Z).
  { intros y m' Hy Hm'. apply list_elem_of_lookup in Hy as [i Hy].
    by eapply (pq_min (st, mkPQ (x :: sl) c) i x y). }
  case_match eqn:Hcmp.
  - eexists _, _. split_and!; [done|done|]. cbn [fst snd slice]. split; [done|].
    intros y m' Hy Hm'. specialize (Hmin y m' Hy Hm'). lia.
  - destruct (Pop_spec (st, mkPQ (x :: sl) c)) as (s' & x' & E & Hx & Hok' & Hrm); [done|done|].
    cbn [slice snd head] in Hx. simplify_eq. rewrite E. cbn [mbind option_bind].
    eexists _, _. split_and!; [done|done|]. cbn [fst snd]. split_and!; [done|done|].
    exists m. split_and!; [done|lia|done].
Qed.

(** Popping everything, the reference the queue is compared with. *)
Fixpoint drain (n : nat) (s : pstate) : option (list loc) :=
  match n with
  | O => Some []
  | S n => '(s, x) ← Pop s; xs ← drain n s; Some (x :: xs)
  end.

Definition pri_of (st : mstore) (x : loc) : Z := default 0%Z (pri <$> st !! x).

Lemma erase_pri_of st st' x : erase st' = erase st → pri_of st' x = pri_of st x.
Proof. intros E. unfold pri_of. f_equal. exact (erase_pri st st' x E). Qed.

Lemma drain_spec n s :
  pq_ok s → length s.2.(slice) = n →
  ∃ xs, drain n s = Some xs ∧ xs ≡ₚ s.2.(slice) ∧
    StronglySorted (λ x y, pri_of s.1 x <= pri_of s.1 y)%Z xs.
Proof.
  revert s. induction n as [|n IH]; intros s Hok Hn.
  { exists []. split_and!; [done| |constructor]. destruct (slice s.2); done. }
  destruct (Pop_spec s) as (s' & x & E & Hx & Hok' & Hrm); [done|by destruct (slice s.2)|].
  pose proof (rm_perm _ _ _ Hrm) as Hp. cbn [hs fst snd] in Hp.
  destruct (IH s') as (xs & E' & Hp' & Hs); [done|rewrite Hp in Hn; cbn in Hn; lia|].
  exists (x :: xs). cbn [drain]. rewrite E. cbn [mbind option_bind]. rewrite E'. cbn [mbind option_bind].
  split_and!; [done|by rewrite Hp, Hp'|].
  pose proof (rm_erase _ _ _ Hrm) as He. cbn [hs fst] in He.
  constructor.
  - eapply StronglySorted_impl; [|exact Hs]. intros a b Hab. cbn in Hab |- *.
    by rewrite !(erase_pri_of s.1 s'.1) in Hab by done.
  - apply Forall_forall. intros y Hy. rewrite Hp' in Hy.
    pose proof Hok as [Hi _ _ _].
    assert (y ∈ s.2.(slice)) as Hy2 by (rewrite Hp; by apply list_elem_of_further).
    apply list_elem_of_lookup in Hy2 as [i Hi2].
    destruct (Hi i y Hi2) as (m' & Hm' & _). rewrite head_lookup in Hx.
    destruct (Hi 0%nat x Hx) as (m & Hm & _). cbn [hs fst] in Hm, Hm'.
    unfold pri_of. rewrite Hm, Hm'. cbn.
    apply (pq_min s i x y m m'); [done|by rewrite head_lookup|done..].
Qed.

Fixpoint push_all (xs : list loc) (s : pstate) : option pstate :=
  match xs with
  | [] => Some s
  | x :: xs => s ← Push x s; push_all xs s
  end.

Lemma erase_is_Some (st st' : mstore) x : erase st' = erase st → is_Some (st !! x) → is_Some (st' !! x).
Proof.
  intros E%(erase_lookup _ _ x) [v Hv]. rewrite Hv in E. destruct (st' !! x); [by eexists|done].
Qed.

Lemma push_all_spec xs s :
  pq_ok s → NoDup xs → (∀ x, x ∈ xs → x ∉ s.2.(slice) ∧ is_Some (s.1 !! x)) →
  ∃ s', push_all xs s = Some s' ∧ pq_ok s' ∧ s'.2.(slice) ≡ₚ xs ++ s.2.(slice) ∧ erase s'.1 = erase s.1.
Proof.
  revert s. induction xs as [|x xs IH]; intros s Hok Hnd Hxs; [by exists s|].
  apply NoDup_cons in Hnd as [Hx Hnd]. destruct (Hxs x) as [Hx1 Hx2]; [by constructor|].
  destruct (Push_spec s x Hok Hx1 Hx2) as (s1 & E1 & Hok1 & Hins).
  pose proof (ins_perm _ _ _ Hins) as Hp. pose proof (ins_erase _ _ _ Hins) as He. cbn [hs fst snd] in Hp, He.
  destruct (IH s1 Hok1 Hnd) as (s2 & E2 & Hok2 & Hp2 & He2).
  { intros y Hy. destruct (Hxs y) as [Hy1 Hy2]; [by constructor|]. split.
    - rewrite Hp, not_elem_of_cons. split; [by intros ->|done].
    - by eapply erase_is_Some. }
  exists s2. cbn [push_all]. rewrite E1. cbn [mbind option_bind]. split_and!; [done|done| |congruence].
  rewrite Hp2, Hp. by rewrite <- Permutation_middle.
Qed.

(** ** Properties *)

(** The in-flight queue sorts: whatever distinct messages are pushed into
    a new queue of capacity at least one, in whatever order, no push and no
    pop panics (the slice is grown and shrunk in time) and popping returns
    them all, each once, ordered by time-out. *)
Theorem inflight_heap_sort (st : mstore) (c : nat) (xs : list loc) :
  (1 <= c)%nat → NoDup xs → Forall (λ x, is_Some (st !! x)) xs →
  ∃ s ys, push_all xs (st, newInFlightPqueue c) = Some s ∧ drain (length xs) s = Some ys ∧
    ys ≡ₚ xs ∧ StronglySorted (λ x y, pri_of st x <= pri_of st y)%Z ys.
Proof.
  intros Hc Hnd Hxs. rewrite Forall_forall in Hxs.
  destruct (push_all_spec xs (st, newInFlightPqueue c)) as (s & E & Hok & Hp & He); [by apply new_ok|done|..].
  { intros x Hx. split; [apply not_elem_of_nil|by apply Hxs]. }
  cbn [fst snd slice newInFlightPqueue] in *. rewrite app_nil_r in Hp.
  destruct (drain_spec (length xs) s Hok) as (ys & E' & Hp' & Hs); [by rewrite Hp|].
  exists s, ys. split_and!; [done|done|by rewrite Hp'|].
  eapply StronglySorted_impl; [|exact Hs]. intros a b Hab. cbn in Hab |- *.
  by rewrite <- !(erase_pri_of st s.1) by done.
Qed.

Definition demo_store : mstore :=
  list_to_map (zip (seq 0 5) ((λ p, mkMessage [] [] 0 0 0 0 p 0 0) <$> [30; 10; 20; 50; 10]%Z)).

Lemma inflight_heap_sort_witness :
  ∃ s ys, push_all [0; 1; 2; 3; 4]%nat (demo_store, newInFlightPqueue 1) = Some s ∧ drain 5 s = Some ys ∧
    ys ≡ₚ [0; 1; 2; 3; 4]%nat ∧ StronglySorted (λ x y, pri_of demo_store x <= pri_of demo_store y)%Z ys.
Proof.
  apply (inflight_heap_sort demo_store 1 [0; 1; 2; 3; 4]%nat).
  - lia.
  - by apply (bool_decide_unpack _).
  - by apply (bool_decide_unpack _).
Defined.

(** [Remove i] takes out exactly the message at index [i], whose index
    field becomes -1, wherever it is in the heap; nothing else of any message
    changes and the rest still pops in the order of their time-outs. *)
Theorem inflight_Remove_any (s : pstate) (i : nat) :
  pq_ok s → (i < length s.2.(slice))%nat →
  ∃ s' x ys m, Remove i s = Some (s', x) ∧ s.2.(slice) !! i = Some x ∧
    s'.1 !! x = Some m ∧ m.(index) = (-1)%Z ∧ erase s'.1 = erase s.1 ∧
    drain (length s.2.(slice) - 1) s' = Some ys ∧ x :: ys ≡ₚ s.2.(slice) ∧
    StronglySorted (λ x y, pri_of s.1 x <= pri_of s.1 y)%Z ys.
Proof.
  intros Hok Hi. destruct (Remove_spec s i Hok Hi) as (s' & x & E & Hx & Hok' & Hrm).
  pose proof (rm_perm _ _ _ Hrm) as Hp. pose proof (rm_erase _ _ _ Hrm) as He. cbn [hs fst snd] in Hp, He.
  destruct (rm_index _ _ _ Hrm) as (m & Hm & Hidx).
  destruct (drain_spec (length s.2.(slice) - 1) s' Hok') as (ys & E' & Hp' & Hs).
  { rewrite Hp. cbn. lia. }
  exists s', x, ys, m. split_and!; try done.
  - by rewrite Hp, Hp'.
  - eapply StronglySorted_impl; [|exact Hs]. intros a b Hab. cbn in Hab |- *.
    by rewrite !(erase_pri_of s.1 s'.1) in Hab by done.
Qed.

Lemma inflight_Remove_any_witness :
  ∃ s s' x ys m, push_all [0; 1; 2; 3; 4]%nat (demo_store, newInFlightPqueue 1) = Some s ∧
    Remove 1 s = Some (s', x) ∧ s.2.(slice) !! 1%nat = Some x ∧
    s'.1 !! x = Some m ∧ m.(index) = (-1)%Z ∧ erase s'.1 = erase s.1 ∧
    drain (length s.2.(slice) - 1) s' = Some ys ∧ x :: ys ≡ₚ s.2.(slice) ∧
    StronglySorted (λ x y, pri_of s.1 x <= pri_of s.1 y)%Z ys.
Proof.
  destruct (push_all_spec [0; 1; 2; 3; 4]%nat (demo_store, newInFlightPqueue 1)) as (s & E & Hok & Hp & _).
  - by apply new_ok.
  - by apply (bool_decide_unpack _).
  - apply Forall_forall. by apply (bool_decide_unpack _).
  - exists s. destruct (inflight_Remove_any s 1 Hok) as (s' & x & ys & m & H).
    + rewrite Hp. cbn. lia.
    + exists s', x, ys, m. split; [exact E|exact H].
Defined.

End IFPQ.
