(* ===== verification/PQueue.v ===== *)
(** * The deferred priority queue (internal/pqueue/pqueue.go)

    A [PriorityQueue] of items used through the standard library's
    [container/heap]: [heap_Push] and [heap_Remove] are that package's
    functions over the methods of [PriorityQueue]. An item's value is a
    pointer to a message. *)
From stdpp Require Import base gmap list strings sorting.
From Stdlib Require Import ZArith Lia.
From S2P Require Import Prelude.
From S2P Require Import Heap.
Set Default Goal Selector "!".

Record Item := mkItem {
  Value : loc;        (* the *Message *)
  Priority : Z;       (* int64 *)
  Index : Z;          (* int *)
}.

Definition set_Index (i : Z) (it : Item) : Item := mkItem it.(Value) it.(Priority) i.

#[export] Instance Item_item : HeapItem Item :=
  {| item_pri := Priority; item_index := Index; item_set_index := set_Index |}.
#[export] Instance Item_item_laws : HeapItemLaws Item.
Proof. split; done. Qed.

Notation istore := (gmap nat Item).

Record PriorityQueue := mkPriorityQueue {
  qslice : list loc;
  qcap : nat;
}.

Module PQ.

Notation qstate := (istore * PriorityQueue)%type.

Definition New (capacity : nat) : PriorityQueue := mkPriorityQueue [] capacity.

Definition Len (pq : PriorityQueue) : nat := length pq.(qslice).

(** [pq[i].Priority < pq[j].Priority] *)
Definition Less (i j : nat) (s : qstate) : option bool :=
  pi ← pri_at (s.1, s.2.(qslice)) i; pj ← pri_at (s.1, s.2.(qslice)) j;
  Some (pi <? pj)%Z.

(** [container/heap]'s [down] takes the right child when
    [Less(j2, j1)]. *)
Definition right_child (p1 p2 : Z) : bool := (p2 <? p1)%Z.

Definition remake (c : nat) (pq : PriorityQueue) : option PriorityQueue :=
  if bool_decide (length pq.(qslice) <= c)%nat then Some (mkPriorityQueue pq.(qslice) c) else None.

(** The [Push] and [Pop] methods: they only append and cut off. *)
Definition Push (x : loc) (s : qstate) : option qstate :=
  let '(st, pq) := s in
  let n := length pq.(qslice) in
  let c := pq.(qcap) in
  pq ← (if bool_decide (c < n + 1)%nat then remake (c * 2) pq else Some pq);
  if bool_decide (pq.(qcap) < n + 1)%nat then None else
  h ← attach x (st, pq.(qslice));
  Some (h.1, mkPriorityQueue h.2 pq.(qcap)).

Definition Pop (s : qstate) : option (qstate * loc) :=
  let '(st, pq) := s in
  let n := length pq.(qslice) in
  let c := pq.(qcap) in
  pq ← (if bool_decide (n < c / 2)%nat && bool_decide (25 < c)%nat then remake (c / 2) pq else Some pq);
  '(h, x) ← detach_last (st, pq.(qslice));
  Some ((h.1, mkPriorityQueue h.2 pq.(qcap)), x).

(** [container/heap]: [heap.Push(h, x)] is [h.Push(x); up(h, h.Len()-1)]. *)
Definition heap_Push (x : loc) (s : qstate) : option qstate :=
  s ← Push x s;
  h ← up (length s.2.(qslice) - 1) (s.1, s.2.(qslice));
  Some (h.1, mkPriorityQueue h.2 s.2.(qcap)).

(** [container/heap]: [heap.Remove(h, i)] swaps [i] with the last element,
    restores the order of the others and calls [h.Pop()]. [down] reports
    whether the element moved. *)
Definition heap_Remove (i : nat) (s : qstate) : option (qstate * loc) :=
  let '(st, pq) := s in
  if bool_decide (length pq.(qslice) = 0)%nat then None else
  let n := (length pq.(qslice) - 1)%nat in
  h ← (if bool_decide (n = i) then Some (st, pq.(qslice)) else
       h ← Swap i n (st, pq.(qslice));
       '(h, k) ← down right_child i n h;
       if bool_decide (i < k)%nat then Some h else up i h);
  Pop (h.1, mkPriorityQueue h.2 pq.(qcap)).

Definition PeekAndShift (max : Z) (s : qstate) : option (qstate * (option loc * Z)) :=
  let '(st, pq) := s in
  match pq.(qslice) with
  | [] => Some (s, (None, 0%Z))
  | x :: _ =>
    it ← st !! x;
    if (it.(Priority) >? max)%Z then Some (s, (None, i64 (it.(Priority) - max)))
    else '(s, _) ← heap_Remove 0 s; Some (s, (Some x, 0%Z))
  end.

(** ** Invariant and specifications *)
Definition hs (s : qstate) : istore * list loc := (s.1, s.2.(qslice)).

Record pq_ok (s : qstate) : Prop := {
  pq_indexed : indexed (hs s);
  pq_heap : heap_ok (hs s);
  pq_cap_pos : (1 <= s.2.(qcap))%nat;
  pq_cap : (length s.2.(qslice) <= s.2.(qcap))%nat;
}.

Lemma q_right_child_ok : prefers_smaller right_child.
Proof. intros p1 p2. unfold right_child. case_match; lia. Qed.

Lemma q_new_ok st c : (1 <= c)%nat → pq_ok (st, New c).
Proof.
  intros Hc. split; cbn; [done| |done|lia].
  intros i Hi. cbn in Hi. lia.
Qed.

Lemma heap_Push_spec s x :
  pq_ok s → x ∉ s.2.(qslice) → is_Some (s.1 !! x) →
  ∃ s', heap_Push x s = Some s' ∧ pq_ok s' ∧ inserted (hs s) (hs s') x.
Proof.
  destruct s as [st [sl c]]. intros [Hi Hh Hc Hl] Hx Hv. cbn [fst snd qslice qcap hs] in *.
  destruct (attach_up_spec (st, sl) x) as (s1 & s' & Ha & Hu & Hins); [done..|].
  assert (Hlen' : length s'.2 = S (length sl)) by (by rewrite (ins_perm _ _ _ Hins)).
  assert (∃ c', (if bool_decide (c < length sl + 1)%nat then remake (c * 2) (mkPriorityQueue sl c)
                 else Some (mkPriorityQueue sl c)) = Some (mkPriorityQueue sl c') ∧ (length sl + 1 <= c')%nat)
    as (c' & E & Hc').
  { case_bool_decide as Hlt.
    - exists (c * 2)%nat. unfold remake. cbn [qslice]. rewrite bool_decide_eq_true_2 by lia. split; [done|lia].
    - exists c. split; [done|lia]. }
  exists (s'.1, mkPriorityQueue s'.2 c'). split.
  - unfold heap_Push, Push. cbn [qslice qcap]. rewrite E. cbn [mbind option_bind qcap].
    rewrite bool_decide_eq_false_2 by lia. cbn [qslice]. rewrite Ha. cbn [mbind option_bind fst snd qslice qcap].
    assert (length s1.2 = S (length sl)) as El.
    { revert Ha. unfold attach. destruct (st !! x); [|done]. intros [= <-]. cbn [snd].
      rewrite length_app. cbn. lia. }
    rewrite El. cbn [snd] in Hu. replace (S (length sl) - 1)%nat with (length sl) by lia.
    destruct s1. cbn [fst snd] in *. by rewrite Hu.
  - assert (hs (s'.1, mkPriorityQueue s'.2 c') = s') as E' by (by destruct s').
    split; [|by rewrite E'].
    split; rewrite ?E'; [apply Hins|apply Hins| |]; cbn; lia.
Qed.

(** The only index the code removes is the root, where the two variants of
    the sift (with or without the conditional [up]) agree. *)
Lemma heap_Remove_root_spec s :
  pq_ok s → s.2.(qslice) ≠ [] →
  ∃ s' x, heap_Remove 0 s = Some (s', x) ∧ head s.2.(qslice) = Some x ∧ pq_ok s' ∧
    removed (hs s) (hs s') x.
Proof.
  destruct s as [st [sl c]]. intros [Hi Hh Hc Hl] Hne. cbn [fst snd qslice qcap hs] in *.
  assert (Hn : (0 < length sl)%nat) by (destruct sl; cbn; [done|lia]).
  assert (∃ s2, (if bool_decide (length sl - 1 = 0)%nat then Some (st, sl) else
       h ← Swap 0 (length sl - 1) (st, sl);
       '(h, k) ← down right_child 0 (length sl - 1) h;
       if bool_decide (0 < k)%nat then Some h else up 0 h) = Some s2 ∧
     rearranged (st, sl) s2 ∧ heap_upto (length sl - 1) (key s2) ∧ last s2.2 = sl !! 0%nat)
    as (s2 & E & R & H2 & L).
  { case_bool_decide as E1.
    - exists (st, sl). split_and!; [done|by apply rearranged_refl| |].
      + apply (heap_upto_mono (length sl)); [lia|exact Hh].
      + cbn [snd]. rewrite last_lookup. f_equal. lia.
    - destruct (swap_down_spec right_child (st, sl) 0) as (s1 & s2 & k & E2 & E3 & R & H2 & L).
      { apply q_right_child_ok. } { done. } { done. } { cbn [snd]. lia. }
      cbn [snd] in *. rewrite E2. cbn [mbind option_bind]. rewrite E3. cbn [mbind option_bind].
      exists s2. split_and!; [|done|eapply hole_up_done; [done|by left]|done].
      case_bool_decide; done. }
  pose proof (rearranged_length _ _ R) as Hlen2. cbn [snd] in Hlen2.
  destruct (detach_last_spec s2) as (s3 & x & Ed & Lx & Ls & Rm).
  { apply R. } { intros E'. rewrite E' in Hlen2. cbn in Hlen2. lia. } { by rewrite Hlen2. }
  assert (∃ c', (if bool_decide (length s2.2 < c / 2)%nat && bool_decide (25 < c)%nat
        then remake (c / 2) (mkPriorityQueue s2.2 c) else Some (mkPriorityQueue s2.2 c))
        = Some (mkPriorityQueue s2.2 c') ∧ (1 <= c')%nat ∧ (length sl <= c')%nat) as (c' & Ec & Hc1 & Hc2).
  { destruct (bool_decide (length s2.2 < c / 2)%nat && bool_decide (25 < c)%nat) eqn:Eb; bool_to_prop.
    - exists (c / 2)%nat. unfold remake. cbn [qslice]. rewrite bool_decide_eq_true_2 by lia. split; [done|lia].
    - exists c. done. }
  rewrite L in Lx.
  exists (s3.1, mkPriorityQueue s3.2 c'), x.
  assert (hs (s3.1, mkPriorityQueue s3.2 c') = s3) as E' by (by destruct s3).
  split_and!.
  - unfold heap_Remove. cbn [qslice qcap]. rewrite bool_decide_eq_false_2 by lia.
    rewrite E. cbn [mbind option_bind]. unfold Pop. cbn [qslice qcap]. rewrite Ec.
    cbn [mbind option_bind qslice qcap]. destruct s2. cbn [fst snd] in *. by rewrite Ed.
  - by rewrite head_lookup.
  - split; rewrite ?E'; [apply Rm|apply Rm|done|].
    cbn [snd qslice qcap]. rewrite Ls, length_take. lia.
  - rewrite E'. by eapply removed_rearranged.
Qed.

Lemma q_PeekAndShift_spec s max :
  pq_ok s →
  ∃ s' r, PeekAndShift max s = Some (s', r) ∧ pq_ok s' ∧
    match r.1 with
    | None => s' = s ∧ ∀ x m, x ∈ s.2.(qslice) → s.1 !! x = Some m → (max < m.(Priority))%Z
    | Some x => removed (hs s) (hs s') x ∧
        ∃ m, s.1 !! x = Some m ∧ (m.(Priority) <= max)%Z ∧
          ∀ y m', y ∈ s.2.(qslice) → s.1 !! y = Some m' → (m.(Priority) <= m'.(Priority))%Z
    end.
Proof.
  intros Hok. pose proof Hok as [Hi Hh _ _]. unfold PeekAndShift.
  destruct s as [st [sl c]]. cbn [qslice]. destruct sl as [|x sl].
  { eexists _, _. split_and!; [done|done|]. cbn. split; [done|]. intros x m Hx. by apply elem_of_nil in Hx. }
  destruct (Hi 0%nat x) as (m & Hm & _); [done|]. cbn [fst hs] in Hm.
  rewrite Hm. cbn [mbind option_bind].
  assert (Hmin : ∀ y m', y ∈ x :: sl → st !! y = Some m' → (m.(Priority) <= m'.(Priority))%Z).
  { intros y m' Hy Hm'. apply list_elem_of_lookup in Hy as [i Hy].
    pose proof (heap_root_min _ _ i Hh ltac:(by eapply lookup_lt_Some)) as Hle.
    unfold key, pri_at, hs in Hle. cbn [fst snd qslice] in Hle.
    rewrite Hy in Hle. cbn [lookup list_lookup mbind option_bind] in Hle. by rewrite Hm, Hm' in Hle. }
  case_match eqn:Hcmp.
  - eexists _, _. split_and!; [done|done|]. cbn [fst snd qslice]. split; [done|].
    intros y m' Hy Hm'. specialize (Hmin y m' Hy Hm'). lia.
  - destruct (heap_Remove_root_spec (st, mkPriorityQueue (x :: sl) c)) as (s' & x' & E & Hx & Hok' & Hrm); [done|done|].
    cbn [qslice snd head] in Hx. simplify_eq. rewrite E. cbn [mbind option_bind].
    eexists _, _. split_and!; [done|done|]. cbn [fst snd]. split_and!; [done|].
    exists m. split_and!; [done|lia|done].
Qed.

Definition prio_of (st : istore) (x : loc) : Z := default 0%Z (Priority <$> st !! x).

Lemma erase_prio_of st st' x : erase st' = erase st → prio_of st' x = prio_of st x.
Proof. intros E. unfold prio_of. f_equal. exact (erase_pri st st' x E). Qed.

Fixpoint push_all (xs : list loc) (s : qstate) : option qstate :=
  match xs with
  | [] => Some s
  | x :: xs => s ← heap_Push x s; push_all xs s
  end.

(** Shifting until nothing is due, as the queue scan does. *)
Fixpoint shift_all (fuel : nat) (max : Z) (s : qstate) : option (list loc * qstate) :=
  match fuel with
  | O => None
  | S fuel =>
    '(s, r) ← PeekAndShift max s;
    match r.1 with
    | None => Some ([], s)
    | Some x => '(xs, s) ← shift_all fuel max s; Some (x :: xs, s)
    end
  end.

Lemma shift_all_spec fuel max s :
  pq_ok s → (length s.2.(qslice) < fuel)%nat →
  ∃ xs s', shift_all fuel max s = Some (xs, s') ∧ pq_ok s' ∧ s.2.(qslice) ≡ₚ xs ++ s'.2.(qslice) ∧
    erase s'.1 = erase s.1 ∧ Forall (λ x, prio_of s.1 x <= max)%Z xs ∧
    Forall (λ x, max < prio_of s.1 x)%Z s'.2.(qslice) ∧
    StronglySorted (λ x y, prio_of s.1 x <= prio_of s.1 y)%Z xs.
Proof.
  revert s. induction fuel as [|fuel IH]; intros s Hok Hf; [lia|]. cbn [shift_all].
  destruct (q_PeekAndShift_spec s max Hok) as (s1 & r & E & Hok1 & Hr). rewrite E. cbn [mbind option_bind].
  destruct r.1 as [x|].
  - destruct Hr as (Hrm & m & Hm & Hmax & Hmin).
    pose proof (rm_perm _ _ _ Hrm) as Hp. pose proof (rm_erase _ _ _ Hrm) as He. cbn [hs fst snd] in Hp, He.
    destruct (IH s1 Hok1) as (xs & s2 & E2 & Hok2 & Hp2 & He2 & H1 & H2 & H3); [rewrite Hp in Hf; cbn in Hf; lia|].
    rewrite E2. cbn [mbind option_bind]. exists (x :: xs), s2.
    assert (Hpr : ∀ y, prio_of s1.1 y = prio_of s.1 y) by (intros y; by apply erase_prio_of).
    assert (Hx : prio_of s.1 x = Priority m) by (unfold prio_of; by rewrite Hm).
    split_and!; [done|done|by rewrite Hp, Hp2|congruence| | |].
    + constructor; [lia|]. eapply Forall_impl; [exact H1|]. intros y. cbn. by rewrite Hpr.
    + eapply Forall_impl; [exact H2|]. intros y. cbn. by rewrite Hpr.
    + constructor; [eapply StronglySorted_impl; [|exact H3]; intros a b; cbn; by rewrite !Hpr|].
      apply Forall_forall. intros y Hy. rewrite Hx.
      assert (y ∈ s.2.(qslice)) as Hy2.
      { rewrite Hp, Hp2. apply list_elem_of_further, elem_of_app. by left. }
      apply list_elem_of_lookup in Hy2 as [i Hi].
      destruct (pq_indexed _ Hok i y Hi) as (v & Hv & _). cbn [hs fst] in Hv.
      unfold prio_of. rewrite Hv. cbn. apply (Hmin y v); [by eapply list_elem_of_lookup_2|done].
  - destruct Hr as [-> Hmax]. exists [], s. split_and!; [done|done|done|done|constructor| |constructor].
    apply Forall_forall. intros y Hy. pose proof Hy as Hy2.
    apply list_elem_of_lookup in Hy2 as [i Hi].
    destruct (pq_indexed _ Hok i y Hi) as (v & Hv & _). cbn [hs fst] in Hv.
    unfold prio_of. rewrite Hv. cbn. by apply (Hmax y v).
Qed.

Lemma q_push_all_spec xs s :
  pq_ok s → NoDup xs → (∀ x, x ∈ xs → x ∉ s.2.(qslice) ∧ is_Some (s.1 !! x)) →
  ∃ s', push_all xs s = Some s' ∧ pq_ok s' ∧ s'.2.(qslice) ≡ₚ xs ++ s.2.(qslice) ∧ erase s'.1 = erase s.1.
Proof.
  revert s. induction xs as [|x xs IH]; intros s Hok Hnd Hxs; [by exists s|].
  apply NoDup_cons in Hnd as [Hx Hnd]. destruct (Hxs x) as [Hx1 Hx2]; [by constructor|].
  destruct (heap_Push_spec s x Hok Hx1 Hx2) as (s1 & E1 & Hok1 & Hins).
  pose proof (ins_perm _ _ _ Hins) as Hp. pose proof (ins_erase _ _ _ Hins) as He. cbn [hs fst snd] in Hp, He.
  destruct (IH s1 Hok1 Hnd) as (s2 & E2 & Hok2 & Hp2 & He2).
  { intros y Hy. destruct (Hxs y) as [Hy1 Hy2]; [by constructor|]. split.
    - rewrite Hp, not_elem_of_cons. split; [by intros ->|done].
    - apply (erase_lookup _ _ y) in He. destruct Hy2 as [v Hv]. rewrite Hv in He.
      destruct (s1.1 !! y); [by eexists|done]. }
  exists s2. cbn [push_all]. rewrite E1. cbn [mbind option_bind]. split_and!; [done|done| |congruence].
  rewrite Hp2, Hp. by rewrite <- Permutation_middle.
Qed.

(** ** Properties *)

(** Whatever items are put on a new deferred queue of capacity at least
    one, scanning it with [PeekAndShift max] until it reports nothing due
    never panics, returns exactly the items of priority at most [max], each
    once and in order, and leaves exactly the others. *)
Theorem deferred_due (st : istore) (c : nat) (xs : list loc) (max : Z) :
  (1 <= c)%nat → NoDup xs → Forall (λ x, is_Some (st !! x)) xs →
  ∃ s due s', push_all xs (st, New c) = Some s ∧ shift_all (S (length xs)) max s = Some (due, s') ∧
    due ++ s'.2.(qslice) ≡ₚ xs ∧
    Forall (λ x, prio_of st x <= max)%Z due ∧ Forall (λ x, max < prio_of st x)%Z s'.2.(qslice) ∧
    StronglySorted (λ x y, prio_of st x <= prio_of st y)%Z due.
Proof.
  intros Hc Hnd Hxs. rewrite Forall_forall in Hxs.
  destruct (q_push_all_spec xs (st, New c)) as (s & E & Hok & Hp & He); [by apply q_new_ok|done|..].
  { intros x Hx. split; [apply not_elem_of_nil|by apply Hxs]. }
  cbn [fst snd qslice New] in *. rewrite app_nil_r in Hp.
  destruct (shift_all_spec (S (length xs)) max s Hok) as (due & s' & E' & _ & Hp' & _ & H1 & H2 & H3).
  { rewrite Hp. lia. }
  assert (Hpr : ∀ y, prio_of s.1 y = prio_of st y) by (intros y; by apply erase_prio_of).
  exists s, due, s'. split_and!; [done|done|by rewrite <- Hp'| | |].
  - eapply Forall_impl; [exact H1|]. intros y. cbn. by rewrite Hpr.
  - eapply Forall_impl; [exact H2|]. intros y. cbn. by rewrite Hpr.
  - eapply StronglySorted_impl; [|exact H3]. intros a b. cbn. by rewrite !Hpr.
Qed.

Definition demo_store : istore :=
  list_to_map (zip (seq 0 5) ((λ p, mkItem 0 p 0) <$> [30; 10; 20; 50; 10]%Z)).

Lemma deferred_due_witness :
  ∃ s due s', push_all [0; 1; 2; 3; 4]%nat (demo_store, New 1) = Some s ∧
    shift_all 6 20 s = Some (due, s') ∧ due ++ s'.2.(qslice) ≡ₚ [0; 1; 2; 3; 4]%nat ∧
    Forall (λ x, prio_of demo_store x <= 20)%Z due ∧
    Forall (λ x, 20 < prio_of demo_store x)%Z s'.2.(qslice) ∧
    StronglySorted (λ x y, prio_of demo_store x <= prio_of demo_store y)%Z due.
Proof.
  apply (deferred_due demo_store 1 [0; 1; 2; 3; 4]%nat).
  - lia.
  - by apply (bool_decide_unpack _).
  - by apply (bool_decide_unpack _).
Defined.

End PQ.
