(* ===== verification/DiskQueue.v ===== *)
(** * The disk queue (disk/diskqueue.go)

    A file-backed FIFO. The state [diskQueue] holds the fields of the struct
    that change after instantiation, the local variables of [ioLoop] ([count],
    [dataRead] and whether [r] is the read channel) and the file system:
    [files] maps names to contents and [tick] counts system calls. The
    section's [fault] decides which call fails (for a write, after how many
    bytes); [rand_Int] is [rand.Int].

    An open file is its name and an offset. That is exact: the code closes
    the file it reads before it removes or renames it, and a write through a
    descriptor whose file has been removed (which [moveForward] can leave
    behind when corrupt data made the reader overtake the writer) goes to a
    file without a name, which nobody can open again.

    Operations run in a state monad; an error is a value of [ioerr]. *)
From stdpp Require Import base gmap list strings.
From Stdlib Require Import ZArith Lia.
From S2P Require Import Prelude.
From S2P Require Import Decimal.
Set Default Goal Selector "!".
Local Open Scope Z_scope.

Module DQ.

Inductive ioerr :=
| ENotExist
| EFault                      (* a system call failed *)
| EEOF
| EUnexpectedEOF
| EScan                       (* [Fscanf]: input does not match format *)
| EInvalidReadSize (n : Z)
| EInvalidWriteSize (n max : Z)
| EExiting.

#[export] Instance ioerr_eq_dec : EqDecision ioerr.
Proof. solve_decision. Defined.

(** An open file: its name and the offset of its descriptor. *)
Record handle := mkHandle { h_name : bytes; h_off : Z }.

(** [readFile] together with the [bufio.Reader] over it. *)
Record reader := mkReader { rd_file : handle; rd_buf : bytes }.

Record config := mkConfig {
  name : bytes;
  dataPath : bytes;
  maxBytesPerFile : Z;
  minMsgSize : Z;             (* int32 *)
  maxMsgSize : Z;             (* int32 *)
  syncEvery : Z;
}.

Record diskQueue := mkDQ {
  files : gmap bytes bytes;
  tick : nat;
  readPos : Z;
  writePos : Z;
  readFileNum : Z;
  writeFileNum : Z;
  depth : Z;
  exitFlag : bool;
  needSync : bool;
  nextReadPos : Z;
  nextReadFileNum : Z;
  readFile : option reader;
  writeFile : option handle;
  count : Z;
  dataRead : bytes;
  r : bool;
}.

Definition set_files (x : gmap bytes bytes) (s : diskQueue) : diskQueue :=
  mkDQ x s.(tick) s.(readPos) s.(writePos) s.(readFileNum) s.(writeFileNum) s.(depth) s.(exitFlag) s.(needSync)
    s.(nextReadPos) s.(nextReadFileNum) s.(readFile) s.(writeFile) s.(count) s.(dataRead) s.(r).
Definition set_tick (x : nat) (s : diskQueue) : diskQueue :=
  mkDQ s.(files) x s.(readPos) s.(writePos) s.(readFileNum) s.(writeFileNum) s.(depth) s.(exitFlag) s.(needSync)
    s.(nextReadPos) s.(nextReadFileNum) s.(readFile) s.(writeFile) s.(count) s.(dataRead) s.(r).
Definition set_readPos (x : Z) (s : diskQueue) : diskQueue :=
  mkDQ s.(files) s.(tick) x s.(writePos) s.(readFileNum) s.(writeFileNum) s.(depth) s.(exitFlag) s.(needSync)
    s.(nextReadPos) s.(nextReadFileNum) s.(readFile) s.(writeFile) s.(count) s.(dataRead) s.(r).
Definition set_writePos (x : Z) (s : diskQueue) : diskQueue :=
  mkDQ s.(files) s.(tick) s.(readPos) x s.(readFileNum) s.(writeFileNum) s.(depth) s.(exitFlag) s.(needSync)
    s.(nextReadPos) s.(nextReadFileNum) s.(readFile) s.(writeFile) s.(count) s.(dataRead) s.(r).
Definition set_readFileNum (x : Z) (s : diskQueue) : diskQueue :=
  mkDQ s.(files) s.(tick) s.(readPos) s.(writePos) x s.(writeFileNum) s.(depth) s.(exitFlag) s.(needSync)
    s.(nextReadPos) s.(nextReadFileNum) s.(readFile) s.(writeFile) s.(count) s.(dataRead) s.(r).
Definition set_writeFileNum (x : Z) (s : diskQueue) : diskQueue :=
  mkDQ s.(files) s.(tick) s.(readPos) s.(writePos) s.(readFileNum) x s.(depth) s.(exitFlag) s.(needSync)
    s.(nextReadPos) s.(nextReadFileNum) s.(readFile) s.(writeFile) s.(count) s.(dataRead) s.(r).
Definition set_depth (x : Z) (s : diskQueue) : diskQueue :=
  mkDQ s.(files) s.(tick) s.(readPos) s.(writePos) s.(readFileNum) s.(writeFileNum) x s.(exitFlag) s.(needSync)
    s.(nextReadPos) s.(nextReadFileNum) s.(readFile) s.(writeFile) s.(count) s.(dataRead) s.(r).
Definition set_exitFlag (x : bool) (s : diskQueue) : diskQueue :=
  mkDQ s.(files) s.(tick) s.(readPos) s.(writePos) s.(readFileNum) s.(writeFileNum) s.(depth) x s.(needSync)
    s.(nextReadPos) s.(nextReadFileNum) s.(readFile) s.(writeFile) s.(count) s.(dataRead) s.(r).
Definition set_needSync (x : bool) (s : diskQueue) : diskQueue :=
  mkDQ s.(files) s.(tick) s.(readPos) s.(writePos) s.(readFileNum) s.(writeFileNum) s.(depth) s.(exitFlag) x
    s.(nextReadPos) s.(nextReadFileNum) s.(readFile) s.(writeFile) s.(count) s.(dataRead) s.(r).
Definition set_nextReadPos (x : Z) (s : diskQueue) : diskQueue :=
  mkDQ s.(files) s.(tick) s.(readPos) s.(writePos) s.(readFileNum) s.(writeFileNum) s.(depth) s.(exitFlag)
    s.(needSync) x s.(nextReadFileNum) s.(readFile) s.(writeFile) s.(count) s.(dataRead) s.(r).
Definition set_nextReadFileNum (x : Z) (s : diskQueue) : diskQueue :=
  mkDQ s.(files) s.(tick) s.(readPos) s.(writePos) s.(readFileNum) s.(writeFileNum) s.(depth) s.(exitFlag)
    s.(needSync) s.(nextReadPos) x s.(readFile) s.(writeFile) s.(count) s.(dataRead) s.(r).
Definition set_readFile (x : option reader) (s : diskQueue) : diskQueue :=
  mkDQ s.(files) s.(tick) s.(readPos) s.(writePos) s.(readFileNum) s.(writeFileNum) s.(depth) s.(exitFlag)
    s.(needSync) s.(nextReadPos) s.(nextReadFileNum) x s.(writeFile) s.(count) s.(dataRead) s.(r).
Definition set_writeFile (x : option handle) (s : diskQueue) : diskQueue :=
  mkDQ s.(files) s.(tick) s.(readPos) s.(writePos) s.(readFileNum) s.(writeFileNum) s.(depth) s.(exitFlag)
    s.(needSync) s.(nextReadPos) s.(nextReadFileNum) s.(readFile) x s.(count) s.(dataRead) s.(r).
Definition set_count (x : Z) (s : diskQueue) : diskQueue :=
  mkDQ s.(files) s.(tick) s.(readPos) s.(writePos) s.(readFileNum) s.(writeFileNum) s.(depth) s.(exitFlag)
    s.(needSync) s.(nextReadPos) s.(nextReadFileNum) s.(readFile) s.(writeFile) x s.(dataRead) s.(r).
Definition set_dataRead (x : bytes) (s : diskQueue) : diskQueue :=
  mkDQ s.(files) s.(tick) s.(readPos) s.(writePos) s.(readFileNum) s.(writeFileNum) s.(depth) s.(exitFlag)
    s.(needSync) s.(nextReadPos) s.(nextReadFileNum) s.(readFile) s.(writeFile) s.(count) x s.(r).
Definition set_r (x : bool) (s : diskQueue) : diskQueue :=
  mkDQ s.(files) s.(tick) s.(readPos) s.(writePos) s.(readFileNum) s.(writeFileNum) s.(depth) s.(exitFlag)
    s.(needSync) s.(nextReadPos) s.(nextReadFileNum) s.(readFile) s.(writeFile) s.(count) s.(dataRead) x.

Definition M (A : Type) := diskQueue → A * diskQueue.
#[export] Instance M_ret : MRet M := λ A a s, (a, s).
#[export] Instance M_bind : MBind M := λ A B f m s, let '(a, s) := m s in f a s.
Definition get : M diskQueue := λ s, (s, s).
Definition upd (f : diskQueue → diskQueue) : M () := λ s, ((), f s).
Definition when (b : bool) (m : M ()) : M () := if b then m else mret ().

Section dq.
Context (cfg : config) (fault : nat → option nat) (rand_Int : nat → Z).

(** ** System calls *)

(** Every call consumes one answer of the fault oracle. *)
Definition syscall : M (option nat) := λ s, (fault s.(tick), set_tick (S s.(tick)) s).

Definition os_Open (fn : bytes) : M (res ioerr handle) :=
  e ← syscall; s ← get;
  match e with
  | Some _ => mret (Err EFault)
  | None => match s.(files) !! fn with
            | Some _ => mret (Ok (mkHandle fn 0))
            | None => mret (Err ENotExist)
            end
  end.

(** [O_RDWR|O_CREATE]: an existing file is not truncated. *)
Definition os_OpenCreate (fn : bytes) : M (res ioerr handle) :=
  e ← syscall; s ← get;
  match e with
  | Some _ => mret (Err EFault)
  | None =>
    _ ← upd (set_files (<[fn := default [] (s.(files) !! fn)]> s.(files)));
    mret (Ok (mkHandle fn 0))
  end.

Definition f_Seek (h : handle) (pos : Z) : M (res ioerr handle) :=
  e ← syscall;
  match e with
  | Some _ => mret (Err EFault)
  | None => mret (Ok (mkHandle h.(h_name) pos))
  end.

(** Writing at an offset; a gap is filled with zeros. *)
Definition write_at (c : bytes) (pos : nat) (p : bytes) : bytes :=
  take pos (c ++ replicate (pos - length c) Byte.x00) ++ p ++ drop (pos + length p) c.

Definition f_Write (h : handle) (p : bytes) : M (res ioerr handle) :=
  e ← syscall; s ← get;
  let p' := match e with Some k => take k p | None => p end in
  _ ← (match s.(files) !! h.(h_name) with
       | Some c => upd (set_files (<[h.(h_name) := write_at c (Z.to_nat h.(h_off)) p']> s.(files)))
       | None => mret ()
       end);
  mret (match e with
        | Some _ => Err EFault
        | None => Ok (mkHandle h.(h_name) (h.(h_off) + Z.of_nat (length p)))
        end).

Definition f_Sync : M (option ioerr) :=
  e ← syscall; mret (match e with Some _ => Some EFault | None => None end).

Definition os_Remove (fn : bytes) : M (option ioerr) :=
  e ← syscall; s ← get;
  match e with
  | Some _ => mret (Some EFault)
  | None => match s.(files) !! fn with
            | Some _ => _ ← upd (set_files (delete fn s.(files))); mret None
            | None => mret (Some ENotExist)
            end
  end.

Definition os_Rename (old new : bytes) : M (option ioerr) :=
  e ← syscall; s ← get;
  match e with
  | Some _ => mret (Some EFault)
  | None => match s.(files) !! old with
            | Some c => _ ← upd (set_files (<[new := c]> (delete old s.(files)))); mret None
            | None => mret (Some ENotExist)
            end
  end.

(** ** [bufio.Reader] *)
Definition bufsize : nat := 4096.

(** One [read(2)] of at most [n] bytes. *)
Definition f_Read (h : handle) (n : nat) : M (res ioerr (bytes * handle)) :=
  e ← syscall; s ← get;
  match e with
  | Some _ => mret (Err EFault)
  | None =>
    let c := default [] (s.(files) !! h.(h_name)) in
    let d := take n (drop (Z.to_nat h.(h_off)) c) in
    if bool_decide (d = []) then mret (Err EEOF)
    else mret (Ok (d, mkHandle h.(h_name) (h.(h_off) + Z.of_nat (length d))))
  end.

(** [Read(p)] for a [p] of [n] bytes, [0 < n]: what is buffered, or one read,
    past the buffer when [p] is at least as large as it. *)
Definition bufio_Read (rd : reader) (n : nat) : M (res ioerr (bytes * reader)) :=
  match rd.(rd_buf) with
  | _ :: _ => mret (Ok (take n rd.(rd_buf), mkReader rd.(rd_file) (drop n rd.(rd_buf))))
  | [] =>
    if bool_decide (bufsize <= n)%nat then
      x ← f_Read rd.(rd_file) n;
      mret (match x with Ok (d, h) => Ok (d, mkReader h []) | Err e => Err e end)
    else
      x ← f_Read rd.(rd_file) bufsize;
      mret (match x with Ok (d, h) => Ok (take n d, mkReader h (drop n d)) | Err e => Err e end)
  end.

(** [io.ReadFull(r, p)] for [n] more bytes after [acc]: end of file is
    [ErrUnexpectedEOF] once something has been read. Every read yields a
    byte, so [n] rounds are enough. *)
Fixpoint ReadFull_loop (fuel : nat) (rd : reader) (n : nat) (acc : bytes) : M (res ioerr (bytes * reader)) :=
  match n with
  | O => mret (Ok (acc, rd))
  | S _ =>
    match fuel with
    | O => mret (Err EFault)
    | S fuel =>
      x ← bufio_Read rd n;
      match x with
      | Ok (d, rd) => ReadFull_loop fuel rd (n - length d) (acc ++ d)
      | Err EEOF => mret (Err (if bool_decide (acc = []) then EEOF else EUnexpectedEOF))
      | Err e => mret (Err e)
      end
    end
  end.
Definition ReadFull (rd : reader) (n : nat) : M (res ioerr (bytes * reader)) := ReadFull_loop n rd n [].

(** ** File names *)
Definition slash : byte := byte_of_Z 47.
Definition metaDataFileName : bytes :=
  cfg.(dataPath) ++ slash :: cfg.(name) ++ bytes_of_string ".diskqueue.meta.dat".
Definition fileName (fileNum : Z) : bytes :=
  cfg.(dataPath) ++ slash :: cfg.(name) ++ bytes_of_string ".diskqueue."
    ++ Decimal.fmt_06d fileNum ++ bytes_of_string ".dat".

(** ** Metadata *)
Definition newline : byte := byte_of_Z 10.
Definition comma : byte := byte_of_Z 44.

(** [Fprintf(f, "%d\n%d,%d\n%d,%d\n", depth, readFileNum, readPos,
    writeFileNum, writePos)] *)
Definition meta_text (depth rf rp wf wp : Z) : bytes :=
  Decimal.fmt_d depth ++ newline ::
  Decimal.fmt_d rf ++ comma :: Decimal.fmt_d rp ++ newline ::
  Decimal.fmt_d wf ++ comma :: Decimal.fmt_d wp ++ [newline].

Definition is_blank (b : byte) : bool :=
  let z := Z_of_byte b in (z =? 32) || (z =? 9) || (z =? 11) || (z =? 12) || (z =? 13).
Fixpoint skip_blanks (bs : bytes) : bytes :=
  match bs with
  | b :: bs' => if is_blank b then skip_blanks bs' else bs
  | [] => []
  end.

(** The directives of the format: a number after optional blanks, a comma, a
    newline (or the end of the input) after optional blanks. *)
Definition scan_num (bs : bytes) : option (Z * bytes) := Decimal.scan_d (skip_blanks bs).
Definition scan_comma (bs : bytes) : option bytes :=
  match bs with b :: bs => if bool_decide (b = comma) then Some bs else None | [] => None end.
Definition scan_newline (bs : bytes) : option bytes :=
  match skip_blanks bs with
  | b :: bs => if bool_decide (b = newline) then Some bs else None
  | [] => Some []
  end.

(** [Fscanf] stores each number as it is scanned: on a mismatch the fields
    before it keep their new values. [depth] is a local variable, stored only
    on success. *)
Definition scan_meta (bs : bytes) (s : diskQueue) : diskQueue * option ioerr :=
  match scan_num bs with
  | None => (s, Some EScan)
  | Some (depth, bs) =>
  match scan_newline bs ≫= scan_num with
  | None => (s, Some EScan)
  | Some (rf, bs) => let s := set_readFileNum rf s in
  match scan_comma bs ≫= scan_num with
  | None => (s, Some EScan)
  | Some (rp, bs) => let s := set_readPos rp s in
  match scan_newline bs ≫= scan_num with
  | None => (s, Some EScan)
  | Some (wf, bs) => let s := set_writeFileNum wf s in
  match scan_comma bs ≫= scan_num with
  | None => (s, Some EScan)
  | Some (wp, bs) => let s := set_writePos wp s in
  match scan_newline bs with
  | None => (s, Some EScan)
  | Some _ =>
    let s := set_depth depth s in
    let s := set_nextReadFileNum s.(readFileNum) s in
    (set_nextReadPos s.(readPos) s, None)
  end end end end end end.

Definition retrieveMetaData : M (option ioerr) :=
  f ← os_Open metaDataFileName;
  match f with
  | Err e => mret (Some e)
  | Ok h =>
    e ← syscall;
    match e with
    | Some _ => mret (Some EFault)
    | None =>
      s ← get;
      let '(s, err) := scan_meta (default [] (s.(files) !! h.(h_name))) s in
      _ ← upd (λ _, s); mret err
    end
  end.

Definition persistMetaData : M (option ioerr) :=
  s ← get;
  let tmpFileName := metaDataFileName ++ bytes_of_string "." ++ Decimal.fmt_d (rand_Int s.(tick))
                       ++ bytes_of_string ".tmp" in
  f ← os_OpenCreate tmpFileName;
  match f with
  | Err e => mret (Some e)
  | Ok h =>
    x ← f_Write h (meta_text s.(depth) s.(readFileNum) s.(readPos) s.(writeFileNum) s.(writePos));
    match x with
    | Err e => mret (Some e)
    | Ok _ =>
      _ ← f_Sync; (* its error is ignored *)
      os_Rename tmpFileName metaDataFileName
    end
  end.

Definition sync : M (option ioerr) :=
  s ← get;
  err ← (match s.(writeFile) with Some _ => f_Sync | None => mret None end);
  match err with
  | Some e => _ ← upd (set_writeFile None); mret (Some e)
  | None =>
    err ← persistMetaData;
    match err with
    | Some e => mret (Some e)
    | None => _ ← upd (set_needSync false); mret None
    end
  end.

(** ** Reading and writing one message *)

Definition fail_read (e : ioerr) : M (res ioerr bytes) :=
  _ ← upd (set_readFile None); mret (Err e).

(** The part of [readOne] before the buffered reads. *)
Definition open_reader : M (res ioerr reader) :=
  s ← get;
  match s.(readFile) with
  | Some rd => mret (Ok rd)
  | None =>
    f ← os_Open (fileName s.(readFileNum));
    match f with
    | Err e => mret (Err e)
    | Ok h =>
      f ← (if s.(readPos) >? 0 then f_Seek h s.(readPos) else mret (Ok h));
      match f with
      | Err e => mret (Err e)
      | Ok h => mret (Ok (mkReader h []))
      end
    end
  end.

Definition readOne : M (res ioerr bytes) :=
  x ← open_reader;
  match x with
  | Err e => fail_read e
  | Ok rd =>
    x ← ReadFull rd 4;
    match x with
    | Err e => fail_read e
    | Ok (hdr, rd) =>
      let msgSize := i32 (be_decode hdr) in
      if (msgSize <? cfg.(minMsgSize)) || (msgSize >? cfg.(maxMsgSize))
      then fail_read (EInvalidReadSize msgSize)
      else
        x ← ReadFull rd (Z.to_nat msgSize);
        match x with
        | Err e => fail_read e
        | Ok (readBuf, rd) =>
          _ ← upd (set_readFile (Some rd));
          let totalBytes := i32 (4 + msgSize) in
          s ← get;
          _ ← upd (set_nextReadPos (i64 (s.(readPos) + totalBytes)));
          _ ← upd (set_nextReadFileNum s.(readFileNum));
          s ← get;
          _ ← when (s.(nextReadPos) >? cfg.(maxBytesPerFile))
            (_ ← upd (set_readFile None);
             _ ← upd (set_nextReadFileNum (i64 (s.(nextReadFileNum) + 1)));
             upd (set_nextReadPos 0));
          mret (Ok readBuf)
        end
    end
  end.

(** The part of [writeOne] that opens the file. *)
Definition open_writer : M (res ioerr handle) :=
  s ← get;
  match s.(writeFile) with
  | Some h => mret (Ok h)
  | None =>
    f ← os_OpenCreate (fileName s.(writeFileNum));
    match f with
    | Err e => mret (Err e)
    | Ok h =>
      f ← (if s.(writePos) >? 0 then f_Seek h s.(writePos) else mret (Ok h));
      match f with
      | Err e => mret (Err e)
      | Ok h => _ ← upd (set_writeFile (Some h)); mret (Ok h)
      end
    end
  end.

Definition writeOne (data : bytes) : M (option ioerr) :=
  x ← open_writer;
  match x with
  | Err e => mret (Some e)
  | Ok h =>
    let dataLen := i32 (Z.of_nat (length data)) in
    if (dataLen <? cfg.(minMsgSize)) || (dataLen >? cfg.(maxMsgSize))
    then mret (Some (EInvalidWriteSize dataLen cfg.(maxMsgSize)))
    else
      x ← f_Write h (be_encode 4 (u32 dataLen) ++ data);
      match x with
      | Err e => _ ← upd (set_writeFile None); mret (Some e)
      | Ok h =>
        _ ← upd (set_writeFile (Some h));
        let totalBytes := i32 (4 + dataLen) in
        s ← get;
        _ ← upd (set_writePos (i64 (s.(writePos) + totalBytes)));
        _ ← upd (set_depth (i64 (s.(depth) + 1)));
        s ← get;
        if s.(writePos) >? cfg.(maxBytesPerFile) then
          _ ← upd (set_writeFileNum (i64 (s.(writeFileNum) + 1)));
          _ ← upd (set_writePos 0);
          err ← sync;
          _ ← upd (set_writeFile None);
          mret err
        else mret None
      end
  end.

(** ** Moving the positions *)

(** [for i := readFileNum; i <= writeFileNum; i++]; the last failure other
    than a missing file is kept. *)
Fixpoint remove_files (n : nat) (i : Z) (err : option ioerr) : M (option ioerr) :=
  match n with
  | O => mret err
  | S n =>
    innerErr ← os_Remove (fileName i);
    remove_files n (i + 1)
      (match innerErr with
       | Some e => if bool_decide (e = ENotExist) then err else Some e
       | None => err
       end)
  end.

Definition skipToNextRWFile : M (option ioerr) :=
  _ ← upd (set_readFile None);
  _ ← upd (set_writeFile None);
  s ← get;
  err ← remove_files (Z.to_nat (s.(writeFileNum) - s.(readFileNum) + 1)) s.(readFileNum) None;
  s ← get;
  let w := i64 (s.(writeFileNum) + 1) in
  _ ← upd (set_writeFileNum w);
  _ ← upd (set_writePos 0);
  _ ← upd (set_readFileNum w);
  _ ← upd (set_readPos 0);
  _ ← upd (set_nextReadFileNum w);
  _ ← upd (set_nextReadPos 0);
  _ ← upd (set_depth 0);
  mret err.

Definition deleteAllFiles : M (option ioerr) :=
  err ← skipToNextRWFile;
  innerErr ← os_Remove metaDataFileName;
  match innerErr with
  | Some e => if bool_decide (e = ENotExist) then mret err else mret (Some e)
  | None => mret err
  end.

Definition checkTailCorruption (depth : Z) : M () :=
  s ← get;
  if (s.(readFileNum) <? s.(writeFileNum)) || (s.(readPos) <? s.(writePos)) then mret () else
  _ ← when (negb (depth =? 0)) (_ ← upd (set_depth 0); upd (set_needSync true));
  when (negb (s.(readFileNum) =? s.(writeFileNum)) || negb (s.(readPos) =? s.(writePos)))
    (_ ← skipToNextRWFile; upd (set_needSync true)).

Definition moveForward : M () :=
  s ← get;
  let oldReadFileNum := s.(readFileNum) in
  _ ← upd (set_readFileNum s.(nextReadFileNum));
  _ ← upd (set_readPos s.(nextReadPos));
  let depth := i64 (s.(depth) - 1) in
  _ ← upd (set_depth depth);
  _ ← when (negb (oldReadFileNum =? s.(nextReadFileNum)))
    (_ ← upd (set_needSync true);
     _ ← os_Remove (fileName oldReadFileNum);
     mret ());
  checkTailCorruption depth.

Definition handleReadError : M () :=
  s ← get;
  _ ← when (s.(readFileNum) =? s.(writeFileNum))
    (_ ← upd (set_writeFile None);
     _ ← upd (set_writeFileNum (i64 (s.(writeFileNum) + 1)));
     upd (set_writePos 0));
  let badFn := fileName s.(readFileNum) in
  _ ← os_Rename badFn (badFn ++ bytes_of_string ".bad");
  let n := i64 (s.(readFileNum) + 1) in
  _ ← upd (set_readFileNum n);
  _ ← upd (set_readPos 0);
  _ ← upd (set_nextReadFileNum n);
  _ ← upd (set_nextReadPos 0);
  upd (set_needSync true).

(** ** [ioLoop] *)

(** One turn of the loop up to its [select]; [false] is the [continue] after
    a read error. *)
Definition loop_turn : M bool :=
  s ← get;
  _ ← when (s.(count) =? cfg.(syncEvery)) (upd (set_needSync true));
  s ← get;
  _ ← when s.(needSync) (_ ← sync; upd (set_count 0));
  s ← get;
  if (s.(readFileNum) <? s.(writeFileNum)) || (s.(readPos) <? s.(writePos)) then
    if s.(nextReadPos) =? s.(readPos) then
      x ← readOne;
      match x with
      | Err _ => _ ← handleReadError; mret false
      | Ok d => _ ← upd (set_dataRead d); _ ← upd (set_r true); mret true
      end
    else _ ← upd (set_r true); mret true
  else _ ← upd (set_r false); mret true.

(** The loop up to the next [select]; [None] when [fuel] turns do not get
    there. *)
Fixpoint to_select (fuel : nat) (s : diskQueue) : option diskQueue :=
  match fuel with
  | O => None
  | S fuel => let '(b, s) := loop_turn s in if b : bool then Some s else to_select fuel s
  end.

(** The communications the [select] waits for. *)
Inductive event :=
| Read                  (* a consumer receives from [ReadChan()] *)
| EmptyReq              (* [emptyChan] *)
| Write (data : bytes)  (* [writeChan] *)
| Tick.                 (* [syncTicker.C] *)

Inductive response :=
| Received (data : bytes)
| Responded (err : option ioerr)
| NoResponse.

(** A case of the [select]; [None] when it is not ready: the read channel is
    nil. *)
Definition select (e : event) (s : diskQueue) : option (response * diskQueue) :=
  match e with
  | Read =>
    if s.(r) then
      let s := set_count (i64 (s.(count) + 1)) s in
      let '(_, s') := moveForward s in
      Some (Received s.(dataRead), s')
    else None
  | EmptyReq =>
    let '(err, s) := deleteAllFiles s in
    Some (Responded err, set_count 0 s)
  | Write data =>
    let s := set_count (i64 (s.(count) + 1)) s in
    let '(err, s) := writeOne data s in
    Some (Responded err, s)
  | Tick =>
    if s.(count) =? 0 then Some (NoResponse, s)
    else Some (NoResponse, set_needSync true s)
  end.

(** The turns a loop that starts with [readFileNum <= writeFileNum] needs. *)
Definition turns (s : diskQueue) : nat := (Z.to_nat (s.(writeFileNum) - s.(readFileNum)) + 3)%nat.

(** One iteration: to the [select], then one communication. *)
Definition step (e : event) (s : diskQueue) : option (response * diskQueue) :=
  s ← to_select (turns s) s; select e s.

(** ** The methods *)

(** The zero value of the struct, over a file system. *)
Definition zero_dq (fs : gmap bytes bytes) (tick : nat) : diskQueue :=
  mkDQ fs tick 0 0 0 0 0 false false 0 0 None None 0 [] false.

Definition New (fs : gmap bytes bytes) (tick : nat) : diskQueue :=
  (retrieveMetaData (zero_dq fs tick)).2.

Definition Depth (s : diskQueue) : Z := s.(depth).

Definition Put (data : bytes) (s : diskQueue) : option (response * diskQueue) :=
  if s.(exitFlag) then Some (Responded (Some EExiting), s) else step (Write data) s.

Definition Empty (s : diskQueue) : option (response * diskQueue) :=
  if s.(exitFlag) then Some (Responded (Some EExiting), s) else step EmptyReq s.

(** [exit]: closing the closed [exitChan] of a second call panics. *)
Definition exit (s : diskQueue) : option diskQueue :=
  if s.(exitFlag) then None else
  s ← to_select (turns s) s;
  Some (set_writeFile None (set_readFile None (set_exitFlag true s))).

Definition Close (s : diskQueue) : option (option ioerr * diskQueue) :=
  s ← exit s; Some (sync s).

Definition Delete (s : diskQueue) : option (option ioerr * diskQueue) :=
  s ← exit s; Some (None, s).

End dq.
End DQ.
