(* ===== verification/DiskQueueProofs.v ===== *)
(** * The disk queue is a FIFO

    Proofs about DiskQueue.v when no system call fails: the representation
    invariant that relates the files and the positions to the list of queued
    messages, that every communication of [ioLoop] preserves it and acts on
    the list as a FIFO queue does, and that closing and reopening the queue
    recovers the list. *)
From stdpp Require Import base gmap list strings.
From Stdlib Require Import ZArith Lia.
From S2P Require Import Prelude.
From S2P Require Import Decimal.
From S2P Require Import DiskQueue.
Set Default Goal Selector "!".
Local Open Scope Z_scope.

Module DQP.
Import DQ.
#[local] Opaque bufsize.

Lemma bind_eq {A B} (m : M A) (f : A → M B) s a s' : m s = (a, s') → (m ≫= f) s = f a s'.
Proof. intros E. unfold mbind, M_bind. by rewrite E. Qed.

(** Runs the steps of the monad that only read or update fields. *)
Ltac run := unfold mbind, M_bind, mret, M_ret, get, upd, when;
  cbn [files tick readPos writePos readFileNum writeFileNum depth exitFlag needSync nextReadPos nextReadFileNum
       readFile writeFile count dataRead r set_files set_tick set_readPos set_writePos set_readFileNum
       set_writeFileNum set_depth set_exitFlag set_needSync set_nextReadPos set_nextReadFileNum set_readFile
       set_writeFile set_count set_dataRead set_r h_name h_off rd_file rd_buf fst snd negb].

Ltac call tac := erewrite bind_eq by tac; cbv beta iota zeta.

(** ** The layout of a file *)

Definition enc (m : bytes) : bytes := be_encode 4 (Z.of_nat (length m)) ++ m.
Definition encs (ms : list bytes) : bytes := mjoin (enc <$> ms).
Definition sz (m : bytes) : Z := 4 + Z.of_nat (length m).
Definition szs (ms : list bytes) : Z := Z.of_nat (length (encs ms)).

Lemma length_enc m : Z.of_nat (length (enc m)) = sz m.
Proof. unfold enc, sz. rewrite length_app, length_be_encode. lia. Qed.
Lemma encs_cons m ms : encs (m :: ms) = enc m ++ encs ms.
Proof. done. Qed.
Lemma encs_app ms ms' : encs (ms ++ ms') = encs ms ++ encs ms'.
Proof. unfold encs. by rewrite fmap_app, join_app. Qed.
Lemma szs_cons m ms : szs (m :: ms) = sz m + szs ms.
Proof. unfold szs. rewrite encs_cons, length_app, <- length_enc. lia. Qed.
Lemma szs_app ms ms' : szs (ms ++ ms') = szs ms + szs ms'.
Proof. unfold szs. rewrite encs_app, length_app. lia. Qed.
Lemma szs_nil : szs [] = 0. Proof. done. Qed.
Lemma szs_nonneg ms : 0 <= szs ms. Proof. unfold szs. lia. Qed.
Lemma sz_pos m : 4 <= sz m. Proof. unfold sz. lia. Qed.

Section proofs.
Context (cfg : config) (fault : nat → option nat) (rand_Int : nat → Z).

(** What the code needs of its configuration: sizes are not negative and do
    not overflow [4 + msgSize] on [int32] nor the positions on [int64]. *)
Record cfg_ok : Prop := {
  cfg_min : 0 <= cfg.(minMsgSize) <= cfg.(maxMsgSize);
  cfg_max : 4 + cfg.(maxMsgSize) < 2 ^ 31;
  cfg_file : 0 <= cfg.(maxBytesPerFile);
  cfg_pos : cfg.(maxBytesPerFile) + 2 ^ 32 < 2 ^ 63;
}.

Hypothesis Hcfg : cfg_ok.
Hypothesis no_fault : ∀ n, fault n = None.

Definition valid (m : bytes) : Prop :=
  cfg.(minMsgSize) <= Z.of_nat (length m) <= cfg.(maxMsgSize).

(** The messages of a file the writer has left: only the last one ends past
    [maxBytesPerFile]. *)
Fixpoint full (p : Z) (ms : list bytes) : Prop :=
  match ms with
  | [] => False
  | [m] => cfg.(maxBytesPerFile) < p + sz m
  | m :: ms => p + sz m <= cfg.(maxBytesPerFile) ∧ full (p + sz m) ms
  end.

Definition F (fs : gmap bytes bytes) (f : Z) : bytes := default [] (fs !! fileName cfg f).

Definition file_has (fs : gmap bytes bytes) (f p : Z) (ms : list bytes) : Prop :=
  ∃ pre, F fs f = pre ++ encs ms ∧ Z.of_nat (length pre) = p.

(** The files from [f] (read up to [p]) to the write file [W] (written up to
    [wp]) hold the messages [segs], a list per file. *)
Fixpoint chain (fs : gmap bytes bytes) (W wp f p : Z) (segs : list (list bytes)) : Prop :=
  match segs with
  | [] => False
  | [ms] => f = W ∧ file_has fs f p ms ∧ wp = p + szs ms ∧ wp <= cfg.(maxBytesPerFile)
  | ms :: segs => f < W ∧ file_has fs f p ms ∧ full p ms ∧ chain fs W wp (f + 1) 0 segs
  end.

(** A buffered reader over the contents [c], at the position [pos]. *)
Record rd_at (fn c : bytes) (pos : nat) (rd : reader) : Prop := {
  rd_name : rd.(rd_file).(h_name) = fn;
  rd_off : rd.(rd_file).(h_off) = Z.of_nat (pos + length rd.(rd_buf));
  rd_in : (pos + length rd.(rd_buf) <= length c)%nat;
  rd_data : drop pos c = rd.(rd_buf) ++ drop (pos + length rd.(rd_buf)) c;
}.

(** ** System calls that succeed *)

Lemma syscall_ok s : syscall fault s = (None, set_tick (S s.(tick)) s).
Proof. unfold syscall. by rewrite no_fault. Qed.

Lemma os_Open_ok s fn c : s.(files) !! fn = Some c →
  os_Open fault fn s = (Ok (mkHandle fn 0), set_tick (S s.(tick)) s).
Proof.
  intros E. unfold os_Open. erewrite bind_eq by apply syscall_ok. run. by rewrite E.
Qed.

Lemma os_OpenCreate_ok s fn :
  os_OpenCreate fault fn s
  = (Ok (mkHandle fn 0),
     set_files (<[fn := default [] (s.(files) !! fn)]> s.(files)) (set_tick (S s.(tick)) s)).
Proof. unfold os_OpenCreate. by erewrite bind_eq by apply syscall_ok. Qed.

Lemma f_Seek_ok s h pos : f_Seek fault h pos s = (Ok (mkHandle h.(h_name) pos), set_tick (S s.(tick)) s).
Proof. unfold f_Seek. by erewrite bind_eq by apply syscall_ok. Qed.

Lemma f_Sync_ok s : f_Sync fault s = (None, set_tick (S s.(tick)) s).
Proof. unfold f_Sync. by erewrite bind_eq by apply syscall_ok. Qed.

Lemma f_Write_ok s h p c : s.(files) !! h.(h_name) = Some c →
  f_Write fault h p s
  = (Ok (mkHandle h.(h_name) (h.(h_off) + Z.of_nat (length p))),
     set_files (<[h.(h_name) := write_at c (Z.to_nat h.(h_off)) p]> s.(files)) (set_tick (S s.(tick)) s)).
Proof.
  intros E. unfold f_Write. erewrite bind_eq by apply syscall_ok. run. by rewrite E.
Qed.

Lemma os_Remove_ok s fn :
  os_Remove fault fn s
  = (match s.(files) !! fn with Some _ => None | None => Some ENotExist end,
     set_files (delete fn s.(files)) (set_tick (S s.(tick)) s)).
Proof.
  unfold os_Remove. erewrite bind_eq by apply syscall_ok. run.
  destruct (files s !! fn) eqn:E; run; [done|]. rewrite delete_id by done. by destruct s.
Qed.

Lemma os_Rename_ok s old new c : s.(files) !! old = Some c →
  os_Rename fault old new s
  = (None, set_files (<[new := c]> (delete old s.(files))) (set_tick (S s.(tick)) s)).
Proof.
  intros E. unfold os_Rename. erewrite bind_eq by apply syscall_ok. run. by rewrite E.
Qed.

(** ** Buffered reading *)

Lemma f_Read_ok s h n c pos :
  s.(files) !! h.(h_name) = Some c → h.(h_off) = Z.of_nat pos → (0 < n)%nat → (pos < length c)%nat →
  f_Read fault h n s
  = (Ok (take n (drop pos c), mkHandle h.(h_name) (Z.of_nat (pos + length (take n (drop pos c))))),
     set_tick (S s.(tick)) s).
Proof.
  intros E Ho Hn Hp. unfold f_Read. erewrite bind_eq by apply syscall_ok. run. rewrite E. cbn [default].
  rewrite Ho, Nat2Z.id. rewrite bool_decide_eq_false_2.
  - cbn. repeat f_equal. lia.
  - intros E'%(f_equal length). rewrite length_take, length_drop in E'. cbn in E'. lia.
Qed.

(** A read yields some bytes of the contents and moves on by as many. *)
Lemma bufio_Read_ok s rd n fn c pos :
  rd_at fn c pos rd → s.(files) !! fn = Some c → (0 < n)%nat → (pos + n <= length c)%nat →
  ∃ k rd' t, bufio_Read fault rd n s = (Ok (take k (drop pos c), rd'), set_tick t s) ∧
    (0 < k <= n)%nat ∧ rd_at fn c (pos + k) rd'.
Proof.
  intros [Hn Ho Hi Hd] E Hn0 Hp. unfold bufio_Read. destruct rd as [[fn' off] buf]. cbn in *. subst fn'.
  destruct buf as [|b buf].
  - cbn in *. rewrite Nat.add_0_r in *. subst off.
    set (m := if bool_decide (bufsize <= n)%nat then n else bufsize).
    assert (Hm : (n <= m)%nat) by (unfold m; case_bool_decide; lia).
    assert (Hr := f_Read_ok s (mkHandle fn (Z.of_nat pos)) m c pos E eq_refl ltac:(lia) ltac:(lia)).
    cbn in Hr.
    assert (Hlen : length (take m (drop pos c)) = Nat.min m (length c - pos)) by (by rewrite length_take, length_drop).
    exists n. unfold m in *. case_bool_decide as Hb.
    + erewrite bind_eq by exact Hr. eexists _, _. split_and!; [done|lia|lia|].
      rewrite Hlen. replace (Nat.min n (length c - pos)) with n by lia.
      split; cbn; rewrite ?Nat.add_0_r; done.
    + erewrite bind_eq by exact Hr.
      exists (mkReader (mkHandle fn (Z.of_nat (pos + length (take bufsize (drop pos c))))) (drop n (take bufsize (drop pos c)))).
      eexists. split_and!; [|lia|lia|].
      { cbn. do 3 f_equal. rewrite take_take. f_equal. lia. }
      split; cbn; rewrite ?length_drop, ?Hlen; try lia; [done|].
      replace (pos + n + (Nat.min bufsize (length c - pos) - n))%nat
        with (pos + Nat.min bufsize (length c - pos))%nat by lia.
      rewrite <- (drop_drop c (Nat.min bufsize (length c - pos)) pos), <- (drop_drop c n pos).
      set (d := drop pos c) in *. assert (length d = (length c - pos)%nat) as Hd' by apply length_drop.
      rewrite <- Hd'. transitivity (drop n (take bufsize d ++ drop bufsize d)); [by rewrite take_drop|].
      rewrite drop_app_le by (rewrite length_take; lia). f_equal.
      destruct (decide (bufsize <= length d)%nat).
      * by replace (Nat.min bufsize (length d)) with bufsize by lia.
      * rewrite !drop_ge by lia. done.
  - set (k := Nat.min n (length (b :: buf))).
    assert (Htake : take n (b :: buf) = take k (drop pos c)).
    { rewrite Hd. rewrite take_app_le by (unfold k; lia). unfold k.
      destruct (decide (n <= length (b :: buf))%nat).
      - f_equal. lia.
      - rewrite !take_ge by lia. done. }
    assert (Hk : (0 < k <= n)%nat) by (unfold k; cbn; lia).
    exists k, (mkReader (mkHandle fn off) (drop n (b :: buf))), s.(tick). split_and!; [|lia|lia|].
    + rewrite Htake. by destruct s.
    + assert (Hlk : (k + length (drop n (b :: buf)) = length (b :: buf))%nat) by (rewrite length_drop; unfold k; lia).
      split; cbn [rd_file rd_buf h_name h_off]; [done|lia|lia|].
      rewrite <- (drop_drop c k pos), Hd. replace (pos + k + length (drop n (b :: buf)))%nat
        with (pos + length (b :: buf))%nat by lia.
      rewrite drop_app_le by (unfold k; lia). f_equal. unfold k.
      destruct (decide (n <= length (b :: buf))%nat).
      * f_equal. lia.
      * rewrite !drop_ge by lia. done.
Qed.

Lemma ReadFull_loop_ok fuel s rd n fn c pos acc :
  rd_at fn c pos rd → s.(files) !! fn = Some c → (n <= fuel)%nat → (pos + n <= length c)%nat →
  ∃ rd' t, ReadFull_loop fault fuel rd n acc s = (Ok (acc ++ take n (drop pos c), rd'), set_tick t s) ∧
    rd_at fn c (pos + n) rd'.
Proof.
  revert s rd n pos acc. induction fuel as [|fuel IH]; intros s rd n pos acc Hrd E Hf Hp.
  - assert (n = 0)%nat as -> by lia. exists rd, s.(tick). cbn. rewrite app_nil_r, Nat.add_0_r.
    split; [by destruct s|done].
  - destruct n as [|n].
    { exists rd, s.(tick). cbn. rewrite app_nil_r, Nat.add_0_r. split; [by destruct s|done]. }
    cbn [ReadFull_loop].
    destruct (bufio_Read_ok s rd (S n) fn c pos) as (k & rd' & t & Er & Hk & Hrd'); [done|done|lia|done|].
    erewrite bind_eq by exact Er. cbn [fst snd].
    assert (Hl : length (take k (drop pos c)) = k) by (rewrite length_take, length_drop; lia).
    destruct (IH (set_tick t s) rd' (S n - length (take k (drop pos c)))%nat (pos + k)%nat (acc ++ take k (drop pos c)))
      as (rd'' & t' & E' & Hrd''); [done|done|lia|lia|].
    exists rd'', t'. split.
    + rewrite E'. rewrite Hl. rewrite <- app_assoc. do 3 f_equal.
      rewrite <- (drop_drop c k pos). rewrite <- (take_drop k (drop pos c)) at 3.
      rewrite take_app_ge by (rewrite Hl; lia). by rewrite Hl.
    + replace (pos + S n)%nat with (pos + k + (S n - length (take k (drop pos c))))%nat by lia. done.
Qed.

Lemma ReadFull_ok s rd n fn c pos :
  rd_at fn c pos rd → s.(files) !! fn = Some c → (pos + n <= length c)%nat →
  ∃ rd' t, ReadFull fault rd n s = (Ok (take n (drop pos c), rd'), set_tick t s) ∧ rd_at fn c (pos + n) rd'.
Proof. intros H E Hp. exact (ReadFull_loop_ok n s rd n fn c pos [] H E (le_n n) Hp). Qed.

Lemma rd_at_app fn c d pos rd : rd_at fn c pos rd → rd_at fn (c ++ d) pos rd.
Proof.
  intros [Hn Ho Hi Hd]. split; [done|done|rewrite length_app; lia|].
  rewrite !drop_app_le by lia. rewrite Hd. by rewrite <- app_assoc.
Qed.

Lemma rd_at_new fn c pos : (pos <= length c)%nat → rd_at fn c pos (mkReader (mkHandle fn (Z.of_nat pos)) []).
Proof. intros. split; cbn; rewrite ?Nat.add_0_r; done. Qed.

(** ** File names *)

Lemma fileName_inj f g : 0 <= f → 0 <= g → fileName cfg f = fileName cfg g → f = g.
Proof.
  intros Hf Hg E. unfold fileName in E. apply app_inv_head, (f_equal tail) in E. cbn [tail] in E.
  do 2 apply app_inv_head in E. apply app_inv_tail in E. by apply Decimal.fmt_06d_inj.
Qed.

Lemma meta_not_data f : 0 <= f → metaDataFileName cfg ≠ fileName cfg f.
Proof.
  intros Hf E. unfold fileName, metaDataFileName in E. apply app_inv_head, (f_equal tail) in E. cbn [tail] in E.
  apply app_inv_head in E.
  destruct (Decimal.fmt_06d_digits f Hf) as [Hd _].
  destruct (Decimal.fmt_06d f) as [|b bs]; [vm_compute in E; done|].
  apply Forall_cons in Hd as [Hb _].
  change (bytes_of_string ".diskqueue.meta.dat")
    with (bytes_of_string ".diskqueue." ++ bytes_of_string "meta.dat") in E.
  apply app_inv_head in E. cbn in E. injection E as <- _. vm_compute in Hb. done.
Qed.

Lemma tmp_not (x y : bytes) : x ++ bytes_of_string ".tmp" ≠ y ++ bytes_of_string ".dat".
Proof. intros E%(f_equal last). rewrite !last_app in E. vm_compute in E. done. Qed.

(** [fs'] holds the same data files. *)
Definition same_data (fs fs' : gmap bytes bytes) : Prop :=
  ∀ f, 0 <= f → fs' !! fileName cfg f = fs !! fileName cfg f.

(** The metadata file holds the positions, perhaps followed by old bytes. *)
Definition meta_is (fs : gmap bytes bytes) (s : diskQueue) : Prop :=
  ∃ junk, fs !! metaDataFileName cfg =
    Some (meta_text s.(depth) s.(readFileNum) s.(readPos) s.(writeFileNum) s.(writePos) ++ junk).

Lemma write_at_0 c p : write_at c 0 p = p ++ drop (length p) c.
Proof. done. Qed.

Lemma sync_ok s :
  ∃ fs t, sync cfg fault rand_Int s = (None, set_needSync false (set_files fs (set_tick t s))) ∧
    same_data s.(files) fs ∧ meta_is fs s.
Proof.
  assert (Hp : ∀ s1, ∃ fs t, persistMetaData cfg fault rand_Int s1 = (None, set_files fs (set_tick t s1)) ∧
    same_data s1.(files) fs ∧ meta_is fs s1).
  { intros s1. unfold persistMetaData. call ltac:(reflexivity).
    set (tmp := metaDataFileName cfg ++ _).
    assert (Htmp : ∀ f, tmp ≠ fileName cfg f).
    { intros f. unfold tmp, fileName. rewrite !app_assoc. intros E.
      rewrite !app_comm_cons, !app_assoc in E. by apply tmp_not in E. }
    call ltac:(apply os_OpenCreate_ok).
    call ltac:(apply f_Write_ok; run; apply lookup_insert_eq).
    call ltac:(apply f_Sync_ok).
    erewrite os_Rename_ok by (run; apply lookup_insert_eq). run.
    eexists _, _. split_and!; [done| |].
    - intros f Hf. rewrite lookup_insert_ne by (by apply meta_not_data).
      rewrite lookup_delete_ne by done. by rewrite !lookup_insert_ne by done.
    - eexists. rewrite lookup_insert_eq. unfold h_off. by rewrite write_at_0. }
  unfold sync. call ltac:(reflexivity). cbn [get fst].
  destruct (writeFile s) as [h|].
  - call ltac:(apply f_Sync_ok).
    destruct (Hp (set_tick (S (tick s)) s)) as (fs & t & E & Hd & Hm).
    call ltac:(exact E). by exists fs, t.
  - call ltac:(reflexivity). destruct (Hp s) as (fs & t & E & Hd & Hm).
    call ltac:(exact E). by exists fs, t.
Qed.

(** ** The representation invariant *)

(** Where reading the message [m] at [(f, p)] leads. *)
Definition next_of (f p : Z) (m : bytes) : Z * Z :=
  if p + sz m >? cfg.(maxBytesPerFile) then (f + 1, 0) else (f, p + sz m).

(** Either nothing has been read ahead, or the first message has. *)
Definition read_ahead (s : diskQueue) (q : list bytes) : Prop :=
  (s.(nextReadFileNum), s.(nextReadPos)) = (s.(readFileNum), s.(readPos)) ∨
  ∃ m q', q = m :: q' ∧ s.(dataRead) = m ∧
    (s.(nextReadFileNum), s.(nextReadPos)) = next_of s.(readFileNum) s.(readPos) m.

(** The open file, if any, is at the position to read next. *)
Definition reader_ok (s : diskQueue) : Prop :=
  match s.(readFile) with
  | None => True
  | Some rd => s.(nextReadFileNum) = s.(readFileNum) ∧
      ∃ c, s.(files) !! fileName cfg s.(readFileNum) = Some c ∧
        rd_at (fileName cfg s.(readFileNum)) c (Z.to_nat s.(nextReadPos)) rd
  end.

Definition writer_ok (s : diskQueue) : Prop :=
  match s.(writeFile) with
  | None => True
  | Some h => h = mkHandle (fileName cfg s.(writeFileNum)) s.(writePos) ∧
      is_Some (s.(files) !! fileName cfg s.(writeFileNum))
  end.

(** The queue holds the messages [q] and there is room for [n] more
    communications before a 64-bit counter overflows. *)
Record inv (n : Z) (s : diskQueue) (q : list bytes) : Prop := {
  inv_nums : 0 <= s.(readFileNum) <= s.(writeFileNum);
  inv_room : s.(writeFileNum) + n < 2 ^ 63;
  inv_pos : 0 <= s.(readPos) <= cfg.(maxBytesPerFile);
  inv_chain : ∃ segs, chain s.(files) s.(writeFileNum) s.(writePos) s.(readFileNum) s.(readPos) segs ∧
    mjoin segs = q;
  inv_valid : Forall valid q;
  inv_depth : s.(depth) = Z.of_nat (length q);
  inv_depth_room : s.(depth) + n < 2 ^ 63;
  inv_beyond : ∀ f, s.(writeFileNum) < f → s.(files) !! fileName cfg f = None;
  inv_ahead : read_ahead s q;
  inv_reader : reader_ok s;
  inv_writer : writer_ok s;
  inv_exit : s.(exitFlag) = false;
}.

Lemma chain_same fs fs' W wp f p segs :
  (∀ g, f <= g → F fs' g = F fs g) → chain fs W wp f p segs → chain fs' W wp f p segs.
Proof.
  revert f p. induction segs as [|ms segs IH]; intros f p Hsame; [done|].
  assert (HF : file_has fs f p ms → file_has fs' f p ms).
  { intros (pre & E & Hl). exists pre. split; [|done]. rewrite Hsame by lia. done. }
  destruct segs as [|ms' segs].
  - intros (-> & Hh & ?). split_and!; [done|by apply HF|tauto..].
  - intros (Hlt & Hh & Hfull & Hch). split_and!; [done|by apply HF|done|]. apply IH; [|done].
    intros g Hg. apply Hsame. lia.
Qed.

Lemma same_data_F fs fs' f g : same_data fs fs' → 0 <= f → f <= g → F fs' g = F fs g.
Proof. intros Hs Hf Hg. unfold F. rewrite Hs by lia. done. Qed.

(** Changes that do not touch what the invariant speaks of. *)
Lemma inv_world n s q fs t c b rr :
  inv n s q → same_data s.(files) fs →
  inv n (set_r rr (set_count c (set_needSync b (set_files fs (set_tick t s))))) q.
Proof.
  intros [? ? ? (segs & Hch & ?) ? ? ? Hbey Hah Hrd Hwr ?] Hsame. split; try done.
  - exists segs. split; [|done]. eapply chain_same; [|done].
    intros g Hg. eapply same_data_F; [exact Hsame| |exact Hg]. cbn. lia.
  - intros f Hf. cbn. rewrite Hsame; [by apply Hbey|]. cbn in Hf. lia.
  - unfold reader_ok in *. cbn. destruct (readFile s); [|done].
    destruct Hrd as (? & c' & ? & ?). split; [done|]. exists c'. rewrite Hsame by lia. done.
  - unfold writer_ok in *. cbn. destruct (writeFile s); [|done]. rewrite Hsame by lia. done.
Qed.

Lemma inv_flags n s q b c rr :
  inv n s q → inv n (set_r rr (set_count c (set_needSync b s))) q.
Proof. intros H. by apply (inv_world n s q s.(files) s.(tick) c b rr). Qed.

Lemma inv_weaken n n' s q : n' <= n → inv n s q → inv n' s q.
Proof. intros Hle [? ? ? ? ? ? ? ? ? ? ? ?]. split; try assumption; clear -Hle inv_room0 inv_depth_room0; lia. Qed.

(** ** Reading *)

Lemma full_ne p ms : full p ms → ms ≠ [].
Proof. by destruct ms. Qed.

Lemma chain_head fs W wp f p segs m q :
  chain fs W wp f p segs → mjoin segs = m :: q →
  ∃ ms segs', segs = (m :: ms) :: segs' ∧ q = ms ++ mjoin segs' ∧ file_has fs f p (m :: ms).
Proof.
  destruct segs as [|ms segs]; [done|]. destruct segs as [|ms' segs].
  - intros (-> & Hh & _) E. cbn in E. rewrite app_nil_r in E. subst ms.
    exists q, []. cbn. by rewrite app_nil_r.
  - intros (_ & Hh & Hf & _) E. destruct ms as [|m0 ms]; [done|].
    cbn [mjoin list_join] in E. injection E as -> <-. by exists ms, (ms' :: segs).
Qed.

Lemma chain_readable fs W wp f p segs :
  chain fs W wp f p segs → ((f <? W) || (p <? wp)) = negb (bool_decide (mjoin segs = [])).
Proof.
  destruct segs as [|ms segs]; [done|]. destruct segs as [|ms' segs].
  - intros (-> & _ & -> & _). rewrite Z.ltb_irrefl. cbn. rewrite app_nil_r.
    destruct ms as [|m ms]; cbn.
    + rewrite szs_nil. apply Z.ltb_ge. lia.
    + apply Z.ltb_lt. rewrite szs_cons. pose proof (szs_nonneg ms). pose proof (sz_pos m). lia.
  - intros (Hlt & _ & Hf%full_ne & _). rewrite (proj2 (Z.ltb_lt _ _) Hlt). cbn [orb].
    rewrite bool_decide_eq_false_2; [done|]. destruct ms; [done|]. cbn. done.
Qed.

Lemma take_drop_enc (pre m rest : bytes) (pos : nat) :
  length pre = pos →
  take 4 (drop pos (pre ++ enc m ++ rest)) = be_encode 4 (Z.of_nat (length m)) ∧
  take (length m) (drop (pos + 4) (pre ++ enc m ++ rest)) = m.
Proof.
  intros <-. rewrite drop_app_length. unfold enc. rewrite <- app_assoc. split.
  - by rewrite take_app_length' by (by rewrite length_be_encode).
  - rewrite <- drop_drop, drop_app_length.
    rewrite drop_app_length' by (by rewrite length_be_encode). by rewrite take_app_length.
Qed.

Lemma open_reader_ok s c :
  s.(nextReadPos) = s.(readPos) → reader_ok s → 0 <= s.(readPos) →
  s.(files) !! fileName cfg s.(readFileNum) = Some c → s.(readPos) <= Z.of_nat (length c) →
  ∃ rd t, open_reader cfg fault s = (Ok rd, set_tick t s) ∧
    rd_at (fileName cfg s.(readFileNum)) c (Z.to_nat s.(readPos)) rd.
Proof.
  intros En Hrd H0 Ec Hl. unfold open_reader. call ltac:(reflexivity). unfold reader_ok in Hrd.
  cbn [get fst] in *. destruct (readFile s) as [rd|].
  - destruct Hrd as (_ & c' & Ec' & Hrd). rewrite Ec in Ec'. injection Ec' as <-. rewrite En in Hrd.
    exists rd, s.(tick). split; [by destruct s|done].
  - call ltac:(exact (os_Open_ok _ _ _ Ec)).
    destruct (readPos s >? 0) eqn:E.
    + call ltac:(apply f_Seek_ok). run. eexists _, _. split; [done|].
      rewrite <- (Z2Nat.id (readPos s)) at 2 by lia. apply rd_at_new. lia.
    + call ltac:(reflexivity). run. eexists _, _. split; [done|].
      assert (readPos s = 0) as -> by lia. apply rd_at_new. lia.
Qed.

Lemma readOne_ok n s m q :
  inv n s (m :: q) → s.(nextReadPos) = s.(readPos) → 0 < n →
  ∃ rf t, readOne cfg fault s =
      (Ok m, set_nextReadFileNum (next_of s.(readFileNum) s.(readPos) m).1
             (set_nextReadPos (next_of s.(readFileNum) s.(readPos) m).2
             (set_readFile rf (set_tick t s)))) ∧
    match rf with
    | None => True
    | Some rd => (next_of s.(readFileNum) s.(readPos) m).1 = s.(readFileNum) ∧
        ∃ c, s.(files) !! fileName cfg s.(readFileNum) = Some c ∧
          rd_at (fileName cfg s.(readFileNum)) c (Z.to_nat (next_of s.(readFileNum) s.(readPos) m).2) rd
    end.
Proof.
  intros [Hn Hroom Hpos (segs & Hch & Hq) Hval _ _ _ _ Hrd _ _] En Hn0.
  destruct (chain_head _ _ _ _ _ _ _ _ Hch Hq) as (ms & segs' & -> & _ & (pre & EF & Hpre)).
  apply Forall_cons in Hval as [Hv _]. unfold valid in Hv.
  destruct (files s !! fileName cfg (readFileNum s)) as [c|] eqn:Ec.
  2: { unfold F in EF. rewrite Ec in EF. cbn [default] in EF. apply (f_equal length) in EF.
       rewrite encs_cons, !length_app in EF. pose proof (length_enc m). pose proof (sz_pos m). cbn in EF. lia. }
  unfold F in EF. rewrite Ec in EF. cbn [default id] in EF. rewrite encs_cons in EF.
  set (pos := Z.to_nat (readPos s)). assert (Hlp : length pre = pos) by lia.
  destruct (take_drop_enc pre m (encs ms) pos Hlp) as [H4 Hm]. rewrite <- EF in H4, Hm.
  assert (Hlen : (pos + 4 + length m <= length c)%nat).
  { rewrite EF, !length_app. pose proof (length_enc m). unfold sz in *. lia. }
  destruct (open_reader_ok s c) as (rd & t & E & Hrd0); [done|done|lia|done|lia|].
  unfold readOne. call ltac:(exact E).
  destruct (ReadFull_ok (set_tick t s) rd 4 _ _ _ Hrd0 Ec) as (rd1 & t1 & E1 & Hrd1); [lia|].
  call ltac:(exact E1). fold pos in H4 |- *. rewrite H4.
  pose proof Hcfg as [Hmin Hmax Hfile Hp63].
  assert (Hdec : i32 (be_decode (be_encode 4 (Z.of_nat (length m)))) = Z.of_nat (length m)).
  { rewrite be_decode_encode, Z.mod_small by (change (8 * Z.of_nat 4) with 32; pow2; lia).
    apply i32_id. pow2. lia. }
  rewrite Hdec. replace ((Z.of_nat (length m) <? minMsgSize cfg) || (Z.of_nat (length m) >? maxMsgSize cfg)) with false
    by (symmetry; apply orb_false_iff; lia).
  rewrite Nat2Z.id.
  destruct (ReadFull_ok (set_tick t1 (set_tick t s)) rd1 (length m) _ _ _ Hrd1 Ec) as (rd2 & t2 & E2 & Hrd2); [lia|].
  call ltac:(exact E2). fold pos in Hrd2 |- *. rewrite Hm. run.
  replace (i32 (4 + Z.of_nat (length m))) with (sz m) by (unfold sz; symmetry; apply i32_id; pow2; lia).
  rewrite (i64_id (readPos s + sz m)) by (unfold sz; pow2; lia).
  unfold next_of. destruct (readPos s + sz m >? maxBytesPerFile cfg) eqn:Egt; cbn [fst snd].
  - rewrite (i64_id (readFileNum s + 1)) by (pow2; lia). by exists None, t2.
  - exists (Some rd2), t2. split; [done|]. split; [done|]. exists c. split; [done|].
    replace (Z.to_nat (readPos s + sz m)) with (pos + 4 + length m)%nat by (unfold sz; lia). done.
Qed.

(** The loop reaches its [select] in one turn: the read channel is open
    exactly when the queue is not empty, and then the first message has been
    read. *)
Lemma loop_turn_ok n s q :
  inv n s q → 0 < n →
  ∃ s', loop_turn cfg fault rand_Int s = (true, s') ∧ inv n s' q ∧
    s'.(r) = negb (bool_decide (q = [])) ∧ (∀ m q', q = m :: q' → s'.(dataRead) = m ∧
      (s'.(nextReadFileNum), s'.(nextReadPos)) = next_of s'.(readFileNum) s'.(readPos) m) ∧
    s'.(writeFileNum) = s.(writeFileNum).
Proof.
  intros Hinv Hn0.
  assert (∃ s1, inv n s1 q ∧ s1.(writeFileNum) = s.(writeFileNum) ∧ loop_turn cfg fault rand_Int s =
    (s ← get;
     if (s.(readFileNum) <? s.(writeFileNum)) || (s.(readPos) <? s.(writePos)) then
       if s.(nextReadPos) =? s.(readPos) then
         x ← readOne cfg fault;
         match x with
         | Err _ => _ ← handleReadError cfg fault; mret false
         | Ok d => _ ← upd (set_dataRead d); _ ← upd (set_r true); mret true
         end
       else _ ← upd (set_r true); mret true
     else _ ← upd (set_r false); mret true) s1) as (s1 & Hinv1 & EW & ->).
  { unfold loop_turn. call ltac:(reflexivity). cbn [get fst].
    set (b := count s =? syncEvery cfg). set (b' := b || needSync s).
    assert (E1 : when b (upd (set_needSync true)) s = ((), set_needSync b' s)).
    { unfold b'. destruct b; [done|]. by destruct s. }
    call ltac:(exact E1).
    call ltac:(reflexivity). run. destruct b'.
    - destruct (sync_ok (set_needSync true s)) as (fs & t & E & Hd & _). run. rewrite E. run.
      exists (set_count 0 (set_needSync false (set_files fs (set_tick t s)))).
      split_and!; [by apply (inv_world n s q fs t 0 false (r s))|done|done].
    - exists (set_needSync false s). split_and!; [|done|done].
      by apply (inv_flags n s q false (count s) (r s)). }
  clear Hinv. revert s1 EW Hinv1. intros s1 EW Hinv. call ltac:(reflexivity). cbn [get fst].
  pose proof Hinv as [Hnum Hroom Hpos (segs & Hch & Hq) Hval Hdep Hdr Hbey Hah Hrd Hwr Hex].
  rewrite (chain_readable _ _ _ _ _ _ Hch), Hq.
  destruct q as [|m q]; cbn [negb].
  { rewrite bool_decide_eq_true_2 by done. run. eexists. split_and!; [done| |done|done|done].
    by apply (inv_flags n s1 [] (needSync s1) (count s1) false). }
  rewrite bool_decide_eq_false_2 by done. cbn [negb].
  destruct (nextReadPos s1 =? readPos s1) eqn:E; bool_to_prop.
  - destruct (readOne_ok n s1 m q Hinv E Hn0) as (rf & t & E1 & Hrf). call ltac:(exact E1). run.
    eexists. split_and!; [done| |done| |done].
    + split; try done.
      * by exists segs.
      * right. exists m, q. split_and!; [done|done|]. run. by rewrite <- surjective_pairing.
    + intros m' q' [= <- <-]. run. by rewrite <- surjective_pairing.
  - run. eexists. split_and!; [done| |done| |done].
    + by apply (inv_flags n s1 (m :: q) (needSync s1) (count s1) true).
    + intros m' q' [= <- <-]. run. destruct Hah as [[= _ Hah]|(m' & q' & [= <- <-] & ? & ?)]; [done|done].
Qed.

(** ** Consuming a message *)

Lemma chain_nil fs W wp f p segs :
  chain fs W wp f p segs → mjoin segs = [] → f = W ∧ p = wp.
Proof.
  destruct segs as [|ms segs]; [done|]. destruct segs as [|ms' segs].
  - intros (-> & _ & -> & _) E. cbn in E. rewrite app_nil_r in E. subst. rewrite szs_nil. lia.
  - intros (_ & _ & Hf%full_ne & _) E. by destruct ms.
Qed.

(** Past its first message, the chain starts at the next position. *)
Lemma chain_next fs W wp f p segs m q :
  chain fs W wp f p segs → mjoin segs = m :: q →
  ∃ segs', chain fs W wp (next_of f p m).1 (next_of f p m).2 segs' ∧ mjoin segs' = q ∧
    (next_of f p m).1 <= W.
Proof.
  intros Hch Hq. destruct (chain_head _ _ _ _ _ _ _ _ Hch Hq) as (ms & segs' & -> & -> & (pre & EF & Hpre)).
  assert (Hadv : file_has fs f (p + sz m) ms).
  { exists (pre ++ enc m). rewrite EF, encs_cons, <- app_assoc. split; [done|].
    rewrite length_app, <- length_enc. lia. }
  pose proof (sz_pos m) as Hsz. pose proof (szs_nonneg ms) as Hszs.
  unfold next_of. destruct segs' as [|ms' segs'].
  - destruct Hch as (-> & _ & -> & Hle). rewrite szs_cons in *.
    destruct (p + sz m >? maxBytesPerFile cfg) eqn:E; [lia|]. cbn [fst snd].
    exists [ms]. split_and!; [|done|lia]. split_and!; [done|done|lia|lia].
  - destruct Hch as (Hlt & _ & Hfull & Hch).
    destruct (p + sz m >? maxBytesPerFile cfg) eqn:E; cbn [fst snd].
    + destruct ms as [|m' ms]; [|destruct Hfull; lia]. exists (ms' :: segs'). split_and!; [done|done|lia].
    + exists (ms :: ms' :: segs'). split_and!; [|done|lia].
      split_and!; [done|done| |done]. destruct ms as [|m' ms]; cbn in Hfull; [lia|]. apply Hfull.
Qed.

Lemma next_of_ge f p m : f <= (next_of f p m).1.
Proof. unfold next_of. destruct (_ >? _); cbn; lia. Qed.
Lemma next_of_pos f p m : 0 <= p → 0 <= (next_of f p m).2 <= cfg.(maxBytesPerFile).
Proof.
  intros Hp. pose proof (sz_pos m). pose proof (cfg_file Hcfg).
  unfold next_of. destruct (_ >? _) eqn:E; cbn; lia.
Qed.

(** At the tail there is nothing to repair. *)
Lemma checkTail_ok n s q : inv n s q → checkTailCorruption cfg fault s.(depth) s = ((), s).
Proof.
  intros [Hnum _ _ (segs & Hch & Hq) _ Hdep _ _ _ _ _ _]. unfold checkTailCorruption. run.
  rewrite (chain_readable _ _ _ _ _ _ Hch). destruct (mjoin segs) as [|m q'] eqn:E.
  - destruct (chain_nil _ _ _ _ _ _ Hch E) as [-> ->]. subst q. cbn [length] in Hdep.
    rewrite bool_decide_eq_true_2 by done. rewrite Hdep, !Z.eqb_refl. done.
  - by rewrite bool_decide_eq_false_2 by done.
Qed.

Lemma moveForward_ok n s m q :
  inv n s (m :: q) → 0 < n →
  (s.(nextReadFileNum), s.(nextReadPos)) = next_of s.(readFileNum) s.(readPos) m →
  ∃ s', moveForward cfg fault s = ((), s') ∧ inv n s' q.
Proof.
  intros [Hnum Hroom Hpos (segs & Hch & Hq) Hval Hdep Hdr Hbey Hah Hrd Hwr Hex] Hn0 Hnext.
  destruct (chain_next _ _ _ _ _ _ _ _ Hch Hq) as (segs' & Hch' & Hq' & HW).
  pose proof (next_of_ge (readFileNum s) (readPos s) m) as Hge.
  pose proof (next_of_pos (readFileNum s) (readPos s) m ltac:(lia)) as Hp'.
  rewrite <- Hnext in *. cbn [fst snd] in *. clear Hnext Hch.
  assert (Hd : i64 (depth s - 1) = Z.of_nat (length q)) by (rewrite Hdep in *; cbn [length] in *; rewrite i64_id by (pow2; lia); lia).
  assert (∃ fs b t, (_ ← when (negb (readFileNum s =? nextReadFileNum s))
      (_ ← upd (set_needSync true); _ ← os_Remove fault (fileName cfg (readFileNum s)); mret ());
      checkTailCorruption cfg fault (Z.of_nat (length q)))
        (set_depth (Z.of_nat (length q)) (set_readPos (nextReadPos s) (set_readFileNum (nextReadFileNum s) s))) =
      checkTailCorruption cfg fault (Z.of_nat (length q))
        (set_depth (Z.of_nat (length q)) (set_readPos (nextReadPos s) (set_readFileNum (nextReadFileNum s)
           (set_needSync b (set_files fs (set_tick t s)))))) ∧
      ∀ f, (readFileNum s = nextReadFileNum s ∨ readFileNum s < f) → 0 <= f →
        fs !! fileName cfg f = files s !! fileName cfg f)
    as (fs & b & t & E & Hfs).
  { destruct (readFileNum s =? nextReadFileNum s) eqn:E; bool_to_prop.
    - exists s.(files), s.(needSync), s.(tick). split; [|done]. run. by destruct s.
    - eexists (delete (fileName cfg (readFileNum s)) s.(files)), true, (S s.(tick)). split.
      + run. rewrite os_Remove_ok. run. done.
      + intros f [Hf|Hf] Hf0; [done|]. rewrite lookup_delete_ne; [done|].
        intros Ef. apply fileName_inj in Ef; lia. }
  set (s2 := set_depth (Z.of_nat (length q)) (set_readPos (nextReadPos s) (set_readFileNum (nextReadFileNum s)
           (set_needSync b (set_files fs (set_tick t s)))))) in *.
  assert (Hinv : inv n s2 q).
  { unfold s2. apply Forall_cons in Hval as [_ Hval]. split; cbn; try done; try lia.
    - exists segs'. split; [|done]. eapply chain_same; [|done]. intros g Hg. unfold F. rewrite Hfs by lia. done.
    - rewrite Hdep in Hdr. cbn [length] in Hdr. lia.
    - intros f Hf. rewrite Hfs by lia. by apply Hbey.
    - by left.
    - unfold reader_ok in *. cbn. destruct (readFile s); [|done].
      destruct Hrd as (Er & c & Hc & Hrd). rewrite Er. split; [done|]. exists c.
      rewrite Hfs by lia. done.
    - unfold writer_ok in *. cbn. destruct (writeFile s); [|done].
      destruct (decide (readFileNum s = nextReadFileNum s)); rewrite Hfs by lia; done. }
  exists s2. split; [|done]. unfold moveForward. call ltac:(reflexivity). cbn [get fst].
  call ltac:(reflexivity). call ltac:(reflexivity). rewrite Hd. call ltac:(reflexivity).
  etransitivity; [exact E|]. exact (checkTail_ok n s2 q Hinv).
Qed.

(** ** Emptying *)

Lemma remove_files_ok k i err s :
  ∃ fs t, remove_files cfg fault k i err s = (err, set_files fs (set_tick t s)) ∧
    ∀ fn, s.(files) !! fn = None → fs !! fn = None.
Proof.
  revert i err s. induction k as [|k IH]; intros i err s; cbn [remove_files].
  - exists s.(files), s.(tick). split; [by destruct s|done].
  - call ltac:(apply os_Remove_ok).
    set (s1 := set_files _ _).
    replace (match match files s !! fileName cfg i with Some _ => None | None => Some ENotExist end with
             | Some e => if bool_decide (e = ENotExist) then err else Some e | None => err end)
      with err by (destruct (files s !! fileName cfg i); done).
    destruct (IH (i + 1) err s1) as (fs & t & E & Hfs). exists fs, t. split.
    + rewrite E. unfold s1. done.
    + intros fn Hfn. apply Hfs. unfold s1. run. apply lookup_delete_None. by right.
Qed.

Lemma deleteAllFiles_ok n s q :
  inv n s q → 0 < n →
  ∃ s', deleteAllFiles cfg fault s = (None, s') ∧ inv (n - 1) s' [].
Proof.
  intros [Hnum Hroom Hpos (segs & Hch & Hq) Hval Hdep Hdr Hbey Hah Hrd Hwr Hex] Hn0.
  set (s0 := set_writeFile None (set_readFile None s)).
  destruct (remove_files_ok (Z.to_nat (writeFileNum s - readFileNum s + 1)) (readFileNum s) None s0)
    as (fs & t & E & Hfs).
  assert (Hw : i64 (writeFileNum s + 1) = writeFileNum s + 1) by (apply i64_id; pow2; lia).
  set (s1 := set_depth 0 (set_nextReadPos 0 (set_nextReadFileNum (writeFileNum s + 1) (set_readPos 0
     (set_readFileNum (writeFileNum s + 1) (set_writePos 0 (set_writeFileNum (writeFileNum s + 1)
       (set_files fs (set_tick t s0))))))))).
  assert (E1 : skipToNextRWFile cfg fault s = (None, s1)).
  { unfold skipToNextRWFile. do 3 call ltac:(reflexivity). cbn [get fst]. call ltac:(exact E).
    call ltac:(reflexivity). cbn [get fst].
    change (writeFileNum (set_files fs (set_tick t s0))) with (writeFileNum s). rewrite Hw. done. }
  assert (Hinv : ∀ fs' t', (∀ f, 0 <= f → fs' !! fileName cfg f = fs !! fileName cfg f) →
     inv (n - 1) (set_files fs' (set_tick t' s1)) []).
  { intros fs' t' Hsame.
    assert (Hnone : ∀ f, writeFileNum s < f → fs' !! fileName cfg f = None).
    { intros f Hf. rewrite Hsame by lia. apply Hfs. by apply Hbey. }
    pose proof (cfg_file Hcfg). pose proof Hdep.
    split; cbn; try done; try lia.
    - exists [[]]. split; [|done]. split_and!; [done| |done|done].
      exists []. split; [|done]. unfold F. rewrite Hnone by lia. done.
    - intros f Hf. apply Hnone. lia.
    - by left. }
  unfold deleteAllFiles. call ltac:(exact E1). call ltac:(apply os_Remove_ok).
  eexists. split.
  { instantiate (1 := set_files (delete (metaDataFileName cfg) (files s1)) (set_tick (S (tick s1)) s1)).
    destruct (files s1 !! metaDataFileName cfg); done. }
  apply Hinv. intros f Hf. by rewrite lookup_delete_ne by (by apply meta_not_data).
Qed.

(** ** Writing *)

Lemma full_snoc p ms d :
  p + szs ms <= cfg.(maxBytesPerFile) → cfg.(maxBytesPerFile) < p + szs ms + sz d → full p (ms ++ [d]).
Proof.
  revert p. induction ms as [|m ms IH]; intros p; cbn [app]; rewrite ?szs_nil, ?szs_cons.
  - cbn. lia.
  - intros H1 H2. pose proof (szs_nonneg ms). destruct ms as [|m' ms].
    + cbn [app full]. rewrite szs_nil in *. lia.
    + cbn [app full] in *. split; [lia|]. apply IH; lia.
Qed.

Lemma chain_length fs W wp f p segs : chain fs W wp f p segs → f <= W ∧ Z.of_nat (length (F fs W)) = wp.
Proof.
  revert f p. induction segs as [|ms segs IH]; intros f p; [done|]. destruct segs as [|ms' segs].
  - intros (-> & (pre & -> & Hp) & -> & _). rewrite length_app. unfold szs. lia.
  - intros (Hlt & _ & _ & Hch). apply IH in Hch. lia.
Qed.

Lemma chain_bound fs W wp f p segs : chain fs W wp f p segs → wp <= cfg.(maxBytesPerFile).
Proof.
  revert f p. induction segs as [|ms segs IH]; intros f p; [done|]. destruct segs as [|ms' segs].
  - intros (_ & _ & _ & ?). done.
  - intros (_ & _ & _ & Hch). by eapply IH.
Qed.

(** Appending a message to the write file, which may fill it. *)
Lemma chain_snoc fs fs' W wp f p segs d :
  chain fs W wp f p segs → F fs' W = F fs W ++ enc d → (∀ g, f <= g → g ≠ W → F fs' g = F fs g) →
  F fs (W + 1) = [] →
  ∃ segs', mjoin segs' = mjoin segs ++ [d] ∧
    if wp + sz d >? cfg.(maxBytesPerFile)
    then chain fs' (W + 1) 0 f p segs' else chain fs' W (wp + sz d) f p segs'.
Proof.
  intros Hch HW Hne Hnew. pose proof (cfg_file Hcfg) as Hf0.
  revert f p Hch Hne. induction segs as [|ms segs IH]; intros f p; [done|]. destruct segs as [|ms1 segs].
  - intros (-> & (pre & EF & Hp) & -> & Hle) Hne.
    assert (Hh : file_has fs' W p (ms ++ [d])).
    { exists pre. rewrite HW, EF, encs_app, <- app_assoc. split; [|done]. unfold encs at 3. cbn.
      by rewrite app_nil_r. }
    assert (Hszs : szs (ms ++ [d]) = szs ms + sz d) by (rewrite szs_app, szs_cons, szs_nil; lia).
    destruct (p + szs ms + sz d >? maxBytesPerFile cfg) eqn:E.
    + exists [ms ++ [d]; []]. split; [cbn; by rewrite !app_nil_r|]. split_and!; [lia|done| |].
      * apply full_snoc; lia.
      * split_and!; [done| |done|done]. exists []. rewrite Hne by lia. by rewrite Hnew.
    + exists [ms ++ [d]]. split; [cbn; by rewrite !app_nil_r|].
      split_and!; [done|done|lia|lia].
  - intros (Hlt & (pre & EF & Hp) & Hfull & Hch) Hne.
    destruct (IH _ _ Hch) as (segs' & Hj & Hch'); [intros; apply Hne; lia|]. exists (ms :: segs'). split.
    { change (ms ++ mjoin segs' = (ms ++ mjoin (ms1 :: segs)) ++ [d]). rewrite Hj. by rewrite <- app_assoc. }
    assert (Hh : file_has fs' f p ms) by (exists pre; rewrite Hne by lia; done).
    destruct segs' as [|ms'' segs']; [by destruct (_ >? _)|].
    destruct (_ >? _); (split_and!; [lia|done|done|exact Hch']).
Qed.

Lemma inv_chain_F n s q : inv n s q → Z.of_nat (length (F s.(files) s.(writeFileNum))) = s.(writePos).
Proof. intros Hinv. destruct (inv_chain _ _ _ Hinv) as (segs & Hch & _). apply chain_length in Hch. tauto. Qed.

Lemma F_insert fs fn c g : F (<[fileName cfg fn := c]> fs) g = if bool_decide (fileName cfg fn = fileName cfg g) then c else F fs g.
Proof.
  unfold F. case_bool_decide as E; [by rewrite E, lookup_insert_eq|by rewrite lookup_insert_ne].
Qed.

Lemma open_writer_ok n s q :
  inv n s q → ∃ h s', open_writer cfg fault s = (Ok h, s') ∧ inv n s' q ∧ s'.(writeFile) = Some h ∧
    s'.(writeFileNum) = s.(writeFileNum) ∧ s'.(writePos) = s.(writePos) ∧ s'.(count) = s.(count).
Proof.
  intros Hinv. pose proof (inv_chain_F _ _ _ Hinv) as HF. unfold open_writer. call ltac:(reflexivity). cbn [get fst].
  destruct (writeFile s) as [h|] eqn:Ew; [by exists h, s|].
  pose proof Hinv as [Hnum Hroom Hpos (segs & Hch & Hq) Hval Hdep Hdr Hbey Hah Hrd Hwr Hex].
  set (fn := fileName cfg (writeFileNum s)) in *.
  assert (Hgen : ∀ t, let fs := <[fn := default [] (files s !! fn)]> (files s) in
    inv n (set_writeFile (Some (mkHandle fn (writePos s))) (set_files fs (set_tick t s))) q).
  { intros t fs. assert (HFs : ∀ g, F fs g = F (files s) g).
    { intros g. unfold fs, fn. rewrite F_insert. case_bool_decide as E; [|done]. unfold F. by rewrite E. }
    split; try done.
    - exists segs. split; [|done]. eapply chain_same; [|done]. done.
    - intros f Hf. cbn in Hf |- *. unfold fs. rewrite lookup_insert_ne; [by apply Hbey|].
      intros E. apply fileName_inj in E; lia.
    - unfold reader_ok in *. cbn. destruct (readFile s); [|done].
      destruct Hrd as (? & c & Hc & ?). split; [done|]. exists c. split; [|done].
      unfold fs, fn. destruct (decide (fileName cfg (writeFileNum s) = fileName cfg (readFileNum s))) as [E|].
      + rewrite E, lookup_insert_eq, Hc. done.
      + by rewrite lookup_insert_ne by done.
    - unfold writer_ok. cbn. split; [done|]. unfold fs, fn. rewrite lookup_insert_eq. by eexists. }
  call ltac:(apply os_OpenCreate_ok).
  destruct (writePos s >? 0) eqn:E.
  - call ltac:(apply f_Seek_ok). run. eexists _, _. split; [done|]. split; [apply Hgen|done].
  - call ltac:(reflexivity). run. assert (E0 : writePos s = 0) by lia.
    specialize (Hgen (S (tick s))). cbv zeta in Hgen. rewrite E0 in Hgen.
    eexists _, _. split; [done|]. split_and!; [exact Hgen|done..].
Qed.

Definition room_ok (d : bytes) : Prop := Z.of_nat (length d) < 2 ^ 31.

Lemma writeOne_bad n s q d :
  inv n s q → room_ok d → ¬ valid d →
  ∃ s', writeOne cfg fault rand_Int d s
      = (Some (EInvalidWriteSize (Z.of_nat (length d)) cfg.(maxMsgSize)), s') ∧ inv n s' q ∧ s'.(count) = s.(count).
Proof.
  intros Hinv Hr Hv. destruct (open_writer_ok n s q Hinv) as (h & s1 & E & Hinv1 & _ & _ & _ & Ec).
  unfold writeOne. call ltac:(exact E). unfold room_ok in Hr.
  rewrite (i32_id (Z.of_nat (length d))) by (pow2; lia).
  replace ((Z.of_nat (length d) <? minMsgSize cfg) || (Z.of_nat (length d) >? maxMsgSize cfg)) with true.
  - by exists s1.
  - symmetry. apply orb_true_iff. unfold valid in Hv. lia.
Qed.

Lemma Z_sz_bounds d : valid d → 4 <= sz d < 2 ^ 31.
Proof. intros Hv. unfold valid, sz in *. pose proof (cfg_max Hcfg). lia. Qed.

Lemma writeOne_ok n s q d :
  inv n s q → valid d → 0 < n →
  ∃ s', writeOne cfg fault rand_Int d s = (None, s') ∧ inv (n - 1) s' (q ++ [d]).
Proof.
  intros Hinv Hv Hn0. destruct (open_writer_ok n s q Hinv) as (h & s1 & E & Hinv1 & Ew & _ & _ & _).
  unfold writeOne. call ltac:(exact E). clear E Hinv.
  pose proof (inv_chain_F _ _ _ Hinv1) as HF.
  pose proof Hinv1 as [Hnum Hroom Hpos (segs & Hch & Hq) Hval Hdep Hdr Hbey Hah Hrd Hwr Hex].
  pose proof (chain_bound _ _ _ _ _ _ Hch) as Hwb.
  unfold writer_ok in Hwr. rewrite Ew in Hwr. destruct Hwr as [-> [c Hc]].
  pose proof (Z_sz_bounds d Hv) as Hsz. unfold sz in Hsz. pose proof Hcfg as [Hmin Hmax Hfile Hp63].
  assert (Hv' := Hv). unfold valid in Hv'.
  assert (HFc : F (files s1) (writeFileNum s1) = c) by (unfold F; by rewrite Hc).
  rewrite HFc in HF.
  rewrite (i32_id (Z.of_nat (length d))) by (pow2; lia).
  replace ((Z.of_nat (length d) <? minMsgSize cfg) || (Z.of_nat (length d) >? maxMsgSize cfg)) with false
    by (symmetry; apply orb_false_iff; lia).
  replace (u32 (Z.of_nat (length d))) with (Z.of_nat (length d)) by (pow2; lia). fold (enc d).
  call ltac:(apply f_Write_ok; exact Hc). run.
  assert (Hw : write_at c (Z.to_nat (writePos s1)) (enc d) = c ++ enc d).
  { unfold write_at. rewrite <- HF, Nat2Z.id, Nat.sub_diag. cbn [replicate].
    rewrite app_nil_r, take_ge by done. rewrite drop_ge by lia. by rewrite app_nil_r. }
  rewrite Hw. clear Hw. set (fs := <[fileName cfg (writeFileNum s1) := c ++ enc d]> (files s1)).
  replace (i32 (4 + Z.of_nat (length d))) with (sz d) by (unfold sz; symmetry; apply i32_id; pow2; lia).
  rewrite (i64_id (writePos s1 + sz d)) by (unfold sz; pow2; lia).
  rewrite (i64_id (depth s1 + 1)) by (pow2; lia).
  destruct (chain_snoc (files s1) fs _ _ _ _ _ d Hch) as (segs' & Hj & Hch').
  { unfold fs. rewrite F_insert, bool_decide_eq_true_2 by done. by rewrite HFc. }
  { intros g Hg Hne. unfold fs. rewrite F_insert. case_bool_decide as Ef; [|done].
    apply fileName_inj in Ef; lia. }
  { unfold F. rewrite Hbey by lia. done. }
  rewrite Hq in Hj.
  (* what the new state keeps, whether or not the file is rolled *)
  assert (Hnew : ∀ W' wp' wf t, writeFileNum s1 <= W' <= writeFileNum s1 + 1 →
    chain fs W' wp' (readFileNum s1) (readPos s1) segs' →
    match wf with None => True | Some h => W' = writeFileNum s1 ∧ h = mkHandle (fileName cfg (writeFileNum s1)) wp' end →
    inv (n - 1) (set_writePos wp' (set_writeFileNum W' (set_depth (depth s1 + 1)
      (set_writeFile wf (set_files fs (set_tick t s1)))))) (q ++ [d])).
  { intros W' wp' wf t HW' Hch2 Hwf. split; cbn; try done; try lia.
    - by exists segs'.
    - apply Forall_app. split; [done|]. by constructor.
    - rewrite length_app. cbn. lia.
    - intros f Hf. unfold fs. rewrite lookup_insert_ne; [apply Hbey; lia|].
      intros Ef. apply fileName_inj in Ef; lia.
    - destruct Hah as [?|(m & q' & -> & ? & ?)]; [by left|]. right. by exists m, (q' ++ [d]).
    - unfold reader_ok in *. cbn. destruct (readFile s1); [|done].
      destruct Hrd as (? & c' & Hc' & Hrd). split; [done|]. unfold fs.
      destruct (decide (fileName cfg (writeFileNum s1) = fileName cfg (readFileNum s1))) as [Ef|].
      + rewrite Ef, lookup_insert_eq. exists (c ++ enc d). split; [done|].
        rewrite <- Ef, Hc in Hc'. injection Hc' as <-. by apply rd_at_app.
      + rewrite lookup_insert_ne by done. by exists c'.
    - unfold writer_ok. cbn. destruct wf as [h|]; [|done]. destruct Hwf as [-> ->]. split; [done|].
      unfold fs. rewrite lookup_insert_eq. by eexists. }
  destruct (writePos s1 + sz d >? maxBytesPerFile cfg) eqn:Egt.
  - rewrite (i64_id (writeFileNum s1 + 1)) by (pow2; lia).
    match goal with |- context [sync _ _ _ ?s0] => destruct (sync_ok s0) as (fs2 & t2 & Es & Hsame & _) end.
    run. rewrite Es. run. eexists. split; [done|].
    set (t0 := S (tick s1)) in *.
    assert (Hi := Hnew (writeFileNum s1 + 1) 0 None t0 ltac:(lia) Hch' I).
    exact (inv_world _ _ _ fs2 t2 (count s1) false (r s1) Hi Hsame).
  - eexists. split; [done|].
    assert (Hh : writePos s1 + Z.of_nat (length (enc d)) = writePos s1 + sz d) by (by rewrite length_enc).
    rewrite Hh. exact (Hnew (writeFileNum s1) (writePos s1 + sz d) (Some (mkHandle _ _)) (S (tick s1))
      ltac:(lia) Hch' (conj eq_refl eq_refl)).
Qed.

(** ** Closing and opening again *)

Lemma skip_fmt_d z rest : in_i64 z → skip_blanks (Decimal.fmt_d z ++ rest) = Decimal.fmt_d z ++ rest.
Proof.
  intros Hz. unfold Decimal.fmt_d. destruct (z <? 0) eqn:E; bool_to_prop; [done|].
  destruct (Decimal.digits_spec z E) as (_ & Hd & Hne). destruct (Decimal.digits z) as [|b bs]; [done|].
  apply Forall_cons in Hd as [Hb _]. cbn [app skip_blanks].
  replace (is_blank b) with false; [done|]. symmetry. unfold is_blank, Decimal.is_digit in *.
  bool_to_prop. rewrite !orb_false_iff, !Z.eqb_neq. lia.
Qed.

Lemma scan_num_ok z b rest : in_i64 z → Decimal.is_digit b = false →
  scan_num (Decimal.fmt_d z ++ b :: rest) = Some (z, b :: rest).
Proof. intros Hz Hb. unfold scan_num. rewrite skip_fmt_d by done. by apply Decimal.scan_fmt_d. Qed.

Lemma scan_meta_ok d rf rp wf wp junk s :
  in_i64 d → in_i64 rf → in_i64 rp → in_i64 wf → in_i64 wp →
  scan_meta (meta_text d rf rp wf wp ++ junk) s =
    (set_nextReadPos rp (set_nextReadFileNum rf (set_depth d (set_writePos wp
       (set_writeFileNum wf (set_readPos rp (set_readFileNum rf s)))))), None).
Proof.
  intros. unfold meta_text. repeat (rewrite <- app_assoc; cbn [app]).
  assert (Hnl : ∀ bs, scan_newline (newline :: bs) = Some bs) by done.
  assert (Hcm : ∀ bs, scan_comma (comma :: bs) = Some bs) by done.
  unfold scan_meta. rewrite scan_num_ok by done. rewrite Hnl. cbn [mbind option_bind].
  rewrite scan_num_ok by done. rewrite Hcm. cbn [mbind option_bind].
  rewrite scan_num_ok by done. rewrite Hnl. cbn [mbind option_bind].
  rewrite scan_num_ok by done. rewrite Hcm. cbn [mbind option_bind].
  rewrite scan_num_ok by done. rewrite Hnl. done.
Qed.

Lemma to_select_ok n s q :
  inv n s q → 0 < n →
  ∃ s', to_select cfg fault rand_Int (turns s) s = Some s' ∧ inv n s' q ∧
    s'.(r) = negb (bool_decide (q = [])) ∧
    ∀ m q', q = m :: q' → s'.(dataRead) = m ∧
      (s'.(nextReadFileNum), s'.(nextReadPos)) = next_of s'.(readFileNum) s'.(readPos) m.
Proof.
  intros Hinv Hn. destruct (loop_turn_ok n s q Hinv Hn) as (s' & E & Hinv' & Hr & Hd & _).
  exists s'. split_and!; [|done|done|done]. unfold turns. rewrite Nat.add_comm. cbn [to_select Nat.add]. by rewrite E.
Qed.

Lemma reopen_ok n s q :
  inv n s q → 0 < n →
  ∃ s', Close cfg fault rand_Int s = Some (None, s') ∧
    inv n (New cfg fault s'.(files) s'.(tick)) q.
Proof.
  intros Hinv Hn. destruct (to_select_ok n s q Hinv Hn) as (s1 & E & Hinv1 & _ & _).
  set (s2 := set_writeFile None (set_readFile None (set_exitFlag true s1))).
  destruct (sync_ok s2) as (fs & t & Es & Hsame & (junk & Hmeta)).
  exists (set_needSync false (set_files fs (set_tick t s2))). split.
  { unfold Close, exit. rewrite (inv_exit _ _ _ Hinv), E. cbn [mbind option_bind]. fold s2. by rewrite Es. }
  pose proof (inv_chain_F _ _ _ Hinv1) as HF.
  destruct Hinv1 as [Hnum Hroom Hpos (segs & Hch & Hq) Hval Hdep Hdr Hbey Hah Hrd Hwr Hex].
  pose proof (chain_bound _ _ _ _ _ _ Hch) as Hwb. pose proof Hcfg as [Hmin Hmax Hfile Hp63].
  run. unfold New, retrieveMetaData. call ltac:(exact (os_Open_ok (zero_dq _ _) _ _ Hmeta)).
  call ltac:(apply syscall_ok). call ltac:(reflexivity). cbn [get fst]. run. 
  change (files (zero_dq fs t)) with fs. rewrite Hmeta. cbn [default id].
  rewrite scan_meta_ok by (change (depth s2) with (depth s1); change (readFileNum s2) with (readFileNum s1);
    change (readPos s2) with (readPos s1); change (writeFileNum s2) with (writeFileNum s1);
    change (writePos s2) with (writePos s1); pow2; lia).
  run. split; cbn; try done; try lia.
  - exists segs. split; [|done]. eapply chain_same; [|done]. intros g Hg. eapply same_data_F; [exact Hsame| |exact Hg]. cbn. lia.
  - intros f Hf. rewrite Hsame by lia. by apply Hbey.
  - by left.
Qed.

(** ** Every operation acts on the queue *)

(** What the clients and the timer can do. *)
Inductive op :=
| Recv                     (* receive from [ReadChan()] *)
| OpPut (data : bytes)
| OpEmpty
| OpTick
| Reopen.                  (* [Close], then [New] on the same directory *)

Inductive output :=
| Blocked                  (* nobody sends on [ReadChan()] *)
| Out (x : response)
| Closed (err : option ioerr).

Definition run_op (o : op) (s : diskQueue) : option (output * diskQueue) :=
  match o with
  | Recv =>
    s ← to_select cfg fault rand_Int (turns s) s;
    Some (match select cfg fault rand_Int Read s with
          | Some (x, s) => (Out x, s)
          | None => (Blocked, s)
          end)
  | OpPut d => '(x, s) ← Put cfg fault rand_Int d s; Some (Out x, s)
  | OpEmpty => '(x, s) ← Empty cfg fault rand_Int s; Some (Out x, s)
  | OpTick => '(x, s) ← step cfg fault rand_Int Tick s; Some (Out x, s)
  | Reopen => '(err, s) ← Close cfg fault rand_Int s; Some (Closed err, New cfg fault s.(files) s.(tick))
  end.

#[export] Instance valid_dec d : Decision (valid d).
Proof. unfold valid. apply _. Defined.

(** The abstract queue. *)
Definition spec_op (o : op) (q : list bytes) : output * list bytes :=
  match o with
  | Recv => match q with [] => (Blocked, []) | m :: q => (Out (Received m), q) end
  | OpPut d =>
    if bool_decide (valid d) then (Out (Responded None), q ++ [d])
    else (Out (Responded (Some (EInvalidWriteSize (Z.of_nat (length d)) cfg.(maxMsgSize)))), q)
  | OpEmpty => (Out (Responded None), [])
  | OpTick => (Out NoResponse, q)
  | Reopen => (Closed None, q)
  end.

Definition op_ok (o : op) : Prop := match o with OpPut d => room_ok d | _ => True end.

Lemma run_op_ok n s q o :
  inv n s q → 0 < n → op_ok o →
  ∃ s', run_op o s = Some ((spec_op o q).1, s') ∧ inv (n - 1) s' (spec_op o q).2.
Proof.
  intros Hinv Hn Hop. destruct (to_select_ok n s q Hinv Hn) as (s1 & E & Hinv1 & Hr & Hd).
  assert (Hflags : ∀ c, inv n (set_count c s1) q) by (intros c; by apply (inv_flags n s1 q (needSync s1) c (r s1))).
  destruct o as [|d| | |]; cbn [run_op spec_op].
  - rewrite E. cbn [mbind option_bind select]. rewrite Hr. destruct q as [|m q]; cbn [negb fst snd].
    + rewrite bool_decide_eq_true_2 by done. exists s1. split; [done|]. eapply inv_weaken; [|done]. lia.
    + rewrite bool_decide_eq_false_2 by done. cbn [negb]. destruct (Hd m q eq_refl) as [Hm Hnext].
      destruct (moveForward_ok n (set_count (i64 (count s1 + 1)) s1) m q (Hflags _) Hn Hnext) as (s2 & E2 & Hinv2).
      rewrite E2. exists s2. split; [by cbn; rewrite Hm|]. eapply inv_weaken; [|done]. lia.
  - unfold Put, step. rewrite (inv_exit _ _ _ Hinv), E. cbn [mbind option_bind select]. clear Hr Hd.
    case_bool_decide as Hv; cbn [fst snd].
    + destruct (writeOne_ok n _ q d (Hflags (i64 (count s1 + 1))) Hv Hn) as (s2 & E2 & Hinv2).
      rewrite E2. by exists s2.
    + destruct (writeOne_bad n _ q d (Hflags (i64 (count s1 + 1))) Hop Hv) as (s2 & E2 & Hinv2 & _).
      rewrite E2. exists s2. split; [done|]. eapply inv_weaken; [|done]. lia.
  - unfold Empty, step. rewrite (inv_exit _ _ _ Hinv), E. cbn [mbind option_bind select fst snd].
    destruct (deleteAllFiles_ok n s1 q Hinv1 Hn) as (s2 & E2 & Hinv2). rewrite E2.
    eexists. split; [done|]. by apply (inv_flags _ s2 [] (needSync s2) 0 (r s2)).
  - unfold step. rewrite E. cbn [mbind option_bind select fst snd].
    destruct (count s1 =? 0); (eexists; split; [done|]); (eapply inv_weaken; [|first [exact Hinv1|
      exact (inv_flags n s1 q true (count s1) (r s1) Hinv1)]]); lia.
  - destruct (reopen_ok n s q Hinv Hn) as (s2 & E2 & Hinv2). rewrite E2. cbn [mbind option_bind fst snd].
    eexists. split; [done|]. eapply inv_weaken; [|done]. lia.
Qed.

Fixpoint run_ops (os : list op) (s : diskQueue) : option (list output * diskQueue) :=
  match os with
  | [] => Some ([], s)
  | o :: os => '(x, s) ← run_op o s; '(xs, s) ← run_ops os s; Some (x :: xs, s)
  end.

Fixpoint spec_ops (os : list op) (q : list bytes) : list output * list bytes :=
  match os with
  | [] => ([], q)
  | o :: os => let '(x, q) := spec_op o q in let '(xs, q) := spec_ops os q in (x :: xs, q)
  end.

Lemma run_ops_ok n s q os :
  inv n s q → Z.of_nat (length os) < n → Forall op_ok os →
  ∃ s', run_ops os s = Some ((spec_ops os q).1, s') ∧ inv (n - Z.of_nat (length os)) s' (spec_ops os q).2.
Proof.
  revert n s q. induction os as [|o os IH]; intros n s q Hinv Hn Hos; cbn [run_ops spec_ops length] in *.
  - exists s. split; [done|]. by replace (n - Z.of_nat 0) with n by lia.
  - apply Forall_cons in Hos as [Ho Hos].
    destruct (run_op_ok n s q o Hinv ltac:(lia) Ho) as (s1 & E1 & Hinv1). rewrite E1. cbn [mbind option_bind].
    destruct (spec_op o q) as [x q1]. cbn [fst snd] in *.
    destruct (IH (n - 1) s1 q1 Hinv1 ltac:(lia) Hos) as (s2 & E2 & Hinv2). rewrite E2.
    destruct (spec_ops os q1) as [xs q2]. cbn [fst snd] in *. exists s2. split; [done|].
    by replace (n - Z.of_nat (S (length os))) with (n - 1 - Z.of_nat (length os)) by lia.
Qed.

(** A directory without files of the queue. *)
Definition fresh_dir (fs : gmap bytes bytes) : Prop :=
  fs !! metaDataFileName cfg = None ∧ ∀ f, 0 <= f → fs !! fileName cfg f = None.

Lemma New_fresh fs t : fresh_dir fs → inv (2 ^ 62) (New cfg fault fs t) [].
Proof.
  intros [Hm Hd]. pose proof (cfg_file Hcfg).
  assert (E : New cfg fault fs t = set_tick (S t) (zero_dq fs t)).
  { unfold New, retrieveMetaData, os_Open.
    unfold mbind, M_bind. rewrite syscall_ok. cbn. by rewrite Hm. }
  rewrite E. split; cbn; try done; try lia.
  - exists [[]]. split; [|done]. split_and!; [done| |done|done].
    exists []. split; [|done]. unfold F. by rewrite Hd.
  - intros f Hf. apply Hd. lia.
  - by left.
Qed.

(** C1: the disk queue refines a FIFO queue: starting on a directory without
    its files, with system calls that succeed, every sequence of puts,
    receives, empties, timer ticks and restarts (close and open again) gives
    exactly the responses of the abstract queue, the reported depth is its
    length, and no operation gets stuck; files are rolled, read ahead,
    removed and synced on the way. *)
Theorem diskqueue_fifo (fs : gmap bytes bytes) (t : nat) (os : list op) :
  fresh_dir fs → Forall op_ok os → Z.of_nat (length os) < 2 ^ 62 →
  ∃ s, run_ops os (New cfg fault fs t) = Some ((spec_ops os []).1, s) ∧
    Depth s = Z.of_nat (length (spec_ops os []).2).
Proof.
  intros Hfs Hos Hn. destruct (run_ops_ok _ _ _ _ (New_fresh fs t Hfs) Hn Hos) as (s & E & Hinv).
  exists s. split; [done|]. apply (inv_depth _ _ _ Hinv).
Qed.

End proofs.
End DQP.
