(* ===== verification/DiskQueueFaults.v ===== *)
(** * The disk queue when things go wrong

    Termination of [ioLoop]'s way to its [select] whatever system calls fail
    and whatever the files contain, the metadata round trip, and two
    behaviours after an unclean restart: the loop spins when the metadata
    puts the read file past the write file, and an acknowledged message can
    be replaced by an old one that the reader had already buffered. *)
From stdpp Require Import base gmap list strings.
From Stdlib Require Import ZArith Lia.
From S2P Require Import Prelude.
From S2P Require Import Decimal.
From S2P Require Import DiskQueue.
From S2P Require Import DiskQueueProofs.
Set Default Goal Selector "!".
Local Open Scope Z_scope.

Module DQF.
Import DQ DQP.
#[local] Opaque bufsize.

(** ** What every operation leaves alone *)

Definition same_pos (s s' : diskQueue) : Prop :=
  s'.(readFileNum) = s.(readFileNum) ∧ s'.(writeFileNum) = s.(writeFileNum) ∧
  s'.(readPos) = s.(readPos) ∧ s'.(writePos) = s.(writePos) ∧ s'.(exitFlag) = s.(exitFlag).

#[export] Instance same_pos_preorder : PreOrder same_pos.
Proof.
  split; [done|]. intros s1 s2 s3 (?&?&?&?&?) (?&?&?&?&?). unfold same_pos. split_and!; congruence.
Qed.

(** An operation that moves no position. *)
Definition still {A} (m : M A) : Prop := ∀ s, same_pos s (m s).2.

Create HintDb still discriminated.

Lemma still_ret {A} (a : A) : still (mret a).
Proof. done. Qed.
Lemma still_get : still get.
Proof. done. Qed.
Lemma still_bind {A B} (m : M A) (f : A → M B) : still m → (∀ a, still (f a)) → still (m ≫= f).
Proof.
  intros Hm Hf s. unfold mbind, M_bind. specialize (Hm s). destruct (m s) as [a s1]. cbn [snd] in Hm.
  etransitivity; [exact Hm|apply Hf].
Qed.
Lemma still_when b m : still m → still (when b m).
Proof. intros ?. by destruct b. Qed.

#[export] Hint Resolve still_ret still_get still_bind still_when : still.

Ltac still_tac :=
  repeat first
    [ progress cbv zeta
    | match goal with
      | |- still (_ ≫= _) => apply still_bind; [|intros ?]
      | |- still (mret _) => apply still_ret
      | |- still get => apply still_get
      | |- still (when _ _) => apply still_when
      | |- still (upd _) => intros ?; done
      | |- still (match ?x with _ => _ end) => destruct x
      end
    | solve [auto with still] ].

Section faults.
Context (cfg : config) (fault : nat → option nat) (rand_Int : nat → Z).

Lemma still_syscall : still (syscall fault).
Proof. done. Qed.
#[local] Hint Resolve still_syscall : still.

Lemma still_os_Open fn : still (os_Open fault fn).
Proof. unfold os_Open. still_tac. Qed.
Lemma still_os_OpenCreate fn : still (os_OpenCreate fault fn).
Proof. unfold os_OpenCreate. still_tac. Qed.
Lemma still_f_Seek h p : still (f_Seek fault h p).
Proof. unfold f_Seek. still_tac. Qed.
Lemma still_f_Write h p : still (f_Write fault h p).
Proof. unfold f_Write. still_tac. Qed.
Lemma still_f_Sync : still (f_Sync fault).
Proof. unfold f_Sync. still_tac. Qed.
Lemma still_os_Remove fn : still (os_Remove fault fn).
Proof. unfold os_Remove. still_tac. Qed.
Lemma still_os_Rename o n : still (os_Rename fault o n).
Proof. unfold os_Rename. still_tac. Qed.
Lemma still_f_Read h n : still (f_Read fault h n).
Proof. unfold f_Read. still_tac. Qed.
#[local] Hint Resolve still_os_Open still_os_OpenCreate still_f_Seek still_f_Write still_f_Sync
  still_os_Remove still_os_Rename still_f_Read : still.

Lemma still_bufio_Read rd n : still (bufio_Read fault rd n).
Proof. unfold bufio_Read. still_tac. Qed.
#[local] Hint Resolve still_bufio_Read : still.

Lemma still_ReadFull rd n : still (ReadFull fault rd n).
Proof.
  unfold ReadFull. generalize (@nil byte) as acc. generalize n at 1 as fuel. intros fuel.
  revert rd n. induction fuel as [|fuel IH]; intros rd n acc; cbn [ReadFull_loop]; still_tac.
Qed.
Lemma still_persistMetaData : still (persistMetaData cfg fault rand_Int).
Proof. unfold persistMetaData. still_tac. Qed.
#[local] Hint Resolve still_ReadFull still_persistMetaData : still.

Lemma still_sync : still (sync cfg fault rand_Int).
Proof. unfold sync. still_tac. Qed.
Lemma still_open_reader : still (open_reader cfg fault).
Proof. unfold open_reader. still_tac. Qed.
#[local] Hint Resolve still_sync still_open_reader : still.

Lemma still_readOne : still (readOne cfg fault).
Proof. unfold readOne, fail_read. still_tac. Qed.

(** ** Reading fails: on to the next file *)

Definition readable (s : diskQueue) : bool :=
  (s.(readFileNum) <? s.(writeFileNum)) || (s.(readPos) <? s.(writePos)).

Lemma handleReadError_pos s :
  0 <= s.(readFileNum) → s.(readFileNum) <= s.(writeFileNum) → s.(writeFileNum) + 1 < 2 ^ 63 →
  ∃ s', handleReadError cfg fault s = ((), s') ∧
  s'.(readFileNum) = s.(readFileNum) + 1 ∧ s'.(readPos) = 0 ∧
  (if s.(readFileNum) =? s.(writeFileNum)
   then s'.(writeFileNum) = s.(writeFileNum) + 1 ∧ s'.(writePos) = 0
   else s'.(writeFileNum) = s.(writeFileNum)).
Proof.
  intros H0 Hle Hmax. unfold handleReadError. call ltac:(reflexivity). cbn [get fst].
  set (w := when _ _). assert (Hw : ∃ s1, w s = ((), s1) ∧
    s1.(readFileNum) = s.(readFileNum) ∧
    if readFileNum s =? writeFileNum s then s1.(writeFileNum) = s.(writeFileNum) + 1 ∧ s1.(writePos) = 0
    else s1.(writeFileNum) = s.(writeFileNum)).
  { unfold w. destruct (readFileNum s =? writeFileNum s); run.
    - eexists. split; [done|]. run. rewrite i64_id by (pow2; lia). done.
    - by exists s. }
  destruct Hw as (s1 & E1 & ER & HW). call ltac:(exact E1).
  pose proof (still_os_Rename (fileName cfg (readFileNum s)) (fileName cfg (readFileNum s) ++ bytes_of_string ".bad") s1) as Hs.
  destruct (os_Rename _ _ _ s1) as [e s2] eqn:E2. cbn [snd] in Hs. call ltac:(exact E2).
  destruct Hs as (Hs1 & Hs2 & Hs3 & Hs4 & _). run. rewrite i64_id by (pow2; lia).
  eexists. split; [done|]. run. split_and!; [done|done|]. destruct (_ =? _); rewrite ?Hs2, ?Hs4; done.
Qed.

(** A turn that does not reach the [select] moves to the next file. *)
Lemma loop_turn_pos s b s' :
  loop_turn cfg fault rand_Int s = (b, s') →
  0 <= s.(readFileNum) <= s.(writeFileNum) → s.(writeFileNum) + 1 < 2 ^ 63 →
  if b then same_pos s s' else
    readable s = true ∧ s'.(readFileNum) = s.(readFileNum) + 1 ∧ s'.(readPos) = 0 ∧
    (if s.(readFileNum) =? s.(writeFileNum)
     then s'.(writeFileNum) = s.(writeFileNum) + 1 ∧ s'.(writePos) = 0
     else s'.(writeFileNum) = s.(writeFileNum)).
Proof.
  intros E Hn Hmax. unfold loop_turn in E.
  assert (Hpre : still (s ← get; _ ← when (s.(count) =? cfg.(syncEvery)) (upd (set_needSync true));
    s ← get; when s.(needSync) (_ ← sync cfg fault rand_Int; upd (set_count 0)))) by still_tac.
  specialize (Hpre s). unfold mbind, M_bind, get in E, Hpre.
  destruct (when (count s =? syncEvery cfg) (upd (set_needSync true)) s) as [u1 s1]. cbn [snd] in *.
  destruct (when (needSync s1) _ s1) as [u2 s2]. cbn [snd] in Hpre.
  destruct Hpre as (P1 & P2 & P3 & P4 & P5).
  assert (Er : (readFileNum s2 <? writeFileNum s2) || (readPos s2 <? writePos s2) = readable s).
  { unfold readable. by rewrite P1, P2, P3, P4. }
  rewrite Er in E. destruct (readable s).
  2: { cbn in E. injection E as <- <-. done. }
  destruct (nextReadPos s2 =? readPos s2).
  2: { cbn in E. injection E as <- <-. done. }
  pose proof (still_readOne s2) as Hs. destruct (readOne cfg fault s2) as [x s3]. cbn [snd] in Hs.
  destruct Hs as (Q1 & Q2 & Q3 & Q4 & Q5).
  destruct x as [d|e].
  { cbn in E. injection E as <- <-. unfold same_pos. cbn. split_and!; congruence. }
  destruct (handleReadError_pos s3) as (s4 & E4 & Hh); [lia..|].
  rewrite E4 in E. cbn in E. injection E as <- <-. rewrite Q1, Q2, P1, P2 in Hh. done.
Qed.

Lemma to_select_terminates fuel s :
  0 <= s.(readFileNum) <= s.(writeFileNum) → s.(writeFileNum) + 2 < 2 ^ 63 →
  (Z.to_nat (s.(writeFileNum) - s.(readFileNum)) + 2 <= fuel)%nat →
  is_Some (to_select cfg fault rand_Int fuel s).
Proof.
  revert s. induction fuel as [|fuel IH]; intros s Hn Hmax Hf; [lia|]. cbn [to_select].
  destruct (loop_turn cfg fault rand_Int s) as [b s'] eqn:E.
  pose proof (loop_turn_pos _ _ _ E Hn ltac:(lia)) as Hp. destruct b; [by eexists|].
  destruct Hp as (Hr & HR & Hrp & HW). destruct (readFileNum s =? writeFileNum s) eqn:Eq; bool_to_prop.
  - (* the new positions are equal: the next turn reads nothing *)
    destruct HW as [HW Hwp]. destruct fuel as [|fuel]; [lia|]. cbn [to_select].
    destruct (loop_turn cfg fault rand_Int s') as [b s''] eqn:E'.
    pose proof (loop_turn_pos _ _ _ E' ltac:(lia) ltac:(lia)) as Hp. destruct b; [by eexists|].
    destruct Hp as [Hr' _]. unfold readable in Hr'. rewrite orb_true_iff, !Z.ltb_lt in Hr'. lia.
  - apply IH; lia.
Qed.

(** C39: [ioLoop] always reaches its [select]: from any state whose read file
    does not lie past its write file, whatever the files contain and
    whatever system calls fail, the read errors skip files until there is
    something to offer or nothing left, in at most two turns more than there
    are files. *)
Theorem diskqueue_progress (s : diskQueue) :
  0 <= s.(readFileNum) <= s.(writeFileNum) → s.(writeFileNum) + 2 < 2 ^ 63 →
  ∃ s', to_select cfg fault rand_Int (turns s) s = Some s'.
Proof. intros Hn Hmax. destruct (to_select_terminates (turns s) s Hn Hmax) as [s' E]; [unfold turns; lia|by exists s']. Qed.

End faults.

(** ** After an unclean restart *)

Section restart.
Context (cfg : config) (fault : nat → option nat) (rand_Int : nat → Z).
Hypothesis Hcfg : cfg_ok cfg.
Hypothesis no_fault : ∀ n, fault n = None.

(** The state of a loop that runs away: past the write file, where no file
    exists, but before the write position. *)
Record runaway (s : diskQueue) : Prop := {
  ra_nums : s.(writeFileNum) < s.(readFileNum);
  ra_low : 0 <= s.(readFileNum);
  ra_pos : s.(nextReadPos) = s.(readPos);
  ra_lt : s.(readPos) < s.(writePos);
  ra_0 : 0 < s.(writePos);
  ra_file : s.(readFile) = None;
  ra_none : ∀ f, s.(readFileNum) <= f → s.(files) !! fileName cfg f = None;
}.

Lemma runaway_error s :
  runaway s → s.(readFileNum) + 1 < 2 ^ 63 →
  ∃ s', handleReadError cfg fault s = ((), s') ∧ runaway s' ∧ s'.(readFileNum) = s.(readFileNum) + 1.
Proof.
  intros [Hn Hl Hp Hlt H0 Hf Hnone] Hmax. unfold handleReadError. call ltac:(reflexivity). cbn [get fst].
  rewrite (proj2 (Z.eqb_neq (readFileNum s) (writeFileNum s))) by lia.
  call ltac:(reflexivity).
  assert (E : os_Rename fault (fileName cfg (readFileNum s)) (fileName cfg (readFileNum s) ++ bytes_of_string ".bad") s
    = (Some ENotExist, set_tick (S s.(tick)) s)).
  { unfold os_Rename. call ltac:(apply (syscall_ok fault no_fault)). call ltac:(reflexivity). cbn [get fst].
    change (files (set_tick (S (tick s)) s)) with (files s). by rewrite Hnone by lia. }
  call ltac:(exact E). run. rewrite i64_id by (pow2; lia).
  eexists. split; [done|]. split; [|done]. split; cbn; try done; try lia.
  intros f Hf'. apply Hnone. lia.
Qed.

Lemma runaway_turn s :
  runaway s → s.(readFileNum) + 1 < 2 ^ 63 →
  ∃ s', loop_turn cfg fault rand_Int s = (false, s') ∧ runaway s' ∧ s'.(readFileNum) = s.(readFileNum) + 1.
Proof.
  intros [Hn Hl Hp Hlt H0 Hf Hnone] Hmax. unfold loop_turn. call ltac:(reflexivity). cbn [get fst].
  assert (∃ s1, when (count s =? syncEvery cfg) (upd (set_needSync true)) s = ((), s1) ∧
    runaway s1 ∧ s1.(readFileNum) = s.(readFileNum)) as (s1 & E1 & R1 & EN1).
  { destruct (count s =? syncEvery cfg); (eexists; split; [done|]); (split; [|done]); by split. }
  call ltac:(exact E1). call ltac:(reflexivity). cbn [get fst].
  assert (∃ s2, when (needSync s1) (_ ← sync cfg fault rand_Int; upd (set_count 0)) s1 = ((), s2) ∧
    runaway s2 ∧ s2.(readFileNum) = s1.(readFileNum)) as (s2 & E2 & R2 & EN2).
  { destruct (needSync s1); [|by exists s1]. destruct R1 as [? ? ? ? ? ? Hnone1].
    destruct (sync_ok cfg fault rand_Int no_fault s1) as (fs & t & Es & Hsame & _). cbn [when].
    erewrite bind_eq by exact Es. eexists. split; [done|]. split; [|done]. split; cbn; try done.
    intros f Hf'. rewrite Hsame by lia. by apply Hnone1. }
  call ltac:(exact E2). call ltac:(reflexivity). cbn [get fst]. rewrite <- EN1, <- EN2 in *. clear E1 E2 R1.
  destruct R2 as [Hn2 Hl2 Hp2 Hlt2 H02 Hf2 Hnone2].
  rewrite (proj2 (Z.ltb_ge (readFileNum s2) (writeFileNum s2))), (proj2 (Z.ltb_lt (readPos s2) (writePos s2))) by lia.
  cbn [orb]. rewrite (proj2 (Z.eqb_eq _ _) Hp2).
  assert (Er : readOne cfg fault s2 = (Err ENotExist, set_readFile None (set_tick (S s2.(tick)) s2))).
  { unfold readOne, open_reader. unfold mbind, M_bind, get. rewrite Hf2. unfold os_Open.
    unfold mbind, M_bind. rewrite syscall_ok by done. cbn. by rewrite Hnone2 by lia. }
  call ltac:(exact Er).
  destruct (runaway_error (set_readFile None (set_tick (S (tick s2)) s2))) as (s3 & E3 & R3 & EN3); [by split|done|].
  call ltac:(exact E3). by exists s3.
Qed.

Lemma runaway_spins fuel s :
  runaway s → s.(readFileNum) + Z.of_nat fuel < 2 ^ 63 → to_select cfg fault rand_Int fuel s = None.
Proof.
  revert s. induction fuel as [|fuel IH]; intros s Hs Hmax; [done|]. cbn [to_select].
  destruct (runaway_turn s Hs) as (s' & E & Hs' & EN); [lia|]. rewrite E. apply IH; [done|lia].
Qed.


End restart.

(** ** Concrete runs *)

Definition demo_cfg : config :=
  mkConfig (bytes_of_string "q") (bytes_of_string "/d") 1000 1 100 1000.
Definition no_faults (n : nat) : option nat := None.
Definition rand0 (n : nat) : Z := 0.

Lemma demo_cfg_ok : cfg_ok demo_cfg.
Proof. split; cbn; lia. Qed.

Definition demo_ops : list op :=
  [OpPut (bytes_of_string "a"); OpPut []; OpPut (bytes_of_string "bb"); Recv; OpTick; Reopen; Recv; Recv].

Lemma diskqueue_fifo_witness :
  ∃ s, run_ops demo_cfg no_faults rand0 demo_ops (New demo_cfg no_faults ∅ 0) =
    Some ([Out (Responded None); Out (Responded (Some (EInvalidWriteSize 0 100))); Out (Responded None);
           Out (Received (bytes_of_string "a")); Out NoResponse; Closed None;
           Out (Received (bytes_of_string "bb")); Blocked], s) ∧ Depth s = 0.
Proof.
  apply (diskqueue_fifo demo_cfg no_faults rand0 demo_cfg_ok (λ _, eq_refl) ∅ 0 demo_ops).
  - split; [done|]. intros f _. reflexivity.
  - repeat (constructor; [vm_compute; done|]). constructor.
  - vm_compute. done.
Defined.

Lemma diskqueue_progress_witness :
  let s := set_writeFileNum 3 (set_writePos 7 (zero_dq (<[fileName demo_cfg 1 := [Byte.xff]]> ∅) 0)) in
  ∃ s', to_select demo_cfg (λ n, if Nat.even n then Some 0%nat else None) rand0 (turns s) s = Some s'.
Proof. intros s. apply diskqueue_progress; cbn; lia. Defined.


(** A crash: the process is gone, the files stay. *)
Definition crash (s : diskQueue) : diskQueue := New demo_cfg no_faults s.(files) s.(tick).

(** After an unclean restart an acknowledged message can be replaced by
    an old one. Two messages are written and not yet synced when the process
    dies; the restarted queue starts over at the beginning of the file. It
    accepts two new messages; the consumer gets the first of them, then the
    second message of the earlier run, because the buffered reader read past
    the write position when it fetched the first; the second new message is
    never delivered. *)
Theorem diskqueue_stale_read :
  ('(out1, s1) ← run_ops demo_cfg no_faults rand0
     [OpPut (bytes_of_string "old1"); OpPut (bytes_of_string "old2")] (New demo_cfg no_faults ∅ 0);
   '(out2, _) ← run_ops demo_cfg no_faults rand0
     [OpPut (bytes_of_string "new1"); Recv; OpPut (bytes_of_string "new2"); Recv; Recv] (crash s1);
   Some (out1, out2)) =
  Some ([Out (Responded None); Out (Responded None)],
        [Out (Responded None); Out (Received (bytes_of_string "new1")); Out (Responded None);
         Out (Received (bytes_of_string "old2")); Blocked]).
Proof. vm_compute. reflexivity. Qed.

End DQF.
