(* ===== verification/Backend.v ===== *)
(** * Backend queues (nsqd/backend_queue.go, nsqd/dummy_backend_queue.go)

    The interface a topic and a channel overflow to, with the laws a durable
    implementation keeps, the dummy implementation of ephemeral topics and
    channels, [writeMessageToBackend], and the disk queue of DiskQueue.v as an
    instance of the interface and of its laws. *)
From stdpp Require Import base gmap list strings.
From Stdlib Require Import ZArith Lia.
From S2P Require Import Prelude.
From S2P Require Import Message.
From S2P Require Import DiskQueue.
From S2P Require Import DiskQueueProofs.
Set Default Goal Selector "!".
Local Open Scope Z_scope.

(** [BackendQueue]. [bq_Recv] is a receive from [ReadChan()]: [None] when
    nothing is sent on it. An error is its text. *)
Class BackendQueue (B : Type) := {
  bq_Put : bytes → B → option string * B;
  bq_Recv : B → option (bytes * B);
  bq_Close : B → option string * B;
  bq_Delete : B → option string * B;
  bq_Depth : B → Z;
  bq_Empty : B → option string * B;
}.

(** What a durable backend promises: [bq_rep n b q] says that [b] holds the
    messages [q], in order, and can serve [n] more calls before one of its
    counters overflows. A [Put] that reports an error may have stored the
    message or not (the disk queue reports a failed sync after a completed
    write); an [Empty] that fails may have emptied the queue or not. *)
Class BackendLaws (B : Type) `{BackendQueue B} := {
  bq_rep : nat → B → list bytes → Prop;
  bq_rep_weaken n n' b q : (n' <= n)%nat → bq_rep n b q → bq_rep n' b q;
  bq_rep_Put n b q d err b' :
    bq_rep (S n) b q → Z.of_nat (length d) < 2 ^ 31 → bq_Put d b = (err, b') →
    match err with
    | None => bq_rep n b' (q ++ [d])
    | Some _ => bq_rep n b' q ∨ bq_rep n b' (q ++ [d])
    end;
  bq_rep_Recv n b q :
    bq_rep (S n) b q →
    match bq_Recv b with
    | None => q = []
    | Some (d, b') => ∃ q', q = d :: q' ∧ bq_rep n b' q'
    end;
  bq_rep_Depth n b q : bq_rep n b q → bq_Depth b = Z.of_nat (length q);
  bq_rep_Empty n b q err b' :
    bq_rep (S n) b q → bq_Empty b = (err, b') →
    match err with
    | None => bq_rep n b' []
    | Some _ => bq_rep n b' q ∨ bq_rep n b' []
    end;
}.

(** ** The dummy backend *)
Inductive dummyBackendQueue := newDummyBackendQueue.

#[export] Instance dummy_backend : BackendQueue dummyBackendQueue := {|
  bq_Put _ b := (None, b);
  bq_Recv _ := None;
  bq_Close b := (None, b);
  bq_Delete b := (None, b);
  bq_Depth _ := 0;
  bq_Empty b := (None, b);
|}.

(** ** A value of the interface type: a dummy or a disk queue *)
Inductive backend (D : Type) :=
| Dummy (d : dummyBackendQueue)
| Disk (d : D).
Arguments Dummy {D} d.
Arguments Disk {D} d.

#[export] Instance backend_queue {D} `{BackendQueue D} : BackendQueue (backend D) := {|
  bq_Put m b := match b with
    | Dummy d => let '(e, d) := bq_Put m d in (e, Dummy d)
    | Disk d => let '(e, d) := bq_Put m d in (e, Disk d) end;
  bq_Recv b := match b with
    | Dummy d => '(m, d) ← bq_Recv d; Some (m, Dummy d)
    | Disk d => '(m, d) ← bq_Recv d; Some (m, Disk d) end;
  bq_Close b := match b with
    | Dummy d => let '(e, d) := bq_Close d in (e, Dummy d)
    | Disk d => let '(e, d) := bq_Close d in (e, Disk d) end;
  bq_Delete b := match b with
    | Dummy d => let '(e, d) := bq_Delete d in (e, Dummy d)
    | Disk d => let '(e, d) := bq_Delete d in (e, Disk d) end;
  bq_Depth b := match b with Dummy d => bq_Depth d | Disk d => bq_Depth d end;
  bq_Empty b := match b with
    | Dummy d => let '(e, d) := bq_Empty d in (e, Dummy d)
    | Disk d => let '(e, d) := bq_Empty d in (e, Disk d) end;
|}.

(** Only a disk queue keeps the laws: a dummy accepts everything and holds
    nothing. *)
#[export] Instance backend_laws {D} `{BackendLaws D} : BackendLaws (backend D).
Proof.
  refine {| bq_rep n b q := match b with Dummy _ => False | Disk d => bq_rep n d q end |}.
  - intros n n' [d|d] q Hn Hr; [done|]. by eapply bq_rep_weaken.
  - intros n [d|d] q m err b' Hr Hm E; [done|]. cbn in E. destruct (bq_Put m d) as [e d'] eqn:E'.
    injection E as <- <-. exact (bq_rep_Put _ _ _ _ _ _ Hr Hm E').
  - intros n [d|d] q Hr; [done|]. cbn. apply bq_rep_Recv in Hr. by destruct (bq_Recv d) as [[m d']|].
  - intros n [d|d] q Hr; [done|]. cbn. by eapply bq_rep_Depth.
  - intros n [d|d] q err b' Hr E; [done|]. cbn in E. destruct (bq_Empty d) as [e d'] eqn:E'.
    injection E as <- <-. exact (bq_rep_Empty _ _ _ _ _ Hr E').
Defined.

(** [writeMessageToBackend]: the buffer is reset first. *)
Definition writeMessageToBackend {B} `{BackendQueue B} (msg : Message) (bq : B) : option string * B :=
  let buf : bytes := [] in
  let '(buf, (_, err)) := WriteTo msg buf in
  match err with
  | Some e => (Some e, bq)
  | None => bq_Put buf bq
  end.

Lemma writeMessageToBackend_eq {B} `{BackendQueue B} msg (bq : B) :
  writeMessageToBackend msg bq = bq_Put (encode_message msg) bq.
Proof. unfold writeMessageToBackend. by rewrite WriteTo_buffer. Qed.

(** A queue opened without a log function: a call that logs panics
    ([None]). *)
Class UnloggedQueue (B : Type) := { uq_Put : bytes → B → option (option string * B) }.

(** ** The disk queue as a backend

    A call that does not come back (the loop never reaches its [select]) is
    taken as an error that leaves the queue as it is; when no system call
    fails there is none. *)
Module DiskBackend.
Import DQ DQP.

Section disk.
Context (cfg : config) (fault : nat → option nat) (rand_Int : nat → Z).

Definition err_text (e : option ioerr) : option string :=
  match e with Some _ => Some "diskqueue"%string | None => None end.

Definition of_response (x : option (response * diskQueue)) (s : diskQueue) : option string * diskQueue :=
  match x with
  | Some (Responded e, s) => (err_text e, s)
  | _ => (Some "diskqueue"%string, s)
  end.

Definition of_close (x : option (option ioerr * diskQueue)) (s : diskQueue) : option string * diskQueue :=
  match x with
  | Some (e, s) => (err_text e, s)
  | None => (Some "diskqueue"%string, s)
  end.

Definition disk_queue : BackendQueue diskQueue := {|
  bq_Put d s := of_response (Put cfg fault rand_Int d s) s;
  bq_Recv s := match step cfg fault rand_Int Read s with
               | Some (Received d, s) => Some (d, s) | _ => None end;
  bq_Close s := of_close (Close cfg fault rand_Int s) s;
  bq_Delete s := of_close (Delete cfg fault rand_Int s) s;
  bq_Depth s := Depth s;
  bq_Empty s := of_response (Empty cfg fault rand_Int s) s;
|}.

(** The disk queue with a nil [logf]: [writeOne] logs when it has opened its
    file. The log calls that precede it (a failed sync, a read error) are left
    out: on a queue that was just opened there is none. *)
Definition nil_logf_Put (d : bytes) (s : diskQueue) : option (option string * diskQueue) :=
  match to_select cfg fault rand_Int (turns s) s with
  | None => Some (of_response None s)
  | Some s1 =>
    let opens := match s1.(writeFile) with
                 | None => is_ok (os_OpenCreate fault (fileName cfg s1.(writeFileNum)) s1).1
                 | Some _ => false end in
    if opens && negb s.(exitFlag) then None else Some (of_response (Put cfg fault rand_Int d s) s)
  end.
Definition nil_logf_queue : UnloggedQueue diskQueue := {| uq_Put := nil_logf_Put |}.

Hypothesis Hcfg : cfg_ok cfg.
Hypothesis no_fault : ∀ n, fault n = None.

Lemma step_Read_ok n s q :
  inv cfg n s q → 0 < n →
  match step cfg fault rand_Int Read s with
  | Some (Received d, s') => ∃ q', q = d :: q' ∧ inv cfg (n - 1) s' q'
  | Some _ => False
  | None => q = []
  end.
Proof.
  intros Hinv Hn. destruct (run_op_ok cfg fault rand_Int Hcfg no_fault n s q Recv Hinv Hn I) as (s' & E & Hinv').
  cbn [run_op spec_op] in E. unfold step. destruct (to_select cfg fault rand_Int (turns s) s) as [s1|]; [|done].
  cbn [mbind option_bind] in *. destruct (select cfg fault rand_Int Read s1) as [[x s2]|];
    destruct q as [|m q]; cbn [fst] in E; try done.
  injection E as -> ->. by exists q.
Qed.

(** The disk queue keeps the laws of a durable backend. *)
Definition disk_laws : @BackendLaws diskQueue disk_queue.
Proof.
  refine (@Build_BackendLaws diskQueue disk_queue (λ n s q, inv cfg (Z.of_nat n) s q) _ _ _ _ _).
  - intros n n' s q Hn Hr. eapply inv_weaken; [|exact Hr]. lia.
  - intros n s q d err s' Hr Hd E. cbn in E.
    destruct (run_op_ok cfg fault rand_Int Hcfg no_fault _ s q (OpPut d) Hr ltac:(lia) Hd) as (s1 & E1 & Hinv).
    cbn [run_op] in E1. destruct (Put cfg fault rand_Int d s) as [[x s2]|]; [|done].
    cbn [mbind option_bind spec_op] in E1. replace (Z.of_nat (S n) - 1) with (Z.of_nat n) in Hinv by lia.
    destruct (bool_decide (valid cfg d)) eqn:Hv; rewrite ?Hv in *; cbn [spec_op fst snd] in *;
      injection E1 as -> ->; cbn in E; injection E as <- <-; rewrite Hv in Hinv; cbn in Hinv; [done|by left].
  - intros n s q Hr. cbn. pose proof (step_Read_ok _ s q Hr ltac:(lia)) as Hs.
    destruct (step cfg fault rand_Int Read s) as [[[d| |] s']|]; [|done..].
    destruct Hs as (q' & -> & Hinv). exists q'. split; [done|].
    by replace (Z.of_nat (S n) - 1) with (Z.of_nat n) in Hinv by lia.
  - intros n s q Hr. apply (inv_depth _ _ _ _ Hr).
  - intros n s q err s' Hr E. cbn in E.
    destruct (run_op_ok cfg fault rand_Int Hcfg no_fault _ s q OpEmpty Hr ltac:(lia) I) as (s1 & E1 & Hinv).
    cbn [run_op] in E1. destruct (Empty cfg fault rand_Int s) as [[x s2]|]; [|done].
    cbn in E1. injection E1 as -> ->. cbn in E. injection E as <- <-.
    by replace (Z.of_nat (S n) - 1) with (Z.of_nat n) in Hinv by lia.
Defined.

(** It stores every message of a size its configuration accepts. *)
Lemma disk_put_fits n s q d :
  inv cfg (Z.of_nat (S n)) s q → valid cfg d ∧ room_ok d → (of_response (Put cfg fault rand_Int d s) s).1 = None.
Proof.
  intros Hr [Hv Hd]. destruct (run_op_ok cfg fault rand_Int Hcfg no_fault _ s q (OpPut d) Hr ltac:(lia) Hd) as (s1 & E1 & _).
  cbn [run_op spec_op] in E1. rewrite bool_decide_eq_true_2 in E1 by done.
  destruct (Put cfg fault rand_Int d s) as [[x s2]|]; [|done]. cbn in E1. by injection E1 as -> ->.
Qed.

End disk.
End DiskBackend.
