(* ===== verification/Channel.v ===== *)
(** * Channels (nsqd/channel.go)

    A channel owns the messages its topic copied to it until a consumer
    finishes them: in memory, in flight, deferred or in its backend. The maps
    and the priority queues hold pointers, so the state is a heap (the
    messages and deferred items, the consumers, which their connections share,
    and a log of the calls out to nsqd) and the fields of the struct.
    Operations run in [ST]; [None] is a panic. A clock reading is an argument.

    Each operation is the sequential composition of its critical sections, in
    the order of the code. *)
From stdpp Require Import base gmap list strings.
From Stdlib Require Import ZArith Lia.
From S2P Require Import Prelude.
From S2P Require Import Text.
From S2P Require Import Message.
From S2P Require Import Heap.
From S2P Require Import InFlightPQ.
From S2P Require Import PQueue.
From S2P Require Import DiskQueue.
From S2P Require Import Backend.
Set Default Goal Selector "!".
Local Open Scope Z_scope.

(** [Consumer]: what a channel asks of a subscribed client. *)
Class Consumer (C : Type) := {
  cons_UnPause : C → C;
  cons_Pause : C → C;
  cons_Close : C → C;
  cons_TimedOutMessage : C → C;
  cons_Empty : C → C;
}.

(** The third-party quantile estimator behind [quantile.Quantile]. *)
Class QuantileStream (Q : Type) := { q_Insert : Z → Q → Q }.

Module Channel.

(** Calls of channels and topics on their nsqd, and of a channel on its
    topic. *)
Inductive ctx_event :=
| Notify                             (* [ctx.nsqd.Notify(c)] *)
| SetHealth (err : option string)    (* [ctx.nsqd.SetHealth(err)] *)
| DeleteCallback                     (* [deleteCallback(c)] *)
| NotifyTopic                        (* [ctx.nsqd.Notify(t)] *)
| TopicDeleteCallback.               (* [deleteCallback(t)] *)

Record heap (C : Type) := mkHeap {
  msgs : gmap nat Message;
  items : gmap nat Item;
  consumers : gmap Z C;
  next : nat;  (* the next fresh location *)
  ctx_log : list ctx_event;  (* calls out to nsqd, in order *)
}.
Arguments mkHeap {C} _ _ _ _ _.
Arguments msgs {C} _.
Arguments items {C} _.
Arguments consumers {C} _.
Arguments next {C} _.
Arguments ctx_log {C} _.

Record Channel (D Q : Type) := mkChannel {
  requeueCount : Z;
  messageCount : Z;
  timeoutCount : Z;
  topicName : bytes;
  name : bytes;
  backend_ : backend D;
  memoryMsgChan : list loc;
  exitFlag : bool;
  clients : gset Z;  (* the keys of the map *)
  paused : bool;
  ephemeral : bool;
  deleter_done : bool;  (* the sync.Once has run *)
  e2eProcessingLatencyStream : option Q;
  deferredMessages : gmap (list Byte.byte) loc;
  deferredPQ : PriorityQueue;
  inFlightMessages : gmap (list Byte.byte) loc;
  inFlightPQ : inFlightPqueue;
}.
Arguments mkChannel {D Q} _ _ _ _ _ _ _ _ _ _ _ _ _ _ _ _ _.
Arguments requeueCount {D Q} _.
Arguments messageCount {D Q} _.
Arguments timeoutCount {D Q} _.
Arguments topicName {D Q} _.
Arguments name {D Q} _.
Arguments backend_ {D Q} _.
Arguments memoryMsgChan {D Q} _.
Arguments exitFlag {D Q} _.
Arguments clients {D Q} _.
Arguments paused {D Q} _.
Arguments ephemeral {D Q} _.
Arguments deleter_done {D Q} _.
Arguments e2eProcessingLatencyStream {D Q} _.
Arguments deferredMessages {D Q} _.
Arguments deferredPQ {D Q} _.
Arguments inFlightMessages {D Q} _.
Arguments inFlightPQ {D Q} _.

(** The options a channel reads. *)
Record options := mkOptions {
  MemQueueSize : nat;
  MaxMsgTimeout : duration;
  MaxChannelConsumers : Z;
}.

Section setters.
Context {C D Q : Type}.

Definition set_msgs (x : gmap nat Message) (h : heap C) : heap C :=
    mkHeap x h.(items) h.(consumers) h.(next) h.(ctx_log).
Definition set_items (x : gmap nat Item) (h : heap C) : heap C :=
    mkHeap h.(msgs) x h.(consumers) h.(next) h.(ctx_log).
Definition set_consumers (x : gmap Z C) (h : heap C) : heap C :=
    mkHeap h.(msgs) h.(items) x h.(next) h.(ctx_log).
Definition set_next (x : nat) (h : heap C) : heap C :=
    mkHeap h.(msgs) h.(items) h.(consumers) x h.(ctx_log).
Definition set_ctx_log (x : list ctx_event) (h : heap C) : heap C :=
    mkHeap h.(msgs) h.(items) h.(consumers) h.(next) x.

Definition set_requeueCount (x : Z) (c : Channel D Q) : Channel D Q :=
    mkChannel x c.(messageCount) c.(timeoutCount) c.(topicName) c.(name) c.(backend_) c.(memoryMsgChan)
    c.(exitFlag) c.(clients) c.(paused) c.(ephemeral) c.(deleter_done) c.(e2eProcessingLatencyStream)
    c.(deferredMessages) c.(deferredPQ) c.(inFlightMessages) c.(inFlightPQ).
Definition set_messageCount (x : Z) (c : Channel D Q) : Channel D Q :=
    mkChannel c.(requeueCount) x c.(timeoutCount) c.(topicName) c.(name) c.(backend_) c.(memoryMsgChan)
    c.(exitFlag) c.(clients) c.(paused) c.(ephemeral) c.(deleter_done) c.(e2eProcessingLatencyStream)
    c.(deferredMessages) c.(deferredPQ) c.(inFlightMessages) c.(inFlightPQ).
Definition set_timeoutCount (x : Z) (c : Channel D Q) : Channel D Q :=
    mkChannel c.(requeueCount) c.(messageCount) x c.(topicName) c.(name) c.(backend_) c.(memoryMsgChan)
    c.(exitFlag) c.(clients) c.(paused) c.(ephemeral) c.(deleter_done) c.(e2eProcessingLatencyStream)
    c.(deferredMessages) c.(deferredPQ) c.(inFlightMessages) c.(inFlightPQ).
Definition set_topicName (x : bytes) (c : Channel D Q) : Channel D Q :=
    mkChannel c.(requeueCount) c.(messageCount) c.(timeoutCount) x c.(name) c.(backend_) c.(memoryMsgChan)
    c.(exitFlag) c.(clients) c.(paused) c.(ephemeral) c.(deleter_done) c.(e2eProcessingLatencyStream)
    c.(deferredMessages) c.(deferredPQ) c.(inFlightMessages) c.(inFlightPQ).
Definition set_name (x : bytes) (c : Channel D Q) : Channel D Q :=
    mkChannel c.(requeueCount) c.(messageCount) c.(timeoutCount) c.(topicName) x c.(backend_)
    c.(memoryMsgChan) c.(exitFlag) c.(clients) c.(paused) c.(ephemeral) c.(deleter_done)
    c.(e2eProcessingLatencyStream) c.(deferredMessages) c.(deferredPQ) c.(inFlightMessages) c.(inFlightPQ).
Definition set_backend_ (x : backend D) (c : Channel D Q) : Channel D Q :=
    mkChannel c.(requeueCount) c.(messageCount) c.(timeoutCount) c.(topicName) c.(name) x c.(memoryMsgChan)
    c.(exitFlag) c.(clients) c.(paused) c.(ephemeral) c.(deleter_done) c.(e2eProcessingLatencyStream)
    c.(deferredMessages) c.(deferredPQ) c.(inFlightMessages) c.(inFlightPQ).
Definition set_memoryMsgChan (x : list loc) (c : Channel D Q) : Channel D Q :=
    mkChannel c.(requeueCount) c.(messageCount) c.(timeoutCount) c.(topicName) c.(name) c.(backend_) x
    c.(exitFlag) c.(clients) c.(paused) c.(ephemeral) c.(deleter_done) c.(e2eProcessingLatencyStream)
    c.(deferredMessages) c.(deferredPQ) c.(inFlightMessages) c.(inFlightPQ).
Definition set_exitFlag (x : bool) (c : Channel D Q) : Channel D Q :=
    mkChannel c.(requeueCount) c.(messageCount) c.(timeoutCount) c.(topicName) c.(name) c.(backend_)
    c.(memoryMsgChan) x c.(clients) c.(paused) c.(ephemeral) c.(deleter_done) c.(e2eProcessingLatencyStream)
    c.(deferredMessages) c.(deferredPQ) c.(inFlightMessages) c.(inFlightPQ).
Definition set_clients (x : gset Z) (c : Channel D Q) : Channel D Q :=
    mkChannel c.(requeueCount) c.(messageCount) c.(timeoutCount) c.(topicName) c.(name) c.(backend_)
    c.(memoryMsgChan) c.(exitFlag) x c.(paused) c.(ephemeral) c.(deleter_done) c.(e2eProcessingLatencyStream)
    c.(deferredMessages) c.(deferredPQ) c.(inFlightMessages) c.(inFlightPQ).
Definition set_paused (x : bool) (c : Channel D Q) : Channel D Q :=
    mkChannel c.(requeueCount) c.(messageCount) c.(timeoutCount) c.(topicName) c.(name) c.(backend_)
    c.(memoryMsgChan) c.(exitFlag) c.(clients) x c.(ephemeral) c.(deleter_done)
    c.(e2eProcessingLatencyStream) c.(deferredMessages) c.(deferredPQ) c.(inFlightMessages) c.(inFlightPQ).
Definition set_ephemeral (x : bool) (c : Channel D Q) : Channel D Q :=
    mkChannel c.(requeueCount) c.(messageCount) c.(timeoutCount) c.(topicName) c.(name) c.(backend_)
    c.(memoryMsgChan) c.(exitFlag) c.(clients) c.(paused) x c.(deleter_done) c.(e2eProcessingLatencyStream)
    c.(deferredMessages) c.(deferredPQ) c.(inFlightMessages) c.(inFlightPQ).
Definition set_deleter_done (x : bool) (c : Channel D Q) : Channel D Q :=
    mkChannel c.(requeueCount) c.(messageCount) c.(timeoutCount) c.(topicName) c.(name) c.(backend_)
    c.(memoryMsgChan) c.(exitFlag) c.(clients) c.(paused) c.(ephemeral) x c.(e2eProcessingLatencyStream)
    c.(deferredMessages) c.(deferredPQ) c.(inFlightMessages) c.(inFlightPQ).
Definition set_e2eProcessingLatencyStream (x : option Q) (c : Channel D Q) : Channel D Q :=
    mkChannel c.(requeueCount) c.(messageCount) c.(timeoutCount) c.(topicName) c.(name) c.(backend_)
    c.(memoryMsgChan) c.(exitFlag) c.(clients) c.(paused) c.(ephemeral) c.(deleter_done) x
    c.(deferredMessages) c.(deferredPQ) c.(inFlightMessages) c.(inFlightPQ).
Definition set_deferredMessages (x : gmap (list Byte.byte) loc) (c : Channel D Q) : Channel D Q :=
    mkChannel c.(requeueCount) c.(messageCount) c.(timeoutCount) c.(topicName) c.(name) c.(backend_)
    c.(memoryMsgChan) c.(exitFlag) c.(clients) c.(paused) c.(ephemeral) c.(deleter_done)
    c.(e2eProcessingLatencyStream) x c.(deferredPQ) c.(inFlightMessages) c.(inFlightPQ).
Definition set_deferredPQ (x : PriorityQueue) (c : Channel D Q) : Channel D Q :=
    mkChannel c.(requeueCount) c.(messageCount) c.(timeoutCount) c.(topicName) c.(name) c.(backend_)
    c.(memoryMsgChan) c.(exitFlag) c.(clients) c.(paused) c.(ephemeral) c.(deleter_done)
    c.(e2eProcessingLatencyStream) c.(deferredMessages) x c.(inFlightMessages) c.(inFlightPQ).
Definition set_inFlightMessages (x : gmap (list Byte.byte) loc) (c : Channel D Q) : Channel D Q :=
    mkChannel c.(requeueCount) c.(messageCount) c.(timeoutCount) c.(topicName) c.(name) c.(backend_)
    c.(memoryMsgChan) c.(exitFlag) c.(clients) c.(paused) c.(ephemeral) c.(deleter_done)
    c.(e2eProcessingLatencyStream) c.(deferredMessages) c.(deferredPQ) x c.(inFlightPQ).
Definition set_inFlightPQ (x : inFlightPqueue) (c : Channel D Q) : Channel D Q :=
    mkChannel c.(requeueCount) c.(messageCount) c.(timeoutCount) c.(topicName) c.(name) c.(backend_)
    c.(memoryMsgChan) c.(exitFlag) c.(clients) c.(paused) c.(ephemeral) c.(deleter_done)
    c.(e2eProcessingLatencyStream) c.(deferredMessages) c.(deferredPQ) c.(inFlightMessages) x.

End setters.

Section channel.
Context {C D Q : Type} `{Consumer C, BackendQueue D, QuantileStream Q}.
Context (opts : options).
(** The order in which [range] visits a map. *)
Context (range : ∀ {A : Type}, list A → list A).
Arguments range {A} _.

Definition state : Type := heap C * Channel D Q.
Notation CM := (ST state).

Definition upd_heap (f : heap C → heap C) : CM () := modST (λ '(h, c), (f h, c)).
Definition upd_chan (f : Channel D Q → Channel D Q) : CM () := modST (λ '(h, c), (h, f c)).
Definition log (e : ctx_event) : CM () := upd_heap (λ h, set_ctx_log (h.(ctx_log) ++ [e]) h).
Definition get_msg (x : loc) : CM Message := '(h, _) ← getST; liftST (h.(msgs) !! x).
Definition put_msg (x : loc) (m : Message) : CM () := upd_heap (λ h, set_msgs (<[x := m]> h.(msgs)) h).

(** [&Message{...}] and [&pqueue.Item{...}]. *)
Definition new_msg (m : Message) : CM loc :=
  '(h, _) ← getST;
  _ ← upd_heap (λ h, set_next (S h.(next)) (set_msgs (<[h.(next) := m]> h.(msgs)) h));
  mret h.(next).
Definition new_item (it : Item) : CM loc :=
  '(h, _) ← getST;
  _ ← upd_heap (λ h, set_next (S h.(next)) (set_items (<[h.(next) := it]> h.(items)) h));
  mret h.(next).

(** A call on every client of the channel. *)
Definition each_client (f : C → C) : CM () :=
  modST (λ '(h, c),
    (set_consumers (map_imap (λ id x, Some (if bool_decide (id ∈ c.(clients)) then f x else x)) h.(consumers)) h, c)).

(** [int(math.Max(1, float64(MemQueueSize)/10))] *)
Definition pqSize : nat := Nat.max 1 (opts.(MemQueueSize) / 10).

Definition initPQ : CM () :=
  _ ← upd_chan (λ c, set_inFlightPQ (IFPQ.newInFlightPqueue pqSize) (set_inFlightMessages ∅ c));
  upd_chan (λ c, set_deferredPQ (PQ.New pqSize) (set_deferredMessages ∅ c)).

(** [getBackendName] (nsqd/dqname.go): "<topic>:<channel>". *)
Definition getBackendName (topicName channelName : bytes) : bytes :=
  topicName ++ bytes_of_string ":" ++ channelName.

(** [NewChannel]; [diskqueue_New] opens the third-party disk queue of a name
    and [e2e] is the quantile stream, if the options ask for one. *)
Definition NewChannel (diskqueue_New : bytes → D) (e2e : option Q) (topic channel : bytes) (h : heap C) : option state :=
  let eph := Names.HasSuffix channel Names.ephemeral_suffix in
  let b := if eph then Dummy newDummyBackendQueue else Disk (diskqueue_New (getBackendName topic channel)) in
  let c := mkChannel 0 0 0 topic channel b [] false ∅ false eph false e2e
             ∅ (PQ.New 0) ∅ (IFPQ.newInFlightPqueue 0) in
  '(_, s) ← (_ ← initPQ; log Notify) (h, c);
  Some s.

Definition Exiting : CM bool := '(_, c) ← getST; mret c.(exitFlag).

(** [Depth]: memory plus backend, on [int64]. *)
Definition Depth (s : state) : Z :=
  i64 (Z.of_nat (length s.2.(memoryMsgChan)) + bq_Depth s.2.(backend_)).

(** ** Queueing a message *)

(** The send succeeds when the buffered channel has room. *)
Definition put (x : loc) : CM (option string) :=
  '(h, c) ← getST;
  if bool_decide (length c.(memoryMsgChan) < opts.(MemQueueSize))%nat then
    _ ← upd_chan (λ c, set_memoryMsgChan (c.(memoryMsgChan) ++ [x]) c);
    mret None
  else
    m ← get_msg x;
    let '(err, b) := writeMessageToBackend m c.(backend_) in
    _ ← upd_chan (set_backend_ b);
    _ ← log (SetHealth err);
    mret err.

Definition PutMessage (x : loc) : CM (option string) :=
  e ← Exiting;
  if e : bool then mret (Some "exiting"%string) else
  err ← put x;
  match err with
  | Some e => mret (Some e)
  | None => _ ← upd_chan (λ c, set_messageCount (u64 (c.(messageCount) + 1)) c); mret None
  end.

(** ** The in-flight map and queue *)

Definition pushInFlightMessage (x : loc) : CM (option string) :=
  m ← get_msg x;
  '(_, c) ← getST;
  match c.(inFlightMessages) !! m.(ID) with
  | Some _ => mret (Some "ID already in flight"%string)
  | None => _ ← upd_chan (λ c, set_inFlightMessages (<[m.(ID) := x]> c.(inFlightMessages)) c); mret None
  end.

Definition popInFlightMessage (cid : Z) (id : MessageID) : CM (res string loc) :=
  '(_, c) ← getST;
  match c.(inFlightMessages) !! id with
  | None => mret (Err "ID not in flight"%string)
  | Some x =>
    m ← get_msg x;
    if negb (m.(clientID) =? cid) then mret (Err "client does not own message"%string) else
    _ ← upd_chan (λ c, set_inFlightMessages (delete id c.(inFlightMessages)) c);
    mret (Ok x)
  end.

(** Running an operation of the in-flight queue on the shared messages. *)
Definition on_ifpq {A} (f : mstore * inFlightPqueue → option (mstore * inFlightPqueue * A)) : CM A :=
  '(h, c) ← getST;
  '(st, pq, a) ← liftST (f (h.(msgs), c.(inFlightPQ)));
  _ ← upd_heap (set_msgs st);
  _ ← upd_chan (set_inFlightPQ pq);
  mret a.

Definition addToInFlightPQ (x : loc) : CM () :=
  on_ifpq (λ s, s ← IFPQ.Push x s; Some (s, ())).

Definition removeFromInFlightPQ (x : loc) : CM () :=
  m ← get_msg x;
  if m.(index) =? -1 then mret () else
  if m.(index) <? 0 then panic else
  _ ← on_ifpq (IFPQ.Remove (Z.to_nat m.(index)));
  mret ().

Definition StartInFlightTimeout (now : time) (x : loc) (cid : Z) (timeout : duration) : CM (option string) :=
  m ← get_msg x;
  _ ← put_msg x (set_pri (UnixNano (time_add now timeout)) (set_deliveryTS now (set_clientID cid m)));
  err ← pushInFlightMessage x;
  match err with
  | Some e => mret (Some e)
  | None => _ ← addToInFlightPQ x; mret None
  end.

(** ** The deferred map and queue *)

Definition get_item (i : loc) : CM Item := '(h, _) ← getST; liftST (h.(items) !! i).

Definition pushDeferredMessage (i : loc) : CM (option string) :=
  it ← get_item i;
  m ← get_msg it.(Value);
  '(_, c) ← getST;
  match c.(deferredMessages) !! m.(ID) with
  | Some _ => mret (Some "ID already deferred"%string)
  | None => _ ← upd_chan (λ c, set_deferredMessages (<[m.(ID) := i]> c.(deferredMessages)) c); mret None
  end.

Definition popDeferredMessage (id : MessageID) : CM (res string loc) :=
  '(_, c) ← getST;
  match c.(deferredMessages) !! id with
  | None => mret (Err "ID not deferred"%string)
  | Some i => _ ← upd_chan (λ c, set_deferredMessages (delete id c.(deferredMessages)) c); mret (Ok i)
  end.

Definition on_dfpq {A} (f : istore * PriorityQueue → option (istore * PriorityQueue * A)) : CM A :=
  '(h, c) ← getST;
  '(st, pq, a) ← liftST (f (h.(items), c.(deferredPQ)));
  _ ← upd_heap (set_items st);
  _ ← upd_chan (set_deferredPQ pq);
  mret a.

Definition addToDeferredPQ (i : loc) : CM () :=
  on_dfpq (λ s, s ← PQ.heap_Push i s; Some (s, ())).

Definition StartDeferredTimeout (now : time) (x : loc) (timeout : duration) : CM (option string) :=
  let absTs := UnixNano (time_add now timeout) in
  item ← new_item (mkItem x absTs 0);
  err ← pushDeferredMessage item;
  match err with
  | Some e => mret (Some e)
  | None => _ ← addToDeferredPQ item; mret None
  end.

Definition PutMessageDeferred (now : time) (x : loc) (timeout : duration) : CM () :=
  _ ← upd_chan (λ c, set_messageCount (u64 (c.(messageCount) + 1)) c);
  _ ← StartDeferredTimeout now x timeout;
  mret ().

(** ** What consumers ask *)

Definition TouchMessage (now : time) (cid : Z) (id : MessageID) (clientMsgTimeout : duration) :
    CM (option string) :=
  r ← popInFlightMessage cid id;
  match r with
  | Err e => mret (Some e)
  | Ok x =>
    _ ← removeFromInFlightPQ x;
    m ← get_msg x;
    let newTimeout := time_add now clientMsgTimeout in
    let newTimeout :=
      if time_sub newTimeout m.(deliveryTS) >=? opts.(MaxMsgTimeout)
      then time_add m.(deliveryTS) opts.(MaxMsgTimeout) else newTimeout in
    _ ← put_msg x (set_pri (UnixNano newTimeout) m);
    err ← pushInFlightMessage x;
    match err with
    | Some e => mret (Some e)
    | None => _ ← addToInFlightPQ x; mret None
    end
  end.

Definition FinishMessage (cid : Z) (id : MessageID) : CM (option string) :=
  r ← popInFlightMessage cid id;
  match r with
  | Err e => mret (Some e)
  | Ok x =>
    _ ← removeFromInFlightPQ x;
    m ← get_msg x;
    _ ← upd_chan (λ c, set_e2eProcessingLatencyStream (q_Insert m.(Timestamp) <$> c.(e2eProcessingLatencyStream)) c);
    mret None
  end.

Definition RequeueMessage (now : time) (cid : Z) (id : MessageID) (timeout : duration) : CM (option string) :=
  r ← popInFlightMessage cid id;
  match r with
  | Err e => mret (Some e)
  | Ok x =>
    _ ← removeFromInFlightPQ x;
    _ ← upd_chan (λ c, set_requeueCount (u64 (c.(requeueCount) + 1)) c);
    if timeout =? 0 then
      e ← Exiting;
      if e : bool then mret (Some "exiting"%string) else put x
    else StartDeferredTimeout now x timeout
  end.

(** ** Clients *)

Definition AddClient (cid : Z) : CM (option string) :=
  '(_, c) ← getST;
  if bool_decide (cid ∈ c.(clients)) then mret None else
  if negb (opts.(MaxChannelConsumers) =? 0) && (opts.(MaxChannelConsumers) <=? Z.of_nat (size c.(clients)))
  then mret (Some "E_TOO_MANY_CHANNEL_CONSUMERS"%string)
  else _ ← upd_chan (λ c, set_clients ({[cid]} ∪ c.(clients)) c); mret None.

Definition RemoveClient (cid : Z) : CM () :=
  '(_, c) ← getST;
  if negb (bool_decide (cid ∈ c.(clients))) then mret () else
  _ ← upd_chan (λ c, set_clients (c.(clients) ∖ {[cid]}) c);
  '(_, c) ← getST;
  if bool_decide (size c.(clients) = 0)%nat && c.(ephemeral) then
    (* the callback runs once *)
    if c.(deleter_done) then mret ()
    else _ ← upd_chan (set_deleter_done true); log DeleteCallback
  else mret ().

Definition doPause (pause : bool) : CM () :=
  _ ← upd_chan (set_paused pause);
  each_client (if pause then cons_Pause else cons_UnPause).
Definition Pause : CM () := doPause true.
Definition UnPause : CM () := doPause false.

(** ** Emptying and closing *)

Definition Empty : CM (option string) :=
  _ ← initPQ;
  _ ← each_client cons_Empty;
  _ ← upd_chan (set_memoryMsgChan []);
  '(_, c) ← getST;
  let '(err, b) := bq_Empty c.(backend_) in
  _ ← upd_chan (set_backend_ b);
  mret err.

(** A write whose error is only logged. *)
Definition write_logged (x : loc) : CM () :=
  m ← get_msg x;
  '(_, c) ← getST;
  let '(_, b) := writeMessageToBackend m c.(backend_) in
  upd_chan (set_backend_ b).

Fixpoint write_all (xs : list loc) : CM () :=
  match xs with
  | [] => mret ()
  | x :: xs => _ ← write_logged x; write_all xs
  end.

(** The messages in memory, then the in-flight and the deferred ones. *)
Definition flush : CM () :=
  '(_, c) ← getST;
  _ ← upd_chan (set_memoryMsgChan []);
  _ ← write_all c.(memoryMsgChan);
  '(_, c) ← getST;
  _ ← write_all (range (map_to_list c.(inFlightMessages)).*2);
  '(h, c) ← getST;
  xs ← liftST (mapM (λ i, Value <$> h.(items) !! i) (range (map_to_list c.(deferredMessages)).*2));
  write_all xs.

Definition exit (deleted : bool) : CM (option string) :=
  '(_, c) ← getST;
  if c.(exitFlag) then mret (Some "exiting"%string) else
  _ ← upd_chan (set_exitFlag true);
  _ ← whenST deleted (log Notify);
  _ ← each_client cons_Close;
  if deleted then
    _ ← Empty;
    '(_, c) ← getST;
    let '(err, b) := bq_Delete c.(backend_) in
    _ ← upd_chan (set_backend_ b);
    mret err
  else
    _ ← flush;
    '(_, c) ← getST;
    let '(err, b) := bq_Close c.(backend_) in
    _ ← upd_chan (set_backend_ b);
    mret err.

Definition Delete : CM (option string) := exit true.
Definition Close : CM (option string) := exit false.

(** ** The queue scan *)

(** Every round takes one element out of the queue, so its length bounds the
    rounds. *)
Fixpoint processDeferredQueue_loop (fuel : nat) (t : Z) (dirty : bool) : CM bool :=
  match fuel with
  | O => panic
  | S fuel =>
    '(item, _) ← on_dfpq (PQ.PeekAndShift t);
    match item with
    | None => mret dirty
    | Some i =>
      it ← get_item i;
      m ← get_msg it.(Value);
      r ← popDeferredMessage m.(ID);
      match r with
      | Err _ => mret true
      | Ok _ => _ ← put it.(Value); processDeferredQueue_loop fuel t true
      end
    end
  end.

Definition processDeferredQueue (t : Z) : CM bool :=
  e ← Exiting;
  if e : bool then mret false else
  '(_, c) ← getST;
  processDeferredQueue_loop (S (length c.(deferredPQ).(qslice))) t false.

Fixpoint processInFlightQueue_loop (fuel : nat) (t : Z) (dirty : bool) : CM bool :=
  match fuel with
  | O => panic
  | S fuel =>
    '(msg, _) ← on_ifpq (IFPQ.PeekAndShift t);
    match msg with
    | None => mret dirty
    | Some x =>
      m ← get_msg x;
      r ← popInFlightMessage m.(clientID) m.(ID);
      match r with
      | Err _ => mret true
      | Ok _ =>
        _ ← upd_chan (λ c, set_timeoutCount (u64 (c.(timeoutCount) + 1)) c);
        _ ← modST (λ '(h, c),
              (if bool_decide (m.(clientID) ∈ c.(clients))
               then set_consumers (alter cons_TimedOutMessage m.(clientID) h.(consumers)) h else h, c));
        _ ← put x;
        processInFlightQueue_loop fuel t true
      end
    end
  end.

Definition processInFlightQueue (t : Z) : CM bool :=
  e ← Exiting;
  if e : bool then mret false else
  '(_, c) ← getST;
  processInFlightQueue_loop (S (length c.(inFlightPQ).(slice))) t false.

(** ** Taking a message out for delivery

    The two receives of [messagePump] (nsqd/protocol_v2.go): from the memory
    channel, and from the backend, whose bytes are decoded into a new
    message. *)
Definition recv_memory : CM (option loc) :=
  '(_, c) ← getST;
  match c.(memoryMsgChan) with
  | [] => mret None
  | x :: xs => _ ← upd_chan (set_memoryMsgChan xs); mret (Some x)
  end.

Definition recv_backend : CM (option (res string loc)) :=
  '(_, c) ← getST;
  match bq_Recv c.(backend_) with
  | None => mret None
  | Some (b, bq) =>
    _ ← upd_chan (set_backend_ bq);
    match decodeMessage b with
    | Err e => mret (Some (Err e))
    | Ok m => x ← new_msg m; mret (Some (Ok x))
    end
  end.

(** [msg.Attempts++; subChannel.StartInFlightTimeout(msg, client.ID, msgTimeout)] *)
Definition deliver (now : time) (x : loc) (cid : Z) (timeout : duration) : CM (option string) :=
  m ← get_msg x;
  _ ← put_msg x (set_Attempts (u16 (m.(Attempts) + 1)) m);
  StartInFlightTimeout now x cid timeout.

End channel.
End Channel.
