(* ===== verification/ChannelProofs.v ===== *)
(** * Channels keep their messages

    The invariant of a channel (its maps and its queues agree and own their
    messages disjointly), that every operation preserves it without a panic,
    and what each operation does to the messages the channel holds. *)
From stdpp Require Import base gmap list strings.
From Stdlib Require Import ZArith Lia.
From S2P Require Import Prelude.
From S2P Require Import Message.
From S2P Require Import Heap.
From S2P Require Import InFlightPQ.
From S2P Require Import PQueue.
From S2P Require Import DiskQueue.
From S2P Require Import Backend.
From S2P Require Import Channel.
Set Default Goal Selector "!".
Local Open Scope Z_scope.

Module ChannelP.
Import Channel.

(** What identifies a queued message: everything but the attempts counter. *)
Definition sig (b : bytes) : bytes := take 8 b ++ drop 10 b.
Definition msg_sig (m : Message) : bytes := sig (encode_message m).
Definition sig_at (st : mstore) (x : loc) : bytes := default [] (msg_sig <$> st !! x).

(** Messages fit into an [int32] length. *)
Definition small (m : Message) : Prop := Z.of_nat (length (encode_message m)) < 2 ^ 31.

Lemma erase_inv (st st' : mstore) y m' :
  erase st' = erase st → st' !! y = Some m' → ∃ m, st !! y = Some m ∧ ∃ k, m' = set_index k m.
Proof.
  intros E%(erase_lookup _ _ y) Hm. rewrite Hm in E. destruct (st !! y) as [m|]; [|done].
  cbn in E. injection E as E. exists m. split; [done|]. exists m'.(index).
  destruct m', m. unfold set_index in *. cbn in *. by simplify_eq.
Qed.

Lemma erase_Some (st st' : mstore) y m :
  erase st' = erase st → st !! y = Some m → ∃ i, st' !! y = Some (set_index i m).
Proof.
  intros E%(erase_lookup _ _ y) Hm. rewrite Hm in E. destruct (st' !! y) as [m'|]; [|done].
  cbn in E. injection E as E. exists m'.(index).
  destruct m', m. unfold set_index in *. cbn in *. by simplify_eq.
Qed.

Lemma erase_None (st st' : mstore) y : erase st' = erase st → st !! y = None → st' !! y = None.
Proof. intros E%(erase_lookup _ _ y) Hm. rewrite Hm in E. by destruct (st' !! y). Qed.

Lemma sig_at_erase st st' y : erase st' = erase st → sig_at st' y = sig_at st y.
Proof.
  intros E. unfold sig_at. destruct (st !! y) as [m|] eqn:Hm.
  - by destruct (erase_Some st st' y m E Hm) as [i ->].
  - by rewrite (erase_None st st' y E Hm).
Qed.

Lemma sig_at_msg st x m : st !! x = Some m → sig_at st x = msg_sig m.
Proof. intros E. unfold sig_at. by rewrite E. Qed.

Section proofs.
Context {C D Q : Type} `{Consumer C, !BackendQueue D, !BackendLaws D, QuantileStream Q}.
Context (opts : options) (range : ∀ {A : Type}, list A → list A).
Hypothesis range_perm : ∀ A (l : list A), range A l ≡ₚ l.

Notation state := (@state C D Q).

Definition dvals (s : state) : list loc :=
  omap (λ i, Value <$> s.1.(items) !! i) s.2.(deferredPQ).(qslice).

(** The messages the channel owns. *)
Definition owned (s : state) : list loc :=
  s.2.(memoryMsgChan) ++ s.2.(inFlightPQ).(slice) ++ dvals s.

Record chan_ok (s : state) : Prop := {
  ck_ifpq : IFPQ.pq_ok (s.1.(msgs), s.2.(inFlightPQ));
  ck_ifmap : ∀ id x, s.2.(inFlightMessages) !! id = Some x ↔
    x ∈ s.2.(inFlightPQ).(slice) ∧ ∃ m, s.1.(msgs) !! x = Some m ∧ m.(ID) = id;
  ck_dfpq : PQ.pq_ok (s.1.(items), s.2.(deferredPQ));
  ck_dfmap : ∀ id i, s.2.(deferredMessages) !! id = Some i ↔
    i ∈ s.2.(deferredPQ).(qslice) ∧ ∃ it m, s.1.(items) !! i = Some it ∧
      s.1.(msgs) !! it.(Value) = Some m ∧ m.(ID) = id;
  ck_live : ∀ x, x ∈ owned s → is_Some (s.1.(msgs) !! x);
  ck_nodup : NoDup (owned s);
  ck_fresh : ∀ x, (s.1.(next) <= x)%nat → s.1.(msgs) !! x = None ∧ s.1.(items) !! x = None;
  ck_small : ∀ x m, s.1.(msgs) !! x = Some m → small m;
}.

(** A message that is on its way: it exists and nobody owns it. *)
Definition loose (s : state) (x : loc) : Prop := is_Some (s.1.(msgs) !! x) ∧ x ∉ owned s.

Definition contents (s : state) : list bytes := sig_at s.1.(msgs) <$> owned s.

(** The channel holds the messages [l], and its backend can serve [n] more
    calls. *)
Definition holds (n : nat) (s : state) (l : list bytes) : Prop :=
  ∃ q, bq_rep n s.2.(backend_) q ∧ l ≡ₚ contents s ++ (sig <$> q).

#[export] Instance holds_proper n s : Proper ((≡ₚ) ==> iff) (holds n s).
Proof.
  intros l l' E. unfold holds. split; intros (q & ? & ?); exists q; (split; [done|]);
    [by rewrite <- E|by rewrite E].
Qed.

Lemma holds_weaken n n' s l : (n' <= n)%nat → holds n s l → holds n' s l.
Proof. intros Hn (q & Hq & E). exists q. split; [by eapply bq_rep_weaken|done]. Qed.

(** ** Stores that agree up to index fields *)

Lemma pq_ok_frame (st st' : mstore) pq :
  (∀ x, x ∈ pq.(slice) → st' !! x = st !! x) → IFPQ.pq_ok (st, pq) → IFPQ.pq_ok (st', pq).
Proof.
  intros Hst [Hi Hh Hc Hl]. cbn in *. split; cbn; [| |done|done].
  - intros i x Hx. cbn in Hx. rewrite Hst by (by eapply list_elem_of_lookup_2). exact (Hi i x Hx).
  - unfold heap_ok in *. eapply heap_upto_ext; [|exact Hh]. cbn. intros i Hi'.
    unfold key, pri_at. cbn. destruct (slice pq !! i) as [x|] eqn:Hx; [|done]. cbn.
    by rewrite Hst by (by eapply list_elem_of_lookup_2).
Qed.

Lemma slice_live s x : IFPQ.pq_ok (s.1.(msgs), s.2.(inFlightPQ)) → x ∈ (s : state).2.(inFlightPQ).(slice) →
  ∃ i m, s.2.(inFlightPQ).(slice) !! i = Some x ∧ s.1.(msgs) !! x = Some m ∧ m.(index) = Z.of_nat i.
Proof.
  intros [Hi _ _ _] [i Hx]%list_elem_of_lookup. destruct (Hi i x Hx) as (m & Hm & Hidx). by exists i, m.
Qed.

Lemma owned_slice s x : x ∈ (s : state).2.(inFlightPQ).(slice) → x ∈ owned s.
Proof. intros. unfold owned. rewrite !elem_of_app. by right; left. Qed.

Lemma contents_owned s s' l :
  erase (s' : state).1.(msgs) = erase (s : state).1.(msgs) → owned s ≡ₚ l ++ owned s' →
  contents s ≡ₚ (sig_at s.1.(msgs) <$> l) ++ contents s'.
Proof.
  intros He Hp. unfold contents. rewrite Hp, fmap_app. f_equiv.
  by erewrite list_fmap_ext by (intros; symmetry; apply sig_at_erase; exact He).
Qed.

(** ** Taking a message out of flight *)

Record taken (s s' : state) (x : loc) (id : MessageID) : Prop := {
  tk_ok : chan_ok s';
  tk_owned : owned s ≡ₚ x :: owned s';
  tk_erase : erase s'.1.(msgs) = erase s.1.(msgs);
  tk_map : s'.2.(inFlightMessages) = delete id s.2.(inFlightMessages);
  tk_slice : s.2.(inFlightPQ).(slice) ≡ₚ x :: s'.2.(inFlightPQ).(slice);
  tk_heap : ∃ st, s'.1 = set_msgs st s.1;
  tk_chan : ∃ pq, s'.2 = set_inFlightPQ pq (set_inFlightMessages (delete id s.2.(inFlightMessages)) s.2);
}.

(** The state after both the map and the queue have given [x] up. *)
Lemma taken_intro s st pq x id m :
  chan_ok s → s.2.(inFlightMessages) !! id = Some x → s.1.(msgs) !! x = Some m →
  IFPQ.pq_ok (st, pq) → removed (IFPQ.hs (s.1.(msgs), s.2.(inFlightPQ))) (IFPQ.hs (st, pq)) x →
  taken s (set_msgs st s.1, set_inFlightPQ pq (set_inFlightMessages (delete id s.2.(inFlightMessages)) s.2)) x id.
Proof.
  intros [Hif Hifm Hdf Hdfm Hlive Hnd Hfr Hsm] Hx Hm Hpq [Hp _ _ He _ _]. cbn [IFPQ.hs fst snd] in Hp, He.
  set (s' := (set_msgs st s.1, _)).
  assert (Hown : owned s ≡ₚ x :: owned s').
  { unfold owned, dvals, s'. cbn. rewrite Hp. cbn [app]. by rewrite <- Permutation_middle. }
  assert (HIDs : ∀ y, (∃ m, st !! y = Some m ∧ m.(ID) = id) ↔ ∃ m, s.1.(msgs) !! y = Some m ∧ m.(ID) = id).
  { intros y. split.
    - intros (m' & Hm' & <-). destruct (erase_inv _ _ _ _ He Hm') as (m0 & ? & k0 & ->). by exists m0.
    - intros (m' & Hm' & <-). destruct (erase_Some _ _ _ _ He Hm') as (i & ?). eexists. by split. }
  assert (HID : m.(ID) = id) by (apply Hifm in Hx as (_ & m' & ? & ?); by simplify_eq).
  assert (Hnds : x ∉ pq.(slice)).
  { assert (NoDup (s.2.(inFlightPQ).(slice))) as Hs by (by apply NoDup_app in Hnd as (_ & _ & [? _]%NoDup_app)).
    rewrite Hp in Hs. by apply NoDup_cons in Hs as [? _]. }
  split; [|done|done|done|done|by eexists|by eexists].
  split; try done; unfold s'; cbn [fst snd]; cbn.
  - intros id' y. rewrite lookup_delete_Some, Hifm, Hp, elem_of_cons. split.
    + intros (Hne & [->|Hy] & m' & Hm' & <-); [congruence|]. split; [done|].
      destruct (erase_Some _ _ _ _ He Hm') as (i & ?). eexists. by split.
    + intros (Hy & m' & Hm' & <-). destruct (erase_inv _ _ _ _ He Hm') as (m0 & Hm0 & k0 & ->). cbn.
      split_and!; [|by right|by exists m0]. intros ->. cbn in *.
      assert (s.2.(inFlightMessages) !! m0.(ID) = Some y) as Hy'.
      { apply Hifm. rewrite Hp. split; [by apply list_elem_of_further|by exists m0]. }
      congruence.
  - intros id' i. rewrite Hdfm. split.
    + intros (Hi & it & m' & Hit & Hm' & <-). split; [done|].
      destruct (erase_Some _ _ _ _ He Hm') as (k & ?). by exists it, (set_index k m').
    + intros (Hi & it & m' & Hit & Hm' & <-). split; [done|].
      destruct (erase_inv _ _ _ _ He Hm') as (m0 & Hm0 & k0 & ->). by exists it, m0.
  - intros y Hy. destruct (Hlive y) as [m' Hm']; [rewrite Hown; by apply list_elem_of_further|].
    destruct (erase_Some _ _ _ _ He Hm') as (k & ->). by eexists.
  - rewrite Hown in Hnd. by apply NoDup_cons in Hnd as [_ ?].
  - intros y Hy. destruct (Hfr y Hy) as [Hy1 ?]. split; [by eapply erase_None|done].
  - intros y m' Hm'. destruct (erase_inv _ _ _ _ He Hm') as (m0 & Hm0 & k0 & ->). by apply (Hsm y m0).
Qed.

Lemma pop_err s cid id :
  chan_ok s →
  (s.2.(inFlightMessages) !! id = None →
     popInFlightMessage cid id s = Some (Err "ID not in flight"%string, s)) ∧
  (∀ x m, s.2.(inFlightMessages) !! id = Some x → s.1.(msgs) !! x = Some m → m.(clientID) ≠ cid →
     popInFlightMessage cid id s = Some (Err "client does not own message"%string, s)).
Proof.
  intros Hok. destruct s as [h c]. unfold popInFlightMessage, get_msg. split.
  - intros E. unfold mbind, ST_bind, getST. cbn. cbn in E. by rewrite E.
  - intros x m E Em Hne. unfold mbind, ST_bind, getST, liftST. cbn in *. rewrite E. cbn. rewrite Em. cbn.
    by rewrite (proj2 (Z.eqb_neq _ _)).
Qed.

Lemma pop_ok s cid id x m :
  s.2.(inFlightMessages) !! id = Some x → s.1.(msgs) !! x = Some m → m.(clientID) = cid →
  popInFlightMessage cid id s =
    Some (Ok x, ((s : state).1, set_inFlightMessages (delete id s.2.(inFlightMessages)) s.2)).
Proof.
  destruct s as [h c]. unfold popInFlightMessage, get_msg. cbn [fst snd]. intros E Em <-.
  unfold mbind, ST_bind, getST, liftST. rewrite E. cbn. rewrite Em. cbn. by rewrite Z.eqb_refl.
Qed.

Lemma take_ok s cid id x m :
  chan_ok s → s.2.(inFlightMessages) !! id = Some x → s.1.(msgs) !! x = Some m → m.(clientID) = cid →
  ∃ s1 s2, popInFlightMessage cid id s = Some (Ok x, s1) ∧ removeFromInFlightPQ x s1 = Some ((), s2) ∧
    taken s s2 x id.
Proof.
  intros Hok Hx Hm Hc.
  eexists. assert (Hin : x ∈ s.2.(inFlightPQ).(slice)) by (by apply (ck_ifmap _ Hok) in Hx as [? _]).
  destruct (slice_live s x (ck_ifpq _ Hok) Hin) as (i & m' & Hi & Hm' & Hidx). simplify_eq.
  destruct (IFPQ.Remove_spec (s.1.(msgs), s.2.(inFlightPQ)) i) as ([st pq] & y & E & Hy & Hpq & Hrm).
  { apply Hok. } { by eapply lookup_lt_Some. }
  cbn [snd] in Hy. rewrite Hi in Hy. injection Hy as <-.
  eexists. split_and!; [by eapply pop_ok| |by eapply taken_intro].
  unfold removeFromInFlightPQ, get_msg. destruct s as [h c]. cbn [fst snd] in *.
  unfold mbind, ST_bind, getST, liftST. rewrite Hm. cbn [mbind option_bind].
  rewrite Hidx, (proj2 (Z.eqb_neq _ _)), (proj2 (Z.ltb_ge _ _)) by lia.
  unfold on_ifpq, mbind, ST_bind, getST, liftST. cbn [inFlightPQ set_inFlightMessages].
  rewrite Nat2Z.id, E. reflexivity.
Qed.

Lemma get_msg_ok (s : state) x m : s.1.(msgs) !! x = Some m → get_msg x s = Some (m, s).
Proof. destruct s. cbn. intros E. unfold get_msg, mbind, ST_bind, getST, liftST. by rewrite E. Qed.

Lemma taken_loose s s' x id : taken s s' x id → chan_ok s → loose s' x.
Proof.
  intros T Hok. pose proof (ck_nodup _ Hok) as Hnd. rewrite (tk_owned _ _ _ _ T) in Hnd.
  apply NoDup_cons in Hnd as [Hx _]. split; [|done].
  destruct (ck_live _ Hok x) as [m Hm]; [rewrite (tk_owned _ _ _ _ T); by constructor|].
  destruct (erase_Some _ _ _ _ (tk_erase _ _ _ _ T) Hm) as (i & ->). by eexists.
Qed.

Lemma taken_contents s s' x id : taken s s' x id → contents s ≡ₚ sig_at s.1.(msgs) x :: contents s'.
Proof. intros T. exact (contents_owned s s' [x] (tk_erase _ _ _ _ T) (tk_owned _ _ _ _ T)). Qed.

Lemma taken_holds n s s' x id l :
  taken s s' x id → holds n s l → ∃ l', l ≡ₚ sig_at s.1.(msgs) x :: l' ∧ holds n s' l'.
Proof.
  intros T (q & Hq & E). exists (contents s' ++ (sig <$> q)). split.
  - by rewrite E, (taken_contents _ _ _ _ T).
  - exists q. split; [|done]. destruct (tk_chan _ _ _ _ T) as [pq ->]. done.
Qed.

(** ** Updating a loose message *)

(** Changes to messages the channel does not own. *)
Lemma chan_ok_put_msg s x m m' :
  chan_ok s → s.1.(msgs) !! x = Some m → x ∉ owned s → small m' →
  chan_ok (set_msgs (<[x := m']> s.1.(msgs)) s.1, s.2).
Proof.
  intros [Hif Hifm Hdf Hdfm Hlive Hnd Hfr Hsm] Hm Hx Hs'.
  assert (Hsl : ∀ y, y ∈ s.2.(inFlightPQ).(slice) → x ≠ y).
  { intros y Hy ->. by apply Hx, owned_slice. }
  split; cbn; try done.
  - eapply pq_ok_frame; [|exact Hif]. intros y Hy. by rewrite lookup_insert_ne by (by apply Hsl).
  - intros id y. rewrite Hifm. split; (intros [Hy ?]; split; [done|]); by rewrite ?lookup_insert_ne in * by (by apply Hsl).
  - intros id i. rewrite Hdfm.
    assert (Hne : ∀ it, i ∈ s.2.(deferredPQ).(qslice) → s.1.(items) !! i = Some it → x ≠ it.(Value)).
    { intros it Hi Hit ->. apply Hx. unfold owned. rewrite !elem_of_app. right; right.
      apply list_elem_of_omap. exists i. split; [done|]. by rewrite Hit. }
    split; (intros (Hi & it & m0 & Hit & Hm0 & ?); split; [done|]; exists it, m0; split; [done|]);
      by rewrite ?lookup_insert_ne in * by (by apply Hne).
  - intros y Hy. destruct (decide (x = y)) as [->|]; [rewrite lookup_insert_eq; by eexists|].
    rewrite lookup_insert_ne by done. by apply Hlive.
  - intros y Hy. destruct (Hfr y Hy) as [Hy1 Hy2]. split; [|done].
    rewrite lookup_insert_ne; [done|]. intros ->. congruence.
  - intros y m0. rewrite lookup_insert_Some. intros [[_ <-]|[_ ?]]; [done|by eapply Hsm].
Qed.

Lemma contents_put_msg s x m' :
  x ∉ owned s → contents (set_msgs (<[x := m']> s.1.(msgs)) s.1, s.2) = contents s.
Proof.
  intros Hx. unfold contents. change (owned (_, _)) with (owned s). apply list_fmap_ext.
  intros i y Hy. unfold sig_at. cbn. rewrite lookup_insert_ne; [done|].
  intros ->. apply Hx. by eapply list_elem_of_lookup_2.
Qed.

(** ** Putting a message in flight *)

Record added (s s' : state) (x : loc) (id : MessageID) : Prop := {
  ad_ok : chan_ok s';
  ad_owned : owned s' ≡ₚ x :: owned s;
  ad_erase : erase s'.1.(msgs) = erase s.1.(msgs);
  ad_map : s'.2.(inFlightMessages) = <[id := x]> s.2.(inFlightMessages);
  ad_slice : s'.2.(inFlightPQ).(slice) ≡ₚ x :: s.2.(inFlightPQ).(slice);
  ad_heap : ∃ st, s'.1 = set_msgs st s.1;
  ad_chan : ∃ pq, s'.2 = set_inFlightPQ pq (set_inFlightMessages (<[id := x]> s.2.(inFlightMessages)) s.2);
}.

Lemma added_intro s st pq x m :
  chan_ok s → x ∉ owned s → s.1.(msgs) !! x = Some m → s.2.(inFlightMessages) !! m.(ID) = None →
  IFPQ.pq_ok (st, pq) → inserted (IFPQ.hs (s.1.(msgs), s.2.(inFlightPQ))) (IFPQ.hs (st, pq)) x →
  added s (set_msgs st s.1,
           set_inFlightPQ pq (set_inFlightMessages (<[m.(ID) := x]> s.2.(inFlightMessages)) s.2)) x m.(ID).
Proof.
  intros [Hif Hifm Hdf Hdfm Hlive Hnd Hfr Hsm] Hx Hm Hnone Hpq [Hp _ _ He _]. cbn [IFPQ.hs fst snd] in Hp, He.
  set (s' := (set_msgs st s.1, _)).
  assert (Hown : owned s' ≡ₚ x :: owned s).
  { unfold owned, dvals, s'. cbn. rewrite Hp. cbn [app]. by rewrite <- Permutation_middle. }
  split; [|done|done|done|done|by eexists|by eexists].
  split; try done; unfold s'; cbn [fst snd]; cbn.
  - intros id' y. rewrite lookup_insert_Some, Hifm, Hp, elem_of_cons. split.
    + intros [[<- <-]|(Hne & Hy & m' & Hm' & <-)].
      * split; [by left|]. destruct (erase_Some _ _ _ _ He Hm) as (i & ?). eexists. by split.
      * split; [by right|]. destruct (erase_Some _ _ _ _ He Hm') as (i & ?). eexists. by split.
    + intros ([->|Hy] & m' & Hm' & <-); destruct (erase_inv _ _ _ _ He Hm') as (m0 & Hm0 & k0 & ->); cbn.
      * left. by simplify_eq.
      * right. split_and!; [|done|by exists m0]. intros Heq.
        assert (s.2.(inFlightMessages) !! m0.(ID) = Some y) as Hy' by (apply Hifm; split; [done|by exists m0]).
        rewrite Heq in Hnone. congruence.
  - intros id' i. rewrite Hdfm. split.
    + intros (Hi & it & m' & Hit & Hm' & <-). split; [done|].
      destruct (erase_Some _ _ _ _ He Hm') as (k & ?). by exists it, (set_index k m').
    + intros (Hi & it & m' & Hit & Hm' & <-). split; [done|].
      destruct (erase_inv _ _ _ _ He Hm') as (m0 & Hm0 & k0 & ->). by exists it, m0.
  - intros y Hy0. assert (y ∈ owned s') as Hy by exact Hy0. rewrite Hown, elem_of_cons in Hy.
    assert (is_Some (s.1.(msgs) !! y)) as [m' Hm'] by (destruct Hy as [->|Hy]; [by eexists|by apply Hlive]).
    destruct (erase_Some _ _ _ _ He Hm') as (k & ->). by eexists.
  - change (NoDup (owned s')). rewrite Hown. by constructor.
  - intros y Hy. destruct (Hfr y Hy) as [Hy1 ?]. split; [by eapply erase_None|done].
  - intros y m' Hm'. destruct (erase_inv _ _ _ _ He Hm') as (m0 & Hm0 & k0 & ->). by apply (Hsm y m0).
Qed.

Lemma push_inflight_err s x m y :
  s.1.(msgs) !! x = Some m → s.2.(inFlightMessages) !! m.(ID) = Some y →
  pushInFlightMessage x s = Some (Some "ID already in flight"%string, s : state).
Proof.
  destruct s as [h c]. cbn. intros Hm E. unfold pushInFlightMessage, get_msg, mbind, ST_bind, getST, liftST.
  rewrite Hm. cbn. by rewrite E.
Qed.

Lemma add_ok s x m :
  chan_ok s → x ∉ owned s → s.1.(msgs) !! x = Some m → s.2.(inFlightMessages) !! m.(ID) = None →
  ∃ s1 s2, pushInFlightMessage x s = Some (None, s1) ∧ addToInFlightPQ x s1 = Some ((), s2) ∧
    added s s2 x m.(ID).
Proof.
  intros Hok Hx Hm Hnone.
  destruct (IFPQ.Push_spec (s.1.(msgs), s.2.(inFlightPQ)) x) as ([st pq] & E & Hpq & Hins).
  { apply Hok. } { cbn. intros Hin. by apply Hx, owned_slice. } { cbn. by eexists. }
  set (c1 := set_inFlightMessages (<[m.(ID) := x]> s.2.(inFlightMessages)) s.2).
  exists (s.1, c1), (set_msgs st s.1, set_inFlightPQ pq c1). split_and!; [| |by eapply added_intro].
  - destruct s as [h c]. cbn in *. unfold pushInFlightMessage, get_msg, mbind, ST_bind, getST, liftST.
    rewrite Hm. cbn. by rewrite Hnone.
  - destruct s as [h c]. cbn [fst snd] in *.
    unfold c1, addToInFlightPQ, on_ifpq, mbind, ST_bind, getST, liftST. cbn [inFlightPQ set_inFlightMessages].
    cbn [fst snd inFlightPQ set_inFlightMessages]. rewrite E. reflexivity.
Qed.

Lemma added_contents s s' x id : added s s' x id → contents s' ≡ₚ sig_at s.1.(msgs) x :: contents s.
Proof.
  intros T. rewrite (contents_owned s' s [x] (eq_sym (ad_erase _ _ _ _ T)) (ad_owned _ _ _ _ T)). cbn [fmap list_fmap app]. by rewrite (sig_at_erase _ _ _ (ad_erase _ _ _ _ T)).
Qed.

Lemma added_holds n s s' x id l :
  added s s' x id → holds n s l → holds n s' (sig_at s.1.(msgs) x :: l).
Proof.
  intros T (q & Hq & E). exists q. split.
  - destruct (ad_chan _ _ _ _ T) as [pq ->]. done.
  - by rewrite (added_contents _ _ _ _ T), E.
Qed.

(** ** The deferred queue *)

Lemma item_inv (st st' : istore) i it' :
  erase st' = erase st → st' !! i = Some it' → ∃ it, st !! i = Some it ∧ ∃ k, it' = set_Index k it.
Proof.
  intros E%(erase_lookup _ _ i) Hi. rewrite Hi in E. destruct (st !! i) as [it|]; [|done].
  cbn in E. injection E as E. exists it. split; [done|]. exists it'.(Index).
  destruct it', it. unfold set_Index in *. cbn in *. by simplify_eq.
Qed.

Lemma item_Some (st st' : istore) i it :
  erase st' = erase st → st !! i = Some it → ∃ k, st' !! i = Some (set_Index k it).
Proof.
  intros E%(erase_lookup _ _ i) Hi. rewrite Hi in E. destruct (st' !! i) as [it'|]; [|done].
  cbn in E. injection E as E. exists it'.(Index).
  destruct it', it. unfold set_Index in *. cbn in *. by simplify_eq.
Qed.

Lemma item_value (st st' : istore) i : erase st' = erase st → Value <$> st' !! i = Value <$> st !! i.
Proof.
  intros E. destruct (st !! i) as [it|] eqn:Hi.
  - by destruct (item_Some _ _ _ _ E Hi) as [k ->].
  - apply (erase_lookup _ _ i) in E. rewrite Hi in E. by destruct (st' !! i).
Qed.

Lemma dvals_eq (st st' : istore) (l : list loc) :
  erase st' = erase st → omap (λ i, Value <$> st' !! i) l = omap (λ i, Value <$> st !! i) l.
Proof. intros E. induction l as [|i l IH]; cbn; [done|]. by rewrite (item_value st st' i E), IH. Qed.

Lemma on_dfpq_ok {A} (f : istore * PriorityQueue → option (istore * PriorityQueue * A)) (s : state) st pq a :
  f (s.1.(items), s.2.(deferredPQ)) = Some (st, pq, a) →
  on_dfpq f s = Some (a, (set_items st s.1, set_deferredPQ pq s.2)).
Proof. destruct s. cbn. intros E. unfold on_dfpq, mbind, ST_bind, getST, liftST. by rewrite E. Qed.

Lemma on_ifpq_ok {A} (f : mstore * inFlightPqueue → option (mstore * inFlightPqueue * A)) (s : state) st pq a :
  f (s.1.(msgs), s.2.(inFlightPQ)) = Some (st, pq, a) →
  on_ifpq f s = Some (a, (set_msgs st s.1, set_inFlightPQ pq s.2)).
Proof. destruct s. cbn. intros E. unfold on_ifpq, mbind, ST_bind, getST, liftST. by rewrite E. Qed.

Lemma dpq_ok_frame (st st' : istore) pq :
  (∀ i, i ∈ pq.(qslice) → st' !! i = st !! i) → PQ.pq_ok (st, pq) → PQ.pq_ok (st', pq).
Proof.
  intros Hst [Hi Hh Hc Hl]. cbn in *. split; cbn; [| |done|done].
  - intros k i Hk. cbn in Hk. rewrite Hst by (by eapply list_elem_of_lookup_2). exact (Hi k i Hk).
  - unfold heap_ok in *. eapply heap_upto_ext; [|exact Hh]. cbn. intros k Hk.
    unfold key, pri_at. cbn. destruct (qslice pq !! k) as [i|] eqn:Hi'; [|done]. cbn.
    by rewrite Hst by (by eapply list_elem_of_lookup_2).
Qed.

Record added_deferred (s s' : state) (x : loc) (id : MessageID) : Prop := {
  dd_ok : chan_ok s';
  dd_owned : owned s' ≡ₚ x :: owned s;
  dd_msgs : s'.1.(msgs) = s.1.(msgs);
  dd_map : ∃ i, s'.2.(deferredMessages) = <[id := i]> s.2.(deferredMessages) ∧
    Value <$> s'.1.(items) !! i = Some x;
  dd_chan : ∃ pq dm, s'.2 = set_deferredPQ pq (set_deferredMessages dm s.2);
  dd_heap : s'.1.(consumers) = s.1.(consumers) ∧ s'.1.(ctx_log) = s.1.(ctx_log);
}.

Definition deferred_item (now : time) (x : loc) (timeout : duration) : Item :=
  mkItem x (UnixNano (time_add now timeout)) 0.

(** The heap after [&pqueue.Item{...}]. *)
Definition alloc_item (it : Item) (h : heap C) : heap C :=
  set_next (S h.(next)) (set_items (<[h.(next) := it]> h.(items)) h).

Lemma chan_ok_alloc_owned s it : chan_ok s → owned (alloc_item it s.1, s.2) = owned s.
Proof.
  intros Hok. unfold owned, dvals. cbn. do 2 f_equal.
  assert (Hg : ∀ l : list loc, (∀ j, j ∈ l → s.1.(next) ≠ j) →
    omap (λ j, Value <$> <[s.1.(next):=it]> s.1.(items) !! j) l = omap (λ j, Value <$> s.1.(items) !! j) l).
  { induction l as [|j l IH]; cbn; intros Hl; [done|]. rewrite lookup_insert_ne by (apply Hl; by constructor).
    rewrite IH; [done|]. intros k Hk. apply Hl. by constructor. }
  apply Hg. intros j [k Hk]%list_elem_of_lookup <-.
  destruct (PQ.pq_indexed _ (ck_dfpq _ Hok) k _ Hk) as (v & Hv & _). cbn in Hv.
  destruct (ck_fresh _ Hok s.1.(next)) as [_ ?]; [done|]. congruence.
Qed.

Lemma chan_ok_alloc_item s it : chan_ok s → chan_ok (alloc_item it s.1, s.2).
Proof.
  intros Hok. pose proof (chan_ok_alloc_owned s it Hok) as Hown. destruct Hok as [Hif Hifm Hdf Hdfm Hlive Hnd Hfr Hsm].
  assert (Hne : ∀ i, i ∈ s.2.(deferredPQ).(qslice) → s.1.(next) ≠ i).
  { intros i [k Hk]%list_elem_of_lookup <-. destruct (PQ.pq_indexed _ Hdf k _ Hk) as (v & Hv & _).
    cbn in Hv. destruct (Hfr s.1.(next)) as [_ ?]; [done|]. congruence. }
  split; cbn [fst snd]; try rewrite Hown; cbn; try done.
  - eapply dpq_ok_frame; [|exact Hdf]. intros i Hi. by rewrite lookup_insert_ne by (by apply Hne).
  - intros id i. rewrite Hdfm. split; (intros (Hi & it' & m & Hit & ?); split; [done|]; exists it', m; split; [|done]).
    + by rewrite lookup_insert_ne by (by apply Hne).
    + by rewrite lookup_insert_ne in Hit by (by apply Hne).
  - intros x Hx. destruct (Hfr x) as [? ?]; [lia|]. split; [done|]. rewrite lookup_insert_ne; [done|lia].
Qed.

Lemma added_deferred_intro s st pq i x m it :
  chan_ok s → x ∉ owned s → s.1.(msgs) !! x = Some m → s.2.(deferredMessages) !! m.(ID) = None →
  s.1.(items) !! i = Some it → it.(Value) = x → i ∉ s.2.(deferredPQ).(qslice) →
  PQ.pq_ok (st, pq) → inserted (PQ.hs (s.1.(items), s.2.(deferredPQ))) (PQ.hs (st, pq)) i →
  added_deferred s (set_items st s.1,
     set_deferredPQ pq (set_deferredMessages (<[m.(ID) := i]> s.2.(deferredMessages)) s.2)) x m.(ID).
Proof.
  intros [Hif Hifm Hdf Hdfm Hlive Hnd Hfr Hsm] Hx Hm Hnone Hi Hval Hiq Hpq [Hp _ _ He _].
  cbn [PQ.hs fst snd] in Hp, He.
  set (s' := (set_items st s.1, _)).
  assert (Hown : owned s' ≡ₚ x :: owned s).
  { unfold owned, dvals, s'. cbn. rewrite Hp. rewrite (dvals_eq _ _ _ He). cbn. rewrite Hi. cbn. rewrite Hval.
    rewrite !app_assoc. by rewrite <- Permutation_middle. }
  split; [|done|done| |by eexists _, _|done].
  2: { exists i. split; [done|]. cbn. by rewrite (item_value _ _ _ He), Hi, <- Hval. }
  split; cbn [fst snd]; try (unfold s'; cbn; done).
  - intros id' j. unfold s'. cbn. rewrite lookup_insert_Some, Hdfm, Hp, elem_of_cons. split.
    + intros [[<- <-]|(Hne & Hj & it' & m' & Hit' & Hm' & <-)].
      * split; [by left|]. destruct (item_Some _ _ _ _ He Hi) as (k & ?). exists (set_Index k it), m.
        split_and!; [done|cbn; by rewrite Hval|done].
      * split; [by right|]. destruct (item_Some _ _ _ _ He Hit') as (k & ?). by exists (set_Index k it'), m'.
    + intros ([->|Hj] & it' & m' & Hit' & Hm' & <-); destruct (item_inv _ _ _ _ He Hit') as (it0 & Hit0 & k0 & ->); cbn in Hm'.
      * left. by simplify_eq.
      * right. split_and!; [|done|by exists it0, m']. intros Heq.
        assert (s.2.(deferredMessages) !! m'.(ID) = Some j) as Hy' by (apply Hdfm; split; [done|by exists it0, m']).
        rewrite Heq in Hnone. congruence.
  - intros y. rewrite Hown, elem_of_cons. intros [->|Hy]; [by eexists|by apply Hlive].
  - rewrite Hown. by constructor.
  - intros y Hy. unfold s' in *. cbn in *. destruct (Hfr y Hy) as [? Hy2]. split; [done|].
    apply (erase_lookup _ _ y) in He. rewrite Hy2 in He. by destruct (st !! y).
Qed.

Lemma StartDeferred_ok s now x timeout m :
  chan_ok s → x ∉ owned s → s.1.(msgs) !! x = Some m →
  match s.2.(deferredMessages) !! m.(ID) with
  | Some _ => StartDeferredTimeout now x timeout s =
      Some (Some "ID already deferred"%string, (alloc_item (deferred_item now x timeout) s.1, s.2))
  | None => ∃ s', StartDeferredTimeout now x timeout s = Some (None, s') ∧ added_deferred s s' x m.(ID)
  end.
Proof.
  intros Hok Hx Hm. set (it := deferred_item now x timeout). set (i := s.1.(next)).
  assert (Hok1 := chan_ok_alloc_item s it Hok). set (s1 := (alloc_item it s.1, s.2)) in *.
  assert (Hi : s1.1.(items) !! i = Some it) by (cbn; by rewrite lookup_insert_eq).
  assert (Hiq : i ∉ s1.2.(deferredPQ).(qslice)).
  { intros [k Hk]%list_elem_of_lookup. destruct (PQ.pq_indexed _ (ck_dfpq _ Hok) k _ Hk) as (v & Hv & _).
    cbn in Hv. destruct (ck_fresh _ Hok i) as [_ ?]; [done|]. congruence. }
  assert (E1 : new_item it s = Some (i, s1)) by (by destruct s).
  assert (E2 : pushDeferredMessage i s1 = match s.2.(deferredMessages) !! m.(ID) with
    | Some _ => Some (Some "ID already deferred"%string, s1)
    | None => Some (None, (s1.1, set_deferredMessages (<[m.(ID) := i]> s.2.(deferredMessages)) s.2))
    end).
  { unfold pushDeferredMessage, get_item, get_msg, mbind, ST_bind, getST, liftST. cbn [fst snd s1].
    cbn. fold i. unfold i at 2. rewrite lookup_insert_eq. cbn. rewrite Hm. cbn. by destruct (deferredMessages s.2 !! ID m). }
  unfold StartDeferredTimeout. cbv zeta. change (mkItem x _ 0) with it.
  destruct (deferredMessages s.2 !! ID m) as [j|] eqn:Hnone.
  - callST ltac:(exact E1). callST ltac:(exact E2). done.
  - destruct (PQ.heap_Push_spec (s1.1.(items), s1.2.(deferredPQ)) i) as ([st pq] & E & Hpq & Hins).
    { apply Hok1. } { done. } { by eexists. }
    set (s2 := (set_items st s1.1, set_deferredPQ pq (set_deferredMessages (<[m.(ID) := i]> s1.2.(deferredMessages)) s1.2))).
    exists s2. split.
    + callST ltac:(exact E1). callST ltac:(exact E2).
      unfold addToDeferredPQ. callST ltac:(apply on_dfpq_ok; cbn [fst snd deferredPQ set_deferredMessages];
        change (deferredPQ s.2) with (deferredPQ s1.2); rewrite E; reflexivity). done.
    + assert (Ho1 := chan_ok_alloc_owned s it Hok : owned s1 = owned s).
      assert (Hx1 : x ∉ owned s1) by (by rewrite Ho1).
      pose proof (added_deferred_intro s1 st pq i x m it Hok1 Hx1 Hm Hnone Hi eq_refl Hiq Hpq Hins) as A.
      destruct A as [A1 A2 A3 A4 A5 A6]. split; [done|rewrite <- Ho1; exact A2|done|done|done|done].
Qed.

Lemma added_deferred_holds n s s' x id l :
  added_deferred s s' x id → holds n s l → holds n s' (sig_at s.1.(msgs) x :: l).
Proof.
  intros T (q & Hq & E). exists q. split.
  - destruct (dd_chan _ _ _ _ T) as (pq & dm & ->). done.
  - unfold contents. rewrite (dd_owned _ _ _ _ T), (dd_msgs _ _ _ _ T). rewrite fmap_cons.
    by rewrite E.
Qed.

(** ** Queueing a message again *)

(** How many failed writes have been reported to [SetHealth]. *)
Definition is_failure (e : ctx_event) : bool :=
  match e with SetHealth (Some _) => true | _ => false end.
Definition failures (s : state) : nat := length (filter (λ e, is_failure e = true) s.1.(ctx_log)).

(** What is left of the messages [l] after an operation that moves the
    messages [xs] among them: those that were lost are among [xs], and no more
    than the failures the operation reported. *)
Record kept (n : nat) (s s' : state) (xs l : list bytes) : Prop := {
  kp_holds : ∃ l' lost, holds n s' l' ∧ l ≡ₚ lost ++ l' ∧ lost ⊆+ xs ∧
    (length lost <= failures s' - failures s)%nat;
  kp_failures : (failures s <= failures s')%nat;
}.

(** The parts of the state [put] does not touch. *)
Record put_frame (s s' : state) : Prop := {
  pf_heap : ∃ log, s'.1 = set_ctx_log log s.1;
  pf_chan : ∃ b l, s'.2 = set_backend_ b (set_memoryMsgChan l s.2);
}.

Lemma chan_ok_append s x m :
  chan_ok s → x ∉ owned s → s.1.(msgs) !! x = Some m →
  let s' := (s.1, set_memoryMsgChan (s.2.(memoryMsgChan) ++ [x]) s.2) in
  chan_ok s' ∧ owned s' ≡ₚ x :: owned s.
Proof.
  intros [Hif Hifm Hdf Hdfm Hlive Hnd Hfr Hsm] Hx Hm s'.
  assert (Hown : owned s' ≡ₚ x :: owned s).
  { unfold owned, s'. cbn. rewrite <- app_assoc. cbn. by rewrite <- Permutation_middle. }
  split; [|done]. split; try done.
  - intros y. rewrite Hown, elem_of_cons. intros [->|Hy]; [by eexists|by apply Hlive].
  - rewrite Hown. by constructor.
Qed.

Lemma failures_log (s : state) e h :
  h.(ctx_log) = s.1.(ctx_log) ++ [e] →
  failures (h, s.2) = (failures s + if is_failure e then 1 else 0)%nat.
Proof.
  intros E. unfold failures. cbn. rewrite E, filter_app, length_app. f_equal.
  destruct (is_failure e) eqn:He; [by rewrite filter_cons_True|by rewrite filter_cons_False by congruence].
Qed.

Lemma put_ok s x m :
  chan_ok s → x ∉ owned s → s.1.(msgs) !! x = Some m →
  ∃ err s', put opts x s = Some (err, s') ∧ chan_ok s' ∧ put_frame s s' ∧
    (owned s' ≡ₚ x :: owned s ∨ owned s' = owned s) ∧
    ∀ n l, holds (S n) s l →
      kept n s s' [msg_sig m] (msg_sig m :: l) ∧ (err = None → holds n s' (msg_sig m :: l)).
Proof.
  intros Hok Hx Hm. unfold put. callST ltac:(reflexivity). destruct s as [h c] eqn:Es. cbn [fst snd] in *.
  case_bool_decide as Hlen.
  - destruct (chan_ok_append s x m) as [Hok' Hown]; [by subst..|]. rewrite Es in Hok', Hown. cbn [fst snd] in *.
    eexists None, _. split_and!; [reflexivity|exact Hok'| |by left|].
    { split; [exists h.(ctx_log); by destruct h|]. exists c.(backend_), (c.(memoryMsgChan) ++ [x]). by destruct c. }
    intros n l (q & Hq & El).
    assert (Hh : holds n (h, set_memoryMsgChan (memoryMsgChan c ++ [x]) c) (msg_sig m :: l)).
    { exists q. split; [by eapply bq_rep_weaken; [|done]; lia|]. unfold contents. rewrite Hown, fmap_cons, El.
      cbn [fst msgs]. by rewrite (sig_at_msg _ _ _ Hm). }
    split; [|done]. split; [|done].
    exists (msg_sig m :: l), []. split_and!; [done|done|by apply submseteq_nil_l|cbn; lia].
  - callST ltac:(exact (get_msg_ok (h, c) x m Hm)).
    rewrite writeMessageToBackend_eq. destruct (bq_Put (encode_message m) c.(backend_)) as [err b] eqn:Ep.
    callST ltac:(reflexivity). callST ltac:(reflexivity).
    set (s' := (set_ctx_log (ctx_log h ++ [SetHealth err]) h, set_backend_ b c)).
    assert (Hfl : failures s' = (failures (h, c) + if is_failure (SetHealth err) then 1 else 0)%nat).
    { exact (failures_log (h, c) (SetHealth err) (set_ctx_log (ctx_log h ++ [SetHealth err]) h) eq_refl). }
    exists err, s'. split_and!; [done| | |by right|].
    { destruct Hok as [? ? ? ? ? ? ? ?]. by split. }
    { split; [by eexists|]. exists b, c.(memoryMsgChan). by destruct c. }
    intros n l (q & Hq & El).
    pose proof (bq_rep_Put _ _ _ _ _ _ Hq (ck_small _ Hok x m Hm) Ep) as Hput.
    assert (Hin : bq_rep n b (q ++ [encode_message m]) → holds n s' (msg_sig m :: l)).
    { intros Hb. exists (q ++ [encode_message m]). split; [done|]. rewrite fmap_app, El.
      change (contents s') with (contents (h, c)). cbn [fmap list_fmap].
      by rewrite app_assoc, (Permutation_app_comm (_ ++ _) [_]). }
    split; [|intros ->; by apply Hin]. split; [|rewrite Hfl; lia].
    destruct err as [e|]; [destruct Hput as [Hput|Hput]|].
    + exists l, [msg_sig m]. split_and!; [by exists q|done|done|rewrite Hfl; cbn; lia].
    + exists (msg_sig m :: l), []. split_and!; [by apply Hin|done|by apply submseteq_nil_l|cbn; lia].
    + exists (msg_sig m :: l), []. split_and!; [by apply Hin|done|by apply submseteq_nil_l|cbn; lia].
Qed.

Lemma kept_same n s s' xs l : holds n s' l → failures s' = failures s → kept n s s' xs l.
Proof. intros Hl E. split; [|lia]. exists l, []. split_and!; [done|done|by apply submseteq_nil_l|cbn; lia]. Qed.

Lemma kept_trans n n1 s s1 s2 xs ys l :
  kept n1 s s1 xs l → (∀ l1, holds n1 s1 l1 → kept n s1 s2 ys l1) → kept n s s2 (xs ++ ys) l.
Proof.
  intros [(l1 & lost1 & Hl1 & E1 & Hs1 & Hc1) Hf1] Hnext.
  destruct (Hnext l1 Hl1) as [(l2 & lost2 & Hl2 & E2 & Hs2 & Hc2) Hf2].
  split; [|lia]. exists l2, (lost1 ++ lost2). split_and!.
  - done.
  - by rewrite E1, E2, app_assoc.
  - by apply submseteq_app.
  - rewrite length_app. lia.
Qed.

(** ** Owners *)

Definition in_flight (s : state) (cid : Z) (id : MessageID) (x : loc) (m : Message) : Prop :=
  s.2.(inFlightMessages) !! id = Some x ∧ s.1.(msgs) !! x = Some m ∧ m.(clientID) = cid.

(** Why a request for a message of another client, or of nobody, fails. *)
Definition not_owner (s : state) (cid : Z) (id : MessageID) (e : string) : Prop :=
  (e = "ID not in flight"%string ∧ s.2.(inFlightMessages) !! id = None) ∨
  (e = "client does not own message"%string ∧
   ∃ x m, s.2.(inFlightMessages) !! id = Some x ∧ s.1.(msgs) !! x = Some m ∧ m.(clientID) ≠ cid).

Lemma pop_cases s cid id :
  chan_ok s →
  (∃ e, popInFlightMessage cid id s = Some (Err e, s) ∧ not_owner s cid id e) ∨
  (∃ x m s1 s2, in_flight s cid id x m ∧ popInFlightMessage cid id s = Some (Ok x, s1) ∧
     removeFromInFlightPQ x s1 = Some ((), s2) ∧ taken s s2 x id).
Proof.
  intros Hok. destruct (pop_err s cid id Hok) as [He1 He2].
  destruct (s.2.(inFlightMessages) !! id) as [x|] eqn:Hx.
  - pose proof Hx as Hx'. apply (ck_ifmap _ Hok) in Hx' as (Hin & m & Hm & HID).
    destruct (decide (m.(clientID) = cid)) as [Hc|Hc].
    + right. destruct (take_ok s cid id x m Hok Hx Hm Hc) as (s1 & s2 & E1 & E2 & T). by exists x, m, s1, s2.
    + left. eexists. split; [by eapply He2|]. right. split; [done|]. by exists x, m.
  - left. eexists. split; [by apply He1|]. by left.
Qed.

Lemma in_flight_ID s cid id x m : chan_ok s → in_flight s cid id x m → m.(ID) = id ∧ x ∈ s.2.(inFlightPQ).(slice).
Proof.
  intros Hok (Hx & Hm & _). apply (ck_ifmap _ Hok) in Hx as (? & m' & ? & ?). by simplify_eq.
Qed.

(** The message as it comes out of flight. *)
Lemma taken_msg s s' x id m : taken s s' x id → s.1.(msgs) !! x = Some m →
  ∃ k, s'.1.(msgs) !! x = Some (set_index k m).
Proof. intros T Hm. exact (erase_Some _ _ _ _ (tk_erase _ _ _ _ T) Hm). Qed.

Lemma taken_failures s s' x id : taken s s' x id → failures s' = failures s.
Proof. intros T. destruct (tk_heap _ _ _ _ T) as [st E]. unfold failures. by rewrite E. Qed.

Lemma FinishMessage_cases s cid id :
  chan_ok s →
  (∃ e, FinishMessage cid id s = Some (Some e, s) ∧ not_owner s cid id e) ∨
  (∃ x m s', in_flight s cid id x m ∧ FinishMessage cid id s = Some (None, s') ∧ chan_ok s' ∧
     s'.2.(inFlightMessages) = delete id s.2.(inFlightMessages) ∧ owned s ≡ₚ x :: owned s' ∧
     ∀ n l, holds n s l → ∃ l', l ≡ₚ msg_sig m :: l' ∧ holds n s' l').
Proof.
  intros Hok. unfold FinishMessage. destruct (pop_cases s cid id Hok) as [(e & E & He)|(x & m & s1 & s2 & Hif & E1 & E2 & T)].
  - left. exists e. split; [|done]. by callST ltac:(exact E).
  - right. destruct Hif as (Hx & Hm & Hc). destruct (taken_msg _ _ _ _ _ T Hm) as [k Hk].
    exists x, m. callST ltac:(exact E1). callST ltac:(exact E2). callST ltac:(exact (get_msg_ok s2 x _ Hk)).
    callST ltac:(reflexivity).
    set (s3 := let '(h, c) := s2 in _). assert (Hs3 : ∃ e2e, s3 = (s2.1, set_e2eProcessingLatencyStream e2e s2.2)).
    { exists (q_Insert (set_index k m).(Timestamp) <$> s2.2.(e2eProcessingLatencyStream)). unfold s3. by destruct s2. }
    destruct Hs3 as [e2e Hs3]. rewrite Hs3. eexists. split; [done|]. split; [done|].
    pose proof (tk_ok _ _ _ _ T) as [? ? ? ? ? ? ? ?]. split_and!; [by split|apply T|apply T|].
    intros n l Hl. destruct (taken_holds _ _ _ _ _ _ T Hl) as (l' & El & Hl'). exists l'.
    by rewrite (sig_at_msg _ _ _ Hm) in El.
Qed.

(** ** Touching *)

(** The time-out a touch sets. *)
Definition touched_pri (now : time) (timeout : duration) (m : Message) : Z :=
  let t := time_add now timeout in
  UnixNano (if time_sub t m.(deliveryTS) >=? opts.(MaxMsgTimeout)
            then time_add m.(deliveryTS) opts.(MaxMsgTimeout) else t).

Lemma small_set m m' : encode_message m' = encode_message m → small m → small m'.
Proof. unfold small. by intros ->. Qed.

(** Storing a new version of a loose message and putting it in flight. *)
Lemma reflight_ok s x m m' :
  chan_ok s → x ∉ owned s → s.1.(msgs) !! x = Some m → encode_message m' = encode_message m → m'.(ID) = m.(ID) →
  s.2.(inFlightMessages) !! m.(ID) = None →
  ∃ s1 s2 s3, put_msg x m' s = Some ((), s1) ∧ pushInFlightMessage x s1 = Some (None, s2) ∧
    addToInFlightPQ x s2 = Some ((), s3) ∧ chan_ok s3 ∧
    s3.2.(inFlightMessages) = <[m.(ID) := x]> s.2.(inFlightMessages) ∧
    (∃ k, s3.1.(msgs) !! x = Some (set_index k m')) ∧ owned s3 ≡ₚ x :: owned s ∧
    (∀ n l, holds n s l → holds n s3 (msg_sig m :: l)) ∧ failures s3 = failures s.
Proof.
  intros Hok Hx Hm Henc HID Hnone. set (s1 := (set_msgs (<[x := m']> s.1.(msgs)) s.1, s.2)).
  assert (Hok1 : chan_ok s1).
  { eapply chan_ok_put_msg; [done|done|done|]. eapply small_set; [done|]. by eapply ck_small. }
  assert (Hm1 : s1.1.(msgs) !! x = Some m') by (cbn; by rewrite lookup_insert_eq).
  destruct (add_ok s1 x m' Hok1 Hx Hm1) as (s2 & s3 & E2 & E3 & A); [by rewrite HID|].
  exists s1, s2, s3. split_and!; [by destruct s|done|done|apply A| | | | |].
  - rewrite (ad_map _ _ _ _ A), HID. done.
  - exact (erase_Some _ _ _ _ (ad_erase _ _ _ _ A) Hm1).
  - apply A.
  - intros n l (q & Hq & El). replace (msg_sig m) with (sig_at s1.1.(msgs) x).
    2: { rewrite (sig_at_msg _ _ _ Hm1). unfold msg_sig. by rewrite Henc. }
    eapply added_holds; [done|]. exists q. split; [done|]. rewrite El. f_equiv.
    symmetry. unfold s1. by rewrite (contents_put_msg s x m' Hx).
  - destruct (ad_heap _ _ _ _ A) as [st E]. unfold failures. by rewrite E.
Qed.

Lemma TouchMessage_cases s now cid id timeout :
  chan_ok s →
  (∃ e, TouchMessage opts now cid id timeout s = Some (Some e, s) ∧ not_owner s cid id e) ∨
  (∃ x m m' s', in_flight s cid id x m ∧ TouchMessage opts now cid id timeout s = Some (None, s') ∧ chan_ok s' ∧
     in_flight s' cid id x m' ∧ m'.(pri) = touched_pri now timeout m ∧ encode_message m' = encode_message m ∧
     m'.(deliveryTS) = m.(deliveryTS) ∧ owned s' ≡ₚ owned s ∧
     s'.2.(inFlightMessages) = s.2.(inFlightMessages) ∧ ∀ n l, holds n s l → holds n s' l).
Proof.
  intros Hok. unfold TouchMessage. destruct (pop_cases s cid id Hok) as [(e & E & He)|(x & m & s1 & s2 & Hif & E1 & E2 & T)].
  - left. exists e. split; [|done]. by callST ltac:(exact E).
  - right. destruct (in_flight_ID _ _ _ _ _ Hok Hif) as [HID _]. destruct Hif as (Hx & Hm & Hc).
    destruct (taken_msg _ _ _ _ _ T Hm) as [k Hk]. destruct (taken_loose _ _ _ _ T Hok) as [_ Hlo].
    set (m' := set_pri (touched_pri now timeout m) (set_index k m)).
    destruct (reflight_ok s2 x (set_index k m) m' (tk_ok _ _ _ _ T) Hlo Hk) as
      (s3 & s4 & s5 & E3 & E4 & E5 & Hok5 & Hmap & (k' & Hm5) & Hown & Hh & _); [done|done| |].
    { cbn. rewrite HID, (tk_map _ _ _ _ T). by rewrite lookup_delete_eq. }
    exists x, m, (set_index k' m'), s5. split; [done|].
    assert (Hmap5 : s5.2.(inFlightMessages) = s.2.(inFlightMessages)).
    { rewrite Hmap, (tk_map _ _ _ _ T). cbn. rewrite HID. rewrite insert_delete_eq. by apply insert_id. }
    split_and!; [|done| |done|done|done| |done|].
    + callST ltac:(exact E1). callST ltac:(exact E2). callST ltac:(exact (get_msg_ok s2 x _ Hk)).
      cbn [deliveryTS set_index]. fold (touched_pri now timeout m). change (set_pri _ (set_index k m)) with m'.
      callST ltac:(exact E3). callST ltac:(exact E4). callST ltac:(exact E5). done.
    + split_and!; [by rewrite Hmap5|done|done].
    + rewrite Hown. symmetry. apply T.
    + intros n l Hl. destruct (taken_holds _ _ _ _ _ _ T Hl) as (l' & El & Hl').
      rewrite El, (sig_at_msg _ _ _ Hm). exact (Hh n l' Hl').
Qed.

(** ** Requeueing *)

Lemma chan_ok_requeueCount h c k : chan_ok (h, c) → chan_ok (h, set_requeueCount k c).
Proof. intros [? ? ? ? ? ? ? ?]. by split. Qed.

Lemma RequeueMessage_cases s now cid id timeout :
  chan_ok s →
  (∃ e, RequeueMessage opts now cid id timeout s = Some (Some e, s) ∧ not_owner s cid id e) ∨
  (∃ x m err s', in_flight s cid id x m ∧ RequeueMessage opts now cid id timeout s = Some (err, s') ∧
     chan_ok s' ∧ s'.2.(inFlightMessages) = delete id s.2.(inFlightMessages) ∧
     s'.2.(requeueCount) = u64 (s.2.(requeueCount) + 1) ∧
     ∀ n l, holds (S n) s l → ∃ l', l ≡ₚ msg_sig m :: l' ∧
       match err with
       | None => holds n s' l
       | Some e =>
         (e = "exiting"%string ∧ timeout = 0 ∧ s.2.(exitFlag) = true ∧ holds n s' l') ∨
         (e = "ID already deferred"%string ∧ timeout ≠ 0 ∧ is_Some (s.2.(deferredMessages) !! id) ∧ holds n s' l') ∨
         (timeout = 0 ∧ kept n s s' [msg_sig m] l)
       end).
Proof.
  intros Hok. unfold RequeueMessage. destruct (pop_cases s cid id Hok) as [(e & E & He)|(x & m & s1 & s2 & Hif & E1 & E2 & T)].
  { left. exists e. split; [|done]. by callST ltac:(exact E). }
  right. destruct (in_flight_ID _ _ _ _ _ Hok Hif) as [HID _]. pose proof Hif as (Hx & Hm & Hc).
  destruct (taken_msg _ _ _ _ _ T Hm) as [k Hk]. destruct (taken_loose _ _ _ _ T Hok) as [_ Hlo].
  pose proof (tk_ok _ _ _ _ T) as Hok2. pose proof (taken_failures _ _ _ _ T) as Hfl.
  destruct (tk_chan _ _ _ _ T) as [pq Ec2].
  set (s3 := (s2.1, set_requeueCount (u64 (s.2.(requeueCount) + 1)) s2.2)).
  assert (Hok3 : chan_ok s3) by (destruct s2; by apply chan_ok_requeueCount).
  assert (E3 : upd_chan (λ c, set_requeueCount (u64 (c.(requeueCount) + 1)) c) s2 = Some ((), s3)).
  { unfold s3. rewrite Ec2. destruct s2 as [h2 c2]. cbn in *. by subst c2. }
  assert (Htake : ∀ n l, holds (S n) s l → ∃ l', l ≡ₚ msg_sig m :: l' ∧ holds (S n) s3 l').
  { intros n l Hl. destruct (taken_holds _ _ _ _ _ _ T Hl) as (l' & El & Hl'). exists l'.
    rewrite (sig_at_msg _ _ _ Hm) in El. done. }
  assert (Hmap3 : s3.2.(inFlightMessages) = delete id s.2.(inFlightMessages)) by apply T.
  callST ltac:(exact E1). callST ltac:(exact E2). callST ltac:(exact E3).
  destruct (timeout =? 0) eqn:Et; bool_to_prop.
  - callST ltac:(unfold Exiting, mbind, ST_bind, getST, mret, ST_ret; cbn [s3]; reflexivity).
    assert (Eex : s3.2.(exitFlag) = s.2.(exitFlag)) by (unfold s3; rewrite Ec2; done).
    change (exitFlag (set_requeueCount (u64 (requeueCount s.2 + 1)) s2.2)) with (s3.2.(exitFlag)). rewrite Eex.
    destruct (exitFlag s.2) eqn:Hex.
    + exists x, m, (Some "exiting"%string), s3. split_and!; [done|done|done|done|done|].
      intros n l Hl. destruct (Htake n l Hl) as (l' & El & Hl'). exists l'. split; [done|]. left.
      split_and!; [done|done|done|]. eapply holds_weaken; [|done]. lia.
    + destruct (put_ok s3 x (set_index k m) Hok3 Hlo Hk) as (err & s4 & E4 & Hok4 & Hfr & _ & Hput).
      exists x, m, err, s4. destruct (pf_chan _ _ Hfr) as (b & mem & Ec4).
      split_and!; [done|done|done|by rewrite Ec4|by rewrite Ec4|].
      intros n l Hl. destruct (Htake n l Hl) as (l' & El & Hl'). exists l'. split; [done|].
      destruct (Hput n l' Hl') as [Hk1 Hk2]. destruct err as [e|].
      * right; right. split; [done|]. change (msg_sig (set_index k m)) with (msg_sig m) in Hk1.
        destruct Hk1 as [(l2 & lost & ? & E5 & ? & Hc2) Hmono]. unfold s3 in *.
        assert (Hf3 : failures s3 = failures s) by done.
        split; [|unfold s3 in *; lia]. exists l2, lost. rewrite El. split_and!; [done|done|done|unfold s3 in *; lia].
      * rewrite El. by apply Hk2.
  - pose proof (StartDeferred_ok s3 now x timeout (set_index k m) Hok3 Hlo Hk) as Hsd.
    assert (Edm : s3.2.(deferredMessages) = s.2.(deferredMessages)) by (unfold s3; rewrite Ec2; done).
    rewrite Edm in Hsd. cbn [ID set_index] in Hsd. rewrite HID in Hsd.
    destruct (deferredMessages s.2 !! id) as [j|] eqn:Hd.
    + exists x, m, (Some "ID already deferred"%string), (alloc_item (deferred_item now x timeout) s3.1, s3.2).
      split_and!; [done|done|by apply chan_ok_alloc_item|done|done|].
      intros n l Hl. destruct (Htake n l Hl) as (l' & El & (q & Hq & El')). exists l'. split; [done|]. right; left.
      split_and!; [done|done|by eexists|]. exists q. split; [by eapply bq_rep_weaken; [|done]; lia|].
      rewrite El'. f_equiv. unfold contents.
      by rewrite (chan_ok_alloc_owned s3 (deferred_item now x timeout) Hok3).
    + destruct Hsd as (s4 & E4 & A). exists x, m, None, s4. destruct (dd_chan _ _ _ _ A) as (pq' & dm & Ec4).
      split_and!; [done|done|apply A|by rewrite Ec4|by rewrite Ec4|].
      intros n l Hl. destruct (Htake n l Hl) as (l' & El & Hl'). exists l'. split; [done|].
      eapply (holds_weaken (S n)); [lia|]. rewrite El.
      pose proof (added_deferred_holds _ _ _ _ _ _ A Hl') as Hh. by rewrite (sig_at_msg s3.1.(msgs) x _ Hk) in Hh.
Qed.

End proofs.
End ChannelP.
