(* ===== verification/ChannelScan.v ===== *)
(** * The queue scan, delivery and closing of a channel

    The loops over the two priority queues, taking a message out for
    delivery, and the flush at closing. *)
From stdpp Require Import base gmap list strings.
From Stdlib Require Import ZArith Lia.
From S2P Require Import Prelude.
From S2P Require Import Message.
From S2P Require Import Heap.
From S2P Require Import InFlightPQ.
From S2P Require Import PQueue.
From S2P Require Import DiskQueue.
From S2P Require Import Backend.
From S2P Require Import Channel.
From S2P Require Import ChannelProofs.
Set Default Goal Selector "!".
Local Open Scope Z_scope.

Module ChannelS.
Import Channel ChannelP.

Section scan.
Context {C D Q : Type} `{Consumer C, !BackendQueue D, !BackendLaws D, QuantileStream Q}.
Context (opts : options).

Notation state := (@state C D Q).

(** ** Delivery *)

Lemma StartInFlight_ok (s : state) now x cid timeout m :
  chan_ok s → x ∉ owned s → s.1.(msgs) !! x = Some m →
  match s.2.(inFlightMessages) !! m.(ID) with
  | Some _ => ∃ s', StartInFlightTimeout now x cid timeout s = Some (Some "ID already in flight"%string, s') ∧
      chan_ok s' ∧ owned s' = owned s ∧ ∃ m', s'.1.(msgs) !! x = Some m' ∧ encode_message m' = encode_message m
  | None => ∃ s' m', StartInFlightTimeout now x cid timeout s = Some (None, s') ∧ chan_ok s' ∧
      in_flight s' cid m.(ID) x m' ∧ m'.(pri) = UnixNano (time_add now timeout) ∧ m'.(deliveryTS) = now ∧
      encode_message m' = encode_message m ∧ owned s' ≡ₚ x :: owned s ∧
      s'.2.(inFlightMessages) = <[m.(ID) := x]> s.2.(inFlightMessages) ∧
      ∀ n l, holds n s l → holds n s' (msg_sig m :: l)
  end.
Proof.
  intros Hok Hx Hm. set (m' := set_pri (UnixNano (time_add now timeout)) (set_deliveryTS now (set_clientID cid m))).
  set (s1 := (set_msgs (<[x := m']> s.1.(msgs)) s.1, s.2)).
  assert (E1 : put_msg x m' s = Some ((), s1)) by (by destruct s).
  destruct (inFlightMessages s.2 !! ID m) as [y|] eqn:Hmap.
  - exists s1. split_and!; [|by eapply chan_ok_put_msg; [..|eapply small_set; [|by eapply ck_small]]|done|].
    2: { exists m'. cbn. by rewrite lookup_insert_eq. }
    unfold StartInFlightTimeout. callST ltac:(exact (get_msg_ok s x m Hm)). callST ltac:(exact E1).
    callST ltac:(apply (push_inflight_err s1 x m' y); [cbn; by rewrite lookup_insert_eq|exact Hmap]). done.
  - destruct (reflight_ok s x m m' Hok Hx Hm) as
      (s1' & s2 & s3 & E1' & E2 & E3 & Hok3 & Hmap3 & (k & Hm3) & Hown & Hh & _); [done|done|done|].
    exists s3, (set_index k m'). split_and!; [|done| |done|done|done|done|done|exact Hh].
    + unfold StartInFlightTimeout. callST ltac:(exact (get_msg_ok s x m Hm)). callST ltac:(exact E1').
      callST ltac:(exact E2). callST ltac:(exact E3). done.
    + split_and!; [|done|done]. rewrite Hmap3. apply lookup_insert_eq.
Qed.

(** ** The in-flight scan *)

(** What one round of the scan leaves of the consumers: the client of a
    timed-out message is told, if it is still subscribed. *)
Definition tell (subscribed : gset Z) (cs : gmap Z C) (cid : Z) : gmap Z C :=
  if bool_decide (cid ∈ subscribed) then alter cons_TimedOutMessage cid cs else cs.

Definition client_of (st : mstore) (x : loc) : Z := default 0 (clientID <$> st !! x).

Lemma client_of_erase st st' x : erase st' = erase st → client_of st' x = client_of st x.
Proof.
  intros E. unfold client_of. destruct (st !! x) as [m|] eqn:Hm.
  - by destruct (erase_Some st st' x m E Hm) as [i ->].
  - by rewrite (erase_None st st' x E Hm).
Qed.

(** Nothing is due. *)
Lemma peek_none (s : state) t :
  chan_ok s → (∃ r s', IFPQ.PeekAndShift t (s.1.(msgs), s.2.(inFlightPQ)) = Some (s', (None, r))) →
  ∃ r, on_ifpq (IFPQ.PeekAndShift t) s = Some ((None, r), s) ∧
    Forall (λ x, t < IFPQ.pri_of s.1.(msgs) x) s.2.(inFlightPQ).(slice).
Proof.
  intros Hok (r & s' & E). destruct (IFPQ.PeekAndShift_spec _ t (ck_ifpq _ Hok)) as (s'' & r' & E' & _ & Hr).
  rewrite E in E'. injection E' as <- <-. cbn [fst] in Hr. destruct Hr as [-> Hmin].
  exists r. split.
  - rewrite (on_ifpq_ok _ s _ _ _ E). destruct s as [h c]. by destruct h, c.
  - apply Forall_forall. intros x Hx. destruct (slice_live s x (ck_ifpq _ Hok) Hx) as (i & m & _ & Hm & _).
    unfold IFPQ.pri_of. rewrite Hm. cbn. exact (Hmin x m Hx Hm).
Qed.

(** A message is due: the round takes it out of the queue and the map. *)
Lemma peek_some (s : state) t x r s' :
  chan_ok s → IFPQ.PeekAndShift t (s.1.(msgs), s.2.(inFlightPQ)) = Some (s', (Some x, r)) →
  ∃ m k s1 s2, s.1.(msgs) !! x = Some m ∧ m.(pri) <= t ∧
    on_ifpq (IFPQ.PeekAndShift t) s = Some ((Some x, r), s1) ∧
    s1.1.(msgs) !! x = Some (set_index k m) ∧
    popInFlightMessage m.(clientID) m.(ID) s1 = Some (Ok x, s2) ∧ s2.1 = s1.1 ∧ taken s s2 x m.(ID).
Proof.
  intros Hok E. destruct (IFPQ.PeekAndShift_spec _ t (ck_ifpq _ Hok)) as (s'' & r' & E' & Hpq & Hr).
  rewrite E in E'. injection E' as <- <-. cbn [fst] in Hr. destruct Hr as (Hrm & _ & m & Hm & Hle & _).
  destruct s' as [st pq]. cbn [fst] in Hm.
  destruct (erase_Some _ _ _ _ (rm_erase _ _ _ Hrm) Hm) as [k Hk]. cbn [IFPQ.hs fst] in Hk.
  assert (Hin : x ∈ s.2.(inFlightPQ).(slice)).
  { pose proof (rm_perm _ _ _ Hrm) as Hp. cbn [IFPQ.hs fst snd] in Hp. rewrite Hp. by constructor. }
  assert (Hmap : s.2.(inFlightMessages) !! m.(ID) = Some x) by (apply (ck_ifmap _ Hok); split; [done|by exists m]).
  set (s1 := (set_msgs st s.1, set_inFlightPQ pq s.2)).
  exists m, k, s1. eexists. split_and!; [done|done|exact (on_ifpq_ok _ s _ _ _ E)|done| | |].
  - apply (pop_ok s1 m.(clientID) m.(ID) x (set_index k m)); done.
  - done.
  - exact (taken_intro s st pq x m.(ID) m Hok Hmap Hm Hpq Hrm).
Qed.

(** After the message is out: the counter, the client and the queueing. *)
Definition timed_out (x : loc) (m : Message) (s2 s3 : state) : Prop :=
  ∃ b mem log, s3.2 = set_backend_ b (set_memoryMsgChan mem
     (set_timeoutCount (u64 (s2.2.(timeoutCount) + 1)) s2.2)) ∧
   s3.1 = set_ctx_log log (set_consumers (tell s2.2.(clients) s2.1.(consumers) m.(clientID)) s2.1).

Lemma chan_ok_timed_out (h : heap C) (c : Channel D Q) k cs :
  chan_ok (h, c) → chan_ok (set_consumers cs h, set_timeoutCount k c).
Proof. intros [? ? ? ? ? ? ? ?]. by split. Qed.

Lemma round_ok (s1 s2 s : state) x m k :
  taken s s2 x m.(ID) → chan_ok s → s.1.(msgs) !! x = Some m → s2.1.(msgs) !! x = Some (set_index k m) →
  ∃ err s3 s4 s5,
    upd_chan (λ c, set_timeoutCount (u64 (c.(timeoutCount) + 1)) c) s2 = Some ((), s3) ∧
    modST (λ '(h, c),
              (if bool_decide (m.(clientID) ∈ c.(clients))
               then set_consumers (alter cons_TimedOutMessage m.(clientID) h.(consumers)) h else h, c)) s3 = Some ((), s4) ∧
    put opts x s4 = Some (err, s5) ∧ chan_ok s5 ∧ timed_out x m s2 s5 ∧
    ∀ n l, holds (S n) s l → kept n s s5 [msg_sig m] l.
Proof.
  intros T Hok Hm Hk. pose proof (tk_ok _ _ _ _ T) as Hok2. destruct (taken_loose _ _ _ _ T Hok) as [_ Hlo].
  set (c3 := set_timeoutCount (u64 (s2.2.(timeoutCount) + 1)) s2.2).
  set (h4 := set_consumers (tell s2.2.(clients) s2.1.(consumers) m.(clientID)) s2.1).
  assert (Hok4 : chan_ok (h4, c3)) by (destruct s2; by apply chan_ok_timed_out).
  destruct (put_ok opts (h4, c3) x (set_index k m) Hok4 Hlo Hk) as (err & s5 & E5 & Hok5 & Hfr & _ & Hput).
  exists err, (s2.1, c3), (h4, c3), s5. split_and!; [by destruct s2| |done|done| |].
  - unfold modST. cbn. unfold h4, tell. change (clients c3) with (clients s2.2). do 2 f_equal. f_equal.
    case_bool_decide; [done|]. by destruct (s2.1).
  - destruct (pf_chan _ _ Hfr) as (b & mem & Ec), (pf_heap _ _ Hfr) as (log & Eh). by exists b, mem, log.
  - intros n l Hl. destruct (taken_holds _ _ _ _ _ _ T Hl) as (l' & El & Hl').
    assert (Hl4 : holds (S n) (h4, c3) l') by exact Hl'.
    rewrite (sig_at_msg _ _ _ Hm) in El. destruct (Hput n l' Hl4) as [[(l2 & lost & ? & E & ? & ?) ?] _].
    assert (Hf : failures (h4, c3) = failures s) by exact (taken_failures _ _ _ _ T).
    split; [|lia]. exists l2, lost. rewrite El. change (msg_sig (set_index k m)) with (msg_sig m) in *.
    split_and!; [done|done|done|lia].
Qed.

Record scanned (t : Z) (s s' : state) (due : list loc) : Prop := {
  sc_ok : chan_ok s';
  sc_slice : s.2.(inFlightPQ).(slice) ≡ₚ due ++ s'.2.(inFlightPQ).(slice);
  sc_due : Forall (λ x, IFPQ.pri_of s.1.(msgs) x <= t) due;
  sc_rest : Forall (λ x, t < IFPQ.pri_of s.1.(msgs) x) s'.2.(inFlightPQ).(slice);
  sc_erase : erase s'.1.(msgs) = erase s.1.(msgs);
  sc_count : u64 s'.2.(timeoutCount) = u64 (s.2.(timeoutCount) + Z.of_nat (length due));
  sc_clients : s'.2.(clients) = s.2.(clients);
  sc_consumers : s'.1.(consumers) =
    foldl (tell s.2.(clients)) s.1.(consumers) (client_of s.1.(msgs) <$> due);
  sc_kept : ∀ n l, holds (length due + n) s l → kept n s s' (sig_at s.1.(msgs) <$> due) l;
}.

Lemma inflight_loop_ok fuel t (s : state) dirty :
  chan_ok s → (length s.2.(inFlightPQ).(slice) < fuel)%nat →
  ∃ due s', processInFlightQueue_loop opts fuel t dirty s = Some (dirty || negb (bool_decide (due = [])), s') ∧
    scanned t s s' due.
Proof.
  revert s dirty. induction fuel as [|fuel IH]; intros s dirty Hok Hf; [lia|]. cbn [processInFlightQueue_loop].
  destruct (IFPQ.PeekAndShift_spec _ t (ck_ifpq _ Hok)) as (sp & [[x|] r] & E & _ & _).
  - destruct (peek_some s t x r sp Hok E) as (m & k & s1 & s2 & Hm & Hle & E1 & Hk1 & E2 & E21 & T).
    assert (Hk : s2.1.(msgs) !! x = Some (set_index k m)) by (by rewrite E21).
    destruct (round_ok s1 s2 s x m k T Hok Hm Hk) as (err & s3 & s4 & s5 & E3 & E4 & E5 & Hok5 & (b & mem & log & Ec & Eh) & Hk5).
    destruct (tk_chan _ _ _ _ T) as (pq & Ec2). destruct (tk_heap _ _ _ _ T) as (st & Eh2).
    assert (Hsl : s5.2.(inFlightPQ).(slice) = s2.2.(inFlightPQ).(slice)) by (by rewrite Ec).
    pose proof (tk_slice _ _ _ _ T) as Hp. rewrite <- Hsl in Hp.
    assert (He5 : erase s5.1.(msgs) = erase s.1.(msgs)) by (rewrite Eh; apply T).
    destruct (IH s5 true Hok5) as (due & s6 & E6 & [? ? ? ? ? ? ? ? ?]).
    { rewrite Hp in Hf. cbn in Hf. lia. }
    exists (x :: due), s6. rewrite bool_decide_eq_false_2 by done. rewrite orb_true_r. split.
    { callST ltac:(exact E1). callST ltac:(exact (get_msg_ok s1 x _ Hk1)). callST ltac:(exact E2).
      callST ltac:(exact E3). callST ltac:(exact E4). callST ltac:(exact E5). exact E6. }
    assert (Hpr : ∀ y, IFPQ.pri_of s5.1.(msgs) y = IFPQ.pri_of s.1.(msgs) y) by (intros y; by apply IFPQ.erase_pri_of).
    split; [done| | | | | | | |].
    + rewrite Hp. cbn [app]. by rewrite sc_slice0.
    + constructor; [unfold IFPQ.pri_of; rewrite Hm; done|].
      eapply Forall_impl; [exact sc_due0|]. intros y. cbn. by rewrite Hpr.
    + eapply Forall_impl; [exact sc_rest0|]. intros y. cbn. by rewrite Hpr.
    + congruence.
    + rewrite sc_count0, Ec. cbn [timeoutCount set_timeoutCount set_backend_ set_memoryMsgChan length]. rewrite Ec2. cbn.
      unfold uwrap. rewrite Z.add_mod_idemp_l by done. f_equal. lia.
    + rewrite sc_clients0, Ec. cbn. by rewrite Ec2.
    + rewrite sc_consumers0, Ec, Eh. cbn. rewrite Ec2, Eh2. cbn. f_equal.
      * f_equal. unfold client_of. by rewrite Hm.
      * apply list_fmap_ext. intros i y Hy. apply client_of_erase. rewrite <- He5. by rewrite Eh, Eh2.
    + intros n l Hl. cbn [length Nat.add] in Hl. specialize (Hk5 _ _ Hl).
      replace (sig_at (msgs s.1) <$> x :: due) with ([msg_sig m] ++ (sig_at (msgs s5.1) <$> due)).
      2: { cbn. rewrite (sig_at_msg _ _ _ Hm). f_equal. apply list_fmap_ext. intros i y Hy. by apply sig_at_erase. }
      eapply kept_trans; [exact Hk5|]. intros l1 Hl1. by apply sc_kept0.
  - destruct (peek_none s t Hok) as (r' & E1 & Hrest); [by eexists _, _|].
    exists [], s. rewrite bool_decide_eq_true_2 by done. rewrite orb_false_r. split; [by callST ltac:(exact E1)|].
    split; try done.
    + by rewrite Z.add_0_r.
    + intros n l Hl. by apply kept_same.
Qed.

(** ** The deferred scan *)

Record taken_deferred (s s' : state) (x : loc) (id : MessageID) : Prop := {
  td_ok : chan_ok s';
  td_owned : owned s ≡ₚ x :: owned s';
  td_map : s'.2.(deferredMessages) = delete id s.2.(deferredMessages);
  td_heap : ∃ st, s'.1 = set_items st s.1;
  td_erase : erase s'.1.(items) = erase s.1.(items);
  td_chan : ∃ pq, s'.2 = set_deferredPQ pq (set_deferredMessages (delete id s.2.(deferredMessages)) s.2);
}.

Lemma taken_deferred_intro (s : state) st pq i it m :
  chan_ok s → s.1.(items) !! i = Some it → s.1.(msgs) !! it.(Value) = Some m →
  PQ.pq_ok (st, pq) → removed (PQ.hs (s.1.(items), s.2.(deferredPQ))) (PQ.hs (st, pq)) i →
  taken_deferred s (set_items st s.1,
    set_deferredPQ pq (set_deferredMessages (delete m.(ID) s.2.(deferredMessages)) s.2)) it.(Value) m.(ID).
Proof.
  intros [Hif Hifm Hdf Hdfm Hlive Hnd Hfr Hsm] Hi Hm Hpq [Hp _ _ He _ _]. cbn [PQ.hs fst snd] in Hp, He.
  set (s' := (set_items st s.1, _)).
  assert (Hown : owned s ≡ₚ it.(Value) :: owned s').
  { unfold owned, dvals, s'. cbn. rewrite Hp. rewrite (dvals_eq _ _ _ He). cbn. rewrite Hi. cbn.
    rewrite !app_assoc. by rewrite <- Permutation_middle. }
  assert (Hmi : s.2.(deferredMessages) !! m.(ID) = Some i).
  { apply Hdfm. split; [rewrite Hp; by constructor|by exists it, m]. }
  assert (Hni : i ∉ pq.(qslice)).
  { pose proof (indexed_NoDup _ (PQ.pq_indexed _ Hdf)) as Hq. cbn in Hq. rewrite Hp in Hq. by apply NoDup_cons in Hq as [? _]. }
  split; [|done|done|by eexists|done|by eexists].
  split; cbn [fst snd]; try (unfold s'; cbn; done).
  - intros id' j. unfold s'. cbn. rewrite lookup_delete_Some, Hdfm, Hp, elem_of_cons. split.
    + intros (Hne & [->|Hj] & it' & m' & Hit' & Hm' & <-); [simplify_eq; congruence|]. split; [done|].
      destruct (item_Some _ _ _ _ He Hit') as (k & ?). by exists (set_Index k it'), m'.
    + intros (Hj & it' & m' & Hit' & Hm' & <-).
      destruct (item_inv _ _ _ _ He Hit') as (it0 & Hit0 & k0 & ->). cbn in Hm'.
      split_and!; [|by right|by exists it0, m']. intros Heq.
      assert (s.2.(deferredMessages) !! m'.(ID) = Some j) as Hj'.
      { apply Hdfm. split; [rewrite Hp; by apply list_elem_of_further|by exists it0, m']. }
      rewrite Heq in Hmi. congruence.
  - intros y Hy. apply (Hlive y). rewrite Hown. by apply list_elem_of_further.
  - rewrite Hown in Hnd. by apply NoDup_cons in Hnd as [_ ?].
  - intros y Hy. unfold s' in *. cbn in *. destruct (Hfr y Hy) as [? Hy2]. split; [done|].
    apply (erase_lookup _ _ y) in He. rewrite Hy2 in He. by destruct (st !! y).
Qed.

Lemma get_item_ok (s : state) i it : s.1.(items) !! i = Some it → get_item i s = Some (it, s).
Proof. destruct s. cbn. intros E. unfold get_item, mbind, ST_bind, getST, liftST. by rewrite E. Qed.

Lemma popDeferred_ok (s : state) id i : s.2.(deferredMessages) !! id = Some i →
  popDeferredMessage id s = Some (Ok i, (s.1, set_deferredMessages (delete id s.2.(deferredMessages)) s.2)).
Proof. destruct s. cbn. intros E. unfold popDeferredMessage, mbind, ST_bind, getST. by rewrite E. Qed.

Lemma taken_deferred_holds n s s' x id l m :
  taken_deferred s s' x id → s.1.(msgs) !! x = Some m → holds n s l → ∃ l', l ≡ₚ msg_sig m :: l' ∧ holds n s' l'.
Proof.
  intros T Hm (q & Hq & E). exists (contents s' ++ (sig <$> q)). split.
  - rewrite E. unfold contents. rewrite (td_owned _ _ _ _ T), fmap_cons, (sig_at_msg _ _ _ Hm).
    destruct (td_heap _ _ _ _ T) as [st ->]. done.
  - exists q. split; [|done]. destruct (td_chan _ _ _ _ T) as [pq ->]. done.
Qed.

Definition due_at (s : state) (i : loc) : Z := PQ.prio_of s.1.(items) i.
Definition value_of (st : istore) (i : loc) : loc := default 0%nat (Value <$> st !! i).

Lemma value_of_erase st st' i : erase st' = erase st → value_of st' i = value_of st i.
Proof. intros E. unfold value_of. by rewrite (item_value st st' i E). Qed.

Record released (t : Z) (s s' : state) (due : list loc) : Prop := {
  rl_ok : chan_ok s';
  rl_slice : s.2.(deferredPQ).(qslice) ≡ₚ due ++ s'.2.(deferredPQ).(qslice);
  rl_due : Forall (λ i, PQ.prio_of s.1.(items) i <= t) due;
  rl_rest : Forall (λ i, t < PQ.prio_of s.1.(items) i) s'.2.(deferredPQ).(qslice);
  rl_erase : erase s'.1.(items) = erase s.1.(items);
  rl_msgs : s'.1.(msgs) = s.1.(msgs);
  rl_inflight : s'.2.(inFlightMessages) = s.2.(inFlightMessages);
  rl_kept : ∀ n l, holds (length due + n) s l →
    kept n s s' ((λ i, sig_at s.1.(msgs) (value_of s.1.(items) i)) <$> due) l;
}.

Lemma deferred_loop_ok fuel t (s : state) dirty :
  chan_ok s → (length s.2.(deferredPQ).(qslice) < fuel)%nat →
  ∃ due s', processDeferredQueue_loop opts fuel t dirty s = Some (dirty || negb (bool_decide (due = [])), s') ∧
    released t s s' due.
Proof.
  revert s dirty. induction fuel as [|fuel IH]; intros s dirty Hok Hf; [lia|]. cbn [processDeferredQueue_loop].
  destruct (PQ.q_PeekAndShift_spec _ t (ck_dfpq _ Hok)) as ([st pq] & [[i|] r] & E & Hpq & Hr); cbn [fst snd] in Hr.
  - destruct Hr as (Hrm & it & Hi & Hle & _). pose proof (rm_perm _ _ _ Hrm) as Hp. cbn [PQ.hs fst snd] in Hp, Hi.
    pose proof (rm_erase _ _ _ Hrm) as He. cbn [PQ.hs fst] in He.
    assert (Hin : i ∈ s.2.(deferredPQ).(qslice)) by (rewrite Hp; by constructor).
    assert (Hv : it.(Value) ∈ owned s).
    { unfold owned. rewrite !elem_of_app. right; right. apply list_elem_of_omap. exists i. by rewrite Hi. }
    destruct (ck_live _ Hok _ Hv) as [m Hm].
    pose proof (taken_deferred_intro s st pq i it m Hok Hi Hm Hpq Hrm) as T.
    set (s1 := (set_items st s.1, set_deferredPQ pq s.2)).
    set (s2 := (set_items st s.1, _)) in T.
    destruct (item_Some _ _ _ _ He Hi) as [k Hk].
    assert (Hmi : s.2.(deferredMessages) !! m.(ID) = Some i) by (apply (ck_dfmap _ Hok); split; [done|by exists it, m]).
    assert (Hlo : it.(Value) ∉ owned s2).
    { pose proof (ck_nodup _ Hok) as Hnd. rewrite (td_owned _ _ _ _ T) in Hnd. by apply NoDup_cons in Hnd as [? _]. }
    destruct (put_ok opts s2 it.(Value) m (td_ok _ _ _ _ T) Hlo Hm) as (err & s3 & E3 & Hok3 & Hfr & _ & Hput).
    destruct (pf_chan _ _ Hfr) as (b & mem & Ec), (pf_heap _ _ Hfr) as (log & Eh).
    assert (Hsl : s3.2.(deferredPQ) = pq) by (by rewrite Ec).
    assert (Hit3 : s3.1.(items) = st) by (by rewrite Eh).
    assert (Hm3 : s3.1.(msgs) = s.1.(msgs)) by (by rewrite Eh).
    destruct (IH s3 true Hok3) as (due & s4 & E4 & [? ? ? ? ? ? ? ?]).
    { rewrite Hsl. rewrite Hp in Hf. cbn in Hf. lia. }
    exists (i :: due), s4. rewrite bool_decide_eq_false_2 by done. rewrite orb_true_r. split.
    { callST ltac:(exact (on_dfpq_ok _ s _ _ _ E)).
      callST ltac:(exact (get_item_ok s1 i _ Hk)).
      cbn [Value set_Index]. callST ltac:(exact (get_msg_ok s1 it.(Value) m Hm)).
      callST ltac:(exact (popDeferred_ok s1 m.(ID) i Hmi)).
      callST ltac:(exact E3). exact E4. }
    rewrite Hit3, Hm3, Hsl in *.
    assert (Hpr : ∀ y, PQ.prio_of st y = PQ.prio_of s.1.(items) y) by (intros y; by apply PQ.erase_prio_of).
    split; [done| | | | | | |].
    + rewrite Hp. cbn [app]. by rewrite rl_slice0.
    + constructor; [unfold PQ.prio_of; rewrite Hi; done|].
      eapply Forall_impl; [exact rl_due0|]. intros y. cbn. by rewrite Hpr.
    + eapply Forall_impl; [exact rl_rest0|]. intros y. cbn. by rewrite Hpr.
    + congruence.
    + done.
    + rewrite rl_inflight0, Ec. done.
    + intros n l Hl. cbn [length Nat.add] in Hl.
      destruct (taken_deferred_holds _ _ _ _ _ _ _ T Hm Hl) as (l' & El & Hl').
      destruct (Hput _ l' Hl') as [[(l2 & lost & ? & E5 & ? & ?) ?] _].
      assert (Hf2 : failures s2 = failures s) by done.
      assert (Hk3 : kept (length due + n) s s3 [msg_sig m] l).
      { split; [|lia]. exists l2, lost. rewrite El. split_and!; [done|done|done|lia]. }
      rewrite fmap_cons. replace (sig_at (msgs s.1) (value_of (items s.1) i)) with (msg_sig m).
      2: { unfold value_of. rewrite Hi. cbn. by rewrite (sig_at_msg _ _ _ Hm). }
      eapply (kept_trans n _ s s3 s4 [msg_sig m]); [exact Hk3|]. intros l1 Hl1.
      specialize (rl_kept0 n l1 Hl1). erewrite list_fmap_ext; [exact rl_kept0|].
      intros j y Hy. cbn. by rewrite (value_of_erase _ _ _ He).
  - destruct Hr as [[= -> ->] Hmin]. exists [], s. rewrite bool_decide_eq_true_2 by done. rewrite orb_false_r. split.
    { callST ltac:(exact (on_dfpq_ok _ s _ _ _ E)). destruct s as [h c]. by destruct h, c. }
    split; try done.
    + apply Forall_forall. intros i Hi. pose proof Hi as Hi'. apply list_elem_of_lookup in Hi' as [j Hj].
      destruct (PQ.pq_indexed _ (ck_dfpq _ Hok) j i Hj) as (it & Hit & _). cbn in Hit.
      unfold PQ.prio_of. rewrite Hit. cbn. exact (Hmin i it Hi Hit).
    + intros n l Hl. by apply kept_same.
Qed.

(** ** Flushing at close *)

Section flush.
Context (range : ∀ A : Type, list A → list A).
Hypothesis range_perm : ∀ A (l : list A), range A l ≡ₚ l.
(** What the backend stores when no write fails. *)
Context (fits : bytes → Prop).
Hypothesis put_fits : ∀ n (b : backend D) q d,
  bq_rep (S n) b q → fits d → (bq_Put d b).1 = None.

(** Writing messages moves no other part of the state. *)
Definition written (s s' : state) : Prop :=
  s'.1 = s.1 ∧ ∃ b, s'.2 = set_backend_ b s.2.

Lemma write_all_ok (s : state) xs n q :
  (∀ x, x ∈ xs → ∃ m, s.1.(msgs) !! x = Some m ∧ fits (encode_message m)) →
  (∀ x m, s.1.(msgs) !! x = Some m → small m) →
  bq_rep (length xs + n) s.2.(backend_) q →
  ∃ s' q', write_all xs s = Some ((), s') ∧ written s s' ∧ bq_rep n s'.2.(backend_) q' ∧
    sig <$> q' = (sig <$> q) ++ (sig_at s.1.(msgs) <$> xs).
Proof.
  revert s q. induction xs as [|x xs IH]; intros s q Hlive Hsm Hq; cbn [write_all].
  - exists s, q. split_and!; [done| |done|cbn; by rewrite app_nil_r]. split; [done|].
    exists s.2.(backend_). by destruct s as [h []].
  - destruct (Hlive x) as (m & Hm & Hfit); [by constructor|].
    destruct (bq_Put (encode_message m) s.2.(backend_)) as [e b] eqn:Ep.
    pose proof (put_fits _ _ _ _ Hq Hfit) as He. rewrite Ep in He. cbn in He. subst e.
    pose proof (bq_rep_Put _ _ _ _ _ _ Hq (Hsm x m Hm) Ep) as Hq1. cbn in Hq1.
    set (s1 := (s.1, set_backend_ b s.2)).
    destruct (IH s1 (q ++ [encode_message m])) as (s' & q' & E & [Eh [b' Eb]] & Hq' & Es).
    { intros y Hy. apply Hlive. by constructor. } { done. } { done. }
    exists s', q'. split_and!; [| |done|].
    + assert (E1 : write_logged x s = Some ((), s1)).
      { unfold write_logged. callST ltac:(exact (get_msg_ok s x m Hm)).
        unfold mbind, ST_bind, getST. destruct s as [h c]. cbn [fst snd] in *.
        rewrite writeMessageToBackend_eq, Ep. done. }
      callST ltac:(exact E1). exact E.
    + split; [done|]. by exists b'.
    + rewrite Es, fmap_app, <- app_assoc. cbn. unfold s1. cbn [fst].
      by rewrite (sig_at_msg _ _ _ Hm).
Qed.

Lemma inflight_values (s : state) : chan_ok s →
  (map_to_list s.2.(inFlightMessages)).*2 ≡ₚ s.2.(inFlightPQ).(slice).
Proof.
  intros Hok. assert (Hin : ∀ id x, (id, x) ∈ map_to_list s.2.(inFlightMessages) ↔
    x ∈ s.2.(inFlightPQ).(slice) ∧ ∃ m, s.1.(msgs) !! x = Some m ∧ m.(ID) = id).
  { intros id x. rewrite elem_of_map_to_list. apply (ck_ifmap _ Hok). }
  apply NoDup_Permutation.
  - apply NoDup_fmap_2_strong; [|apply NoDup_map_to_list].
    intros [id x] [id' x'] (_ & m & Hm & <-)%Hin (_ & m' & Hm' & <-)%Hin. cbn. intros ->. by simplify_eq.
  - exact (indexed_NoDup _ (IFPQ.pq_indexed _ (ck_ifpq _ Hok))).
  - intros x. rewrite list_elem_of_fmap. split.
    + by intros ([id y] & -> & (? & _)%Hin).
    + intros Hx. destruct (slice_live s x (ck_ifpq _ Hok) Hx) as (_ & m & _ & Hm & _).
      exists (m.(ID), x). split; [done|]. apply Hin. split; [done|]. by exists m.
Qed.

Lemma deferred_values (s : state) : chan_ok s →
  (map_to_list s.2.(deferredMessages)).*2 ≡ₚ s.2.(deferredPQ).(qslice).
Proof.
  intros Hok. assert (Hin : ∀ id i, (id, i) ∈ map_to_list s.2.(deferredMessages) ↔
    i ∈ s.2.(deferredPQ).(qslice) ∧ ∃ it m, s.1.(items) !! i = Some it ∧
      s.1.(msgs) !! it.(Value) = Some m ∧ m.(ID) = id).
  { intros id i. rewrite elem_of_map_to_list. apply (ck_dfmap _ Hok). }
  apply NoDup_Permutation.
  - apply NoDup_fmap_2_strong; [|apply NoDup_map_to_list].
    intros [id i] [id' i'] (_ & it & m & Hi & Hm & <-)%Hin (_ & it' & m' & Hi' & Hm' & <-)%Hin.
    cbn. intros ->. by simplify_eq.
  - exact (indexed_NoDup _ (PQ.pq_indexed _ (ck_dfpq _ Hok))).
  - intros i. rewrite list_elem_of_fmap. split.
    + by intros ([id j] & -> & (? & _)%Hin).
    + intros Hi. pose proof Hi as Hi'. apply list_elem_of_lookup in Hi' as [k Hk].
      destruct (PQ.pq_indexed _ (ck_dfpq _ Hok) k i Hk) as (it & Hit & _). cbn in Hit.
      destruct (ck_live _ Hok it.(Value)) as [m Hm].
      { unfold owned. rewrite !elem_of_app. right; right. apply list_elem_of_omap. exists i. by rewrite Hit. }
      exists (m.(ID), i). split; [done|]. apply Hin. split; [done|]. by exists it, m.
Qed.

Lemma mapM_values (s : state) (l : list loc) :
  (∀ i, i ∈ l → is_Some (s.1.(items) !! i)) →
  mapM (λ i, Value <$> s.1.(items) !! i) l = Some (omap (λ i, Value <$> s.1.(items) !! i) l).
Proof.
  induction l as [|i l IH]; intros Hl; [done|]. destruct (Hl i) as [it Hi]; [by constructor|].
  cbn. rewrite Hi. cbn. rewrite IH; [done|]. intros j Hj. apply Hl. by constructor.
Qed.

Lemma flush_ok (s : state) n l :
  chan_ok s → (∀ x m, x ∈ owned s → s.1.(msgs) !! x = Some m → fits (encode_message m)) →
  holds (length (owned s) + n) s l →
  ∃ s' q', flush range s = Some ((), s') ∧ bq_rep n s'.2.(backend_) q' ∧ (sig <$> q') ≡ₚ l ∧
    s'.2.(memoryMsgChan) = [] ∧ s'.1 = s.1 ∧ s'.2.(exitFlag) = s.2.(exitFlag).
Proof.
  intros Hok Hfits (q & Hq & El). set (st := s.1.(msgs)).
  set (l1 := s.2.(memoryMsgChan)). set (l2 := range _ (map_to_list s.2.(inFlightMessages)).*2).
  set (l3i := range _ (map_to_list s.2.(deferredMessages)).*2).
  set (l3 := omap (λ i, Value <$> s.1.(items) !! i) l3i).
  assert (P2 : l2 ≡ₚ s.2.(inFlightPQ).(slice)) by (unfold l2; rewrite range_perm; by apply inflight_values).
  assert (P3 : l3 ≡ₚ dvals s).
  { unfold l3, dvals. f_equiv. unfold l3i. rewrite range_perm. by apply deferred_values. }
  assert (Po : l1 ++ l2 ++ l3 ≡ₚ owned s) by (unfold owned; by rewrite P2, P3).
  assert (Hlive : ∀ x, x ∈ l1 ++ l2 ++ l3 → ∃ m, st !! x = Some m ∧ fits (encode_message m)).
  { intros x Hx. rewrite Po in Hx. destruct (ck_live _ Hok x Hx) as [m Hm]. exists m. split; [done|]. by apply (Hfits x). }
  assert (Hlen : length (owned s) = (length l1 + (length l2 + length l3))%nat) by (by rewrite <- Po, !length_app).
  rewrite Hlen, <- !Nat.add_assoc in Hq.
  set (s0 := (s.1, set_memoryMsgChan [] s.2)).
  destruct (write_all_ok s0 l1 (length l2 + (length l3 + n)) q) as (s1 & q1 & E1 & [Eh1 [b1 Eb1]] & Hq1 & Es1).
  { intros x Hx. apply Hlive. rewrite !elem_of_app. by left. } { apply Hok. } { exact Hq. }
  destruct (write_all_ok s1 l2 (length l3 + n) q1) as (s2 & q2 & E2 & [Eh2 [b2 Eb2]] & Hq2 & Es2).
  { intros x Hx. rewrite Eh1. apply Hlive. rewrite !elem_of_app. by right; left. } { rewrite Eh1. apply Hok. } { exact Hq1. }
  destruct (write_all_ok s2 l3 n q2) as (s3 & q3 & E3 & [Eh3 [b3 Eb3]] & Hq3 & Es3).
  { intros x Hx. rewrite Eh2, Eh1. apply Hlive. rewrite !elem_of_app. by right; right. } { rewrite Eh2, Eh1. apply Hok. } { exact Hq2. }
  exists s3, q3. split_and!; [|done| | | |].
  - unfold flush. callST ltac:(reflexivity). destruct s as [h c]. cbn [fst snd] in *.
    callST ltac:(reflexivity). callST ltac:(exact E1).
    destruct s1 as [h1 c1]. cbn [fst snd] in *. callST ltac:(reflexivity). subst c1 h1. callST ltac:(exact E2).
    destruct s2 as [h2 c2]. cbn [fst snd] in *. callST ltac:(reflexivity). subst c2 h2.
    assert (Em : mapM (λ i, Value <$> h.(items) !! i) l3i = Some l3).
    { apply (mapM_values (h, c)). intros i Hi. unfold l3i in Hi. rewrite range_perm, (deferred_values (h, c)) in Hi by done.
      apply list_elem_of_lookup in Hi as [k Hk]. destruct (PQ.pq_indexed _ (ck_dfpq _ Hok) k i Hk) as (it & Hit & _). by eexists. }
    assert (Elift : ∀ sx : state, liftST (mapM (λ i, Value <$> h.(items) !! i) l3i) sx = Some (l3, sx)).
    { intros sx. unfold liftST. by rewrite Em. }
    callST ltac:(exact (Elift _)).
    exact E3.
  - rewrite El, Es3, Es2, Es1, Eh2, Eh1. unfold contents. rewrite <- Po, !fmap_app. cbn [fst].
    rewrite !app_assoc. rewrite <- (Permutation_app_comm (sig <$> q)). by rewrite !app_assoc.
  - by rewrite Eb3, Eb2, Eb1.
  - by rewrite Eh3, Eh2, Eh1.
  - by rewrite Eb3, Eb2, Eb1.
Qed.

End flush.

End scan.
End ChannelS.
