(* ===== verification/ChannelProps.v ===== *)
(** * What a channel promises

    The properties of channels: no sequence of operations panics, finishing,
    requeueing and touching act on exactly the message asked for and only for
    its owner, the scans return exactly what is due, and closing writes
    everything to the backend. The witnesses run on a channel whose backend
    is a list. *)
From stdpp Require Import base gmap list strings.
From Stdlib Require Import ZArith Lia.
From S2P Require Import Prelude.
From S2P Require Import Message.
From S2P Require Import Heap.
From S2P Require Import InFlightPQ.
From S2P Require Import PQueue.
From S2P Require Import DiskQueue.
From S2P Require Import Backend.
From S2P Require Import Channel.
From S2P Require Import ChannelProofs.
From S2P Require Import ChannelScan.
Set Default Goal Selector "!".
Local Open Scope Z_scope.

Module ChannelSpec.
Import Channel ChannelP ChannelS.

Section ops.
Context {C D Q : Type} `{Consumer C, BackendQueue D, QuantileStream Q}.
Context (opts : options) (range : ∀ A : Type, list A → list A).

(** ** Everything that can be asked of a channel *)
Inductive chan_op :=
| OpPut (m : Message)                                  (* the topic's [PutMessage] *)
| OpPutDeferred (now : time) (m : Message) (timeout : duration)
| OpDeliver (now : time) (cid : Z) (timeout : duration)        (* from memory *)
| OpDeliverBackend (now : time) (cid : Z) (timeout : duration) (* from the backend *)
| OpTouch (now : time) (cid : Z) (id : MessageID) (timeout : duration)
| OpFinish (cid : Z) (id : MessageID)
| OpRequeue (now : time) (cid : Z) (id : MessageID) (timeout : duration)
| OpScanInFlight (t : Z)
| OpScanDeferred (t : Z)
| OpAddClient (cid : Z)
| OpRemoveClient (cid : Z)
| OpPause (b : bool)
| OpEmpty
| OpExit (deleted : bool).

Definition exec (o : chan_op) : ST (@state C D Q) () :=
  match o with
  | OpPut m => x ← new_msg m; _ ← PutMessage opts x; mret ()
  | OpPutDeferred now m t => x ← new_msg m; PutMessageDeferred now x t
  | OpDeliver now cid t =>
    r ← recv_memory;
    match r with Some x => _ ← deliver now x cid t; mret () | None => mret () end
  | OpDeliverBackend now cid t =>
    r ← recv_backend;
    match r with Some (Ok x) => _ ← deliver now x cid t; mret () | _ => mret () end
  | OpTouch now cid id t => _ ← TouchMessage opts now cid id t; mret ()
  | OpFinish cid id => _ ← FinishMessage cid id; mret ()
  | OpRequeue now cid id t => _ ← RequeueMessage opts now cid id t; mret ()
  | OpScanInFlight t => _ ← processInFlightQueue opts t; mret ()
  | OpScanDeferred t => _ ← processDeferredQueue opts t; mret ()
  | OpAddClient cid => _ ← AddClient opts cid; mret ()
  | OpRemoveClient cid => RemoveClient cid
  | OpPause b => doPause b
  | OpEmpty => _ ← Empty opts; mret ()
  | OpExit d => _ ← exit opts range d; mret ()
  end.

Fixpoint exec_all (os : list chan_op) : ST (@state C D Q) () :=
  match os with
  | [] => mret ()
  | o :: os => _ ← exec o; exec_all os
  end.

Definition op_ok (o : chan_op) : Prop :=
  match o with OpPut m | OpPutDeferred _ m _ => small m | _ => True end.

End ops.

Section safety.
Context {C D Q : Type} `{Consumer C, !BackendQueue D, !BackendLaws D, QuantileStream Q}.
Context (opts : options) (range : ∀ A : Type, list A → list A).
Hypothesis range_perm : ∀ A (l : list A), range A l ≡ₚ l.
(** The disk queue sends no message longer than an [int32] can say. *)
Hypothesis recv_small : ∀ (b b' : D) d, bq_Recv b = Some (d, b') → Z.of_nat (length d) < 2 ^ 31.

Notation state := (@state C D Q).

Lemma new_msg_ok (s : state) m : chan_ok s → small m →
  ∃ s', new_msg m s = Some (s.1.(next), s') ∧ chan_ok s' ∧ s'.1.(msgs) !! s.1.(next) = Some m ∧
    s.1.(next) ∉ owned s' ∧ s'.2 = s.2 ∧ owned s' = owned s.
Proof.
  intros [Hif Hifm Hdf Hdfm Hlive Hnd Hfr Hsm] Hs. set (x := s.1.(next)).
  set (s' := (set_next (S x) (set_msgs (<[x := m]> s.1.(msgs)) s.1), s.2)).
  assert (Hx : x ∉ owned s).
  { intros Hin. destruct (Hlive x Hin) as [? ?]. destruct (Hfr x) as [? _]; [done|]. congruence. }
  assert (Hok0 : chan_ok s) by by split.
  exists s'. split_and!; [by destruct s| |cbn; by rewrite lookup_insert_eq|done|done|done].
  assert (Hsl : ∀ y, y ∈ s.2.(inFlightPQ).(slice) → x ≠ y) by (intros y Hy ->; by apply Hx, owned_slice).
  split; cbn; try done.
  - eapply pq_ok_frame; [|exact Hif]. intros y Hy. by rewrite lookup_insert_ne by (by apply Hsl).
  - intros id y. rewrite Hifm. split; (intros [Hy ?]; split; [done|]); by rewrite ?lookup_insert_ne in * by (by apply Hsl).
  - intros id i. rewrite Hdfm. assert (Hne : ∀ it m0, s.1.(msgs) !! it.(Value) = Some m0 → x ≠ it.(Value)).
    { intros it m0 Hm0 E. destruct (Hfr x) as [Hn _]; [done|]. rewrite E in Hn. congruence. }
    split; (intros (Hi & it & m0 & Hit & Hm0 & ?); split; [done|]; exists it, m0; split; [done|]).
    + by rewrite lookup_insert_ne by (by eapply Hne).
    + rewrite lookup_insert_ne in Hm0; [done|]. intros E. apply Hx. unfold owned. rewrite !elem_of_app. right; right.
      apply list_elem_of_omap. exists i. split; [done|]. by rewrite Hit, E.
  - intros y Hy. destruct (decide (x = y)) as [->|]; [rewrite lookup_insert_eq; by eexists|].
    rewrite lookup_insert_ne by done. by apply Hlive.
  - intros y Hy. destruct (Hfr y) as [Hy1 Hy2]; [unfold x in *; lia|]. split; [|done].
    rewrite lookup_insert_ne; [done|lia].
  - intros y m0. rewrite lookup_insert_Some. intros [[_ <-]|[_ ?]]; [done|by eapply Hsm].
Qed.

(** Fields the invariant does not mention. *)
Lemma chan_ok_other (s s' : state) :
  s'.1.(msgs) = s.1.(msgs) → s'.1.(items) = s.1.(items) → s'.1.(next) = s.1.(next) →
  s'.2.(memoryMsgChan) = s.2.(memoryMsgChan) → s'.2.(deferredMessages) = s.2.(deferredMessages) →
  s'.2.(deferredPQ) = s.2.(deferredPQ) → s'.2.(inFlightMessages) = s.2.(inFlightMessages) →
  s'.2.(inFlightPQ) = s.2.(inFlightPQ) → chan_ok s → chan_ok s'.
Proof.
  intros E1 E2 E3 E4 E5 E6 E7 E8 [? ? ? ? ? ? ? ?].
  assert (Hown : owned s' = owned s) by (unfold owned, dvals; by rewrite E2, E4, E6, E8).
  split; rewrite ?Hown, ?E1, ?E2, ?E3, ?E5, ?E6, ?E7, ?E8; done.
Qed.

Lemma pop_memory (s : state) x xs :
  chan_ok s → s.2.(memoryMsgChan) = x :: xs →
  let s' := (s.1, set_memoryMsgChan xs s.2) in
  chan_ok s' ∧ x ∉ owned s' ∧ owned s = x :: owned s'.
Proof.
  intros [Hif Hifm Hdf Hdfm Hlive Hnd Hfr Hsm] Hmem s'.
  assert (Hown : owned s = x :: owned s') by (unfold owned at 1; by rewrite Hmem).
  rewrite Hown in Hnd. apply NoDup_cons in Hnd as [Hx Hnd].
  split_and!; [|done|done]. split; try done. intros y Hy. apply Hlive. rewrite Hown. by right.
Qed.

Lemma drop_memory (s : state) :
  chan_ok s → chan_ok (s.1, set_memoryMsgChan [] s.2).
Proof.
  intros [Hif Hifm Hdf Hdfm Hlive Hnd Hfr Hsm]. split; try done.
  - intros y Hy. apply Hlive. unfold owned in *. cbn in Hy. rewrite elem_of_app. by right.
  - unfold owned in *. cbn. by apply NoDup_app in Hnd as (_ & _ & ?).
Qed.

Lemma deliver_ok (s : state) now x cid t m :
  chan_ok s → x ∉ owned s → s.1.(msgs) !! x = Some m →
  ∃ err s' m', deliver now x cid t s = Some (err, s') ∧ chan_ok s' ∧ s'.1.(msgs) !! x = Some m' ∧
    encode_message m' = encode_message (set_Attempts (u16 (m.(Attempts) + 1)) m).
Proof.
  intros Hok Hx Hm. set (m' := set_Attempts (u16 (m.(Attempts) + 1)) m).
  set (s1 := (set_msgs (<[x := m']> s.1.(msgs)) s.1, s.2)).
  assert (Hok1 : chan_ok s1).
  { eapply chan_ok_put_msg; [done|done|done|]. pose proof (ck_small _ Hok x m Hm) as Hs. unfold small in *.
    rewrite encode_message_eq in *. rewrite !length_app, !length_be_encode in *. exact Hs. }
  assert (Hm1 : s1.1.(msgs) !! x = Some m') by (cbn; by rewrite lookup_insert_eq).
  assert (E1 : put_msg x m' s = Some ((), s1)) by (by destruct s).
  pose proof (StartInFlight_ok s1 now x cid t m' Hok1 Hx Hm1) as Hst.
  unfold deliver. callST ltac:(exact (get_msg_ok s x m Hm)). callST ltac:(exact E1).
  destruct (inFlightMessages s1.2 !! ID m') as [y|].
  - destruct Hst as (s2 & E2 & ? & _ & m2 & ? & ?). by exists (Some "ID already in flight"%string), s2, m2.
  - destruct Hst as (s2 & m2 & E2 & ? & (_ & ? & _) & _ & _ & ? & _). by exists None, s2, m2.
Qed.

Lemma PutDeferred_ok (s : state) now x t m :
  chan_ok s → x ∉ owned s → s.1.(msgs) !! x = Some m →
  ∃ s', PutMessageDeferred now x t s = Some ((), s') ∧ chan_ok s'.
Proof.
  intros Hok Hx Hm. set (s1 := (s.1, set_messageCount (u64 (s.2.(messageCount) + 1)) s.2)).
  assert (Hok1 : chan_ok s1) by (by apply (chan_ok_other s)).
  assert (E1 : upd_chan (λ c, set_messageCount (u64 (c.(messageCount) + 1)) c) s = Some ((), s1)) by (by destruct s).
  unfold PutMessageDeferred. callST ltac:(exact E1).
  pose proof (StartDeferred_ok s1 now x t m Hok1 Hx Hm) as Hs.
  destruct (deferredMessages s1.2 !! ID m).
  - callST ltac:(exact Hs). eexists. split; [done|]. by apply chan_ok_alloc_item.
  - destruct Hs as (s2 & E2 & A). callST ltac:(exact E2). eexists. split; [done|]. apply A.
Qed.

Lemma Exiting_ok (s : state) : Exiting s = Some (s.2.(exitFlag), s).
Proof. by destruct s. Qed.

Lemma PutMessage_ok (s : state) x m :
  chan_ok s → x ∉ owned s → s.1.(msgs) !! x = Some m →
  ∃ err s', PutMessage opts x s = Some (err, s') ∧ chan_ok s'.
Proof.
  intros Hok Hx Hm. unfold PutMessage. callST ltac:(exact (Exiting_ok s)).
  destruct (exitFlag s.2) eqn:E.
  { by eexists _, s. }
  destruct (put_ok opts s x m Hok Hx Hm) as (err & s1 & E1 & Hok1 & _).
  callST ltac:(exact E1). destruct err as [e|]; [by eexists _, s1|].
  destruct s1 as [h1 c1]. callST ltac:(reflexivity). eexists _, _. split; [done|]. by apply (chan_ok_other (h1, c1)).
Qed.

Lemma Empty_ok (s : state) :
  chan_ok s → ∃ err s', Empty opts s = Some (err, s') ∧ chan_ok s' ∧ owned s' = [] ∧
    s'.2.(inFlightMessages) = ∅ ∧ s'.2.(deferredMessages) = ∅ ∧ s'.2.(exitFlag) = s.2.(exitFlag).
Proof.
  intros Hok. destruct s as [h c]. unfold Empty. callST ltac:(reflexivity). callST ltac:(reflexivity).
  callST ltac:(reflexivity). callST ltac:(reflexivity).
  destruct (bq_Empty _) as [err b] eqn:E. callST ltac:(reflexivity). eexists err, _. split; [done|].
  destruct Hok as [Hif Hifm Hdf Hdfm Hlive Hnd Hfr Hsm]. split_and!; [|done|done|done|done].
  assert (Hpq : (1 <= pqSize opts)%nat) by (unfold pqSize; lia).
  split; cbn [fst snd]; try (cbn; done).
  - by apply IFPQ.new_ok.
  - intros id x. cbn. split; [by rewrite lookup_empty|]. by intros [?%elem_of_nil ?].
  - by apply PQ.q_new_ok.
  - intros id x. cbn. split; [by rewrite lookup_empty|]. by intros [?%elem_of_nil ?].
  - intros x Hx. by apply elem_of_nil in Hx.
  - constructor.
Qed.

Lemma write_all_total (s : state) xs :
  (∀ x, x ∈ xs → is_Some (s.1.(msgs) !! x)) →
  ∃ s', write_all xs s = Some ((), s') ∧ written s s'.
Proof.
  revert s. induction xs as [|x xs IH]; intros s Hlive; cbn [write_all].
  - exists s. split; [done|]. split; [done|]. exists s.2.(backend_). by destruct s as [h []].
  - destruct (Hlive x) as [m Hm]; [by constructor|].
    destruct (bq_Put (encode_message m) s.2.(backend_)) as [e b] eqn:Ep.
    set (s1 := (s.1, set_backend_ b s.2)).
    destruct (IH s1) as (s' & E & [Eh [b' Eb]]). { intros y Hy. apply Hlive. by constructor. }
    exists s'. split; [|split; [done|by exists b']].
    assert (E1 : write_logged x s = Some ((), s1)).
    { unfold write_logged. callST ltac:(exact (get_msg_ok s x m Hm)).
      unfold mbind, ST_bind, getST. destruct s as [h c]. cbn [fst snd] in *.
      rewrite writeMessageToBackend_eq, Ep. done. }
    callST ltac:(exact E1). exact E.
Qed.

Lemma written_ok (s s' : state) : written s s' → chan_ok s → chan_ok s'.
Proof. intros [Eh [b Eb]]. apply chan_ok_other; rewrite ?Eh, ?Eb; done. Qed.

Lemma flush_total (s : state) : chan_ok s → ∃ s', flush range s = Some ((), s') ∧ chan_ok s'.
Proof.
  intros Hok. destruct s as [h c]. unfold flush. callST ltac:(reflexivity). callST ltac:(reflexivity).
  set (s0 := (h, set_memoryMsgChan [] c)). assert (Hok0 : chan_ok s0) by exact (drop_memory (h, c) Hok).
  destruct (write_all_total s0 c.(memoryMsgChan)) as (s1 & E1 & W1).
  { intros x Hx. apply (ck_live _ Hok). unfold owned. rewrite elem_of_app. by left. }
  callST ltac:(exact E1). pose proof (written_ok _ _ W1 Hok0) as Hok1. destruct s1 as [h1 c1]. callST ltac:(reflexivity).
  destruct (write_all_total (h1, c1) (range _ (map_to_list c1.(inFlightMessages)).*2)) as (s2 & E2 & W2).
  { intros x Hx. apply (ck_live _ Hok1). apply owned_slice.
    by rewrite range_perm, (inflight_values (h1, c1) Hok1) in Hx. }
  callST ltac:(exact E2). pose proof (written_ok _ _ W2 Hok1) as Hok2. destruct s2 as [h2 c2]. callST ltac:(reflexivity).
  set (l3i := range _ (map_to_list c2.(deferredMessages)).*2).
  assert (P3 : l3i ≡ₚ c2.(deferredPQ).(qslice)).
  { unfold l3i. rewrite range_perm. exact (deferred_values (h2, c2) Hok2). }
  set (l3 := omap (λ i, Value <$> h2.(items) !! i) l3i).
  assert (Em : mapM (λ i, Value <$> h2.(items) !! i) l3i = Some l3).
  { apply (mapM_values (h2, c2)). intros i Hi. rewrite P3 in Hi.
    apply list_elem_of_lookup in Hi as [k Hk]. destruct (PQ.pq_indexed _ (ck_dfpq _ Hok2) k i Hk) as (it & Hit & _). by eexists. }
  assert (Elift : ∀ sx : state, liftST (mapM (λ i, Value <$> h2.(items) !! i) l3i) sx = Some (l3, sx)).
  { intros sx. unfold liftST. by rewrite Em. }
  callST ltac:(exact (Elift _)).
  destruct (write_all_total (h2, c2) l3) as (s3 & E3 & W3).
  { intros x Hx. apply (ck_live _ Hok2). unfold owned. rewrite !elem_of_app. right; right.
    unfold dvals. cbn [fst snd]. assert (Hp : l3 ≡ₚ omap (λ i, Value <$> h2.(items) !! i) c2.(deferredPQ).(qslice)) by (unfold l3; by f_equiv).
    by rewrite <- Hp. }
  exists s3. split; [done|]. by eapply written_ok.
Qed.

Lemma exit_ok (s : state) d : chan_ok s → ∃ err s', exit opts range d s = Some (err, s') ∧ chan_ok s'.
Proof.
  intros Hok. destruct s as [h c]. unfold exit. callST ltac:(reflexivity).
  destruct (exitFlag c); [by eexists _, (h, c)|].
  callST ltac:(reflexivity).
  set (h1 := if d then set_ctx_log (h.(ctx_log) ++ [Notify]) h else h).
  assert (E1 : whenST d (log Notify) (h, set_exitFlag true c) = Some ((), (h1, set_exitFlag true c))) by (by destruct d).
  callST ltac:(exact E1). callST ltac:(reflexivity).
  set (s2 := (set_consumers _ h1, set_exitFlag true c)).
  assert (Hok2 : chan_ok s2) by (apply (chan_ok_other (h, c)); try done; by destruct d).
  destruct d.
  - destruct (Empty_ok s2 Hok2) as (e & s3 & E3 & Hok3 & _). callST ltac:(exact E3).
    destruct s3 as [h3 c3]. callST ltac:(reflexivity). destruct (bq_Delete c3.(backend_)) as [err b].
    callST ltac:(reflexivity). eexists _, _. split; [done|]. by apply (chan_ok_other (h3, c3)).
  - destruct (flush_total s2 Hok2) as (s3 & E3 & Hok3). callST ltac:(exact E3).
    destruct s3 as [h3 c3]. callST ltac:(reflexivity). destruct (bq_Close c3.(backend_)) as [err b].
    callST ltac:(reflexivity). eexists _, _. split; [done|]. by apply (chan_ok_other (h3, c3)).
Qed.

Lemma clients_ok (s : state) cid : chan_ok s →
  (∃ err s', AddClient opts cid s = Some (err, s') ∧ chan_ok s') ∧
  (∃ s', RemoveClient cid s = Some ((), s') ∧ chan_ok s').
Proof.
  intros Hok. destruct s as [h c]. split.
  - unfold AddClient. callST ltac:(reflexivity). case_bool_decide; [by eexists _, (h, c)|].
    destruct (_ && _); [by eexists _, (h, c)|]. callST ltac:(reflexivity). eexists _, _. split; [done|].
    by apply (chan_ok_other (h, c)).
  - unfold RemoveClient. callST ltac:(reflexivity). case_bool_decide; cbn [negb]; [|by exists (h, c)].
    callST ltac:(reflexivity). callST ltac:(reflexivity). destruct (_ && _).
    + destruct (deleter_done _).
      * eexists. split; [done|]. by apply (chan_ok_other (h, c)).
      * callST ltac:(reflexivity). eexists. split; [done|]. by apply (chan_ok_other (h, c)).
    + eexists. split; [done|]. by apply (chan_ok_other (h, c)).
Qed.

(** A continuation that only forgets the result. *)
Lemma forget_ok {A} (m : ST state A) (s s' : state) a :
  m s = Some (a, s') → (_ ← m; mret ()) s = Some ((), s').
Proof. intros E. by callST ltac:(exact E). Qed.

Lemma scans_ok (s : state) t : chan_ok s →
  (∃ b s', processInFlightQueue opts t s = Some (b, s') ∧ chan_ok s') ∧
  (∃ b s', processDeferredQueue opts t s = Some (b, s') ∧ chan_ok s').
Proof.
  intros Hok. destruct s as [h c]. split.
  - unfold processInFlightQueue. callST ltac:(exact (Exiting_ok (h, c))). cbn [snd].
    destruct (exitFlag c); [by eexists _, (h, c)|]. callST ltac:(reflexivity).
    destruct (inflight_loop_ok opts (S (length c.(inFlightPQ).(slice))) t (h, c) false Hok) as (due & s' & E & R); [cbn; lia|].
    eexists _, s'. split; [exact E|]. apply R.
  - unfold processDeferredQueue. callST ltac:(exact (Exiting_ok (h, c))). cbn [snd].
    destruct (exitFlag c); [by eexists _, (h, c)|]. callST ltac:(reflexivity).
    destruct (deferred_loop_ok opts (S (length c.(deferredPQ).(qslice))) t (h, c) false Hok) as (due & s' & E & R); [cbn; lia|].
    eexists _, s'. split; [exact E|]. apply R.
Qed.

Lemma recv_memory_eq (s : state) :
  recv_memory s = match s.2.(memoryMsgChan) with
    | [] => Some (None, s)
    | x :: xs => Some (Some x, (s.1, set_memoryMsgChan xs s.2))
    end.
Proof. destruct s as [h c]. unfold recv_memory, mbind, ST_bind, getST. cbn. by destruct (memoryMsgChan c). Qed.

Lemma recv_backend_eq (s : state) :
  recv_backend s = match bq_Recv s.2.(backend_) with
    | None => Some (None, s)
    | Some (b, bq) => match decodeMessage b with
      | Err e => Some (Some (Err e), (s.1, set_backend_ bq s.2))
      | Ok m => (x ← new_msg m; mret (Some (Ok x))) (s.1, set_backend_ bq s.2)
      end
    end.
Proof.
  destruct s as [h c]. unfold recv_backend, mbind, ST_bind, getST. cbn [fst snd].
  destruct (bq_Recv (backend_ c)) as [[b bq]|]; [|done]. cbn. by destruct (decodeMessage b).
Qed.

Lemma exec_ok (s : state) o : chan_ok s → op_ok o → ∃ s', exec opts range o s = Some ((), s') ∧ chan_ok s'.
Proof.
  intros Hok Ho. destruct o as [m|now m t|now cid t|now cid t|now cid id t|cid id|now cid id t|t|t|cid|cid|b| |d]; cbn [exec].
  - destruct (new_msg_ok s m Hok Ho) as (s1 & E1 & Hok1 & Hm1 & Hx1 & _). callST ltac:(exact E1).
    destruct (PutMessage_ok s1 _ m Hok1 Hx1 Hm1) as (err & s2 & E2 & ?). exists s2. split; [by eapply forget_ok|done].
  - destruct (new_msg_ok s m Hok Ho) as (s1 & E1 & Hok1 & Hm1 & Hx1 & _). callST ltac:(exact E1).
    exact (PutDeferred_ok s1 now _ t m Hok1 Hx1 Hm1).
  - pose proof (recv_memory_eq s) as Er. destruct (memoryMsgChan s.2) as [|x xs] eqn:Hmem.
    + exists s. split; [|done]. by callST ltac:(exact Er).
    + destruct (pop_memory s x xs Hok Hmem) as (Hok1 & Hx1 & Hown).
      callST ltac:(exact Er).
      destruct (ck_live _ Hok x) as [m Hm]; [rewrite Hown; by constructor|].
      destruct (deliver_ok _ now x cid t m Hok1 Hx1 Hm) as (err & s2 & m2 & E2 & ? & _). exists s2. split; [by eapply forget_ok|done].
  - pose proof (recv_backend_eq s) as Er. destruct (bq_Recv s.2.(backend_)) as [[d b]|] eqn:Eb.
    2: { exists s. split; [|done]. by callST ltac:(exact Er). }
    assert (Hd : Z.of_nat (length d) < 2 ^ 31).
    { destruct (s.2.(backend_)) as [b0|b0]; cbn in Eb; [done|].
      destruct (bq_Recv b0) as [[d' b']|] eqn:Er'; [|done]. cbn in Eb. injection Eb as <- _. by eapply recv_small. }
    assert (Hok1 : chan_ok (s.1, set_backend_ b s.2)) by (by apply (chan_ok_other s)).
    destruct (decodeMessage d) as [m|e] eqn:Ed.
    + destruct (decodeMessage_ok d m Ed) as (_ & _ & Hm).
      destruct (new_msg_ok _ m Hok1) as (s1 & E1 & Hok2 & Hm1 & Hx1 & _); [unfold small; by rewrite Hm|].
      unfold mbind at 1, ST_bind at 1. rewrite Er. unfold mbind at 1, ST_bind at 1. rewrite E1. cbn [mret ST_ret].
      destruct (deliver_ok s1 now _ cid t m Hok2 Hx1 Hm1) as (err & s2 & m2 & E2 & ? & _). exists s2. split; [by eapply forget_ok|done].
    + eexists. split; [|exact Hok1]. by callST ltac:(exact Er).
  - destruct (TouchMessage_cases opts s now cid id t Hok) as [(e & E & _)|(x & m & m' & s' & _ & E & ? & _)].
    + exists s. split; [by eapply forget_ok|done].
    + exists s'. split; [by eapply forget_ok|done].
  - destruct (FinishMessage_cases s cid id Hok) as [(e & E & _)|(x & m & s' & _ & E & ? & _)].
    + exists s. split; [by eapply forget_ok|done].
    + exists s'. split; [by eapply forget_ok|done].
  - destruct (RequeueMessage_cases opts s now cid id t Hok) as [(e & E & _)|(x & m & err & s' & _ & E & ? & _)].
    + exists s. split; [by eapply forget_ok|done].
    + exists s'. split; [by eapply forget_ok|done].
  - destruct (scans_ok s t Hok) as [(b & s' & E & ?) _]. exists s'. split; [by eapply forget_ok|done].
  - destruct (scans_ok s t Hok) as [_ (b & s' & E & ?)]. exists s'. split; [by eapply forget_ok|done].
  - destruct (clients_ok s cid Hok) as [(e & s' & E & ?) _]. exists s'. split; [by eapply forget_ok|done].
  - apply (clients_ok s cid Hok).
  - destruct s as [h c]. unfold doPause. callST ltac:(reflexivity). eexists. split; [done|]. by apply (chan_ok_other (h, c)).
  - destruct (Empty_ok s Hok) as (e & s' & E & ? & _). exists s'. split; [by eapply forget_ok|done].
  - destruct (exit_ok s d Hok) as (e & s' & E & ?). exists s'. split; [by eapply forget_ok|done].
Qed.

Lemma exec_all_ok (s : state) os : chan_ok s → Forall op_ok os →
  ∃ s', exec_all opts range os s = Some ((), s') ∧ chan_ok s'.
Proof.
  intros Hok Hos. revert s Hok. induction Hos as [|o os Ho _ IH]; intros s Hok; cbn [exec_all].
  - by exists s.
  - destruct (exec_ok s o Hok Ho) as (s1 & E1 & Hok1). callST ltac:(exact E1). by apply IH.
Qed.

(** A heap none of whose objects is used by the new channel. *)
Definition heap_ok (h : heap C) : Prop :=
  (∀ x, (h.(next) <= x)%nat → h.(msgs) !! x = None ∧ h.(items) !! x = None) ∧
  ∀ x m, h.(msgs) !! x = Some m → small m.

Lemma NewChannel_ok dq_new e2e topic channel (h : heap C) :
  heap_ok h → ∃ s : state, NewChannel opts dq_new e2e topic channel h = Some s ∧ chan_ok s ∧
    owned s = [] ∧ s.2.(exitFlag) = false ∧
    s.2.(ephemeral) = Text.Names.is_ephemeral channel ∧
    s.2.(backend_) = if Text.Names.is_ephemeral channel then Dummy newDummyBackendQueue
                     else Disk (dq_new (getBackendName topic channel)).
Proof.
  intros [Hfr Hsm]. eexists. split; [reflexivity|]. split_and!; [|done..].
  assert (Hpq : (1 <= pqSize opts)%nat) by (unfold pqSize; lia).
  split; cbn [fst snd]; try (cbn; done).
  - by apply IFPQ.new_ok.
  - intros id x. cbn. split; [by rewrite lookup_empty|]. by intros [?%elem_of_nil ?].
  - by apply PQ.q_new_ok.
  - intros id x. cbn. split; [by rewrite lookup_empty|]. by intros [?%elem_of_nil ?].
  - intros x Hx. by apply elem_of_nil in Hx.
  - constructor.
Qed.

(** The consumers after the clients of the channel were all told. *)
Definition tell_all (f : C → C) (s : state) : gmap Z C :=
  map_imap (λ id x, Some (if bool_decide (id ∈ s.2.(clients)) then f x else x)) s.1.(consumers).

(** The state after [Empty]. *)
Definition emptied (s : state) : state :=
  (set_consumers (tell_all cons_Empty s) s.1,
   set_backend_ (bq_Empty s.2.(backend_)).2 (set_memoryMsgChan []
     (set_deferredPQ (PQ.New (pqSize opts)) (set_deferredMessages ∅
       (set_inFlightPQ (IFPQ.newInFlightPqueue (pqSize opts)) (set_inFlightMessages ∅ s.2)))))).

Lemma Empty_eq (s : state) : Empty opts s = Some ((bq_Empty s.2.(backend_)).1, emptied s).
Proof.
  destruct s as [h c]. unfold Empty, emptied. callST ltac:(reflexivity). callST ltac:(reflexivity).
  callST ltac:(reflexivity). callST ltac:(reflexivity). cbn [fst snd].
  change (backend_ (set_memoryMsgChan _ _)) with (backend_ c). by destruct (bq_Empty (backend_ c)).
Qed.

(** ** Properties *)

(** C26: a channel never panics and stays well-formed: from [NewChannel], any
    sequence of puts, deliveries, touches, finishes, requeues, scans, client
    changes, pauses, empties and exits runs to its end, and afterwards the
    in-flight and deferred maps hold exactly the messages of their priority
    queues, which are heaps in order, and memory, flight and deferral share
    no message. *)
Theorem channel_safe dq_new (e2e : option Q) topic channel (h : heap C) (os : list chan_op) :
  heap_ok h → Forall op_ok os →
  ∃ s0 s, NewChannel opts dq_new e2e topic channel h = Some s0 ∧
    exec_all opts range os s0 = Some ((), s) ∧ chan_ok s.
Proof.
  intros Hh Hos. destruct (NewChannel_ok dq_new e2e topic channel h Hh) as (s0 & E0 & Hok0 & _).
  destruct (exec_all_ok s0 os Hok0 Hos) as (s & E & Hok). by exists s0, s.
Qed.

(** C29: [FinishMessage] succeeds exactly when the message is in flight and
    owned by the client; it then removes that one message, and the channel
    holds all its others; otherwise it names the reason and changes
    nothing. *)
Theorem finish_exact (s : state) (cid : Z) (id : MessageID) :
  chan_ok s →
  match FinishMessage cid id s with
  | None => False
  | Some (Some e, s') => s' = s ∧ not_owner s cid id e
  | Some (None, s') => ∃ x m, in_flight s cid id x m ∧ chan_ok s' ∧
      s'.2.(inFlightMessages) = delete id s.2.(inFlightMessages) ∧
      ∀ n l, holds n s l → ∃ l', l ≡ₚ msg_sig m :: l' ∧ holds n s' l'
  end.
Proof.
  intros Hok. destruct (FinishMessage_cases s cid id Hok) as [(e & -> & He)|(x & m & s' & Hif & -> & Hok' & Hmap & _ & Hh)].
  - done.
  - by exists x, m.
Qed.

(** [RequeueMessage] takes the owner's message out of flight and puts it
    back, in memory, in the backend or (with a delay) on the deferred queue:
    without an error the channel holds the same messages as before. It
    forgets the message when the channel is exiting or when the identifier is
    already deferred; a failed write of the backend is reported to
    [SetHealth] and loses at most this message. *)
Theorem requeue_keeps (s : state) (now : time) (cid : Z) (id : MessageID) (timeout : duration) :
  chan_ok s →
  match RequeueMessage opts now cid id timeout s with
  | None => False
  | Some (err, s') =>
    (s' = s ∧ ∃ e, err = Some e ∧ not_owner s cid id e) ∨
    ∃ x m, in_flight s cid id x m ∧ chan_ok s' ∧
      s'.2.(inFlightMessages) = delete id s.2.(inFlightMessages) ∧
      ∀ n l, holds (S n) s l → ∃ l', l ≡ₚ msg_sig m :: l' ∧
        match err with
        | None => holds n s' l
        | Some e =>
          (e = "exiting"%string ∧ timeout = 0 ∧ s.2.(exitFlag) = true ∧ holds n s' l') ∨
          (e = "ID already deferred"%string ∧ timeout ≠ 0 ∧ is_Some (s.2.(deferredMessages) !! id) ∧ holds n s' l') ∨
          (timeout = 0 ∧ kept n s s' [msg_sig m] l)
        end
  end.
Proof.
  intros Hok. destruct (RequeueMessage_cases opts s now cid id timeout Hok)
    as [(e & -> & He)|(x & m & err & s' & Hif & -> & Hok' & Hmap & _ & Hh)].
  - left. split; [done|]. by exists e.
  - right. by exists x, m.
Qed.

(** C30: [TouchMessage] gives the owner's message a new time-out, never later
    than [MaxMsgTimeout] after its delivery, and leaves it in flight; no
    message is lost or duplicated. *)
Theorem touch_bounded (s : state) (now : time) (cid : Z) (id : MessageID) (timeout : duration) :
  chan_ok s → 0 <= opts.(MaxMsgTimeout) < 2 ^ 63 →
  match TouchMessage opts now cid id timeout s with
  | None => False
  | Some (Some e, s') => s' = s ∧ not_owner s cid id e
  | Some (None, s') => ∃ x m m', in_flight s cid id x m ∧ in_flight s' cid id x m' ∧
      m'.(pri) = i64 (Z.min (now + timeout) (m.(deliveryTS) + opts.(MaxMsgTimeout))) ∧
      chan_ok s' ∧ s'.2.(inFlightMessages) = s.2.(inFlightMessages) ∧
      ∀ n l, holds n s l → holds n s' l
  end.
Proof.
  intros Hok Hmax. destruct (TouchMessage_cases opts s now cid id timeout Hok)
    as [(e & -> & He)|(x & m & m' & s' & Hif & -> & Hok' & Hif' & Hpri & _ & _ & _ & Hmap & Hh)]; [done|].
  exists x, m, m'. split_and!; try done. rewrite Hpri. unfold touched_pri, time_add, time_sub, UnixNano. f_equal.
  destruct (_ >=? _) eqn:E; lia.
Qed.

(** C28: the in-flight scan at time [t] takes out of flight exactly the
    messages whose time-out is at most [t], counts them, tells the clients
    that are still subscribed, and queues them again: nothing else is
    touched, and a message is lost only if the backend reports a failed
    write. *)
Theorem inflight_scan_exact (s : state) (t : Z) :
  chan_ok s → s.2.(exitFlag) = false →
  ∃ due s', processInFlightQueue opts t s = Some (negb (bool_decide (due = [])), s') ∧ chan_ok s' ∧
    s.2.(inFlightPQ).(slice) ≡ₚ due ++ s'.2.(inFlightPQ).(slice) ∧
    Forall (λ x, IFPQ.pri_of s.1.(msgs) x <= t) due ∧
    Forall (λ x, t < IFPQ.pri_of s.1.(msgs) x) s'.2.(inFlightPQ).(slice) ∧
    u64 s'.2.(timeoutCount) = u64 (s.2.(timeoutCount) + Z.of_nat (length due)) ∧
    s'.1.(consumers) = foldl (tell s.2.(clients)) s.1.(consumers) (client_of s.1.(msgs) <$> due) ∧
    ∀ n l, holds (length due + n) s l → kept n s s' (sig_at s.1.(msgs) <$> due) l.
Proof.
  intros Hok Hex. unfold processInFlightQueue. callST ltac:(exact (Exiting_ok s)). rewrite Hex.
  destruct s as [h c]. callST ltac:(reflexivity).
  destruct (inflight_loop_ok opts (S (length c.(inFlightPQ).(slice))) t (h, c) false Hok) as (due & s' & E & R); [cbn; lia|].
  destruct R. exists due, s'. split_and!; done.
Qed.

(** The deferred scan at time [t] releases exactly the messages whose
    delay has passed by [t] and queues them for delivery, with the same
    guarantee. *)
Theorem deferred_scan_exact (s : state) (t : Z) :
  chan_ok s → s.2.(exitFlag) = false →
  ∃ due s', processDeferredQueue opts t s = Some (negb (bool_decide (due = [])), s') ∧ chan_ok s' ∧
    s.2.(deferredPQ).(qslice) ≡ₚ due ++ s'.2.(deferredPQ).(qslice) ∧
    Forall (λ i, PQ.prio_of s.1.(items) i <= t) due ∧
    Forall (λ i, t < PQ.prio_of s.1.(items) i) s'.2.(deferredPQ).(qslice) ∧
    s'.2.(inFlightMessages) = s.2.(inFlightMessages) ∧
    ∀ n l, holds (length due + n) s l →
      kept n s s' ((λ i, sig_at s.1.(msgs) (value_of s.1.(items) i)) <$> due) l.
Proof.
  intros Hok Hex. unfold processDeferredQueue. callST ltac:(exact (Exiting_ok s)). rewrite Hex.
  destruct s as [h c]. callST ltac:(reflexivity).
  destruct (deferred_loop_ok opts (S (length c.(deferredPQ).(qslice))) t (h, c) false Hok) as (due & s' & E & R); [cbn; lia|].
  destruct R. exists due, s'. split_and!; done.
Qed.

(** [Close] loses nothing: when the backend stores every message that
    fits it, every message the channel holds, in memory, in flight, deferred
    or in the backend already, is in the backend when it is closed, each once;
    the clients are told and a second [Close] reports that it is exiting. *)
Theorem close_flushes (fits : bytes → Prop) (s : state) (n : nat) (l : list bytes) :
  (∀ n (b : backend D) q d, bq_rep (S n) b q → fits d → (bq_Put d b).1 = None) →
  (∀ x m, x ∈ owned s → s.1.(msgs) !! x = Some m → fits (encode_message m)) →
  chan_ok s → s.2.(exitFlag) = false → holds (length (owned s) + n) s l →
  ∃ (b : backend D) q c', bq_rep n b q ∧ sig <$> q ≡ₚ l ∧
    Close opts range s =
      Some ((bq_Close b).1, (set_consumers (tell_all cons_Close s) s.1, set_backend_ (bq_Close b).2 c')) ∧
    c'.(memoryMsgChan) = [] ∧ c'.(exitFlag) = true ∧
    ∀ h, Close opts range (h, set_backend_ (bq_Close b).2 c') =
      Some (Some "exiting"%string, (h, set_backend_ (bq_Close b).2 c')).
Proof.
  intros Hput Hfits Hok Hex Hh. destruct s as [h c]. cbn in Hex.
  set (h1 := set_consumers (tell_all cons_Close (h, c)) h).
  set (s1 := (h1, set_exitFlag true c)).
  assert (Hok1 : chan_ok s1) by by apply (chan_ok_other (h, c)).
  destruct (flush_ok range range_perm fits Hput s1 n l Hok1 Hfits Hh) as (s2 & q & E & Hq & El & Hmem & Eh & Hf).
  destruct s2 as [h2 c2]. cbn in Eh, Hmem, Hq, Hf. subst h2.
  exists c2.(backend_), q, c2. split_and!; [done..| |done|done|].
  - unfold Close, exit. callST ltac:(reflexivity). rewrite Hex. callST ltac:(reflexivity).
    callST ltac:(reflexivity). callST ltac:(reflexivity). callST ltac:(exact E). callST ltac:(reflexivity).
    by destruct (bq_Close c2.(backend_)).
  - intros h3. unfold Close, exit. callST ltac:(reflexivity). cbn. by rewrite Hf.
Qed.

(** Finishing a message is two critical sections, and emptying the
    channel fits between them: for every in-flight message, [popInFlightMessage]
    by its owner, then [Empty] by another goroutine, then
    [removeFromInFlightPQ] indexes the new, empty queue and panics. *)
Theorem finish_empty_race (s : state) (cid : Z) (id : MessageID) (x : loc) (m : Message) :
  chan_ok s → in_flight s cid id x m →
  ∃ s1 err s2, popInFlightMessage cid id s = Some (Ok x, s1) ∧
    Empty opts s1 = Some (err, s2) ∧ removeFromInFlightPQ x s2 = None.
Proof.
  intros Hok (Hid & Hm & Hcid). destruct s as [h c]. cbn [fst snd] in *.
  set (s1 := (h, set_inFlightMessages (delete id c.(inFlightMessages)) c)).
  exists s1, (bq_Empty s1.2.(backend_)).1, (emptied s1). split_and!; [|apply Empty_eq|].
  - unfold popInFlightMessage. callST ltac:(reflexivity). rewrite Hid.
    callST ltac:(exact (get_msg_ok (h, c) x m Hm)).
    rewrite Hcid, Z.eqb_refl. cbn [negb]. by callST ltac:(reflexivity).
  - pose proof (proj1 (ck_ifmap _ Hok id x) Hid) as [Hx _].
    destruct (slice_live (h, c) x (ck_ifpq _ Hok) Hx) as (k & m' & _ & Hm' & Hk).
    cbn in Hm'. simplify_eq. unfold removeFromInFlightPQ, get_msg, mbind, ST_bind, getST, liftST, on_ifpq.
    cbn [fst snd]. cbn. rewrite Hm. cbn. rewrite Hk.
    by rewrite (proj2 (Z.eqb_neq _ _)), (proj2 (Z.ltb_ge _ _)) by lia.
Qed.

End safety.
End ChannelSpec.
