(* ===== verification/ChannelFrame.v ===== *)
(** * The footprint of a channel

    Channels share the objects of one heap. An operation of a channel reads
    and writes only the messages and items the channel owns, those it is
    given and those it allocates: whatever holds of the other channels still
    holds afterwards. The footprint is a pair of sets of locations, and each
    operation preserves it. *)
From stdpp Require Import base gmap list strings.
From Stdlib Require Import ZArith Lia.
From S2P Require Import Prelude.
From S2P Require Import Message.
From S2P Require Import Heap.
From S2P Require Import InFlightPQ.
From S2P Require Import PQueue.
From S2P Require Import Backend.
From S2P Require Import Channel.
From S2P Require Import ChannelProofs.
From S2P Require Import ChannelProps.
Set Default Goal Selector "!".
Local Open Scope Z_scope.

(** ** Heaps *)
Section heap_foot.
Context {V : Type} `{HeapItem V}.
Notation store := (gmap nat V).
Notation hstate := (gmap nat V * list nat)%type.
Context (X : nat → Prop) (P : V → Prop) (st0 : store).
Hypothesis P_index : ∀ k v, P v → P (item_set_index k v).

(** The slice stays in [X], nothing outside [X] changes, and the objects in
    [X] satisfy [P], which does not depend on the index. *)
Definition hfoot (s : hstate) : Prop :=
  (∀ x, x ∈ s.2 → X x) ∧ (∀ x, ¬ X x → s.1 !! x = st0 !! x) ∧
  (∀ x v, X x → s.1 !! x = Some v → P v).

Lemma hfoot_set st l x v k :
  hfoot (st, l) → X x → st !! x = Some v → hfoot (<[x := item_set_index k v]> st, l).
Proof.
  intros (Hl & Ho & Hp) Hx Hv. split_and!; cbn in *; [done| |].
  - intros y Hy. rewrite lookup_insert_ne; [by apply Ho|]. by intros <-.
  - intros y w Hy. rewrite lookup_insert_Some. intros [[<- <-]|[_ ?]]; [|by eapply Hp].
    by apply P_index, (Hp x).
Qed.

Lemma hfoot_slice st l l' : hfoot (st, l) → (∀ x, x ∈ l' → X x) → hfoot (st, l').
Proof. by intros (_ & ? & ?) ?. Qed.

Lemma Swap_foot i j s s' : hfoot s → Swap i j s = Some s' → hfoot s'.
Proof.
  destruct s as [st pq]. intros Hf E. pose proof Hf as (Hl & _). unfold Swap in E.
  destruct (pq !! i) as [x|] eqn:Ex; [|done]. destruct (pq !! j) as [y|] eqn:Ey; [|done].
  cbn [mbind option_bind] in E. set (pq' := <[i:=y]> (<[j:=x]> pq)) in *.
  assert (Hl' : ∀ z, z ∈ pq' → X z).
  { intros z Hz. apply Hl. unfold pq' in Hz. apply list_elem_of_lookup in Hz as [k Hk].
    apply list_lookup_insert_Some in Hk as [(_ & <- & _)|[_ Hk]]; [by eapply list_elem_of_lookup_2|].
    apply list_lookup_insert_Some in Hk as [(_ & <- & _)|[_ Hk]]; by eapply list_elem_of_lookup_2. }
  destruct (pq' !! i) as [xi|] eqn:Exi; [|done]. cbn [mbind option_bind] in E.
  destruct (st !! xi) as [vi|] eqn:Evi; [|done]. cbn [mbind option_bind] in E.
  destruct (pq' !! j) as [xj|] eqn:Exj; [|done]. cbn [mbind option_bind] in E.
  destruct (_ !! xj) as [vj|] eqn:Evj; [|done]. cbn [mbind option_bind] in E. injection E as <-.
  apply hfoot_set; [|by eapply Hl', list_elem_of_lookup_2|done].
  apply hfoot_set; [|by eapply Hl', list_elem_of_lookup_2|done]. by eapply hfoot_slice.
Qed.

Lemma up_loop_foot fuel : ∀ j s s', hfoot s → up_loop fuel j s = Some s' → hfoot s'.
Proof.
  induction fuel as [|fuel IH]; intros j s s' Hf E; cbn [up_loop] in E; [done|].
  case_bool_decide; [by injection E as <-|].
  destruct (pri_at s j); [|done]. destruct (pri_at s _); [|done]. cbn [mbind option_bind] in E.
  destruct (_ >=? _); [by injection E as <-|].
  destruct (Swap _ j s) as [s1|] eqn:Es; [|done]. eapply IH; [|exact E]. by eapply Swap_foot.
Qed.

Lemma down_loop_foot right fuel : ∀ i n s s' k, hfoot s → down_loop right fuel i n s = Some (s', k) → hfoot s'.
Proof.
  induction fuel as [|fuel IH]; intros i n s s' k Hf E; cbn [down_loop] in E; [done|].
  case_bool_decide; [by injection E as <- <-|].
  destruct (if bool_decide _ then _ else _) as [j|]; [|done]. cbn [mbind option_bind] in E.
  destruct (pri_at s j); [|done]. destruct (pri_at s i); [|done]. cbn [mbind option_bind] in E.
  destruct (_ >=? _); [by injection E as <- <-|].
  destruct (Swap i j s) as [s1|] eqn:Es; [|done]. eapply IH; [|exact E]. by eapply Swap_foot.
Qed.

Lemma up_foot j s s' : hfoot s → up j s = Some s' → hfoot s'.
Proof. apply up_loop_foot. Qed.

Lemma down_foot right i n s s' k : hfoot s → down right i n s = Some (s', k) → hfoot s'.
Proof. apply down_loop_foot. Qed.

Lemma detach_foot s s' x : hfoot s → detach_last s = Some (s', x) → hfoot s' ∧ X x.
Proof.
  destruct s as [st pq]. intros Hf E. pose proof Hf as (Hl & _). unfold detach_last in E.
  destruct (last pq) as [y|] eqn:Ey; [|done]. cbn [mbind option_bind] in E.
  destruct (st !! y) as [v|] eqn:Ev; [|done]. cbn [mbind option_bind] in E. injection E as <- <-.
  assert (Hy : X y) by (by apply Hl, last_Some_elem_of).
  split; [|done]. apply hfoot_set; [|done|done]. eapply hfoot_slice; [exact Hf|]. intros z Hz.
  apply Hl. cbn. rewrite <- (take_drop (length pq - 1) pq), elem_of_app. by left.
Qed.

Lemma attach_foot x s s' : hfoot s → X x → attach x s = Some s' → hfoot s'.
Proof.
  destruct s as [st pq]. intros Hf Hx E. pose proof Hf as (Hl & _). unfold attach in E.
  destruct (st !! x) as [v|] eqn:Ev; [|done]. cbn [mbind option_bind] in E. injection E as <-.
  apply hfoot_set; [|done|done]. eapply hfoot_slice; [exact Hf|]. intros z.
  rewrite elem_of_app, list_elem_of_singleton. intros [?| ->]; [by apply Hl|done].
Qed.
End heap_foot.

(** ** The two queues *)
Section queue_foot.
Context (X : nat → Prop).

Section ifpq.
Context (st0 : mstore).
Notation PT := (λ _ : Message, True).
Notation hf := (hfoot X PT st0).

Lemma ifpq_Push_foot x st pq s' :
  hf (st, pq.(slice)) → X x → IFPQ.Push x (st, pq) = Some s' → hf (s'.1, s'.2.(slice)).
Proof.
  intros Hf Hx E. unfold IFPQ.Push in E.
  destruct (if bool_decide _ then _ else _) as [pq1|] eqn:Er; [|done]. cbn [mbind option_bind] in E.
  assert (Es : pq1.(slice) = pq.(slice)).
  { unfold IFPQ.remake in Er. repeat case_bool_decide; by simplify_eq/=. }
  case_bool_decide; [done|]. destruct (attach x _) as [h|] eqn:Ea; [|done]. cbn [mbind option_bind] in E.
  destruct (up _ h) as [h'|] eqn:Eu; [|done]. injection E as <-. cbn.
  rewrite <- Es in Hf. eapply (attach_foot X PT st0) in Ea; [|done..]. eapply (up_foot X PT st0) in Eu; [|done..]. by destruct h'.
Qed.

Lemma ifpq_Pop_foot st pq s' x :
  hf (st, pq.(slice)) → IFPQ.Pop (st, pq) = Some (s', x) → hf (s'.1, s'.2.(slice)) ∧ X x.
Proof.
  intros Hf E. unfold IFPQ.Pop in E. case_bool_decide; [done|].
  destruct (Swap _ _ _) as [h|] eqn:Es; [|done]. cbn [mbind option_bind] in E.
  destruct (down _ _ _ h) as [[h1 k]|] eqn:Ed; [|done]. cbn [mbind option_bind] in E.
  destruct (if _ && _ then _ else _) as [pq1|] eqn:Er; [|done]. cbn [mbind option_bind] in E.
  assert (Ep : pq1.(slice) = h1.2).
  { unfold IFPQ.remake in Er. repeat case_bool_decide; by simplify_eq/=. }
  destruct (detach_last _) as [[h2 y]|] eqn:El; [|done]. injection E as <- <-.
  eapply (Swap_foot X PT st0) in Es; [|done..]. eapply (down_foot X PT st0) in Ed; [|done..]. rewrite Ep in El.
  destruct h1 as [st1 l1]. eapply (detach_foot X PT st0) in El; [|done..]. by destruct h2.
Qed.

Lemma ifpq_Remove_foot i st pq s' x :
  hf (st, pq.(slice)) → IFPQ.Remove i (st, pq) = Some (s', x) → hf (s'.1, s'.2.(slice)) ∧ X x.
Proof.
  intros Hf E. unfold IFPQ.Remove in E. case_bool_decide; [done|].
  destruct (if bool_decide _ then _ else _) as [h|] eqn:Er; [|done]. cbn [mbind option_bind] in E.
  assert (Hh : hf h).
  { case_bool_decide; [by injection Er as <-|].
    destruct (Swap _ _ _) as [h0|] eqn:Es; [|done]. cbn [mbind option_bind] in Er.
    destruct (down _ _ _ h0) as [[h1 k]|] eqn:Ed; [|done]. cbn [mbind option_bind] in Er.
    eapply (Swap_foot X PT st0) in Es; [|done..]. eapply (down_foot X PT st0) in Ed; [|done..]. by eapply (up_foot X PT st0) in Er. }
  destruct (detach_last h) as [[h2 y]|] eqn:El; [|done]. injection E as <- <-.
  eapply (detach_foot X PT st0) in El; [|done..]. by destruct h2.
Qed.

Lemma ifpq_PeekAndShift_foot t st pq s' r d :
  hf (st, pq.(slice)) → IFPQ.PeekAndShift t (st, pq) = Some (s', (r, d)) →
  hf (s'.1, s'.2.(slice)) ∧ ∀ x, r = Some x → X x.
Proof.
  intros Hf E. unfold IFPQ.PeekAndShift in E. destruct (slice pq) as [|x l] eqn:El.
  { injection E as <- <- <-. cbn. by rewrite El. }
  destruct (st !! x) as [m|]; [|done]. cbn [mbind option_bind] in E. destruct (_ >? _).
  { injection E as <- <- <-. cbn. by rewrite El. }
  destruct (IFPQ.Pop _) as [[s1 y]|] eqn:Ep; [|done]. injection E as <- <- <-.
  rewrite <- El in Hf. pose proof Hf as (Hl & _). split; [by eapply ifpq_Pop_foot|].
  intros z [= <-]. apply Hl. cbn. rewrite El. by left.
Qed.
End ifpq.

Section dfpq.
Context (Y : nat → Prop) (st0 : istore).
(** The items in [Y] point to messages in [X]. *)
Notation PV := (λ it : Item, X it.(Value)).
Notation hf := (hfoot Y PV st0).

Lemma dfpq_Pop_foot st pq s' x :
  hf (st, pq.(qslice)) → PQ.Pop (st, pq) = Some (s', x) → hf (s'.1, s'.2.(qslice)) ∧ Y x.
Proof.
  intros Hf E. unfold PQ.Pop in E.
  destruct (if _ && _ then _ else _) as [pq1|] eqn:Er; [|done]. cbn [mbind option_bind] in E.
  assert (Ep : pq1.(qslice) = pq.(qslice)).
  { unfold PQ.remake in Er. repeat case_bool_decide; by simplify_eq/=. }
  destruct (detach_last _) as [[h2 y]|] eqn:El; [|done]. injection E as <- <-. rewrite Ep in El.
  eapply (detach_foot Y PV st0) in El; [|done..]. by destruct h2.
Qed.

Lemma dfpq_Push_foot x st pq s' :
  hf (st, pq.(qslice)) → Y x → PQ.heap_Push x (st, pq) = Some s' → hf (s'.1, s'.2.(qslice)).
Proof.
  intros Hf Hx E. unfold PQ.heap_Push, PQ.Push in E.
  destruct (if bool_decide _ then _ else _) as [pq1|] eqn:Er; [|done]. cbn [mbind option_bind] in E.
  assert (Es : pq1.(qslice) = pq.(qslice)).
  { unfold PQ.remake in Er. repeat case_bool_decide; by simplify_eq/=. }
  case_bool_decide; [done|]. destruct (attach x _) as [h|] eqn:Ea; [|done]. cbn [mbind option_bind] in E.
  destruct (up _ _) as [h'|] eqn:Eu; [|done]. injection E as <-. cbn.
  rewrite <- Es in Hf. eapply (attach_foot Y PV st0) in Ea; [|done..].
  eapply (up_foot Y PV st0) in Eu; [|done|by destruct h]. by destruct h'.
Qed.

Lemma dfpq_PeekAndShift_foot t st pq s' r d :
  hf (st, pq.(qslice)) → PQ.PeekAndShift t (st, pq) = Some (s', (r, d)) →
  hf (s'.1, s'.2.(qslice)) ∧ ∀ x, r = Some x → Y x.
Proof.
  intros Hf E. unfold PQ.PeekAndShift in E. destruct (qslice pq) as [|x l] eqn:El.
  { injection E as <- <- <-. cbn. by rewrite El. }
  destruct (st !! x) as [m|]; [|done]. cbn [mbind option_bind] in E. destruct (_ >? _).
  { injection E as <- <- <-. cbn. by rewrite El. }
  destruct (PQ.heap_Remove _ _) as [[s1 y]|] eqn:Ep; [|done]. injection E as <- <- <-.
  rewrite <- El in Hf. pose proof Hf as (Hl & _). split; [|intros z [= <-]; apply Hl; cbn; rewrite El; by left].
  unfold PQ.heap_Remove in Ep. case_bool_decide; [done|].
  destruct (if bool_decide _ then _ else _) as [h|] eqn:Er; [|done]. cbn [mbind option_bind] in Ep.
  eapply dfpq_Pop_foot in Ep; [apply Ep|]. cbn.
  case_bool_decide; [by injection Er as <-|].
  destruct (Swap _ _ _) as [h0|] eqn:Es; [|done]. cbn [mbind option_bind] in Er.
  destruct (down _ _ _ h0) as [[h1 k]|] eqn:Ed; [|done]. cbn [mbind option_bind] in Er.
  eapply (Swap_foot Y PV st0) in Es; [|done..]. eapply (down_foot Y PV st0) in Ed; [|done..].
  case_bool_decide; [injection Er as <-; by destruct h1|]. eapply (up_foot Y PV st0) in Er; [|done..]. by destruct h.
Qed.
End dfpq.
End queue_foot.

(** ** Channels *)
Module ChannelF.
Import Channel ChannelP ChannelSpec.

(** What calls of its methods make of a consumer. *)
Inductive called {C : Type} `{Consumer C} (c : C) : C → Prop :=
| called_refl : called c c
| called_UnPause c' : called c c' → called c (cons_UnPause c')
| called_Pause c' : called c c' → called c (cons_Pause c')
| called_Close c' : called c c' → called c (cons_Close c')
| called_TimedOut c' : called c c' → called c (cons_TimedOutMessage c')
| called_Empty c' : called c c' → called c (cons_Empty c').
#[global] Hint Constructors called : core.

(** Consumers neither come nor go, and only their methods change them. *)
Definition consumers_kept {C : Type} `{Consumer C} (cs cs' : gmap Z C) : Prop :=
  ∀ id, option_Forall2 called (cs !! id) (cs' !! id).

Lemma consumers_kept_refl {C : Type} `{Consumer C} (cs : gmap Z C) : consumers_kept cs cs.
Proof. intros id. destruct (cs !! id); by constructor. Qed.

Lemma called_trans {C : Type} `{Consumer C} (c1 c2 c3 : C) : called c1 c2 → called c2 c3 → called c1 c3.
Proof. intros H12 H23. induction H23; eauto. Qed.

Lemma consumers_kept_trans {C : Type} `{Consumer C} (cs1 cs2 cs3 : gmap Z C) :
  consumers_kept cs1 cs2 → consumers_kept cs2 cs3 → consumers_kept cs1 cs3.
Proof.
  intros H12 H23 id. specialize (H12 id). specialize (H23 id). destruct H12 as [c c2 Hc|]; [|done].
  inversion H23 as [? c3 Hc' E1 E2|]; subst. constructor. by eapply called_trans.
Qed.

Section foot.
Context {C D Q : Type} `{Consumer C, BackendQueue D, QuantileStream Q}.
Context (opts : options) (range : ∀ A : Type, list A → list A).
Notation state := (@state C D Q).

(** The messages and the items the operation may touch: everything it
    allocates is among them. *)
Context (X Y : nat → Prop) (h0 : heap C).
Hypothesis X_fresh : ∀ x, (h0.(next) <= x)%nat → X x.
Hypothesis Y_fresh : ∀ x, (h0.(next) <= x)%nat → Y x.

Record foot (s : state) : Prop := {
  ft_next : (h0.(next) <= s.1.(next))%nat;
  ft_mem : ∀ x, x ∈ s.2.(memoryMsgChan) → X x;
  ft_msgs : hfoot X (λ _ : Message, True) h0.(msgs) (s.1.(msgs), s.2.(inFlightPQ).(slice));
  ft_items : hfoot Y (λ it : Item, X it.(Value)) h0.(items) (s.1.(items), s.2.(deferredPQ).(qslice));
  ft_ifmap : ∀ id x, s.2.(inFlightMessages) !! id = Some x → X x;
  ft_dfmap : ∀ id x, s.2.(deferredMessages) !! id = Some x → Y x;
  ft_cons : consumers_kept h0.(consumers) s.1.(consumers);
}.

(** [m] keeps the footprint when run in [s], and its result satisfies [R]. *)
Definition fp {A} (m : ST state A) (s : state) (R : A → Prop) : Prop :=
  foot s → ∀ a s', m s = Some (a, s') → foot s' ∧ R a.

Definition any {A} : A → Prop := λ _, True.

Lemma fp_ret {A} (a : A) s (R : A → Prop) : R a → fp (mret a) s R.
Proof. intros HR Hf b s' [= <- <-]. by split. Qed.

Lemma fp_bind {A B} (m : ST state A) (f : A → ST state B) s R1 R :
  fp m s R1 → (∀ a s', foot s' → R1 a → fp (f a) s' R) → fp (m ≫= f) s R.
Proof.
  intros Hm Hk Hf b s'' (a & s' & E & E')%ST_bind_inv. destruct (Hm Hf a s' E) as [Hf' HR].
  by apply (Hk a s' Hf' HR Hf' b).
Qed.

Lemma fp_get {B} (f : state → ST state B) s R : fp (f s) s R → fp (getST ≫= f) s R.
Proof. done. Qed.

Lemma fp_weaken {A} (m : ST state A) s (R R' : A → Prop) : fp m s R → (∀ a, R a → R' a) → fp m s R'.
Proof. intros Hm HR Hf a s' E. destruct (Hm Hf a s' E). split; [done|by apply HR]. Qed.

Lemma fp_assume {A} (m : ST state A) s (R : A → Prop) : (foot s → fp m s R) → fp m s R.
Proof. intros Hm Hf. exact (Hm Hf Hf). Qed.

Lemma fp_panic {A} s (R : A → Prop) : fp panic s R.
Proof. done. Qed.

Lemma fp_upd_chan f s : (foot s → foot (s.1, f s.2)) → fp (upd_chan f) s any.
Proof. destruct s as [h c]. intros Hu Hf [] s' [= <-]. split; [by apply Hu|done]. Qed.

Lemma fp_upd_heap f s : (foot s → foot (f s.1, s.2)) → fp (upd_heap f) s any.
Proof. destruct s as [h c]. intros Hu Hf [] s' [= <-]. split; [by apply Hu|done]. Qed.

Lemma fp_modST f s : (foot s → foot (f s)) → fp (modST f) s any.
Proof. intros Hu Hf [] s' [= <-]. split; [by apply Hu|done]. Qed.

(** Fields outside the footprint. *)
Ltac untouched := intros [? ? ? ? ? ? ?]; split; done.

Lemma fp_log e s : fp (log e) s any.
Proof. apply fp_upd_heap. untouched. Qed.

Lemma consumers_kept_imap (cs cs' : gmap Z C) (f : Z → C → C) :
  consumers_kept cs cs' → (∀ id c, f id c = c ∨ ∀ c0, called c0 c → called c0 (f id c)) →
  consumers_kept cs (map_imap (λ id c, Some (f id c)) cs').
Proof.
  intros Hk Hf id. rewrite map_lookup_imap. destruct (Hk id) as [c c' Hc|]; cbn; [|constructor].
  constructor. destruct (Hf id c') as [->|Hf']; auto.
Qed.

Lemma consumers_kept_alter (cs cs' : gmap Z C) f id :
  consumers_kept cs cs' → (∀ c c', called c c' → called c (f c')) → consumers_kept cs (alter f id cs').
Proof.
  intros Hk Hf id'. destruct (decide (id = id')) as [->|]; [|by rewrite lookup_alter_ne].
  rewrite lookup_alter_eq. destruct (Hk id'); cbn; constructor; auto.
Qed.

Lemma fp_each_client f s : (∀ c c', called c c' → called c (f c')) → fp (each_client f) s any.
Proof.
  intros Hf. apply fp_modST. destruct s as [h c]. intros [? ? ? ? ? ? Hc]. split; try done. cbn.
  apply consumers_kept_imap; [done|]. intros id x. case_bool_decide; auto.
Qed.

Lemma fp_get_msg x s : fp (get_msg x) s any.
Proof.
  destruct s as [h c]. intros Hf m s'. unfold get_msg, mbind, ST_bind, getST, liftST.
  destruct (msgs h !! x); [|done]. intros [= _ <-]. by split.
Qed.

Lemma fp_put_msg x m s : X x → fp (put_msg x m) s any.
Proof.
  intros Hx. apply fp_upd_heap. intros [Hn Hm (Hl & Ho & _) Hi ? ? ?]. split; [done|done| |done..].
  split_and!; [done| |done]. intros y Hy. cbn. rewrite lookup_insert_ne by (by intros <-). by apply Ho.
Qed.

Lemma fp_new_msg m s : fp (new_msg m) s X.
Proof.
  destruct s as [h c]. intros Hf x s'. unfold new_msg, upd_heap, modST, mbind, ST_bind, getST. cbn.
  intros [= <- <-]. pose proof Hf as [Hn Hm (Hl & Ho & _) Hi ? ? ?]. cbn in *. split; [|by apply X_fresh].
  split; cbn; [lia|done| |done..]. split_and!; [done| |done]. intros y Hy. cbn.
  rewrite lookup_insert_ne; [by apply Ho|]. intros <-. by apply Hy, X_fresh.
Qed.

Lemma fp_new_item it s : X it.(Value) → fp (new_item it) s Y.
Proof.
  intros Hv. destruct s as [h c]. intros Hf x s'. unfold new_item, upd_heap, modST, mbind, ST_bind, getST. cbn.
  intros [= <- <-]. pose proof Hf as [Hn Hm Hms (Hl & Ho & Hp) ? ? ?]. cbn in *. split; [|by apply Y_fresh].
  split; cbn; [lia|done|done| |done..]. split_and!; [done| |]; cbn.
  - intros y Hy. rewrite lookup_insert_ne; [by apply Ho|]. intros <-. by apply Hy, Y_fresh.
  - intros y w Hy. rewrite lookup_insert_Some. intros [[_ <-]|[_ ?]]; [done|by eapply Hp].
Qed.

Lemma fp_get_item i s : Y i → fp (get_item i) s (λ it, X it.(Value)).
Proof.
  intros Hi. destruct s as [h c]. intros Hf it s'. unfold get_item, mbind, ST_bind, getST, liftST.
  destruct (items h !! i) as [it'|] eqn:Ei; [|done]. intros [= <- <-]. split; [done|].
  by eapply (ft_items _ Hf).
Qed.

Lemma fp_on_ifpq {A} (f : mstore * inFlightPqueue → option (mstore * inFlightPqueue * A)) s R :
  (∀ st0 st pq st' pq' a, hfoot X (λ _ : Message, True) st0 (st, pq.(slice)) → f (st, pq) = Some (st', pq', a) →
     hfoot X (λ _ : Message, True) st0 (st', pq'.(slice)) ∧ R a) →
  fp (on_ifpq f) s R.
Proof.
  intros Hop. destruct s as [h c]. intros Hf a s'. unfold on_ifpq, mbind, ST_bind, getST, liftST.
  destruct (f (h.(msgs), c.(inFlightPQ))) as [[[st pq] b]|] eqn:E; [|done]. cbn. intros [= <- <-].
  pose proof Hf as [? ? Hms ? ? ? ?]. eapply Hop in E as [Hh HR]; [|exact Hms]. split; [|done]. by split.
Qed.

Lemma fp_on_dfpq {A} (f : istore * PriorityQueue → option (istore * PriorityQueue * A)) s R :
  (∀ st0 st pq st' pq' a, hfoot Y (λ it : Item, X it.(Value)) st0 (st, pq.(qslice)) → f (st, pq) = Some (st', pq', a) →
     hfoot Y (λ it : Item, X it.(Value)) st0 (st', pq'.(qslice)) ∧ R a) →
  fp (on_dfpq f) s R.
Proof.
  intros Hop. destruct s as [h c]. intros Hf a s'. unfold on_dfpq, mbind, ST_bind, getST, liftST.
  destruct (f (h.(items), c.(deferredPQ))) as [[[st pq] b]|] eqn:E; [|done]. cbn. intros [= <- <-].
  pose proof Hf as [? ? ? Hms ? ? ?]. eapply Hop in E as [Hh HR]; [|exact Hms]. split; [|done]. by split.
Qed.

(** Runs through a program action by action; the lemmas about its actions
    are in the database [foot]. *)
Ltac fp_step :=
  match goal with
  | |- fp (getST ≫= _) ?s _ => apply fp_get; (is_var s; destruct s as [? ?] || idtac); cbv beta iota
  | |- fp (mret _) _ _ => apply fp_ret; try done
  | |- fp panic _ _ => apply fp_panic
  | |- fp (_ ≫= _) _ _ => eapply fp_bind; [solve [eauto with foot]|intros ? ? ? ?; cbv beta iota in *]
  | |- fp (match ?x with _ => _ end) _ _ => destruct x eqn:?
  | |- fp _ _ _ => solve [eauto with foot]
  end.
Ltac fp_run := repeat fp_step.

Create HintDb foot discriminated.
Hint Resolve fp_log fp_get_msg fp_put_msg fp_new_msg fp_new_item fp_get_item : foot.
Hint Extern 1 (fp (upd_chan _) _ _) => apply fp_upd_chan; untouched : foot.
Hint Extern 1 (fp (each_client _) _ _) => apply fp_each_client; intros ? ? ?; repeat case_match; auto : foot.
Hint Extern 1 (fp (modST _) _ _) => apply fp_modST; intros []; untouched : foot.

Lemma fp_Exiting s : fp Exiting s any.
Proof. unfold Exiting. fp_run. Qed.
Hint Resolve fp_Exiting : foot.

Lemma fp_put x s : X x → fp (put opts x) s any.
Proof.
  intros Hx. unfold put. fp_run. eapply fp_bind; [apply fp_upd_chan|intros; fp_run].
  intros [? Hm ? ? ? ? ?]. split; try done. cbn. intros y. rewrite elem_of_app, list_elem_of_singleton.
  intros [?| ->]; [by apply Hm|done].
Qed.
Hint Resolve fp_put : foot.

Lemma fp_PutMessage x s : X x → fp (PutMessage opts x) s any.
Proof. intros Hx. unfold PutMessage. fp_run. Qed.

Lemma fp_pushInFlight x s : X x → fp (pushInFlightMessage x) s any.
Proof.
  intros Hx. unfold pushInFlightMessage. fp_run. eapply fp_bind; [apply fp_upd_chan|intros; fp_run].
  intros [? ? ? ? Hi ? ?]. split; try done. cbn. intros id y. rewrite lookup_insert_Some.
  intros [[_ <-]|[_ ?]]; [done|by eapply Hi].
Qed.
Hint Resolve fp_pushInFlight : foot.

(** Dropping an entry of a map. *)
Lemma fp_popInFlight cid id s :
  fp (popInFlightMessage cid id) s (λ r, match r with Ok x => X x | Err _ => True end).
Proof.
  apply fp_assume. intros Hf. unfold popInFlightMessage. destruct s as [h c]. apply fp_get.
  destruct (inFlightMessages c !! id) as [x|] eqn:Ex; [|by apply fp_ret].
  assert (Hx : X x) by exact (ft_ifmap _ Hf id x Ex). fp_run.
  eapply fp_bind; [apply fp_upd_chan|intros; by apply fp_ret].
  intros [? ? ? ? Hi ? ?]. split; try done. cbn. intros id' y [_ ?]%lookup_delete_Some. by eapply Hi.
Qed.

Lemma fp_popDeferred id s :
  fp (popDeferredMessage id) s (λ r, match r with Ok i => Y i | Err _ => True end).
Proof.
  apply fp_assume. intros Hf. unfold popDeferredMessage. destruct s as [h c]. apply fp_get.
  destruct (deferredMessages c !! id) as [x|] eqn:Ex; [|by apply fp_ret].
  assert (Hx : Y x) by exact (ft_dfmap _ Hf id x Ex).
  eapply fp_bind; [apply fp_upd_chan|intros; by apply fp_ret].
  intros [? ? ? ? ? Hi ?]. split; try done. cbn. intros id' y [_ ?]%lookup_delete_Some. by eapply Hi.
Qed.
Hint Resolve fp_popInFlight fp_popDeferred : foot.

Lemma fp_addToInFlightPQ x s : X x → fp (addToInFlightPQ x) s any.
Proof.
  intros Hx. apply fp_on_ifpq. intros st0 st pq st' pq' [] Hf E.
  destruct (IFPQ.Push x (st, pq)) as [s1|] eqn:Ep; [|done]. injection E as ->.
  split; [|done]. exact (ifpq_Push_foot X st0 x st pq _ Hf Hx Ep).
Qed.

Lemma fp_removeFromInFlightPQ x s : fp (removeFromInFlightPQ x) s any.
Proof.
  unfold removeFromInFlightPQ. fp_run. eapply (fp_bind _ _ _ any); [|intros; by apply fp_ret].
  apply fp_on_ifpq. intros st0 st pq st' pq' y Hf E.
  split; [|done]. eapply ifpq_Remove_foot in E; [|exact Hf]. apply E.
Qed.

Lemma fp_addToDeferredPQ i s : Y i → fp (addToDeferredPQ i) s any.
Proof.
  intros Hx. apply fp_on_dfpq. intros st0 st pq st' pq' [] Hf E.
  destruct (PQ.heap_Push i (st, pq)) as [s1|] eqn:Ep; [|done]. injection E as ->.
  split; [|done]. exact (dfpq_Push_foot X Y st0 i st pq _ Hf Hx Ep).
Qed.

Lemma fp_pushDeferred i s : Y i → fp (pushDeferredMessage i) s any.
Proof.
  intros Hx. unfold pushDeferredMessage. fp_run. eapply fp_bind; [apply fp_upd_chan|intros; fp_run].
  intros [? ? ? ? ? Hi ?]. split; try done. cbn. intros id y. rewrite lookup_insert_Some.
  intros [[_ <-]|[_ ?]]; [done|by eapply Hi].
Qed.
Hint Resolve fp_addToInFlightPQ fp_removeFromInFlightPQ fp_addToDeferredPQ fp_pushDeferred : foot.

Lemma fp_StartInFlight now x cid t s : X x → fp (StartInFlightTimeout now x cid t) s any.
Proof. intros Hx. unfold StartInFlightTimeout. fp_run. Qed.

Lemma fp_StartDeferred now x t s : X x → fp (StartDeferredTimeout now x t) s any.
Proof. intros Hx. unfold StartDeferredTimeout. fp_run. Qed.
Hint Resolve fp_PutMessage fp_StartInFlight fp_StartDeferred : foot.

Lemma fp_PutMessageDeferred now x t s : X x → fp (PutMessageDeferred now x t) s any.
Proof. intros Hx. unfold PutMessageDeferred. fp_run. Qed.

Lemma fp_TouchMessage now cid id t s : fp (TouchMessage opts now cid id t) s any.
Proof. unfold TouchMessage. fp_run. Qed.

Lemma fp_FinishMessage cid id s : fp (FinishMessage cid id) s any.
Proof. unfold FinishMessage. fp_run. Qed.

Lemma fp_RequeueMessage now cid id t s : fp (RequeueMessage opts now cid id t) s any.
Proof. unfold RequeueMessage. fp_run. Qed.

Lemma fp_AddClient cid s : fp (AddClient opts cid) s any.
Proof. unfold AddClient. fp_run. Qed.

Lemma fp_RemoveClient cid s : fp (RemoveClient cid) s any.
Proof. unfold RemoveClient. fp_run. Qed.

Lemma fp_doPause b s : fp (doPause b) s any.
Proof. unfold doPause. fp_run. Qed.
Hint Resolve fp_PutMessageDeferred fp_TouchMessage fp_FinishMessage fp_RequeueMessage fp_AddClient
  fp_RemoveClient fp_doPause : foot.

Lemma fp_liftST {A} (o : option A) s : fp (liftST o) s any.
Proof. intros Hf a s'. unfold liftST. destruct o; [|done]. by intros [= _ <-]. Qed.

Lemma foot_slice {V} `{HeapItem V} Z P (st0 st : gmap nat V) l : hfoot Z P st0 (st, l) → hfoot Z P st0 (st, []).
Proof. intros Hf. eapply hfoot_slice; [exact Hf|]. by intros x ?%elem_of_nil. Qed.

Lemma fp_initPQ s : fp (initPQ opts) s any.
Proof.
  unfold initPQ. eapply fp_bind; [apply fp_upd_chan|intros; apply fp_upd_chan].
  - intros [? ? Hm Hi ? ? ?]. split; try done. by eapply foot_slice.
  - intros [? ? Hm Hi ? ? ?]. split; try done. by eapply foot_slice.
Qed.

Lemma fp_set_memory l s : (∀ x, x ∈ l → X x) → fp (upd_chan (set_memoryMsgChan l)) s any.
Proof. intros Hl. apply fp_upd_chan. intros [? ? ? ? ? ? ?]. by split. Qed.
Hint Resolve fp_liftST fp_initPQ : foot.

Lemma fp_Empty s : fp (Empty opts) s any.
Proof.
  unfold Empty. fp_run. eapply fp_bind; [apply fp_set_memory; by intros x ?%elem_of_nil|intros; fp_run].
Qed.

Lemma fp_write_logged x s : fp (write_logged x) s any.
Proof. unfold write_logged. fp_run. Qed.
Hint Resolve fp_Empty fp_write_logged : foot.

Lemma fp_write_all xs s : fp (write_all xs) s any.
Proof. revert s. induction xs as [|x xs IH]; intros s; cbn [write_all]; [by apply fp_ret|]. fp_run. Qed.
Hint Resolve fp_write_all : foot.

Lemma fp_flush s : fp (flush range) s any.
Proof.
  unfold flush. fp_run. eapply fp_bind; [apply fp_set_memory; by intros x ?%elem_of_nil|intros; fp_run].
Qed.
Hint Resolve fp_flush : foot.

Lemma fp_whenST b m s : (∀ s, fp m s any) → fp (whenST b m) s any.
Proof. intros Hm. destruct b; [apply Hm|by apply fp_ret]. Qed.
Hint Resolve fp_whenST : foot.

Lemma fp_exit d s : fp (exit opts range d) s any.
Proof. unfold exit. fp_run. Qed.

Lemma fp_processDeferred_loop fuel t b s : fp (processDeferredQueue_loop opts fuel t b) s any.
Proof.
  revert b s. induction fuel as [|fuel IH]; intros b s; cbn [processDeferredQueue_loop]; [done|].
  eapply (fp_bind _ _ _ (λ r, ∀ i, r.1 = Some i → Y i)).
  - apply fp_on_dfpq. intros st0 st pq st' pq' [r d] Hf E. eapply dfpq_PeekAndShift_foot in E; [|exact Hf]. exact E.
  - intros [[i|] d] s' Hs' Hi; [|by apply fp_ret]. assert (Y i) by by apply Hi. fp_run.
Qed.

Lemma fp_processInFlight_loop fuel t b s : fp (processInFlightQueue_loop opts fuel t b) s any.
Proof.
  revert b s. induction fuel as [|fuel IH]; intros b s; cbn [processInFlightQueue_loop]; [done|].
  eapply (fp_bind _ _ _ (λ r, ∀ i, r.1 = Some i → X i)).
  - apply fp_on_ifpq. intros st0 st pq st' pq' [r d] Hf E. eapply ifpq_PeekAndShift_foot in E; [|exact Hf]. exact E.
  - intros [[x|] d] s' Hs' Hi; [|by apply fp_ret]. assert (X x) by by apply Hi. fp_run.
    eapply fp_bind; [apply fp_modST; intros Hf'; destruct s'2 as [h c]; case_bool_decide|intros; fp_run]; [|done].
    destruct Hf' as [? ? ? ? ? ? Hc]. split; try done. cbn. apply consumers_kept_alter; auto.
Qed.
Hint Resolve fp_exit fp_processDeferred_loop fp_processInFlight_loop : foot.

Lemma fp_recv_memory s : fp recv_memory s (λ r, match r with Some x => X x | None => True end).
Proof.
  apply fp_assume. intros Hf. unfold recv_memory. destruct s as [h c]. apply fp_get.
  pose proof (ft_mem _ Hf) as Hm. cbn in Hm. destruct (memoryMsgChan c) as [|x xs]; [by apply fp_ret|].
  eapply fp_bind; [apply fp_set_memory; intros y Hy; apply Hm; by right|]. intros. apply fp_ret. apply Hm. by left.
Qed.

Lemma fp_recv_backend s :
  fp recv_backend s (λ r, match r with Some (Ok x) => X x | _ => True end).
Proof. unfold recv_backend. fp_run. Qed.

Lemma fp_deliver now x cid t s : X x → fp (deliver now x cid t) s any.
Proof. intros Hx. unfold deliver. fp_run. Qed.
Hint Resolve fp_recv_memory fp_recv_backend fp_deliver : foot.

Lemma fp_processDeferred t s : fp (processDeferredQueue opts t) s any.
Proof. unfold processDeferredQueue. fp_run. Qed.

Lemma fp_processInFlight t s : fp (processInFlightQueue opts t) s any.
Proof. unfold processInFlightQueue. fp_run. Qed.
Hint Resolve fp_processDeferred fp_processInFlight : foot.

Lemma fp_exec o s : fp (exec opts range o) s any.
Proof. destruct o; cbn [exec]; fp_run. Qed.

Lemma fp_exec_all os s : fp (exec_all opts range os) s any.
Proof.
  revert s. induction os as [|o os IH]; intros s; cbn [exec_all]; [by apply fp_ret|].
  eapply fp_bind; [apply fp_exec|intros; apply IH].
Qed.
End foot.

(** ** Isolation *)
Section isolation.
Context {C D Q : Type} `{Consumer C, !BackendQueue D, QuantileStream Q}.
Notation state := (@state C D Q).

(** Two channels own different objects. *)
Record apart (h : heap C) (c c' : Channel D Q) : Prop := {
  ap_owned : owned (h, c) ## owned (h, c');
  ap_items : c.(deferredPQ).(qslice) ## c'.(deferredPQ).(qslice);
}.

Lemma apart_sym h c c' : apart h c c' → apart h c' c.
Proof. intros [Ho Hi]. split; intros x ? ?; [by apply (Ho x)|by apply (Hi x)]. Qed.

Lemma chan_ok_live_item (s : state) i :
  chan_ok s → i ∈ s.2.(deferredPQ).(qslice) → ∃ it, s.1.(items) !! i = Some it ∧ it.(Value) ∈ dvals s.
Proof.
  intros Hok Hi. pose proof Hi as Hi'. apply list_elem_of_lookup in Hi' as [k Hk].
  destruct (PQ.pq_indexed _ (ck_dfpq _ Hok) k i Hk) as (it & Hit & _). cbn in Hit. exists it. split; [done|].
  apply list_elem_of_omap. exists i. by rewrite Hit.
Qed.

(** A channel is well-formed in every heap that agrees on its objects. *)
Lemma chan_ok_agree (h h' : heap C) (c : Channel D Q) :
  chan_ok (h, c) → (∀ x, x ∈ owned (h, c) → h'.(msgs) !! x = h.(msgs) !! x) →
  (∀ i, i ∈ c.(deferredPQ).(qslice) → h'.(items) !! i = h.(items) !! i) →
  (∀ x, (h'.(next) <= x)%nat → h'.(msgs) !! x = None ∧ h'.(items) !! x = None) →
  (∀ x m, h'.(msgs) !! x = Some m → small m) →
  chan_ok (h', c) ∧ owned (h', c) = owned (h, c) ∧ contents (h', c) = contents (h, c).
Proof.
  intros Hok Hm Hi Hfr Hsm.
  assert (Hd : dvals (h', c) = dvals (h, c)).
  { unfold dvals. cbn [fst snd]. clear -Hi. revert Hi.
    induction (qslice (deferredPQ c)) as [|i l IH]; intros Hi; [done|]. cbn.
    rewrite Hi by (by left). destruct (items h !! i); cbn; [f_equal|]; apply IH; intros j Hj; apply Hi; by right. }
  assert (Ho : owned (h', c) = owned (h, c)) by (unfold owned; by rewrite Hd).
  assert (Hs : ∀ x, x ∈ c.(inFlightPQ).(slice) → h'.(msgs) !! x = h.(msgs) !! x).
  { intros x Hx. apply Hm. unfold owned. rewrite !elem_of_app. by right; left. }
  assert (Hv : ∀ i it, i ∈ c.(deferredPQ).(qslice) → h.(items) !! i = Some it → h'.(msgs) !! it.(Value) = h.(msgs) !! it.(Value)).
  { intros i it Hi1 Hit. destruct (chan_ok_live_item (h, c) i Hok Hi1) as (it' & Hit' & Hv). cbn in Hit'. simplify_eq.
    apply Hm. unfold owned. rewrite !elem_of_app. by right; right. }
  split_and!; [|done|].
  - pose proof Hok as [Kif Kifm Kdf Kdfm Kl Kn Kf Ks]. cbn in *. split; cbn; rewrite ?Ho; try done.
    + by eapply pq_ok_frame.
    + intros id x. rewrite Kifm. split; intros (Hx & m & Hmx & ?); (split; [done|]); exists m; by rewrite Hs in * by done.
    + destruct Kdf as [K1 K2 K3 K4]. cbn in *. split; cbn; [| |done|done].
      * intros k i Hk. cbn in *. rewrite Hi by (by eapply list_elem_of_lookup_2). exact (K1 k i Hk).
      * unfold Heap.heap_ok in *. eapply heap_upto_ext; [|exact K2]. cbn. intros k Hk.
        unfold key, pri_at. cbn. destruct (qslice _ !! k) as [i|] eqn:Ek; [|done]. cbn.
        by rewrite Hi by (by eapply list_elem_of_lookup_2).
    + intros id i. rewrite Kdfm. split; intros (Hx & it & m & Hit & Hmx & ?); (split; [done|]); exists it, m.
      * by rewrite Hi, (Hv i it) by done.
      * rewrite Hi in Hit by done. by rewrite (Hv i it) in Hmx by done.
    + intros x Hx. rewrite Hm by done. by apply Kl.
  - unfold contents. rewrite Ho. apply list_fmap_ext. intros k x Hx. unfold sig_at. cbn [fst].
    by rewrite Hm by (by eapply list_elem_of_lookup_2).
Qed.

(** What an operation on [c] that may use the loose messages [extra] leaves
    of another channel. *)
Lemma frame_step {A} (m : ST state A) (extra : list loc) (h : heap C) (c : Channel D Q) a (h' : heap C) (c' : Channel D Q) :
  chan_ok (h, c) → m (h, c) = Some (a, (h', c')) → chan_ok (h', c') →
  (∀ X Y, (∀ x, (h.(next) <= x)%nat → X x) → (∀ x, (h.(next) <= x)%nat → Y x) →
     (∀ x, x ∈ extra → X x) → fp X Y h m (h, c) any) →
  (∀ x, x ∈ owned (h', c') → x ∈ owned (h, c) ∨ x ∈ extra ∨ (h.(next) <= x)%nat) ∧
  (h.(next) <= h'.(next))%nat ∧ consumers_kept h.(consumers) h'.(consumers) ∧
  (∀ x, x ∉ owned (h, c) → x ∉ extra → (x < h.(next))%nat → h'.(msgs) !! x = h.(msgs) !! x) ∧
  ∀ c2, chan_ok (h, c2) → apart h c c2 → owned (h, c2) ## extra →
    chan_ok (h', c2) ∧ apart h' c' c2 ∧ owned (h', c2) = owned (h, c2) ∧ contents (h', c2) = contents (h, c2).
Proof.
  intros Hok E Hok' Hfp.
  set (X := λ x, x ∈ owned (h, c) ∨ x ∈ extra ∨ (h.(next) <= x)%nat).
  set (Y := λ i, i ∈ c.(deferredPQ).(qslice) ∨ (h.(next) <= i)%nat).
  assert (Hf0 : foot X Y h (h, c)).
  { split; cbn [fst snd].
    - done.
    - intros x Hx. left. unfold owned. rewrite elem_of_app. by left.
    - split_and!; [|done|done]. intros x Hx. left. by apply owned_slice.
    - split_and!; [|done|]; [intros i Hi; by left|]. intros i it [Hi|Hi] Hit.
      + destruct (chan_ok_live_item (h, c) i Hok Hi) as (it' & Hit' & Hv). cbn in Hit, Hit'. simplify_eq.
        left. unfold owned. rewrite !elem_of_app. by right; right.
      + destruct (ck_fresh _ Hok i Hi) as [_ Hn]. cbn in Hn, Hit. congruence.
    - intros id x Hx. left. apply (ck_ifmap _ Hok) in Hx as [Hx _]. by apply owned_slice.
    - intros id i Hx. left. by apply (ck_dfmap _ Hok) in Hx as [Hx _].
    - apply consumers_kept_refl. }
  destruct (Hfp X Y ltac:(unfold X; naive_solver) ltac:(unfold Y; naive_solver) ltac:(unfold X; naive_solver) Hf0 a (h', c') E)
    as [[Fn Fm (Fs & Fo & _) (Fi & Fp & Fv) _ _ Fc] _]. cbn [fst snd] in *.
  assert (Hown : ∀ x, x ∈ owned (h', c') → X x).
  { intros x. unfold owned. rewrite !elem_of_app. intros [?|[?|Hx]]; [by apply Fm|by apply Fs|].
    unfold dvals in Hx. apply list_elem_of_omap in Hx as (i & Hi & Ei). cbn [fst snd] in Ei, Hi.
    destruct (items h' !! i) as [it|] eqn:Eit; [|done]. injection Ei as <-. eapply Fv; [by apply Fi|done]. }
  split_and!; [exact Hown|exact Fn|exact Fc| |].
  - intros x H1 H2 H3. apply Fo. unfold X. intros [?|[?|?]]; [done|done|lia].
  - intros c2 Hok2 [Ao Ai] Hex.
    assert (Hlt : ∀ x, x ∈ owned (h, c2) → (x < h.(next))%nat).
    { intros x Hx. destruct (decide (x < next h)%nat); [done|]. destruct (ck_live _ Hok2 x Hx) as [? ?].
      destruct (ck_fresh _ Hok2 x) as [? _]; [cbn; lia|]. congruence. }
    assert (Hlti : ∀ i, i ∈ c2.(deferredPQ).(qslice) → (i < h.(next))%nat).
    { intros i Hi. destruct (chan_ok_live_item (h, c2) i Hok2 Hi) as (it & Hit & _).
      destruct (decide (i < next h)%nat); [done|]. destruct (ck_fresh _ Hok2 i) as [_ Hn]; [cbn; lia|]. congruence. }
    destruct (chan_ok_agree h h' c2) as (? & Eo & ?); [done| | |apply Hok'|apply Hok'|].
    + intros x Hx. apply Fo. intros [?|[?|?]]; [by eapply Ao|by eapply Hex|]. apply Hlt in Hx. lia.
    + intros i Hi. apply Fp. intros [?|?]; [by eapply Ai|]. apply Hlti in Hi. lia.
    + split_and!; [done| |done|done]. split.
      * intros x Hx. rewrite Eo. intros Hx2. destruct (Hown x Hx) as [?|[?|?]]; [by eapply Ao|by eapply Hex|].
        apply Hlt in Hx2. lia.
      * intros i Hi Hi2. destruct (Fi i Hi) as [?|?]; [by eapply Ai|]. apply Hlti in Hi2. lia.
Qed.
End isolation.

Section isolated.
Context {C D Q : Type} `{Consumer C, !BackendQueue D, !BackendLaws D, QuantileStream Q}.
Context (opts : options) (range : ∀ A : Type, list A → list A).
Hypothesis range_perm : ∀ A (l : list A), range A l ≡ₚ l.
Hypothesis recv_small : ∀ (b b' : D) d, bq_Recv b = Some (d, b') → Z.of_nat (length d) < 2 ^ 31.

(** C27: channels that share a heap do not disturb each other: whatever is
    done to one of them, the other stays well-formed, owns the same messages
    with the same contents, and the two still own different objects. *)
Theorem channel_isolation (h : heap C) (c c2 : Channel D Q) (os : list chan_op) :
  chan_ok (h, c) → chan_ok (h, c2) → apart h c c2 → Forall op_ok os →
  ∃ h' c', exec_all opts range os (h, c) = Some ((), (h', c')) ∧
    chan_ok (h', c') ∧ chan_ok (h', c2) ∧ apart h' c' c2 ∧
    owned (h', c2) = owned (h, c2) ∧ contents (h', c2) = contents (h, c2).
Proof.
  intros Hok Hok2 Hap Hos. destruct (exec_all_ok opts range range_perm recv_small (h, c) os Hok Hos) as ([h' c'] & E & Hok').
  destruct (frame_step _ [] h c () h' c' Hok E Hok') as (_ & _ & _ & _ & Hf).
  { intros X Y HX HY _. by apply fp_exec_all. }
  destruct (Hf c2 Hok2 Hap) as (? & ? & ? & ?); [by intros ? _ ?%elem_of_nil|]. by exists h', c'.
Qed.
End isolated.
End ChannelF.
