(* ===== verification/ChannelDemo.v ===== *)
(** * A channel at work

    Concrete instances of what a channel is parameterised by (consumers that
    record their calls, a backend that is a list in memory), and the
    properties of ChannelProps.v at channels reached by running operations. *)
From stdpp Require Import base gmap list strings.
From Stdlib Require Import ZArith Lia.
From S2P Require Import Prelude.
From S2P Require Import Message.
From S2P Require Import Heap.
From S2P Require Import InFlightPQ.
From S2P Require Import PQueue.
From S2P Require Import DiskQueue.
From S2P Require Import Backend.
From S2P Require Import Channel.
From S2P Require Import ChannelProofs.
From S2P Require Import ChannelScan.
From S2P Require Import ChannelProps.
From S2P Require Import ChannelFrame.
Set Default Goal Selector "!".
Local Open Scope Z_scope.

Module ListBackend.

(** A backend that is a list in memory; it refuses what an [int32] length
    cannot say. *)
Record list_queue := mkListQueue { elems : list bytes }.

Definition fits_int32 (d : bytes) : Prop := Z.of_nat (length d) < 2 ^ 31.

#[export] Instance list_backend : BackendQueue list_queue := {|
  bq_Put d b := if bool_decide (fits_int32 d) then (None, mkListQueue (b.(elems) ++ [d]))
                else (Some "invalid message write size"%string, b);
  bq_Recv b := match b.(elems) with
    | [] => None
    | d :: q => if bool_decide (fits_int32 d) then Some (d, mkListQueue q) else None
    end;
  bq_Close b := (None, b);
  bq_Delete b := (None, mkListQueue []);
  bq_Depth b := Z.of_nat (length b.(elems));
  bq_Empty _ := (None, mkListQueue []);
|}.

#[export] Instance list_laws : BackendLaws list_queue.
Proof.
  refine {| bq_rep n b q := b.(elems) = q ∧ Forall fits_int32 q |}.
  - done.
  - intros n [q'] q d err b' [<- Hf] Hd. cbn. rewrite bool_decide_eq_true_2 by done. intros [= <- <-].
    split; [done|]. apply Forall_app. by split; [|constructor].
  - intros n [q'] q [<- Hf]. cbn. destruct q' as [|d q]; [done|]. apply Forall_cons in Hf as [Hd Hf].
    rewrite bool_decide_eq_true_2 by done. by exists q.
  - by intros n [q'] q [<- Hf].
  - intros n [q'] q err b' _ [= <- <-]. by split.
Defined.

Lemma list_put_fits n (b : list_queue) q d : bq_rep (S n) b q → fits_int32 d → (bq_Put d b).1 = None.
Proof. intros _ Hd. cbn. by rewrite bool_decide_eq_true_2. Qed.

Lemma backend_put_fits n (b : backend list_queue) q d :
  bq_rep (S n) b q → fits_int32 d → (bq_Put d b).1 = None.
Proof.
  destruct b as [b|b]; [done|]. intros Hr Hd. pose proof (list_put_fits n b q d Hr Hd) as Hp. cbn in *.
  by destruct (if bool_decide _ then _ else _).
Qed.

Lemma list_recv_small (b b' : list_queue) d : bq_Recv b = Some (d, b') → Z.of_nat (length d) < 2 ^ 31.
Proof. cbn. destruct (elems b); [done|]. case_bool_decide; [|done]. by intros [= <- _]. Qed.

End ListBackend.

Module ChannelDemo.
Import Channel ChannelP ChannelS ChannelSpec ChannelF ListBackend.

(** A consumer that records the calls it gets; a stream that keeps its
    values. *)
#[export] Instance recorder : Consumer (list string) := {|
  cons_UnPause l := l ++ ["UnPause"%string];
  cons_Pause l := l ++ ["Pause"%string];
  cons_Close l := l ++ ["Close"%string];
  cons_TimedOutMessage l := l ++ ["TimedOutMessage"%string];
  cons_Empty l := l ++ ["Empty"%string];
|}.
#[export] Instance samples : QuantileStream (list Z) := {| q_Insert x l := l ++ [x] |}.

(** Room for three messages in memory; a map is visited in the order of its
    keys. *)
Definition opts : options := mkOptions 3 900 0.
Definition range : ∀ A : Type, list A → list A := λ A l, l.
Lemma range_perm : ∀ A (l : list A), range A l ≡ₚ l.
Proof. done. Qed.

Notation dstate := (@state (list string) list_queue (list Z)).

Definition h0 : heap (list string) := mkHeap ∅ ∅ {[1 := []; 2 := []]} 0 [].
Definition open (name : bytes) : list_queue := mkListQueue [].
Definition topic := bytes_of_string "orders".
Definition chan := bytes_of_string "billing".
Definition id (n : nat) : MessageID := replicate 15 (byte_of_Z 48) ++ [byte_of_Z (48 + Z.of_nat n)].
Definition msg (n : nat) : Message := NewMessage 5 (id n) (bytes_of_string "hello").

Lemma h0_ok : heap_ok h0.
Proof. split; [done|]. intros x m. cbn. by rewrite lookup_empty. Qed.

Definition s0 : dstate := default (h0, mkChannel 0 0 0 topic chan (Disk (open [])) [] false ∅ false false false None ∅ (PQ.New 0) ∅ (IFPQ.newInFlightPqueue 0))
  (NewChannel opts open (Some []) topic chan h0).

Definition run (os : list chan_op) : dstate :=
  match exec_all opts range os s0 with Some (_, s) => s | None => s0 end.

Lemma s0_ok : chan_ok s0.
Proof.
  destruct (NewChannel_ok (Q := list Z) opts open (Some []) topic chan h0 h0_ok) as (s & E & Hok & _).
  unfold s0. by rewrite E.
Qed.

Lemma run_ok os : Forall op_ok os → chan_ok (run os).
Proof.
  intros Hos. destruct (exec_all_ok opts range range_perm list_recv_small s0 os s0_ok Hos) as (s & E & Hok).
  unfold run. by rewrite E.
Qed.

(** Five messages, of which two overflow to the backend, and one that is
    deferred; client 1 takes two. *)
Definition script : list chan_op :=
  [OpAddClient 1; OpPut (msg 1); OpPut (msg 2); OpPut (msg 3); OpPut (msg 4); OpPut (msg 5);
   OpPutDeferred 10 (msg 6) 100; OpDeliver 20 1 60; OpDeliver 21 1 40].

Lemma script_ok : Forall op_ok script.
Proof. repeat constructor; vm_compute; done. Qed.

Notation busy := (run script).

Lemma busy_ok : chan_ok busy.
Proof. apply run_ok, script_ok. Qed.

Lemma busy_rep n : bq_rep n busy.2.(backend_) (encode_message <$> [msg 4; msg 5]).
Proof.
  assert (E : busy.2.(backend_) = Disk (mkListQueue (encode_message <$> [msg 4; msg 5]))) by by vm_compute.
  rewrite E. split; [done|]. repeat constructor; by vm_compute.
Qed.

Lemma channel_safe_witness :
  ∃ s s' : dstate, NewChannel opts open (Some []) topic chan h0 = Some s ∧
    exec_all opts range script s = Some ((), s') ∧ chan_ok s' ∧ Depth s' = 3.
Proof.
  destruct (channel_safe (Q := list Z) opts range range_perm list_recv_small open (Some []) topic chan h0 script h0_ok script_ok)
    as (s & s' & E & E' & Hok).
  exists s, s'. split; [done|]. split; [done|]. split; [done|].
  assert (E0 : s0 = s) by (unfold s0; by rewrite E).
  assert (Ed : (λ r : () * dstate, Depth r.2) <$> exec_all opts range script s0 = Some 3) by by vm_compute.
  rewrite E0, E' in Ed. by injection Ed.
Defined.

Lemma finish_exact_witness :
  match FinishMessage 1 (id 1) busy with
  | Some (None, s') => chan_ok s' ∧ s'.2.(inFlightMessages) = delete (id 1) busy.2.(inFlightMessages)
  | _ => False
  end ∧ (fst <$> FinishMessage 2 (id 1) busy) = Some (Some "client does not own message"%string).
Proof.
  split; [|by vm_compute].
  pose proof (finish_exact busy 1 (id 1) busy_ok) as Hf.
  assert (E : (fst <$> FinishMessage 1 (id 1) busy) = Some None) by by vm_compute.
  destruct (FinishMessage 1 (id 1) busy) as [[[e|] s']|]; [done| |done].
  destruct Hf as (x & m & _ & Hok & Hmap & _). by split.
Defined.

Lemma requeue_keeps_witness :
  match RequeueMessage opts 30 1 (id 1) 0 busy with
  | Some (None, s') => chan_ok s' ∧ holds 0 s' (contents busy ++ (sig ∘ encode_message <$> [msg 4; msg 5]))
  | _ => False
  end.
Proof.
  pose proof (requeue_keeps opts busy 30 1 (id 1) 0 busy_ok) as Hr.
  assert (E : (fst <$> RequeueMessage opts 30 1 (id 1) 0 busy) = Some None) by by vm_compute.
  destruct (RequeueMessage opts 30 1 (id 1) 0 busy) as [[[e|] s']|]; [done| |done].
  destruct Hr as [(_ & e & ? & _)|(x & m & _ & Hok & _ & Hh)]; [done|]. split; [done|].
  destruct (Hh 0%nat (contents busy ++ (sig ∘ encode_message <$> [msg 4; msg 5]))) as (l' & _ & ?); [|done].
  exists (encode_message <$> [msg 4; msg 5]). split; [apply busy_rep|reflexivity].
Defined.

Lemma touch_bounded_witness :
  match TouchMessage opts 500 1 (id 1) 5000 busy with
  | Some (None, s') => chan_ok s' ∧ ∃ x m, in_flight s' 1 (id 1) x m ∧ m.(pri) = 920
  | _ => False
  end.
Proof.
  pose proof (touch_bounded opts busy 500 1 (id 1) 5000 busy_ok ltac:(cbn; lia)) as Ht.
  assert (E : (fst <$> TouchMessage opts 500 1 (id 1) 5000 busy) = Some None) by by vm_compute.
  destruct (TouchMessage opts 500 1 (id 1) 5000 busy) as [[[e|] s']|]; [done| |done].
  destruct Ht as (x & m & m' & (Hid & Hm & _) & Hif & Hpri & Hok & _). split; [done|].
  exists x, m'. split; [done|]. rewrite Hpri.
  assert (Ex : busy.2.(inFlightMessages) !! id 1 = Some 0%nat) by by vm_compute.
  rewrite Ex in Hid. injection Hid as <-.
  assert (Em : deliveryTS <$> busy.1.(msgs) !! 0%nat = Some 20) by by vm_compute.
  rewrite Hm in Em. injection Em as ->. by vm_compute.
Defined.

(** At 70 only the second delivery (time-out 61) is due. *)
Lemma inflight_scan_exact_witness :
  ∃ due s', processInFlightQueue opts 70 busy = Some (true, s') ∧ chan_ok s' ∧ length due = 1%nat ∧
    busy.2.(inFlightPQ).(slice) ≡ₚ due ++ s'.2.(inFlightPQ).(slice) ∧
    u64 s'.2.(timeoutCount) = 1.
Proof.
  destruct (inflight_scan_exact opts busy 70 busy_ok ltac:(by vm_compute))
    as (due & s' & E & Hok & Hp & Hdue & Hrest & Hcount & _).
  assert (El : (λ r : bool * dstate, length r.2.2.(inFlightPQ).(slice)) <$> processInFlightQueue opts 70 busy = Some 1%nat)
    by by vm_compute.
  rewrite E in El. injection El as El.
  assert (E2 : length busy.2.(inFlightPQ).(slice) = 2%nat) by by vm_compute.
  assert (Hl : length due = 1%nat).
  { rewrite (Permutation_length Hp), length_app in E2. lia. }
  exists due, s'. rewrite E. split_and!; [by destruct due|exact Hok|exact Hl|exact Hp|].
  rewrite Hcount, Hl. by vm_compute.
Defined.

Lemma deferred_scan_exact_witness :
  ∃ due s', processDeferredQueue opts 110 busy = Some (true, s') ∧ chan_ok s' ∧ length due = 1%nat ∧
    busy.2.(deferredPQ).(qslice) ≡ₚ due ++ s'.2.(deferredPQ).(qslice).
Proof.
  destruct (deferred_scan_exact opts busy 110 busy_ok ltac:(by vm_compute))
    as (due & s' & E & Hok & Hp & _).
  assert (El : (λ r : bool * dstate, length r.2.2.(deferredPQ).(qslice)) <$> processDeferredQueue opts 110 busy = Some 0%nat)
    by by vm_compute.
  rewrite E in El. injection El as El.
  assert (E2 : length busy.2.(deferredPQ).(qslice) = 1%nat) by by vm_compute.
  assert (Hl : length due = 1%nat).
  { rewrite (Permutation_length Hp), length_app in E2. lia. }
  exists due, s'. rewrite E. split_and!; [by destruct due|exact Hok|exact Hl|exact Hp].
Defined.

(** The six messages are in the backend at the end. *)
Lemma close_flushes_witness :
  ∃ (b : list_queue) c', Close opts range busy = Some (None, (set_consumers (tell_all cons_Close busy) busy.1,
      set_backend_ (Disk b) c')) ∧
    length b.(elems) = 6%nat.
Proof.
  destruct (close_flushes opts range range_perm fits_int32 busy 0
    (contents busy ++ (sig <$> (encode_message <$> [msg 4; msg 5]))) backend_put_fits) as (b & q & c' & Hq & El & E & _).
  - intros x m _. exact (ck_small _ busy_ok x m).
  - exact busy_ok.
  - by vm_compute.
  - exists (encode_message <$> [msg 4; msg 5]). split; [apply busy_rep|reflexivity].
  - destruct b as [b|b]; [destruct Hq|]. destruct Hq as [Hq _]. exists b, c'. rewrite E. split; [reflexivity|].
    rewrite Hq, <- (length_fmap sig q), (Permutation_length El). by vm_compute.
Defined.

Lemma finish_empty_race_witness :
  ∃ s1 err s2, popInFlightMessage 1 (id 1) busy = Some (Ok 0%nat, s1) ∧
    Empty opts s1 = Some (err, s2) ∧ removeFromInFlightPQ 0%nat s2 = None.
Proof.
  assert (E : is_Some (busy.1.(msgs) !! 0%nat)) by (vm_compute; by eexists). destruct E as [m Hm].
  apply (finish_empty_race opts busy 1 (id 1) 0%nat m busy_ok). split_and!; [by vm_compute|exact Hm|].
  assert (Em : clientID <$> busy.1.(msgs) !! 0%nat = Some 1) by by vm_compute.
  rewrite Hm in Em. by injection Em.
Defined.

(** A second channel, opened in the heap the first one works in. *)
Definition second : dstate := default busy (NewChannel opts open None topic (bytes_of_string "audit#ephemeral") busy.1).

Lemma channel_isolation_witness :
  ∃ h' c', exec_all opts range [OpPut (msg 7); OpAddClient 2; OpDeliver 30 2 60] second = Some ((), (h', c')) ∧
    chan_ok (h', busy.2) ∧ contents (h', busy.2) = contents (second.1, busy.2) ∧
    length (contents (h', busy.2)) = 4%nat.
Proof.
  destruct (NewChannel_ok (Q := list Z) opts open None topic (bytes_of_string "audit#ephemeral") busy.1)
    as ([h c] & E & Hok & Ho & _).
  { split; [apply (ck_fresh _ busy_ok)|apply (ck_small _ busy_ok)]. }
  assert (Es : second = (h, c)) by (unfold second; by rewrite E).
  assert (H1 : msgs second.1 = msgs busy.1) by (unfold second; by vm_compute).
  assert (H2 : items second.1 = items busy.1) by (unfold second; by vm_compute).
  assert (H3 : next second.1 = next busy.1) by (unfold second; by vm_compute).
  rewrite Es in H1, H2, H3. cbn [fst] in H1, H2, H3.
  assert (Hok2 : chan_ok (h, busy.2)).
  { pose proof busy_ok as Hb. revert H1 H2 H3 Hb. generalize busy. intros [hb cb] H1 H2 H3 Hb.
    by apply (chan_ok_other (hb, cb)). }
  destruct (channel_isolation opts range range_perm list_recv_small h c busy.2
    [OpPut (msg 7); OpAddClient 2; OpDeliver 30 2 60] Hok Hok2) as (h' & c' & E' & _ & Hok' & _ & _ & Ec).
  - assert (Hq : qslice (deferredPQ c) = []).
    { change c with (h, c).2. rewrite <- Es. by vm_compute. }
    split; [rewrite Ho|rewrite Hq]; by intros x ?%elem_of_nil.
  - repeat constructor; by vm_compute.
  - exists h', c'. rewrite Es. split_and!; [exact E'|exact Hok'|exact Ec|]. rewrite Ec.
    transitivity (length (contents (second.1, busy.2))); [by rewrite Es|by vm_compute].
Defined.

End ChannelDemo.
