(* ===== verification/Topic.v ===== *)
(** * Topics (nsqd/topic.go)

    A topic queues what is published to it, in memory and in its backend, and
    its goroutine [messagePump] copies each message to every channel of the
    topic. The channels live in a store, because the pump, the clients and
    [channelMap] all hold pointers to them, and share the heap of Channel.v.

    The goroutines are part of the state: [pump] is where [messagePump] is and
    what it holds in its local variables, [t_tofile] tells whether
    [putMemoryToFile] has ended. A send to [channelUpdateChan] or [pauseChan]
    is received by the pump, so it is the pump's step. *)
From stdpp Require Import base gmap list strings.
From Stdlib Require Import ZArith Lia.
From S2P Require Import Prelude.
From S2P Require Import Text.
From S2P Require Import Message.
From S2P Require Import Guid.
From S2P Require Import Heap.
From S2P Require Import Backend.
From S2P Require Import Channel.
Set Default Goal Selector "!".
Local Open Scope Z_scope.

Module Topic.
Import Channel.

(** [PumpWaiting]: before [Start]. [PumpRunning chans enabled]: in the main
    loop; [enabled] tells that [memoryMsgChan] and [backendChan] are not
    nil. *)
Inductive pump :=
| PumpWaiting
| PumpRunning (chans : list loc) (enabled : bool)
| PumpExited.

Record Topic (B MB : Type) := mkTopic {
  t_messageCount : Z;
  t_messageBytes : Z;
  t_name : bytes;
  t_channelMap : gmap (list Byte.byte) loc;
  t_backend : backend B;
  t_memoryMsgChan : list loc;
  t_memoryBackend : MB;
  t_startChan : bool;  (* a token is in the channel *)
  t_exitChan : bool;  (* closed *)
  t_exitFlag : bool;
  t_idFactory : Guid.guidFactory;
  t_ephemeral : bool;
  t_deleter_done : bool;  (* the sync.Once has run *)
  t_paused : bool;
  t_pump : pump;  (* the goroutine [messagePump] *)
  t_tofile : bool;  (* the goroutine [putMemoryToFile] has ended *)
}.
Arguments mkTopic {B MB} _ _ _ _ _ _ _ _ _ _ _ _ _ _ _ _.
Arguments t_messageCount {B MB} _.
Arguments t_messageBytes {B MB} _.
Arguments t_name {B MB} _.
Arguments t_channelMap {B MB} _.
Arguments t_backend {B MB} _.
Arguments t_memoryMsgChan {B MB} _.
Arguments t_memoryBackend {B MB} _.
Arguments t_startChan {B MB} _.
Arguments t_exitChan {B MB} _.
Arguments t_exitFlag {B MB} _.
Arguments t_idFactory {B MB} _.
Arguments t_ephemeral {B MB} _.
Arguments t_deleter_done {B MB} _.
Arguments t_paused {B MB} _.
Arguments t_pump {B MB} _.
Arguments t_tofile {B MB} _.

Section setters.
Context {B MB : Type}.
Definition set_t_messageCount (x : Z) (t : Topic B MB) : Topic B MB :=
    mkTopic x t.(t_messageBytes) t.(t_name) t.(t_channelMap) t.(t_backend) t.(t_memoryMsgChan)
    t.(t_memoryBackend) t.(t_startChan) t.(t_exitChan) t.(t_exitFlag) t.(t_idFactory) t.(t_ephemeral)
    t.(t_deleter_done) t.(t_paused) t.(t_pump) t.(t_tofile).
Definition set_t_messageBytes (x : Z) (t : Topic B MB) : Topic B MB :=
    mkTopic t.(t_messageCount) x t.(t_name) t.(t_channelMap) t.(t_backend) t.(t_memoryMsgChan)
    t.(t_memoryBackend) t.(t_startChan) t.(t_exitChan) t.(t_exitFlag) t.(t_idFactory) t.(t_ephemeral)
    t.(t_deleter_done) t.(t_paused) t.(t_pump) t.(t_tofile).
Definition set_t_name (x : bytes) (t : Topic B MB) : Topic B MB :=
    mkTopic t.(t_messageCount) t.(t_messageBytes) x t.(t_channelMap) t.(t_backend) t.(t_memoryMsgChan)
    t.(t_memoryBackend) t.(t_startChan) t.(t_exitChan) t.(t_exitFlag) t.(t_idFactory) t.(t_ephemeral)
    t.(t_deleter_done) t.(t_paused) t.(t_pump) t.(t_tofile).
Definition set_t_channelMap (x : gmap (list Byte.byte) loc) (t : Topic B MB) : Topic B MB :=
    mkTopic t.(t_messageCount) t.(t_messageBytes) t.(t_name) x t.(t_backend) t.(t_memoryMsgChan)
    t.(t_memoryBackend) t.(t_startChan) t.(t_exitChan) t.(t_exitFlag) t.(t_idFactory) t.(t_ephemeral)
    t.(t_deleter_done) t.(t_paused) t.(t_pump) t.(t_tofile).
Definition set_t_backend (x : backend B) (t : Topic B MB) : Topic B MB :=
    mkTopic t.(t_messageCount) t.(t_messageBytes) t.(t_name) t.(t_channelMap) x t.(t_memoryMsgChan)
    t.(t_memoryBackend) t.(t_startChan) t.(t_exitChan) t.(t_exitFlag) t.(t_idFactory) t.(t_ephemeral)
    t.(t_deleter_done) t.(t_paused) t.(t_pump) t.(t_tofile).
Definition set_t_memoryMsgChan (x : list loc) (t : Topic B MB) : Topic B MB :=
    mkTopic t.(t_messageCount) t.(t_messageBytes) t.(t_name) t.(t_channelMap) t.(t_backend) x
    t.(t_memoryBackend) t.(t_startChan) t.(t_exitChan) t.(t_exitFlag) t.(t_idFactory) t.(t_ephemeral)
    t.(t_deleter_done) t.(t_paused) t.(t_pump) t.(t_tofile).
Definition set_t_memoryBackend (x : MB) (t : Topic B MB) : Topic B MB :=
    mkTopic t.(t_messageCount) t.(t_messageBytes) t.(t_name) t.(t_channelMap) t.(t_backend)
    t.(t_memoryMsgChan) x t.(t_startChan) t.(t_exitChan) t.(t_exitFlag) t.(t_idFactory) t.(t_ephemeral)
    t.(t_deleter_done) t.(t_paused) t.(t_pump) t.(t_tofile).
Definition set_t_startChan (x : bool) (t : Topic B MB) : Topic B MB :=
    mkTopic t.(t_messageCount) t.(t_messageBytes) t.(t_name) t.(t_channelMap) t.(t_backend)
    t.(t_memoryMsgChan) t.(t_memoryBackend) x t.(t_exitChan) t.(t_exitFlag) t.(t_idFactory) t.(t_ephemeral)
    t.(t_deleter_done) t.(t_paused) t.(t_pump) t.(t_tofile).
Definition set_t_exitChan (x : bool) (t : Topic B MB) : Topic B MB :=
    mkTopic t.(t_messageCount) t.(t_messageBytes) t.(t_name) t.(t_channelMap) t.(t_backend)
    t.(t_memoryMsgChan) t.(t_memoryBackend) t.(t_startChan) x t.(t_exitFlag) t.(t_idFactory) t.(t_ephemeral)
    t.(t_deleter_done) t.(t_paused) t.(t_pump) t.(t_tofile).
Definition set_t_exitFlag (x : bool) (t : Topic B MB) : Topic B MB :=
    mkTopic t.(t_messageCount) t.(t_messageBytes) t.(t_name) t.(t_channelMap) t.(t_backend)
    t.(t_memoryMsgChan) t.(t_memoryBackend) t.(t_startChan) t.(t_exitChan) x t.(t_idFactory) t.(t_ephemeral)
    t.(t_deleter_done) t.(t_paused) t.(t_pump) t.(t_tofile).
Definition set_t_idFactory (x : Guid.guidFactory) (t : Topic B MB) : Topic B MB :=
    mkTopic t.(t_messageCount) t.(t_messageBytes) t.(t_name) t.(t_channelMap) t.(t_backend)
    t.(t_memoryMsgChan) t.(t_memoryBackend) t.(t_startChan) t.(t_exitChan) t.(t_exitFlag) x t.(t_ephemeral)
    t.(t_deleter_done) t.(t_paused) t.(t_pump) t.(t_tofile).
Definition set_t_ephemeral (x : bool) (t : Topic B MB) : Topic B MB :=
    mkTopic t.(t_messageCount) t.(t_messageBytes) t.(t_name) t.(t_channelMap) t.(t_backend)
    t.(t_memoryMsgChan) t.(t_memoryBackend) t.(t_startChan) t.(t_exitChan) t.(t_exitFlag) t.(t_idFactory) x
    t.(t_deleter_done) t.(t_paused) t.(t_pump) t.(t_tofile).
Definition set_t_deleter_done (x : bool) (t : Topic B MB) : Topic B MB :=
    mkTopic t.(t_messageCount) t.(t_messageBytes) t.(t_name) t.(t_channelMap) t.(t_backend)
    t.(t_memoryMsgChan) t.(t_memoryBackend) t.(t_startChan) t.(t_exitChan) t.(t_exitFlag) t.(t_idFactory)
    t.(t_ephemeral) x t.(t_paused) t.(t_pump) t.(t_tofile).
Definition set_t_paused (x : bool) (t : Topic B MB) : Topic B MB :=
    mkTopic t.(t_messageCount) t.(t_messageBytes) t.(t_name) t.(t_channelMap) t.(t_backend)
    t.(t_memoryMsgChan) t.(t_memoryBackend) t.(t_startChan) t.(t_exitChan) t.(t_exitFlag) t.(t_idFactory)
    t.(t_ephemeral) t.(t_deleter_done) x t.(t_pump) t.(t_tofile).
Definition set_t_pump (x : pump) (t : Topic B MB) : Topic B MB :=
    mkTopic t.(t_messageCount) t.(t_messageBytes) t.(t_name) t.(t_channelMap) t.(t_backend)
    t.(t_memoryMsgChan) t.(t_memoryBackend) t.(t_startChan) t.(t_exitChan) t.(t_exitFlag) t.(t_idFactory)
    t.(t_ephemeral) t.(t_deleter_done) t.(t_paused) x t.(t_tofile).
Definition set_t_tofile (x : bool) (t : Topic B MB) : Topic B MB :=
    mkTopic t.(t_messageCount) t.(t_messageBytes) t.(t_name) t.(t_channelMap) t.(t_backend)
    t.(t_memoryMsgChan) t.(t_memoryBackend) t.(t_startChan) t.(t_exitChan) t.(t_exitFlag) t.(t_idFactory)
    t.(t_ephemeral) t.(t_deleter_done) t.(t_paused) t.(t_pump) x.
End setters.

Section topic.
Context {C D Q B MB : Type}.
Context `{Consumer C, BackendQueue D, QuantileStream Q, BackendQueue B, UnloggedQueue MB}.
Context (opts : options).
(** The order in which [range] visits a map. *)
Context (range : ∀ A : Type, list A → list A).
(** Opening the disk queues (of a channel, of the topic, and the one without a
    log function), and the quantile stream of a new channel. *)
Context (channel_queue : bytes → D) (topic_queue : bytes → B) (memory_queue : bytes → MB).
Context (e2e : option Q).

Definition tstate : Type := heap C * gmap loc (Channel D Q) * Topic B MB.
Notation TM := (ST tstate).

Definition upd_topic (f : Topic B MB → Topic B MB) : TM () := modST (λ '(h, cs, t), (h, cs, f t)).
Definition t_log (e : ctx_event) : TM () :=
  modST (λ '(h, cs, t), (set_ctx_log (h.(ctx_log) ++ [e]) h, cs, t)).
Definition t_get_msg (x : loc) : TM Message := '(h, _, _) ← getST; liftST (h.(msgs) !! x).
Definition t_new_msg (m : Message) : TM loc :=
  '(h, cs, t) ← getST;
  _ ← putST (set_next (S h.(next)) (set_msgs (<[h.(next) := m]> h.(msgs)) h), cs, t);
  mret h.(next).

(** A method call on the channel [l]. *)
Definition on_chan {A} (l : loc) (m : ST (heap C * Channel D Q) A) : TM A :=
  '(h, cs, t) ← getST;
  c ← liftST (cs !! l);
  '(a, (h, c)) ← liftST (m (h, c));
  _ ← putST (h, <[l := c]> cs, t);
  mret a.

(** [NewTopic]: both goroutines are started. *)
Definition NewTopic (nodeID : Z) (name : bytes) (h : heap C) (cs : gmap loc (Channel D Q)) : tstate :=
  let eph := Names.HasSuffix name Names.ephemeral_suffix in
  let b := if eph then Dummy newDummyBackendQueue else Disk (topic_queue name) in
  let t := mkTopic 0 0 name ∅ b [] (memory_queue name) false false false (Guid.NewGUIDFactory nodeID)
             eph false false PumpWaiting false in
  (set_ctx_log (h.(ctx_log) ++ [NotifyTopic]) h, cs, t).

Definition t_Exiting : TM bool := '(_, _, t) ← getST; mret t.(t_exitFlag).
Definition IsPaused : TM bool := '(_, _, t) ← getST; mret t.(t_paused).
Definition t_Depth (s : tstate) : Z :=
  i64 (Z.of_nat (length s.2.(t_memoryMsgChan)) + bq_Depth s.2.(t_backend)).

(** [Start]: a second token is dropped. *)
Definition Start : TM () := upd_topic (set_t_startChan true).

(** ** The goroutines *)

(** [putMemoryToFile] runs once: it takes one message from the memory channel
    and writes it to [memoryBackend]. [false]: it has nothing to receive, or
    has ended. *)
Definition putMemoryToFile : TM bool :=
  '(_, _, t) ← getST;
  if t.(t_tofile) then mret false else
  match t.(t_memoryMsgChan) with
  | [] => mret false
  | x :: xs =>
    _ ← upd_topic (set_t_memoryMsgChan xs);
    m ← t_get_msg x;
    let '(buf, (_, err)) := WriteTo m [] in
    _ ← match err with
        | Some _ => mret ()
        | None => '(_, mb) ← liftST (uq_Put buf t.(t_memoryBackend)); upd_topic (set_t_memoryBackend mb)
        end;
    _ ← upd_topic (set_t_tofile true);
    mret true
  end.

(** The channels of the map, and whether there is anything to receive for. *)
Definition current_chans (t : Topic B MB) : list loc := range _ (map_to_list t.(t_channelMap)).*2.
Definition may_receive (chans : list loc) (t : Topic B MB) : bool :=
  negb (bool_decide (chans = []) || t.(t_paused)).

(** The pump receives from [startChan]. *)
Definition pump_start : TM bool :=
  '(_, _, t) ← getST;
  match t.(t_pump) with
  | PumpWaiting =>
    if t.(t_startChan) then
      let chans := current_chans t in
      _ ← upd_topic (λ t, set_t_pump (PumpRunning chans (may_receive chans t)) (set_t_startChan false t));
      mret true
    else mret false
  | _ => mret false
  end.

(** It receives from [channelUpdateChan]. *)
Definition pump_update : TM () :=
  upd_topic (λ t, match t.(t_pump) with
    | PumpRunning _ _ => let chans := current_chans t in set_t_pump (PumpRunning chans (may_receive chans t)) t
    | _ => t
    end).

(** It receives from [pauseChan]. *)
Definition pump_pause : TM () :=
  upd_topic (λ t, match t.(t_pump) with
    | PumpRunning chans _ => set_t_pump (PumpRunning chans (may_receive chans t)) t
    | _ => t
    end).

(** It receives from the closed [exitChan]. *)
Definition pump_exit : TM bool :=
  '(_, _, t) ← getST;
  if t.(t_exitChan) then _ ← upd_topic (set_t_pump PumpExited); mret true else mret false.

(** The message goes to every channel: the first gets the message itself, the
    others copies. [clock i] is the time read in round [i]. *)
Fixpoint publish_loop (clock : nat → time) (msg : loc) (i : nat) (chans : list loc) : TM () :=
  match chans with
  | [] => mret ()
  | l :: chans =>
    m ← t_get_msg msg;
    chanMsg ← (if bool_decide (0 < i)%nat
               then t_new_msg (set_deferred m.(deferred) (set_Timestamp m.(Timestamp) (NewMessage (clock i) m.(ID) m.(Body))))
               else mret msg);
    cm ← t_get_msg chanMsg;
    _ ← (if negb (cm.(deferred) =? 0)
         then on_chan l (PutMessageDeferred (clock i) chanMsg cm.(deferred))
         else _ ← on_chan l (PutMessage opts chanMsg); mret ());
    publish_loop clock msg (S i) chans
  end.

(** It receives from [memoryMsgChan]. *)
Definition pump_memory (clock : nat → time) : TM bool :=
  '(_, _, t) ← getST;
  match t.(t_pump), t.(t_memoryMsgChan) with
  | PumpRunning chans true, x :: xs =>
    _ ← upd_topic (set_t_memoryMsgChan xs);
    _ ← publish_loop clock x 0 chans;
    mret true
  | _, _ => mret false
  end.

(** It receives from [backendChan]; what does not decode is dropped. *)
Definition pump_backend (clock : nat → time) : TM bool :=
  '(_, _, t) ← getST;
  match t.(t_pump), bq_Recv t.(t_backend) with
  | PumpRunning chans true, Some (buf, b) =>
    _ ← upd_topic (set_t_backend b);
    match decodeMessage buf with
    | Err _ => mret true
    | Ok m => x ← t_new_msg m; _ ← publish_loop clock x 0 chans; mret true
    end
  | _, _ => mret false
  end.

(** [select { case c <- 1: case <-exitChan: }]: the pump takes part until it
    has left. *)
Definition rendezvous (step : TM ()) : TM () :=
  '(_, _, t) ← getST;
  if t.(t_exitChan) then mret () else step.

(** ** Channels *)

Definition open_channel (name : bytes) : TM loc :=
  '(h, cs, t) ← getST;
  '(h, c) ← liftST (NewChannel opts channel_queue e2e t.(t_name) name h);
  let l := h.(next) in
  _ ← putST (set_next (S l) h, <[l := c]> cs, t);
  mret l.

Definition getOrCreateChannel (channelName : bytes) : TM (loc * bool) :=
  '(_, _, t) ← getST;
  match t.(t_channelMap) !! channelName with
  | Some l => mret (l, false)
  | None =>
    l ← open_channel channelName;
    _ ← upd_topic (λ t, set_t_channelMap (<[channelName := l]> t.(t_channelMap)) t);
    mret (l, true)
  end.

Definition GetChannel (channelName : bytes) : TM loc :=
  '(l, isNew) ← getOrCreateChannel channelName;
  _ ← whenST isNew (rendezvous pump_update);
  mret l.

Definition GetExistingChannel (channelName : bytes) : TM (res string loc) :=
  '(_, _, t) ← getST;
  match t.(t_channelMap) !! channelName with
  | Some l => mret (Ok l)
  | None => mret (Err "channel does not exist"%string)
  end.

Definition DeleteExistingChannel (channelName : bytes) : TM (option string) :=
  '(_, _, t) ← getST;
  match t.(t_channelMap) !! channelName with
  | None => mret (Some "channel does not exist"%string)
  | Some l =>
    let m := delete channelName t.(t_channelMap) in
    _ ← upd_topic (set_t_channelMap m);
    _ ← on_chan l (Channel.Delete opts range);
    _ ← rendezvous pump_update;
    _ ← (if bool_decide (size m = 0)%nat && t.(t_ephemeral) && negb t.(t_deleter_done)
         then _ ← upd_topic (set_t_deleter_done true); t_log TopicDeleteCallback
         else mret ());
    mret None
  end.

(** ** Publishing *)

(** [memoryToFileChan] is never made: the send to the nil channel takes the
    default case. *)
Definition t_put (x : loc) : TM (option string) :=
  '(_, _, t) ← getST;
  if bool_decide (length t.(t_memoryMsgChan) < opts.(MemQueueSize))%nat then
    _ ← upd_topic (λ t, set_t_memoryMsgChan (t.(t_memoryMsgChan) ++ [x]) t);
    mret None
  else
    m ← t_get_msg x;
    let '(err, b) := writeMessageToBackend m t.(t_backend) in
    _ ← upd_topic (set_t_backend b);
    _ ← t_log (SetHealth err);
    mret err.

Definition count_put (n bytes : Z) : TM () :=
  upd_topic (λ t, set_t_messageBytes (u64 (t.(t_messageBytes) + bytes))
                 (set_t_messageCount (u64 (t.(t_messageCount) + n)) t)).

Definition t_PutMessage (x : loc) : TM (option string) :=
  e ← t_Exiting;
  if e : bool then mret (Some "exiting"%string) else
  err ← t_put x;
  match err with
  | Some e => mret (Some e)
  | None =>
    m ← t_get_msg x;
    _ ← count_put 1 (Z.of_nat (length m.(Body)));
    mret None
  end.

Fixpoint put_loop (xs : list loc) (i messageTotalBytes : Z) : TM (option string) :=
  match xs with
  | [] => _ ← count_put i messageTotalBytes; mret None
  | x :: xs =>
    err ← t_put x;
    match err with
    | Some e => _ ← count_put i messageTotalBytes; mret (Some e)
    | None => m ← t_get_msg x; put_loop xs (i + 1) (messageTotalBytes + Z.of_nat (length m.(Body)))
    end
  end.

Definition PutMessages (xs : list loc) : TM (option string) :=
  e ← t_Exiting;
  if e : bool then mret (Some "exiting"%string) else put_loop xs 0 0.

(** ** Pausing, emptying and closing *)

Definition t_doPause (pause : bool) : TM () :=
  _ ← upd_topic (set_t_paused pause);
  rendezvous pump_pause.
Definition t_Pause : TM () := t_doPause true.
Definition t_UnPause : TM () := t_doPause false.

Definition t_Empty : TM (option string) :=
  _ ← upd_topic (set_t_memoryMsgChan []);
  '(_, _, t) ← getST;
  let '(err, b) := bq_Empty t.(t_backend) in
  _ ← upd_topic (set_t_backend b);
  mret err.

(** A write whose error is only logged. *)
Definition t_write_logged (x : loc) : TM () :=
  m ← t_get_msg x;
  '(_, _, t) ← getST;
  let '(_, b) := writeMessageToBackend m t.(t_backend) in
  upd_topic (set_t_backend b).

Fixpoint t_write_all (xs : list loc) : TM () :=
  match xs with
  | [] => mret ()
  | x :: xs => _ ← t_write_logged x; t_write_all xs
  end.

Definition t_flush : TM () :=
  '(_, _, t) ← getST;
  _ ← upd_topic (set_t_memoryMsgChan []);
  t_write_all t.(t_memoryMsgChan).

(** [exit] up to [waitGroup.Wait()], and from there. *)
Definition exit_begin (deleted : bool) : TM (option string) :=
  '(_, _, t) ← getST;
  if t.(t_exitFlag) then mret (Some "exiting"%string) else
  _ ← upd_topic (set_t_exitFlag true);
  _ ← whenST deleted (t_log NotifyTopic);
  _ ← upd_topic (set_t_exitChan true);
  mret None.

Definition is_exited (p : pump) : bool := match p with PumpExited => true | _ => false end.

(** [waitGroup.Wait()] returns when both goroutines have ended. *)
Definition wait_done (t : Topic B MB) : bool := is_exited t.(t_pump) && t.(t_tofile).

Fixpoint each_chan {A} (f : ST (heap C * Channel D Q) A) (ls : list loc) : TM () :=
  match ls with
  | [] => mret ()
  | l :: ls => _ ← on_chan l f; each_chan f ls
  end.

Definition exit_finish (deleted : bool) : TM (option string) :=
  '(_, _, t) ← getST;
  if deleted then
    _ ← upd_topic (set_t_channelMap ∅);
    _ ← each_chan (Channel.Delete opts range) (current_chans t);
    _ ← t_Empty;
    '(_, _, t) ← getST;
    let '(err, b) := bq_Delete t.(t_backend) in
    _ ← upd_topic (set_t_backend b);
    mret err
  else
    _ ← each_chan (Channel.Close opts range) (current_chans t);
    _ ← t_flush;
    '(_, _, t) ← getST;
    let '(err, b) := bq_Close t.(t_backend) in
    _ ← upd_topic (set_t_backend b);
    mret err.

(** [exit]: [None] is a call that never returns, because a goroutine it waits
    for never ends. When [exitChan] is closed the pump leaves; the other
    goroutine ends only if it finds a message. *)
Definition t_exit (deleted : bool) : TM (option (option string)) :=
  err ← exit_begin deleted;
  match err with
  | Some e => mret (Some (Some e))
  | None =>
    _ ← pump_exit;
    _ ← putMemoryToFile;
    '(_, _, t) ← getST;
    if wait_done t then err ← exit_finish deleted; mret (Some err) else mret None
  end.
Definition t_Delete : TM (option (option string)) := t_exit true.
Definition t_Close : TM (option (option string)) := t_exit false.

(** [GenerateID], with the clock readings of its attempts. *)
Definition t_GenerateID (nows : list time) : TM (option MessageID) :=
  '(_, _, t) ← getST;
  let '(f, id) := Guid.GenerateID nows t.(t_idFactory) in
  _ ← upd_topic (set_t_idFactory f);
  mret id.

End topic.
End Topic.
