(* ===== verification/TopicProofs.v ===== *)
(** * Lemmas about topics

    The invariant of a topic with its channels ([topic_ok]), what one
    operation on one channel means for all the others, and the publish
    loop. *)
From stdpp Require Import base gmap list strings.
From Stdlib Require Import ZArith Lia.
From S2P Require Import Prelude.
From S2P Require Import Text.
From S2P Require Import Message.
From S2P Require Import Guid.
From S2P Require Import Heap.
From S2P Require Import InFlightPQ.
From S2P Require Import PQueue.
From S2P Require Import Backend.
From S2P Require Import Channel.
From S2P Require Import ChannelProofs.
From S2P Require Import ChannelScan.
From S2P Require Import ChannelProps.
From S2P Require Import ChannelFrame.
From S2P Require Import Topic.
Set Default Goal Selector "!".
Local Open Scope Z_scope.

Module TopicP.
Import Channel ChannelP ChannelS ChannelSpec ChannelF Topic.

Section proofs.
Context {C D Q B MB : Type}.
Context `{Consumer C, !BackendQueue D, !BackendLaws D, QuantileStream Q,
          !BackendQueue B, !BackendLaws B, UnloggedQueue MB}.
Context (opts : options).

Notation tstate := (@tstate C D Q B MB).
Notation chanstore := (gmap loc (Channel D Q)).

(** Every channel of the store is well-formed, no two share an object, and
    none owns a message that is still in the topic's memory. *)
Record world_ok (h : heap C) (cs : chanstore) (mem : list loc) : Prop := {
  wk_chan : ∀ l c, cs !! l = Some c → chan_ok (h, c);
  wk_apart : ∀ l l' c c', l ≠ l' → cs !! l = Some c → cs !! l' = Some c' → apart h c c';
  wk_fresh : ∀ x, (h.(next) <= x)%nat → h.(msgs) !! x = None ∧ h.(items) !! x = None;
  wk_small : ∀ x m, h.(msgs) !! x = Some m → small m;
  wk_store : ∀ l, (h.(next) <= l)%nat → cs !! l = None;
  wk_live : ∀ x, x ∈ mem → is_Some (h.(msgs) !! x);
  wk_nodup : NoDup mem;
  wk_free : ∀ x l c, x ∈ mem → cs !! l = Some c → x ∉ owned (h, c);
}.

(** What only grows: locations, channels, and the calls consumers got. *)
Record moved (h h' : heap C) (cs cs' : chanstore) : Prop := {
  mv_next : (h.(next) <= h'.(next))%nat;
  mv_dom : ∀ l, is_Some (cs !! l) → is_Some (cs' !! l);
  mv_cons : consumers_kept h.(consumers) h'.(consumers);
}.

Lemma moved_refl h (cs : chanstore) : moved h h cs cs.
Proof. split; [done|done|apply consumers_kept_refl]. Qed.

Lemma moved_heap h h' (cs : chanstore) : (h.(next) <= h'.(next))%nat → h'.(consumers) = h.(consumers) → moved h h' cs cs.
Proof. intros Hn E. split; [done|done|]. rewrite E. apply consumers_kept_refl. Qed.

Lemma moved_trans h1 h2 h3 (cs1 cs2 cs3 : chanstore) : moved h1 h2 cs1 cs2 → moved h2 h3 cs2 cs3 → moved h1 h3 cs1 cs3.
Proof. intros [N1 D1 C1] [N2 D2 C2]. split; [lia|by eauto|by eapply consumers_kept_trans]. Qed.

(** What surrounds a topic: messages in the memory of other topics, and a
    heap and a store it started from. *)
Record frame := mkFrame {
  fr_mem : list loc;
  fr_heap : heap C;
  fr_chans : chanstore;
}.
Context (F : frame).

(** The topic's channels and what its pump works with. *)
Record topic_local (cs : chanstore) (t : Topic B MB) : Prop := {
  tl_map : ∀ n l, t.(t_channelMap) !! n = Some l → is_Some (cs !! l);
  tl_inj : ∀ n n' l, t.(t_channelMap) !! n = Some l → t.(t_channelMap) !! n' = Some l → n = n';
  tl_pump : ∀ chans en, t.(t_pump) = PumpRunning chans en → NoDup chans ∧ ∀ l, l ∈ chans → is_Some (cs !! l);
  tl_current : ∀ chans en, t.(t_exitChan) = false → t.(t_pump) = PumpRunning chans en →
    (∀ l, l ∈ chans ↔ ∃ n, t.(t_channelMap) !! n = Some l) ∧ en = may_receive chans t;
}.

Record topic_ok (s : tstate) : Prop := {
  tk_world : world_ok s.1.1 s.1.2 (s.2.(t_memoryMsgChan) ++ F.(fr_mem));
  tk_moved : moved F.(fr_heap) s.1.1 F.(fr_chans) s.1.2;
  tk_map : ∀ n l, s.2.(t_channelMap) !! n = Some l → is_Some (s.1.2 !! l);
  tk_inj : ∀ n n' l, s.2.(t_channelMap) !! n = Some l → s.2.(t_channelMap) !! n' = Some l → n = n';
  tk_pump : ∀ chans en, s.2.(t_pump) = PumpRunning chans en → NoDup chans ∧ ∀ l, l ∈ chans → is_Some (s.1.2 !! l);
  (* what the pump works with is current until [exitChan] is closed *)
  tk_current : ∀ chans en, s.2.(t_exitChan) = false → s.2.(t_pump) = PumpRunning chans en →
    (∀ l, l ∈ chans ↔ ∃ n, s.2.(t_channelMap) !! n = Some l) ∧ en = may_receive chans s.2;
}.

Lemma topic_ok_local s :
  topic_ok s ↔ world_ok s.1.1 s.1.2 (s.2.(t_memoryMsgChan) ++ F.(fr_mem)) ∧ moved F.(fr_heap) s.1.1 F.(fr_chans) s.1.2 ∧
    topic_local s.1.2 s.2.
Proof. split; [intros []; split_and!; [done..|by split]|intros (? & ? & []); by split]. Qed.

(** A message that nobody owns. *)
Definition unowned (h : heap C) (cs : chanstore) (mem : list loc) (x : loc) : Prop :=
  is_Some (h.(msgs) !! x) ∧ x ∉ mem ∧ ∀ l c, cs !! l = Some c → x ∉ owned (h, c).

(** ** One channel moves *)

Record others_same (l : loc) (h h' : heap C) (cs cs' : chanstore) : Prop := {
  os_moved : moved h h' cs cs';
  os_same : ∀ k, k ≠ l → cs' !! k = cs !! k;
  os_contents : ∀ k c, k ≠ l → cs !! k = Some c →
    owned (h', c) = owned (h, c) ∧ contents (h', c) = contents (h, c);
}.

Lemma world_step {A} (m : ST (heap C * Channel D Q) A) (extra mem : list loc) h cs l c a h' c' :
  world_ok h cs mem → cs !! l = Some c → m (h, c) = Some (a, (h', c')) → chan_ok (h', c') →
  (∀ x, x ∈ extra → unowned h cs mem x) →
  (∀ X Y, (∀ x, (h.(next) <= x)%nat → X x) → (∀ x, (h.(next) <= x)%nat → Y x) →
     (∀ x, x ∈ extra → X x) → fp X Y h m (h, c) any) →
  world_ok h' (<[l := c']> cs) mem ∧ others_same l h h' cs (<[l := c']> cs) ∧
  ∀ x, x ∈ mem → h'.(msgs) !! x = h.(msgs) !! x.
Proof.
  intros Hw Hl E Hok' Hex Hfp.
  assert (Hok := wk_chan _ _ _ Hw l c Hl).
  destruct (frame_step m extra h c a h' c' Hok E Hok' Hfp) as (Hown & Hnx & Hcons & Hmsgs & Hothers).
  assert (Hoth : ∀ k ck, k ≠ l → cs !! k = Some ck →
    chan_ok (h', ck) ∧ apart h' c' ck ∧ owned (h', ck) = owned (h, ck) ∧ contents (h', ck) = contents (h, ck)).
  { intros k ck Hk Hck. apply Hothers; [by eapply wk_chan|by eapply (wk_apart _ _ _ Hw l k)|].
    intros x Hx1 Hx2. destruct (Hex x Hx2) as (_ & _ & Hno). by eapply Hno. }
  assert (Hlt : ∀ x, is_Some (msgs h !! x) → (x < next h)%nat).
  { intros x [v Hv]. destruct (decide (x < next h)%nat); [done|]. destruct (wk_fresh _ _ _ Hw x); [lia|congruence]. }
  assert (Hmem : ∀ x, x ∈ mem → msgs h' !! x = msgs h !! x).
  { intros x Hx. apply Hmsgs; [by eapply wk_free|intros Hx2; by destruct (Hex x Hx2) as (_ & ? & _)|].
    by apply Hlt, (wk_live _ _ _ Hw). }
  split_and!; [|split|done].
  - split.
    + intros k ck. rewrite lookup_insert_Some. intros [[<- <-]|[Hk Hck]]; [done|]. by apply (Hoth k).
    + intros k k' ck ck' Hkk. rewrite !lookup_insert_Some.
      intros [[<- <-]|[Hk Hck]] [[<- <-]|[Hk' Hck']]; [done| | |].
      * by apply (Hoth k').
      * apply apart_sym. by apply (Hoth k).
      * destruct (Hoth k ck) as (_ & [_ _] & Eo & _); [done..|]. destruct (Hoth k' ck') as (_ & _ & Eo' & _); [done..|].
        destruct (wk_apart _ _ _ Hw k k' ck ck') as [? ?]; [done..|]. split; [by rewrite Eo, Eo'|done].
    + apply Hok'.
    + apply Hok'.
    + intros k Hk. rewrite lookup_insert_None. split.
      * apply (wk_store _ _ _ Hw). lia.
      * intros <-. rewrite (wk_store _ _ _ Hw l) in Hl by lia. done.
    + intros x Hx. rewrite Hmem by done. by apply (wk_live _ _ _ Hw).
    + apply Hw.
    + intros x k ck Hx. rewrite lookup_insert_Some. intros [[<- <-]|[Hk Hck]].
      * intros [?|[He|?]]%Hown; [by eapply wk_free|by destruct (Hex x He) as (_ & ? & _)|].
        assert (x < next h)%nat by (by apply Hlt, (wk_live _ _ _ Hw)). lia.
      * destruct (Hoth k ck) as (_ & _ & Eo & _); [done..|]. rewrite Eo. by eapply wk_free.
  - split; [done| |done]. intros k Hk. destruct (decide (k = l)) as [->|]; [rewrite lookup_insert_eq; by eexists|].
    by rewrite lookup_insert_ne.
  - intros k Hk. by rewrite lookup_insert_ne.
  - intros k ck Hk Hck. by destruct (Hoth k ck) as (_ & _ & ? & ?).
Qed.

Lemma on_chan_eq {A} l (m : ST (heap C * Channel D Q) A) h cs (t : Topic B MB) c a h' c' :
  cs !! l = Some c → m (h, c) = Some (a, (h', c')) → on_chan l m (h, cs, t) = Some (a, (h', <[l := c']> cs, t)).
Proof. intros Hl E. unfold on_chan, mbind, ST_bind, getST, liftST. rewrite Hl. cbn. by rewrite E. Qed.

(** The topic's fields besides. *)
Lemma topic_ok_world h cs (t : Topic B MB) h' cs' :
  topic_ok (h, cs, t) → world_ok h' cs' (t.(t_memoryMsgChan) ++ F.(fr_mem)) → moved h h' cs cs' →
  topic_ok (h', cs', t).
Proof.
  intros [Tw Tv Tm Ti Tp Tc] Hw Hv. pose proof (mv_dom _ _ _ _ Hv) as Hd. cbn in *.
  split; cbn; [done|by eapply moved_trans| |done| |done].
  - intros n l Hl. by eapply Hd, Tm.
  - intros chans en E. destruct (Tp chans en E) as [? Hp]. split; [done|]. intros l Hl. by apply Hd, Hp.
Qed.

Lemma topic_local_mono cs cs' (t : Topic B MB) :
  topic_local cs t → (∀ l, is_Some (cs !! l) → is_Some (cs' !! l)) → topic_local cs' t.
Proof.
  intros [Tm Ti Tp Tc] Hd. split; [by eauto|done| |done].
  intros chans en E. destruct (Tp chans en E) as [? Hp]. split; [done|]. intros l Hl. by apply Hd, Hp.
Qed.


(** ** Giving a message to one channel *)

(** A channel refuses a message when it is exiting; a deferred one, when its
    identifier is deferred already. *)
Definition accepts (c : Channel D Q) (m : Message) : bool :=
  if m.(deferred) =? 0 then negb c.(exitFlag) else bool_decide (c.(deferredMessages) !! m.(ID) = None).

Definition publish_one (now : time) (y : loc) (m : Message) : ST (heap C * Channel D Q) () :=
  if negb (m.(deferred) =? 0) then PutMessageDeferred now y m.(deferred)
  else _ ← PutMessage opts y; mret ().

(** What became of the messages [L] of a channel that was given [m]. *)
Definition received (n : nat) (c : Channel D Q) (s s' : heap C * Channel D Q) (m : Message) (L : list bytes) : Prop :=
  if accepts c m then kept n s s' [msg_sig m] (msg_sig m :: L) else holds n s' L.

Lemma holds_other n (h h' : heap C) (c c' : Channel D Q) L :
  contents (h', c') = contents (h, c) → c'.(backend_) = c.(backend_) → holds n (h, c) L → holds n (h', c') L.
Proof. intros Ec Eb (q & Hq & El). exists q. cbn in *. rewrite Eb, Ec. done. Qed.

Lemma kept_heap n (s : heap C * Channel D Q) (h1 h2 : heap C) (c1 : Channel D Q) xs L :
  kept n s (h1, c1) xs L → contents (h2, c1) = contents (h1, c1) →
  (failures (h1, c1) <= failures (h2, c1))%nat → kept n s (h2, c1) xs L.
Proof.
  intros [(l' & lost & Hh & El & Hsub & Hlen) Hf] Ec Hf'. split; [|lia]. exists l', lost.
  split_and!; [by eapply holds_other|done|done|lia].
Qed.

Lemma put_log x (s s' : heap C * Channel D Q) err :
  put opts x s = Some (err, s') → ∃ e, s'.1.(ctx_log) = s.1.(ctx_log) ++ e.
Proof.
  destruct s as [h c]. unfold put. intros (a & s1 & [= <- <-] & E)%ST_bind_inv. case_bool_decide.
  - apply ST_bind_inv in E as ([] & s2 & [= <-] & [= _ <-]). exists []. by rewrite app_nil_r.
  - apply ST_bind_inv in E as (m & s2 & E & E'). assert (s2 = (h, c)) as ->.
    { revert E. unfold get_msg, mbind, ST_bind, getST, liftST. by destruct (msgs h !! x); intros [= _ <-]. }
    destruct (writeMessageToBackend m c.(backend_)) as [e b].
    apply ST_bind_inv in E' as ([] & s3 & [= <-] & E'). apply ST_bind_inv in E' as ([] & s4 & [= <-] & [= _ <-]).
    by eexists.
Qed.

Lemma publish_one_ok (h : heap C) (c : Channel D Q) now y m :
  chan_ok (h, c) → y ∉ owned (h, c) → h.(msgs) !! y = Some m →
  ∃ h' c', publish_one now y m (h, c) = Some ((), (h', c')) ∧ chan_ok (h', c') ∧ h'.(msgs) = h.(msgs) ∧
    (failures (h, c) <= failures (h', c'))%nat ∧
    ∀ n L, holds (S n) (h, c) L → received n c (h, c) (h', c') m L.
Proof.
  intros Hok Hy Hm. unfold publish_one, received, accepts. destruct (m.(deferred) =? 0) eqn:Ed; cbn [negb].
  - unfold PutMessage. destruct (exitFlag c) eqn:Ex; cbn [negb].
    + exists h, c. split_and!; [|done|done|done|intros n L; by apply holds_weaken; lia].
      callST ltac:(callST ltac:(exact (Exiting_ok (h, c))); cbn [snd]; rewrite Ex; reflexivity). done.
    + destruct (put_ok opts (h, c) y m Hok Hy Hm) as (err & [h1 c1] & E1 & Hok1 & [[lg Eh] _] & _ & Hh).
      cbn in Eh.
      assert (Hf : (failures (h, c) <= failures (h1, c1))%nat).
      { assert (Hx := put_log _ _ _ _ E1). cbn in Hx.
        destruct Hx as [e Hx]. unfold failures. cbn [fst]. rewrite Hx, filter_app, length_app. lia. }
      destruct err as [e|].
      * exists h1, c1. split_and!; [|done|by rewrite Eh|done|intros n L HL; by apply Hh].
        callST ltac:(callST ltac:(exact (Exiting_ok (h, c))); cbn [snd]; rewrite Ex; callST ltac:(exact E1); reflexivity). done.
      * exists h1, (set_messageCount (u64 (c1.(messageCount) + 1)) c1).
        split_and!; [|by apply (chan_ok_other (h1, c1))|by rewrite Eh|done|].
        { callST ltac:(callST ltac:(exact (Exiting_ok (h, c))); cbn [snd]; rewrite Ex; callST ltac:(exact E1);
            callST ltac:(reflexivity); reflexivity). done. }
        intros n L HL. destruct (Hh n L HL) as [Hk _]. destruct Hk as [(l' & lost & Hx & ?) ?].
        split; [|done]. by exists l', lost.
  - unfold PutMessageDeferred.
    set (c0 := set_messageCount (u64 (c.(messageCount) + 1)) c).
    assert (Hok0 : chan_ok (h, c0)) by by apply (chan_ok_other (h, c)).
    pose proof (StartDeferred_ok (h, c0) now y m.(deferred) m Hok0 Hy Hm) as Hs.
    change (deferredMessages (h, c0).2) with (deferredMessages c) in Hs.
    destruct (deferredMessages c !! ID m) as [i|] eqn:Ei.
    + rewrite bool_decide_eq_false_2 by done. exists (alloc_item (deferred_item now y m.(deferred)) h), c0. split_and!; [| | |done|].
      * callST ltac:(reflexivity). callST ltac:(exact Hs). reflexivity.
      * by apply (chan_ok_alloc_item (h, c0)).
      * done.
      * intros n L HL. apply (holds_weaken (S n)); [lia|]. destruct HL as (q & Hq & El). exists q. split; [done|].
        rewrite El. unfold contents. by rewrite (chan_ok_alloc_owned (h, c0) _ Hok0).
    + rewrite bool_decide_eq_true_2 by done. destruct Hs as ([h1 c1] & E1 & A). exists h1, c1.
      assert (Hf : failures (h1, c1) = failures (h, c)) by (unfold failures; by rewrite (proj2 (dd_heap _ _ _ _ A))).
      split_and!; [|apply A|apply A|lia|].
      * callST ltac:(reflexivity). callST ltac:(exact E1). reflexivity.
      * intros n L HL. apply kept_same; [|done]. apply (holds_weaken (S n)); [lia|].
        pose proof (added_deferred_holds (S n) _ _ _ _ L A HL) as Hh. cbn [fst] in Hh. by rewrite (sig_at_msg _ _ _ Hm) in Hh.
Qed.

(** ** The publish loop *)

(** The failures a heap's log reports. *)
Definition flog (h : heap C) : nat := length (filter (λ e, is_failure e = true) h.(ctx_log)).

(** A record of what a channel received stays true while the others move. *)
Lemma received_heap n (c c1 : Channel D Q) (h0 h1 h h' : heap C) m L :
  received n c (h0, c) (h1, c1) m L → contents (h', c1) = contents (h1, c1) →
  (flog h <= flog h0)%nat → (flog h0 <= flog h1)%nat → (flog h1 <= flog h')%nat →
  received n c (h, c) (h', c1) m L.
Proof.
  unfold received. destruct (accepts c m); intros Hr Ec Hl1 Hl2 Hl3; [|by eapply holds_other].
  destruct Hr as [(l' & lost & Hh & El & Hsub & Hlen) Hf]. unfold flog, failures in *. cbn [fst] in *.
  split; [|unfold failures; cbn [fst]; lia]. exists l', lost.
  split_and!; [by eapply holds_other|done|done|unfold failures; cbn [fst]; lia].
Qed.

(** [&Message{...}] *)
Definition alloc_msg (m : Message) (h : heap C) : heap C :=
  set_next (S h.(next)) (set_msgs (<[h.(next) := m]> h.(msgs)) h).

Lemma t_new_msg_eq m h (cs : chanstore) (t : Topic B MB) : t_new_msg m (h, cs, t) = Some (h.(next), (alloc_msg m h, cs, t)).
Proof. done. Qed.

Lemma world_new_msg h cs mem m :
  world_ok h cs mem → small m →
  world_ok (alloc_msg m h) cs mem ∧ unowned (alloc_msg m h) cs mem h.(next) ∧
  (∀ l c, cs !! l = Some c → owned (alloc_msg m h, c) = owned (h, c) ∧ contents (alloc_msg m h, c) = contents (h, c)) ∧
  ∀ x v, h.(msgs) !! x = Some v → (alloc_msg m h).(msgs) !! x = Some v.
Proof.
  intros Hw Hs. set (h' := alloc_msg m h).
  assert (Hne : ∀ x, is_Some (msgs h !! x) → x ≠ next h).
  { intros x [v Hv] ->. destruct (wk_fresh _ _ _ Hw (next h)); [lia|congruence]. }
  assert (Hsame : ∀ x, is_Some (msgs h !! x) → msgs h' !! x = msgs h !! x).
  { intros x Hx. cbn. rewrite lookup_insert_ne; [done|]. intros E. by apply (Hne x Hx). }
  assert (Hfr : ∀ x, (next h' <= x)%nat → msgs h' !! x = None ∧ items h' !! x = None).
  { intros x Hx. cbn in *. destruct (wk_fresh _ _ _ Hw x) as [? ?]; [lia|]. split; [|done]. rewrite lookup_insert_ne; [done|lia]. }
  assert (Hsm : ∀ x v, msgs h' !! x = Some v → small v).
  { intros x v. cbn. rewrite lookup_insert_Some. intros [[_ <-]|[_ ?]]; [done|by eapply (wk_small _ _ _ Hw)]. }
  assert (Hc : ∀ l c, cs !! l = Some c →
    chan_ok (h', c) ∧ owned (h', c) = owned (h, c) ∧ contents (h', c) = contents (h, c)).
  { intros l c Hl. pose proof (wk_chan _ _ _ Hw l c Hl) as Hok. apply chan_ok_agree; try done.
    intros x Hx. apply Hsame. by apply (ck_live _ Hok). }
  split_and!.
  - split; try done.
    + intros l c Hl. by apply (Hc l).
    + intros l l' c c' Hll Hl Hl'. destruct (Hc l c Hl) as (_ & E & _), (Hc l' c' Hl') as (_ & E' & _).
      destruct (wk_apart _ _ _ Hw l l' c c') as [? ?]; [done..|]. split; [by rewrite E, E'|done].
    + intros l Hl. apply (wk_store _ _ _ Hw). cbn in Hl. lia.
    + intros x Hx. rewrite Hsame; by apply (wk_live _ _ _ Hw).
    + apply Hw.
    + intros x l c Hx Hl. destruct (Hc l c Hl) as (_ & -> & _). by eapply (wk_free _ _ _ Hw).
  - split_and!.
    + cbn. rewrite lookup_insert_eq. by eexists.
    + intros Hx. by apply (Hne (next h)), eq_refl; apply (wk_live _ _ _ Hw).
    + intros l c Hl. destruct (Hc l c Hl) as (_ & -> & _). intros Hx.
      apply (Hne (next h)); [|done]. by apply (ck_live _ (wk_chan _ _ _ Hw l c Hl)).
  - intros l c Hl. by destruct (Hc l c Hl) as (_ & ? & ?).
  - intros x v Hv. rewrite Hsame; [done|by eexists].
Qed.

Definition copy_of (now : time) (m : Message) : Message :=
  set_deferred m.(deferred) (set_Timestamp m.(Timestamp) (NewMessage now m.(ID) m.(Body))).

Lemma copy_same now m : small m → msg_sig (copy_of now m) = msg_sig m ∧ small (copy_of now m).
Proof.
  unfold msg_sig, sig, small. rewrite !encode_message_eq. cbn [ID Body Timestamp Attempts copy_of set_deferred set_Timestamp NewMessage].
  intros Hs. rewrite !length_app, !length_be_encode in *. split; [|exact Hs].
  assert (Ht : ∀ (a b b' c : bytes), length a = 8%nat → length b = 2%nat → length b' = 2%nat →
    take 8 (a ++ b ++ c) ++ drop 10 (a ++ b ++ c) = take 8 (a ++ b' ++ c) ++ drop 10 (a ++ b' ++ c)).
  { intros a b b' c Ha Hb Hb'. rewrite !take_app_length' by done. f_equal. rewrite !app_assoc.
    rewrite !drop_app_length' by (rewrite length_app; lia). done. }
  apply Ht; by rewrite length_be_encode.
Qed.

Lemma publish_call now y m h cs (t : Topic B MB) l c h' c' :
  cs !! l = Some c → publish_one now y m (h, c) = Some ((), (h', c')) →
  (if negb (m.(deferred) =? 0) then on_chan l (PutMessageDeferred now y m.(deferred))
   else _ ← on_chan l (PutMessage opts y); mret ()) (h, cs, t) = Some ((), (h', <[l := c']> cs, t)).
Proof.
  intros Hl E. unfold publish_one in E. destruct (negb _); [by eapply on_chan_eq|].
  apply ST_bind_inv in E as (err & [h1 c1] & E & [= <- <-]).
  by callST ltac:(eapply on_chan_eq; [exact Hl|exact E]).
Qed.

Lemma fp_publish_one X Y h0 now y m (s : heap C * Channel D Q) :
  (∀ x, (h0.(next) <= x)%nat → X x) → (∀ x, (h0.(next) <= x)%nat → Y x) → X y →
  fp X Y h0 (publish_one now y m) s any.
Proof.
  intros HX HY Hy. unfold publish_one. destruct (negb _).
  - by apply fp_PutMessageDeferred.
  - eapply fp_bind; [by apply fp_PutMessage|]. intros. by apply fp_ret.
Qed.

Lemma received_copy n (c : Channel D Q) s s' m now L :
  small m → received n c s s' (copy_of now m) L → received n c s s' m L.
Proof. intros Hs. unfold received. by rewrite (proj1 (copy_same now m Hs)). Qed.

(** What giving the message [m] to the channels [chans] made of a world. *)
Record published (m : Message) (chans : list loc) (h h' : heap C) (cs cs' : chanstore) : Prop := {
  pb_moved : moved h h' cs cs';
  pb_log : (flog h <= flog h')%nat;
  pb_msgs : ∀ x v, h.(msgs) !! x = Some v → h'.(msgs) !! x = Some v;
  pb_chan : ∀ l c, cs !! l = Some c → ∃ c', cs' !! l = Some c' ∧
    (l ∉ chans → c' = c ∧ owned (h', c) = owned (h, c) ∧ contents (h', c) = contents (h, c)) ∧
    (l ∈ chans → ∀ n L, holds (S n) (h, c) L → received n c (h, c) (h', c') m L);
}.

(** One round: the message (or its copy) [y] goes to the channel [l]. *)
Lemma publish_round_ok now y m h cs mem (t : Topic B MB) l c :
  world_ok h cs mem → cs !! l = Some c → h.(msgs) !! y = Some m → unowned h cs mem y →
  ∃ h' c', (if negb (m.(deferred) =? 0) then on_chan l (PutMessageDeferred now y m.(deferred))
            else _ ← on_chan l (PutMessage opts y); mret ()) (h, cs, t) = Some ((), (h', <[l := c']> cs, t)) ∧
    world_ok h' (<[l := c']> cs) mem ∧ published m [l] h h' cs (<[l := c']> cs).
Proof.
  intros Hw Hl Hm Hu. pose proof (wk_chan _ _ _ Hw l c Hl) as Hok.
  destruct (publish_one_ok h c now y m Hok) as (h' & c' & E & Hok' & Em & Hf & Hr); [by eapply Hu|done|].
  destruct (world_step (publish_one now y m) [y] mem h cs l c () h' c' Hw Hl E Hok') as (Hw' & [Ov Os Oc] & _).
  { intros x Hx. apply list_elem_of_singleton in Hx as ->. done. }
  { intros X Y HX HY Hex. apply fp_publish_one; [done..|]. apply Hex. by left. }
  exists h', c'. split; [by eapply publish_call|]. split; [done|]. split.
  - exact Ov.
  - exact Hf.
  - by rewrite Em.
  - intros k ck Hk. destruct (decide (k = l)) as [->|Hkl].
    + simplify_eq. exists c'. rewrite lookup_insert_eq. split; [done|]. split; [|intros _; exact Hr].
      intros []. by left.
    + exists ck. rewrite lookup_insert_ne by done. split; [done|]. split; [intros _; split; [done|exact (Oc k ck Hkl Hk)]|].
      intros ?%list_elem_of_singleton. done.
Qed.

Lemma received_holds_heap n (c c' : Channel D Q) h0 h' m L :
  received n c (h0, c) (h', c') m L → (flog h0 <= flog h')%nat →
  ∀ h, (flog h <= flog h0)%nat → received n c (h, c) (h', c') m L.
Proof. intros Hr Hf h Hh. by eapply received_heap. Qed.

Lemma published_cons m l ls h h0 h1 h' cs cs1 cs' :
  l ∉ ls → published m [l] h0 h1 cs cs1 → published m ls h1 h' cs1 cs' →
  (flog h <= flog h0)%nat → moved h h0 cs cs → (∀ x v, h.(msgs) !! x = Some v → h0.(msgs) !! x = Some v) →
  (∀ k c, cs !! k = Some c → owned (h0, c) = owned (h, c) ∧ contents (h0, c) = contents (h, c)) →
  published m (l :: ls) h h' cs cs'.
Proof.
  intros Hl [V1 L1 M1 C1] [V2 L2 M2 C2] L0 V0 M0 Hsame.
  split; [by eapply moved_trans, moved_trans|lia|by eauto|].
  intros k c Hk. destruct (Hsame k c Hk) as [Eo0 Ec0].
  destruct (C1 k c Hk) as (c1 & Hk1 & Hno1 & Hin1). destruct (C2 k c1 Hk1) as (c' & Hk' & Hno2 & Hin2).
  exists c'. split; [done|]. split.
  - intros [Hkl Hkls]%not_elem_of_cons. destruct Hno1 as (-> & Eo1 & Ec1).
    { intros ?%list_elem_of_singleton. done. }
    destruct (Hno2 Hkls) as (-> & Eo2 & Ec2). split_and!; [done|by rewrite Eo2, Eo1|by rewrite Ec2, Ec1].
  - intros Hk2 n L HL. assert (HL0 : holds (S n) (h0, c) L) by (by eapply holds_other).
    apply elem_of_cons in Hk2 as [->|Hkls].
    + destruct (Hno2 Hl) as (-> & _ & Ec2).
      eapply received_heap; [apply Hin1; [by left|exact HL0]|exact Ec2|lia..].
    + destruct Hno1 as (-> & Eo1 & Ec1); [intros ->%list_elem_of_singleton; done|].
      eapply received_holds_heap; [apply Hin2; [done|by eapply holds_other]|lia..].
Qed.

Lemma publish_loop_ok clock x m mem (t : Topic B MB) chans : ∀ i h cs,
  world_ok h cs mem → NoDup chans → (∀ l, l ∈ chans → is_Some (cs !! l)) →
  h.(msgs) !! x = Some m → (i = 0%nat → unowned h cs mem x) →
  ∃ h' cs', publish_loop opts clock x i chans (h, cs, t) = Some ((), (h', cs', t)) ∧
    world_ok h' cs' mem ∧ published m chans h h' cs cs'.
Proof.
  induction chans as [|l ls IH]; intros i h cs Hw Hnd Hin Hm Hu; cbn [publish_loop].
  { exists h, cs. split; [done|]. split; [done|]. split; [apply moved_refl|done|done|]. intros l c Hl. exists c. split; [done|].
    split; [done|]. by intros ?%elem_of_nil. }
  apply NoDup_cons in Hnd as [Hlls Hnd]. destruct (Hin l) as [c Hl]; [by left|].
  assert (Hsm : small m) by by eapply (wk_small _ _ _ Hw).
  callST ltac:(unfold t_get_msg, mbind, ST_bind, getST, liftST; rewrite Hm; reflexivity).
  assert (Hstep : ∃ y my h0, (if bool_decide (0 < i)%nat then t_new_msg (copy_of (clock i) m) else mret x) (h, cs, t)
      = Some (y, (h0, cs, t)) ∧ world_ok h0 cs mem ∧ h0.(msgs) !! y = Some my ∧ unowned h0 cs mem y ∧
      (my = m ∨ my = copy_of (clock i) m) ∧ flog h0 = flog h ∧ moved h h0 cs cs ∧
      (∀ z v, h.(msgs) !! z = Some v → h0.(msgs) !! z = Some v) ∧
      (∀ k ck, cs !! k = Some ck → owned (h0, ck) = owned (h, ck) ∧ contents (h0, ck) = contents (h, ck))).
  { case_bool_decide as Hi.
    - destruct (world_new_msg h cs mem (copy_of (clock i) m) Hw) as (Hw0 & Hu0 & Hs0 & Hm0); [by apply copy_same|].
      exists h.(next), (copy_of (clock i) m), (alloc_msg (copy_of (clock i) m) h). split_and!; try done; [|by right|].
      + cbn. by rewrite lookup_insert_eq.
      + apply moved_heap; [cbn; lia|done].
    - exists x, m, h. split_and!; try done; [apply Hu; lia|by left|apply moved_refl]. }
  destruct Hstep as (y & my & h0 & E0 & Hw0 & Hmy & Hu0 & Hcase & Hfl & Hv0 & Hmono & Hsame).
  unfold copy_of in E0. callST ltac:(exact E0).
  callST ltac:(unfold t_get_msg, mbind, ST_bind, getST, liftST; rewrite Hmy; reflexivity).
  destruct (publish_round_ok (clock i) y my h0 cs mem t l c Hw0 Hl Hmy Hu0) as (h1 & c1 & E1 & Hw1 & Hp1).
  callST ltac:(exact E1).
  destruct (IH (S i) h1 (<[l := c1]> cs) Hw1 Hnd) as (h' & cs' & E & Hw' & Hp).
  { intros k Hk. destruct (decide (k = l)) as [->|]; [rewrite lookup_insert_eq; by eexists|].
    rewrite lookup_insert_ne by done. apply Hin. by right. }
  { apply (pb_msgs _ _ _ _ _ _ Hp1). by apply Hmono. }
  { done. }
  exists h', cs'. split; [exact E|]. split; [done|].
  eapply published_cons; [exact Hlls| |exact Hp|by rewrite Hfl|exact Hv0|exact Hmono|exact Hsame].
  destruct Hp1 as [P0 P1 P2 P3]. split; [done|done|done|]. intros k ck Hk.
  destruct (P3 k ck Hk) as (ck' & Hk' & Hno & Hyes). exists ck'. split; [done|]. split; [done|].
  intros Hk2 n L HL. specialize (Hyes Hk2 n L HL). destruct Hcase as [->| ->]; [done|by eapply received_copy].
Qed.
End proofs.

(** For steps that change neither consumers nor channels. *)
Ltac still := apply moved_heap; [cbn; lia|done].
End TopicP.
