(* ===== verification/TopicProps.v ===== *)
(** * What a topic promises

    No sequence of steps of a topic, of its pump and of the clients of its
    channels panics or breaks the invariant; a published batch is queued and
    counted exactly; the pump gives each message to every channel of the
    topic; closing writes what is left to the backend. And what it does not
    promise: [putMemoryToFile] keeps a topic from closing, and takes the first
    message away. *)
From stdpp Require Import base gmap list strings.
From Stdlib Require Import ZArith Lia.
From S2P Require Import Prelude.
From S2P Require Import Text.
From S2P Require Import Message.
From S2P Require Import Guid.
From S2P Require Import Heap.
From S2P Require Import Backend.
From S2P Require Import Channel.
From S2P Require Import ChannelProofs.
From S2P Require Import ChannelScan.
From S2P Require Import ChannelProps.
From S2P Require Import ChannelFrame.
From S2P Require Import Topic.
From S2P Require Import TopicProofs.
Set Default Goal Selector "!".
Local Open Scope Z_scope.

Module TopicSpec.
Import Channel ChannelP ChannelS ChannelSpec ChannelF Topic TopicP.

Section ops.
Context {C D Q B MB : Type}.
Context `{Consumer C, BackendQueue D, QuantileStream Q, BackendQueue B, UnloggedQueue MB}.
Context (opts : options) (range : ∀ A : Type, list A → list A).
Context (channel_queue : bytes → D) (e2e : option Q).

(** The steps of a topic: calls of its methods, turns of its goroutines, and
    whatever the clients do with its channels. *)
Inductive topic_op :=
| TPut (m : Message)
| TPutMany (ms : list Message)
| TGetChannel (name : bytes)
| TDeleteChannel (name : bytes)
| TPause (b : bool)
| TStart
| TEmpty
| TPumpStart
| TPumpMemory (clock : nat → time)
| TPumpBackend (clock : nat → time)
| TPumpExit
| TToFile
| TExitBegin (deleted : bool)
| TExitFinish (deleted : bool)
| TChannel (l : loc) (o : chan_op).

Notation TM := (ST (@tstate C D Q B MB)).

Fixpoint new_msgs (ms : list Message) : TM (list loc) :=
  match ms with
  | [] => mret []
  | m :: ms => x ← t_new_msg m; xs ← new_msgs ms; mret (x :: xs)
  end.

Definition texec (o : topic_op) : TM () :=
  match o with
  | TPut m => x ← t_new_msg m; _ ← t_PutMessage opts x; mret ()
  | TPutMany ms => xs ← new_msgs ms; _ ← PutMessages opts xs; mret ()
  | TGetChannel name => _ ← GetChannel opts range channel_queue e2e name; mret ()
  | TDeleteChannel name => _ ← DeleteExistingChannel opts range name; mret ()
  | TPause b => t_doPause b
  | TStart => Start
  | TEmpty => _ ← t_Empty; mret ()
  | TPumpStart => _ ← pump_start range; mret ()
  | TPumpMemory clock => _ ← pump_memory opts clock; mret ()
  | TPumpBackend clock => _ ← pump_backend opts clock; mret ()
  | TPumpExit => _ ← pump_exit; mret ()
  | TToFile => _ ← putMemoryToFile; mret ()
  | TExitBegin d => _ ← exit_begin d; mret ()
  | TExitFinish d =>
    '(_, _, t) ← getST;
    if t.(t_exitChan) && wait_done t then _ ← exit_finish opts range d; mret () else mret ()
  | TChannel l o =>
    '(_, cs, _) ← getST;
    if bool_decide (is_Some (cs !! l)) then on_chan l (exec opts range o) else mret ()
  end.

Fixpoint texec_all (os : list topic_op) : TM () :=
  match os with
  | [] => mret ()
  | o :: os => _ ← texec o; texec_all os
  end.

Definition topic_op_ok (o : topic_op) : Prop :=
  match o with
  | TPut m => small m
  | TPutMany ms => Forall small ms
  | TChannel _ o => op_ok o
  | _ => True
  end.

End ops.

Section proofs.
Context {C D Q B MB : Type}.
Context `{Consumer C, !BackendQueue D, !BackendLaws D, QuantileStream Q,
          !BackendQueue B, !BackendLaws B, UnloggedQueue MB}.
Context (opts : options) (range : ∀ A : Type, list A → list A).
Hypothesis range_perm : ∀ A (l : list A), range A l ≡ₚ l.
(** The disk queues send no message longer than an [int32] can say. *)
Hypothesis recv_small : ∀ (b b' : D) d, bq_Recv b = Some (d, b') → Z.of_nat (length d) < 2 ^ 31.
Hypothesis t_recv_small : ∀ (b b' : B) d, bq_Recv b = Some (d, b') → Z.of_nat (length d) < 2 ^ 31.

Notation tstate := (@tstate C D Q B MB).
Notation chanstore := (gmap loc (Channel D Q)).
Implicit Types (h : heap C) (cs : chanstore).

(** What surrounds the topic. *)
Context (F : @frame C D Q).
Notation topic_ok := (topic_ok F).
(** The messages in its memory and in that of other topics. *)
Notation held t := (t.(t_memoryMsgChan) ++ F.(fr_mem)).

(** ** Steps that leave the channels alone *)

Lemma topic_ok_other h cs (t t' : Topic B MB) :
  t'.(t_memoryMsgChan) = t.(t_memoryMsgChan) → t'.(t_channelMap) = t.(t_channelMap) →
  t'.(t_pump) = t.(t_pump) → t'.(t_exitChan) = t.(t_exitChan) → t'.(t_paused) = t.(t_paused) →
  topic_ok (h, cs, t) → topic_ok (h, cs, t').
Proof.
  intros E1 E2 E3 E4 E5 [Tw Tv Tm Ti Tp Tc]. split; cbn in *; rewrite ?E1, ?E2, ?E3, ?E4; try done.
  intros chans en He Hp. destruct (Tc chans en He Hp) as [? ->]. split; [done|]. unfold may_receive. by rewrite E5.
Qed.

Lemma world_log h (cs : chanstore) mem lg : world_ok h cs mem → world_ok (set_ctx_log lg h) cs mem.
Proof.
  intros Hw. split; try apply Hw.
  - intros l c Hl. apply (chan_ok_other (h, c)); try done. by apply (wk_chan _ _ _ Hw l).
  - intros l l' c c' Hll Hl Hl'. destruct (wk_apart _ _ _ Hw l l' c c') as [? ?]; [done..|]. by split.
Qed.

Lemma topic_ok_log h cs (t : Topic B MB) lg : topic_ok (h, cs, t) → topic_ok (set_ctx_log lg h, cs, t).
Proof. intros T. eapply topic_ok_world; [exact T|apply world_log, T|still]. Qed.

(** Fewer messages in memory. *)
Lemma world_mem h (cs : chanstore) mem mem' :
  world_ok h cs mem → NoDup mem' → (∀ x, x ∈ mem' → x ∈ mem) → world_ok h cs mem'.
Proof.
  intros [? ? ? ? ? Wl Wn Wf] Hn Hin. split; try done; intros x; [by intros ?%Hin; apply Wl|].
  intros l c ?%Hin. by apply Wf.
Qed.

(** One more message, that nobody owned. *)
Lemma world_add h (cs : chanstore) mem mem' x :
  world_ok h cs mem → unowned h cs mem x → mem' ≡ₚ x :: mem → world_ok h cs mem'.
Proof.
  intros [? ? ? ? ? Wl Wn Wf] (Hlive & Hxm & Hxo) Ep. split; try done; [| |].
  - intros y. rewrite Ep, elem_of_cons. intros [->|?]; [done|by apply Wl].
  - rewrite Ep. by constructor.
  - intros y l c. rewrite Ep, elem_of_cons. intros [->|?]; [by apply Hxo|by apply Wf].
Qed.

Lemma topic_ok_mem h cs (t : Topic B MB) mem :
  topic_ok (h, cs, t) → world_ok h cs (mem ++ F.(fr_mem)) → topic_ok (h, cs, set_t_memoryMsgChan mem t).
Proof. intros [Tw Tv Tm Ti Tp Tc] Hw. by split. Qed.

Lemma topic_ok_no_mem h cs (t : Topic B MB) : topic_ok (h, cs, t) → topic_ok (h, cs, set_t_memoryMsgChan [] t).
Proof.
  intros T. pose proof (tk_world _ _ T) as Hw. apply topic_ok_mem; [done|]. eapply world_mem; [exact Hw| |].
  - by apply wk_nodup, NoDup_app in Hw as (_ & _ & ?).
  - intros x ?. apply elem_of_app. by right.
Qed.

Lemma pop_topic_memory h cs (t : Topic B MB) x xs :
  topic_ok (h, cs, t) → t.(t_memoryMsgChan) = x :: xs →
  topic_ok (h, cs, set_t_memoryMsgChan xs t) ∧ unowned h cs (xs ++ F.(fr_mem)) x.
Proof.
  intros T Hm. pose proof (tk_world _ _ T) as Hw. cbn in Hw. rewrite Hm in Hw.
  pose proof (wk_nodup _ _ _ Hw) as Hnd. apply NoDup_cons in Hnd as [Hx Hnd]. split.
  - apply topic_ok_mem; [done|]. eapply world_mem; [exact Hw|done|]. intros y ?. by right.
  - split_and!; [apply (wk_live _ _ _ Hw); by left|done|]. intros l c. apply (wk_free _ _ _ Hw). by left.
Qed.

(** ** Publishing *)

(** The messages a topic holds, in memory and in its backend. *)
Definition t_holds (n : nat) (h : heap C) (t : Topic B MB) (L : list bytes) : Prop :=
  ∃ q, bq_rep n t.(t_backend) q ∧ L ≡ₚ (sig_at h.(msgs) <$> t.(t_memoryMsgChan)) ++ (sig <$> q).

(** Messages that stay as they are. *)
Lemma t_holds_mono h h' (cs : chanstore) (t : Topic B MB) n L :
  topic_ok (h, cs, t) → (∀ x v, h.(msgs) !! x = Some v → h'.(msgs) !! x = Some v) → t_holds n h t L → t_holds n h' t L.
Proof.
  intros T Hmono (q & Hq & El). exists q. split; [done|].
  rewrite El. f_equiv. erewrite list_fmap_ext; [reflexivity|]. intros j x Hx. unfold sig_at.
  destruct (wk_live _ _ _ (tk_world _ _ T) x) as [v Hv]; [apply elem_of_app; left; by eapply list_elem_of_lookup_2|]. cbn in Hv.
  by rewrite Hv, (Hmono x v Hv).
Qed.

Lemma t_get_msg_ok x m h (cs : chanstore) (t : Topic B MB) :
  h.(msgs) !! x = Some m → t_get_msg x (h, cs, t) = Some (m, (h, cs, t)).
Proof. intros Hm. unfold t_get_msg, mbind, ST_bind, getST, liftST. by rewrite Hm. Qed.

Lemma t_put_ok h cs (t : Topic B MB) x m :
  topic_ok (h, cs, t) → unowned h cs (held t) x → h.(msgs) !! x = Some m →
  ∃ err h' t', t_put opts x (h, cs, t) = Some (err, (h', cs, t')) ∧ topic_ok (h', cs, t') ∧
    (h'.(msgs) = h.(msgs) ∧ h'.(consumers) = h.(consumers)) ∧
    (∀ y, y ≠ x → unowned h cs (held t) y → unowned h' cs (held t') y) ∧
    (∃ b l, t' = set_t_backend b (set_t_memoryMsgChan l t)) ∧
    ∀ n L, t_holds (S n) h t L →
      match err with
      | None => t_holds n h' t' (msg_sig m :: L)
      | Some _ => t_holds n h' t' L ∨ t_holds n h' t' (msg_sig m :: L)
      end.
Proof.
  intros T (Hlive & Hxm & Hxo) Hm. unfold t_put. callST ltac:(reflexivity). case_bool_decide as Hlen.
  - set (t' := set_t_memoryMsgChan (t.(t_memoryMsgChan) ++ [x]) t).
    exists None, h, t'. split_and!; [done| |done|done| | |].
    + apply topic_ok_mem; [done|]. eapply world_add; [apply (tk_world _ _ T)|exact (conj Hlive (conj Hxm Hxo))|].
      cbn. by rewrite <- app_assoc, (Permutation_middle _ _ x).
    + intros y Hy (H1' & H2' & H3'). split_and!; [done| |done]. cbn.
      rewrite !elem_of_app, list_elem_of_singleton. rewrite elem_of_app in H2'. tauto.
    + exists t.(t_backend), (t.(t_memoryMsgChan) ++ [x]). by destruct t.
    + intros n L (q & Hq & El). exists q. split; [eapply bq_rep_weaken; [|exact Hq]; lia|]. cbn.
      rewrite fmap_app, El. cbn. rewrite (sig_at_msg _ _ _ Hm).
      by rewrite <- Permutation_cons_append.
  - callST ltac:(exact (t_get_msg_ok x m h cs t Hm)).
    rewrite writeMessageToBackend_eq. destruct (bq_Put (encode_message m) t.(t_backend)) as [err b] eqn:Ep.
    callST ltac:(reflexivity). callST ltac:(reflexivity).
    exists err, (set_ctx_log (h.(ctx_log) ++ [SetHealth err]) h), (set_t_backend b t). split_and!; [done| |done|done| | |].
    + apply topic_ok_log. by apply (topic_ok_other h cs t).
    + by intros y _ (? & ? & ?).
    + exists b, t.(t_memoryMsgChan). by destruct t.
    + intros n L (q & Hq & El).
      assert (Hs : small m) by by eapply (wk_small _ _ _ (tk_world _ _ T)).
      pose proof (bq_rep_Put _ _ _ _ _ _ Hq Hs Ep) as Hp.
      assert (Hin : bq_rep n b (q ++ [encode_message m]) → t_holds n (set_ctx_log (ctx_log h ++ [SetHealth err]) h) (set_t_backend b t) (msg_sig m :: L)).
      { intros Hq'. exists (q ++ [encode_message m]). split; [done|]. cbn. rewrite fmap_app, El. cbn.
        change (sig (encode_message m)) with (msg_sig m).
        rewrite (app_assoc (sig_at _ <$> _)). by rewrite <- Permutation_cons_append. }
      destruct err as [e|]; [|by apply Hin]. destruct Hp as [Hp|Hp]; [left; by exists q|right; by apply Hin].
Qed.

Lemma t_holds_weaken n n' h (t : Topic B MB) L : (n' <= n)%nat → t_holds n h t L → t_holds n' h t L.
Proof. intros Hn (q & Hq & E). exists q. split; [by eapply bq_rep_weaken|done]. Qed.

Lemma t_holds_perm n h (t : Topic B MB) L L' : L ≡ₚ L' → t_holds n h t L → t_holds n h t L'.
Proof. intros E (q & Hq & El). exists q. split; [done|]. by rewrite <- E. Qed.

Definition body_bytes (ms : list Message) : Z :=
  foldr (λ m z, Z.of_nat (length m.(Body)) + z) 0 ms.

(** The state after [k] of the messages were queued. *)
Record batch_queued (xs : list loc) (ms : list Message) (h h' : heap C) cs (t t' : Topic B MB)
    (i total : Z) (err : option string) (k : nat) : Prop := {
  bt_ok : topic_ok (h', cs, t');
  bt_err : match err with None => k = length ms | Some _ => (k < length ms)%nat end;
  bt_count : t'.(t_messageCount) = u64 (t.(t_messageCount) + (i + Z.of_nat k));
  bt_bytes : t'.(t_messageBytes) = u64 (t.(t_messageBytes) + (total + body_bytes (take k ms)));
  bt_holds : ∀ n L, t_holds (length ms + n) h t L →
    match err with
    | None => t_holds n h' t' ((msg_sig <$> ms) ++ L)
    | Some _ => t_holds n h' t' ((msg_sig <$> take k ms) ++ L) ∨ t_holds n h' t' ((msg_sig <$> take (S k) ms) ++ L)
    end;
}.

Lemma put_loop_ok xs : ∀ ms h cs (t : Topic B MB) i total,
  topic_ok (h, cs, t) → Forall2 (λ x m, h.(msgs) !! x = Some m) xs ms → NoDup xs →
  (∀ x, x ∈ xs → unowned h cs (held t) x) →
  ∃ err k h' t', put_loop opts xs i total (h, cs, t) = Some (err, (h', cs, t')) ∧
    batch_queued xs ms h h' cs t t' i total err k.
Proof.
  induction xs as [|x xs IH]; intros ms h cs t i total T Hms Hnd Hun; cbn [put_loop].
  - apply Forall2_nil_inv_l in Hms as ->. eexists None, 0%nat, h, _. split; [reflexivity|].
    split; cbn; [by apply (topic_ok_other h cs t)|done|f_equal; lia|f_equal; lia|].
    intros n L (q & Hq & El). by exists q.
  - apply Forall2_cons_inv_l in Hms as (m & ms' & Hm & Hms & ->). apply NoDup_cons in Hnd as [Hx Hnd].
    destruct (t_put_ok h cs t x m T (Hun x ltac:(by left)) Hm) as (err & h1 & t1 & E1 & T1 & [Em1 _] & Hun1 & (b & l & Et1) & Hh1).
    callST ltac:(exact E1). destruct err as [e|].
    + eexists (Some e), 0%nat, h1, _. split; [reflexivity|].
      split; cbn; [by apply (topic_ok_other h1 cs t1)|lia|subst t1; cbn; f_equal; lia|subst t1; cbn; f_equal; lia|].
      intros n L HL. specialize (Hh1 (length ms' + n)%nat L HL).
      rewrite take_0. destruct Hh1 as [(q & Hq & El)|(q & Hq & El)]; [left|right]; exists q; (split; [|done]);
        (eapply bq_rep_weaken; [|exact Hq]; lia).
    + assert (Hm1 : h1.(msgs) !! x = Some m) by by rewrite Em1.
      callST ltac:(exact (t_get_msg_ok x m h1 cs t1 Hm1)).
      destruct (IH ms' h1 cs t1 (i + 1) (total + Z.of_nat (length m.(Body))) T1) as (err & k & h' & t' & E & R).
      { eapply Forall2_impl; [exact Hms|]. cbn. intros y v. by rewrite Em1. } { done. }
      { intros y Hy. apply Hun1; [by intros ->|]. apply Hun. by right. }
      exists err, (S k), h', t'. split; [exact E|]. destruct R as [R1 R2 R3 R4 R5]. split.
      * done.
      * destruct err; cbn; lia.
      * rewrite R3. subst t1. cbn. f_equal. lia.
      * rewrite R4. subst t1. cbn [take body_bytes foldr t_messageBytes set_t_backend set_t_memoryMsgChan].
        f_equal. unfold body_bytes. lia.
      * intros n L HL. specialize (Hh1 (length ms' + n)%nat L HL). specialize (R5 n _ Hh1). cbn in R5.
        destruct err as [e|].
        -- cbn [take fmap list_fmap]. destruct R5 as [R5|R5]; [left|right];
             (eapply t_holds_perm; [|exact R5]); cbn; by rewrite <- Permutation_middle.
        -- eapply t_holds_perm; [|exact R5]. cbn. by rewrite <- Permutation_middle.
Qed.

Lemma t_PutMessage_ok h cs (t : Topic B MB) x m :
  topic_ok (h, cs, t) → unowned h cs (held t) x → h.(msgs) !! x = Some m →
  ∃ err s', t_PutMessage opts x (h, cs, t) = Some (err, s') ∧ topic_ok s'.
Proof.
  intros T Hu Hm. unfold t_PutMessage. destruct (t_exitFlag t) eqn:Ex.
  { eexists _, (h, cs, t). split; [|exact T]. callST ltac:(reflexivity). cbn [snd]. by rewrite Ex. }
  destruct (t_put_ok _ _ _ _ m T Hu Hm) as (err & h' & t' & E & T' & [Em _] & _). destruct err as [e|].
  - eexists _, _. split; [|exact T']. callST ltac:(reflexivity). cbn [snd]. rewrite Ex. by callST ltac:(exact E).
  - eexists _, _. split.
    + callST ltac:(reflexivity). cbn [snd]. rewrite Ex. callST ltac:(exact E).
      callST ltac:(apply t_get_msg_ok; rewrite Em; exact Hm). by callST ltac:(reflexivity).
    + by apply (topic_ok_other h' cs t').
Qed.

Lemma PutMessages_ok xs ms h cs (t : Topic B MB) :
  topic_ok (h, cs, t) → Forall2 (λ x m, h.(msgs) !! x = Some m) xs ms → NoDup xs →
  (∀ x, x ∈ xs → unowned h cs (held t) x) →
  ∃ err s', PutMessages opts xs (h, cs, t) = Some (err, s') ∧ topic_ok s'.
Proof.
  intros T Hms Hnd Hun. unfold PutMessages. destruct (t_exitFlag t) eqn:Ex.
  { eexists _, (h, cs, t). split; [|exact T]. callST ltac:(reflexivity). cbn [snd]. by rewrite Ex. }
  destruct (put_loop_ok xs ms h cs t 0 0 T Hms Hnd Hun) as (err & k & h2 & t2 & E2 & R).
  eexists _, _. split; [|apply R]. callST ltac:(reflexivity). cbn [snd]. rewrite Ex. exact E2.
Qed.

(** Allocating the messages of a batch. *)
Lemma topic_new_msg h cs (t : Topic B MB) m :
  topic_ok (h, cs, t) → small m →
  topic_ok (alloc_msg m h, cs, t) ∧ unowned (alloc_msg m h) cs (held t) h.(next) ∧
  (alloc_msg m h).(msgs) !! h.(next) = Some m ∧
  ∀ x, unowned h cs (held t) x →
    unowned (alloc_msg m h) cs (held t) x ∧ x ≠ h.(next) ∧ (alloc_msg m h).(msgs) !! x = h.(msgs) !! x.
Proof.
  intros T Hs. pose proof (tk_world _ _ T) as Hw. cbn in Hw.
  destruct (world_new_msg h cs _ m Hw Hs) as (Hw' & Hu & Hc & Hm).
  split; [eapply topic_ok_world; [exact T|done|still]|]. split; [done|]. split; [cbn; by rewrite lookup_insert_eq|].
  intros x ((v & Hv) & Hx & Ho). pose proof (Hm x v Hv) as Hv'. split_and!; [|intros ->|by rewrite Hv', Hv].
  - split_and!; [by eexists|done|]. intros l c Hl. destruct (Hc l c Hl) as [-> _]. by apply (Ho l).
  - destruct (wk_fresh _ _ _ Hw (next h)) as [Hn _]; [lia|]. congruence.
Qed.

Lemma new_msgs_ok ms : ∀ h cs (t : Topic B MB) done_xs done_ms,
  topic_ok (h, cs, t) → Forall small ms →
  Forall2 (λ x m, h.(msgs) !! x = Some m) done_xs done_ms → NoDup done_xs →
  (∀ x, x ∈ done_xs → unowned h cs (held t) x) →
  ∃ xs h', new_msgs ms (h, cs, t) = Some (xs, (h', cs, t)) ∧ topic_ok (h', cs, t) ∧
    Forall2 (λ x m, h'.(msgs) !! x = Some m) (done_xs ++ xs) (done_ms ++ ms) ∧ NoDup (done_xs ++ xs) ∧
    (∀ x, x ∈ done_xs ++ xs → unowned h' cs (held t) x) ∧
    ∀ x v, h.(msgs) !! x = Some v → h'.(msgs) !! x = Some v.
Proof.
  induction ms as [|m ms IH]; intros h cs t dx dm T Hs Hdm Hnd Hun; cbn [new_msgs].
  - exists [], h. by rewrite !app_nil_r.
  - apply Forall_cons in Hs as [Hs Hss]. callST ltac:(exact (t_new_msg_eq m h cs t)).
    destruct (topic_new_msg h cs t m T Hs) as (T1 & Hu1 & Hm1 & Hk1).
    destruct (IH (alloc_msg m h) cs t (dx ++ [h.(next)]) (dm ++ [m]) T1 Hss) as (xs & h' & E & T' & Hms & Hn & Hu & Hmono).
    { apply Forall2_app; [|by repeat constructor].
      apply Forall2_same_length_lookup. apply Forall2_same_length_lookup in Hdm as [Hl Hd]. split; [done|].
      intros j x v Hx Hv. destruct (Hk1 x) as (_ & _ & ->); [by eapply Hun, list_elem_of_lookup_2|]. by eapply Hd. }
    { apply NoDup_app. split; [done|]. split; [|by apply NoDup_singleton]. intros x Hx ->%list_elem_of_singleton.
      by destruct (Hk1 (next h) (Hun _ Hx)) as (_ & ? & _). }
    { intros x. rewrite elem_of_app, list_elem_of_singleton. intros [Hx| ->]; [by apply Hk1, Hun|done]. }
    callST ltac:(exact E). exists (h.(next) :: xs), h'.
    rewrite <- !app_assoc in Hms, Hn, Hu. cbn in Hms, Hn, Hu. rewrite <- app_assoc in Hms.
    split_and!; try done. intros x v Hv. apply Hmono.
    by apply (world_new_msg h cs _ m (tk_world _ _ T) Hs).
Qed.

(** ** The pump *)

Lemma current_chans_spec (t : Topic B MB) l :
  l ∈ current_chans range t ↔ ∃ n, t.(t_channelMap) !! n = Some l.
Proof.
  unfold current_chans. rewrite range_perm, list_elem_of_fmap. split.
  - intros ([n l'] & -> & Hn%elem_of_map_to_list). by exists n.
  - intros [n Hn]. exists (n, l). split; [done|]. by apply elem_of_map_to_list.
Qed.

Lemma current_chans_NoDup h cs (t : Topic B MB) : topic_ok (h, cs, t) → NoDup (current_chans range t).
Proof.
  intros T. unfold current_chans. rewrite range_perm. apply NoDup_fmap_2_strong; [|apply NoDup_map_to_list].
  intros [n l] [n' l'] Hn%elem_of_map_to_list Hn'%elem_of_map_to_list. cbn. intros ->.
  by rewrite (tk_inj _ _ T n n' l').
Qed.

(** Whatever the pump did before, it now works with the current channels. *)
Lemma topic_ok_refresh h cs (t t' : Topic B MB) :
  topic_ok (h, cs, t) → t'.(t_memoryMsgChan) = t.(t_memoryMsgChan) →
  t'.(t_channelMap) = t.(t_channelMap) → 
  t'.(t_pump) = PumpRunning (current_chans range t) (may_receive (current_chans range t) t') →
  topic_ok (h, cs, t').
Proof.
  intros T E1 E2 E3. pose proof T as [Tw Tv Tm Ti Tp Tc]. split; cbn in *; rewrite ?E1, ?E2, ?E3; try done.
  - intros chans en [= <- _]. split; [by eapply current_chans_NoDup|]. intros l [n Hn]%current_chans_spec. by eapply Tm.
  - intros chans en _ [= <- <-]. split; [|done]. apply current_chans_spec.
Qed.

Lemma pump_update_ok h cs (t : Topic B MB) :
  world_ok h cs (held t) → moved F.(fr_heap) h F.(fr_chans) cs →
  (∀ n l, t.(t_channelMap) !! n = Some l → is_Some (cs !! l)) →
  (∀ n n' l, t.(t_channelMap) !! n = Some l → t.(t_channelMap) !! n' = Some l → n = n') →
  ∃ t', pump_update range (h, cs, t) = Some ((), (h, cs, t')) ∧ topic_ok (h, cs, t') ∧
    t'.(t_exitChan) = t.(t_exitChan).
Proof.
  intros Hw Hv Hm Hi. unfold pump_update. eexists. split; [reflexivity|]. cbv beta.
  destruct (t_pump t) as [|chans en|] eqn:Ep.
  - split; [|done]. split; cbn; rewrite ?Ep; try done.
  - split; [|done].
    assert (T0 : topic_ok (h, cs, set_t_pump PumpWaiting t)) by (by split).
    by eapply (topic_ok_refresh _ _ _ _ T0).
  - split; [|done]. split; cbn; rewrite ?Ep; try done.
Qed.

Lemma rendezvous_update_ok h cs (t : Topic B MB) :
  world_ok h cs (held t) → moved F.(fr_heap) h F.(fr_chans) cs →
  (∀ n l, t.(t_channelMap) !! n = Some l → is_Some (cs !! l)) →
  (∀ n n' l, t.(t_channelMap) !! n = Some l → t.(t_channelMap) !! n' = Some l → n = n') →
  (∀ chans en, t.(t_pump) = PumpRunning chans en → NoDup chans ∧ ∀ l, l ∈ chans → is_Some (cs !! l)) →
  ∃ t', rendezvous (pump_update range) (h, cs, t) = Some ((), (h, cs, t')) ∧ topic_ok (h, cs, t').
Proof.
  intros Hw Hv Hm Hi Hp. unfold rendezvous. callST ltac:(reflexivity). destruct (t_exitChan t) eqn:Ex.
  - exists t. split; [done|]. split; cbn; try done. intros chans en. by rewrite Ex.
  - destruct (pump_update_ok h cs t) as (t' & E & T & _); [done..|]. by exists t'.
Qed.

Lemma pump_start_ok h cs (t : Topic B MB) : topic_ok (h, cs, t) →
  ∃ b t', pump_start range (h, cs, t) = Some (b, (h, cs, t')) ∧ topic_ok (h, cs, t').
Proof.
  intros T. unfold pump_start. callST ltac:(reflexivity).
  destruct (t_pump t) as [|chans en|] eqn:Ep; [|by exists false, t..].
  destruct (t_startChan t); [|by exists false, t]. eexists true, _. split; [reflexivity|].
  by eapply (topic_ok_refresh _ _ _ _ T).
Qed.

Lemma pause_ok b h cs (t : Topic B MB) : topic_ok (h, cs, t) →
  ∃ t', t_doPause b (h, cs, t) = Some ((), (h, cs, t')) ∧ topic_ok (h, cs, t').
Proof.
  intros T. pose proof T as [Tw Tv Tm Ti Tp Tc]. cbn in *. unfold t_doPause. callST ltac:(reflexivity). unfold rendezvous. callST ltac:(reflexivity).
  cbn. destruct (t_exitChan t) eqn:Ex.
  - eexists. split; [reflexivity|]. split; cbn; try done. intros ? ?. by rewrite Ex.
  - unfold pump_pause. eexists. split; [reflexivity|]. cbn. destruct (t_pump t) as [|chans en|] eqn:Ep.
    + split; cbn; rewrite ?Ep; done.
    + split; cbn; try done.
      * intros ? ? [= <- _]. by eapply Tp.
      * intros ? ? _ [= <- <-]. split; [|done]. by destruct (Tc chans en).
    + split; cbn; rewrite ?Ep; done.
Qed.

(** ** The pump publishes *)

Lemma pump_memory_ok clock h cs (t : Topic B MB) : topic_ok (h, cs, t) →
  match t.(t_pump), t.(t_memoryMsgChan) with
  | PumpRunning chans true, x :: xs => ∃ m h' cs', h.(msgs) !! x = Some m ∧
      pump_memory opts clock (h, cs, t) = Some (true, (h', cs', set_t_memoryMsgChan xs t)) ∧
      topic_ok (h', cs', set_t_memoryMsgChan xs t) ∧ published m chans h h' cs cs'
  | _, _ => pump_memory opts clock (h, cs, t) = Some (false, (h, cs, t))
  end.
Proof.
  intros T. destruct (t_pump t) as [|chans [|]|] eqn:Ep; destruct (t_memoryMsgChan t) as [|x xs] eqn:Em;
    try (unfold pump_memory; callST ltac:(reflexivity); by rewrite Ep, ?Em).
  destruct (pop_topic_memory h cs t x xs T Em) as [T1 Hu]. pose proof Hu as ((m & Hm) & _).
  destruct (tk_pump _ _ T chans true Ep) as [Hnd Hin].
  destruct (publish_loop_ok opts clock x m (xs ++ F.(fr_mem)) (set_t_memoryMsgChan xs t) chans 0 h cs) as (h' & cs' & E & Hw & Hp);
    [apply (tk_world _ _ T1)|done|done|done|done|].
  exists m, h', cs'. split; [done|]. split_and!; [| |done].
  - unfold pump_memory. callST ltac:(reflexivity). rewrite Ep, Em. callST ltac:(reflexivity).
    callST ltac:(exact E). done.
  - eapply topic_ok_world; [exact T1|exact Hw|apply Hp].
Qed.

Lemma pump_backend_ok clock h cs (t : Topic B MB) : topic_ok (h, cs, t) →
  match t.(t_pump), bq_Recv t.(t_backend) with
  | PumpRunning chans true, Some (buf, b) =>
      match decodeMessage buf with
      | Err _ => pump_backend opts clock (h, cs, t) = Some (true, (h, cs, set_t_backend b t))
      | Ok m => ∃ h' cs', pump_backend opts clock (h, cs, t) = Some (true, (h', cs', set_t_backend b t)) ∧
          topic_ok (h', cs', set_t_backend b t) ∧ published m chans h h' cs cs'
      end
  | _, _ => pump_backend opts clock (h, cs, t) = Some (false, (h, cs, t))
  end.
Proof.
  intros T. destruct (t_pump t) as [|chans [|]|] eqn:Ep; destruct (bq_Recv t.(t_backend)) as [[buf b]|] eqn:Er;
    try (unfold pump_backend; callST ltac:(reflexivity); by rewrite Ep, ?Er).
  destruct (decodeMessage buf) as [m|e] eqn:Ed.
  2: { unfold pump_backend. callST ltac:(reflexivity). rewrite Ep, Er. callST ltac:(reflexivity). by rewrite Ed. }
  destruct (decodeMessage_ok buf m Ed) as (_ & _ & Hmb).
  assert (Hs : small m).
  { unfold small. rewrite Hmb. destruct (t_backend t) as [b0|b0]; cbn in Er; [done|].
    destruct (bq_Recv b0) as [[d' b']|] eqn:Er'; [|done]. cbn in Er. injection Er as <- _. by eapply t_recv_small. }
  assert (T0 : topic_ok (h, cs, set_t_backend b t)) by by apply (topic_ok_other h cs t).
  destruct (topic_new_msg h cs _ m T0 Hs) as (T1 & Hu & Hm & _).
  destruct (tk_pump _ _ T chans true Ep) as [Hnd Hin].
  destruct (publish_loop_ok opts clock (next h) m (held t) (set_t_backend b t) chans 0 (alloc_msg m h) cs)
    as (h' & cs' & E & Hw & Hp); [apply (tk_world _ _ T1)|done|done|done|done|].
  exists h', cs'. split_and!.
  - unfold pump_backend. callST ltac:(reflexivity). rewrite Ep, Er. callST ltac:(reflexivity). rewrite Ed.
    callST ltac:(exact (t_new_msg_eq m h cs _)). callST ltac:(exact E). done.
  - eapply topic_ok_world; [exact T1|exact Hw|apply Hp].
  - destruct (world_new_msg h cs _ m (tk_world _ _ T) Hs) as (_ & _ & Hc & Hmono).
    destruct Hp as [P0 P1 P2 P3]. split; [eapply moved_trans; [|exact P0]; still|done|by eauto|]. intros l c Hl. destruct (Hc l c Hl) as [Eo Ec].
    destruct (P3 l c Hl) as (c' & Hl' & Hno & Hyes). exists c'. split; [done|]. split.
    + intros Hn. destruct (Hno Hn) as (-> & E1 & E2). split_and!; [done|exact (eq_trans E1 Eo)|exact (eq_trans E2 Ec)].
    + intros Hy n L HL. eapply (received_holds_heap _ _ _ (alloc_msg m h)); [apply Hyes; [done|by eapply holds_other]|done|done].
Qed.

(** ** Calls on channels *)

Lemma on_chan_ok {A} (m : ST (heap C * Channel D Q) A) h cs (t : Topic B MB) l c :
  topic_ok (h, cs, t) → cs !! l = Some c →
  (chan_ok (h, c) → ∃ a s', m (h, c) = Some (a, s') ∧ chan_ok s') →
  (∀ X Y, (∀ x, (h.(next) <= x)%nat → X x) → (∀ x, (h.(next) <= x)%nat → Y x) → fp X Y h m (h, c) any) →
  ∃ a h' c', on_chan l m (h, cs, t) = Some (a, (h', <[l := c']> cs, t)) ∧
    topic_ok (h', <[l := c']> cs, t) ∧ others_same l h h' cs (<[l := c']> cs) ∧
    ∀ x, x ∈ t.(t_memoryMsgChan) → h'.(msgs) !! x = h.(msgs) !! x.
Proof.
  intros T Hl Hm Hfp. pose proof (tk_world _ _ T) as Hw. cbn in Hw.
  destruct (Hm (wk_chan _ _ _ Hw l c Hl)) as (a & [h' c'] & E & Hok').
  destruct (world_step m [] _ h cs l c a h' c' Hw Hl E Hok') as (Hw' & Ho & Hmem).
  { by intros x ?%elem_of_nil. } { intros X Y HX HY _. by apply Hfp. }
  exists a, h', c'. split; [by eapply on_chan_eq|].
  split; [eapply topic_ok_world; [done|done|apply Ho]|]. split; [done|]. intros x Hx. apply Hmem, elem_of_app. by left.
Qed.

Lemma each_chan_exit_ok d ls : ∀ h cs (t : Topic B MB), topic_ok (h, cs, t) → (∀ l, l ∈ ls → is_Some (cs !! l)) →
  ∃ h' cs', each_chan (exit opts range d) ls (h, cs, t) = Some ((), (h', cs', t)) ∧ topic_ok (h', cs', t) ∧
    ∀ x, x ∈ t.(t_memoryMsgChan) → h'.(msgs) !! x = h.(msgs) !! x.
Proof.
  induction ls as [|l ls IH]; intros h cs t T Hin; cbn [each_chan]; [by exists h, cs|].
  destruct (Hin l) as [c Hl]; [by left|].
  destruct (on_chan_ok (exit opts range d) h cs t l c T Hl) as (a & h1 & c1 & E & T1 & Ho & Hm1).
  { by apply exit_ok. } { intros X Y HX HY. by apply fp_exit. }
  callST ltac:(exact E). destruct (IH h1 (<[l := c1]> cs) t T1) as (h' & cs' & E' & T' & Hm').
  { intros k Hk. apply (mv_dom _ _ _ _ (os_moved _ _ _ _ _ Ho)), Hin. by right. }
  exists h', cs'. split_and!; [done|done|]. intros x Hx. by rewrite Hm', Hm1.
Qed.

Lemma topic_exec_ok h cs (t : Topic B MB) l c o : topic_ok (h, cs, t) → cs !! l = Some c → op_ok o →
  ∃ h' cs', on_chan l (exec opts range o) (h, cs, t) = Some ((), (h', cs', t)) ∧ topic_ok (h', cs', t).
Proof.
  intros T Hl Ho. destruct (on_chan_ok (exec opts range o) h cs t l c T Hl) as ([] & h1 & c1 & E & T1 & _ & _).
  { intros Hok. destruct (exec_ok opts range range_perm recv_small (h, c) o Hok Ho) as (s' & E & ?). by exists (), s'. }
  { intros X Y HX HY. by apply fp_exec. }
  by eexists _, _.
Qed.

(** ** Emptying, closing *)

Lemma t_Empty_ok h cs (t : Topic B MB) : topic_ok (h, cs, t) →
  ∃ err t', t_Empty (h, cs, t) = Some (err, (h, cs, t')) ∧ topic_ok (h, cs, t') ∧ t'.(t_memoryMsgChan) = [].
Proof.
  intros T. unfold t_Empty. callST ltac:(reflexivity). callST ltac:(reflexivity).
  destruct (bq_Empty _) as [err b]. callST ltac:(reflexivity). eexists err, _. split; [reflexivity|]. split; [|done].
  apply (topic_ok_other h cs (set_t_memoryMsgChan [] t)); try done. by apply topic_ok_no_mem.
Qed.

(** Writing messages moves only the backend. *)
Lemma t_write_all_total xs : ∀ h cs (t : Topic B MB), (∀ x, x ∈ xs → is_Some (h.(msgs) !! x)) →
  ∃ b, t_write_all xs (h, cs, t) = Some ((), (h, cs, set_t_backend b t)).
Proof.
  induction xs as [|x xs IH]; intros h cs t Hl; cbn [t_write_all].
  - exists t.(t_backend). by destruct t.
  - destruct (Hl x) as [m Hm]; [by left|].
    destruct (bq_Put (encode_message m) t.(t_backend)) as [e b] eqn:Ep.
    assert (E1 : t_write_logged x (h, cs, t) = Some ((), (h, cs, set_t_backend b t))).
    { unfold t_write_logged. callST ltac:(exact (t_get_msg_ok x m h cs t Hm)). callST ltac:(reflexivity).
      by rewrite writeMessageToBackend_eq, Ep. }
    callST ltac:(exact E1). destruct (IH h cs (set_t_backend b t)) as [b' E]; [intros y ?; apply Hl; by right|].
    exists b'. by rewrite E.
Qed.

Lemma t_flush_ok h cs (t : Topic B MB) : topic_ok (h, cs, t) →
  ∃ t', t_flush (h, cs, t) = Some ((), (h, cs, t')) ∧ topic_ok (h, cs, t').
Proof.
  intros T. unfold t_flush. callST ltac:(reflexivity). callST ltac:(reflexivity).
  destruct (t_write_all_total t.(t_memoryMsgChan) h cs (set_t_memoryMsgChan [] t)) as [b E].
  { intros x Hx. apply (wk_live _ _ _ (tk_world _ _ T)), elem_of_app. by left. }
  rewrite E. eexists. split; [reflexivity|].
  apply (topic_ok_other h cs (set_t_memoryMsgChan [] t)); try done. by apply topic_ok_no_mem.
Qed.

Lemma exit_begin_ok d h cs (t : Topic B MB) : topic_ok (h, cs, t) →
  ∃ err h' t', exit_begin d (h, cs, t) = Some (err, (h', cs, t')) ∧ topic_ok (h', cs, t').
Proof.
  intros T. unfold exit_begin. callST ltac:(reflexivity). destruct (t_exitFlag t); [by eexists _, h, t|].
  callST ltac:(reflexivity). set (t1 := set_t_exitChan true (set_t_exitFlag true t)).
  assert (T1 : topic_ok (h, cs, t1)) by (destruct T as [? ? ? ? ? Tc]; by split).
  destruct d; cbn [whenST].
  - callST ltac:(reflexivity). callST ltac:(reflexivity). eexists None, _, t1. split; [reflexivity|]. by apply topic_ok_log.
  - callST ltac:(reflexivity). callST ltac:(reflexivity). by exists None, h, t1.
Qed.

Lemma exit_finish_ok d h cs (t : Topic B MB) : topic_ok (h, cs, t) → t.(t_pump) = PumpExited →
  ∃ err s', exit_finish opts range d (h, cs, t) = Some (err, s') ∧ topic_ok s'.
Proof.
  intros T Hp. assert (Hin : ∀ l, l ∈ current_chans range t → is_Some (cs !! l)).
  { intros l [n Hn]%current_chans_spec. exact (tk_map _ _ T n l Hn). }
  unfold exit_finish. callST ltac:(reflexivity). destruct d.
  - callST ltac:(reflexivity). set (t1 := set_t_channelMap ∅ t).
    assert (T1 : topic_ok (h, cs, t1)).
    { pose proof T as [Tw Tv Tm Ti Tp Tc]. cbn in *. split; cbn; rewrite ?Hp; try done; intros; by simplify_map_eq. }
    destruct (each_chan_exit_ok true (current_chans range t) h cs t1 T1 Hin) as (h1 & cs1 & E1 & T1' & _).
    callST ltac:(exact E1). destruct (t_Empty_ok h1 cs1 t1 T1') as (e & t2 & E2 & T2 & _).
    callST ltac:(exact E2). callST ltac:(reflexivity). destruct (bq_Delete t2.(t_backend)) as [err b].
    callST ltac:(reflexivity). eexists err, _. split; [reflexivity|]. by apply (topic_ok_other h1 cs1 t2).
  - destruct (each_chan_exit_ok false (current_chans range t) h cs t T Hin) as (h1 & cs1 & E1 & T1 & _).
    callST ltac:(exact E1). destruct (t_flush_ok h1 cs1 t T1) as (t2 & E2 & T2).
    callST ltac:(exact E2). callST ltac:(reflexivity). destruct (bq_Close t2.(t_backend)) as [err b].
    callST ltac:(reflexivity). eexists err, _. split; [reflexivity|]. by apply (topic_ok_other h1 cs1 t2).
Qed.

Lemma exited_ok h cs (t : Topic B MB) : topic_ok (h, cs, t) →
  ∃ b t', pump_exit (h, cs, t) = Some (b, (h, cs, t')) ∧ topic_ok (h, cs, t').
Proof.
  intros T. unfold pump_exit. callST ltac:(reflexivity). destruct (t_exitChan t); [|by exists false, t].
  eexists true, _. split; [reflexivity|]. destruct T. by split.
Qed.

(** [putMemoryToFile]: the message leaves the topic's memory for
    [memoryBackend], or the write panics. *)
Lemma putMemoryToFile_eq h cs (t : Topic B MB) x xs m :
  t.(t_tofile) = false → t.(t_memoryMsgChan) = x :: xs → h.(msgs) !! x = Some m →
  putMemoryToFile (h, cs, t) =
    match uq_Put (encode_message m) t.(t_memoryBackend) with
    | None => None
    | Some (_, mb) => Some (true, (h, cs, set_t_tofile true (set_t_memoryBackend mb (set_t_memoryMsgChan xs t))))
    end.
Proof.
  intros Hf Hx Hm. unfold putMemoryToFile. callST ltac:(reflexivity). rewrite Hf, Hx. callST ltac:(reflexivity).
  callST ltac:(exact (t_get_msg_ok x m h cs _ Hm)). rewrite WriteTo_buffer. cbn beta iota.
  unfold mbind, ST_bind, liftST. cbn. by destruct (uq_Put _ _) as [[e mb]|].
Qed.

Lemma putMemoryToFile_ok h cs (t : Topic B MB) : topic_ok (h, cs, t) →
  (∀ d (b : MB), is_Some (uq_Put d b)) →
  ∃ b t', putMemoryToFile (h, cs, t) = Some (b, (h, cs, t')) ∧ topic_ok (h, cs, t').
Proof.
  intros T Hput. destruct (t_tofile t) eqn:Ef.
  { exists false, t. split; [|done]. unfold putMemoryToFile. callST ltac:(reflexivity). by rewrite Ef. }
  destruct (t_memoryMsgChan t) as [|x xs] eqn:Em.
  { exists false, t. split; [|done]. unfold putMemoryToFile. callST ltac:(reflexivity). by rewrite Ef, Em. }
  destruct (pop_topic_memory h cs t x xs T Em) as [T1 ((m & Hm) & _)].
  rewrite (putMemoryToFile_eq h cs t x xs m Ef Em Hm). destruct (Hput (encode_message m) t.(t_memoryBackend)) as [[e mb] ->].
  eexists true, _. split; [reflexivity|]. by apply (topic_ok_other h cs (set_t_memoryMsgChan xs t)).
Qed.

Lemma t_exit_ok d h cs (t : Topic B MB) : topic_ok (h, cs, t) → (∀ d (b : MB), is_Some (uq_Put d b)) →
  ∃ r s', t_exit opts range d (h, cs, t) = Some (r, s') ∧ topic_ok s'.
Proof.
  intros T Hput. unfold t_exit. destruct (exit_begin_ok d h cs t T) as (err & h1 & t1 & E1 & T1). callST ltac:(exact E1).
  destruct err as [e|]; [by eexists _, _|].
  destruct (exited_ok h1 cs t1 T1) as (b2 & t2 & E2 & T2). callST ltac:(exact E2).
  destruct (putMemoryToFile_ok h1 cs t2 T2 Hput) as (b3 & t3 & E3 & T3). callST ltac:(exact E3).
  callST ltac:(reflexivity). destruct (wait_done t3) eqn:Ew; [|by eexists _, _].
  unfold wait_done in Ew. apply andb_true_iff in Ew as [Ew _].
  destruct (exit_finish_ok d h1 cs t3 T3) as (e & s' & E & T'); [by destruct (t_pump t3)|].
  callST ltac:(exact E). by eexists _, _.
Qed.

(** ** Channels come and go *)

Section channels.
Context (channel_queue : bytes → D) (e2e : option Q).

Lemma open_channel_ok nm h cs (t : Topic B MB) : topic_ok (h, cs, t) →
  ∃ h' c, open_channel opts channel_queue e2e nm (h, cs, t) = Some (h.(next), (h', <[h.(next) := c]> cs, t)) ∧
    topic_ok (h', <[h.(next) := c]> cs, t) ∧ cs !! h.(next) = None ∧ owned (h', c) = [] ∧
    c.(name) = nm ∧
    ∀ l c', cs !! l = Some c' → owned (h', c') = owned (h, c') ∧ contents (h', c') = contents (h, c').
Proof.
  intros T. pose proof (tk_world _ _ T) as Hw. cbn in Hw.
  destruct (NewChannel_ok opts channel_queue e2e t.(t_name) nm h) as ([h1 c] & E & Hok & Ho & _ & _ & _).
  { split; [apply Hw|apply Hw]. }
  assert (Hh1 : h1 = set_ctx_log (h.(ctx_log) ++ [Notify]) h ∧ c.(name) = nm).
  { revert E. unfold NewChannel. cbn. by intros [= <- <-]. }
  destruct Hh1 as [Hh1 Hname].
  set (h' := set_next (S h1.(next)) h1). exists h', c. assert (Ho' : owned (h', c) = []) by exact Ho.
  assert (Hfresh : cs !! h.(next) = None) by (by apply (wk_store _ _ _ Hw)).
  assert (Hc : ∀ ck : Channel D Q, chan_ok (h, ck) ∨ ck = c → chan_ok (h', ck)).
  { intros ck [Hk| ->].
    - assert (Hk1 : chan_ok (h1, ck)) by (subst h1; by apply (chan_ok_other (h, ck))).
      destruct Hk1. split; try done. intros x Hx. apply ck_fresh0. cbn in *. lia.
    - destruct Hok. split; try done. intros x Hx. apply ck_fresh0. cbn in *. lia. }
  split_and!; [| |done|done|done|by subst h' h1].
  - unfold open_channel. callST ltac:(reflexivity). unfold mbind, ST_bind, liftST. cbn [t_name]. rewrite E. cbn.
    by subst h' h1.
  - split; cbn.
    + split.
      * intros l ck. rewrite lookup_insert_Some. intros [[_ <-]|[_ Hl]]; apply Hc; [by right|left; by eapply (wk_chan _ _ _ Hw)].
      * intros l l' ck ck' Hll. rewrite !lookup_insert_Some.
        intros [[<- <-]|[Hk Hl]] [[<- <-]|[Hk' Hl']]; [done| | |].
        -- split; [rewrite Ho'; by intros ? ?%elem_of_nil|]. revert E. unfold NewChannel. cbn. intros [= _ <-]. by intros ? ?%elem_of_nil.
        -- apply apart_sym. split; [rewrite Ho'; by intros ? ?%elem_of_nil|].
           revert E. unfold NewChannel. cbn. intros [= _ <-]. by intros ? ?%elem_of_nil.
        -- destruct (wk_apart _ _ _ Hw l l' ck ck') as [? ?]; [done..|]. subst h' h1. by split.
      * intros x Hx. subst h' h1. cbn in *. apply (wk_fresh _ _ _ Hw). lia.
      * subst h' h1. apply Hw.
      * intros l Hl. subst h' h1. cbn in *. rewrite lookup_insert_ne by lia. apply (wk_store _ _ _ Hw). lia.
      * subst h' h1. apply Hw.
      * apply Hw.
      * intros x l ck Hx. rewrite lookup_insert_Some. intros [[_ <-]|[_ Hl]].
        -- rewrite Ho'. by intros ?%elem_of_nil.
        -- subst h' h1. by eapply (wk_free _ _ _ Hw).
    + eapply moved_trans; [apply (tk_moved _ _ T)|]. subst h' h1. split; [cbn; lia| |apply consumers_kept_refl].
      intros l [ck Hl]. exists ck. cbn in *. rewrite lookup_insert_ne; [done|]. intros <-. congruence.
    + intros n l Hn. destruct (tk_map _ _ T n l Hn) as [c' Hc']. cbn in Hc'. exists c'.
      rewrite lookup_insert_ne; [done|]. intros <-. congruence.
    + apply (tk_inj _ _ T).
    + intros chans en Hp. destruct (tk_pump _ _ T chans en Hp) as [? Hin]. split; [done|]. intros l Hl.
      destruct (Hin l Hl) as [c' Hc']. cbn in Hc'. exists c'. rewrite lookup_insert_ne; [done|]. intros <-. congruence.
    + apply (tk_current _ _ T).
Qed.

(** After [GetChannel] the topic has a channel of that name; an existing one
    is returned as it is, a new one is empty, and the pump delivers to it. *)
Lemma GetChannel_ok nm h cs (t : Topic B MB) : topic_ok (h, cs, t) →
  ∃ l h' cs' t', GetChannel opts range channel_queue e2e nm (h, cs, t) = Some (l, (h', cs', t')) ∧
    topic_ok (h', cs', t') ∧ t'.(t_channelMap) = <[nm := l]> t.(t_channelMap) ∧
    (∀ k c, cs !! k = Some c → cs' !! k = Some c ∧ contents (h', c) = contents (h, c)) ∧
    match t.(t_channelMap) !! nm with
    | Some l' => l = l' ∧ (h', cs', t') = (h, cs, t)
    | None => cs !! l = None ∧ ∃ c, cs' !! l = Some c ∧ c.(name) = nm ∧ contents (h', c) = []
    end.
Proof.
  intros T. unfold GetChannel, getOrCreateChannel. destruct (t_channelMap t !! nm) as [l|] eqn:El.
  - exists l, h, cs, t. split_and!; try done.
    + callST ltac:(callST ltac:(reflexivity); rewrite El; reflexivity). done.
    + by rewrite insert_id.
  - destruct (open_channel_ok nm h cs t T) as (h1 & c & E1 & T1 & Hfresh & Ho & Hn & Hothers).
    set (l := h.(next)) in *. set (cs1 := <[l := c]> cs) in *.
    set (t1 := set_t_channelMap (<[nm := l]> t.(t_channelMap)) t).
    destruct (rendezvous_update_ok h1 cs1 t1) as (t2 & E2 & T2).
    + apply (tk_world _ _ T1).
    + apply (tk_moved _ _ T1).
    + intros n k. cbn. rewrite lookup_insert_Some. intros [[_ <-]|[_ Hk]].
      * unfold cs1. rewrite lookup_insert_eq. by eexists.
      * exact (tk_map _ _ T1 n k Hk).
    + intros n n' k. cbn. rewrite !lookup_insert_Some. intros [[<- <-]|[Hn1 Hk]] [[<- ?]|[Hn2 Hk']]; [done| | |].
      * destruct (tk_map _ _ T n' l Hk') as [? Hx]. cbn in Hx. congruence.
      * subst k. destruct (tk_map _ _ T n l Hk) as [? Hx]. cbn in Hx. congruence.
      * by apply (tk_inj _ _ T n n' k).
    + apply (tk_pump _ _ T1).
    + assert (Em : t2.(t_channelMap) = <[nm := l]> t.(t_channelMap)).
      { revert E2. unfold rendezvous, pump_update, mbind, ST_bind, getST. cbn.
        destruct (t_exitChan t); [by intros [= <-]|]. cbv [upd_topic modST]. intros [= <-]. cbn.
        by destruct (t_pump t). }
      exists l, h1, cs1, t2. split_and!; [|done|done| |done|].
      * callST ltac:(callST ltac:(reflexivity); rewrite El; callST ltac:(exact E1); callST ltac:(reflexivity); reflexivity).
        cbn [whenST]. by callST ltac:(exact E2).
      * intros k ck Hk. unfold cs1. rewrite lookup_insert_ne by (intros <-; congruence). split; [done|]. by apply (Hothers k).
      * exists c. unfold cs1. rewrite lookup_insert_eq. split_and!; [done|done|]. unfold contents. by rewrite Ho.
Qed.

Lemma DeleteChannel_ok nm h cs (t : Topic B MB) : topic_ok (h, cs, t) →
  ∃ err s', DeleteExistingChannel opts range nm (h, cs, t) = Some (err, s') ∧ topic_ok s' ∧
    s'.2.(t_channelMap) = delete nm t.(t_channelMap).
Proof.
  intros T. unfold DeleteExistingChannel. callST ltac:(reflexivity).
  destruct (t_channelMap t !! nm) as [l|] eqn:El.
  2: { eexists _, (h, cs, t). split; [reflexivity|]. split; [done|]. cbn. by rewrite delete_id. }
  callST ltac:(reflexivity). set (m := delete nm t.(t_channelMap)). set (t1 := set_t_channelMap m t).
  destruct (tk_map _ _ T nm l El) as [c Hc]. cbn in Hc.
  assert (Tx : topic_ok (h, cs, set_t_pump PumpExited (set_t_channelMap m t))).
  { destruct T as [Tw Tv Tm Ti Tp Tc]. cbn in *. split; cbn; try done.
    - intros n k [_ ?]%lookup_delete_Some. by eapply Tm.
    - intros n n' k [_ ?]%lookup_delete_Some [_ ?]%lookup_delete_Some. by eapply Ti. }
  destruct (on_chan_ok (exit opts range true) h cs (set_t_pump PumpExited t1) l c Tx Hc) as (a & h1 & c1 & E1 & T1 & Ho & _).
  { by apply exit_ok. } { intros X Y HX HY. by apply fp_exit. }
  assert (E1' : on_chan l (Channel.Delete opts range) (h, cs, t1) = Some (a, (h1, <[l := c1]> cs, t1))).
  { revert E1. unfold on_chan, mbind, ST_bind, getST, liftST, putST. rewrite Hc. cbn. unfold Channel.Delete.
    destruct (exit opts range true (h, c)) as [[a' [h' c']]|]; [|done]. cbn. by intros [= -> -> ->]. }
  callST ltac:(exact E1').
  destruct (rendezvous_update_ok h1 (<[l := c1]> cs) t1) as (t2 & E2 & T2).
  { apply (tk_world _ _ T1). } { apply (tk_moved _ _ T1). } { exact (tk_map _ _ T1). } { exact (tk_inj _ _ T1). }
  { intros chans en Hp. destruct (tk_pump _ _ T chans en Hp) as [? Hin]. split; [done|]. intros k Hk. by apply Ho, Hin. }
  callST ltac:(exact E2).
  assert (Em : t2.(t_channelMap) = m).
  { revert E2. unfold rendezvous, pump_update, mbind, ST_bind, getST. cbn.
    destruct (t_exitChan t); [by intros [= <-]|]. cbv [upd_topic modST]. intros [= <-]. cbn.
    by destruct (t_pump t). }
  destruct (_ && _ && _).
  - callST ltac:(callST ltac:(reflexivity); reflexivity). eexists _, _. split; [reflexivity|]. split; [|done].
    apply topic_ok_log. by apply (topic_ok_other _ _ t2).
  - callST ltac:(reflexivity). eexists _, _. split; [reflexivity|]. by split.
Qed.

(** ** Every step *)

Lemma texec_ok (s : tstate) o :
  topic_ok s → topic_op_ok o → (o = TToFile → ∀ d (b : MB), is_Some (uq_Put d b)) →
  ∃ s', texec opts range channel_queue e2e o s = Some ((), s') ∧ topic_ok s'.
Proof.
  destruct s as [[h cs] t]. intros T Ho Hf.
  destruct o as [m|ms|nm|nm|b| | | |clock|clock| | |d|d|l o]; cbn [texec topic_op_ok] in *.
  - destruct (topic_new_msg h cs t m T Ho) as (T1 & Hu & Hm & _).
    destruct (t_PutMessage_ok _ _ _ _ m T1 Hu Hm) as (err & s' & E & T'). exists s'. split; [|done].
    callST ltac:(exact (t_new_msg_eq m h cs t)). by callST ltac:(exact E).
  - destruct (new_msgs_ok ms h cs t [] [] T Ho) as (xs & h' & E & T' & Hms & Hnd & Hun & _); [constructor|constructor|by intros x ?%elem_of_nil|].
    destruct (PutMessages_ok xs ms h' cs t T' Hms Hnd Hun) as (err & s' & E2 & T2). exists s'. split; [|done].
    callST ltac:(exact E). by callST ltac:(exact E2).
  - destruct (GetChannel_ok nm h cs t T) as (l & h' & cs' & t' & E & T' & _). eexists. split; [|exact T'].
    by callST ltac:(exact E).
  - destruct (DeleteChannel_ok nm h cs t T) as (e & s' & E & T' & _). exists s'. split; [|done]. by callST ltac:(exact E).
  - destruct (pause_ok b h cs t T) as (t' & E & T'). by eexists.
  - eexists. split; [reflexivity|]. by apply (topic_ok_other h cs t).
  - destruct (t_Empty_ok h cs t T) as (e & t' & E & T' & _). eexists. split; [|exact T']. by callST ltac:(exact E).
  - destruct (pump_start_ok h cs t T) as (b & t' & E & T'). eexists. split; [|exact T']. by callST ltac:(exact E).
  - pose proof (pump_memory_ok clock h cs t T) as Hp. destruct (t_pump t) as [|chans [|]|]; destruct (t_memoryMsgChan t);
      try (eexists; split; [by callST ltac:(exact Hp)|exact T]).
    destruct Hp as (m & h' & cs' & _ & E & T' & _). eexists. split; [|exact T']. by callST ltac:(exact E).
  - pose proof (pump_backend_ok clock h cs t T) as Hp. destruct (t_pump t) as [|chans [|]|];
      destruct (bq_Recv t.(t_backend)) as [[buf b]|];
      try (eexists; split; [by callST ltac:(exact Hp)|exact T]).
    destruct (decodeMessage buf) as [m|e].
    + destruct Hp as (h' & cs' & E & T' & _). eexists. split; [|exact T']. by callST ltac:(exact E).
    + eexists. split; [by callST ltac:(exact Hp)|]. by apply (topic_ok_other h cs t).
  - destruct (exited_ok h cs t T) as (b & t' & E & T'). eexists. split; [|exact T']. by callST ltac:(exact E).
  - destruct (putMemoryToFile_ok h cs t T (Hf eq_refl)) as (b & t' & E & T'). eexists. split; [|exact T']. by callST ltac:(exact E).
  - destruct (exit_begin_ok d h cs t T) as (e & h' & t' & E & T'). eexists. split; [|exact T']. by callST ltac:(exact E).
  - callST ltac:(reflexivity). destruct (t_exitChan t && wait_done t) eqn:Ew; [|by eexists].
    apply andb_true_iff in Ew as [_ Ew]. unfold wait_done in Ew. apply andb_true_iff in Ew as [Ew _].
    destruct (exit_finish_ok d h cs t T) as (e & s' & E & T'); [by destruct (t_pump t)|].
    exists s'. split; [|done]. by callST ltac:(exact E).
  - callST ltac:(reflexivity). case_bool_decide as Hl; [|by eexists]. destruct Hl as [c Hl].
    destruct (topic_exec_ok h cs t l c o T Hl Ho) as (h' & cs' & E & T'). by eexists.
Qed.

Lemma texec_all_ok (s : tstate) os :
  topic_ok s → Forall topic_op_ok os → (TToFile ∈ os → ∀ d (b : MB), is_Some (uq_Put d b)) →
  ∃ s', texec_all opts range channel_queue e2e os s = Some ((), s') ∧ topic_ok s'.
Proof.
  intros T Hos. revert s T. induction Hos as [|o os Ho _ IH]; intros s T Hf; cbn [texec_all]; [by exists s|].
  destruct (texec_ok s o T Ho) as (s1 & E1 & T1). { intros ->. apply Hf. by left. }
  callST ltac:(exact E1). apply IH; [done|]. intros ?. apply Hf. by right.
Qed.

Lemma NewTopic_ok (topic_queue : bytes → B) (memory_queue : bytes → MB) nodeID nm h cs :
  world_ok h cs F.(fr_mem) → moved F.(fr_heap) h F.(fr_chans) cs →
  topic_ok (NewTopic topic_queue memory_queue nodeID nm h cs).
Proof using Type.
  clear channel_queue. intros Hw Hv. split; try done; [by apply world_log|]. eapply moved_trans; [exact Hv|still].
Qed.

End channels.

(** [PutMessages] queues a prefix of the batch, the whole batch unless it
    reports an error, and counts exactly what it queued, messages and bytes;
    a failed backend write may have stored the message it failed on. An
    exiting topic takes nothing. *)
Theorem put_messages_exact h cs (t : Topic B MB) (ms : list Message) :
  topic_ok (h, cs, t) → Forall small ms →
  ∃ err h' t', (xs ← new_msgs ms; PutMessages opts xs) (h, cs, t) = Some (err, (h', cs, t')) ∧ topic_ok (h', cs, t') ∧
    if t.(t_exitFlag) then err = Some "exiting"%string ∧ t' = t else
    ∃ k, match err with None => k = length ms | Some _ => (k < length ms)%nat end ∧
      t'.(t_messageCount) = u64 (t.(t_messageCount) + Z.of_nat k) ∧
      t'.(t_messageBytes) = u64 (t.(t_messageBytes) + body_bytes (take k ms)) ∧
      ∀ n L, t_holds (length ms + n) h t L →
        match err with
        | None => t_holds n h' t' ((msg_sig <$> ms) ++ L)
        | Some _ => t_holds n h' t' ((msg_sig <$> take k ms) ++ L) ∨ t_holds n h' t' ((msg_sig <$> take (S k) ms) ++ L)
        end.
Proof.
  intros T Hs. destruct (new_msgs_ok ms h cs t [] [] T Hs) as (xs & h1 & E & T1 & Hms & Hnd & Hun & Hmono);
    [constructor|constructor|by intros x ?%elem_of_nil|].
  destruct (t_exitFlag t) eqn:Ex.
  { exists (Some "exiting"%string), h1, t. split; [|done]. callST ltac:(exact E). unfold PutMessages.
    callST ltac:(reflexivity). by rewrite Ex. }
  destruct (put_loop_ok xs ms h1 cs t 0 0 T1 Hms Hnd Hun) as (err & k & h' & t' & E2 & [R1 R2 R3 R4 R5]).
  exists err, h', t'. split; [|split; [done|]].
  { callST ltac:(exact E). unfold PutMessages. callST ltac:(reflexivity). by rewrite Ex. }
  exists k. split_and!; [done|exact R3|exact R4|]. intros n L HL. apply R5. by apply (t_holds_mono h h1 cs).
Qed.

(** One message that is put. *)
Lemma put_message_exact h cs (t : Topic B MB) m :
  topic_ok (h, cs, t) → small m → t.(t_exitFlag) = false →
  ∃ err h' t', t_PutMessage opts h.(next) (alloc_msg m h, cs, t) = Some (err, (h', cs, t')) ∧
    h'.(consumers) = h.(consumers) ∧
    match err with
    | None => t'.(t_messageCount) = u64 (t.(t_messageCount) + 1) ∧
        t'.(t_messageBytes) = u64 (t.(t_messageBytes) + Z.of_nat (length m.(Body))) ∧
        ∀ n L, t_holds (S n) h t L → t_holds n h' t' (msg_sig m :: L)
    | Some _ => t'.(t_messageCount) = t.(t_messageCount) ∧ t'.(t_messageBytes) = t.(t_messageBytes) ∧
        ∀ n L, t_holds (S n) h t L → t_holds n h' t' L ∨ t_holds n h' t' (msg_sig m :: L)
    end.
Proof.
  intros T Hs Hx. destruct (topic_new_msg h cs t m T Hs) as (T1 & Hu & Hm & _).
  destruct (t_put_ok _ _ _ _ m T1 Hu Hm) as (err & h' & t' & E & T' & [Em Hc] & _ & (b & l & Et') & Hh).
  assert (Hmono : ∀ n L, t_holds n h t L → t_holds n (alloc_msg m h) t L).
  { intros n L. apply (t_holds_mono _ _ cs); [done|]. apply (world_new_msg h cs _ m (tk_world _ _ T) Hs). }
  destruct err as [e|].
  - eexists (Some e), h', t'. split; [|split; [exact Hc|split_and!; [by rewrite Et'..|]]].
    + unfold t_PutMessage. callST ltac:(reflexivity). cbn [snd]. rewrite Hx. by callST ltac:(exact E).
    + intros n L HL. by apply Hh, Hmono.
  - eexists None, h', _. split; [|split; [exact Hc|]].
    + unfold t_PutMessage. callST ltac:(reflexivity). cbn [snd]. rewrite Hx. callST ltac:(exact E).
      callST ltac:(apply t_get_msg_ok; rewrite Em; exact Hm). by callST ltac:(reflexivity).
    + split_and!; [by rewrite Et'..|]. intros n L HL. by apply Hh, Hmono.
Qed.

(** What the pump did with the message [m]: every channel of the topic
    received it, the others did not move. *)
Definition fanned (m : Message) (t : Topic B MB) (h h' : heap C) (cs cs' : chanstore) : Prop :=
  ∀ l c, cs !! l = Some c → ∃ c', cs' !! l = Some c' ∧
    ((∃ nm, t.(t_channelMap) !! nm = Some l) → ∀ n L, holds (S n) (h, c) L → received n c (h, c) (h', c') m L) ∧
    ((¬ ∃ nm, t.(t_channelMap) !! nm = Some l) → c' = c ∧ contents (h', c) = contents (h, c)).

Lemma published_fanned m chans (t : Topic B MB) h h' cs cs' :
  (∀ l, l ∈ chans ↔ ∃ n, t.(t_channelMap) !! n = Some l) → published m chans h h' cs cs' → fanned m t h h' cs cs'.
Proof.
  intros Hc [_ _ _ Hp] l c Hl. destruct (Hp l c Hl) as (c' & Hl' & Hno & Hyes). exists c'. split; [done|]. split.
  - intros Hx. by apply Hyes, Hc.
  - intros Hx. destruct Hno as (? & _ & ?); [by rewrite Hc|]. done.
Qed.

(** C32: the pump gives each message to every channel of the topic: the
    message it takes, from memory or from the backend, leaves the topic and is
    received by each channel (a channel that is exiting refuses it, and a
    failed backend write is reported), while the channels of other topics and
    the deleted ones are left alone. *)
Theorem pump_fans_out (clock : nat → time) h cs (t : Topic B MB) chans :
  topic_ok (h, cs, t) → t.(t_exitChan) = false → t.(t_pump) = PumpRunning chans true →
  (∀ x xs, t.(t_memoryMsgChan) = x :: xs → ∃ m h' cs', h.(msgs) !! x = Some m ∧
     pump_memory opts clock (h, cs, t) = Some (true, (h', cs', set_t_memoryMsgChan xs t)) ∧
     topic_ok (h', cs', set_t_memoryMsgChan xs t) ∧ fanned m t h h' cs cs') ∧
  (∀ buf b, bq_Recv t.(t_backend) = Some (buf, b) →
     match decodeMessage buf with
     | Err _ => pump_backend opts clock (h, cs, t) = Some (true, (h, cs, set_t_backend b t))
     | Ok m => ∃ h' cs', pump_backend opts clock (h, cs, t) = Some (true, (h', cs', set_t_backend b t)) ∧
         topic_ok (h', cs', set_t_backend b t) ∧ fanned m t h h' cs cs'
     end).
Proof.
  intros T Hex Hp. destruct (tk_current _ _ T chans true Hex Hp) as [Hc _]. cbn in Hc. split.
  - intros x xs Hm. pose proof (pump_memory_ok clock h cs t T) as Hpm. rewrite Hp, Hm in Hpm.
    destruct Hpm as (m & h' & cs' & ? & ? & ? & ?). exists m, h', cs'. split_and!; try done. by eapply published_fanned.
  - intros buf b Hr. pose proof (pump_backend_ok clock h cs t T) as Hpb. rewrite Hp, Hr in Hpb.
    destruct (decodeMessage buf); [|done]. destruct Hpb as (h' & cs' & ? & ? & ?). exists h', cs'.
    split_and!; try done. by eapply published_fanned.
Qed.

(** A paused topic holds its messages back: after [Pause], and as long as
    it is paused, the pump takes nothing from memory or from the backend,
    also when it is started or its channels change. *)
Theorem paused_holds_back h cs (t : Topic B MB) :
  topic_ok (h, cs, t) → t.(t_exitChan) = false →
  (∃ t', t_Pause (h, cs, t) = Some ((), (h, cs, t')) ∧ topic_ok (h, cs, t') ∧ t'.(t_paused) = true ∧ t'.(t_exitChan) = false) ∧
  (t.(t_paused) = true → ∀ clock,
    pump_memory opts clock (h, cs, t) = Some (false, (h, cs, t)) ∧
    pump_backend opts clock (h, cs, t) = Some (false, (h, cs, t))).
Proof.
  intros T Hex. split.
  - destruct (pause_ok true h cs t T) as (t' & E & T'). exists t'. split_and!; [done|done|..];
      revert E; unfold t_doPause, rendezvous, pump_pause, mbind, ST_bind, getST; cbn; rewrite Hex;
      cbv [upd_topic modST]; intros [= <-]; cbn; by destruct (t_pump t).
  - intros Hpa clock. assert (Hen : ∀ chans en, t.(t_pump) = PumpRunning chans en → en = false).
    { intros chans en Hp. destruct (tk_current _ _ T chans en Hex Hp) as [_ ->]. unfold may_receive. cbn.
      by rewrite Hpa, orb_true_r. }
    split; [unfold pump_memory|unfold pump_backend]; callST ltac:(reflexivity);
      (destruct (t_pump t) as [|chans [|]|]; [done|by specialize (Hen chans true eq_refl)|done..]).
Qed.

(** ** Closing *)

Section closing.
(** What the topic's backend stores when no write fails. *)
Context (fits : bytes → Prop).
Hypothesis put_fits : ∀ n (b : backend B) q d, bq_rep (S n) b q → fits d → (bq_Put d b).1 = None.

Lemma t_write_all_ok xs : ∀ h cs (t : Topic B MB) n q,
  (∀ x, x ∈ xs → ∃ m, h.(msgs) !! x = Some m ∧ small m ∧ fits (encode_message m)) →
  bq_rep (length xs + n) t.(t_backend) q →
  ∃ b q', t_write_all xs (h, cs, t) = Some ((), (h, cs, set_t_backend b t)) ∧ bq_rep n b q' ∧
    sig <$> q' = (sig <$> q) ++ (sig_at h.(msgs) <$> xs).
Proof.
  induction xs as [|x xs IH]; intros h cs t n q Hl Hq; cbn [t_write_all].
  - exists t.(t_backend), q. split_and!; [by destruct t|done|cbn; by rewrite app_nil_r].
  - destruct (Hl x) as (m & Hm & Hs & Hfit); [by left|].
    destruct (bq_Put (encode_message m) t.(t_backend)) as [e b] eqn:Ep.
    pose proof (put_fits _ _ _ _ Hq Hfit) as He. rewrite Ep in He. cbn in He. subst e.
    pose proof (bq_rep_Put _ _ _ _ _ _ Hq Hs Ep) as Hq1. cbn in Hq1.
    assert (E1 : t_write_logged x (h, cs, t) = Some ((), (h, cs, set_t_backend b t))).
    { unfold t_write_logged. callST ltac:(exact (t_get_msg_ok x m h cs t Hm)). callST ltac:(reflexivity).
      by rewrite writeMessageToBackend_eq, Ep. }
    callST ltac:(exact E1). destruct (IH h cs (set_t_backend b t) n (q ++ [encode_message m])) as (b' & q' & E & Hq' & Es).
    { intros y ?. apply Hl. by right. } { exact Hq1. }
    exists b', q'. split_and!; [by rewrite E|done|]. rewrite Es, fmap_app, <- app_assoc. cbn.
    by rewrite (sig_at_msg _ _ _ Hm).
Qed.

(** Closing a topic loses none of its messages: once its goroutines have
    ended, [exit] closes every channel, writes the messages that are still in
    memory to the backend, and closes that: when every write of a fitting
    message succeeds, all the messages the topic held are in the backend. *)
Theorem topic_close_flushes h cs (t : Topic B MB) (n : nat) (L : list bytes) :
  topic_ok (h, cs, t) → t.(t_pump) = PumpExited →
  (∀ x m, x ∈ t.(t_memoryMsgChan) → h.(msgs) !! x = Some m → fits (encode_message m)) →
  t_holds (length t.(t_memoryMsgChan) + n) h t L →
  ∃ (b : backend B) q h' cs' t', bq_rep n b q ∧ sig <$> q ≡ₚ L ∧
    exit_finish opts range false (h, cs, t) = Some ((bq_Close b).1, (h', cs', t')) ∧
    t'.(t_backend) = (bq_Close b).2 ∧ t'.(t_memoryMsgChan) = [] ∧ topic_ok (h', cs', t').
Proof.
  intros T Hp Hfit (q & Hq & El). assert (Hin : ∀ l, l ∈ current_chans range t → is_Some (cs !! l)).
  { intros l [nm Hn]%current_chans_spec. exact (tk_map _ _ T nm l Hn). }
  destruct (each_chan_exit_ok false (current_chans range t) h cs t T Hin) as (h1 & cs1 & E1 & T1 & Hm1).
  destruct (t_write_all_ok t.(t_memoryMsgChan) h1 cs1 (set_t_memoryMsgChan [] t) n q) as (b & q' & E2 & Hq' & Es); [|exact Hq|].
  { intros x Hx. destruct (wk_live _ _ _ (tk_world _ _ T) x) as [m Hm]; [apply elem_of_app; by left|]. exists m. cbn in Hm.
    rewrite Hm1 by done. split; [done|]. split; [|by eapply Hfit]. by eapply (wk_small _ _ _ (tk_world _ _ T)). }
  exists b, q', h1, cs1, (set_t_backend (bq_Close b).2 (set_t_backend b (set_t_memoryMsgChan [] t))).
  split_and!; [done| | |done|done|].
  - assert (Esig : sig_at h1.(msgs) <$> t.(t_memoryMsgChan) = sig_at h.(msgs) <$> t.(t_memoryMsgChan)).
    { apply list_fmap_ext. intros j x Hx%list_elem_of_lookup_2. unfold sig_at. by rewrite Hm1. }
    by rewrite El, Es, Esig, (Permutation_app_comm (sig <$> q)).
  - unfold exit_finish. callST ltac:(reflexivity). callST ltac:(exact E1).
    callST ltac:(unfold t_flush; callST ltac:(reflexivity); callST ltac:(reflexivity); exact E2).
    callST ltac:(reflexivity). change (t_backend (set_t_backend b _)) with b. by destruct (bq_Close b).
  - apply (topic_ok_other h1 cs1 (set_t_memoryMsgChan [] t)); try done. by apply topic_ok_no_mem.
Qed.
End closing.

(** A topic that was never published to in memory cannot be closed or
    deleted: [exit] waits for [putMemoryToFile], which waits for a message
    that no longer can come. *)
Theorem topic_exit_blocks (deleted : bool) h cs (t : Topic B MB) :
  t.(t_tofile) = false → t.(t_memoryMsgChan) = [] → t.(t_exitFlag) = false →
  ∃ s', t_exit opts range deleted (h, cs, t) = Some (None, s') ∧
    s'.2.(t_exitFlag) = true ∧ wait_done s'.2 = false ∧
    (∀ x, t_PutMessage opts x s' = Some (Some "exiting"%string, s')) ∧
    putMemoryToFile s' = Some (false, s').
Proof.
  intros Hf Hm Hx.
  set (t1 := set_t_pump PumpExited (set_t_exitChan true (set_t_exitFlag true t))).
  set (h1 := if deleted then set_ctx_log (h.(ctx_log) ++ [NotifyTopic]) h else h).
  exists (h1, cs, t1). split_and!; [|done|by unfold wait_done; cbn; rewrite Hf| |].
  - unfold t_exit.
    callST ltac:(unfold exit_begin; callST ltac:(reflexivity); rewrite Hx; callST ltac:(reflexivity);
      callST ltac:(instantiate (1 := (h1, cs, set_t_exitFlag true t)); instantiate (1 := ()); by destruct deleted);
      callST ltac:(reflexivity); reflexivity).
    callST ltac:(reflexivity).
    callST ltac:(unfold putMemoryToFile; callST ltac:(reflexivity); cbn; rewrite Hf, Hm; reflexivity).
    callST ltac:(reflexivity). unfold wait_done. cbn. by rewrite Hf.
  - intros x. unfold t_PutMessage. by callST ltac:(reflexivity).
  - unfold putMemoryToFile. callST ltac:(reflexivity). cbn. by rewrite Hf, Hm.
Qed.
End proofs.
End TopicSpec.
