(* ===== verification/TopicDemo.v ===== *)
(** * Topics at work

    The properties of TopicProps.v at topics reached by running steps, over
    the list backends of ChannelDemo.v; and [putMemoryToFile] over the disk
    queue it really gets, whose log function is nil. *)
From stdpp Require Import base gmap list strings.
From Stdlib Require Import ZArith Lia.
From S2P Require Import Prelude.
From S2P Require Import Text.
From S2P Require Import Message.
From S2P Require Import DiskQueue.
From S2P Require Import DiskQueueProofs.
From S2P Require Import Backend.
From S2P Require Import Channel.
From S2P Require Import ChannelProofs.
From S2P Require Import ChannelScan.
From S2P Require Import ChannelProps.
From S2P Require Import ChannelDemo.
From S2P Require Import Topic.
From S2P Require Import TopicProofs.
From S2P Require Import TopicProps.
Set Default Goal Selector "!".
Local Open Scope Z_scope.

Module TopicDemo.
Import Channel ChannelP ChannelS ChannelSpec ListBackend ChannelDemo Topic TopicP TopicSpec.

(** ** The first message *)
Section crash.
Context {C D Q B : Type} `{Consumer C, BackendQueue D, QuantileStream Q, BackendQueue B}.
Context (cfg : DQ.config) (fault : nat → option nat) (rand_Int : nat → Z).
Hypothesis no_fault : ∀ n, fault n = None.

(** The first message of a topic that [putMemoryToFile] takes panics:
    [memoryBackend] is a disk queue opened with a nil [logf], and the first
    write opens a file and logs that it did. The pump waits for [Start] when
    the topic is made, so a message published before is the first one. *)
Theorem first_message_crashes (h : heap C) (cs : gmap nat (Channel D Q)) (t : Topic B DQ.diskQueue)
    (fs : gmap bytes bytes) (tick : nat) (x : nat) (xs : list nat) (m : Message) :
  cfg.(DQ.syncEvery) ≠ 0 → fs !! DQ.metaDataFileName cfg = None →
  t.(t_memoryBackend) = DQ.New cfg fault fs tick → t.(t_tofile) = false →
  t.(t_memoryMsgChan) = x :: xs → h.(msgs) !! x = Some m →
  @putMemoryToFile C D Q B DQ.diskQueue (DiskBackend.nil_logf_queue cfg fault rand_Int) (h, cs, t) = None.
Proof.
  intros Hsync Hmeta Hmb Hf Hx Hm.
  rewrite (@putMemoryToFile_eq C D Q B DQ.diskQueue (DiskBackend.nil_logf_queue cfg fault rand_Int) h cs t x xs m Hf Hx Hm).
  rewrite Hmb. unfold uq_Put, DiskBackend.nil_logf_queue, DiskBackend.nil_logf_Put.
  set (s := DQ.zero_dq fs (S tick)).
  assert (Es : DQ.New cfg fault fs tick = s).
  { unfold DQ.New, DQ.retrieveMetaData, DQ.os_Open, DQ.syscall, mbind, DQ.M_bind. cbn. by rewrite no_fault, Hmeta. }
  rewrite Es. unfold DQ.turns. cbn [DQ.writeFileNum DQ.readFileNum s DQ.zero_dq].
  change (Z.to_nat (0 - 0) + 3)%nat with 3%nat. cbn [DQ.to_select].
  assert (El : DQ.loop_turn cfg fault rand_Int s = (true, DQ.set_r false s)).
  { unfold DQ.loop_turn, mbind, DQ.M_bind, DQ.get. cbn -[Z.eqb].
    rewrite (proj2 (Z.eqb_neq 0 _)) by done. done. }
  rewrite El. cbn. unfold DQ.os_OpenCreate, DQ.syscall, mbind, DQ.M_bind. cbn. by rewrite no_fault.
Qed.
End crash.

(** ** A topic with two channels *)

#[local] Instance list_unlogged : UnloggedQueue list_queue := {| uq_Put d b := Some (bq_Put d b) |}.

Notation ts := (@tstate (list string) list_queue (list Z) list_queue list_queue).

Definition t0 : ts := NewTopic open open 1 topic h0 ∅.

Lemma world0 : world_ok h0 (∅ : gmap nat (Channel list_queue (list Z))) [].
Proof.
  split; cbn; try (intros *; by rewrite ?lookup_empty); try (by constructor); by intros ? ?%elem_of_nil.
Qed.

(** No other topics around it. *)
Definition alone : frame := mkFrame [] h0 (∅ : gmap nat (Channel list_queue (list Z))).
Notation topic_ok := (topic_ok alone).

Lemma moved0 : moved alone.(fr_heap) h0 alone.(fr_chans) (∅ : gmap nat (Channel list_queue (list Z))).
Proof. apply moved_refl. Qed.

Lemma t0_ok : topic_ok t0.
Proof. exact (NewTopic_ok alone open open 1 topic h0 ∅ world0 moved0). Qed.

Definition trun (os : list topic_op) : ts :=
  match texec_all opts range open None os t0 with Some (_, s) => s | None => t0 end.

Lemma trun_ok os : Forall topic_op_ok os → topic_ok (trun os).
Proof.
  intros Hos. destruct (texec_all_ok opts range range_perm list_recv_small list_recv_small alone open None t0 os t0_ok Hos)
    as (s & E & T); [|unfold trun; by rewrite E].
  intros _ d b. by eexists.
Qed.

Notation clock := (λ _ : nat, 7) (only parsing).

(** Five messages, two of which overflow to the backend, before the pump
    starts. *)
Definition tscript : list topic_op :=
  [TGetChannel (bytes_of_string "billing"); TGetChannel (bytes_of_string "audit");
   TPutMany [msg 1; msg 2; msg 3; msg 4; msg 5]; TStart; TPumpStart].

Lemma tscript_ok : Forall topic_op_ok tscript.
Proof. repeat constructor; vm_compute; done. Qed.

Notation tbusy := (trun tscript).

Lemma tbusy_ok : topic_ok tbusy.
Proof. apply trun_ok, tscript_ok. Qed.

Lemma tbusy_eq : tbusy = (tbusy.1.1, tbusy.1.2, tbusy.2).
Proof. by destruct tbusy as [[h cs] t]. Qed.

Lemma tbusy_ok' : topic_ok (tbusy.1.1, tbusy.1.2, tbusy.2).
Proof. rewrite <- tbusy_eq. apply tbusy_ok. Qed.


Lemma put_messages_exact_witness :
  ∃ err h' t', (xs ← new_msgs [msg 6; msg 7]; PutMessages opts xs) tbusy = Some (err, (h', tbusy.1.2, t')) ∧
    topic_ok (h', tbusy.1.2, t') ∧ err = None ∧ t'.(t_messageCount) = 7.
Proof.
  destruct (put_messages_exact opts alone tbusy.1.1 tbusy.1.2 tbusy.2 [msg 6; msg 7] tbusy_ok') as (err & h' & t' & E & T & R).
  { repeat constructor; by vm_compute. }
  rewrite <- tbusy_eq in E. exists err, h', t'. split; [exact E|]. split; [exact T|].
  assert (Ee : (λ r : option string * ts, r.1) <$> (xs ← new_msgs [msg 6; msg 7]; PutMessages opts xs) tbusy = Some None)
    by by vm_compute.
  rewrite E in Ee. cbn in Ee. injection Ee as ->.
  assert (Ex : tbusy.2.(t_exitFlag) = false) by by vm_compute.
  rewrite Ex in R. destruct R as (k & -> & Ec & _). split; [reflexivity|]. rewrite Ec. by vm_compute.
Defined.

Lemma pump_fans_out_witness :
  ∃ m h' cs' xs, pump_memory opts clock tbusy = Some (true, (h', cs', set_t_memoryMsgChan xs tbusy.2)) ∧
    topic_ok (h', cs', set_t_memoryMsgChan xs tbusy.2) ∧ fanned m tbusy.2 tbusy.1.1 h' tbusy.1.2 cs'.
Proof.
  assert (Hx : is_exited tbusy.2.(t_pump) = false ∧ t_exitChan tbusy.2 = false) by (split; by vm_compute).
  destruct (t_pump tbusy.2) as [|chans en|] eqn:Ep.
  - assert (Hw : match tbusy.2.(t_pump) with PumpWaiting => false | _ => true end = true) by by vm_compute.
    by rewrite Ep in Hw.
  - assert (Hen : match tbusy.2.(t_pump) with PumpRunning _ en => en | _ => false end = true) by by vm_compute.
    rewrite Ep in Hen. cbn in Hen. subst en.
    destruct (pump_fans_out opts list_recv_small alone clock tbusy.1.1 tbusy.1.2 tbusy.2 chans tbusy_ok' (proj2 Hx) Ep) as [Hmem _].
    destruct (t_memoryMsgChan tbusy.2) as [|x xs] eqn:Em.
    + assert (Hl : length tbusy.2.(t_memoryMsgChan) = 3%nat) by by vm_compute. by rewrite Em in Hl.
    + destruct (Hmem x xs eq_refl) as (m & h' & cs' & _ & E & T & F). rewrite <- tbusy_eq in E.
      exists m, h', cs', xs. split; [exact E|]. split; [exact T|exact F].
  - destruct Hx as [Hx _]. by rewrite ?Ep in Hx.
Defined.

Lemma paused_holds_back_witness :
  ∃ t', t_Pause tbusy = Some ((), (tbusy.1.1, tbusy.1.2, t')) ∧ t'.(t_paused) = true ∧
    pump_memory opts clock (tbusy.1.1, tbusy.1.2, t') = Some (false, (tbusy.1.1, tbusy.1.2, t')).
Proof.
  destruct (paused_holds_back opts alone tbusy.1.1 tbusy.1.2 tbusy.2 tbusy_ok') as [(t' & E & T & Hp & Hx) _]; [by vm_compute|].
  exists t'. rewrite <- tbusy_eq in E. split; [exact E|]. split; [exact Hp|].
  exact (proj1 (proj2 (paused_holds_back opts alone tbusy.1.1 tbusy.1.2 t' T Hx) Hp clock)).
Defined.

(** Both goroutines have ended; two messages of the five are in the backend,
    one went to [memoryBackend], two are flushed. *)
Notation tended := (trun (tscript ++ [TExitBegin false; TPumpExit; TToFile])).

Lemma topic_small (s : ts) : topic_ok s → ∀ x m, s.1.1.(msgs) !! x = Some m → small m.
Proof. intros T. apply (wk_small _ _ _ (tk_world _ _ T)). Qed.

Lemma topic_close_flushes_witness :
  ∃ (b : list_queue) h' cs' t', exit_finish opts range false tended = Some (None, (h', cs', t')) ∧
    t'.(t_backend) = Disk b ∧ length b.(elems) = 4%nat.
Proof.
  assert (T : topic_ok tended) by (apply trun_ok; repeat constructor; vm_compute; done).
  assert (Et : tended = (tended.1.1, tended.1.2, tended.2)) by by destruct tended as [[h cs] t].
  pose proof T as T0. rewrite Et in T.
  assert (Eq : tended.2.(t_backend) = Disk (mkListQueue (encode_message <$> [msg 4; msg 5]))) by by vm_compute.
  destruct (topic_close_flushes opts range range_perm alone fits_int32 backend_put_fits tended.1.1 tended.1.2 tended.2 0
    ((sig_at tended.1.1.(msgs) <$> tended.2.(t_memoryMsgChan)) ++ (sig <$> (encode_message <$> [msg 4; msg 5]))) T)
    as (b & q & h' & cs' & t' & Hq & El & E & Eb & _).
  - by vm_compute.
  - intros x m _ Hm. exact (topic_small tended T0 x m Hm).
  - exists (encode_message <$> [msg 4; msg 5]). split; [|reflexivity]. rewrite Eq. split; [done|].
    repeat constructor; by vm_compute.
  - rewrite <- Et in E. destruct b as [b|b]; [destruct Hq|]. destruct Hq as [Hq _]. exists b, h', cs', t'.
    split; [exact E|]. split; [rewrite Eb; reflexivity|]. rewrite Hq, <- (length_fmap sig q), (Permutation_length El). by vm_compute.
Defined.

Lemma topic_exit_blocks_witness :
  ∃ s', t_exit opts range false t0 = Some (None, s') ∧ s'.2.(t_exitFlag) = true ∧ putMemoryToFile s' = Some (false, s').
Proof.
  destruct (topic_exit_blocks opts range false t0.1.1 t0.1.2 t0.2 eq_refl eq_refl eq_refl) as (s' & E & Hx & _ & _ & Hp).
  by exists s'.
Defined.

Lemma first_message_crashes_witness :
  let cfg := DQ.mkConfig topic (bytes_of_string "/data") 1000 26 100 2500 in
  let s : @tstate (list string) list_queue (list Z) list_queue DQ.diskQueue :=
    NewTopic open (λ _, DQ.New cfg (λ _, None) ∅ 0) 1 topic h0 ∅ in
  ∃ h' t', @t_new_msg _ list_queue (list Z) list_queue DQ.diskQueue (msg 1) s = Some (0%nat, (h', ∅, t')) ∧
    @putMemoryToFile _ list_queue (list Z) list_queue DQ.diskQueue (DiskBackend.nil_logf_queue cfg (λ _, None) (λ _, 0))
      (h', ∅, set_t_memoryMsgChan [0%nat] t') = None.
Proof.
  cbv zeta. set (cfg := DQ.mkConfig topic (bytes_of_string "/data") 1000 26 100 2500). eexists _, _. split; [reflexivity|].
  eapply (first_message_crashes cfg (λ _, None) (λ _, 0) (λ _, eq_refl) _ _ _ ∅ 0 0%nat [] (msg 1)); [done|done|reflexivity|reflexivity|reflexivity|].
  cbn. by rewrite lookup_insert_eq.
Defined.

End TopicDemo.
