(* ===== verification/Wire.v ===== *)
(** * What the daemons put on the wire

    The length-prefixed responses and frames of internal/protocol with the
    round trip of a client that reads them, client errors, reading command
    lines, log levels (internal/lg) and the query parameters of the HTTP
    servers (internal/http_api). *)
From stdpp Require Import base gmap list strings pretty.
From Stdlib Require Import ZArith Lia.
From S2P Require Import Prelude.
From S2P Require Import Text.
From S2P Require Import Message.
Set Default Goal Selector "!".
Local Open Scope Z_scope.

Module Wire.

(** ** Responses (internal/protocol/protocol.go) *)

(** [binary.Write] of an [int32] is one call of [w.Write]. *)
Definition SendResponse {W} `{Writer W} (w : W) (data : bytes) : W * (Z * option string) :=
  let '(w, (_, err)) := write w (be_encode 4 (u32 (Z.of_nat (length data)))) in
  match err with
  | Some e => (w, (0, Some e))
  | None =>
    let '(w, (n, err)) := write w data in
    match err with
    | Some e => (w, (0, Some e))
    | None => (w, (n + 4, None))
    end
  end.

Definition SendFramedResponse {W} `{Writer W} (w : W) (frameType : Z) (data : bytes) : W * (Z * option string) :=
  let size := u32 (u32 (Z.of_nat (length data)) + 4) in
  let '(w, (n, err)) := write w (be_encode 4 size) in
  match err with
  | Some e => (w, (n, Some e))
  | None =>
    let '(w, (n, err)) := write w (be_encode 4 (u32 frameType)) in
    match err with
    | Some e => (w, (n + 4, Some e))
    | None => let '(w, (n, err)) := write w data in (w, (n + 8, err))
    end
  end.

(** What a client does with the stream: a size, then that many bytes, of
    which the first four are the frame type. [None]: the stream ends inside a
    frame, or a frame is shorter than its type. *)
Fixpoint read_frames (fuel : nat) (s : bytes) : option (list (Z * bytes)) :=
  match fuel, s with
  | _, [] => Some []
  | O, _ => None
  | S fuel, _ =>
    let size := Z.to_nat (be_decode (take 4 s)) in
    let frame := take size (drop 4 s) in
    if bool_decide (length s < 4)%nat || bool_decide (size < 4)%nat || bool_decide (length frame < size)%nat then None else
    fs ← read_frames fuel (drop (4 + size) s);
    Some ((i32 (be_decode (take 4 frame)), drop 4 frame) :: fs)
  end.

(** ** Client errors (internal/protocol/errors.go) *)

(** [ParentErr] is only logged. *)
Inductive client_error :=
| ClientErr (parent : option string) (Code Desc : string)
| FatalClientErr (parent : option string) (Code Desc : string).

Definition Error (e : client_error) : bytes :=
  match e with
  | ClientErr _ c d | FatalClientErr _ c d => bytes_of_string (c +:+ " " +:+ d)
  end.

Definition Parent (e : client_error) : option string :=
  match e with ClientErr p _ _ | FatalClientErr p _ _ => p end.

Definition is_fatal (e : client_error) : bool :=
  match e with FatalClientErr _ _ _ => true | _ => false end.

(** ** Command lines *)

Definition newline : byte := byte_of_Z 10.
Definition space : byte := byte_of_Z 32.

(** [reader.ReadString('\n')]: the line with its delimiter and the rest;
    [None] is an error (the stream ends first). *)
Fixpoint ReadString (s : bytes) : option (bytes * bytes) :=
  match s with
  | [] => None
  | b :: s => if bool_decide (b = newline) then Some ([b], s) else '(l, r) ← ReadString s; Some (b :: l, r)
  end.

(** [strings.TrimSpace] cuts the characters with the Unicode property White
    Space, here in UTF-8, off both ends. *)
Definition white_space : list bytes :=
  map (map byte_of_Z)
  [[9]; [10]; [11]; [12]; [13]; [32]; [0xC2; 0x85]; [0xC2; 0xA0]; [0xE1; 0x9A; 0x80];
   [0xE2; 0x80; 0x80]; [0xE2; 0x80; 0x81]; [0xE2; 0x80; 0x82]; [0xE2; 0x80; 0x83]; [0xE2; 0x80; 0x84];
   [0xE2; 0x80; 0x85]; [0xE2; 0x80; 0x86]; [0xE2; 0x80; 0x87]; [0xE2; 0x80; 0x88]; [0xE2; 0x80; 0x89];
   [0xE2; 0x80; 0x8A]; [0xE2; 0x80; 0xA8]; [0xE2; 0x80; 0xA9]; [0xE2; 0x80; 0xAF]; [0xE2; 0x81; 0x9F];
   [0xE3; 0x80; 0x80]].

Fixpoint strip_prefix (p s : bytes) : option bytes :=
  match p, s with
  | [], _ => Some s
  | b :: p, c :: s => if bool_decide (b = c) then strip_prefix p s else None
  | _ :: _, [] => None
  end.

Fixpoint trim_left (spaces : list bytes) (fuel : nat) (s : bytes) : bytes :=
  match fuel with
  | O => s
  | S fuel =>
    match list_find (λ p, is_Some (strip_prefix p s)) spaces with
    | Some (_, p) => trim_left spaces fuel (default s (strip_prefix p s))
    | None => s
    end
  end.

Definition TrimSpace (s : bytes) : bytes :=
  let s := trim_left white_space (length s) s in
  reverse (trim_left (map reverse white_space) (length s) (reverse s)).

(** ** Log levels (internal/lg/lg.go) *)
Definition DEBUG : Z := 1.
Definition INFO : Z := 2.
Definition WARN : Z := 3.
Definition ERROR : Z := 4.
Definition FATAL : Z := 5.

Definition LogLevel_String (l : Z) : string :=
  if l =? DEBUG then "DEBUG" else if l =? INFO then "INFO" else if l =? WARN then "WARNING"
  else if l =? ERROR then "ERROR" else if l =? FATAL then "FATAL" else "invalid".

(** [strings.ToLower] on ASCII letters. *)
Definition lower_byte (b : byte) : byte :=
  let z := Z_of_byte b in if (65 <=? z) && (z <=? 90) then byte_of_Z (z + 32) else b.
Definition ToLower (s : string) : string := string_of_bytes (lower_byte <$> bytes_of_string s).

Definition ParseLogLevel (levelstr : string) : res string Z :=
  let s := ToLower levelstr in
  if bool_decide (s = "debug"%string) then Ok DEBUG else
  if bool_decide (s = "info"%string) then Ok INFO else
  if bool_decide (s = "warn"%string) then Ok WARN else
  if bool_decide (s = "error"%string) then Ok ERROR else
  if bool_decide (s = "fatal"%string) then Ok FATAL else
  Err ("invalid log level '" +:+ levelstr +:+ "' (debug, info, warn, error, fatal)")%string.

(** [Logf] outputs a message whose level reaches the configured one. *)
Definition Logf_outputs (cfgLevel msgLevel : Z) : bool := negb (cfgLevel >? msgLevel).

(** ** Query parameters (internal/http_api) *)

(** [url.Values] after [url.ParseQuery]: a key has at least one value. *)
Record ReqParams := mkReqParams {
  Values : gmap (list Byte.byte) (list bytes);
  rp_Body : bytes;
}.

(** [None] is a panic: [v[0]] of an empty slice. *)
Definition ReqParams_Get (r : ReqParams) (key : bytes) : option (res string bytes) :=
  match r.(Values) !! key with
  | None => Some (Err "key not in query params"%string)
  | Some v => Ok <$> v !! 0%nat
  end.

Definition GetAll (r : ReqParams) (key : bytes) : res string (list bytes) :=
  match r.(Values) !! key with
  | None => Err "key not in query params"%string
  | Some v => Ok v
  end.

Definition GetTopicChannelArgs (Get : bytes → res string bytes) : res string (bytes * bytes) :=
  match Get (bytes_of_string "topic") with
  | Err _ => Err "MISSING_ARG_TOPIC"%string
  | Ok topicName =>
    if negb (Names.IsValidTopicName topicName) then Err "INVALID_ARG_TOPIC"%string else
    match Get (bytes_of_string "channel") with
    | Err _ => Err "MISSING_ARG_CHANNEL"%string
    | Ok channelName =>
      if negb (Names.IsValidChannelName channelName) then Err "INVALID_ARG_CHANNEL"%string
      else Ok (topicName, channelName)
    end
  end.

(** ** Round trips *)

Definition frame_bytes (f : Z * bytes) : bytes := (SendFramedResponse (W := bytes) [] f.1 f.2).1.

Lemma frame_bytes_eq t d :
  frame_bytes (t, d) = be_encode 4 (u32 (u32 (Z.of_nat (length d)) + 4)) ++ be_encode 4 (u32 t) ++ d.
Proof. unfold frame_bytes, SendFramedResponse, write, buffer_writer. cbn [fst snd app]. by rewrite <- app_assoc. Qed.

Lemma SendFramedResponse_buffer (buf : bytes) t d :
  SendFramedResponse buf t d = (buf ++ frame_bytes (t, d), (Z.of_nat (length (frame_bytes (t, d))), None)).
Proof.
  rewrite frame_bytes_eq. unfold SendFramedResponse, write, buffer_writer. cbn [fst snd].
  f_equal; [by rewrite <- !app_assoc|]. f_equal. rewrite !length_app, !length_be_encode. lia.
Qed.

Definition frame_ok (f : Z * bytes) : Prop := in_i32 f.1 ∧ Z.of_nat (length f.2) + 4 < 2 ^ 32.

Lemma be_decode_encode_small n z : 0 <= z < 2 ^ (8 * Z.of_nat n) → be_decode (be_encode n z) = z.
Proof. intros Hz. rewrite be_decode_encode. by rewrite Z.mod_small. Qed.

Lemma read_frames_cons fuel t d s :
  frame_ok (t, d) → read_frames (S fuel) (frame_bytes (t, d) ++ s) = (λ fs, (t, d) :: fs) <$> read_frames fuel s.
Proof.
  intros [Ht Hd]. cbn in Ht, Hd. rewrite frame_bytes_eq.
  set (n := Z.of_nat (length d)) in *.
  assert (Hn : u32 (u32 n + 4) = n + 4) by (pow2; lia). rewrite Hn.
  set (sz := be_encode 4 (n + 4)). set (ty := be_encode 4 (u32 t)).
  assert (Lsz : length sz = 4%nat) by apply length_be_encode.
  assert (Lty : length ty = 4%nat) by apply length_be_encode.
  rewrite <- !app_assoc. cbn [read_frames].
  destruct (sz ++ ty ++ d ++ s) as [|b0 rest] eqn:E0.
  { apply (f_equal length) in E0. rewrite !length_app in E0. cbn in E0. lia. }
  rewrite <- E0. clear E0 b0 rest.
  rewrite take_app_length' by done. rewrite drop_app_length' by done.
  assert (Hsz : Z.to_nat (be_decode sz) = (4 + length d)%nat).
  { unfold sz. rewrite be_decode_encode_small by (cbn; pow2; unfold n; lia). unfold n. lia. }
  rewrite Hsz.
  assert (Hfr : take (4 + length d) (ty ++ d ++ s) = ty ++ d).
  { rewrite app_assoc. apply take_app_length'. rewrite length_app. lia. }
  rewrite Hfr. rewrite !bool_decide_eq_false_2 by (rewrite ?length_app; lia). cbn [orb].
  assert (Hdr : drop (4 + (4 + length d)) (sz ++ ty ++ d ++ s) = s).
  { rewrite !app_assoc. apply drop_app_length'. rewrite !length_app. lia. }
  rewrite Hdr. rewrite take_app_length', drop_app_length' by done.
  assert (Hty : i32 (be_decode ty) = t).
  { unfold ty. rewrite be_decode_encode_small by (pose proof (Z.mod_pos_bound t (2 ^ 32)); unfold uwrap; cbn; lia).
    by apply i32_u32. }
  rewrite Hty. by destruct (read_frames fuel s).
Qed.

(** A client that reads frame by frame gets back exactly the frames that
    [SendFramedResponse] wrote, types and data, whatever their contents; the
    number of bytes reported is the number written. *)
Theorem frames_roundtrip (fs : list (Z * bytes)) :
  Forall frame_ok fs →
  read_frames (length fs) (mjoin (frame_bytes <$> fs)) = Some fs ∧
  ∀ buf f, f ∈ fs → SendFramedResponse buf f.1 f.2
    = (buf ++ frame_bytes f, (8 + Z.of_nat (length f.2), None)).
Proof.
  intros Hfs. split.
  - induction Hfs as [|[t d] fs Hf _ IH]; [done|]. cbn [length].
    change (mjoin (frame_bytes <$> (t, d) :: fs)) with (frame_bytes (t, d) ++ mjoin (frame_bytes <$> fs)).
    rewrite read_frames_cons by done. by rewrite IH.
  - intros buf [t d] _. rewrite SendFramedResponse_buffer. do 2 f_equal. cbn [snd].
    rewrite frame_bytes_eq, !length_app, !length_be_encode. lia.
Qed.

Lemma frames_roundtrip_witness :
  read_frames 2 (frame_bytes (0, bytes_of_string "OK") ++ frame_bytes (-1, [])) = Some [(0, bytes_of_string "OK"); (-1, [])].
Proof.
  destruct (frames_roundtrip [(0, bytes_of_string "OK"); (-1, [])]) as [E _].
  - repeat constructor; by vm_compute.
  - cbn [fmap list_fmap mjoin list_join length] in E. rewrite app_nil_r in E. exact E.
Defined.

(** Every log level but [WARN] is what [ParseLogLevel] makes of its
    [String]; [WARN] prints as "WARNING", which is not a level: [Set]ting a
    level to the [String] of [WARN] is an error. *)
Theorem loglevel_roundtrip (l : Z) :
  DEBUG <= l <= FATAL →
  ParseLogLevel (LogLevel_String l) =
    if l =? WARN then Err "invalid log level 'WARNING' (debug, info, warn, error, fatal)"%string else Ok l.
Proof.
  intros Hl. assert (l = 1 ∨ l = 2 ∨ l = 3 ∨ l = 4 ∨ l = 5) as [->|[->|[->|[->| ->]]]] by (unfold DEBUG, FATAL in Hl; lia);
    by vm_compute.
Qed.

Lemma loglevel_roundtrip_witness :
  is_ok (ParseLogLevel (LogLevel_String WARN)) = false ∧ ParseLogLevel (LogLevel_String ERROR) = Ok ERROR.
Proof.
  split; [|exact (loglevel_roundtrip ERROR ltac:(unfold ERROR, DEBUG, FATAL; lia))].
  by rewrite (loglevel_roundtrip WARN ltac:(unfold WARN, DEBUG, FATAL; lia)).
Defined.

End Wire.
