(* ===== verification/HttpApi.v ===== *)
(** * The HTTP toolkit (internal/http_api)

    [HttpApi]: query parameters of a request, API handlers with their
    decorators, and the V1 responses. A handler runs on the state of its
    application; what it sends and what it logs is collected beside it; [None]
    is a panic. [Compress]: the writer [CompressHandler] puts in front of that
    of net/http. *)
From stdpp Require Import base gmap list strings.
From Stdlib Require Import ZArith Lia.
From S2P Require Import Prelude.
From S2P Require Import Text.
From S2P Require Import Wire.
Set Default Goal Selector "!".
Local Open Scope Z_scope.

Module HttpApi.
Import Wire.

(** ** Query strings ([url.ParseQuery]) *)

Definition hex_val (b : byte) : option Z :=
  let z := Z_of_byte b in
  if (48 <=? z) && (z <=? 57) then Some (z - 48) else
  if (65 <=? z) && (z <=? 70) then Some (z - 55) else
  if (97 <=? z) && (z <=? 102) then Some (z - 87) else None.

Definition percent : byte := byte_of_Z 37.
Definition plus : byte := byte_of_Z 43.
Definition equals : byte := byte_of_Z 61.
Definition ampersand : byte := byte_of_Z 38.
Definition semicolon : byte := byte_of_Z 59.

Fixpoint QueryUnescape (s : bytes) : option bytes :=
  match s with
  | [] => Some []
  | b :: s =>
    if bool_decide (b = percent) then
      match s with
      | h :: l :: s => h ← hex_val h; l ← hex_val l; r ← QueryUnescape s; Some (byte_of_Z (16 * h + l) :: r)
      | _ => None
      end
    else r ← QueryUnescape s; Some ((if bool_decide (b = plus) then space else b) :: r)
  end.

(** [url.QueryEscape]: letters, digits and [-_.~] stay, a space is a plus. *)
Definition unreserved (b : byte) : bool :=
  let z := Z_of_byte b in
  (48 <=? z) && (z <=? 57) || (65 <=? z) && (z <=? 90) || (97 <=? z) && (z <=? 122) ||
  (z =? 45) || (z =? 46) || (z =? 95) || (z =? 126).

Definition upper_hex (n : Z) : byte := if n <? 10 then byte_of_Z (48 + n) else byte_of_Z (55 + n).

Definition escape_byte (b : byte) : bytes :=
  if unreserved b then [b] else
  if bool_decide (b = space) then [plus] else
  [percent; upper_hex (Z_of_byte b / 16); upper_hex (Z_of_byte b `mod` 16)].

Definition QueryEscape (s : bytes) : bytes := b ← s; escape_byte b.

Lemma QueryUnescape_app_byte b s : QueryUnescape (escape_byte b ++ s) = (r ← QueryUnescape s; Some (b :: r)).
Proof. by destruct b. Qed.

Lemma query_escape_roundtrip s : QueryUnescape (QueryEscape s) = Some s.
Proof.
  induction s as [|b s IH]; [done|]. change (QueryEscape (b :: s)) with (escape_byte b ++ QueryEscape s).
  by rewrite QueryUnescape_app_byte, IH.
Qed.

(** The text before the first separator and after it. *)
Fixpoint cut (sep : byte) (s : bytes) : bytes * bytes :=
  match s with
  | [] => ([], [])
  | b :: s => if bool_decide (b = sep) then ([], s) else let '(l, r) := cut sep s in (b :: l, r)
  end.

Definition parse_pair (m : gmap (list Byte.byte) (list bytes)) (pair : bytes) : option (gmap (list Byte.byte) (list bytes)) :=
  if bool_decide (pair = []) then Some m else
  let '(key, value) := cut equals pair in
  key ← QueryUnescape key; value ← QueryUnescape value;
  Some (<[key := default [] (m !! key) ++ [value]]> m).

(** Pairs are separated by [&] or [;]. An invalid escape is an error. *)
Definition ParseQuery (query : bytes) : option (gmap (list Byte.byte) (list bytes)) :=
  foldl (λ m p, m ← m; parse_pair m p) (Some ∅)
    (Split.split ampersand ((λ b, if bool_decide (b = semicolon) then ampersand else b) <$> query)).

(** A request with the parameter of its route. The body ends after its bytes,
    or fails there. *)
Record request := mkRequest {
  Method : bytes;
  Path : bytes;
  RawQuery : bytes;
  RouteParam : bytes;
  ContentLength : Z;
  Body : bytes;
  BodyErr : option string;
}.

(** [ioutil.ReadAll] of the body, and of [io.LimitReader] on it. *)
Definition ReadAll (req : request) : option bytes :=
  match req.(BodyErr) with None => Some req.(Body) | Some _ => None end.
Definition ReadLimited (n : Z) (req : request) : option bytes :=
  if n <=? Z.of_nat (length req.(Body)) then Some (take (Z.to_nat n) req.(Body)) else ReadAll req.

Definition NewReqParams (req : request) : option ReqParams :=
  m ← ParseQuery req.(RawQuery); data ← ReadAll req; Some (mkReqParams m data).

Lemma parse_pair_ok m p m' :
  parse_pair m p = Some m' → (∀ k v, m !! k = Some v → v ≠ []) → ∀ k v, m' !! k = Some v → v ≠ [].
Proof.
  unfold parse_pair. intros E Hm k v. case_bool_decide; [naive_solver|]. destruct (cut equals p) as [key value].
  destruct (QueryUnescape key) as [key'|]; cbn in E; [|done].
  destruct (QueryUnescape value) as [value'|]; cbn in E; [|done]. injection E as <-.
  rewrite lookup_insert_Some. intros [[_ <-]|[_ ?]]; [by destruct (default [] _)|naive_solver].
Qed.

Lemma ParseQuery_ok q m k v : ParseQuery q = Some m → m !! k = Some v → v ≠ [].
Proof.
  unfold ParseQuery. generalize (Split.split ampersand ((λ b, if bool_decide (b = semicolon) then ampersand else b) <$> q)).
  assert (Hnone : ∀ l, foldl (λ m p, m ← m; parse_pair m p) None l = None) by (induction l; done).
  intros l. assert (Hm : ∀ k v, (∅ : gmap (list Byte.byte) (list bytes)) !! k = Some v → v ≠ []).
  { intros k' v'. by rewrite lookup_empty. }
  revert Hm. generalize (∅ : gmap (list Byte.byte) (list bytes)).
  induction l as [|p l IH]; intros m0 Hm; cbn; [intros [= <-]; by apply Hm|].
  destruct (parse_pair m0 p) as [m1|] eqn:E; [|by rewrite Hnone]. apply IH. by eapply parse_pair_ok.
Qed.

(** A parameter of a parsed request can be read without a panic. *)
Lemma ReqParams_Get_ok req rp key : NewReqParams req = Some rp → ∃ r, ReqParams_Get rp key = Some r.
Proof.
  unfold NewReqParams, ReqParams_Get. destruct (ParseQuery _) as [m|] eqn:E; cbn; [|done].
  destruct (ReadAll req); cbn; [|done]. intros [= <-]. cbn. destruct (m !! key) as [v|] eqn:Ev; [|by eexists].
  apply (ParseQuery_ok _ _ _ _ E) in Ev. destruct v; [done|by eexists].
Qed.

(** ** Handlers and responses (api_response.go) *)

Record Err := mkErr { Code : Z; ErrText : string }.

(** What a handler returns besides an error: [nil], a string, a byte slice,
    or a value to be marshalled. [DErr] is an error in the place of data. *)
Inductive data (J : Type) :=
| DNil
| DString (s : bytes)
| DBytes (b : bytes)
| DErr (e : Err)
| DJson (j : J).
Arguments DNil {J}.
Arguments DString {J} s.
Arguments DBytes {J} b.
Arguments DErr {J} e.
Arguments DJson {J} j.

Record response := mkResponse {
  r_code : Z;
  r_json : bool;  (* the Content-Type was set *)
  r_body : bytes;
}.

(** The application, the responses sent and the codes logged. *)
Record http_state (S : Type) := mkHttp {
  hs_app : S;
  hs_sent : list response;
  hs_log : list Z;
}.
Arguments mkHttp {S} _ _ _.
Arguments hs_app {S} _.
Arguments hs_sent {S} _.
Arguments hs_log {S} _.

Definition handler_result (J : Type) : Type := res Err (data J).
(** [None] in the middle: the handler never returns. *)
Definition APIHandler (S J : Type) : Type := request → ST (http_state S) (option (handler_result J)).
Definition Decorator (S J : Type) : Type := APIHandler S J → APIHandler S J.

Section responses.
Context {S J : Type}.
(** [json.Marshal], of data, of an error and of an error message, and [%s] of
    data. *)
Context (marshal : J → res string bytes) (marshal_error : Err → bytes) (marshal_message : bytes → bytes).
Context (sprint : J → bytes).

Definition send (r : response) : ST (http_state S) () :=
  modST (λ h, mkHttp h.(hs_app) (h.(hs_sent) ++ [r]) h.(hs_log)).

(** A handler of the application that may never return, and one that does. *)
Definition on_app_waiting (f : request → ST S (option (handler_result J))) : APIHandler S J := λ req h,
  '(r, s) ← f req h.(hs_app); Some (r, mkHttp s h.(hs_sent) h.(hs_log)).
Definition on_app (f : request → ST S (handler_result J)) : APIHandler S J :=
  on_app_waiting (λ req s, '(r, s) ← f req s; Some (Some r, s)).

(** What a decorator does after the handler it decorates. *)
Definition after (f : APIHandler S J) (k : handler_result J → ST (http_state S) (handler_result J)) : APIHandler S J := λ req,
  r ← f req;
  match r with
  | None => mret None
  | Some r => r ← k r; mret (Some r)
  end.

Definition PlainText : Decorator S J := λ f, after f (λ r,
  let '(code, data) := match r with
                       | Prelude.Err e => (e.(Code), DString (bytes_of_string e.(ErrText)))
                       | Ok data => (200, data)
                       end in
  _ ← match data with
      | DString d | DBytes d => send (mkResponse code false d)
      | _ => panic
      end;
  mret (Ok DNil)).

(** [fmt.Sprintf("%s", data)] *)
Definition sprintf_s (d : data J) : bytes :=
  match d with
  | DNil => bytes_of_string "%!s(<nil>)"
  | DString s | DBytes s => s
  | DErr e => bytes_of_string e.(ErrText)
  | DJson j => sprint j
  end.

Definition RespondV1 (code : Z) (d : data J) : response :=
  let '(code, d, isJSON, resp) :=
    if code =? 200 then
      match d with
      | DString s | DBytes s => (code, d, false, s)
      | DNil => (code, d, false, [])
      | DErr e => (code, d, true, marshal_error e)
      | DJson j => match marshal j with
                   | Ok b => (code, d, true, b)
                   | Prelude.Err e => (500, DErr (mkErr 500 e), true, [])
                   end
      end
    else (code, d, false, []) in
  if code =? 200 then mkResponse code isJSON resp
  else mkResponse code true (marshal_message (sprintf_s d)).

Definition V1 : Decorator S J := λ f, after f (λ r,
  match r with
  | Prelude.Err e => _ ← send (RespondV1 e.(Code) (DErr e)); mret (Ok DNil)
  | Ok data => _ ← send (RespondV1 200 data); mret (Ok DNil)
  end).

Definition Log : Decorator S J := λ f, after f (λ r,
  let status := match r with Prelude.Err e => e.(Code) | Ok _ => 200 end in
  _ ← modST (λ h, mkHttp h.(hs_app) h.(hs_sent) (h.(hs_log) ++ [status]));
  mret r).

Definition Decorate (f : APIHandler S J) (ds : list (Decorator S J)) : APIHandler S J :=
  foldl (λ decorated decorate, decorate decorated) f ds.

Definition failing (code : Z) (text : string) : APIHandler S J := λ _, mret (Some (Prelude.Err (mkErr code text))).
Definition LogPanicHandler : APIHandler S J := Decorate (failing 500 "INTERNAL_ERROR") [Log; V1].
Definition LogNotFoundHandler : APIHandler S J := Decorate (failing 404 "NOT_FOUND") [Log; V1].
Definition LogMethodNotAllowedHandler : APIHandler S J := Decorate (failing 405 "METHOD_NOT_ALLOWED") [Log; V1].

(** A decorated handler that ran answers once and logs once, with the code of
    its result. *)
Definition result_code (r : handler_result J) : Z := match r with Prelude.Err e => e.(Code) | Ok _ => 200 end.

Definition v1_response (r : handler_result J) : response :=
  match r with
  | Prelude.Err e => RespondV1 e.(Code) (DErr e)
  | Ok d => RespondV1 200 d
  end.

Lemma decorate_waiting_ok (f : request → ST S (option (handler_result J))) req h r s :
  f req h.(hs_app) = Some (Some r, s) →
  Decorate (on_app_waiting f) [Log; V1] req h
    = Some (Some (Ok DNil), mkHttp s (h.(hs_sent) ++ [v1_response r]) (h.(hs_log) ++ [result_code r])).
Proof.
  intros E. unfold Decorate, V1, Log, after, on_app_waiting. cbn [foldl].
  unfold mbind, ST_bind, option_bind. rewrite E. by destruct r.
Qed.

(** The same without [Log]; and a plain text answer. *)
Lemma decorate_unlogged_ok (f : request → ST S (option (handler_result J))) req h r s :
  f req h.(hs_app) = Some (Some r, s) →
  Decorate (on_app_waiting f) [V1] req h = Some (Some (Ok DNil), mkHttp s (h.(hs_sent) ++ [v1_response r]) h.(hs_log)).
Proof.
  intros E. unfold Decorate, V1, after, on_app_waiting. cbn [foldl].
  unfold mbind, ST_bind, option_bind. rewrite E. by destruct r.
Qed.

Lemma decorate_v1_ok (f : request → ST S (handler_result J)) req h r s :
  f req h.(hs_app) = Some (r, s) →
  Decorate (on_app f) [Log; V1] req h
    = Some (Some (Ok DNil), mkHttp s (h.(hs_sent) ++ [v1_response r]) (h.(hs_log) ++ [result_code r])).
Proof. intros E. apply decorate_waiting_ok. by rewrite E. Qed.

(** An error is answered with its code and message. *)
Lemma RespondV1_error code e : code ≠ 200 →
  RespondV1 code (DErr e) = mkResponse code true (marshal_message (bytes_of_string e.(ErrText))).
Proof. intros Hc. unfold RespondV1. by rewrite (proj2 (Z.eqb_neq _ _) Hc), (proj2 (Z.eqb_neq _ _) Hc). Qed.

End responses.
End HttpApi.

(** ** Compression of responses (internal/http_api/compress.go)

    The writer of a response as net/http has it, and the one [CompressHandler]
    puts in front of it. gzip and flate are a class: a compressor gives out
    what it has when it likes, at the latest when it is closed. *)
Class Codec (Z' : Type) := {
  zw_New : Z';
  zw_Write : Z' → bytes → Z' * list bytes;
  zw_Close : Z' → list bytes;
  z_decode : bytes → option bytes;
}.

Module Compress.

Definition tx := bytes_of_string.
Notation headers := (gmap (list Byte.byte) (list bytes)).

(** What a handler does with its writer. *)
Inductive op := OSet (k v : bytes) | OAdd (k v : bytes) | ODel (k : bytes) | OWriteHeader (code : Z) | OWrite (b : bytes).

(** The headers, what was sent of them with which status, and the body. *)
Record writer := mkWriter { hdr : headers; sent : option (Z * headers); body : bytes }.

Definition Set_ (k v : bytes) (w : writer) : writer := mkWriter (<[k := [v]]> w.(hdr)) w.(sent) w.(body).
Definition Add (k v : bytes) (w : writer) : writer := mkWriter (<[k := default [] (w.(hdr) !! k) ++ [v]]> w.(hdr)) w.(sent) w.(body).
Definition Del (k : bytes) (w : writer) : writer := mkWriter (delete k w.(hdr)) w.(sent) w.(body).
Definition Get (k : bytes) (w : writer) : bytes := default [] (head (default [] (w.(hdr) !! k))).
(** The second call does nothing; the first write sends 200. *)
Definition raw_WriteHeader (code : Z) (w : writer) : writer :=
  match w.(sent) with Some _ => w | None => mkWriter w.(hdr) (Some (code, w.(hdr))) w.(body) end.
Definition raw_Write (b : bytes) (w : writer) : writer :=
  let w := raw_WriteHeader 200 w in mkWriter w.(hdr) w.(sent) (w.(body) ++ b).
Definition raw_op (o : op) (w : writer) : writer :=
  match o with
  | OSet k v => Set_ k v w | OAdd k v => Add k v w | ODel k => Del k w
  | OWriteHeader code => raw_WriteHeader code w
  | OWrite b => raw_Write b w
  end.
Definition serve (ops : list op) (w : writer) : writer := foldl (λ w o, raw_op o w) w ops.

Section compress.
Context (DetectContentType : bytes → bytes).
Context {G D : Type} `{Codec G, Codec D}.

Inductive encoding := Gzip | Deflate.

(** The first encoding of the header that is known. *)
Fixpoint choose (encs : list bytes) : option encoding :=
  match encs with
  | [] => None
  | enc :: encs =>
    let enc := Wire.TrimSpace enc in
    if bool_decide (enc = tx "gzip") then Some Gzip else
    if bool_decide (enc = tx "deflate") then Some Deflate else choose encs
  end.

(** [compressResponseWriter] *)
Definition WriteHeader (code : Z) (w : writer) : writer := raw_WriteHeader code (Del (tx "Content-Length") w).
Definition Write {Z'} `{Codec Z'} (b : bytes) (z : Z') (w : writer) : Z' * writer :=
  let w := if bool_decide (Get (tx "Content-Type") w = []) then Set_ (tx "Content-Type") (DetectContentType b) w else w in
  let w := Del (tx "Content-Length") w in
  let '(z, out) := zw_Write z b in
  (z, foldl (λ w b, raw_Write b w) w out).
Definition compressed_op {Z'} `{Codec Z'} (o : op) (zw : Z' * writer) : Z' * writer :=
  match o with
  | OWriteHeader code => (zw.1, WriteHeader code zw.2)
  | OWrite b => Write b zw.1 zw.2
  | _ => (zw.1, raw_op o zw.2)
  end.
Definition with_codec {Z'} `{Codec Z'} (name : string) (ops : list op) (w : writer) : writer :=
  let w := Add (tx "Vary") (tx "Accept-Encoding") (Set_ (tx "Content-Encoding") (tx name) w) in
  let '(z, w) := foldl (λ zw o, compressed_op o zw) (zw_New, w) ops in
  foldl (λ w b, raw_Write b w) w (zw_Close z).

Definition CompressHandler (accept : bytes) (ops : list op) (w : writer) : writer :=
  match choose (Split.split (byte_of_Z 44) accept) with
  | Some Gzip => with_codec (Z' := G) "gzip" ops w
  | Some Deflate => with_codec (Z' := D) "deflate" ops w
  | None => serve ops w
  end.
End compress.

(** ** What the client reads *)

Section decoded.
Context (DetectContentType : bytes → bytes) {Z' : Type} `{Codec Z'}.

(** The output for some writes. *)
Fixpoint outputs (z : Z') (bs : list bytes) : list bytes :=
  match bs with
  | [] => zw_Close z
  | b :: bs => let '(z, out) := zw_Write z b in out ++ outputs z bs
  end.
Hypothesis Hdecode : ∀ bs, z_decode (mjoin (outputs zw_New bs)) = Some (mjoin bs).

Definition writes (ops : list op) : list bytes := omap (λ o, match o with OWrite b => Some b | _ => None end) ops.
Definition status (w : writer) : Z := default 200 (fst <$> w.(sent)).
(** The status is set before anything is written. *)
Fixpoint status_first (ops : list op) : bool :=
  match ops with
  | [] => true
  | OWrite _ :: ops => forallb (λ o, match o with OWriteHeader _ => false | _ => true end) ops
  | _ :: ops => status_first ops
  end.

Lemma raw_writes_body out w : (foldl (λ w b, raw_Write b w) w out).(body) = w.(body) ++ mjoin out.
Proof.
  revert w. induction out as [|b out IH]; intros w; cbn; [by rewrite app_nil_r|]. rewrite IH. cbn. unfold raw_WriteHeader. destruct (sent w); cbn; by rewrite <- app_assoc.
Qed.
Lemma raw_writes_status out w : status (foldl (λ w b, raw_Write b w) w out) = status w.
Proof.
  revert w. induction out as [|b out IH]; intros w; cbn; [done|]. rewrite IH. unfold status, raw_Write, raw_WriteHeader. destruct (sent w) eqn:E; cbn; by rewrite ?E.
Qed.

Lemma serve_body ops w : (serve ops w).(body) = w.(body) ++ mjoin (writes ops).
Proof.
  unfold serve. revert w. induction ops as [|o ops IH]; intros w; cbn; [by rewrite app_nil_r|]. rewrite IH.
  destruct o; cbn; try done; unfold raw_WriteHeader; destruct (sent w); cbn; by rewrite <- ?app_assoc.
Qed.

Definition finish (zw : Z' * writer) : writer := foldl (λ w b, raw_Write b w) zw.2 (zw_Close zw.1).

Lemma compressed_body ops z w :
  (finish (foldl (λ zw o, compressed_op DetectContentType o zw) (z, w) ops)).(body) = w.(body) ++ mjoin (outputs z (writes ops)).
Proof.
  revert z w. induction ops as [|o ops IH]; intros z w; [apply raw_writes_body|]. cbn [foldl]. destruct o as [k v|k v|k|c|b]; cbn [compressed_op fst snd raw_op]; try by rewrite IH.
  - rewrite IH. unfold WriteHeader, raw_WriteHeader. cbn. by destruct (sent w).
  - unfold Write. cbn [writes omap list_omap outputs]. destruct (zw_Write z b) as [z' out]. rewrite IH. rewrite raw_writes_body. cbn [outputs].
    rewrite join_app, app_assoc. f_equal. cbn. by case_bool_decide.
Qed.

(** After the first write the status does not change any more. *)
Lemma status_written ops zw w : forallb (λ o, match o with OWriteHeader _ => false | _ => true end) ops = true →
  status (foldl (λ zw o, compressed_op DetectContentType o zw) zw ops).2 = status zw.2 ∧ (sent w ≠ None → status (serve ops w) = status w).
Proof.
  revert zw w. induction ops as [|o ops IH]; intros zw w; [done|]. cbn [forallb]. intros [Ho Hops]%andb_true_iff. cbn [foldl]. unfold serve in *. cbn [foldl].
  destruct (IH (compressed_op DetectContentType o zw) (raw_op o w) Hops) as [-> Hraw]. split.
  - destruct o as [| | | |b]; try done. cbn. unfold Write. destruct (zw_Write _ _) as [z' out]. cbn. rewrite raw_writes_status. unfold status. cbn. by case_bool_decide.
  - intros Hs. destruct (sent w) as [p|] eqn:E; [|done].
    assert (Hp : sent (raw_op o w) = Some p) by (destruct o; cbn; unfold raw_WriteHeader; by rewrite ?E).
    rewrite Hraw by (by rewrite Hp). unfold status. by rewrite Hp, E.
Qed.

Lemma compressed_status ops zw w : status_first ops = true → fst <$> sent zw.2 = fst <$> sent w →
  status (foldl (λ zw o, compressed_op DetectContentType o zw) zw ops).2 = status (serve ops w).
Proof.
  revert zw w. induction ops as [|o ops IH]; intros zw w Hf Hs; [cbn; unfold status; by rewrite Hs|].
  destruct o as [k v|k v|k|c|b]; cbn [status_first] in Hf; cbn [foldl]; unfold serve in *; cbn [foldl].
  1-3: by apply IH.
  - apply IH; [done|]. cbn. unfold WriteHeader, raw_WriteHeader. cbn. destruct (sent zw.2) eqn:E1, (sent w) eqn:E2; cbn in *; rewrite ?E1, ?E2; done.
  - destruct (status_written ops (compressed_op DetectContentType (OWrite b) zw) (raw_op (OWrite b) w) Hf) as [-> Hraw]. unfold serve in Hraw.
    rewrite Hraw; [|cbn; unfold raw_WriteHeader; by destruct (sent w) eqn:E; cbn; rewrite ?E].
    cbn. unfold Write. destruct (zw_Write _ _) as [z' out]. cbn. rewrite raw_writes_status.
    unfold status, raw_WriteHeader. case_bool_decide; cbn; destruct (sent zw.2) eqn:E1, (sent w) eqn:E2; cbn in *; rewrite ?E1, ?E2; cbn; congruence.
Qed.

(** A client that decodes what it gets reads what it would read without
    compression, with the same status, of a handler that does not set the
    status after it has written. *)
Theorem compressed_same name ops :
  let w := mkWriter ∅ None [] in
  let c := with_codec (Z' := Z') DetectContentType name ops w in
  z_decode c.(body) = Some (serve ops w).(body) ∧
  (status_first ops = true → status c = status (serve ops w)).
Proof.
  intros w c. subst c. unfold with_codec. set (w' := Add _ _ _). destruct (foldl _ _ _) as [z1 w1] eqn:E. split.
  - pose proof (compressed_body ops zw_New w') as Hb. unfold finish in Hb. rewrite E in Hb. cbn [fst snd] in Hb. rewrite Hb, serve_body. cbn. apply Hdecode.
  - intros Hf. rewrite raw_writes_status. pose proof (compressed_status ops (zw_New, w') w Hf eq_refl) as Hs. by rewrite E in Hs.
Qed.
End decoded.

(** A codec that gives everything out at the end, behind a mark. *)
#[local] Instance marking : Codec bytes := {|
  zw_New := [];
  zw_Write z b := (z ++ b, []);
  zw_Close z := [byte_of_Z 1 :: z];
  z_decode b := match b with [] => None | _ :: b => Some b end;
|}.

Lemma marking_decodes bs : z_decode (mjoin (outputs zw_New bs)) = Some (mjoin bs).
Proof.
  assert (Ho : ∀ z, mjoin (outputs z bs) = byte_of_Z 1 :: z ++ mjoin bs).
  { induction bs as [|b bs IH]; intros z; cbn; [by rewrite app_nil_r|]. by rewrite IH, <- app_assoc. }
  by rewrite Ho.
Qed.

Definition demo_ops : list op := [OSet (tx "Content-Length") (tx "2"); OWriteHeader 201; OWrite (tx "o"); OWrite (tx "k")].

Lemma compressed_same_witness :
  let c := CompressHandler (λ _, tx "text/plain") (G := bytes) (D := bytes) (tx "br, gzip") demo_ops (mkWriter ∅ None []) in
  z_decode c.(body) = Some (tx "ok") ∧ status c = 201.
Proof.
  destruct (compressed_same (λ _, tx "text/plain") marking_decodes "gzip" demo_ops) as [Hb Hs].
  split; [exact Hb|exact (Hs eq_refl)].
Defined.

End Compress.
