(* ===== verification/HttpClient.v ===== *)
(** * The HTTP client (internal/http_api/api_request.go)

    Requests to other daemons. A daemon that insists on TLS answers 403 with
    its port, and the request is made again over https. The web is an
    interface: queries ask it, posts change it. *)
From stdpp Require Import base list strings.
From Stdlib Require Import ZArith Lia.
From S2P Require Import Prelude.
From S2P Require Import Decimal.
From S2P Require Import Net.
Set Default Goal Selector "!".
Local Open Scope Z_scope.

Record http_reply := mkReply { rp_StatusCode : Z; rp_Status : bytes; rp_Body : bytes }.

(** A request made and its reply read, or an error. Queries are made by many
    goroutines at once, of which the number says which one asks: it may see
    the web at another moment than the others. *)
Class Web (W : Type) := {
  web_Get : nat → bytes → W → res string http_reply;
  web_Post : bytes → W → res string http_reply * W;
}.

Module HttpClient.
Import Net.

Definition tx := bytes_of_string.

(** [url.URL]: the scheme, the host with its port, and the rest as it is
    written. *)
Record URL := mkURL { u_Scheme : bytes; u_Host : bytes; u_Rest : bytes }.
Definition URL_String (u : URL) : bytes := u.(u_Scheme) ++ tx "://" ++ u.(u_Host) ++ u.(u_Rest).

(** [strings.HasPrefix] *)
Definition HasPrefix (s prefix : bytes) : bool := bool_decide (take (length prefix) s = prefix).

Section client.
Context {W : Type} `{Web W}.
(** [url.Parse], the port of a 403 as JSON, and [%q]. *)
Context (url_Parse : bytes → res string URL) (unmarshal_port : bytes → res string Z) (Quote : bytes → string).

Definition httpsEndpoint (endpoint body : bytes) : res string bytes :=
  port ← unmarshal_port body;
  u ← url_Parse endpoint;
  '(host, _) ← SplitHostPort u.(u_Host);
  Ok (URL_String (mkURL (tx "https") (JoinHostPort host (Decimal.fmt_d port)) u.(u_Rest))).

Definition bad_status (r : http_reply) : string := "got response " +:+ string_of_bytes r.(rp_Status) +:+ " " +:+ Quote r.(rp_Body).

(** What to do with a reply: it is the answer, or the request is made again
    at another endpoint. *)
Definition judge (endpoint : bytes) (reply : res string http_reply) : res string (bytes + bytes) :=
  r ← reply;
  if r.(rp_StatusCode) =? 200 then Ok (inl r.(rp_Body)) else
  if (r.(rp_StatusCode) =? 403) && negb (HasPrefix endpoint (tx "https"))
  then endpoint ← httpsEndpoint endpoint r.(rp_Body); Ok (inr endpoint)
  else Err (bad_status r).

(** One retry is all there can be; running out of fuel is [None]. *)
Fixpoint get_retry (fuel : nat) (i : nat) (endpoint : bytes) (w : W) : option (res string bytes) :=
  match fuel with
  | O => None
  | S fuel =>
    match judge endpoint (web_Get i endpoint w) with
    | Err e => Some (Err e)
    | Ok (inl body) => Some (Ok body)
    | Ok (inr endpoint) => get_retry fuel i endpoint w
    end
  end.

(** [unmarshal] of the body may panic. *)
Definition GETV1 {T} (unmarshal : bytes → option (res string T)) (i : nat) (endpoint : bytes) (w : W) : option (res string T) :=
  r ← get_retry 2 i endpoint w;
  match r with
  | Err e => Some (Err e)
  | Ok body => unmarshal body
  end.

Fixpoint post_retry (fuel : nat) (endpoint : bytes) : ST W (option string) :=
  match fuel with
  | O => panic
  | S fuel =>
    r ← (λ w, Some (web_Post endpoint w));
    match judge endpoint r with
    | Err e => mret (Some e)
    | Ok (inl _) => mret None
    | Ok (inr endpoint) => post_retry fuel endpoint
    end
  end.
Definition POSTV1 (endpoint : bytes) : ST W (option string) := post_retry 2 endpoint.

(** ** One retry is enough *)

Lemma judge_again endpoint reply e : judge endpoint reply = Ok (inr e) → HasPrefix endpoint (tx "https") = false ∧ HasPrefix e (tx "https") = true.
Proof.
  unfold judge. destruct reply as [r|]; [|done]. cbn. destruct (_ =? 200); [done|].
  destruct ((_ =? 403) && _) eqn:Hc; [|done]. apply andb_true_iff in Hc as [_ Hc%negb_true_iff]. unfold httpsEndpoint.
  destruct (unmarshal_port _) as [port|]; cbn; [|done]. destruct (url_Parse endpoint) as [u|]; cbn; [|done].
  destruct (SplitHostPort (u_Host u)) as [[host p]|]; cbn; [|done]. intros [= <-]. split; [done|].
  unfold HasPrefix. by apply bool_decide_eq_true.
Qed.

Lemma judge_https endpoint reply e : HasPrefix endpoint (tx "https") = true → judge endpoint reply ≠ Ok (inr e).
Proof. intros Hp E%judge_again. destruct E. congruence. Qed.

Lemma get_retry_total i endpoint w : is_Some (get_retry 2 i endpoint w).
Proof.
  cbn. destruct (judge endpoint _) as [[b|e]|] eqn:E; [by eexists| |by eexists].
  apply judge_again in E as [_ E]. destruct (judge e _) as [[b'|e']|] eqn:E'; [by eexists| |by eexists].
  by apply judge_https in E'.
Qed.

Lemma POSTV1_total endpoint w : ∃ r w', POSTV1 endpoint w = Some (r, w').
Proof.
  unfold POSTV1. cbn. unfold mbind, ST_bind. destruct (web_Post endpoint w) as [r w1].
  destruct (judge endpoint _) as [[b|e]|] eqn:E; [by eexists _, _| |by eexists _, _].
  apply judge_again in E as [_ E]. destruct (web_Post e w1) as [r2 w2].
  destruct (judge e _) as [[b'|e']|] eqn:E'; [by eexists _, _| |by eexists _, _].
  by apply judge_https in E'.
Qed.

Lemma GETV1_total {T} (unmarshal : bytes → option (res string T)) i endpoint w :
  (∀ b, is_Some (unmarshal b)) → is_Some (GETV1 unmarshal i endpoint w).
Proof. intros Hu. unfold GETV1. destruct (get_retry_total i endpoint w) as [[b|] ->]; cbn; [done|by eexists]. Qed.

End client.
End HttpClient.
