(* ===== verification/RegistrationDB.v ===== *)
(** * The registration database of nsqlookupd (nsqlookupd/registration_db.go)

    Which nsqd ([PeerInfo], keyed by its address) produces which topic or
    channel ([Registration]). The maps hold pointers to producers, and the
    producers of one client share its [PeerInfo], so both live in stores. A
    method takes the lock for its whole body: it is one step. *)
From stdpp Require Import base gmap list strings.
From Stdlib Require Import ZArith Lia.
From S2P Require Import Prelude.
Set Default Goal Selector "!".
Local Open Scope Z_scope.

Module RegDB.

Record Registration := mkReg {
  Category : bytes;
  Key : bytes;
  SubKey : bytes;
}.

#[export] Instance Registration_eq_dec : EqDecision Registration.
Proof. solve_decision. Defined.
#[export] Instance Registration_countable : Countable Registration :=
  inj_countable' (λ r, (r.(Category), r.(Key), r.(SubKey))) (λ '(c, k, s), mkReg c k s) ltac:(by intros []).

Record PeerInfo := mkPeer {
  lastUpdate : Z;  (* int64 *)
  id : bytes;
  RemoteAddress : bytes;
  Hostname : bytes;
  BroadcastAddress : bytes;
  TCPPort : Z;
  HTTPPort : Z;
  Version : bytes;
}.

Definition set_lastUpdate (t : Z) (p : PeerInfo) : PeerInfo :=
  mkPeer t p.(id) p.(RemoteAddress) p.(Hostname) p.(BroadcastAddress) p.(TCPPort) p.(HTTPPort) p.(Version).

Record Producer := mkProducer {
  peerInfo : nat;  (* a pointer *)
  tombstoned : bool;
  tombstonedAt : time;
}.

Record RegistrationDB := mkDB {
  peers : gmap nat PeerInfo;
  producers : gmap nat Producer;
  next : nat;
  registrationMap : gmap Registration (gmap (list Byte.byte) nat);
}.

Definition NewRegistrationDB : RegistrationDB := mkDB ∅ ∅ 0 ∅.

Section db.
(** The order in which [range] visits a map. *)
Context (range : ∀ A : Type, list A → list A).

Notation DM := (ST RegistrationDB).

Definition set_map (f : gmap Registration (gmap (list Byte.byte) nat) → gmap Registration (gmap (list Byte.byte) nat)) : DM () :=
  modST (λ d, mkDB d.(peers) d.(producers) d.(next) (f d.(registrationMap))).
Definition put_producer (p : nat) (x : Producer) : DM () :=
  modST (λ d, mkDB d.(peers) (<[p := x]> d.(producers)) d.(next) d.(registrationMap)).
Definition put_peer (p : nat) (x : PeerInfo) : DM () :=
  modST (λ d, mkDB (<[p := x]> d.(peers)) d.(producers) d.(next) d.(registrationMap)).
Definition get_producer (p : nat) : DM Producer := d ← getST; liftST (d.(producers) !! p).
Definition get_peer (p : nat) : DM PeerInfo := d ← getST; liftST (d.(peers) !! p).

(** [&Producer{peerInfo: i}] and [&peerInfo]. *)
Definition new_producer (x : Producer) : DM nat :=
  d ← getST;
  _ ← putST (mkDB d.(peers) (<[d.(next) := x]> d.(producers)) (S d.(next)) d.(registrationMap));
  mret d.(next).
Definition new_peer (x : PeerInfo) : DM nat :=
  d ← getST;
  _ ← putST (mkDB (<[d.(next) := x]> d.(peers)) d.(producers) (S d.(next)) d.(registrationMap));
  mret d.(next).

Definition Tombstone (now : time) (p : nat) : DM () :=
  x ← get_producer p;
  put_producer p (mkProducer x.(peerInfo) true now).

Definition IsTombstoned (now : time) (lifetime : duration) (x : Producer) : bool :=
  x.(tombstoned) && (time_sub now x.(tombstonedAt) <? lifetime).

Definition AddRegistration (k : Registration) : DM () :=
  set_map (λ m, match m !! k with Some _ => m | None => <[k := ∅]> m end).

(** [true]: the producer is new for the key. *)
Definition AddProducer (k : Registration) (p : nat) : DM bool :=
  x ← get_producer p;
  i ← get_peer x.(peerInfo);
  d ← getST;
  let ps := default ∅ (d.(registrationMap) !! k) in
  match ps !! i.(id) with
  | Some _ => _ ← set_map (<[k := ps]>); mret false
  | None => _ ← set_map (<[k := <[i.(id) := p]> ps]>); mret true
  end.

Definition RemoveProducer (k : Registration) (id : bytes) : DM (bool * nat) :=
  d ← getST;
  match d.(registrationMap) !! k with
  | None => mret (false, 0%nat)
  | Some ps =>
    let removed := bool_decide (is_Some (ps !! id)) in
    let ps := delete id ps in
    _ ← set_map (<[k := ps]>);
    mret (removed, size ps)
  end.

Definition RemoveRegistration (k : Registration) : DM () := set_map (delete k).

Definition star : bytes := bytes_of_string "*".

Definition needFilter (key subkey : bytes) : bool :=
  bool_decide (key = star) || bool_decide (subkey = star).

Definition IsMatch (k : Registration) (category key subkey : bytes) : bool :=
  if negb (bool_decide (category = k.(Category))) then false else
  if negb (bool_decide (key = star)) && negb (bool_decide (k.(Key) = key)) then false else
  if negb (bool_decide (subkey = star)) && negb (bool_decide (k.(SubKey) = subkey)) then false else true.

Definition FindRegistrations (category key subkey : bytes) (d : RegistrationDB) : list Registration :=
  if negb (needFilter key subkey) then
    let k := mkReg category key subkey in
    match d.(registrationMap) !! k with Some _ => [k] | None => [] end
  else
    filter (λ k, IsMatch k category key subkey = true) (range _ (map_to_list d.(registrationMap)).*1).

Definition ProducerMap2Slice (pm : gmap (list Byte.byte) nat) : list nat := range _ (map_to_list pm).*2.

(** The producers of one registration that were not seen yet. *)
Fixpoint collect (d : RegistrationDB) (ps : list nat) (results : gset (list Byte.byte)) (ret : list nat) :
    option (gset (list Byte.byte) * list nat) :=
  match ps with
  | [] => Some (results, ret)
  | p :: ps =>
    x ← d.(producers) !! p; i ← d.(peers) !! x.(peerInfo);
    if bool_decide (i.(id) ∈ results) then collect d ps results ret
    else collect d ps ({[i.(id)]} ∪ results) (ret ++ [p])
  end.

Fixpoint collect_all (d : RegistrationDB) (category key subkey : bytes)
    (ks : list (Registration * gmap (list Byte.byte) nat)) (results : gset (list Byte.byte)) (ret : list nat) : option (list nat) :=
  match ks with
  | [] => Some ret
  | (k, ps) :: ks =>
    if negb (IsMatch k category key subkey) then collect_all d category key subkey ks results ret else
    '(results, ret) ← collect d (ProducerMap2Slice ps) results ret;
    collect_all d category key subkey ks results ret
  end.

(** [None] is a nil dereference. *)
Definition FindProducers (category key subkey : bytes) (d : RegistrationDB) : option (list nat) :=
  if negb (needFilter key subkey) then
    Some (ProducerMap2Slice (default ∅ (d.(registrationMap) !! mkReg category key subkey)))
  else collect_all d category key subkey (range _ (map_to_list d.(registrationMap))) ∅ [].

Definition LookupRegistrations (id : bytes) (d : RegistrationDB) : list Registration :=
  (filter (λ kp, is_Some (kp.2 !! id)) (range _ (map_to_list d.(registrationMap)))).*1.

Definition Filter (category key subkey : bytes) (rr : list Registration) : list Registration :=
  filter (λ k, IsMatch k category key subkey = true) rr.
Definition Keys (rr : list Registration) : list bytes := Key <$> rr.
Definition SubKeys (rr : list Registration) : list bytes := SubKey <$> rr.

(** [clock i] is the reading in round [i]. *)
Fixpoint FilterByActive_loop (clock : nat → time) (i : nat) (inactivityTimeout tombstoneLifetime : duration)
    (d : RegistrationDB) (now : time) (pp : list nat) : option (list nat) :=
  match pp with
  | [] => Some []
  | p :: pp =>
    x ← d.(producers) !! p; pi ← d.(peers) !! x.(peerInfo);
    rest ← FilterByActive_loop clock (S i) inactivityTimeout tombstoneLifetime d now pp;
    if (time_sub now pi.(lastUpdate) >? inactivityTimeout) || IsTombstoned (clock i) tombstoneLifetime x
    then Some rest else Some (p :: rest)
  end.

Definition FilterByActive (now : time) (clock : nat → time) (inactivityTimeout tombstoneLifetime : duration)
    (d : RegistrationDB) (pp : list nat) : option (list nat) :=
  FilterByActive_loop clock 0 inactivityTimeout tombstoneLifetime d now pp.

(** The [PeerInfo] pointers of the producers. *)
Definition PeerInfos (d : RegistrationDB) (pp : list nat) : option (list nat) :=
  mapM (λ p, peerInfo <$> d.(producers) !! p) pp.

End db.

(** ** Specification: who is registered for what *)

Definition registered (d : RegistrationDB) (k : Registration) (i : bytes) : Prop :=
  ∃ ps p, d.(registrationMap) !! k = Some ps ∧ ps !! i = Some p.

#[export] Instance registered_dec d k i : Decision (registered d k i).
Proof.
  destruct (d.(registrationMap) !! k) as [ps|] eqn:E.
  - destruct (ps !! i) as [p|] eqn:Ep; [left; by exists ps, p|].
    right. intros (ps' & p & ? & ?). congruence.
  - right. intros (ps' & p & ? & ?). congruence.
Defined.

(** Every pointer is live, and a producer is filed under its own address. *)
Record db_ok (d : RegistrationDB) : Prop := {
  db_filed : ∀ k ps i p, d.(registrationMap) !! k = Some ps → ps !! i = Some p →
    ∃ x pi, d.(producers) !! p = Some x ∧ d.(peers) !! x.(peerInfo) = Some pi ∧ pi.(id) = i;
  db_peer : ∀ p x, d.(producers) !! p = Some x → is_Some (d.(peers) !! x.(peerInfo));
  db_fresh : ∀ p, (d.(next) <= p)%nat → d.(producers) !! p = None ∧ d.(peers) !! p = None;
}.

Section proofs.
Context (range : ∀ A : Type, list A → list A).
Hypothesis range_perm : ∀ A (l : list A), range A l ≡ₚ l.
Implicit Types (d : RegistrationDB) (k : Registration).

(** A filterless query is answered as the filter would. *)
Lemma IsMatch_exact k c key sub :
  needFilter key sub = false → IsMatch k c key sub = true ↔ k = mkReg c key sub.
Proof.
  unfold needFilter, IsMatch. intros [H1%bool_decide_eq_false H2%bool_decide_eq_false]%orb_false_iff.
  rewrite !(bool_decide_eq_false_2 (_ = star)) by done. cbn [negb andb]. destruct k as [c' k' s']. cbn.
  repeat case_bool_decide; cbn; split; intros; simplify_eq; done.
Qed.

Lemma FindRegistrations_spec d c key sub k :
  k ∈ FindRegistrations range c key sub d ↔ is_Some (d.(registrationMap) !! k) ∧ IsMatch k c key sub = true.
Proof.
  unfold FindRegistrations. destruct (needFilter key sub) eqn:En; cbn [negb].
  - rewrite list_elem_of_filter, range_perm, list_elem_of_fmap. split.
    + intros (Hm & [k' ps] & -> & Hk%elem_of_map_to_list). split; [by eexists|done].
    + intros [[ps Hk] Hm]. split; [done|]. exists (k, ps). split; [done|]. by apply elem_of_map_to_list.
  - rewrite IsMatch_exact by done. destruct (d.(registrationMap) !! mkReg c key sub) eqn:E.
    + rewrite list_elem_of_singleton. split; [intros ->; by rewrite E|by intros [_ ->]].
    + split; [by intros ?%elem_of_nil|]. intros [[? Hk] ->]. congruence.
Qed.

Lemma FindRegistrations_NoDup d c key sub : NoDup (FindRegistrations range c key sub d).
Proof.
  unfold FindRegistrations. destruct (negb _).
  - destruct (_ !! _); [apply NoDup_singleton|constructor].
  - apply NoDup_filter. rewrite range_perm. apply NoDup_fst_map_to_list.
Qed.

Lemma LookupRegistrations_spec d i k : k ∈ LookupRegistrations range i d ↔ registered d k i.
Proof.
  unfold LookupRegistrations, registered. rewrite list_elem_of_fmap. split.
  - intros ([k' ps] & -> & [[p Hp] Hin]%list_elem_of_filter). rewrite range_perm in Hin.
    apply elem_of_map_to_list in Hin. by exists ps, p.
  - intros (ps & p & Hk & Hp). exists (k, ps). split; [done|]. apply list_elem_of_filter. split; [by eexists|].
    rewrite range_perm. by apply elem_of_map_to_list.
Qed.

(** ** The updates *)

Lemma AddProducer_ok d k p x pi :
  db_ok d → d.(producers) !! p = Some x → d.(peers) !! x.(peerInfo) = Some pi →
  ∃ d', AddProducer k p d = Some (negb (bool_decide (registered d k pi.(id))), d') ∧ db_ok d' ∧
    d'.(peers) = d.(peers) ∧ d'.(producers) = d.(producers) ∧ d'.(next) = d.(next) ∧
    (∀ k' i, registered d' k' i ↔ registered d k' i ∨ k' = k ∧ i = pi.(id)) ∧
    (∀ k', is_Some (d'.(registrationMap) !! k') ↔ is_Some (d.(registrationMap) !! k') ∨ k' = k).
Proof.
  intros Hok Hp Hpi. unfold AddProducer.
  callST ltac:(unfold get_producer, mbind, ST_bind, getST, liftST; rewrite Hp; reflexivity).
  callST ltac:(unfold get_peer, mbind, ST_bind, getST, liftST; rewrite Hpi; reflexivity).
  callST ltac:(reflexivity). set (ps := default ∅ (d.(registrationMap) !! k)).
  assert (Hreg : ∀ i, is_Some (ps !! i) ↔ registered d k i).
  { intros i. unfold ps, registered. destruct (d.(registrationMap) !! k) as [ps'|] eqn:E; cbn.
    - split; [intros [q Hq]; by exists ps', q|intros (ps'' & q & ? & ?); simplify_eq; by eexists].
    - rewrite lookup_empty. split; [by intros []|]. intros (ps'' & q & ? & ?). congruence. }
  assert (Hdef : ∀ i q, ps !! i = Some q → ∃ ps', d.(registrationMap) !! k = Some ps' ∧ ps' !! i = Some q).
  { intros i q. unfold ps. destruct (d.(registrationMap) !! k) as [ps'|]; cbn; [by exists ps'|]. by rewrite lookup_empty. }
  assert (Hdom : ∀ m k', is_Some (<[k := m]> d.(registrationMap) !! k') ↔ is_Some (d.(registrationMap) !! k') ∨ k' = k).
  { intros m k'. rewrite lookup_insert_is_Some. destruct (decide (k = k')); naive_solver. }
  destruct (ps !! pi.(id)) as [q|] eqn:Eq.
  - rewrite bool_decide_eq_true_2 by (apply Hreg; by eexists). callST ltac:(reflexivity).
    eexists. split; [reflexivity|]. split_and!; try done.
    + destruct Hok as [Hf Hpe Hfr]. split; cbn; [|done|done]. intros k' ps' i r.
      rewrite lookup_insert_Some. intros [[<- <-]|[_ Hk']] Hr; [|by eapply Hf].
      destruct (Hdef i r Hr) as (ps' & ? & ?). by eapply Hf.
    + intros k' i. unfold registered at 1. cbn. split.
      * intros (ps' & r & Hk' & Hr). rewrite lookup_insert_Some in Hk'. destruct Hk' as [[<- <-]|[_ Hk']].
        -- left. apply Hreg. by eexists.
        -- left. by exists ps', r.
      * intros [Hr|[-> ->]].
        -- destruct (decide (k' = k)) as [->|Hne].
           ++ apply Hreg in Hr as [r Hr]. exists ps, r. by rewrite lookup_insert_eq.
           ++ destruct Hr as (ps' & r & ? & ?). exists ps', r. by rewrite lookup_insert_ne.
        -- exists ps, q. by rewrite lookup_insert_eq.
    + apply Hdom.
  - rewrite bool_decide_eq_false_2 by (intros [? ?]%Hreg; congruence). callST ltac:(reflexivity).
    eexists. split; [reflexivity|]. split_and!; try done.
    + destruct Hok as [Hf Hpe Hfr]. split; cbn; [|done|done]. intros k' ps' i r.
      rewrite lookup_insert_Some. intros [[<- <-]|[_ Hk']] Hr; [|by eapply Hf].
      apply lookup_insert_Some in Hr as [[<- <-]|[_ Hr]]; [by exists x, pi|].
      destruct (Hdef i r Hr) as (ps' & ? & ?). by eapply Hf.
    + intros k' i. unfold registered at 1. cbn. split.
      * intros (ps' & r & Hk' & Hr). rewrite lookup_insert_Some in Hk'. destruct Hk' as [[<- <-]|[_ Hk']].
        -- apply lookup_insert_Some in Hr as [[<- _]|[_ Hr]]; [by right|]. left. apply Hreg. by eexists.
        -- left. by exists ps', r.
      * intros [Hr|[-> ->]].
        -- destruct (decide (k' = k)) as [->|Hne].
           ++ apply Hreg in Hr as [r Hr]. exists (<[pi.(id) := p]> ps), r. rewrite lookup_insert_eq. split; [done|].
              rewrite lookup_insert_ne; [done|]. congruence.
           ++ destruct Hr as (ps' & r & ? & ?). exists ps', r. by rewrite lookup_insert_ne.
        -- exists (<[pi.(id) := p]> ps), p. by rewrite !lookup_insert_eq.
    + apply Hdom.
Qed.

Lemma RemoveProducer_ok d k i :
  db_ok d →
  ∃ left d', RemoveProducer k i d = Some ((bool_decide (registered d k i), left), d') ∧ db_ok d' ∧
    d'.(peers) = d.(peers) ∧ d'.(producers) = d.(producers) ∧ d'.(next) = d.(next) ∧
    (∀ k' i', registered d' k' i' ↔ registered d k' i' ∧ ¬ (k' = k ∧ i' = i)) ∧
    (left = 0%nat ↔ ∀ i', ¬ registered d' k i') ∧
    (∀ k', is_Some (d'.(registrationMap) !! k') ↔ is_Some (d.(registrationMap) !! k')).
Proof.
  intros Hok. unfold RemoveProducer. callST ltac:(reflexivity).
  destruct (d.(registrationMap) !! k) as [ps|] eqn:Ek.
  - assert (Hreg : bool_decide (is_Some (ps !! i)) = bool_decide (registered d k i)).
    { apply bool_decide_ext. unfold registered. split; [intros [q Hq]; by exists ps, q|].
      intros (ps' & q & ? & ?). simplify_eq. by eexists. }
    rewrite Hreg. callST ltac:(reflexivity). eexists _, _. split; [reflexivity|].
    assert (Hr : ∀ k' i', registered (mkDB d.(peers) d.(producers) d.(next) (<[k := delete i ps]> d.(registrationMap))) k' i'
        ↔ registered d k' i' ∧ ¬ (k' = k ∧ i' = i)).
    { intros k' i'. unfold registered. cbn. split.
      - intros (ps' & q & Hk' & Hq). rewrite lookup_insert_Some in Hk'. destruct Hk' as [[<- <-]|[Hne Hk']].
        + apply lookup_delete_Some in Hq as [Hne Hq]. split; [by exists ps, q|]. intros [_ ?]. congruence.
        + split; [by exists ps', q|]. intros [? _]. congruence.
      - intros [(ps' & q & Hk' & Hq) Hne]. destruct (decide (k' = k)) as [->|Hk].
        + simplify_eq. exists (delete i ps), q. rewrite lookup_insert_eq. split; [done|].
          rewrite lookup_delete_ne; [done|]. intros <-. by apply Hne.
        + exists ps', q. by rewrite lookup_insert_ne. }
    split_and!; try done.
    + destruct Hok as [Hf Hpe Hfr]. split; cbn; [|done|done]. intros k' ps' j r.
      rewrite lookup_insert_Some. intros [[<- <-]|[_ Hk']] Hj; [|by eapply Hf].
      apply lookup_delete_Some in Hj as [_ Hj]. by eapply Hf.
    + rewrite map_size_empty_iff. split.
      * intros He i' (ps' & q & Hk' & Hq). cbn in Hk'. rewrite lookup_insert_eq in Hk'. simplify_eq.
        rewrite He in Hq. by rewrite lookup_empty in Hq.
      * intros Hn. apply map_empty. intros j. destruct (delete i ps !! j) as [q|] eqn:Ej; [|done].
        exfalso. apply (Hn j). exists (delete i ps), q. cbn. by rewrite lookup_insert_eq.
    + intros k'. cbn. rewrite lookup_insert_is_Some. destruct (decide (k = k')) as [->|]; naive_solver.
  - exists 0%nat, d. rewrite bool_decide_eq_false_2 by (intros (? & ? & ? & ?); congruence). split_and!; try done.
    + intros k' i'. split; [|by intros [? _]]. intros Hr. split; [done|]. intros [-> ->].
      destruct Hr as (? & ? & ? & ?). congruence.
    + split; [|done]. intros _ i' (? & ? & ? & ?). congruence.
Qed.

Lemma RemoveRegistration_ok d k :
  db_ok d → ∃ d', RemoveRegistration k d = Some ((), d') ∧ db_ok d' ∧
    d'.(peers) = d.(peers) ∧ d'.(producers) = d.(producers) ∧ d'.(next) = d.(next) ∧
    d'.(registrationMap) = delete k d.(registrationMap) ∧
    ∀ k' i, registered d' k' i ↔ registered d k' i ∧ k' ≠ k.
Proof.
  intros [Hf Hpe Hfr]. eexists. split; [reflexivity|]. split_and!; try done.
  - split; cbn; [|done|done]. intros k' ps j r [_ ?]%lookup_delete_Some. by eapply Hf.
  - intros k' i. unfold registered. cbn. split.
    + intros (ps & p & [Hne Hk]%lookup_delete_Some & Hp). split; [by exists ps, p|done].
    + intros [(ps & p & Hk & Hp) Hne]. exists ps, p. rewrite lookup_delete_ne; done.
Qed.

Lemma AddRegistration_ok d k :
  db_ok d → ∃ d', AddRegistration k d = Some ((), d') ∧ db_ok d' ∧
    (∀ k' i, registered d' k' i ↔ registered d k' i) ∧
    (∀ k', is_Some (d'.(registrationMap) !! k') ↔ is_Some (d.(registrationMap) !! k') ∨ k' = k).
Proof.
  intros Hok. pose proof Hok as [Hf Hpe Hfr]. unfold AddRegistration, set_map, modST. eexists. split; [reflexivity|]. cbv beta.
  destruct (d.(registrationMap) !! k) as [ps0|] eqn:Ek.
  - split_and!; [destruct d; exact Hok|done|]. intros k'. cbn. split; [by left|]. intros [?| ->]; [done|]. by rewrite Ek.
  - split_and!.
    + split; cbn; [|done|done]. intros k' ps j r. rewrite lookup_insert_Some.
      intros [[<- <-]|[_ ?]]; [by rewrite lookup_empty|by eapply Hf].
    + intros k' i. unfold registered. cbn. split.
      * intros (ps & p & Hk & Hp). apply lookup_insert_Some in Hk as [[<- <-]|[_ ?]]; [by rewrite lookup_empty in Hp|by exists ps, p].
      * intros (ps & p & Hk & Hp). exists ps, p. rewrite lookup_insert_ne by congruence. done.
    + intros k'. cbn. rewrite lookup_insert_is_Some. destruct (decide (k = k')); naive_solver.
Qed.

(** ** Queries *)

(** The address of a producer. *)
Definition id_of d (p : nat) : bytes :=
  default [] (x ← d.(producers) !! p; pi ← d.(peers) !! x.(peerInfo); Some pi.(id)).

Definition filed d (p : nat) : Prop := ∃ x pi, d.(producers) !! p = Some x ∧ d.(peers) !! x.(peerInfo) = Some pi.

Lemma filed_at d k ps i p :
  db_ok d → d.(registrationMap) !! k = Some ps → ps !! i = Some p → filed d p ∧ id_of d p = i.
Proof.
  intros Hok Hk Hp. destruct (db_filed _ Hok k ps i p Hk Hp) as (x & pi & Hx & Hpi & Hi).
  split; [by exists x, pi|]. unfold id_of. by rewrite Hx; cbn; rewrite Hpi.
Qed.

Lemma ProducerMap2Slice_spec d k ps :
  db_ok d → d.(registrationMap) !! k = Some ps →
  Forall (filed d) (ProducerMap2Slice range ps) ∧ NoDup (id_of d <$> ProducerMap2Slice range ps) ∧
  ∀ i, i ∈ id_of d <$> ProducerMap2Slice range ps ↔ is_Some (ps !! i).
Proof.
  intros Hok Hk. unfold ProducerMap2Slice.
  assert (Hid : ∀ i p, (i, p) ∈ map_to_list ps → filed d p ∧ id_of d p = i).
  { intros i p Hp%elem_of_map_to_list. by eapply filed_at. }
  assert (Ef : id_of d <$> (map_to_list ps).*2 = (map_to_list ps).*1).
  { rewrite <- list_fmap_compose. apply list_fmap_ext. intros j [i p] Hj%list_elem_of_lookup_2. by apply Hid. }
  split_and!.
  - rewrite range_perm. apply Forall_fmap, Forall_forall. intros [i p] Hip. by eapply Hid.
  - rewrite range_perm, Ef. apply NoDup_fst_map_to_list.
  - intros i. rewrite range_perm, Ef, list_elem_of_fmap. split.
    + intros ([j p] & -> & Hp%elem_of_map_to_list). by eexists.
    + intros [p Hp]. exists (i, p). split; [done|]. by apply elem_of_map_to_list.
Qed.

Lemma collect_ok d ps : ∀ results ret,
  Forall (filed d) ps → NoDup (id_of d <$> ret) → (∀ i, i ∈ results ↔ i ∈ id_of d <$> ret) → Forall (filed d) ret →
  ∃ results' ret', collect d ps results ret = Some (results', ret') ∧ NoDup (id_of d <$> ret') ∧
    (∀ i, i ∈ results' ↔ i ∈ id_of d <$> ret') ∧ Forall (filed d) ret' ∧
    ∀ i, i ∈ id_of d <$> ret' ↔ i ∈ id_of d <$> ret ∨ i ∈ id_of d <$> ps.
Proof.
  induction ps as [|p ps IH]; intros results ret Hps Hnd Hres Hret; cbn [collect].
  - exists results, ret. split_and!; try done. intros i. rewrite fmap_nil, elem_of_nil. naive_solver.
  - apply Forall_cons in Hps as [(x & pi & Hx & Hpi) Hps]. rewrite Hx. cbn [mbind option_bind]. rewrite Hpi. cbn [mbind option_bind].
    assert (Ei : id_of d p = pi.(id)) by (unfold id_of; rewrite Hx; cbn; by rewrite Hpi).
    case_bool_decide as Hin.
    + destruct (IH results ret Hps Hnd Hres Hret) as (r' & ret' & E & ? & ? & ? & Hi). exists r', ret'.
      split_and!; try done. intros i. rewrite Hi, fmap_cons, elem_of_cons, Ei. split; [naive_solver|].
      intros [?|[->|?]]; [by left| |by right]. left. by apply Hres.
    + destruct (IH ({[pi.(id)]} ∪ results) (ret ++ [p]) Hps) as (r' & ret' & E & ? & ? & ? & Hi).
      * rewrite fmap_app. apply NoDup_app. split; [done|]. split; [|apply NoDup_singleton]. cbn. rewrite Ei.
        intros i Hi ->%list_elem_of_singleton. by apply Hin, Hres.
      * intros i. rewrite elem_of_union, elem_of_singleton, fmap_app, elem_of_app, Hres. change (id_of d <$> [p]) with [id_of d p].
        rewrite Ei, list_elem_of_singleton. naive_solver.
      * apply Forall_app. split; [done|]. repeat constructor. by exists x, pi.
      * exists r', ret'. split_and!; try done. intros i. rewrite Hi, fmap_app, elem_of_app, !fmap_cons, !elem_of_cons, fmap_nil, elem_of_nil.
        rewrite Ei. naive_solver.
Qed.

Lemma collect_all_ok d c key sub ks : ∀ results ret,
  db_ok d → (∀ k ps, (k, ps) ∈ ks → d.(registrationMap) !! k = Some ps) →
  NoDup (id_of d <$> ret) → (∀ i, i ∈ results ↔ i ∈ id_of d <$> ret) → Forall (filed d) ret →
  ∃ ret', collect_all range d c key sub ks results ret = Some ret' ∧ NoDup (id_of d <$> ret') ∧ Forall (filed d) ret' ∧
    ∀ i, i ∈ id_of d <$> ret' ↔ i ∈ id_of d <$> ret ∨
      ∃ k ps, (k, ps) ∈ ks ∧ IsMatch k c key sub = true ∧ is_Some (ps !! i).
Proof.
  induction ks as [|[k ps] ks IH]; intros results ret Hok Hks Hnd Hres Hret; cbn [collect_all].
  - exists ret. split_and!; try done. intros i. split; [by left|]. intros [?|(k & ps & ?%elem_of_nil & _)]; done.
  - assert (Hks' : ∀ k ps, (k, ps) ∈ ks → d.(registrationMap) !! k = Some ps) by (intros; apply Hks; by right).
    destruct (IsMatch k c key sub) eqn:Em; cbn [negb].
    + destruct (ProducerMap2Slice_spec d k ps Hok) as (Hf & _ & Hps); [apply Hks; by left|].
      destruct (collect_ok d _ results ret Hf Hnd Hres Hret) as (r1 & ret1 & E1 & Hn1 & Hr1 & Hf1 & Hi1).
      rewrite E1. cbn [mbind option_bind].
      destruct (IH r1 ret1 Hok Hks' Hn1 Hr1 Hf1) as (ret' & E & ? & ? & Hi). exists ret'. split_and!; try done.
      intros i. rewrite Hi, Hi1, Hps. setoid_rewrite elem_of_cons. split.
      * intros [[?|?]|(k' & ps' & ? & ? & ?)]; [by left|right; exists k, ps; naive_solver|right; exists k', ps'; naive_solver].
      * intros [?|(k' & ps' & [[= -> ->]|?] & ? & ?)]; [by left; left|by left; right|right; by exists k', ps'].
    + destruct (IH results ret Hok Hks' Hnd Hres Hret) as (ret' & E & ? & ? & Hi). exists ret'. split_and!; try done.
      intros i. rewrite Hi. setoid_rewrite elem_of_cons. split.
      * intros [?|(k' & ps' & ? & ? & ?)]; [by left|right; exists k', ps'; naive_solver].
      * intros [?|(k' & ps' & [[= -> ->]|?] & ? & ?)]; [by left|congruence|right; by exists k', ps'].
Qed.

Lemma find_producers_ok d (category key subkey : bytes) :
  db_ok d →
  ∃ pp, FindProducers range category key subkey d = Some pp ∧ NoDup (id_of d <$> pp) ∧ Forall (filed d) pp ∧
    ∀ i, i ∈ id_of d <$> pp ↔ ∃ k, IsMatch k category key subkey = true ∧ registered d k i.
Proof.
  intros Hok. unfold FindProducers. destruct (needFilter key subkey) eqn:En; cbn [negb].
  - destruct (collect_all_ok d category key subkey (range _ (map_to_list d.(registrationMap))) ∅ [] Hok)
      as (pp & E & Hn & Hf & Hi); [|constructor|by set_solver|constructor|].
    { intros k ps. rewrite range_perm. by rewrite elem_of_map_to_list. }
    exists pp. split_and!; try done. intros i. rewrite Hi. unfold registered. split.
    + intros [?%elem_of_nil|(k & ps & Hin & Hm & [p Hp])]; [done|]. rewrite range_perm, elem_of_map_to_list in Hin.
      exists k. split; [done|]. by exists ps, p.
    + intros (k & Hm & ps & p & Hk & Hp). right. exists k, ps. rewrite range_perm, elem_of_map_to_list. done.
  - eexists. split; [reflexivity|]. set (k := mkReg category key subkey).
    assert (Hk : ∀ i, is_Some (default ∅ (d.(registrationMap) !! k) !! i) ↔
      ∃ k', IsMatch k' category key subkey = true ∧ registered d k' i).
    { intros i. setoid_rewrite IsMatch_exact; [|done]. split.
      - intros [p Hp]. exists k. split; [done|]. destruct (_ !! k) as [ps|] eqn:E; [by exists ps, p|].
        cbn in Hp. by rewrite lookup_empty in Hp.
      - intros (k' & -> & ps & p & Hk & Hp). unfold k. rewrite Hk. by eexists. }
    destruct (d.(registrationMap) !! k) as [ps|] eqn:E.
    + destruct (ProducerMap2Slice_spec d k ps Hok E) as (? & ? & Hi). split_and!; try done.
      intros i. by rewrite <- Hk, <- Hi.
    + cbn [default] in *. unfold ProducerMap2Slice. rewrite map_to_list_empty. cbn.
      assert (Er : range nat [] = []) by (apply Permutation_nil; symmetry; apply range_perm).
      rewrite Er. split_and!; [constructor|constructor|]. intros i. rewrite <- Hk, lookup_empty. cbn.
      rewrite elem_of_nil. split; [done|by intros []].
Qed.

(** A query finds exactly the producers registered for a matching key,
    with or without wildcards, each address once, and dereferences no
    dangling pointer. *)
Theorem find_producers_exact d (category key subkey : bytes) :
  db_ok d →
  ∃ pp, FindProducers range category key subkey d = Some pp ∧ NoDup (id_of d <$> pp) ∧ Forall (filed d) pp ∧
    ∀ i, i ∈ id_of d <$> pp ↔ ∃ k, IsMatch k category key subkey = true ∧ registered d k i.
Proof. apply find_producers_ok. Qed.
End proofs.
End RegDB.
