(* ===== verification/LookupProtocol.v ===== *)
(** * The TCP protocol of nsqlookupd (nsqlookupd/lookup_protocol_v1.go)

    A connection sends command lines; [IOLoop] runs them against the
    registration database until the stream ends, a response cannot be sent or
    a fatal error is returned, and then takes the client's registrations back.
    The connection is its unread input, the writer of its responses, its
    remote address and the [PeerInfo] it identified with. [None] is a panic. *)
From stdpp Require Import base gmap list strings.
From Stdlib Require Import ZArith Lia.
From S2P Require Import Prelude.
From S2P Require Import Text.
From S2P Require Import Message.
From S2P Require Import Wire.
From S2P Require Import RegistrationDB.
Set Default Goal Selector "!".
Local Open Scope Z_scope.

Module LookupProtocol.
Import Wire RegDB.

(** The fields of the JSON body of IDENTIFY. *)
Record identify_body := mkIdentify {
  ib_Hostname : bytes;
  ib_BroadcastAddress : bytes;
  ib_TCPPort : Z;
  ib_HTTPPort : Z;
  ib_Version : bytes;
}.

(** [ClientV1] and its connection. *)
Record ClientV1 (W : Type) := mkClient {
  c_in : bytes;
  c_out : W;
  RemoteAddr : bytes;
  c_peerInfo : option nat;
}.
Arguments mkClient {W} _ _ _ _.
Arguments c_in {W} _.
Arguments c_out {W} _.
Arguments RemoteAddr {W} _.
Arguments c_peerInfo {W} _.

Definition set_c_in {W} (x : bytes) (c : ClientV1 W) := mkClient x c.(c_out) c.(RemoteAddr) c.(c_peerInfo).
Definition set_c_out {W} (x : W) (c : ClientV1 W) := mkClient c.(c_in) x c.(RemoteAddr) c.(c_peerInfo).
Definition set_c_peerInfo {W} (x : option nat) (c : ClientV1 W) := mkClient c.(c_in) c.(c_out) c.(RemoteAddr) x.

Section protocol.
Context {W : Type} `{Writer W}.
Context (range : ∀ A : Type, list A → list A).
(** [json.Unmarshal] into a [PeerInfo], and the marshalled response to
    IDENTIFY ([None]: marshalling failed). *)
Context (unmarshal : bytes → option identify_body) (identify_response : option bytes).

Definition lstate : Type := RegistrationDB * ClientV1 W.
Notation LM := (ST lstate).

(** A method of the database. *)
Definition on_db {A} (m : ST RegistrationDB A) : LM A :=
  '(d, c) ← getST; '(a, d) ← liftST (m d); _ ← putST (d, c); mret a.
Definition upd_client (f : ClientV1 W → ClientV1 W) : LM () := modST (λ '(d, c), (d, f c)).

(** The results of commands: an error or the response. *)
Notation result := (res client_error bytes).

Definition OK : bytes := bytes_of_string "OK".

Definition getTopicChan (command : string) (params : list bytes) : res client_error (bytes * bytes) :=
  match params with
  | [] => Err (FatalClientErr None "E_INVALID" (command +:+ " insufficient number of params"))
  | topicName :: rest =>
    let channelName := match rest with c :: _ => c | [] => [] end in
    if negb (Names.IsValidTopicName topicName)
    then Err (FatalClientErr None "E_BAD_TOPIC" (command +:+ " topic name '" +:+ string_of_bytes topicName +:+ "' is not valid"))
    else if negb (bool_decide (channelName = [])) && negb (Names.IsValidChannelName channelName)
    then Err (FatalClientErr None "E_BAD_CHANNEL" (command +:+ " channel name '" +:+ string_of_bytes channelName +:+ "' is not valid"))
    else Ok (topicName, channelName)
  end.

Definition topic_category : bytes := bytes_of_string "topic".
Definition channel_category : bytes := bytes_of_string "channel".
Definition client_category : bytes := bytes_of_string "client".

(** [DB.AddProducer(key, &Producer{peerInfo: client.peerInfo})] *)
Definition add_producer (k : Registration) (pi : nat) : LM bool :=
  on_db (p ← new_producer (mkProducer pi false 0); AddProducer k p).

Definition REGISTER (params : list bytes) : LM result :=
  '(_, c) ← getST;
  match c.(c_peerInfo) with
  | None => mret (Err (FatalClientErr None "E_INVALID" "client must IDENTIFY"))
  | Some pi =>
    match getTopicChan "REGISTER" params with
    | Err e => mret (Err e)
    | Ok (topic, channel) =>
      _ ← (if bool_decide (channel = []) then mret false
           else add_producer (mkReg channel_category topic channel) pi);
      _ ← add_producer (mkReg topic_category topic []) pi;
      mret (Ok OK)
    end
  end.

Fixpoint remove_all (ks : list Registration) (id : bytes) : LM () :=
  match ks with
  | [] => mret ()
  | k :: ks => _ ← on_db (RemoveProducer k id); remove_all ks id
  end.

(** Removing the last producer of an ephemeral name removes its key. *)
Definition remove_and_prune (key : Registration) (name id : bytes) : LM () :=
  '(_, nleft) ← on_db (RemoveProducer key id);
  if bool_decide (nleft = 0)%nat && Names.HasSuffix name Names.ephemeral_suffix
  then on_db (RemoveRegistration key) else mret ().

Definition UNREGISTER (params : list bytes) : LM result :=
  '(_, c) ← getST;
  match c.(c_peerInfo) with
  | None => mret (Err (FatalClientErr None "E_INVALID" "client must IDENTIFY"))
  | Some pi =>
    match getTopicChan "UNREGISTER" params with
    | Err e => mret (Err e)
    | Ok (topic, channel) =>
      p ← on_db (get_peer pi);
      _ ← (if negb (bool_decide (channel = []))
           then remove_and_prune (mkReg channel_category topic channel) channel p.(id)
           else
             '(d, _) ← getST;
             _ ← remove_all (FindRegistrations range channel_category topic star d) p.(id);
             remove_and_prune (mkReg topic_category topic []) topic p.(id));
      mret (Ok OK)
    end
  end.

(** [io.ReadFull(reader, buf)] for [n] bytes: what could not be filled is
    lost. *)
Definition ReadFull (n : nat) : LM (option bytes) :=
  '(_, c) ← getST;
  if bool_decide (length c.(c_in) < n)%nat then _ ← upd_client (set_c_in []); mret None
  else _ ← upd_client (set_c_in (drop n c.(c_in))); mret (Some (take n c.(c_in))).

Definition IDENTIFY (now : time) : LM result :=
  '(_, c) ← getST;
  match c.(c_peerInfo) with
  | Some _ => mret (Err (FatalClientErr None "E_INVALID" "cannot IDENTIFY again"))
  | None =>
    hd ← ReadFull 4;
    match hd with
    | None => mret (Err (FatalClientErr (Some "EOF"%string) "E_BAD_BODY" "IDENTIFY failed to read body size"))
    | Some hd =>
      let bodyLen := i32 (be_decode hd) in
      (* [make([]byte, bodyLen)] *)
      if bodyLen <? 0 then panic else
      body ← ReadFull (Z.to_nat bodyLen);
      match body with
      | None => mret (Err (FatalClientErr (Some "EOF"%string) "E_BAD_BODY" "IDENTIFY failed to read body"))
      | Some body =>
        match unmarshal body with
        | None => mret (Err (FatalClientErr (Some "json"%string) "E_BAD_BODY" "IDENTIFY failed to decode JSON body"))
        | Some ib =>
          if bool_decide (ib.(ib_BroadcastAddress) = []) || (ib.(ib_TCPPort) =? 0) || (ib.(ib_HTTPPort) =? 0)
             || bool_decide (ib.(ib_Version) = [])
          then mret (Err (FatalClientErr None "E_BAD_BODY" "IDENTIFY missing fields")) else
          let peerInfo := mkPeer (UnixNano now) c.(RemoteAddr) c.(RemoteAddr) ib.(ib_Hostname)
                            ib.(ib_BroadcastAddress) ib.(ib_TCPPort) ib.(ib_HTTPPort) ib.(ib_Version) in
          pi ← on_db (new_peer peerInfo);
          _ ← upd_client (set_c_peerInfo (Some pi));
          _ ← add_producer (mkReg client_category [] []) pi;
          mret (Ok (default OK identify_response))
        end
      end
    end
  end.

Definition PING (now : time) : LM result :=
  '(_, c) ← getST;
  _ ← match c.(c_peerInfo) with
      | Some pi => on_db (p ← get_peer pi; put_peer pi (set_lastUpdate (UnixNano now) p))
      | None => mret ()
      end;
  mret (Ok OK).

Definition is_cmd (w : bytes) (s : string) : bool := bool_decide (w = bytes_of_string s).

Definition Exec (now : time) (params : list bytes) : LM result :=
  match params with
  | [] => panic
  | cmd :: params =>
    if is_cmd cmd "PING" then PING now else
    if is_cmd cmd "IDENTIFY" then IDENTIFY now else
    if is_cmd cmd "REGISTER" then REGISTER params else
    if is_cmd cmd "UNREGISTER" then UNREGISTER params else
    mret (Err (FatalClientErr None "E_INVALID" ("invalid command " +:+ string_of_bytes cmd)))
  end.

(** Sends a response; [false] when the connection failed. *)
Definition send (data : bytes) : LM bool :=
  '(_, c) ← getST;
  let '(w, (_, err)) := SendResponse c.(c_out) data in
  _ ← upd_client (set_c_out w);
  mret (match err with None => true | Some _ => false end).

(** A turn of the loop: [false] when it was the last. *)
Definition IOLoop_turn (now : time) : LM bool :=
  '(_, c) ← getST;
  match ReadString c.(c_in) with
  | None => _ ← upd_client (set_c_in []); mret false
  | Some (line, rest) =>
    _ ← upd_client (set_c_in rest);
    let params := Split.split space (TrimSpace line) in
    response ← Exec now params;
    match response with
    | Err e => sent ← send (Error e); mret (sent && negb (is_fatal e))
    | Ok response => send response
    end
  end.

(** A turn consumes a line of the input, so its length bounds the turns.
    [clock i] is the time of turn [i]. *)
Fixpoint IOLoop_loop (clock : nat → time) (i fuel : nat) : LM () :=
  match fuel with
  | O => panic
  | S fuel =>
    more ← IOLoop_turn (clock i);
    if more : bool then IOLoop_loop clock (S i) fuel else mret ()
  end.

(** What is left of a client when its loop ended is removed. *)
Definition IOLoop_end : LM () :=
  '(d, c) ← getST;
  match c.(c_peerInfo) with
  | None => mret ()
  | Some pi =>
    p ← on_db (get_peer pi);
    remove_all (LookupRegistrations range p.(id) d) p.(id)
  end.

Definition IOLoop (clock : nat → time) : LM () :=
  '(_, c) ← getST;
  _ ← IOLoop_loop clock 0 (S (length c.(c_in)));
  IOLoop_end.

(** [tcpServer.Handle]: the protocol is chosen by the first four bytes. *)
Definition Handle (clock : nat → time) : LM () :=
  buf ← ReadFull 4;
  match buf with
  | None => mret ()
  | Some protocolMagic =>
    if bool_decide (protocolMagic = bytes_of_string "  V1") then IOLoop clock
    else _ ← send (bytes_of_string "E_BAD_PROTOCOL"); mret ()
  end.

End protocol.
End LookupProtocol.
