(* ===== verification/LookupProtocolProps.v ===== *)
(** * What the lookup protocol promises

    REGISTER and UNREGISTER change exactly the registrations they name; a
    session, whatever it sends, never touches the registrations of others and
    leaves none of its own behind; and one crafted IDENTIFY stops the
    process. *)
From stdpp Require Import base gmap list strings.
From Stdlib Require Import ZArith Lia.
From S2P Require Import Prelude.
From S2P Require Import Text.
From S2P Require Import Message.
From S2P Require Import Wire.
From S2P Require Import RegistrationDB.
From S2P Require Import LookupProtocol.
Set Default Goal Selector "!".
Local Open Scope Z_scope.

Module LookupSpec.
Import Wire RegDB LookupProtocol.

Section proofs.
Context {W : Type} `{Writer W}.
Context (range : ∀ A : Type, list A → list A).
Hypothesis range_perm : ∀ A (l : list A), range A l ≡ₚ l.
Implicit Types (d : RegistrationDB) (c : ClientV1 W) (k : Registration).

Lemma on_db_eq {A} (m : ST RegistrationDB A) d c a d' : m d = Some (a, d') → on_db m (d, c) = Some (a, (d', c)).
Proof. intros E. unfold on_db, mbind, ST_bind, getST, liftST. by rewrite E. Qed.

Lemma get_peer_ok pi p d : d.(peers) !! pi = Some p → get_peer pi d = Some (p, d).
Proof. intros Hp. unfold get_peer, mbind, ST_bind, getST, liftST. by rewrite Hp. Qed.

(** ** Adding and removing *)

Lemma new_producer_ok x d : db_ok d → is_Some (d.(peers) !! x.(peerInfo)) →
  ∃ d', new_producer x d = Some (d.(next), d') ∧ db_ok d' ∧ d'.(producers) !! d.(next) = Some x ∧
    d'.(peers) = d.(peers) ∧ d'.(registrationMap) = d.(registrationMap) ∧ d'.(next) = S d.(next).
Proof.
  intros [Hf Hp Hfr] Hx. eexists. split; [reflexivity|]. split; [|by cbn; rewrite lookup_insert_eq].
  split; cbn.
  - intros k ps i p Hk Hi. destruct (Hf k ps i p Hk Hi) as (y & pi & Hy & ? & ?). exists y, pi.
    rewrite lookup_insert_ne; [done|]. intros <-. destruct (Hfr d.(next)) as [? _]; [lia|]. congruence.
  - intros p y. rewrite lookup_insert_Some. intros [[_ <-]|[_ ?]]; [done|by eapply Hp].
  - intros p Hn. destruct (Hfr p) as [? ?]; [lia|]. rewrite lookup_insert_ne by lia. done.
Qed.

Lemma add_producer_ok k pi p d c : db_ok d → d.(peers) !! pi = Some p →
  ∃ b d', add_producer k pi (d, c) = Some (b, (d', c)) ∧ db_ok d' ∧ d'.(peers) = d.(peers) ∧
    ∀ k' i, registered d' k' i ↔ registered d k' i ∨ k' = k ∧ i = p.(id).
Proof.
  intros Hok Hpi. destruct (new_producer_ok (mkProducer pi false 0) d Hok) as (d1 & E1 & Hok1 & Hx & Ep & Er & _); [by eexists|].
  destruct (AddProducer_ok d1 k d.(next) (mkProducer pi false 0) p Hok1 Hx) as (d2 & E2 & Hok2 & Ep2 & _ & _ & Hr & _);
    [cbn; by rewrite Ep|].
  eexists _, d2. split; [|split_and!; [done|by rewrite Ep2|]].
  - unfold add_producer. apply on_db_eq. callST ltac:(exact E1). exact E2.
  - intros k' i. rewrite Hr. unfold registered. by rewrite Er.
Qed.

Lemma remove_all_ok i ks : ∀ d c, db_ok d →
  ∃ d', remove_all ks i (d, c) = Some ((), (d', c)) ∧ db_ok d' ∧ d'.(peers) = d.(peers) ∧
    ∀ k' i', registered d' k' i' ↔ registered d k' i' ∧ ¬ (k' ∈ ks ∧ i' = i).
Proof.
  induction ks as [|k ks IH]; intros d c Hok; cbn [remove_all].
  - exists d. split_and!; try done. intros. rewrite elem_of_nil. naive_solver.
  - destruct (RemoveProducer_ok d k i Hok) as (nl & d1 & E1 & Hok1 & Ep1 & _ & _ & Hr1 & _).
    callST ltac:(exact (on_db_eq _ d c _ d1 E1)). destruct (IH d1 c Hok1) as (d' & E & ? & Ep & Hr).
    exists d'. split_and!; [done|done|by rewrite Ep|]. intros k' i'. rewrite Hr, Hr1, elem_of_cons. naive_solver.
Qed.

Lemma remove_and_prune_ok k nm i d c : db_ok d →
  ∃ d', remove_and_prune k nm i (d, c) = Some ((), (d', c)) ∧ db_ok d' ∧ d'.(peers) = d.(peers) ∧
    ∀ k' i', registered d' k' i' ↔ registered d k' i' ∧ ¬ (k' = k ∧ i' = i).
Proof.
  intros Hok. unfold remove_and_prune.
  destruct (RemoveProducer_ok d k i Hok) as (nl & d1 & E1 & Hok1 & Ep1 & _ & _ & Hr1 & Hnl & _).
  callST ltac:(exact (on_db_eq _ d c _ d1 E1)). destruct (bool_decide (nl = 0)%nat && _) eqn:Eb.
  - apply andb_true_iff in Eb as [Hz%bool_decide_eq_true _].
    destruct (RemoveRegistration_ok d1 k Hok1) as (d2 & E2 & Hok2 & Ep2 & _ & _ & _ & Hr2).
    exists d2. split_and!; [exact (on_db_eq _ d1 c _ d2 E2)|done|by rewrite Ep2|].
    intros k' i'. rewrite Hr2, Hr1. split; [naive_solver|]. intros Hx. split; [done|]. intros ->.
    apply (proj1 Hnl Hz i'). by apply Hr1.
  - exists d1. by split_and!.
Qed.

(** ** Commands *)

(** The client identified itself; its registrations go by its address. *)
Definition identified d c (addr : bytes) (pi : nat) : Prop :=
  c.(c_peerInfo) = Some pi ∧ ∃ p, d.(peers) !! pi = Some p ∧ p.(id) = addr.

(** The keys UNREGISTER takes the client away from. *)
Definition unregistered (topic channel : bytes) k : Prop :=
  if bool_decide (channel = []) then k = mkReg topic_category topic [] ∨ (k.(Category) = channel_category ∧ k.(Key) = topic)
  else k = mkReg channel_category topic channel.

Lemma getTopicChan_ok cmd params t ch : getTopicChan cmd params = Ok (t, ch) →
  Names.IsValidTopicName t = true ∧ (ch = [] ∨ Names.IsValidChannelName ch = true).
Proof.
  unfold getTopicChan. destruct params as [|t' rest]; [done|].
  destruct (Names.IsValidTopicName t') eqn:Et; cbn [negb]; [|done].
  destruct (negb (bool_decide _) && _) eqn:Ec; [done|]. intros [= <- <-]. split; [done|].
  apply andb_false_iff in Ec as [Ec|Ec]; bool_to_prop; [by left|by right].
Qed.

Lemma valid_not_star t : Names.IsValidTopicName t = true → t ≠ star.
Proof. intros Ht ->. by vm_compute in Ht. Qed.

Lemma topic_channels_spec d topic k : Names.IsValidTopicName topic = true →
  k ∈ FindRegistrations range channel_category topic star d ↔
    is_Some (d.(registrationMap) !! k) ∧ k.(Category) = channel_category ∧ k.(Key) = topic.
Proof.
  intros Ht%valid_not_star. rewrite FindRegistrations_spec by done. unfold IsMatch.
  rewrite (bool_decide_eq_false_2 (topic = star)) by done. rewrite (bool_decide_eq_true_2 (star = star)) by done.
  cbn [negb andb]. repeat case_bool_decide; cbn; naive_solver.
Qed.

Lemma register_ok d c addr pi (params : list bytes) :
  db_ok d → identified d c addr pi →
  match getTopicChan "REGISTER" params with
  | Err e => REGISTER params (d, c) = Some (Err e, (d, c))
  | Ok (topic, channel) => ∃ d', REGISTER params (d, c) = Some (Ok OK, (d', c)) ∧ db_ok d' ∧ identified d' c addr pi ∧
      ∀ k i, registered d' k i ↔ registered d k i ∨
        i = addr ∧ (k = mkReg topic_category topic [] ∨ channel ≠ [] ∧ k = mkReg channel_category topic channel)
  end ∧
  match getTopicChan "UNREGISTER" params with
  | Err e => UNREGISTER range params (d, c) = Some (Err e, (d, c))
  | Ok (topic, channel) => ∃ d', UNREGISTER range params (d, c) = Some (Ok OK, (d', c)) ∧ db_ok d' ∧ identified d' c addr pi ∧
      ∀ k i, registered d' k i ↔ registered d k i ∧ ¬ (i = addr ∧ unregistered topic channel k)
  end.
Proof.
  intros Hok (Hc & p & Hpi & Hid). split.
  - unfold REGISTER. destruct (getTopicChan "REGISTER" params) as [[topic channel]|e] eqn:Eg.
    2: { callST ltac:(reflexivity). by rewrite Hc. }
    case_bool_decide as Hch.
    + destruct (add_producer_ok (mkReg topic_category topic []) pi p d c Hok Hpi) as (b & d1 & E1 & Hok1 & Ep1 & Hr1).
      exists d1. split_and!; [|done|split; [done|]; exists p; by rewrite Ep1|].
      * callST ltac:(reflexivity). rewrite Hc. callST ltac:(reflexivity). by callST ltac:(exact E1).
      * intros k i. rewrite Hr1, Hid. naive_solver.
    + destruct (add_producer_ok (mkReg channel_category topic channel) pi p d c Hok Hpi) as (b & d1 & E1 & Hok1 & Ep1 & Hr1).
      destruct (add_producer_ok (mkReg topic_category topic []) pi p d1 c Hok1) as (b2 & d2 & E2 & Hok2 & Ep2 & Hr2); [by rewrite Ep1|].
      exists d2. split_and!; [|done|split; [done|]; exists p; by rewrite Ep2, Ep1|].
      * callST ltac:(reflexivity). rewrite Hc. callST ltac:(exact E1). by callST ltac:(exact E2).
      * intros k i. rewrite Hr2, Hr1, Hid. naive_solver.
  - unfold UNREGISTER. destruct (getTopicChan "UNREGISTER" params) as [[topic channel]|e] eqn:Eg.
    2: { callST ltac:(reflexivity). by rewrite Hc. }
    destruct (getTopicChan_ok _ _ _ _ Eg) as [Ht _]. unfold unregistered. case_bool_decide as Hch; cbn [negb].
    + destruct (remove_all_ok p.(id) (FindRegistrations range channel_category topic star d) d c Hok)
        as (d1 & E1 & Hok1 & Ep1 & Hr1).
      destruct (remove_and_prune_ok (mkReg topic_category topic []) topic p.(id) d1 c Hok1) as (d2 & E2 & Hok2 & Ep2 & Hr2).
      exists d2. split_and!; [|done|split; [done|]; exists p; by rewrite Ep2, Ep1|].
      * callST ltac:(reflexivity). rewrite Hc. callST ltac:(exact (on_db_eq _ d c _ d (get_peer_ok pi p d Hpi))).
        callST ltac:(callST ltac:(reflexivity); callST ltac:(exact E1); exact E2). done.
      * intros k i. rewrite Hr2, Hr1, Hid, topic_channels_spec by done. split.
        -- intros [[Hr Hn1] Hn2]. split; [done|]. intros [-> [->|[? ?]]]; [by apply Hn2|]. apply Hn1.
           split; [|done]. split; [|done]. destruct Hr as (ps & q & Hk & _). by eexists.
        -- intros [Hr Hn]. split; [split; [done|]|]; intros [? ?]; naive_solver.
    + destruct (remove_and_prune_ok (mkReg channel_category topic channel) channel p.(id) d c Hok) as (d2 & E2 & Hok2 & Ep2 & Hr2).
      exists d2. split_and!; [|done|split; [done|]; exists p; by rewrite Ep2|].
      * callST ltac:(reflexivity). rewrite Hc. callST ltac:(exact (on_db_eq _ d c _ d (get_peer_ok pi p d Hpi))).
        callST ltac:(exact E2). done.
      * intros k i. rewrite Hr2, Hid. naive_solver.
Qed.

(** REGISTER and UNREGISTER change exactly the registrations they name:
    a topic, with a channel also that, for this client alone; UNREGISTER of a
    topic takes the client off all of its channels too. Bad names and
    clients that did not identify themselves change nothing. *)
Theorem register_exact d c addr pi (params : list bytes) :
  db_ok d → identified d c addr pi →
  match getTopicChan "REGISTER" params with
  | Err e => REGISTER params (d, c) = Some (Err e, (d, c))
  | Ok (topic, channel) => ∃ d', REGISTER params (d, c) = Some (Ok OK, (d', c)) ∧ db_ok d' ∧ identified d' c addr pi ∧
      ∀ k i, registered d' k i ↔ registered d k i ∨
        i = addr ∧ (k = mkReg topic_category topic [] ∨ channel ≠ [] ∧ k = mkReg channel_category topic channel)
  end ∧
  match getTopicChan "UNREGISTER" params with
  | Err e => UNREGISTER range params (d, c) = Some (Err e, (d, c))
  | Ok (topic, channel) => ∃ d', UNREGISTER range params (d, c) = Some (Ok OK, (d', c)) ∧ db_ok d' ∧ identified d' c addr pi ∧
      ∀ k i, registered d' k i ↔ registered d k i ∧ ¬ (i = addr ∧ unregistered topic channel k)
  end.
Proof. apply register_ok. Qed.

Lemma new_peer_ok x d : db_ok d →
  ∃ d', new_peer x d = Some (d.(next), d') ∧ db_ok d' ∧ d'.(peers) = <[d.(next) := x]> d.(peers) ∧
    d'.(registrationMap) = d.(registrationMap).
Proof.
  intros [Hf Hp Hfr]. eexists. split; [reflexivity|]. split; [|done].
  assert (Hkeep : ∀ q y, d.(peers) !! q = Some y → <[d.(next) := x]> d.(peers) !! q = Some y).
  { intros q y Hq. rewrite lookup_insert_ne; [done|]. intros <-. destruct (Hfr d.(next)) as [_ ?]; [lia|]. congruence. }
  split; cbn.
  - intros k ps i p Hk Hi. destruct (Hf k ps i p Hk Hi) as (y & pi & ? & ? & ?). exists y, pi. auto.
  - intros p y Hy. destruct (Hp p y Hy) as [pi ?]. exists pi. auto.
  - intros p Hn. destruct (Hfr p) as [? ?]; [lia|]. rewrite lookup_insert_ne by lia. done.
Qed.

(** ** Sessions *)

Section session.
Context (unmarshal : bytes → option identify_body) (identify_response : option bytes).
(** The database and the address the session starts with. *)
Context (d0 : RegistrationDB) (addr : bytes).

Record session (s : RegistrationDB * ClientV1 W) : Prop := {
  ss_ok : db_ok s.1;
  ss_addr : s.2.(RemoteAddr) = addr;
  ss_self : match s.2.(c_peerInfo) with
            | None => ∀ k, ¬ registered s.1 k addr
            | Some pi => ∃ p, s.1.(peers) !! pi = Some p ∧ p.(id) = addr
            end;
  ss_others : ∀ k i, i ≠ addr → registered s.1 k i ↔ registered d0 k i;
}.

(** The input has four bytes that read as a negative size. *)
Definition negative_size (s : bytes) : Prop :=
  ∃ pre hd post, s = pre ++ hd ++ post ∧ length hd = 4%nat ∧ i32 (be_decode hd) < 0.

Lemma negative_size_suffix s s' : s' `suffix_of` s → negative_size s' → negative_size s.
Proof.
  intros [k ->] (pre & hd & post & -> & ? & ?). exists (k ++ pre), hd, post. by rewrite <- app_assoc.
Qed.

(** What running [m] in [s] comes to: it panics on a negative size, or goes on
    with the session. *)
Definition goes_on {A} (m : ST (RegistrationDB * ClientV1 W) A) (s : RegistrationDB * ClientV1 W) : Prop :=
  (m s = None ∧ negative_size s.2.(c_in)) ∨
  ∃ a s', m s = Some (a, s') ∧ session s' ∧ s'.2.(c_in) `suffix_of` s.2.(c_in).

Lemma goes_on_ret {A} (a : A) s : session s → goes_on (mret a) s.
Proof. intros Hs. right. by exists a, s. Qed.

Lemma goes_on_bind {A B} (m : ST _ A) (f : A → ST _ B) s a s' :
  m s = Some (a, s') → s'.2.(c_in) `suffix_of` s.2.(c_in) → goes_on (f a) s' → goes_on (m ≫= f) s.
Proof.
  intros E Hsuf. unfold goes_on. rewrite (ST_bind_eq _ f _ _ _ E). intros [[E' Hn]|(b & s2 & E' & Hs & Hsuf')].
  - left. split; [done|]. by eapply negative_size_suffix.
  - right. exists b, s2. split_and!; [done|done|]. by etransitivity.
Qed.

Lemma goes_on_get {B} (f : RegistrationDB * ClientV1 W → ST _ B) s : goes_on (f s) s → goes_on (getST ≫= f) s.
Proof. done. Qed.

Lemma session_db d d' c : session (d, c) → db_ok d' →
  (∀ pi p, d.(peers) !! pi = Some p → ∃ p', d'.(peers) !! pi = Some p' ∧ p'.(id) = p.(id)) →
  (∀ k i, i ≠ addr → registered d' k i ↔ registered d k i) →
  (c.(c_peerInfo) = None → ∀ k, registered d' k addr → registered d k addr) → session (d', c).
Proof.
  intros [Sk Sa Ss So] Hok Hp Ho Hn. cbn in *. split; cbn; [done|done| |].
  - destruct (c_peerInfo c) as [pi|].
    + destruct Ss as (p & Hpi & <-). destruct (Hp pi p Hpi) as (p' & ? & ?). by exists p'.
    + intros k Hk. by apply (Ss k), Hn.
  - intros k i Hi. by rewrite Ho, So.
Qed.

Lemma session_in d c s : session (d, c) → session (d, set_c_in s c).
Proof. intros [? ? ? ?]. by split. Qed.

Lemma session_out d c w : session (d, c) → session (d, set_c_out w c).
Proof. intros [? ? ? ?]. by split. Qed.

Lemma take_bytes_ok n d c :
  ∃ r rest, ReadFull n (d, c) = Some (r, (d, set_c_in rest c)) ∧ rest `suffix_of` c.(c_in) ∧
    match r with Some b => c.(c_in) = b ++ rest ∧ length b = n | None => True end.
Proof.
  unfold ReadFull. destruct (decide (length c.(c_in) < n)%nat) as [Hlen|Hlen].
  - exists None, []. split_and!; [|by apply suffix_nil|done]. callST ltac:(reflexivity).
    by rewrite bool_decide_eq_true_2 by done.
  - exists (Some (take n c.(c_in))), (drop n c.(c_in)). split_and!.
    + callST ltac:(reflexivity). by rewrite bool_decide_eq_false_2 by done.
    + exists (take n c.(c_in)). by rewrite take_drop.
    + by rewrite take_drop.
    + rewrite length_take. lia.
Qed.

Lemma PING_goes_on now d c : session (d, c) → goes_on (PING now) (d, c).
Proof.
  intros Hs. unfold PING. apply goes_on_get. destruct (c_peerInfo c) as [pi|] eqn:Ec.
  - pose proof (ss_self _ Hs) as Hself. cbn in Hself. rewrite Ec in Hself. destruct Hself as (p & Hp & Hid).
    set (d' := mkDB (<[pi := set_lastUpdate (UnixNano now) p]> d.(peers)) d.(producers) d.(next) d.(registrationMap)).
    eapply (goes_on_bind _ _ _ () (d', c)); [|done|apply goes_on_ret].
    + apply on_db_eq. callST ltac:(exact (get_peer_ok pi p d Hp)). done.
    + assert (Hpeer : ∀ q y, d.(peers) !! q = Some y → ∃ y', d'.(peers) !! q = Some y' ∧ y'.(id) = y.(id)).
      { intros q y Hq. cbn. destruct (decide (q = pi)) as [->|]; [|exists y; by rewrite lookup_insert_ne].
        simplify_eq. eexists. rewrite lookup_insert_eq. by split. }
      eapply session_db; [exact Hs| |exact Hpeer|done|done].
      destruct (ss_ok _ Hs) as [Hf Hp' Hfr]. cbn in *. split; cbn.
      * intros k ps i q Hk Hi. destruct (Hf k ps i q Hk Hi) as (x & y & Hx & Hy & Hyi).
        destruct (Hpeer _ _ Hy) as (y' & Hy' & Hyi'). exists x, y'. split_and!; [done|exact Hy'|congruence].
      * intros q x Hx. destruct (Hp' q x Hx) as [y Hy]. destruct (Hpeer _ _ Hy) as (y' & Hy' & _). by exists y'.
      * intros q Hq. destruct (Hfr q Hq) as [? ?]. split; [done|]. rewrite lookup_insert_ne; [done|]. intros <-. congruence.
  - eapply (goes_on_bind _ _ _ () (d, c)); [done|done|by apply goes_on_ret].
Qed.

(** The last steps of IDENTIFY. *)
Lemma identify_store_goes_on x d c (r : res client_error bytes) :
  session (d, c) → c.(c_peerInfo) = None → x.(id) = addr →
  goes_on (A := res client_error bytes) (pi ← on_db (new_peer x); _ ← upd_client (set_c_peerInfo (Some pi));
           _ ← add_producer (mkReg client_category [] []) pi; mret r) (d, c).
Proof.
  intros Hs Hc Hx. destruct (new_peer_ok x d (ss_ok _ Hs)) as (d1 & E1 & Hok1 & Ep1 & Er1).
  eapply goes_on_bind; [apply on_db_eq; exact E1|done|].
  set (c1 := set_c_peerInfo (Some d.(next)) c).
  eapply (goes_on_bind _ _ _ () (d1, c1)); [done|done|].
  assert (Hpi : d1.(peers) !! d.(next) = Some x) by (rewrite Ep1; by rewrite lookup_insert_eq).
  destruct (add_producer_ok (mkReg client_category [] []) d.(next) x d1 c1 Hok1 Hpi) as (b & d2 & E2 & Hok2 & Ep2 & Hr2).
  eapply goes_on_bind; [exact E2|done|]. apply goes_on_ret. destruct Hs as [_ Sa _ So]. split; cbn in *; [done|done| |].
  - exists x. by rewrite Ep2.
  - intros k i Hi. rewrite Hr2, <- So by done. unfold registered. rewrite Er1. naive_solver.
Qed.

Lemma IDENTIFY_goes_on now d c : session (d, c) → goes_on (IDENTIFY unmarshal identify_response now) (d, c).
Proof.
  intros Hs. unfold IDENTIFY. apply goes_on_get. destruct (c_peerInfo c) as [pi|] eqn:Ec; [by apply goes_on_ret|].
  destruct (take_bytes_ok 4 d c) as (hd & rest & E1 & Hsuf & Hhd).
  destruct hd as [hd|].
  2: { eapply goes_on_bind; [exact E1|exact Hsuf|]. apply goes_on_ret. by apply session_in. }
  destruct Hhd as [Hin Hlen]. assert (Hs1 := session_in d c rest Hs).
  destruct (i32 (be_decode hd) <? 0) eqn:Eneg.
  - left. split; [|bool_to_prop; by exists [], hd, rest]. callST ltac:(exact E1). by rewrite Eneg.
  - eapply goes_on_bind; [exact E1|exact Hsuf|]. cbv beta iota. rewrite Eneg.
    destruct (take_bytes_ok (Z.to_nat (i32 (be_decode hd))) d (set_c_in rest c)) as (body & rest' & E2 & Hsuf2 & _).
    eapply goes_on_bind; [exact E2|exact Hsuf2|]. assert (Hs2 := session_in d (set_c_in rest c) rest' Hs1).
    destruct body as [body|]; [|by apply goes_on_ret].
    destruct (unmarshal body) as [ib|]; [|by apply goes_on_ret].
    destruct (_ || _); [by apply goes_on_ret|].
    apply identify_store_goes_on; [done|done|]. exact (ss_addr _ Hs).
Qed.

Lemma REGISTER_goes_on params d c : session (d, c) → goes_on (REGISTER params) (d, c).
Proof.
  intros Hs. destruct (c_peerInfo c) as [pi|] eqn:Ec.
  - pose proof (ss_self _ Hs) as Hid. cbn in Hid. rewrite Ec in Hid.
    destruct (register_ok d c addr pi params (ss_ok _ Hs)) as [Hreg _]; [by split|].
    destruct (getTopicChan "REGISTER" params) as [[t ch]|e].
    + destruct Hreg as (d' & E & Hok & [_ Hid'] & Hr). right. eexists _, (d', c). split; [exact E|]. split; [|done].
      destruct Hs as [_ Sa _ So]. split; cbn in *; [done|done|by rewrite Ec|].
      intros k i Hi. rewrite Hr, <- So by done. naive_solver.
    + right. eexists _, (d, c). by split_and!.
  - unfold REGISTER. apply goes_on_get. rewrite Ec. by apply goes_on_ret.
Qed.

Lemma UNREGISTER_goes_on params d c : session (d, c) → goes_on (UNREGISTER range params) (d, c).
Proof.
  intros Hs. destruct (c_peerInfo c) as [pi|] eqn:Ec.
  - pose proof (ss_self _ Hs) as Hid. cbn in Hid. rewrite Ec in Hid.
    destruct (register_ok d c addr pi params (ss_ok _ Hs)) as [_ Hreg]; [by split|].
    destruct (getTopicChan "UNREGISTER" params) as [[t ch]|e].
    + destruct Hreg as (d' & E & Hok & [_ Hid'] & Hr). right. eexists _, (d', c). split; [exact E|]. split; [|done].
      destruct Hs as [_ Sa _ So]. split; cbn in *; [done|done|by rewrite Ec|].
      intros k i Hi. rewrite Hr, <- So by done. naive_solver.
    + right. eexists _, (d, c). by split_and!.
  - unfold UNREGISTER. apply goes_on_get. rewrite Ec. by apply goes_on_ret.
Qed.

Lemma Exec_goes_on now params s : params ≠ [] → session s →
  goes_on (Exec range unmarshal identify_response now params) s.
Proof.
  destruct s as [d c]. intros Hne Hs. destruct params as [|cmd params]; [done|]. cbn [Exec].
  destruct (is_cmd cmd "PING"); [by apply PING_goes_on|].
  destruct (is_cmd cmd "IDENTIFY"); [by apply IDENTIFY_goes_on|].
  destruct (is_cmd cmd "REGISTER"); [by apply REGISTER_goes_on|].
  destruct (is_cmd cmd "UNREGISTER"); [by apply UNREGISTER_goes_on|]. by apply goes_on_ret.
Qed.

Lemma send_ok data d c :
  ∃ b w, send data (d, c) = Some (b, (d, set_c_out w c)).
Proof.
  unfold send. destruct (SendResponse c.(c_out) data) as [w [n err]] eqn:E. eexists _, w.
  callST ltac:(reflexivity). rewrite E. by callST ltac:(reflexivity).
Qed.

(** Going on with whatever [m] ended in. *)
Lemma goes_on_seq {A B} (m : ST _ A) (f : A → ST _ B) s :
  goes_on m s → (∀ a s', m s = Some (a, s') → session s' → s'.2.(c_in) `suffix_of` s.2.(c_in) → goes_on (f a) s') →
  goes_on (m ≫= f) s.
Proof.
  intros [[E Hn]|(a & s' & E & Hs & Hsuf)] Hf.
  - left. split; [|done]. unfold mbind, ST_bind. by rewrite E.
  - eapply goes_on_bind; [exact E|done|]. by apply Hf.
Qed.

Lemma ReadString_app s line rest : ReadString s = Some (line, rest) → s = line ++ rest ∧ (0 < length line)%nat.
Proof.
  revert line rest. induction s as [|b s IH]; intros line rest; cbn; [done|]. case_bool_decide.
  - intros [= <- <-]. cbn. split; [done|lia].
  - destruct (ReadString s) as [[l r]|]; cbn; [|done]. intros [= <- <-].
    destruct (IH l r eq_refl) as [-> _]. split; [done|]. cbn. lia.
Qed.

Lemma send_goes_on data (b : bool) s : session s → goes_on (sent ← send data; mret (sent && b)) s.
Proof.
  destruct s as [d c]. intros Hs. destruct (send_ok data d c) as (sent & w & E). eapply goes_on_bind; [exact E|done|].
  apply goes_on_ret. by apply session_out.
Qed.

Lemma response_goes_on (r : res client_error bytes) s : session s →
  goes_on (match r with Err e => sent ← send (Error e); mret (sent && negb (is_fatal e)) | Ok response => send response end) s.
Proof.
  destruct s as [d c]. intros Hs. destruct r as [response|e]; [|by apply send_goes_on].
  destruct (send_ok response d c) as (sent & w & E). right. exists sent, (d, set_c_out w c).
  split; [exact E|]. split; [by apply session_out|done].
Qed.

(** A turn that goes on has read something. *)
Lemma IOLoop_turn_goes_on now s : session s → goes_on (IOLoop_turn range unmarshal identify_response now) s ∧
  ∀ s', IOLoop_turn range unmarshal identify_response now s = Some (true, s') → (length s'.2.(c_in) < length s.2.(c_in))%nat.
Proof.
  destruct s as [d c]. intros Hs. unfold IOLoop_turn. cbn [snd].
  destruct (ReadString c.(c_in)) as [[line rest]|] eqn:Er.
  - destruct (ReadString_app _ _ _ Er) as [Ein Hline]. set (s1 := (d, set_c_in rest c)).
    assert (Hs1 : session s1) by by apply session_in.
    match goal with |- goes_on (getST ≫= ?f) _ ∧ _ =>
      assert (Hbody : ∃ body, goes_on body s1 ∧ f (d, c) = (_ ← upd_client (set_c_in rest); body)) end.
    { cbv beta iota. rewrite Er. eexists. split; [|reflexivity].
      apply goes_on_seq; [apply Exec_goes_on; [apply Split.split_not_nil|done]|]. intros r s2 _ Hs2 _. by apply response_goes_on. }
    destruct Hbody as (body & Hbody & Ef). split.
    + apply goes_on_get. rewrite Ef. eapply (goes_on_bind _ _ _ () s1); [done|cbn; rewrite Ein; by eexists|done].
    + intros s'. unfold mbind at 1, ST_bind at 1. unfold getST at 1. rewrite Ef. unfold mbind, ST_bind, upd_client, modST. cbn. intros E.
      destruct Hbody as [[En _]|(a & s2 & E2 & _ & Hsuf)]; [fold s1 in E; congruence|]. fold s1 in E. rewrite E2 in E.
      injection E as -> ->. apply suffix_length in Hsuf. cbn in Hsuf. rewrite Ein, length_app. lia.
  - split.
    + apply goes_on_get. rewrite Er. eapply (goes_on_bind _ _ _ () (d, set_c_in [] c)); [done|by apply suffix_nil|]. apply goes_on_ret. by apply session_in.
    + intros s'. unfold mbind, ST_bind, getST, upd_client, modST. by rewrite Er.
Qed.

Lemma IOLoop_loop_goes_on clock fuel : ∀ i s, session s → (length s.2.(c_in) < fuel)%nat →
  goes_on (IOLoop_loop range unmarshal identify_response clock i fuel) s.
Proof.
  induction fuel as [|fuel IH]; intros i s Hs Hlen; [lia|]. cbn [IOLoop_loop].
  destruct (IOLoop_turn_goes_on (clock i) s Hs) as [Ht Hdec]. apply goes_on_seq; [exact Ht|].
  intros more s' E Hs' _. destruct more; [|by apply goes_on_ret]. apply IH; [done|]. specialize (Hdec s' E). lia.
Qed.
End session.

(** The end of a session removes the client, and nothing else. *)
Lemma IOLoop_end_ok d c addr : db_ok d → c.(RemoteAddr) = addr →
  match c.(c_peerInfo) with
  | Some pi => identified d c addr pi
  | None => ∀ k, ¬ registered d k addr
  end →
  ∃ d', IOLoop_end range (d, c) = Some ((), (d', c)) ∧ db_ok d' ∧ d'.(peers) = d.(peers) ∧ (∀ k, ¬ registered d' k addr) ∧
    ∀ k i, i ≠ addr → registered d' k i ↔ registered d k i.
Proof.
  intros Hok Ha Hc. unfold IOLoop_end. destruct (c_peerInfo c) as [pi|] eqn:Ec.
  - destruct Hc as (_ & p & Hp & Hid).
    destruct (remove_all_ok p.(id) (LookupRegistrations range p.(id) d) d c Hok) as (d2 & E2 & Hok2 & Ep2 & Hr2).
    exists d2. split_and!; [|done|done| |].
    + callST ltac:(reflexivity). rewrite Ec. callST ltac:(exact (on_db_eq _ d c _ d (get_peer_ok pi p d Hp))). exact E2.
    + intros k Hk%Hr2. rewrite LookupRegistrations_spec, Hid in Hk by done. naive_solver.
    + intros k i Hi. rewrite Hr2, Hid by done. naive_solver.
  - exists d. split_and!; [|done..]. callST ltac:(reflexivity). by rewrite Ec.
Qed.

(** C33: A session, whatever it sends and whenever it ends, stops the process
    only when it sends four bytes that read as a negative size; otherwise the
    loop ends, nothing of the client is left in the database, and what every
    other client registered is as it was. *)
Theorem session_isolated unmarshal identify_response clock d (input : bytes) (w : W) (addr : bytes) :
  db_ok d → (∀ k, ¬ registered d k addr) →
  (IOLoop range unmarshal identify_response clock (d, mkClient input w addr None) = None ∧ negative_size input) ∨
  ∃ d' c', IOLoop range unmarshal identify_response clock (d, mkClient input w addr None) = Some ((), (d', c')) ∧
    db_ok d' ∧ (∀ k, ¬ registered d' k addr) ∧ ∀ k i, i ≠ addr → registered d' k i ↔ registered d k i.
Proof.
  intros Hok Hnew. set (c := mkClient input w addr None).
  assert (Hs : session d addr (d, c)) by by split.
  unfold IOLoop. destruct (IOLoop_loop_goes_on unmarshal identify_response d addr clock (S (length c.(c_in))) 0 (d, c) Hs)
    as [[E Hn]|(u & [d1 c1] & E & [Sk Sa Ss So] & _)]; [cbn; lia| |].
  - left. split; [|exact Hn]. callST ltac:(reflexivity). unfold mbind, ST_bind. by rewrite E.
  - right. cbn [fst snd] in *. destruct (IOLoop_end_ok d1 c1 addr Sk Sa) as (d2 & E2 & Hok2 & _ & Hself & Hothers).
    { destruct (c_peerInfo c1) eqn:Ec; [by split|done]. }
    exists d2, c1. split_and!; [|done|done|].
    + callST ltac:(reflexivity). callST ltac:(exact E). exact E2.
    + intros k i Hi. by rewrite Hothers, So.
Qed.

(** A client whose first command is IDENTIFY with a negative body size
    stops the process: the buffer for the body cannot be made. *)
Theorem identify_negative_panics unmarshal identify_response clock d (hd rest : bytes) (w : W) (addr : bytes) :
  length hd = 4%nat → i32 (be_decode hd) < 0 →
  IOLoop range unmarshal identify_response clock
    (d, mkClient (bytes_of_string "IDENTIFY" ++ newline :: hd ++ rest) w addr None) = None.
Proof.
  intros Hlen Hneg. unfold IOLoop. set (c := mkClient _ w addr None). callST ltac:(reflexivity).
  unfold mbind at 1, ST_bind at 1. cbn [IOLoop_loop].
  assert (Er : ReadString c.(c_in) = Some (bytes_of_string "IDENTIFY" ++ [newline], hd ++ rest)) by reflexivity.
  set (c1 := set_c_in (hd ++ rest) c).
  enough (E : IDENTIFY unmarshal identify_response (clock 0%nat) (d, c1) = None).
  { enough (Et : IOLoop_turn range unmarshal identify_response (clock 0%nat) (d, c) = None) by (unfold mbind at 1, ST_bind at 1; by rewrite Et).
    unfold IOLoop_turn. callST ltac:(reflexivity). rewrite Er. callST ltac:(reflexivity). unfold mbind at 1, ST_bind at 1.
    replace (Split.split space (TrimSpace (bytes_of_string "IDENTIFY" ++ [newline]))) with [bytes_of_string "IDENTIFY"] by by vm_compute.
    change (Exec range unmarshal identify_response (clock 0%nat) [bytes_of_string "IDENTIFY"] (d, set_c_in (hd ++ rest) c))
      with (IDENTIFY unmarshal identify_response (clock 0%nat) (d, c1)). by rewrite E. }
  unfold IDENTIFY. callST ltac:(reflexivity). cbn [c_peerInfo c1 set_c_in c].
  assert (Ef : ReadFull 4 (d, c1) = Some (Some hd, (d, set_c_in rest c1))).
  { unfold ReadFull. callST ltac:(reflexivity). rewrite bool_decide_eq_false_2.
    2: { unfold c1. cbn [c_in set_c_in]. rewrite length_app. lia. }
    callST ltac:(reflexivity). unfold c1. cbn [c_in set_c_in]. by rewrite take_app_length', drop_app_length' by done. }
  callST ltac:(exact Ef). rewrite (proj2 (Z.ltb_lt _ _) Hneg). done.
Qed.
End proofs.
End LookupSpec.
