(* ===== verification/LookupHTTP.v ===== *)
(** * The HTTP interface of nsqlookupd (nsqlookupd/http.go)

    Each handler with its parameter checks, on the registration database. The
    queries and updates of one request run one after the other. [doLookup]
    calls [FindRegistlrations], a method that does not exist; it is taken as
    [FindRegistrations]. *)
From stdpp Require Import base gmap list strings.
From Stdlib Require Import ZArith Lia.
From S2P Require Import Prelude.
From S2P Require Import Decimal.
From S2P Require Import Text.
From S2P Require Import Message.
From S2P Require Import Wire.
From S2P Require Import HttpApi.
From S2P Require Import RegistrationDB.
From S2P Require Import LookupProtocol.
Set Default Goal Selector "!".
Local Open Scope Z_scope.

Module LookupHTTP.
Import Wire HttpApi RegDB LookupProtocol.

Record node := mkNode {
  n_RemoteAddress : bytes;
  n_Hostname : bytes;
  n_BroadcastAddress : bytes;
  n_TCPPort : Z;
  n_HTTPPort : Z;
  n_Version : bytes;
  n_Tombstones : list bool;
  n_Topics : list bytes;
}.

(** An entry of [doDebug]. *)
Record debug_entry := mkDebug {
  de_peer : PeerInfo;  (* id, hostname, addresses, ports, version, last_update *)
  de_tombstoned : bool;
  de_tombstoned_at : Z;
}.

(** The values the handlers marshal. *)
Inductive json :=
| JInfo (version : bytes)
| JTopics (topics : list bytes)
| JChannels (channels : list bytes)
| JLookup (channels : list bytes) (producers : list PeerInfo)
| JNodes (producers : list node)
| JDebug (entries : gmap (list Byte.byte) (list debug_entry)).

Definition version_Binary : bytes := bytes_of_string "1.1.1-alpha".

Section handlers.
Context (range : ∀ A : Type, list A → list A).
(** [s.ctx.nsqlookupd.opts] *)
Context (InactiveProducerTimeout TombstoneLifetime : duration).
(** The readings of the clock. *)
Context (now : time) (clock : nat → time).

Notation DM := (ST RegistrationDB).
Notation result := (handler_result json).

Definition bad (code : Z) (text : string) : result := Prelude.Err (mkErr code text).
Notation ok d := (Prelude.Ok d).

(** [NewReqParams], then [Get] of a key, with their errors. *)
Definition with_params (req : request) (f : ReqParams → DM result) : DM result :=
  match NewReqParams req with
  | None => mret (bad 400 "INVALID_REQUEST")
  | Some rp => f rp
  end.
Definition with_arg (rp : ReqParams) (key missing : string) (f : bytes → DM result) : DM result :=
  v ← liftST (ReqParams_Get rp (bytes_of_string key));
  match v with
  | Prelude.Err _ => mret (bad 400 missing)
  | Ok v => f v
  end.

(** [http_api.GetTopicChannelArgs], whose reads of parameters may panic. *)
Definition topic_channel_args (rp : ReqParams) : DM (res string (bytes * bytes)) :=
  t ← liftST (ReqParams_Get rp (bytes_of_string "topic"));
  c ← liftST (ReqParams_Get rp (bytes_of_string "channel"));
  mret (GetTopicChannelArgs (λ key, if bool_decide (key = bytes_of_string "topic") then t else c)).

Definition pingHandler (req : request) : DM result := mret (ok (DString (bytes_of_string "OK"))).

Definition doInfo (req : request) : DM result := mret (ok (DJson (JInfo version_Binary))).

Definition doTopics (req : request) : DM result :=
  d ← getST;
  mret (ok (DJson (JTopics (Keys (FindRegistrations range topic_category star [] d))))).

Definition doChannels (req : request) : DM result :=
  with_params req (λ rp,
  with_arg rp "topic" "MISSING_ARG_TOPIC" (λ topicName,
  d ← getST;
  mret (ok (DJson (JChannels (SubKeys (FindRegistrations range channel_category topicName star d))))))).

Definition doLookup (req : request) : DM result :=
  with_params req (λ rp,
  with_arg rp "topic" "MISSING_ARG_TOPIC" (λ topicName,
  d ← getST;
  if bool_decide (FindRegistrations range topic_category topicName [] d = []) then mret (bad 404 "TOPIC_NOT_FOUND") else
  let channels := SubKeys (FindRegistrations range channel_category topicName star d) in
  producers ← liftST (FindProducers range topic_category topicName [] d);
  producers ← liftST (FilterByActive now clock InactiveProducerTimeout TombstoneLifetime d producers);
  infos ← liftST (PeerInfos d producers);
  infos ← liftST (mapM (λ pi, d.(peers) !! pi) infos);
  mret (ok (DJson (JLookup channels infos))))).

Definition doCreateTopic (req : request) : DM result :=
  with_params req (λ rp,
  with_arg rp "topic" "MISSING_ARG_TOPIC" (λ topicName,
  if negb (Names.IsValidTopicName topicName) then mret (bad 400 "INVALID_ARG_TOPIC") else
  _ ← AddRegistration (mkReg topic_category topicName []);
  mret (ok DNil))).

Fixpoint remove_registrations (rr : list Registration) : DM () :=
  match rr with
  | [] => mret ()
  | r :: rr => _ ← RemoveRegistration r; remove_registrations rr
  end.

Definition doDeleteTopic (req : request) : DM result :=
  with_params req (λ rp,
  with_arg rp "topic" "MISSING_ARG_TOPIC" (λ topicName,
  d ← getST;
  _ ← remove_registrations (FindRegistrations range channel_category topicName star d);
  d ← getST;
  _ ← remove_registrations (FindRegistrations range topic_category topicName [] d);
  mret (ok DNil))).

(** [fmt.Sprintf("%s:%d", p.peerInfo.BroadcastAddress, p.peerInfo.HTTPPort)] *)
Definition node_name (pi : PeerInfo) : bytes :=
  pi.(BroadcastAddress) ++ bytes_of_string ":" ++ Decimal.fmt_d pi.(HTTPPort).

(** [clock i] is the time at which producer [i] is marked. *)
Fixpoint tombstone_all (node : bytes) (i : nat) (pp : list nat) : DM () :=
  match pp with
  | [] => mret ()
  | p :: pp =>
    x ← get_producer p; pi ← get_peer x.(peerInfo);
    _ ← (if bool_decide (node_name pi = node) then Tombstone (clock i) p else mret ());
    tombstone_all node (S i) pp
  end.

Definition doTombstoneTopicProducer (req : request) : DM result :=
  with_params req (λ rp,
  with_arg rp "topic" "MISSING_ARG_TOPIC" (λ topicName,
  with_arg rp "node" "MISSING_ARG_NODE" (λ node,
  d ← getST;
  producers ← liftST (FindProducers range topic_category topicName [] d);
  _ ← tombstone_all node 0 producers;
  mret (ok DNil)))).

Definition doCreateChannel (req : request) : DM result :=
  with_params req (λ rp,
  args ← topic_channel_args rp;
  match args with
  | Prelude.Err e => mret (bad 400 e)
  | Ok (topicName, channelName) =>
    _ ← AddRegistration (mkReg channel_category topicName channelName);
    _ ← AddRegistration (mkReg topic_category topicName []);
    mret (ok DNil)
  end).

Definition doDeleteChannel (req : request) : DM result :=
  with_params req (λ rp,
  args ← topic_channel_args rp;
  match args with
  | Prelude.Err e => mret (bad 400 e)
  | Ok (topicName, channelName) =>
    d ← getST;
    let registrations := FindRegistrations range channel_category topicName channelName d in
    if bool_decide (registrations = []) then mret (bad 404 "CHANNEL_NOT_FOUND") else
    _ ← remove_registrations registrations;
    mret (ok DNil)
  end).

(** The producer of a topic that shares the client's [PeerInfo]: whether it is
    tombstoned; [false] when there is none. *)
Fixpoint topic_tombstone (d : RegistrationDB) (t : time) (pi : nat) (tps : list nat) : option bool :=
  match tps with
  | [] => Some false
  | tp :: tps =>
    x ← d.(producers) !! tp;
    if bool_decide (x.(peerInfo) = pi) then Some (IsTombstoned t TombstoneLifetime x)
    else topic_tombstone d t pi tps
  end.

(** The producers of a topic are looked up once per request. *)
Fixpoint node_tombstones (d : RegistrationDB) (t : time) (pi : nat) (topics : list bytes)
    (cache : gmap (list Byte.byte) (list nat)) : option (list bool * gmap (list Byte.byte) (list nat)) :=
  match topics with
  | [] => Some ([], cache)
  | topic :: topics =>
    cache ← match cache !! topic with
            | Some _ => Some cache
            | None => pp ← FindProducers range topic_category topic [] d; Some (<[topic := pp]> cache)
            end;
    b ← topic_tombstone d t pi (default [] (cache !! topic));
    '(bs, cache) ← node_tombstones d t pi topics cache;
    Some (b :: bs, cache)
  end.

Fixpoint make_nodes (d : RegistrationDB) (i : nat) (pp : list nat) (cache : gmap (list Byte.byte) (list nat)) : option (list node) :=
  match pp with
  | [] => Some []
  | p :: pp =>
    x ← d.(producers) !! p; pi ← d.(peers) !! x.(peerInfo);
    let topics := Keys (Filter topic_category star [] (LookupRegistrations range pi.(id) d)) in
    '(tombstones, cache) ← node_tombstones d (clock i) x.(peerInfo) topics cache;
    rest ← make_nodes d (S i) pp cache;
    Some (mkNode pi.(RemoteAddress) pi.(Hostname) pi.(BroadcastAddress) pi.(TCPPort) pi.(HTTPPort) pi.(Version)
            tombstones topics :: rest)
  end.

Definition doNodes (req : request) : DM result :=
  d ← getST;
  pp ← liftST (FindProducers range client_category [] [] d);
  pp ← liftST (FilterByActive now clock InactiveProducerTimeout 0 d pp);
  nodes ← liftST (make_nodes d 0 pp ∅);
  mret (ok (DJson (JNodes nodes))).

Fixpoint debug_producers (d : RegistrationDB) (pp : list nat) : option (list debug_entry) :=
  match pp with
  | [] => Some []
  | p :: pp =>
    x ← d.(producers) !! p; pi ← d.(peers) !! x.(peerInfo);
    rest ← debug_producers d pp;
    Some (mkDebug pi x.(tombstoned) (UnixNano x.(tombstonedAt)) :: rest)
  end.

(** Keys whose fields contain colons may share an entry. *)
Fixpoint debug_entries (d : RegistrationDB) (ks : list (Registration * gmap (list Byte.byte) nat))
    (data : gmap (list Byte.byte) (list debug_entry)) : option (gmap (list Byte.byte) (list debug_entry)) :=
  match ks with
  | [] => Some data
  | (r, ps) :: ks =>
    let key := r.(Category) ++ bytes_of_string ":" ++ r.(Key) ++ bytes_of_string ":" ++ r.(SubKey) in
    es ← debug_producers d (ProducerMap2Slice range ps);
    debug_entries d ks (if bool_decide (es = []) then data else <[key := default [] (data !! key) ++ es]> data)
  end.

Definition doDebug (req : request) : DM result :=
  d ← getST;
  data ← liftST (debug_entries d (range _ (map_to_list d.(registrationMap))) ∅);
  mret (ok (DJson (JDebug data))).

(** The routes, without those of [net/http/pprof]. *)
Context (marshal : json → res string bytes) (marshal_error : Err → bytes) (marshal_message : bytes → bytes).
Context (sprint : json → bytes).

Definition v1 (f : request → DM result) : APIHandler RegistrationDB json :=
  Decorate (on_app f) [Log; V1 marshal marshal_error marshal_message sprint].

Definition newHTTPServer : list (string * string * APIHandler RegistrationDB json) :=
  [("GET", "/ping", Decorate (on_app pingHandler) [Log; PlainText]);
   ("GET", "/info", v1 doInfo);
   ("GET", "/debug", v1 doDebug);
   ("GET", "/lookup", v1 doLookup);
   ("GET", "/topics", v1 doTopics);
   ("GET", "/channels", v1 doChannels);
   ("GET", "/nodes", v1 doNodes);
   ("POST", "/topic/create", v1 doCreateTopic);
   ("POST", "/topic/delete", v1 doDeleteTopic);
   ("POST", "/channel/create", v1 doCreateChannel);
   ("POST", "/channel/delete", v1 doDeleteChannel);
   ("POST", "/topic/tombstone", v1 doTombstoneTopicProducer)]%string.

End handlers.
End LookupHTTP.
