(* ===== verification/LookupHTTPProps.v ===== *)
(** * What the HTTP interface of nsqlookupd promises

    [/lookup] answers with exactly the channels and the active producers of a
    topic, [/topic/delete] removes exactly the keys of its topic, and no
    request panics or corrupts the database. *)
From stdpp Require Import base gmap list strings.
From Stdlib Require Import ZArith Lia.
From S2P Require Import Prelude.
From S2P Require Import Text.
From S2P Require Import Message.
From S2P Require Import Wire.
From S2P Require Import HttpApi.
From S2P Require Import RegistrationDB.
From S2P Require Import LookupProtocol.
From S2P Require Import LookupHTTP.
Set Default Goal Selector "!".
Local Open Scope Z_scope.

Module LookupHTTPSpec.
Import Wire HttpApi RegDB LookupProtocol LookupHTTP.

Section proofs.
Context (range : ∀ A : Type, list A → list A).
Hypothesis range_perm : ∀ A (l : list A), range A l ≡ₚ l.
Context (inactive lifetime : duration).
Implicit Types (d : RegistrationDB) (k : Registration).

(** A request whose query gives the parameter [key] the value [v]. *)
Definition arg (req : request) (key : string) (v : bytes) : Prop :=
  ∃ rp, NewReqParams req = Some rp ∧ ReqParams_Get rp (bytes_of_string key) = Some (Ok v).

Lemma with_arg_ok {d} req key missing v (f : bytes → ST RegistrationDB (handler_result json)) :
  arg req key v → with_params req (λ rp, with_arg rp key missing f) d = f v d.
Proof. intros (rp & E & Hv). unfold with_params, with_arg. rewrite E. by callST ltac:(unfold liftST; rewrite Hv; reflexivity). Qed.

(** ** Active producers *)

Definition info_of d (p : nat) : option PeerInfo := x ← d.(producers) !! p; d.(peers) !! x.(peerInfo).

(** The producer was heard of within the time-out and is not tombstoned. *)
Definition active d (now : time) (p : nat) : bool :=
  match x ← d.(producers) !! p; pi ← d.(peers) !! x.(peerInfo); Some (x, pi) with
  | Some (x, pi) => (time_sub now pi.(lastUpdate) <=? inactive) && negb (IsTombstoned now lifetime x)
  | None => false
  end.

Lemma FilterByActive_ok d now clock pp :
  (∀ i, clock i = now) → Forall (filed d) pp →
  FilterByActive now clock inactive lifetime d pp = Some (filter (λ p, active d now p = true) pp).
Proof.
  intros Hc. unfold FilterByActive. generalize 0%nat. induction pp as [|p pp IH]; intros i Hf; cbn [FilterByActive_loop]; [done|].
  apply Forall_cons in Hf as [(x & pi & Hx & Hpi) Hf]. rewrite Hx. cbn [mbind option_bind]. rewrite Hpi. cbn [mbind option_bind].
  assert (Ha : active d now p = (time_sub now pi.(lastUpdate) <=? inactive) && negb (IsTombstoned now lifetime x)).
  { unfold active. rewrite Hx. cbn [mbind option_bind]. by rewrite Hpi. }
  rewrite IH by done. cbn [mbind option_bind]. rewrite Hc, filter_cons, Ha.
  rewrite Z.gtb_ltb, Z.ltb_antisym. by destruct (_ <=? inactive), (IsTombstoned _ _ _).
Qed.

Lemma FilterByActive_total d now clock inact life pp : Forall (filed d) pp →
  ∃ pp', FilterByActive now clock inact life d pp = Some pp' ∧ Forall (filed d) pp'.
Proof.
  unfold FilterByActive. generalize 0%nat. induction pp as [|p pp IH]; intros i Hf; cbn [FilterByActive_loop]; [by exists []|].
  apply Forall_cons in Hf as [(x & pi & Hx & Hpi) Hf]. rewrite Hx. cbn [mbind option_bind]. rewrite Hpi. cbn [mbind option_bind].
  destruct (IH (S i) Hf) as (pp' & -> & ?). cbn [mbind option_bind]. destruct (_ || _); eexists; (split; [done|]); [done|].
  constructor; [by exists x, pi|done].
Qed.

Lemma PeerInfos_ok d pp : Forall (filed d) pp →
  ∃ ids infos, PeerInfos d pp = Some ids ∧ mapM (λ pi, d.(peers) !! pi) ids = Some infos ∧
    Forall2 (λ p pi, info_of d p = Some pi) pp infos.
Proof.
  induction pp as [|p pp IH]; intros Hf; [by exists [], []|].
  apply Forall_cons in Hf as [(x & pi & Hx & Hpi) Hf]. destruct (IH Hf) as (ids & infos & E1 & E2 & HF).
  unfold PeerInfos in *. exists (x.(peerInfo) :: ids), (pi :: infos). cbn [mapM]. rewrite Hx, E1, Hpi, E2.
  split_and!; [done|done|]. constructor; [|done]. unfold info_of. by rewrite Hx.
Qed.

Lemma Forall2_info_id d pp infos :
  Forall2 (λ p pi, info_of d p = Some pi) pp infos → id <$> infos = id_of d <$> pp.
Proof.
  induction 1 as [|p pi pp infos Hp _ IH]; [done|]. rewrite !fmap_cons, IH. f_equal. unfold id_of, info_of in *.
  destruct (d.(producers) !! p); cbn in *; [|done]. by rewrite Hp.
Qed.

(** The peers that produce for a key and are active. *)
Definition active_for d (now : time) k (pi : PeerInfo) : Prop :=
  ∃ ps i p, d.(registrationMap) !! k = Some ps ∧ ps !! i = Some p ∧ info_of d p = Some pi ∧ active d now p = true.

Lemma topic_key_match topic k : topic ≠ star → IsMatch k topic_category topic [] = true ↔ k = mkReg topic_category topic [].
Proof. intros Hs. apply IsMatch_exact. unfold needFilter. by rewrite bool_decide_eq_false_2. Qed.

Lemma active_producers_ok d now clock k :
  db_ok d → (∀ i, clock i = now) → k.(Key) ≠ star → k.(SubKey) ≠ star →
  ∃ pp pp' ids infos, FindProducers range k.(Category) k.(Key) k.(SubKey) d = Some pp ∧
    FilterByActive now clock inactive lifetime d pp = Some pp' ∧
    PeerInfos d pp' = Some ids ∧ mapM (λ pi, d.(peers) !! pi) ids = Some infos ∧
    NoDup (id <$> infos) ∧ ∀ pi, pi ∈ infos ↔ active_for d now k pi.
Proof.
  intros Hok Hc Hk Hs. unfold FindProducers, needFilter. rewrite !bool_decide_eq_false_2 by done. cbn [orb negb].
  replace (mkReg k.(Category) k.(Key) k.(SubKey)) with k by by destruct k.
  set (ps := default ∅ (d.(registrationMap) !! k)).
  assert (Hps : Forall (filed d) (ProducerMap2Slice range ps) ∧ NoDup (id_of d <$> ProducerMap2Slice range ps) ∧
                ∀ p, p ∈ ProducerMap2Slice range ps ↔ ∃ ps' i, d.(registrationMap) !! k = Some ps' ∧ ps' !! i = Some p).
  { assert (Hin : ∀ p, p ∈ ProducerMap2Slice range ps ↔ ∃ ps' i, d.(registrationMap) !! k = Some ps' ∧ ps' !! i = Some p).
    { intros p. unfold ProducerMap2Slice. rewrite range_perm, list_elem_of_fmap. unfold ps. split.
      - intros ([i q] & -> & Hq%elem_of_map_to_list). destruct (_ !! k) as [ps'|]; cbn in Hq; [by exists ps', i|].
        by rewrite lookup_empty in Hq.
      - intros (ps' & i & Hk' & Hi). rewrite Hk'. exists (i, p). split; [done|]. by apply elem_of_map_to_list. }
    unfold ps in *. destruct (d.(registrationMap) !! k) as [ps'|] eqn:E; cbn in *.
    - destruct (ProducerMap2Slice_spec range range_perm d k ps' Hok E) as (? & ? & _). done.
    - assert (En : ProducerMap2Slice range (∅ : gmap (list Byte.byte) nat) = []).
      { unfold ProducerMap2Slice. rewrite map_to_list_empty. apply Permutation_nil. symmetry. apply range_perm. }
      rewrite En in *. split_and!; [constructor|constructor|done]. }
  destruct Hps as (Hf & Hnd & Hin). set (pp := ProducerMap2Slice range ps) in *.
  set (pp' := filter (λ p, active d now p = true) pp).
  destruct (PeerInfos_ok d pp') as (ids & infos & E1 & E2 & HF); [apply Forall_forall; intros p [_ Hp]%list_elem_of_filter; by eapply Forall_forall|].
  exists pp, pp', ids, infos. split_and!; [done|by apply FilterByActive_ok|done|done| |].
  - rewrite (Forall2_info_id d pp' infos HF). eapply sublist_NoDup; [exact Hnd|]; apply fmap_sublist, sublist_filter.
  - intros pi. split.
    + intros Hpi. destruct (list_elem_of_lookup_1 _ _ Hpi) as [j Hj]. destruct (Forall2_lookup_r _ _ _ _ _ HF Hj) as (p & Hp & Hinfo).
      apply list_elem_of_lookup_2, list_elem_of_filter in Hp as [Ha Hp]. apply Hin in Hp as (ps' & i & ? & ?). by exists ps', i, p.
    + intros (ps' & i & p & Hk' & Hi & Hinfo & Ha).
      assert (Hp : p ∈ pp') by (apply list_elem_of_filter; split; [done|]; apply Hin; by exists ps', i).
      destruct (list_elem_of_lookup_1 _ _ Hp) as [j Hj]. destruct (Forall2_lookup_l _ _ _ _ _ HF Hj) as (pi' & Hj' & Hinfo').
      apply list_elem_of_lookup_2 in Hj'. congruence.
Qed.

(** C34: [/lookup] answers with every channel of the topic and with exactly the
    peers that are registered for it, were heard of within the time-out and
    are not tombstoned, each once; it answers 404 when nobody ever registered
    the topic, and changes nothing. *)
Theorem lookup_exact d now clock req topic :
  db_ok d → (∀ i, clock i = now) → arg req "topic" topic → topic ≠ star →
  if bool_decide (is_Some (d.(registrationMap) !! mkReg topic_category topic []))
  then ∃ channels infos,
    doLookup range inactive lifetime now clock req d = Some (Ok (DJson (JLookup channels infos)), d) ∧
    (∀ ch, ch ∈ channels ↔ is_Some (d.(registrationMap) !! mkReg channel_category topic ch)) ∧
    NoDup (id <$> infos) ∧ ∀ pi, pi ∈ infos ↔ active_for d now (mkReg topic_category topic []) pi
  else doLookup range inactive lifetime now clock req d = Some (bad 404 "TOPIC_NOT_FOUND", d).
Proof.
  intros Hok Hc Harg Hs. unfold doLookup. rewrite (with_arg_ok _ _ _ _ _ Harg). rewrite (ST_bind_eq _ _ d d d) by done. cbv beta.
  assert (Hfind : ∀ k, k ∈ FindRegistrations range topic_category topic [] d ↔
    is_Some (d.(registrationMap) !! k) ∧ k = mkReg topic_category topic []).
  { intros k. rewrite FindRegistrations_spec by done. by rewrite topic_key_match. }
  case_bool_decide as Hd.
  - rewrite bool_decide_eq_false_2.
    2: { intros En. apply (not_elem_of_nil (mkReg topic_category topic [])). rewrite <- En. by apply Hfind. }
    destruct (active_producers_ok d now clock (mkReg topic_category topic []) Hok Hc) as (pp & pp' & ids & infos & E1 & E2 & E3 & E4 & Hn & Hi); [done|done|].
    eexists _, infos. split_and!; [| |done|done].
    + cbn [Category Key SubKey] in E1. callST ltac:(unfold liftST; rewrite E1; reflexivity). callST ltac:(unfold liftST; rewrite E2; reflexivity).
      callST ltac:(unfold liftST; rewrite E3; reflexivity). callST ltac:(unfold liftST; rewrite E4; reflexivity). reflexivity.
    + intros ch. unfold SubKeys. rewrite list_elem_of_fmap. setoid_rewrite FindRegistrations_spec; [|done].
      unfold IsMatch. rewrite (bool_decide_eq_false_2 (topic = star)), (bool_decide_eq_true_2 (star = star)) by done. split.
      * intros ([c ky sk] & -> & [ps Hk] & Hm). cbn in *. repeat case_bool_decide; cbn in *; simplify_eq. by eexists.
      * intros [ps Hk]. exists (mkReg channel_category topic ch). cbn. split; [done|]. split; [by eexists|].
        by rewrite !bool_decide_eq_true_2.
  - rewrite bool_decide_eq_true_2; [done|]. apply elem_of_nil_inv. intros k [Hk ->]%Hfind. done.
Qed.

(** ** Removing topics *)

(** The keys a deletion of [topic] names. *)
Definition topic_keys (topic : bytes) k : Prop :=
  (k.(Category) = channel_category ∨ k.(Category) = topic_category ∧ k.(SubKey) = []) ∧ (topic = star ∨ k.(Key) = topic).

#[local] Instance topic_keys_dec topic k : Decision (topic_keys topic k).
Proof. unfold topic_keys. apply _. Defined.

Lemma remove_registrations_ok rr : ∀ d, db_ok d →
  ∃ d', remove_registrations rr d = Some ((), d') ∧ db_ok d' ∧ d'.(peers) = d.(peers) ∧
    ∀ k, d'.(registrationMap) !! k = if bool_decide (k ∈ rr) then None else d.(registrationMap) !! k.
Proof.
  induction rr as [|r rr IH]; intros d Hok; cbn [remove_registrations]; [by exists d|].
  destruct (RemoveRegistration_ok d r Hok) as (d1 & E1 & Hok1 & Ep1 & _ & _ & Em1 & _).
  destruct (IH d1 Hok1) as (d' & E & ? & Ep & Hm). exists d'. split_and!; [by callST ltac:(exact E1)|done|by rewrite Ep|].
  intros k. rewrite Hm, Em1. destruct (decide (k = r)) as [->|Hne].
  - rewrite lookup_delete_eq, (bool_decide_eq_true_2 (r ∈ r :: rr)) by by left. by case_bool_decide.
  - rewrite lookup_delete_ne by done. repeat case_bool_decide; set_solver.
Qed.

Lemma delete_topic_ok d req topic :
  db_ok d → arg req "topic" topic →
  ∃ d', doDeleteTopic range req d = Some (Ok DNil, d') ∧ db_ok d' ∧ d'.(peers) = d.(peers) ∧
    ∀ k, d'.(registrationMap) !! k = if decide (topic_keys topic k) then None else d.(registrationMap) !! k.
Proof.
  intros Hok Harg. unfold doDeleteTopic. rewrite (with_arg_ok _ _ _ _ _ Harg). rewrite (ST_bind_eq _ _ d d d) by done. cbv beta.
  destruct (remove_registrations_ok (FindRegistrations range channel_category topic star d) d Hok) as (d1 & E1 & Hok1 & Ep1 & Hm1).
  destruct (remove_registrations_ok (FindRegistrations range topic_category topic [] d1) d1 Hok1) as (d2 & E2 & Hok2 & Ep2 & Hm2).
  exists d2. split_and!; [|done|by rewrite Ep2|].
  - callST ltac:(exact E1). callST ltac:(reflexivity). by callST ltac:(exact E2).
  - intros k. assert (Hne : ([] : bytes) ≠ star) by by vm_compute.
    assert (Hcat : channel_category ≠ topic_category) by by vm_compute.
    assert (Hk1 : k ∈ FindRegistrations range channel_category topic star d ↔
      is_Some (d.(registrationMap) !! k) ∧ k.(Category) = channel_category ∧ (topic = star ∨ k.(Key) = topic)).
    { rewrite FindRegistrations_spec by done. unfold IsMatch. rewrite (bool_decide_eq_true_2 (star = star)) by done.
      repeat case_bool_decide; cbn; naive_solver. }
    assert (Hk2 : k ∈ FindRegistrations range topic_category topic [] d1 ↔
      is_Some (d1.(registrationMap) !! k) ∧ k.(Category) = topic_category ∧ k.(SubKey) = [] ∧ (topic = star ∨ k.(Key) = topic)).
    { rewrite FindRegistrations_spec by done. unfold IsMatch. rewrite (bool_decide_eq_false_2 ([] = star)) by done.
      repeat case_bool_decide; cbn; naive_solver. }
    rewrite Hm2, Hm1. rewrite Hm1 in Hk2. destruct (d.(registrationMap) !! k) as [ps|] eqn:Ek.
    + destruct (decide (k ∈ FindRegistrations range channel_category topic star d)) as [H1|H1].
      { pose proof H1 as (_ & Hc & Ht)%Hk1. rewrite (bool_decide_eq_true_2 _ H1), decide_True by (split; [by left|done]). by destruct (bool_decide (k ∈ FindRegistrations range topic_category topic [] d1)). }
      rewrite (bool_decide_eq_false_2 _ H1) in *.
      destruct (decide (k ∈ FindRegistrations range topic_category topic [] d1)) as [H2|H2].
      * pose proof H2 as (_ & Hc & Hsub & Ht)%Hk2. by rewrite (bool_decide_eq_true_2 _ H2), decide_True by (split; [by right|done]).
      * rewrite (bool_decide_eq_false_2 _ H2), decide_False; [done|].
        intros [[Hc|[Hc Hsub]] Ht]; [apply H1, Hk1|apply H2, Hk2]; (split; [by eexists|done]).
    + by repeat case_bool_decide; case_decide.
Qed.

(** Deleting a topic removes the keys of the topic and of its channels and
    no others; and since the handler does not check the name, deleting the
    topic [*] removes every topic and channel of every producer. *)
Theorem delete_topic_exact d req topic :
  db_ok d → arg req "topic" topic →
  ∃ d', doDeleteTopic range req d = Some (Ok DNil, d') ∧ db_ok d' ∧ d'.(peers) = d.(peers) ∧
    ∀ k, d'.(registrationMap) !! k = if decide (topic_keys topic k) then None else d.(registrationMap) !! k.
Proof. apply delete_topic_ok. Qed.

(** ** No request panics *)

(** [m] runs without a panic, keeps the database and its peers; a query also
    keeps the rest. *)
Definition serves (query : bool) {A} (m : ST RegistrationDB A) d : Prop :=
  ∃ a d', m d = Some (a, d') ∧ db_ok d' ∧ d'.(peers) = d.(peers) ∧ if query then d' = d else True.

Lemma serves_ret (q : bool) {A} (a : A) d : db_ok d → serves q (mret a : ST RegistrationDB A) d.
Proof. intros Hok. exists a, d. split_and!; try done. by destruct q. Qed.

Lemma serves_bind (q : bool) {A B} (m : ST RegistrationDB A) (f : A → ST RegistrationDB B) d a d' :
  m d = Some (a, d') → d'.(peers) = d.(peers) → (if q then d' = d else True) → serves q (f a) d' → serves q (m ≫= f) d.
Proof.
  intros E Ep Eq (b & d2 & E2 & Hok & Ep2 & Eq2). exists b, d2. rewrite (ST_bind_eq _ f _ _ _ E).
  split_and!; [done|done|by rewrite Ep2|]. destruct q; [by subst|done].
Qed.

Lemma serves_get (q : bool) {B} (f : RegistrationDB → ST RegistrationDB B) d : serves q (f d) d → serves q (getST ≫= f) d.
Proof. done. Qed.

Lemma serves_lift (q : bool) {A B} (o : option A) (f : A → ST RegistrationDB B) d a :
  o = Some a → serves q (f a) d → serves q (liftST o ≫= f) d.
Proof. intros -> H. exact H. Qed.

Lemma serves_params (q : bool) req (f : ReqParams → ST RegistrationDB (handler_result json)) d : db_ok d → (∀ rp, NewReqParams req = Some rp → serves q (f rp) d) → serves q (with_params req f) d.
Proof. intros Hok Hf. unfold with_params. destruct (NewReqParams req); [by apply Hf|by apply serves_ret]. Qed.

Lemma serves_arg (q : bool) req rp key missing f d :
  db_ok d → NewReqParams req = Some rp → (∀ v, serves q (f v) d) → serves q (with_arg rp key missing f) d.
Proof.
  intros Hok E Hf. destruct (ReqParams_Get_ok req rp (bytes_of_string key) E) as [r Er]. unfold with_arg.
  eapply serves_lift; [exact Er|]. destruct r; [apply Hf|by apply serves_ret].
Qed.

Lemma serves_args (q : bool) req rp (f : _ → ST RegistrationDB (handler_result json)) d :
  db_ok d → NewReqParams req = Some rp → (∀ r, serves q (f r) d) → serves q (topic_channel_args rp ≫= f) d.
Proof.
  intros Hok E Hf. destruct (ReqParams_Get_ok req rp (bytes_of_string "topic") E) as [t Et].
  destruct (ReqParams_Get_ok req rp (bytes_of_string "channel") E) as [c Ec].
  eapply (serves_bind q _ f d _ d); [| done|by destruct q|apply Hf].
  unfold topic_channel_args. callST ltac:(unfold liftST; rewrite Et; reflexivity). by callST ltac:(unfold liftST; rewrite Ec; reflexivity).
Qed.

Lemma serves_add k {A} (m : ST RegistrationDB A) d :
  db_ok d → (∀ d', db_ok d' → serves false m d') → serves false (_ ← AddRegistration k; m) d.
Proof.
  intros Hok Hm. destruct (AddRegistration_ok d k Hok) as (d' & E & Hok' & _). eapply serves_bind; [exact E| |done|by apply Hm].
  unfold AddRegistration, set_map, modST in E. by injection E as <-.
Qed.

Lemma serves_remove rr {A} (m : ST RegistrationDB A) d :
  db_ok d → (∀ d', db_ok d' → serves false m d') → serves false (_ ← remove_registrations rr; m) d.
Proof.
  intros Hok Hm. destruct (remove_registrations_ok rr d Hok) as (d' & E & Hok' & Ep & _).
  eapply serves_bind; [exact E|exact Ep|done|by apply Hm].
Qed.

Lemma tombstone_all_ok node clock pp : ∀ i d, db_ok d → Forall (filed d) pp →
  ∃ d', tombstone_all clock node i pp d = Some ((), d') ∧ db_ok d' ∧ d'.(peers) = d.(peers) ∧
    d'.(registrationMap) = d.(registrationMap).
Proof.
  induction pp as [|p pp IH]; intros i d Hok Hf; cbn [tombstone_all]; [by exists d|].
  apply Forall_cons in Hf as [(x & pi & Hx & Hpi) Hf].
  assert (Ex : get_producer p d = Some (x, d)).
  { unfold get_producer, mbind, ST_bind, getST, liftST. by rewrite Hx. }
  assert (Epi : get_peer x.(peerInfo) d = Some (pi, d)).
  { unfold get_peer, mbind, ST_bind, getST, liftST. by rewrite Hpi. }
  destruct (bool_decide (node_name pi = node)) eqn:Eb.
  - set (x' := mkProducer x.(peerInfo) true (clock i)).
    set (d1 := mkDB d.(peers) (<[p := x']> d.(producers)) d.(next) d.(registrationMap)).
    assert (Et : Tombstone (clock i) p d = Some ((), d1)) by (unfold Tombstone; rewrite (ST_bind_eq _ _ _ _ _ Ex); done).
    assert (Hkeep : ∀ q y, d.(producers) !! q = Some y → ∃ y', d1.(producers) !! q = Some y' ∧ y'.(peerInfo) = y.(peerInfo)).
    { intros q y Hq. cbn. destruct (decide (q = p)) as [->|]; [exists x'; rewrite lookup_insert_eq; by simplify_eq|].
      exists y. by rewrite lookup_insert_ne. }
    assert (Hok1 : db_ok d1).
    { destruct Hok as [Hfl Hp Hfr]. split; cbn.
      - intros k ps j q Hk Hj. destruct (Hfl k ps j q Hk Hj) as (y & pi' & Hy & ? & ?).
        destruct (Hkeep q y Hy) as (y' & Hy' & Ey). exists y', pi'. by rewrite Ey.
      - intros q y. rewrite lookup_insert_Some. intros [[_ <-]|[_ ?]]; [by eapply (Hp p x)|by eapply Hp].
      - intros q Hq. destruct (Hfr q Hq) as [? ?]. rewrite lookup_insert_ne; [done|]. intros <-. congruence. }
    destruct (IH (S i) d1 Hok1) as (d' & E & ? & Ep & Er).
    { eapply Forall_impl; [exact Hf|]. intros q (y & pi' & Hy & ?). destruct (Hkeep q y Hy) as (y' & Hy' & Ey).
      exists y', pi'. by rewrite Ey. }
    exists d'. split_and!; [|done|by rewrite Ep|by rewrite Er].
    callST ltac:(exact Ex). callST ltac:(exact Epi).
    rewrite Eb. callST ltac:(exact Et). exact E.
  - destruct (IH (S i) d Hok Hf) as (d' & E & ? & Ep & Er). exists d'. split_and!; [|done|done|done].
    callST ltac:(exact Ex). callST ltac:(exact Epi). rewrite Eb. by callST ltac:(reflexivity).
Qed.

Lemma FindProducers_filed d c key sub :
  db_ok d → ∃ pp, FindProducers range c key sub d = Some pp ∧ Forall (filed d) pp.
Proof. intros Hok. destruct (find_producers_ok range range_perm d c key sub Hok) as (pp & ? & _ & ? & _). by exists pp. Qed.

Lemma topic_tombstone_ok d t pi tps : Forall (filed d) tps → is_Some (topic_tombstone lifetime d t pi tps).
Proof.
  induction 1 as [|p tps (x & y & Hx & Hy) _ IH]; cbn [topic_tombstone]; [done|]. rewrite Hx. cbn [mbind option_bind].
  case_bool_decide; [by eexists|done].
Qed.

Lemma node_tombstones_ok d t pi topics : ∀ cache, db_ok d → (∀ j pp, cache !! j = Some pp → Forall (filed d) pp) →
  ∃ bs cache', node_tombstones range lifetime d t pi topics cache = Some (bs, cache') ∧
    ∀ j pp, cache' !! j = Some pp → Forall (filed d) pp.
Proof.
  induction topics as [|topic topics IH]; intros cache Hok Hc; cbn [node_tombstones]; [by eexists _, _|].
  assert (Hcache : ∃ cache1, match cache !! topic with
      | Some _ => Some cache
      | None => pp ← FindProducers range topic_category topic [] d; Some (<[topic := pp]> cache)
      end = Some cache1 ∧ ∀ j pp, cache1 !! j = Some pp → Forall (filed d) pp).
  { destruct (cache !! topic); [by exists cache|]. destruct (FindProducers_filed d topic_category topic [] Hok) as (pp & -> & Hpp).
    exists (<[topic := pp]> cache). split; [done|]. intros j pp'. rewrite lookup_insert_Some. intros [[_ <-]|[_ ?]]; [done|naive_solver]. }
  destruct Hcache as (cache1 & -> & Hc1). cbn [mbind option_bind].
  destruct (topic_tombstone_ok d t pi (default [] (cache1 !! topic))) as [b Eb].
  { destruct (cache1 !! topic) eqn:E; cbn; [naive_solver|constructor]. }
  rewrite Eb. cbn [mbind option_bind]. destruct (IH cache1 Hok Hc1) as (bs & cache' & -> & ?). cbn. by eexists _, _.
Qed.

Lemma make_nodes_ok d clock pp : ∀ i cache, db_ok d → Forall (filed d) pp →
  (∀ j qq, cache !! j = Some qq → Forall (filed d) qq) → is_Some (make_nodes range lifetime clock d i pp cache).
Proof.
  induction pp as [|p pp IH]; intros i cache Hok Hf Hc; cbn [make_nodes]; [done|].
  apply Forall_cons in Hf as [(x & pi & Hx & Hpi) Hf]. rewrite Hx. cbn [mbind option_bind]. rewrite Hpi. cbn [mbind option_bind].
  destruct (node_tombstones_ok d (clock i) x.(peerInfo) (Keys (Filter topic_category star [] (LookupRegistrations range pi.(id) d))) cache Hok Hc)
    as (bs & cache' & -> & Hc'). cbn [mbind option_bind].
  destruct (IH (S i) cache' Hok Hf Hc') as [rest ->]. by eexists.
Qed.

Lemma debug_producers_ok d pp : Forall (filed d) pp → is_Some (debug_producers d pp).
Proof.
  induction 1 as [|p pp (x & pi & Hx & Hpi) _ [es IH]]; cbn [debug_producers]; [done|].
  rewrite Hx. cbn [mbind option_bind]. rewrite Hpi. cbn [mbind option_bind]. rewrite IH. by eexists.
Qed.

Lemma debug_entries_ok d ks : ∀ data, db_ok d → (∀ k ps, (k, ps) ∈ ks → d.(registrationMap) !! k = Some ps) →
  is_Some (debug_entries range d ks data).
Proof.
  induction ks as [|[k ps] ks IH]; intros data Hok Hks; cbn [debug_entries]; [done|].
  destruct (ProducerMap2Slice_spec range range_perm d k ps Hok) as (Hf & _); [apply Hks; by left|].
  destruct (debug_producers_ok d _ Hf) as [es ->]. cbn [mbind option_bind]. apply IH; [done|]. intros. apply Hks. by right.
Qed.

(** The handlers, by the kind of their route. *)
Lemma handlers_serve now clock d req : db_ok d →
  Forall (λ f, serves true (f req) d)
    [pingHandler; doInfo; doDebug range; doLookup range inactive lifetime now clock; doTopics range; doChannels range;
     doNodes range inactive lifetime now clock] ∧
  Forall (λ f, serves false (f req) d)
    [doCreateTopic; doDeleteTopic range; doCreateChannel; doDeleteChannel range; doTombstoneTopicProducer range clock].
Proof.
  intros Hok. split; repeat (apply Forall_cons; split); try (by apply Forall_nil).
  - by apply serves_ret.
  - by apply serves_ret.
  - apply serves_get. destruct (debug_entries_ok d (range _ (map_to_list d.(registrationMap))) ∅ Hok) as [es E].
    { intros k ps. rewrite range_perm. by rewrite elem_of_map_to_list. }
    eapply serves_lift; [exact E|by apply serves_ret].
  - apply serves_params; [done|]. intros rp E. apply (serves_arg _ _ _ _ _ _ _ Hok E). intros topic. apply serves_get.
    case_bool_decide; [by apply serves_ret|]. destruct (FindProducers_filed d topic_category topic [] Hok) as (pp & E1 & Hpp).
    destruct (FilterByActive_total d now clock inactive lifetime pp Hpp) as (pp' & E2 & Hpp').
    destruct (PeerInfos_ok d pp' Hpp') as (ids & infos & E3 & E4 & _).
    eapply serves_lift; [exact E1|]. eapply serves_lift; [exact E2|]. eapply serves_lift; [exact E3|].
    eapply serves_lift; [exact E4|]. by apply serves_ret.
  - apply serves_get. by apply serves_ret.
  - apply serves_params; [done|]. intros rp E. apply (serves_arg _ _ _ _ _ _ _ Hok E). intros topic. apply serves_get. by apply serves_ret.
  - apply serves_get. destruct (FindProducers_filed d client_category [] [] Hok) as (pp & E1 & Hpp).
    destruct (FilterByActive_total d now clock inactive 0 pp Hpp) as (pp' & E2 & Hpp').
    destruct (make_nodes_ok d clock pp' 0 ∅ Hok Hpp') as [nodes E3]; [intros j qq; by rewrite lookup_empty|].
    eapply serves_lift; [exact E1|]. eapply serves_lift; [exact E2|]. eapply serves_lift; [exact E3|]. by apply serves_ret.
  - apply serves_params; [done|]. intros rp E. apply (serves_arg _ _ _ _ _ _ _ Hok E). intros topic.
    destruct (negb _); [by apply serves_ret|]. apply serves_add; [done|]. intros. by apply serves_ret.
  - apply serves_params; [done|]. intros rp E. apply (serves_arg _ _ _ _ _ _ _ Hok E). intros topic. apply serves_get.
    apply serves_remove; [done|]. intros d1 Hok1. apply serves_get. apply serves_remove; [done|]. intros. by apply serves_ret.
  - apply serves_params; [done|]. intros rp E. apply (serves_args _ _ _ _ _ Hok E). intros [[t c]|e]; [|by apply serves_ret].
    apply serves_add; [done|]. intros d1 Hok1. apply serves_add; [done|]. intros. by apply serves_ret.
  - apply serves_params; [done|]. intros rp E. apply (serves_args _ _ _ _ _ Hok E). intros [[t c]|e]; [|by apply serves_ret].
    apply serves_get. cbv beta zeta. case_bool_decide; [by apply serves_ret|]. apply serves_remove; [done|]. intros. by apply serves_ret.
  - apply serves_params; [done|]. intros rp E. apply (serves_arg _ _ _ _ _ _ _ Hok E). intros topic.
    apply (serves_arg _ _ _ _ _ _ _ Hok E). intros node. apply serves_get.
    destruct (FindProducers_filed d topic_category topic [] Hok) as (pp & E1 & Hpp). eapply serves_lift; [exact E1|].
    destruct (tombstone_all_ok node clock pp 0 d Hok Hpp) as (d' & E2 & Hok' & Ep & _).
    eapply serves_bind; [exact E2|exact Ep|done|by apply serves_ret].
Qed.

(** Answering a request: exactly one response and one line of the log, no
    panic; the database stays consistent, and as it was for a [GET]. *)
Definition answers (m : string) (h : APIHandler RegistrationDB json) : Prop :=
  ∀ req s, db_ok s.(hs_app) →
    ∃ d' resp code, h req s = Some (Some (Ok DNil), mkHttp d' (s.(hs_sent) ++ [resp]) (s.(hs_log) ++ [code])) ∧
      db_ok d' ∧ d'.(peers) = s.(hs_app).(peers) ∧ (m = "GET"%string → d' = s.(hs_app)).

Lemma v1_answers marshal marshal_error marshal_message sprint m q f :
  (∀ d req, db_ok d → serves q (f req) d) → (m = "GET"%string → q = true) →
  answers m (v1 marshal marshal_error marshal_message sprint f).
Proof.
  intros Hf Hm req s Hok. destruct (Hf s.(hs_app) req Hok) as (r & d' & E & Hok' & Ep & Eq).
  exists d', (v1_response marshal marshal_error marshal_message sprint r), (result_code r).
  split_and!; [by apply decorate_v1_ok|done|done|]. intros ->%Hm. done.
Qed.

(** C35: Every route of nsqlookupd answers every request, well-formed or not,
    with exactly one response and one log line, without a panic; no request
    breaks the database, and none with the method GET changes it. *)
Theorem lookupd_http_safe now clock marshal marshal_error marshal_message sprint :
  Forall (λ '(m, path, h), answers m h)
    (newHTTPServer range inactive lifetime now clock marshal marshal_error marshal_message sprint).
Proof.
  assert (Hq := λ d req, handlers_serve now clock d req).
  unfold newHTTPServer. repeat (apply Forall_cons; split); try (by apply Forall_nil);
    try (eapply (v1_answers _ _ _ _ _ true); [|done]; intros d req Hok; destruct (Hq d req Hok) as [H _];
         rewrite !Forall_cons in H; tauto);
    try (eapply (v1_answers _ _ _ _ _ false); [|done]; intros d req Hok; destruct (Hq d req Hok) as [_ H];
         rewrite !Forall_cons in H; tauto).
  intros req s Hok. eexists s.(hs_app), _, _. split_and!; [reflexivity|done|done|done].
Qed.
End proofs.
End LookupHTTPSpec.
