(* ===== verification/LookupDemo.v ===== *)
(** * nsqlookupd on concrete inputs

    A database with one nsqd that produces one topic and one channel, and the
    theorems of the registration database, the protocol and the HTTP
    interface applied to it. *)
From stdpp Require Import base gmap list strings.
From Stdlib Require Import ZArith Lia.
From S2P Require Import Prelude.
From S2P Require Import Text.
From S2P Require Import Message.
From S2P Require Import Wire.
From S2P Require Import HttpApi.
From S2P Require Import RegistrationDB.
From S2P Require Import LookupProtocol.
From S2P Require Import LookupProtocolProps.
From S2P Require Import LookupHTTP.
From S2P Require Import LookupHTTPProps.
Set Default Goal Selector "!".
Local Open Scope Z_scope.

Module LookupDemo.
Import Wire HttpApi RegDB LookupProtocol LookupSpec LookupHTTP LookupHTTPSpec.

(** Maps are visited in the order they are stored. *)
Definition in_order (A : Type) (l : list A) : list A := l.

Lemma in_order_perm A (l : list A) : in_order A l ≡ₚ l.
Proof. done. Qed.

Definition here : bytes := bytes_of_string "10.0.0.1:5000".
Definition there : bytes := bytes_of_string "10.0.0.2:5000".
Definition events : bytes := bytes_of_string "events".
Definition archive : bytes := bytes_of_string "archive".

Definition nsqd1 : PeerInfo :=
  mkPeer 100 here here (bytes_of_string "host") (bytes_of_string "host") 4150 4151 (bytes_of_string "1.0").
Definition topic_key : Registration := mkReg topic_category events [].
Definition channel_key : Registration := mkReg channel_category events archive.

(** Peer 0 is filed under both keys, as producers 1 and 2. *)
Definition db1 : RegistrationDB :=
  mkDB {[0%nat := nsqd1]} {[1%nat := mkProducer 0 false 0; 2%nat := mkProducer 0 false 0]} 3
    {[topic_key := {[here := 1%nat]}; channel_key := {[here := 2%nat]}]}.

Lemma db1_ok : db_ok db1.
Proof.
  split; cbn.
  - intros k ps i p Hk Hp. exists (mkProducer 0 false 0), nsqd1.
    apply lookup_insert_Some in Hk as [[<- <-]|[_ Hk]].
    + apply lookup_singleton_Some in Hp as [<- <-]. done.
    + apply lookup_singleton_Some in Hk as [<- <-]. apply lookup_singleton_Some in Hp as [<- <-]. done.
  - intros p x Hx. apply lookup_insert_Some in Hx as [[_ <-]|[_ Hx]]; [by eexists|].
    apply lookup_singleton_Some in Hx as [_ <-]. by eexists.
  - intros p Hp. rewrite lookup_insert_ne, !lookup_singleton_ne by lia. done.
Qed.

Lemma here_registered k : registered db1 k here → k = topic_key ∨ k = channel_key.
Proof.
  intros (ps & p & Hk & _). unfold db1 in Hk. cbn [registrationMap] in Hk. apply lookup_insert_Some in Hk as [[<- _]|[_ Hk]]; [by left|].
  apply lookup_singleton_Some in Hk as [<- _]. by right.
Qed.

Lemma there_fresh k : ¬ registered db1 k there.
Proof.
  intros (ps & p & Hk & Hp). unfold db1 in Hk. cbn [registrationMap] in Hk. apply lookup_insert_Some in Hk as [[_ <-]|[_ Hk]].
  - apply lookup_singleton_Some in Hp as [Hp _]. by vm_compute in Hp.
  - apply lookup_singleton_Some in Hk as [_ <-]. apply lookup_singleton_Some in Hp as [Hp _]. by vm_compute in Hp.
Qed.

Lemma topic_known : is_Some (db1.(registrationMap) !! topic_key).
Proof. unfold db1. cbn [registrationMap]. rewrite lookup_insert_eq. by eexists. Qed.

Lemma channel_known : is_Some (db1.(registrationMap) !! channel_key).
Proof. unfold db1. cbn [registrationMap]. rewrite lookup_insert_ne, lookup_singleton_eq by by vm_compute. by eexists. Qed.

Lemma events_not_star : events ≠ star.
Proof. by vm_compute. Qed.

(** A request for a topic. *)
Definition ask (query : string) : request := mkRequest (bytes_of_string "GET") [] (bytes_of_string query) [] 0 [] None.
Definition ask_params : ReqParams := mkReqParams {[bytes_of_string "topic" := [events]]} [].

Lemma ask_topic : arg (ask "topic=events") "topic" events.
Proof. exists ask_params. by vm_compute. Qed.

Lemma find_producers_exact_witness :
  ∃ pp, FindProducers in_order topic_category star [] db1 = Some pp ∧ NoDup (id_of db1 <$> pp) ∧ Forall (filed db1) pp ∧
    ∀ i, i ∈ id_of db1 <$> pp ↔ ∃ k, IsMatch k topic_category star [] = true ∧ registered db1 k i.
Proof. exact (find_producers_exact in_order in_order_perm db1 topic_category star [] db1_ok). Defined.

Lemma register_exact_witness :
  ∃ d' c', REGISTER [bytes_of_string "logs"] (db1, mkClient ([] : bytes) ([] : bytes) here (Some 0%nat)) = Some (Ok OK, (d', c'))
    ∧ registered d' (mkReg topic_category (bytes_of_string "logs") []) here.
Proof.
  destruct (register_exact in_order in_order_perm db1 (mkClient ([] : bytes) ([] : bytes) here (Some 0%nat)) here 0
    [bytes_of_string "logs"] db1_ok) as [(d' & E & _ & _ & Hr) _].
  - split; [reflexivity|]. by exists nsqd1.
  - exists d', (mkClient [] [] here (Some 0%nat)). split; [exact E|]. apply Hr. right. split; [reflexivity|]. by left.
Defined.

Lemma session_isolated_witness :
  (IOLoop in_order (λ _, None) None (λ _, 0) (db1, mkClient (bytes_of_string "PING") ([] : bytes) there None) = None ∧
    negative_size (bytes_of_string "PING")) ∨
  ∃ d' c', IOLoop in_order (λ _, None) None (λ _, 0) (db1, mkClient (bytes_of_string "PING") ([] : bytes) there None) = Some ((), (d', c')) ∧
    db_ok d' ∧ (∀ k, ¬ registered d' k there) ∧ ∀ k i, i ≠ there → registered d' k i ↔ registered db1 k i.
Proof.
  exact (session_isolated in_order in_order_perm (λ _, None) None (λ _, 0) db1 (bytes_of_string "PING") ([] : bytes) there db1_ok there_fresh).
Defined.

Lemma identify_negative_panics_witness :
  IOLoop in_order (λ _, None) None (λ _, 0)
    (NewRegistrationDB, mkClient (bytes_of_string "IDENTIFY" ++ newline :: be_encode 4 (2 ^ 32 - 1) ++ []) ([] : bytes) there None) = None.
Proof. apply (identify_negative_panics in_order (λ _, None) None (λ _, 0)); vm_compute; reflexivity. Defined.

Lemma lookup_exact_witness :
  ∃ channels infos,
    doLookup in_order (300 * Second) (45 * Second) 200 (λ _, 200) (ask "topic=events") db1
      = Some (Ok (DJson (JLookup channels infos)), db1) ∧ archive ∈ channels ∧ NoDup (id <$> infos).
Proof.
  pose proof (lookup_exact in_order in_order_perm (300 * Second) (45 * Second) db1 200 (λ _, 200) (ask "topic=events") events
    db1_ok (λ _, eq_refl) ask_topic events_not_star) as H.
  rewrite bool_decide_eq_true_2 in H by exact topic_known.
  destruct H as (channels & infos & E & Hc & Hn & _).
  exists channels, infos. split; [exact E|]. split; [|exact Hn]. apply Hc. exact channel_known.
Defined.

Lemma delete_topic_exact_witness :
  ∃ d', doDeleteTopic in_order (ask "topic=*") db1 = Some (Ok DNil, d') ∧ d'.(registrationMap) !! topic_key = None ∧
    d'.(registrationMap) !! channel_key = None.
Proof.
  destruct (delete_topic_exact in_order in_order_perm db1 (ask "topic=*") star db1_ok) as (d' & E & _ & _ & Hk).
  - eexists. by vm_compute.
  - exists d'. split; [exact E|]. split; rewrite Hk, decide_True; try reflexivity.
    + split; [right; split; reflexivity|left; reflexivity].
    + split; [left; reflexivity|left; reflexivity].
Defined.

Lemma lookupd_http_safe_witness :
  Forall (λ '(m, path, h), answers m h)
    (newHTTPServer in_order (300 * Second) (45 * Second) 200 (λ _, 200) (λ _, Ok []) (λ _, []) (λ b, b) (λ _, [])).
Proof. exact (lookupd_http_safe in_order in_order_perm _ _ _ _ _ _ _ _). Defined.

End LookupDemo.
