(* ===== verification/Auth.v ===== *)
(** * Authorization (internal/auth/authorizations.go)

    What an authorization server grants a client, the check of a topic and
    channel against it, and the query of the servers. [None] is a panic:
    [regexp.MustCompile] of a pattern that does not compile. *)
From stdpp Require Import base gmap list strings pretty.
From Stdlib Require Import ZArith Lia.
From S2P Require Import Prelude.
From S2P Require Import Decimal.
From S2P Require Import Wire.
From S2P Require Import HttpApi.
Set Default Goal Selector "!".
Local Open Scope Z_scope.

Module Auth.
Import HttpApi.

Record Authorization := mkAuthorization {
  Topic : bytes;
  Channels : list bytes;
  Permissions : list bytes;
}.

Record State := mkState {
  TTL : Z;
  Authorizations : list Authorization;
  Identity : bytes;
  IdentityURL : bytes;
  Expires : time;
}.

Definition set_Expires (t : time) (s : State) : State :=
  mkState s.(TTL) s.(Authorizations) s.(Identity) s.(IdentityURL) t.

Definition subscribe : bytes := bytes_of_string "subscribe".
Definition publish : bytes := bytes_of_string "publish".

Section auth.
(** [regexp]: whether a pattern compiles, and whether it matches. *)
Context (compiles : bytes → bool) (match_string : bytes → bytes → bool).
(** [client.GETV1(endpoint, &authState)]: the decoded body, or an error. *)
Context (GETV1 : bytes → res string State).

Definition HasPermission (a : Authorization) (permission : bytes) : bool := bool_decide (permission ∈ a.(Permissions)).

(** [regexp.MustCompile(pattern).MatchString(s)] *)
Definition must_match (pattern s : bytes) : option bool := if compiles pattern then Some (match_string pattern s) else None.

Fixpoint any_match (patterns : list bytes) (s : bytes) : option bool :=
  match patterns with
  | [] => Some false
  | p :: ps => b ← must_match p s; if b : bool then Some true else any_match ps s
  end.

Definition Authorization_IsAllowed (a : Authorization) (topic channel : bytes) : option bool :=
  if negb (HasPermission a (if bool_decide (channel = []) then publish else subscribe)) then Some false else
  b ← must_match a.(Topic) topic;
  if negb b then Some false else any_match a.(Channels) channel.

Fixpoint any_allowed (aa : list Authorization) (topic channel : bytes) : option bool :=
  match aa with
  | [] => Some false
  | a :: aa => b ← Authorization_IsAllowed a topic channel; if b : bool then Some true else any_allowed aa topic channel
  end.
Definition State_IsAllowed (s : State) (topic channel : bytes) : option bool := any_allowed s.(Authorizations) topic channel.

Definition IsExpired (now : time) (s : State) : bool := s.(Expires) <? now.

(** [v.Encode()]: the parameters in the order of their keys. *)
Definition auth_query (remoteIP : bytes) (tlsEnabled : bool) (commonName authSecret : bytes) : bytes :=
  let param k v := bytes_of_string k ++ [equals] ++ QueryEscape v in
  param "common_name"%string commonName ++ [ampersand] ++ param "remote_ip"%string remoteIP ++ [ampersand] ++
  param "secret"%string authSecret ++ [ampersand] ++
  param "tls"%string (bytes_of_string (if tlsEnabled then "true" else "false")).

(** The checks of a server's answer, in the order of the authorizations. The
    texts of these errors, which are only logged, are shortened. *)
Fixpoint validate_permissions (ps : list bytes) : option string :=
  match ps with
  | [] => None
  | p :: ps => if bool_decide (p = subscribe) || bool_decide (p = publish) then validate_permissions ps
               else Some ("unknown permission " +:+ string_of_bytes p)%string
  end.

Fixpoint validate_channels (cs : list bytes) : option string :=
  match cs with
  | [] => None
  | c :: cs => if compiles c then validate_channels cs else Some ("unable to compile channel " +:+ string_of_bytes c)%string
  end.

Fixpoint validate (aa : list Authorization) : option string :=
  match aa with
  | [] => None
  | a :: aa =>
    match validate_permissions a.(Permissions) with
    | Some e => Some e
    | None =>
      if negb (compiles a.(Topic)) then Some ("unable to compile topic " +:+ string_of_bytes a.(Topic))%string else
      match validate_channels a.(Channels) with
      | Some e => Some e
      | None => validate aa
      end
    end
  end.

Definition QueryAuthd (now : time) (authd remoteIP : bytes) (tlsEnabled : bool) (commonName authSecret : bytes) : res string State :=
  let endpoint := bytes_of_string "http://" ++ authd ++ bytes_of_string "/auth?" ++ auth_query remoteIP tlsEnabled commonName authSecret in
  match GETV1 endpoint with
  | Prelude.Err e => Prelude.Err e
  | Ok authState =>
    match validate authState.(Authorizations) with
    | Some e => Prelude.Err e
    | None =>
      if authState.(TTL) <=? 0
      then Prelude.Err ("invalid TTL " +:+ string_of_bytes (Decimal.fmt_d authState.(TTL)) +:+ " (must be >0)")%string
      else Ok (set_Expires (time_add now (i64 (authState.(TTL) * Second))) authState)
    end
  end.

Fixpoint QueryAnyAuthd (now : time) (authd : list bytes) (remoteIP : bytes) (tlsEnabled : bool) (commonName authSecret : bytes) :
    res string State :=
  match authd with
  | [] => Prelude.Err "Unable to access auth server"%string
  | a :: authd =>
    match QueryAuthd now a remoteIP tlsEnabled commonName authSecret with
    | Prelude.Err _ => QueryAnyAuthd now authd remoteIP tlsEnabled commonName authSecret
    | Ok s => Ok s
    end
  end.

(** ** What was granted is checked without a panic *)

(** The patterns of a state compile. *)
Definition patterns_ok (s : State) : Prop :=
  Forall (λ a, compiles a.(Topic) = true ∧ Forall (λ c, compiles c = true) a.(Channels)) s.(Authorizations).

Lemma validate_channels_ok cs : validate_channels cs = None → Forall (λ c, compiles c = true) cs.
Proof. induction cs as [|c cs IH]; cbn; [constructor|]. destruct (compiles c) eqn:E; [|done]. constructor; auto. Qed.

Lemma validate_ok aa : validate aa = None → Forall (λ a, compiles a.(Topic) = true ∧ Forall (λ c, compiles c = true) a.(Channels)) aa.
Proof.
  induction aa as [|a aa IH]; cbn; [constructor|]. destruct (validate_permissions _); [done|].
  destruct (compiles a.(Topic)) eqn:Et; cbn; [|done]. destruct (validate_channels a.(Channels)) eqn:Ec; [done|].
  intros Hv. constructor; [|by apply IH]. split; [done|]. by apply validate_channels_ok.
Qed.

Lemma QueryAnyAuthd_ok now authd ip tls cn secret s : QueryAnyAuthd now authd ip tls cn secret = Ok s → patterns_ok s.
Proof.
  induction authd as [|a authd IH]; cbn; [done|]. destruct (QueryAuthd now a ip tls cn secret) as [s'|] eqn:E; [|done].
  intros [= ->]. unfold QueryAuthd in E. destruct (GETV1 _) as [s0|]; [|done].
  destruct (validate _) eqn:Ev; [done|]. destruct (_ <=? 0); [done|]. injection E as <-. by apply validate_ok.
Qed.

Lemma any_match_ok ps x : Forall (λ c, compiles c = true) ps →
  any_match ps x = Some (bool_decide (Exists (λ p, match_string p x = true) ps)).
Proof.
  induction 1 as [|p ps Hp _ IH]; cbn [any_match]; [by rewrite bool_decide_eq_false_2 by (by intros ?%Exists_nil)|].
  unfold must_match. rewrite Hp. cbn [mbind option_bind]. destruct (match_string p x) eqn:E.
  - rewrite bool_decide_eq_true_2; [done|]. by left.
  - rewrite IH. f_equal. apply bool_decide_ext. rewrite Exists_cons, E. naive_solver.
Qed.

(** The grant of one authorization. *)
Definition grants (a : Authorization) (topic channel : bytes) : Prop :=
  (if bool_decide (channel = []) then publish else subscribe) ∈ a.(Permissions) ∧ match_string a.(Topic) topic = true ∧
  Exists (λ p, match_string p channel = true) a.(Channels).

#[local] Instance grants_dec a topic channel : Decision (grants a topic channel).
Proof. unfold grants. apply _. Defined.

Lemma IsAllowed_ok s topic channel :
  patterns_ok s → State_IsAllowed s topic channel = Some (bool_decide (Exists (λ a, grants a topic channel) s.(Authorizations))).
Proof.
  unfold patterns_ok, State_IsAllowed. induction 1 as [|a aa [Ht Hc] _ IH]; cbn [any_allowed].
  { by rewrite bool_decide_eq_false_2 by (by intros ?%Exists_nil). }
  assert (E : Authorization_IsAllowed a topic channel = Some (bool_decide (grants a topic channel))).
  { unfold Authorization_IsAllowed, HasPermission, must_match. rewrite Ht. cbn [mbind option_bind].
    destruct (decide ((if bool_decide (channel = []) then publish else subscribe) ∈ a.(Permissions))) as [Hp|Hp].
    - rewrite (bool_decide_eq_true_2 _ Hp). cbn [negb]. destruct (match_string a.(Topic) topic) eqn:Em; cbn [negb].
      + rewrite any_match_ok by done. f_equal. apply bool_decide_ext. unfold grants. rewrite Em. tauto.
      + rewrite bool_decide_eq_false_2; [done|]. unfold grants. rewrite Em. naive_solver.
    - rewrite (bool_decide_eq_false_2 _ Hp). cbn [negb]. rewrite bool_decide_eq_false_2; [done|]. unfold grants. naive_solver. }
  rewrite E. cbn [mbind option_bind]. destruct (decide (grants a topic channel)) as [Hg|Hg].
  - rewrite (bool_decide_eq_true_2 _ Hg). rewrite bool_decide_eq_true_2; [done|]. by left.
  - rewrite (bool_decide_eq_false_2 _ Hg), IH. f_equal. apply bool_decide_ext. rewrite Exists_cons. tauto.
Qed.

(** What an authorization server granted can be checked without a panic,
    since a grant with a pattern that does not compile is never accepted; and
    the check passes exactly when a single authorization has the permission,
    matches the topic and has a channel pattern that matches. *)
Theorem granted_exact now authd remoteIP tlsEnabled commonName secret s topic channel :
  QueryAnyAuthd now authd remoteIP tlsEnabled commonName secret = Ok s →
  State_IsAllowed s topic channel = Some (bool_decide (Exists (λ a, grants a topic channel) s.(Authorizations))).
Proof. intros E. by eapply IsAllowed_ok, QueryAnyAuthd_ok. Qed.

End auth.

(** One server grants publishing to any topic. *)
Definition open_grant : State := mkState 60 [mkAuthorization [] [[]] [publish]] [] [] 0.

Lemma granted_exact_witness :
  QueryAnyAuthd (λ _, true) (λ _, Ok open_grant) 0 [bytes_of_string "auth:80"] [] false [] [] = Ok (set_Expires (60 * Second) open_grant) ∧
  State_IsAllowed (λ _, true) (λ _ _, true) (set_Expires (60 * Second) open_grant) (bytes_of_string "events") [] = Some true.
Proof.
  assert (E : QueryAnyAuthd (λ _, true) (λ _, Ok open_grant) 0 [bytes_of_string "auth:80"] [] false [] [] = Ok (set_Expires (60 * Second) open_grant))
    by reflexivity.
  split; [exact E|]. rewrite (granted_exact (λ _, true) (λ _ _, true) (λ _, Ok open_grant) 0 [bytes_of_string "auth:80"] [] false [] []
    (set_Expires (60 * Second) open_grant) (bytes_of_string "events") [] E). by vm_compute.
Defined.

End Auth.
