(* ===== verification/Options.v ===== *)
(** * The options of nsqd (nsqd/options.go) *)
From stdpp Require Import base gmap list strings.
From Stdlib Require Import ZArith QArith.
From S2P Require Import Prelude.
From S2P Require Import Wire.
From S2P Require Import Message.
From S2P Require Import Heap.
From S2P Require Import Backend.
From S2P Require Import Channel.
Set Default Goal Selector "!".
Local Open Scope Z_scope.

Module Opts.

Definition TLSNotRequired : Z := 0.
Definition TLSRequiredExceptHTTP : Z := 1.
Definition TLSRequired_ : Z := 2.

(** The logger is left out; a float is a rational. *)
Record Options := mkOptions {
  ID : Z;
  LogLevel : Z;
  LogPrefix : bytes;
  TCPAddress : bytes;
  HTTPAddress : bytes;
  HTTPSAddress : bytes;
  BroadcastAddress : bytes;
  NSQLookupdTCPAddresses : list bytes;
  AuthHTTPAddresses : list bytes;
  HTTPClientConnectTimeout : duration;
  HTTPClientRequestTimeout : duration;
  DataPath : bytes;
  MemQueueSize : Z;
  MaxBytesPerFile : Z;
  SyncEvery : Z;
  SyncTimeout : duration;
  QueueScanInterval : duration;
  QueueScanRefreshInterval : duration;
  QueueScanSelectionCount : Z;
  QueueScanWorkerPoolMax : Z;
  QueueScanDirtyPercent : Q;
  MsgTimeout : duration;
  MaxMsgTimeout : duration;
  MaxMsgSize : Z;
  MaxBodySize : Z;
  MaxReqTimeout : duration;
  ClientTimeout : duration;
  MaxHeartbeatInterval : duration;
  MaxRdyCount : Z;
  MaxOutputBufferSize : Z;
  MaxOutputBufferTimeout : duration;
  MinOutputBufferTimeout : duration;
  OutputBufferTimeout : duration;
  MaxChannelConsumers : Z;
  StatsdAddress : bytes;
  StatsdPrefix : bytes;
  StatsdInterval : duration;
  StatsdMemStats : bool;
  StatsdUDPPacketSize : Z;
  E2EProcessingLatencyWindowTime : duration;
  E2EProcessingLatencyPercentiles : list Q;
  TLSCert : bytes;
  TLSKey : bytes;
  TLSClientAuthPolicy : bytes;
  TLSRootCAFile : bytes;
  TLSRequired : Z;
  TLSMinVersion : Z;
  DeflateEnabled : bool;
  MaxDeflateLevel : Z;
  SnappyEnabled : bool;
}.

(** [NewOptions] on a host: [defaultID] is the hash of its name, modulo
    1024. *)
Definition NewOptions (hostname : bytes) (defaultID : Z) : Options :=
  mkOptions defaultID Wire.INFO (bytes_of_string "[nsqd] ")
    (bytes_of_string "0.0.0.0:4150") (bytes_of_string "0.0.0.0:4151") (bytes_of_string "0.0.0.0:4152") hostname
    [] [] (2 * Second) (5 * Second)
    [] 10000 (100 * 1024 * 1024) 2500 (2 * Second)
    (100 * Millisecond) (5 * Second) 20 4 (1 # 4)
    (60 * Second) (15 * 60 * Second) (1024 * 1024) (5 * 1024 * 1024) (60 * 60 * Second) (60 * Second)
    (60 * Second) 2500 (64 * 1024) (30 * Second) (25 * Millisecond) (250 * Millisecond) 0
    [] (bytes_of_string "nsq.%s") (60 * Second) true 508
    (10 * 60 * Second) []
    [] [] [] [] 0 0x0301
    true 6 true.

(** What a channel and a topic read of them. *)
Definition chan_options (o : Options) : Channel.options :=
  Channel.mkOptions (Z.to_nat o.(MemQueueSize)) o.(MaxMsgTimeout) o.(MaxChannelConsumers).

End Opts.
