(* ===== verification/Client.v ===== *)
(** * Clients of nsqd (nsqd/client_v2.go)

    The state of a connection: its counters, the settings it negotiated, the
    state of the protocol and the channels to its message pump. A client is
    shared by its connection, its channel and nsqd, so it lives in the heap of
    Channel.v, of which it is the [Consumer]. The connection is the unread
    input and a buffered writer. *)
From stdpp Require Import base gmap list strings pretty.
From Stdlib Require Import ZArith Lia.
From S2P Require Import Prelude.
From S2P Require Import Net.
From S2P Require Import Decimal.
From S2P Require Import Message.
From S2P Require Import Wire.
From S2P Require Import Heap.
From S2P Require Import Channel.
From S2P Require Import Auth.
From S2P Require Import Options.
Set Default Goal Selector "!".
Local Open Scope Z_scope.

Module Client.

Definition defaultBufferSize : Z := 16 * 1024.

Definition stateInit : Z := 0.
Definition stateDisconnected : Z := 1.
Definition stateConnected : Z := 2.
Definition stateSubscribed : Z := 3.
Definition stateClosing : Z := 4.

Record identifyDataV2 := mkIdentifyData {
  id_ClientID : bytes;
  id_Hostname : bytes;
  id_HeartbeatInterval : Z;
  id_OutputBufferSize : Z;
  id_OutputBufferTimeout : Z;
  id_FeatureNegotiation : bool;
  id_TLSv1 : bool;
  id_Deflate : bool;
  id_DeflateLevel : Z;
  id_Snappy : bool;
  id_SampleRate : Z;
  id_UserAgent : bytes;
  id_MsgTimeout : Z;
}.

Record identifyEvent := mkIdentifyEvent {
  ie_OutputBufferTimeout : duration;
  ie_HeartbeatInterval : duration;
  ie_SampleRate : Z;
  ie_MsgTimeout : duration;
}.

(** What a connection is upgraded to. *)
Inductive upgrade := UpTLS | UpSnappy | UpDeflate (level : Z).

(** The buffered writer of a connection: [bufio.Writer] over the connection
    or what it was wrapped in. [cw_NewWriterConn] is a new buffered writer of
    a size over the connection itself ([c.Conn]). [cw_upgrade] wraps the
    connection and makes a buffered writer over that; it also says what the
    reader sees of the input from then on. *)
Class ConnWriter (W : Type) := {
  cw_writer :: Writer W;
  cw_Flush : W → W * option string;
  cw_FlushDeflate : W → W * option string;
  cw_NewWriterConn : Z → W → W;
  cw_upgrade : upgrade → Z → bytes → W → (bytes * W) * option string;
}.
#[global] Existing Instance cw_writer.

Record clientV2 (W : Type) := mkClient {
  ReadyCount : Z;
  InFlightCount : Z;
  MessageCount : Z;
  FinishCount : Z;
  RequeueCount : Z;
  pubCounts : gmap (list Byte.byte) Z;
  c_ID : Z;
  UserAgent : bytes;
  RemoteAddr : bytes;  (* the address of the connection *)
  cl_in : bytes;  (* what the peer sent and was not read *)
  cl_out : W;  (* the buffered writer *)
  conn_closed : bool;  (* [Close] was called *)
  OutputBufferSize : Z;
  OutputBufferTimeout : duration;
  HeartbeatInterval : duration;
  MsgTimeout : duration;
  State : Z;
  ConnectTime : time;
  c_Channel : option loc;  (* the subscribed channel *)
  ReadyStateChan : bool;  (* a token is in the channel *)
  ExitChan : bool;  (* closed *)
  ClientID : bytes;
  Hostname : bytes;
  SampleRate : Z;
  IdentifyEventChan : option identifyEvent;  (* what is in the channel *)
  SubEventChan : option loc;  (* what is in the channel *)
  TLS : bool;
  Snappy : bool;
  Deflate : bool;
  AuthSecret : bytes;
  AuthState : option Auth.State;
}.
Arguments mkClient {W} _ _ _ _ _ _ _ _ _ _ _ _ _ _ _ _ _ _ _ _ _ _ _ _ _ _ _ _ _ _ _.
Arguments ReadyCount {W} _.
Arguments InFlightCount {W} _.
Arguments MessageCount {W} _.
Arguments FinishCount {W} _.
Arguments RequeueCount {W} _.
Arguments pubCounts {W} _.
Arguments c_ID {W} _.
Arguments UserAgent {W} _.
Arguments RemoteAddr {W} _.
Arguments cl_in {W} _.
Arguments cl_out {W} _.
Arguments conn_closed {W} _.
Arguments OutputBufferSize {W} _.
Arguments OutputBufferTimeout {W} _.
Arguments HeartbeatInterval {W} _.
Arguments MsgTimeout {W} _.
Arguments State {W} _.
Arguments ConnectTime {W} _.
Arguments c_Channel {W} _.
Arguments ReadyStateChan {W} _.
Arguments ExitChan {W} _.
Arguments ClientID {W} _.
Arguments Hostname {W} _.
Arguments SampleRate {W} _.
Arguments IdentifyEventChan {W} _.
Arguments SubEventChan {W} _.
Arguments TLS {W} _.
Arguments Snappy {W} _.
Arguments Deflate {W} _.
Arguments AuthSecret {W} _.
Arguments AuthState {W} _.

Section setters.
Context {W : Type}.
Definition set_ReadyCount (x : Z) (c : clientV2 W) : clientV2 W :=
    mkClient x c.(InFlightCount) c.(MessageCount) c.(FinishCount) c.(RequeueCount) c.(pubCounts) c.(c_ID)
    c.(UserAgent) c.(RemoteAddr) c.(cl_in) c.(cl_out) c.(conn_closed) c.(OutputBufferSize)
    c.(OutputBufferTimeout) c.(HeartbeatInterval) c.(MsgTimeout) c.(State) c.(ConnectTime) c.(c_Channel)
    c.(ReadyStateChan) c.(ExitChan) c.(ClientID) c.(Hostname) c.(SampleRate) c.(IdentifyEventChan)
    c.(SubEventChan) c.(TLS) c.(Snappy) c.(Deflate) c.(AuthSecret) c.(AuthState).
Definition set_InFlightCount (x : Z) (c : clientV2 W) : clientV2 W :=
    mkClient c.(ReadyCount) x c.(MessageCount) c.(FinishCount) c.(RequeueCount) c.(pubCounts) c.(c_ID)
    c.(UserAgent) c.(RemoteAddr) c.(cl_in) c.(cl_out) c.(conn_closed) c.(OutputBufferSize)
    c.(OutputBufferTimeout) c.(HeartbeatInterval) c.(MsgTimeout) c.(State) c.(ConnectTime) c.(c_Channel)
    c.(ReadyStateChan) c.(ExitChan) c.(ClientID) c.(Hostname) c.(SampleRate) c.(IdentifyEventChan)
    c.(SubEventChan) c.(TLS) c.(Snappy) c.(Deflate) c.(AuthSecret) c.(AuthState).
Definition set_MessageCount (x : Z) (c : clientV2 W) : clientV2 W :=
    mkClient c.(ReadyCount) c.(InFlightCount) x c.(FinishCount) c.(RequeueCount) c.(pubCounts) c.(c_ID)
    c.(UserAgent) c.(RemoteAddr) c.(cl_in) c.(cl_out) c.(conn_closed) c.(OutputBufferSize)
    c.(OutputBufferTimeout) c.(HeartbeatInterval) c.(MsgTimeout) c.(State) c.(ConnectTime) c.(c_Channel)
    c.(ReadyStateChan) c.(ExitChan) c.(ClientID) c.(Hostname) c.(SampleRate) c.(IdentifyEventChan)
    c.(SubEventChan) c.(TLS) c.(Snappy) c.(Deflate) c.(AuthSecret) c.(AuthState).
Definition set_FinishCount (x : Z) (c : clientV2 W) : clientV2 W :=
    mkClient c.(ReadyCount) c.(InFlightCount) c.(MessageCount) x c.(RequeueCount) c.(pubCounts) c.(c_ID)
    c.(UserAgent) c.(RemoteAddr) c.(cl_in) c.(cl_out) c.(conn_closed) c.(OutputBufferSize)
    c.(OutputBufferTimeout) c.(HeartbeatInterval) c.(MsgTimeout) c.(State) c.(ConnectTime) c.(c_Channel)
    c.(ReadyStateChan) c.(ExitChan) c.(ClientID) c.(Hostname) c.(SampleRate) c.(IdentifyEventChan)
    c.(SubEventChan) c.(TLS) c.(Snappy) c.(Deflate) c.(AuthSecret) c.(AuthState).
Definition set_RequeueCount (x : Z) (c : clientV2 W) : clientV2 W :=
    mkClient c.(ReadyCount) c.(InFlightCount) c.(MessageCount) c.(FinishCount) x c.(pubCounts) c.(c_ID)
    c.(UserAgent) c.(RemoteAddr) c.(cl_in) c.(cl_out) c.(conn_closed) c.(OutputBufferSize)
    c.(OutputBufferTimeout) c.(HeartbeatInterval) c.(MsgTimeout) c.(State) c.(ConnectTime) c.(c_Channel)
    c.(ReadyStateChan) c.(ExitChan) c.(ClientID) c.(Hostname) c.(SampleRate) c.(IdentifyEventChan)
    c.(SubEventChan) c.(TLS) c.(Snappy) c.(Deflate) c.(AuthSecret) c.(AuthState).
Definition set_pubCounts (x : gmap (list Byte.byte) Z) (c : clientV2 W) : clientV2 W :=
    mkClient c.(ReadyCount) c.(InFlightCount) c.(MessageCount) c.(FinishCount) c.(RequeueCount) x c.(c_ID)
    c.(UserAgent) c.(RemoteAddr) c.(cl_in) c.(cl_out) c.(conn_closed) c.(OutputBufferSize)
    c.(OutputBufferTimeout) c.(HeartbeatInterval) c.(MsgTimeout) c.(State) c.(ConnectTime) c.(c_Channel)
    c.(ReadyStateChan) c.(ExitChan) c.(ClientID) c.(Hostname) c.(SampleRate) c.(IdentifyEventChan)
    c.(SubEventChan) c.(TLS) c.(Snappy) c.(Deflate) c.(AuthSecret) c.(AuthState).
Definition set_c_ID (x : Z) (c : clientV2 W) : clientV2 W :=
    mkClient c.(ReadyCount) c.(InFlightCount) c.(MessageCount) c.(FinishCount) c.(RequeueCount)
    c.(pubCounts) x c.(UserAgent) c.(RemoteAddr) c.(cl_in) c.(cl_out) c.(conn_closed) c.(OutputBufferSize)
    c.(OutputBufferTimeout) c.(HeartbeatInterval) c.(MsgTimeout) c.(State) c.(ConnectTime) c.(c_Channel)
    c.(ReadyStateChan) c.(ExitChan) c.(ClientID) c.(Hostname) c.(SampleRate) c.(IdentifyEventChan)
    c.(SubEventChan) c.(TLS) c.(Snappy) c.(Deflate) c.(AuthSecret) c.(AuthState).
Definition set_UserAgent (x : bytes) (c : clientV2 W) : clientV2 W :=
    mkClient c.(ReadyCount) c.(InFlightCount) c.(MessageCount) c.(FinishCount) c.(RequeueCount)
    c.(pubCounts) c.(c_ID) x c.(RemoteAddr) c.(cl_in) c.(cl_out) c.(conn_closed) c.(OutputBufferSize)
    c.(OutputBufferTimeout) c.(HeartbeatInterval) c.(MsgTimeout) c.(State) c.(ConnectTime) c.(c_Channel)
    c.(ReadyStateChan) c.(ExitChan) c.(ClientID) c.(Hostname) c.(SampleRate) c.(IdentifyEventChan)
    c.(SubEventChan) c.(TLS) c.(Snappy) c.(Deflate) c.(AuthSecret) c.(AuthState).
Definition set_RemoteAddr (x : bytes) (c : clientV2 W) : clientV2 W :=
    mkClient c.(ReadyCount) c.(InFlightCount) c.(MessageCount) c.(FinishCount) c.(RequeueCount)
    c.(pubCounts) c.(c_ID) c.(UserAgent) x c.(cl_in) c.(cl_out) c.(conn_closed) c.(OutputBufferSize)
    c.(OutputBufferTimeout) c.(HeartbeatInterval) c.(MsgTimeout) c.(State) c.(ConnectTime) c.(c_Channel)
    c.(ReadyStateChan) c.(ExitChan) c.(ClientID) c.(Hostname) c.(SampleRate) c.(IdentifyEventChan)
    c.(SubEventChan) c.(TLS) c.(Snappy) c.(Deflate) c.(AuthSecret) c.(AuthState).
Definition set_cl_in (x : bytes) (c : clientV2 W) : clientV2 W :=
    mkClient c.(ReadyCount) c.(InFlightCount) c.(MessageCount) c.(FinishCount) c.(RequeueCount)
    c.(pubCounts) c.(c_ID) c.(UserAgent) c.(RemoteAddr) x c.(cl_out) c.(conn_closed) c.(OutputBufferSize)
    c.(OutputBufferTimeout) c.(HeartbeatInterval) c.(MsgTimeout) c.(State) c.(ConnectTime) c.(c_Channel)
    c.(ReadyStateChan) c.(ExitChan) c.(ClientID) c.(Hostname) c.(SampleRate) c.(IdentifyEventChan)
    c.(SubEventChan) c.(TLS) c.(Snappy) c.(Deflate) c.(AuthSecret) c.(AuthState).
Definition set_cl_out (x : W) (c : clientV2 W) : clientV2 W :=
    mkClient c.(ReadyCount) c.(InFlightCount) c.(MessageCount) c.(FinishCount) c.(RequeueCount)
    c.(pubCounts) c.(c_ID) c.(UserAgent) c.(RemoteAddr) c.(cl_in) x c.(conn_closed) c.(OutputBufferSize)
    c.(OutputBufferTimeout) c.(HeartbeatInterval) c.(MsgTimeout) c.(State) c.(ConnectTime) c.(c_Channel)
    c.(ReadyStateChan) c.(ExitChan) c.(ClientID) c.(Hostname) c.(SampleRate) c.(IdentifyEventChan)
    c.(SubEventChan) c.(TLS) c.(Snappy) c.(Deflate) c.(AuthSecret) c.(AuthState).
Definition set_conn_closed (x : bool) (c : clientV2 W) : clientV2 W :=
    mkClient c.(ReadyCount) c.(InFlightCount) c.(MessageCount) c.(FinishCount) c.(RequeueCount)
    c.(pubCounts) c.(c_ID) c.(UserAgent) c.(RemoteAddr) c.(cl_in) c.(cl_out) x c.(OutputBufferSize)
    c.(OutputBufferTimeout) c.(HeartbeatInterval) c.(MsgTimeout) c.(State) c.(ConnectTime) c.(c_Channel)
    c.(ReadyStateChan) c.(ExitChan) c.(ClientID) c.(Hostname) c.(SampleRate) c.(IdentifyEventChan)
    c.(SubEventChan) c.(TLS) c.(Snappy) c.(Deflate) c.(AuthSecret) c.(AuthState).
Definition set_OutputBufferSize (x : Z) (c : clientV2 W) : clientV2 W :=
    mkClient c.(ReadyCount) c.(InFlightCount) c.(MessageCount) c.(FinishCount) c.(RequeueCount)
    c.(pubCounts) c.(c_ID) c.(UserAgent) c.(RemoteAddr) c.(cl_in) c.(cl_out) c.(conn_closed) x
    c.(OutputBufferTimeout) c.(HeartbeatInterval) c.(MsgTimeout) c.(State) c.(ConnectTime) c.(c_Channel)
    c.(ReadyStateChan) c.(ExitChan) c.(ClientID) c.(Hostname) c.(SampleRate) c.(IdentifyEventChan)
    c.(SubEventChan) c.(TLS) c.(Snappy) c.(Deflate) c.(AuthSecret) c.(AuthState).
Definition set_OutputBufferTimeout (x : duration) (c : clientV2 W) : clientV2 W :=
    mkClient c.(ReadyCount) c.(InFlightCount) c.(MessageCount) c.(FinishCount) c.(RequeueCount)
    c.(pubCounts) c.(c_ID) c.(UserAgent) c.(RemoteAddr) c.(cl_in) c.(cl_out) c.(conn_closed)
    c.(OutputBufferSize) x c.(HeartbeatInterval) c.(MsgTimeout) c.(State) c.(ConnectTime) c.(c_Channel)
    c.(ReadyStateChan) c.(ExitChan) c.(ClientID) c.(Hostname) c.(SampleRate) c.(IdentifyEventChan)
    c.(SubEventChan) c.(TLS) c.(Snappy) c.(Deflate) c.(AuthSecret) c.(AuthState).
Definition set_HeartbeatInterval (x : duration) (c : clientV2 W) : clientV2 W :=
    mkClient c.(ReadyCount) c.(InFlightCount) c.(MessageCount) c.(FinishCount) c.(RequeueCount)
    c.(pubCounts) c.(c_ID) c.(UserAgent) c.(RemoteAddr) c.(cl_in) c.(cl_out) c.(conn_closed)
    c.(OutputBufferSize) c.(OutputBufferTimeout) x c.(MsgTimeout) c.(State) c.(ConnectTime) c.(c_Channel)
    c.(ReadyStateChan) c.(ExitChan) c.(ClientID) c.(Hostname) c.(SampleRate) c.(IdentifyEventChan)
    c.(SubEventChan) c.(TLS) c.(Snappy) c.(Deflate) c.(AuthSecret) c.(AuthState).
Definition set_MsgTimeout (x : duration) (c : clientV2 W) : clientV2 W :=
    mkClient c.(ReadyCount) c.(InFlightCount) c.(MessageCount) c.(FinishCount) c.(RequeueCount)
    c.(pubCounts) c.(c_ID) c.(UserAgent) c.(RemoteAddr) c.(cl_in) c.(cl_out) c.(conn_closed)
    c.(OutputBufferSize) c.(OutputBufferTimeout) c.(HeartbeatInterval) x c.(State) c.(ConnectTime)
    c.(c_Channel) c.(ReadyStateChan) c.(ExitChan) c.(ClientID) c.(Hostname) c.(SampleRate)
    c.(IdentifyEventChan) c.(SubEventChan) c.(TLS) c.(Snappy) c.(Deflate) c.(AuthSecret) c.(AuthState).
Definition set_State (x : Z) (c : clientV2 W) : clientV2 W :=
    mkClient c.(ReadyCount) c.(InFlightCount) c.(MessageCount) c.(FinishCount) c.(RequeueCount)
    c.(pubCounts) c.(c_ID) c.(UserAgent) c.(RemoteAddr) c.(cl_in) c.(cl_out) c.(conn_closed)
    c.(OutputBufferSize) c.(OutputBufferTimeout) c.(HeartbeatInterval) c.(MsgTimeout) x c.(ConnectTime)
    c.(c_Channel) c.(ReadyStateChan) c.(ExitChan) c.(ClientID) c.(Hostname) c.(SampleRate)
    c.(IdentifyEventChan) c.(SubEventChan) c.(TLS) c.(Snappy) c.(Deflate) c.(AuthSecret) c.(AuthState).
Definition set_ConnectTime (x : time) (c : clientV2 W) : clientV2 W :=
    mkClient c.(ReadyCount) c.(InFlightCount) c.(MessageCount) c.(FinishCount) c.(RequeueCount)
    c.(pubCounts) c.(c_ID) c.(UserAgent) c.(RemoteAddr) c.(cl_in) c.(cl_out) c.(conn_closed)
    c.(OutputBufferSize) c.(OutputBufferTimeout) c.(HeartbeatInterval) c.(MsgTimeout) c.(State) x
    c.(c_Channel) c.(ReadyStateChan) c.(ExitChan) c.(ClientID) c.(Hostname) c.(SampleRate)
    c.(IdentifyEventChan) c.(SubEventChan) c.(TLS) c.(Snappy) c.(Deflate) c.(AuthSecret) c.(AuthState).
Definition set_c_Channel (x : option loc) (c : clientV2 W) : clientV2 W :=
    mkClient c.(ReadyCount) c.(InFlightCount) c.(MessageCount) c.(FinishCount) c.(RequeueCount)
    c.(pubCounts) c.(c_ID) c.(UserAgent) c.(RemoteAddr) c.(cl_in) c.(cl_out) c.(conn_closed)
    c.(OutputBufferSize) c.(OutputBufferTimeout) c.(HeartbeatInterval) c.(MsgTimeout) c.(State)
    c.(ConnectTime) x c.(ReadyStateChan) c.(ExitChan) c.(ClientID) c.(Hostname) c.(SampleRate)
    c.(IdentifyEventChan) c.(SubEventChan) c.(TLS) c.(Snappy) c.(Deflate) c.(AuthSecret) c.(AuthState).
Definition set_ReadyStateChan (x : bool) (c : clientV2 W) : clientV2 W :=
    mkClient c.(ReadyCount) c.(InFlightCount) c.(MessageCount) c.(FinishCount) c.(RequeueCount)
    c.(pubCounts) c.(c_ID) c.(UserAgent) c.(RemoteAddr) c.(cl_in) c.(cl_out) c.(conn_closed)
    c.(OutputBufferSize) c.(OutputBufferTimeout) c.(HeartbeatInterval) c.(MsgTimeout) c.(State)
    c.(ConnectTime) c.(c_Channel) x c.(ExitChan) c.(ClientID) c.(Hostname) c.(SampleRate)
    c.(IdentifyEventChan) c.(SubEventChan) c.(TLS) c.(Snappy) c.(Deflate) c.(AuthSecret) c.(AuthState).
Definition set_ExitChan (x : bool) (c : clientV2 W) : clientV2 W :=
    mkClient c.(ReadyCount) c.(InFlightCount) c.(MessageCount) c.(FinishCount) c.(RequeueCount)
    c.(pubCounts) c.(c_ID) c.(UserAgent) c.(RemoteAddr) c.(cl_in) c.(cl_out) c.(conn_closed)
    c.(OutputBufferSize) c.(OutputBufferTimeout) c.(HeartbeatInterval) c.(MsgTimeout) c.(State)
    c.(ConnectTime) c.(c_Channel) c.(ReadyStateChan) x c.(ClientID) c.(Hostname) c.(SampleRate)
    c.(IdentifyEventChan) c.(SubEventChan) c.(TLS) c.(Snappy) c.(Deflate) c.(AuthSecret) c.(AuthState).
Definition set_ClientID (x : bytes) (c : clientV2 W) : clientV2 W :=
    mkClient c.(ReadyCount) c.(InFlightCount) c.(MessageCount) c.(FinishCount) c.(RequeueCount)
    c.(pubCounts) c.(c_ID) c.(UserAgent) c.(RemoteAddr) c.(cl_in) c.(cl_out) c.(conn_closed)
    c.(OutputBufferSize) c.(OutputBufferTimeout) c.(HeartbeatInterval) c.(MsgTimeout) c.(State)
    c.(ConnectTime) c.(c_Channel) c.(ReadyStateChan) c.(ExitChan) x c.(Hostname) c.(SampleRate)
    c.(IdentifyEventChan) c.(SubEventChan) c.(TLS) c.(Snappy) c.(Deflate) c.(AuthSecret) c.(AuthState).
Definition set_Hostname (x : bytes) (c : clientV2 W) : clientV2 W :=
    mkClient c.(ReadyCount) c.(InFlightCount) c.(MessageCount) c.(FinishCount) c.(RequeueCount)
    c.(pubCounts) c.(c_ID) c.(UserAgent) c.(RemoteAddr) c.(cl_in) c.(cl_out) c.(conn_closed)
    c.(OutputBufferSize) c.(OutputBufferTimeout) c.(HeartbeatInterval) c.(MsgTimeout) c.(State)
    c.(ConnectTime) c.(c_Channel) c.(ReadyStateChan) c.(ExitChan) c.(ClientID) x c.(SampleRate)
    c.(IdentifyEventChan) c.(SubEventChan) c.(TLS) c.(Snappy) c.(Deflate) c.(AuthSecret) c.(AuthState).
Definition set_SampleRate (x : Z) (c : clientV2 W) : clientV2 W :=
    mkClient c.(ReadyCount) c.(InFlightCount) c.(MessageCount) c.(FinishCount) c.(RequeueCount)
    c.(pubCounts) c.(c_ID) c.(UserAgent) c.(RemoteAddr) c.(cl_in) c.(cl_out) c.(conn_closed)
    c.(OutputBufferSize) c.(OutputBufferTimeout) c.(HeartbeatInterval) c.(MsgTimeout) c.(State)
    c.(ConnectTime) c.(c_Channel) c.(ReadyStateChan) c.(ExitChan) c.(ClientID) c.(Hostname) x
    c.(IdentifyEventChan) c.(SubEventChan) c.(TLS) c.(Snappy) c.(Deflate) c.(AuthSecret) c.(AuthState).
Definition set_IdentifyEventChan (x : option identifyEvent) (c : clientV2 W) : clientV2 W :=
    mkClient c.(ReadyCount) c.(InFlightCount) c.(MessageCount) c.(FinishCount) c.(RequeueCount)
    c.(pubCounts) c.(c_ID) c.(UserAgent) c.(RemoteAddr) c.(cl_in) c.(cl_out) c.(conn_closed)
    c.(OutputBufferSize) c.(OutputBufferTimeout) c.(HeartbeatInterval) c.(MsgTimeout) c.(State)
    c.(ConnectTime) c.(c_Channel) c.(ReadyStateChan) c.(ExitChan) c.(ClientID) c.(Hostname) c.(SampleRate) x
    c.(SubEventChan) c.(TLS) c.(Snappy) c.(Deflate) c.(AuthSecret) c.(AuthState).
Definition set_SubEventChan (x : option loc) (c : clientV2 W) : clientV2 W :=
    mkClient c.(ReadyCount) c.(InFlightCount) c.(MessageCount) c.(FinishCount) c.(RequeueCount)
    c.(pubCounts) c.(c_ID) c.(UserAgent) c.(RemoteAddr) c.(cl_in) c.(cl_out) c.(conn_closed)
    c.(OutputBufferSize) c.(OutputBufferTimeout) c.(HeartbeatInterval) c.(MsgTimeout) c.(State)
    c.(ConnectTime) c.(c_Channel) c.(ReadyStateChan) c.(ExitChan) c.(ClientID) c.(Hostname) c.(SampleRate)
    c.(IdentifyEventChan) x c.(TLS) c.(Snappy) c.(Deflate) c.(AuthSecret) c.(AuthState).
Definition set_TLS (x : bool) (c : clientV2 W) : clientV2 W :=
    mkClient c.(ReadyCount) c.(InFlightCount) c.(MessageCount) c.(FinishCount) c.(RequeueCount)
    c.(pubCounts) c.(c_ID) c.(UserAgent) c.(RemoteAddr) c.(cl_in) c.(cl_out) c.(conn_closed)
    c.(OutputBufferSize) c.(OutputBufferTimeout) c.(HeartbeatInterval) c.(MsgTimeout) c.(State)
    c.(ConnectTime) c.(c_Channel) c.(ReadyStateChan) c.(ExitChan) c.(ClientID) c.(Hostname) c.(SampleRate)
    c.(IdentifyEventChan) c.(SubEventChan) x c.(Snappy) c.(Deflate) c.(AuthSecret) c.(AuthState).
Definition set_Snappy (x : bool) (c : clientV2 W) : clientV2 W :=
    mkClient c.(ReadyCount) c.(InFlightCount) c.(MessageCount) c.(FinishCount) c.(RequeueCount)
    c.(pubCounts) c.(c_ID) c.(UserAgent) c.(RemoteAddr) c.(cl_in) c.(cl_out) c.(conn_closed)
    c.(OutputBufferSize) c.(OutputBufferTimeout) c.(HeartbeatInterval) c.(MsgTimeout) c.(State)
    c.(ConnectTime) c.(c_Channel) c.(ReadyStateChan) c.(ExitChan) c.(ClientID) c.(Hostname) c.(SampleRate)
    c.(IdentifyEventChan) c.(SubEventChan) c.(TLS) x c.(Deflate) c.(AuthSecret) c.(AuthState).
Definition set_Deflate (x : bool) (c : clientV2 W) : clientV2 W :=
    mkClient c.(ReadyCount) c.(InFlightCount) c.(MessageCount) c.(FinishCount) c.(RequeueCount)
    c.(pubCounts) c.(c_ID) c.(UserAgent) c.(RemoteAddr) c.(cl_in) c.(cl_out) c.(conn_closed)
    c.(OutputBufferSize) c.(OutputBufferTimeout) c.(HeartbeatInterval) c.(MsgTimeout) c.(State)
    c.(ConnectTime) c.(c_Channel) c.(ReadyStateChan) c.(ExitChan) c.(ClientID) c.(Hostname) c.(SampleRate)
    c.(IdentifyEventChan) c.(SubEventChan) c.(TLS) c.(Snappy) x c.(AuthSecret) c.(AuthState).
Definition set_AuthSecret (x : bytes) (c : clientV2 W) : clientV2 W :=
    mkClient c.(ReadyCount) c.(InFlightCount) c.(MessageCount) c.(FinishCount) c.(RequeueCount)
    c.(pubCounts) c.(c_ID) c.(UserAgent) c.(RemoteAddr) c.(cl_in) c.(cl_out) c.(conn_closed)
    c.(OutputBufferSize) c.(OutputBufferTimeout) c.(HeartbeatInterval) c.(MsgTimeout) c.(State)
    c.(ConnectTime) c.(c_Channel) c.(ReadyStateChan) c.(ExitChan) c.(ClientID) c.(Hostname) c.(SampleRate)
    c.(IdentifyEventChan) c.(SubEventChan) c.(TLS) c.(Snappy) c.(Deflate) x c.(AuthState).
Definition set_AuthState (x : option Auth.State) (c : clientV2 W) : clientV2 W :=
    mkClient c.(ReadyCount) c.(InFlightCount) c.(MessageCount) c.(FinishCount) c.(RequeueCount)
    c.(pubCounts) c.(c_ID) c.(UserAgent) c.(RemoteAddr) c.(cl_in) c.(cl_out) c.(conn_closed)
    c.(OutputBufferSize) c.(OutputBufferTimeout) c.(HeartbeatInterval) c.(MsgTimeout) c.(State)
    c.(ConnectTime) c.(c_Channel) c.(ReadyStateChan) c.(ExitChan) c.(ClientID) c.(Hostname) c.(SampleRate)
    c.(IdentifyEventChan) c.(SubEventChan) c.(TLS) c.(Snappy) c.(Deflate) c.(AuthSecret) x.
End setters.

(** The answer to [Stats]. *)
Record ClientStats := mkClientStats {
  cs_ClientID : bytes;
  cs_Hostname : bytes;
  cs_Version : bytes;
  cs_RemoteAddress : bytes;
  cs_State : Z;
  cs_ReadyCount : Z;
  cs_InFlightCount : Z;
  cs_MessageCount : Z;
  cs_FinishCount : Z;
  cs_RequeueCount : Z;
  cs_ConnectTime : Z;
  cs_SampleRate : Z;
  cs_Deflate : bool;
  cs_Snappy : bool;
  cs_UserAgent : bytes;
  cs_Authed : bool;
  cs_AuthIdentity : bytes;
  cs_AuthIdentityURL : bytes;
  cs_PubCounts : list (bytes * Z);
  cs_TLS : bool;
}.

Section client.
Context {W : Type} `{ConnWriter W}.
Context (opts : Opts.Options).
Context (range : ∀ A : Type, list A → list A).
Implicit Types (c : clientV2 W).

Definition newClientV2 (id : Z) (remoteAddr input : bytes) (out : W) (now : time) : clientV2 W :=
  let identifier := match Net.SplitHostPort remoteAddr with Ok (host, _) => host | Err _ => [] end in
  mkClient 0 0 0 0 0 ∅ id [] remoteAddr input out false
    defaultBufferSize opts.(Opts.OutputBufferTimeout) (Z.quot opts.(Opts.ClientTimeout) 2) opts.(Opts.MsgTimeout)
    stateInit now None false false identifier identifier 0 None None false false false [] None.

(** ** Readiness and counters *)

(** A send that does not block. *)
Definition tryUpdateReadyState c : clientV2 W := set_ReadyStateChan true c.

Definition SetReadyCount (count : Z) c : clientV2 W := tryUpdateReadyState (set_ReadyCount count c).

(** [paused] is [c.Channel.IsPaused()]. *)
Definition IsReadyForMessages (paused : bool) c : bool :=
  if paused then false else
  if (c.(ReadyCount) <=? c.(InFlightCount)) || (c.(ReadyCount) <=? 0) then false else true.

Definition add_InFlight (d : Z) c : clientV2 W := set_InFlightCount (i64 (c.(InFlightCount) + d)) c.

Definition FinishedMessage c : clientV2 W :=
  tryUpdateReadyState (add_InFlight (-1) (set_FinishCount (u64 (c.(FinishCount) + 1)) c)).
Definition Empty c : clientV2 W := tryUpdateReadyState (set_InFlightCount 0 c).
Definition SendingMessage c : clientV2 W :=
  let c := add_InFlight 1 c in set_MessageCount (u64 (c.(MessageCount) + 1)) c.
Definition PublishedMessage (topic : bytes) (count : Z) c : clientV2 W :=
  set_pubCounts (<[topic := u64 (default 0 (c.(pubCounts) !! topic) + count)]> c.(pubCounts)) c.
Definition TimedOutMessage c : clientV2 W := tryUpdateReadyState (add_InFlight (-1) c).
Definition RequeuedMessage c : clientV2 W :=
  tryUpdateReadyState (add_InFlight (-1) (set_RequeueCount (u64 (c.(RequeueCount) + 1)) c)).
Definition StartClose c : clientV2 W := set_State stateClosing (SetReadyCount 0 c).
Definition Pause c : clientV2 W := tryUpdateReadyState c.
Definition UnPause c : clientV2 W := tryUpdateReadyState c.
(** [net.Conn]'s [Close] *)
Definition Close c : clientV2 W := set_conn_closed true c.
Definition IsProducer c : bool := bool_decide (0 < size c.(pubCounts))%nat.

#[global] Instance client_consumer : Consumer (clientV2 W) := {|
  cons_UnPause := UnPause;
  cons_Pause := Pause;
  cons_Close := Close;
  cons_TimedOutMessage := TimedOutMessage;
  cons_Empty := Empty;
|}.

(** ** Settings *)

(** [time.Duration(ms) * time.Millisecond], and [int(d / time.Millisecond)]. *)
Definition from_ms (ms : Z) : duration := i64 (ms * Millisecond).
Definition to_ms (d : duration) : Z := Z.quot d Millisecond.

Definition fmt_Z (z : Z) : string := string_of_bytes (Decimal.fmt_d z).

Definition SetHeartbeatInterval (desiredInterval : Z) c : clientV2 W * option string :=
  if desiredInterval =? -1 then (set_HeartbeatInterval 0 c, None) else
  if desiredInterval =? 0 then (c, None) else
  if (1000 <=? desiredInterval) && (desiredInterval <=? to_ms opts.(Opts.MaxHeartbeatInterval))
  then (set_HeartbeatInterval (from_ms desiredInterval) c, None)
  else (c, Some ("heartbeat interval (" +:+ fmt_Z desiredInterval +:+ ") is invalid")%string).

Definition set_timeout (desiredTimeout : Z) c : clientV2 W * option string :=
  if desiredTimeout =? -1 then (set_OutputBufferTimeout 0 c, None) else
  if desiredTimeout =? 0 then (c, None) else
  if (to_ms opts.(Opts.MinOutputBufferTimeout) <=? desiredTimeout) && (desiredTimeout <=? to_ms opts.(Opts.MaxOutputBufferTimeout))
  then (set_OutputBufferTimeout (from_ms desiredTimeout) c, None)
  else (c, Some ("output buffer timeout (" +:+ fmt_Z desiredTimeout +:+ ") is invalid")%string).

Definition set_size (desiredSize : Z) c : clientV2 W * option string :=
  if desiredSize =? -1 then (set_OutputBufferTimeout 0 (set_OutputBufferSize 1 c), None) else
  if desiredSize =? 0 then (c, None) else
  if (64 <=? desiredSize) && (desiredSize <=? opts.(Opts.MaxOutputBufferSize))
  then (set_OutputBufferSize desiredSize c, None)
  else (c, Some ("output buffer size (" +:+ fmt_Z desiredSize +:+ ") is invalid")%string).

Definition SetOutputBuffer (desiredSize desiredTimeout : Z) c : clientV2 W * option string :=
  let '(c, err) := set_timeout desiredTimeout c in
  match err with
  | Some e => (c, Some e)
  | None =>
    let '(c, err) := set_size desiredSize c in
    match err with
    | Some e => (c, Some e)
    | None =>
      if desiredSize =? 0 then (c, None) else
      let '(w, err) := cw_Flush c.(cl_out) in
      match err with
      | Some e => (set_cl_out w c, Some e)
      | None => (set_cl_out (cw_NewWriterConn c.(OutputBufferSize) w) c, None)
      end
    end
  end.

Definition SetSampleRate (sampleRate : Z) c : clientV2 W * option string :=
  if (sampleRate <? 0) || (99 <? sampleRate)
  then (c, Some ("sample rate (" +:+ fmt_Z sampleRate +:+ ") is invalid")%string)
  else (set_SampleRate sampleRate c, None).

Definition SetMsgTimeout (msgTimeout : Z) c : clientV2 W * option string :=
  if msgTimeout =? 0 then (c, None) else
  if (1000 <=? msgTimeout) && (msgTimeout <=? to_ms opts.(Opts.MaxMsgTimeout))
  then (set_MsgTimeout (from_ms msgTimeout) c, None)
  else (c, Some ("msg timeout (" +:+ fmt_Z msgTimeout +:+ ") is invalid")%string).

(** The steps run until one fails. *)
Definition then_ (r : clientV2 W * option string) (f : clientV2 W → clientV2 W * option string) : clientV2 W * option string :=
  match r with
  | (c, None) => f c
  | (c, Some e) => (c, Some e)
  end.

Definition Identify (data : identifyDataV2) c : clientV2 W * option string :=
  let c := set_UserAgent data.(id_UserAgent) (set_Hostname data.(id_Hostname) (set_ClientID data.(id_ClientID) c)) in
  then_ (SetHeartbeatInterval data.(id_HeartbeatInterval) c) (λ c,
  then_ (SetOutputBuffer data.(id_OutputBufferSize) data.(id_OutputBufferTimeout) c) (λ c,
  then_ (SetSampleRate data.(id_SampleRate) c) (λ c,
  then_ (SetMsgTimeout data.(id_MsgTimeout) c) (λ c,
  let ie := mkIdentifyEvent c.(OutputBufferTimeout) c.(HeartbeatInterval) c.(SampleRate) c.(MsgTimeout) in
  (* a send that does not block *)
  (match c.(IdentifyEventChan) with None => set_IdentifyEventChan (Some ie) c | Some _ => c end, None))))).

(** ** The connection *)

Definition Flush c : clientV2 W * option string :=
  let '(w, err) := cw_Flush c.(cl_out) in
  match err with
  | Some e => (set_cl_out w c, Some e)
  | None =>
    if c.(Deflate) then let '(w, err) := cw_FlushDeflate w in (set_cl_out w c, err) else (set_cl_out w c, None)
  end.

Definition upgrade_conn (u : upgrade) c : clientV2 W * option string :=
  let '((i, w), err) := cw_upgrade u c.(OutputBufferSize) c.(cl_in) c.(cl_out) in (set_cl_in i (set_cl_out w c), err).

Definition UpgradeTLS c : clientV2 W * option string :=
  then_ (upgrade_conn UpTLS c) (λ c, (set_TLS true c, None)).
(** These do not fail. Their connection is the one of TLS if there is one. *)
Definition UpgradeDeflate (level : Z) c : clientV2 W * option string :=
  let '(c, _) := upgrade_conn (UpDeflate level) c in
  (set_Deflate true c, None).
Definition UpgradeSnappy c : clientV2 W * option string :=
  let '(c, _) := upgrade_conn UpSnappy c in
  (set_Snappy true c, None).

(** ** Authorization *)

Context (compiles : bytes → bool) (match_string : bytes → bytes → bool) (GETV1 : bytes → res string Auth.State).
(** The common name of the peer's certificate. *)
Context (commonName : bytes).

Definition QueryAuthd (now : time) c : clientV2 W * option string :=
  match Net.SplitHostPort c.(RemoteAddr) with
  | Err e => (c, Some e)
  | Ok (remoteIP, _) =>
    match Auth.QueryAnyAuthd compiles GETV1 now opts.(Opts.AuthHTTPAddresses) remoteIP c.(TLS)
            (if c.(TLS) then commonName else []) c.(AuthSecret) with
    | Err e => (c, Some e)
    | Ok s => (set_AuthState (Some s) c, None)
    end
  end.

Definition Auth (now : time) (secret : bytes) c : clientV2 W * option string := QueryAuthd now (set_AuthSecret secret c).

(** [None] is a panic. *)
Definition IsAuthorized (now : time) (topic channel : bytes) c : option (clientV2 W * res string bool) :=
  match c.(AuthState) with
  | None => Some (c, Ok false)
  | Some s =>
    let '(c, err) := if Auth.IsExpired now s then QueryAuthd now c else (c, None) in
    match err with
    | Some e => Some (c, Err e)
    | None =>
      s ← c.(AuthState);
      b ← Auth.State_IsAllowed compiles match_string s topic channel;
      Some (c, Ok b)
    end
  end.

Definition HasAuthorizations c : bool :=
  match c.(AuthState) with
  | Some s => negb (bool_decide (s.(Auth.Authorizations) = []))
  | None => false
  end.

(** ** Statistics *)

Definition Stats c : ClientStats :=
  mkClientStats c.(ClientID) c.(Hostname) (bytes_of_string "V2") c.(RemoteAddr) c.(State) c.(ReadyCount) c.(InFlightCount)
    c.(MessageCount) c.(FinishCount) c.(RequeueCount) (c.(ConnectTime) / Second) c.(SampleRate) c.(Deflate) c.(Snappy)
    c.(UserAgent) (HasAuthorizations c)
    (match c.(AuthState) with Some s => s.(Auth.Identity) | None => [] end)
    (match c.(AuthState) with Some s => s.(Auth.IdentityURL) | None => [] end)
    (range _ (map_to_list c.(pubCounts))) c.(TLS).

End client.

(** The names of [crypto/tls]'s cipher suites and versions. *)
Definition cipher_suites : list (Z * string) :=
  [(0x0005, "TLS_RSA_WITH_RC4_128_SHA"); (0x000a, "TLS_RSA_WITH_3DES_EDE_CBC_SHA"); (0x002f, "TLS_RSA_WITH_AES_128_CBC_SHA");
   (0x0035, "TLS_RSA_WITH_AES_256_CBC_SHA"); (0xc007, "TLS_ECDHE_ECDSA_WITH_RC4_128_SHA");
   (0xc009, "TLS_ECDHE_ECDSA_WITH_AES_128_CBC_SHA"); (0xc00a, "TLS_ECDHE_ECDSA_WITH_AES_256_CBC_SHA");
   (0xc011, "TLS_ECDHE_RSA_WITH_RC4_128_SHA"); (0xc012, "TLS_ECDHE_RSA_WITH_3DES_EDE_CBC_SHA");
   (0xc013, "TLS_ECDHE_RSA_WITH_AES_128_CBC_SHA"); (0xc014, "TLS_ECDHE_RSA_WITH_AES_256_CBC_SHA");
   (0xc02f, "TLS_ECDHE_RSA_WITH_AES_128_GCM_SHA256"); (0xc02b, "TLS_ECDHE_ECDSA_WITH_AES_128_GCM_SHA256")]%string.

Definition name_of (names : list (Z * string)) (n : Z) : string :=
  match list_find (λ p, p.1 = n) names with
  | Some (_, (_, s)) => s
  | None => ("Unknown " +:+ string_of_bytes (Decimal.fmt_d n))%string
  end.

Definition GetCipherSuite (CipherSuite : Z) : string := name_of cipher_suites CipherSuite.
Definition GetVersion (Version : Z) : string :=
  name_of [(0x0300, "SSL30"); (0x0301, "TLS1.0"); (0x0302, "TLS1.1"); (0x0303, "TLS1.2")]%string Version.

End Client.
