(* ===== verification/Nsqd.v ===== *)
(** * The daemon (nsqd/nsqd.go)

    nsqd owns the topics and the clients; topics and channels live in stores
    because many parties hold pointers to them, on the heap of Channel.v, whose
    consumers are the clients. An operation of a topic or a channel runs on
    the part of the state it sees. [None] is a panic. *)
From stdpp Require Import base gmap list strings.
From Stdlib Require Import ZArith QArith Lia.
From S2P Require Import Prelude.
From S2P Require Import Net.
From S2P Require Import Decimal.
From S2P Require Import Text.
From S2P Require Import Message.
From S2P Require Import Guid.
From S2P Require Import Heap.
From S2P Require Import Backend.
From S2P Require Import Channel.
From S2P Require Import Topic.
From S2P Require Import Options.
From S2P Require Import Client.
Set Default Goal Selector "!".
Local Open Scope Z_scope.

Module Nsqd.
Import Channel Topic.

(** [meta]: the metadata kept across restarts. *)
Record meta_channel := mkMetaChannel { mc_Name : bytes; mc_Paused : bool }.
Record meta_topic := mkMetaTopic { mt_Name : bytes; mt_Paused : bool; mt_Channels : list meta_channel }.
Definition meta : Type := list meta_topic.

Record NSQD (W D Q B MB : Type) := mkNSQD {
  n_heap : heap (Client.clientV2 W);
  n_chans : gmap loc (Channel D Q);
  n_topics : gmap loc (Topic B MB);
  topicMap : gmap (list Byte.byte) loc;
  clientIDSequence : Z;
  n_clients : gset Z;  (* the keys of the map; the clients are consumers of the heap *)
  isLoading : bool;
  poolSize : Z;
}.
Arguments mkNSQD {W D Q B MB} _ _ _ _ _ _ _ _.
Arguments n_heap {W D Q B MB} _.
Arguments n_chans {W D Q B MB} _.
Arguments n_topics {W D Q B MB} _.
Arguments topicMap {W D Q B MB} _.
Arguments clientIDSequence {W D Q B MB} _.
Arguments n_clients {W D Q B MB} _.
Arguments isLoading {W D Q B MB} _.
Arguments poolSize {W D Q B MB} _.

(** ** The options are checked ([New]) *)

Definition has_prefix (p s : bytes) : bool := bool_decide (take (length p) s = p).

(** [strings.Replace(s, "%s", r, -1)] *)
Fixpoint replace_percent_s (r s : bytes) : bytes :=
  match s with
  | [] => []
  | b :: s' =>
    match s' with
    | b2 :: s'' => if bool_decide (b = byte_of_Z 37) && bool_decide (b2 = byte_of_Z 115) then r ++ replace_percent_s r s''
                   else b :: replace_percent_s r s'
    | [] => [b]
    end
  end.

(** [statsd.HostKey] (internal/statsd/host.go): dots and colons become
    underscores. *)
Definition HostKey (h : bytes) : bytes :=
  (λ b, if bool_decide (b = byte_of_Z 46) || bool_decide (b = byte_of_Z 58) then byte_of_Z 95 else b) <$> h.

Definition statsd_prefix (o : Opts.Options) (port : bytes) : bytes :=
  let p := replace_percent_s (HostKey (Net.JoinHostPort o.(Opts.BroadcastAddress) port)) o.(Opts.StatsdPrefix) in
  if bool_decide (last p = Some (byte_of_Z 46)) then p else p ++ [byte_of_Z 46].

(** [New] up to the listeners: the lock of the data path, and the TLS
    configuration ([Ok None]: none asked for), are what they turn out to be.
    The options that come out have the prefix and the TLS policy filled in. *)
Definition New_check (locked : bool) (buildTLSConfig : Opts.Options → res string (option ())) (o : Opts.Options) :
    res string (bytes * Z) :=
  if negb locked then Err "--data-path in use (possibly by another instance of nsqd)"%string else
  if (o.(Opts.MaxDeflateLevel) <? 1) || (o.(Opts.MaxDeflateLevel) >? 9) then Err "--max-deflate-level must be [1,9]"%string else
  if (o.(Opts.ID) <? 0) || (o.(Opts.ID) >=? 1024) then Err "--node-id must be [0,1024)"%string else
  prefix ← (if bool_decide (o.(Opts.StatsdPrefix) = []) then Ok [] else
            match Net.SplitHostPort o.(Opts.HTTPAddress) with
            | Err e => Err ("failed to parse HTTP address - " +:+ e)%string
            | Ok (_, port) => Ok (statsd_prefix o port)
            end);
  let tlsRequired := if negb (bool_decide (o.(Opts.TLSClientAuthPolicy) = [])) && (o.(Opts.TLSRequired) =? Opts.TLSNotRequired)
                     then Opts.TLSRequired_ else o.(Opts.TLSRequired) in
  match buildTLSConfig o with
  | Err e => Err ("failed to build TLS config - " +:+ e)%string
  | Ok tlsConfig =>
    if bool_decide (tlsConfig = None) && negb (tlsRequired =? Opts.TLSNotRequired)
    then Err "cannot require TLS client connections without TLS key and cert"%string else
    if existsb (λ v, Qle_bool v 0 || negb (Qle_bool v 1)) o.(Opts.E2EProcessingLatencyPercentiles)
    then Err "invalid E2E processing latency percentile"%string
    else Ok (prefix, tlsRequired)
  end.

Section nsqd.
Context {W D Q B MB : Type}.
Context `{Client.ConnWriter W, BackendQueue D, QuantileStream Q, BackendQueue B, UnloggedQueue MB}.
Context (opts : Opts.Options).
(** The order in which [range] visits a map. *)
Context (range : ∀ A : Type, list A → list A).
Context (channel_queue : bytes → D) (topic_queue : bytes → B) (memory_queue : bytes → MB) (e2e : option Q).

Definition nsqd : Type := NSQD W D Q B MB.
Notation NM := (ST nsqd).
Notation copts := (Opts.chan_options opts).

Definition set_n_heap (h : heap (Client.clientV2 W)) (n : nsqd) : nsqd :=
  mkNSQD h n.(n_chans) n.(n_topics) n.(topicMap) n.(clientIDSequence) n.(n_clients) n.(isLoading) n.(poolSize).
Definition set_n_chans (cs : gmap loc (Channel D Q)) (n : nsqd) : nsqd :=
  mkNSQD n.(n_heap) cs n.(n_topics) n.(topicMap) n.(clientIDSequence) n.(n_clients) n.(isLoading) n.(poolSize).
Definition set_n_topics (ts : gmap loc (Topic B MB)) (n : nsqd) : nsqd :=
  mkNSQD n.(n_heap) n.(n_chans) ts n.(topicMap) n.(clientIDSequence) n.(n_clients) n.(isLoading) n.(poolSize).
Definition set_topicMap (m : gmap (list Byte.byte) loc) (n : nsqd) : nsqd :=
  mkNSQD n.(n_heap) n.(n_chans) n.(n_topics) m n.(clientIDSequence) n.(n_clients) n.(isLoading) n.(poolSize).
Definition set_clientIDSequence (x : Z) (n : nsqd) : nsqd :=
  mkNSQD n.(n_heap) n.(n_chans) n.(n_topics) n.(topicMap) x n.(n_clients) n.(isLoading) n.(poolSize).
Definition set_n_clients (x : gset Z) (n : nsqd) : nsqd :=
  mkNSQD n.(n_heap) n.(n_chans) n.(n_topics) n.(topicMap) n.(clientIDSequence) x n.(isLoading) n.(poolSize).
Definition set_isLoading (x : bool) (n : nsqd) : nsqd :=
  mkNSQD n.(n_heap) n.(n_chans) n.(n_topics) n.(topicMap) n.(clientIDSequence) n.(n_clients) x n.(poolSize).
Definition set_poolSize (x : Z) (n : nsqd) : nsqd :=
  mkNSQD n.(n_heap) n.(n_chans) n.(n_topics) n.(topicMap) n.(clientIDSequence) n.(n_clients) n.(isLoading) x.

(** The state before any topic exists. *)
Definition empty_heap : heap (Client.clientV2 W) := Channel.mkHeap ∅ ∅ ∅ 0 [].
Definition newNSQD : nsqd := mkNSQD empty_heap ∅ ∅ ∅ 0 ∅ false 0.

(** A method call on the topic [l], and on the channel [l]. *)
Definition on_topic {A} (l : loc) (m : ST (heap (Client.clientV2 W) * gmap loc (Channel D Q) * Topic B MB) A) : NM A :=
  n ← getST;
  t ← liftST (n.(n_topics) !! l);
  '(a, (h, cs, t)) ← liftST (m (n.(n_heap), n.(n_chans), t));
  _ ← putST (set_n_heap h (set_n_chans cs (set_n_topics (<[l := t]> n.(n_topics)) n)));
  mret a.

Definition on_channel {A} (l : loc) (m : ST (heap (Client.clientV2 W) * Channel D Q) A) : NM A :=
  n ← getST;
  c ← liftST (n.(n_chans) !! l);
  '(a, (h, c)) ← liftST (m (n.(n_heap), c));
  _ ← putST (set_n_heap h (set_n_chans (<[l := c]> n.(n_chans)) n));
  mret a.

(** ** Clients *)

Definition get_client (id : Z) : NM (Client.clientV2 W) := n ← getST; liftST (n.(n_heap).(consumers) !! id).
Definition put_client (id : Z) (c : Client.clientV2 W) : NM () :=
  modST (λ n, set_n_heap (set_consumers (<[id := c]> n.(n_heap).(consumers)) n.(n_heap)) n).

Definition AddClient (clientID : Z) (c : Client.clientV2 W) : NM () :=
  _ ← put_client clientID c;
  modST (λ n, set_n_clients ({[clientID]} ∪ n.(n_clients)) n).
Definition RemoveClient (clientID : Z) : NM () :=
  modST (λ n, if bool_decide (clientID ∈ n.(n_clients)) then set_n_clients (n.(n_clients) ∖ {[clientID]}) n else n).

(** ** Health

    The error of the last call of [SetHealth]. *)
Definition GetError (n : nsqd) : option string :=
  foldl (λ e ev, match ev with SetHealth err => err | _ => e end) None n.(n_heap).(ctx_log).
Definition IsHealthy (n : nsqd) : bool := bool_decide (GetError n = None).
Definition GetHealth (n : nsqd) : string :=
  match GetError n with Some err => "NOK - " +:+ err | None => "OK" end%string.

Definition IsAuthEnabled : bool := negb (bool_decide (opts.(Opts.AuthHTTPAddresses) = [])).

(** ** Topics *)

(** [t = NewTopic(topicName, ...)] and its entry in [topicMap]. *)
Definition new_topic (topicName : bytes) : NM loc :=
  n ← getST;
  let l := n.(n_heap).(next) in
  let '(h, cs, t) := NewTopic topic_queue memory_queue opts.(Opts.ID) topicName (set_next (S l) n.(n_heap)) n.(n_chans) in
  _ ← putST (set_n_heap h (set_n_chans cs (set_n_topics (<[l := t]> n.(n_topics)) n)));
  _ ← modST (λ n, set_topicMap (<[topicName := l]> n.(topicMap)) n);
  mret l.

(** The channels nsqlookupd knows, but the ephemeral ones. *)
Fixpoint precreate (l : loc) (names : list bytes) : NM () :=
  match names with
  | [] => mret ()
  | name :: names =>
    _ ← (if Names.HasSuffix name Names.ephemeral_suffix then mret ()
         else _ ← on_topic l (GetChannel copts range channel_queue e2e name); mret ());
    precreate l names
  end.

(** [lookupdHTTPAddrs] and [ci.GetLookupdTopicChannels], which returns the
    channels it could get even when it fails. *)
Context (lookupdHTTPAddrs : list bytes) (GetLookupdTopicChannels : bytes → list bytes).

Definition GetTopic (topicName : bytes) : NM loc :=
  n ← getST;
  match n.(topicMap) !! topicName with
  | Some l => mret l
  | None =>
    l ← new_topic topicName;
    n ← getST;
    if n.(isLoading) then mret l else
    _ ← (if bool_decide (lookupdHTTPAddrs = []) then mret () else precreate l (GetLookupdTopicChannels topicName));
    _ ← on_topic l Start;
    mret l
  end.

Definition GetExistingTopic (topicName : bytes) : NM (res string loc) :=
  n ← getST;
  match n.(topicMap) !! topicName with
  | Some l => mret (Ok l)
  | None => mret (Err "topic does not exist"%string)
  end.

(** [None]: the call does not return, because the topic cannot exit. *)
Definition DeleteExistingTopic (topicName : bytes) : NM (option (option string)) :=
  n ← getST;
  match n.(topicMap) !! topicName with
  | None => mret (Some (Some "topic does not exist"%string))
  | Some l =>
    r ← on_topic l (t_Delete copts range);
    match r with
    | None => mret None
    | Some _ =>
      _ ← modST (λ n, set_topicMap (delete topicName n.(topicMap)) n);
      mret (Some None)
    end
  end.

(** [channels()] *)
Definition channels (n : nsqd) : list loc :=
  l ← range _ (map_to_list n.(topicMap)).*2;
  match n.(n_topics) !! l with
  | Some t => range _ (map_to_list t.(t_channelMap)).*2
  | None => []
  end.

(** ** Metadata *)

Definition channel_meta (n : nsqd) (l : loc) : option (list meta_channel) :=
  c ← n.(n_chans) !! l;
  Some (if c.(ephemeral) then [] else [mkMetaChannel c.(Channel.name) c.(paused)]).

Definition topic_meta (n : nsqd) (l : loc) : option meta :=
  t ← n.(n_topics) !! l;
  if t.(t_ephemeral) then Some [] else
  cs ← mapM (channel_meta n) (range _ (map_to_list t.(t_channelMap)).*2);
  Some [mkMetaTopic t.(t_name) t.(t_paused) (mjoin cs)].

(** What [PersistMetadata] writes. *)
Definition metadata (n : nsqd) : option meta :=
  ts ← mapM (topic_meta n) (range _ (map_to_list n.(topicMap)).*2);
  Some (mjoin ts).

(** The files. [writeSyncFile] truncates, writes and syncs; it fails where
    [fault] says: opening, writing (after some bytes) or syncing. *)
Definition files : Type := gmap (list Byte.byte) bytes.
Inductive fault := FOpen (e : string) | FWrite (written : nat) (e : string) | FSync (e : string).

Definition writeSyncFile (f : option fault) (fn data : bytes) (fs : files) : files * option string :=
  match f with
  | Some (FOpen e) => (fs, Some e)
  | Some (FWrite k e) => (<[fn := take k data]> fs, Some e)
  | Some (FSync e) => (<[fn := data]> fs, Some e)
  | None => (<[fn := data]> fs, None)
  end.

(** [os.Rename] replaces the file in one step, or fails. *)
Definition Rename (fails : option string) (old new : bytes) (fs : files) : files * option string :=
  match fails with
  | Some e => (fs, Some e)
  | None =>
    match fs !! old with
    | None => (fs, Some "no such file or directory"%string)
    | Some data => (<[new := data]> (delete old fs), None)
    end
  end.

(** [path.Join(opts.DataPath, "nsqd.dat")] of a clean path. *)
Definition newMetadataFile : bytes := opts.(Opts.DataPath) ++ bytes_of_string "/nsqd.dat".

Definition PersistMetadata (marshal : meta → bytes) (random : bytes) (f : option fault) (rename_fails : option string)
    (n : nsqd) (fs : files) : option (files * option string) :=
  js ← metadata n;
  let data := marshal js in
  let tmpFileName := newMetadataFile ++ bytes_of_string "." ++ random ++ bytes_of_string ".tmp" in
  let '(fs, err) := writeSyncFile f tmpFileName data fs in
  match err with
  | Some e => Some (fs, Some e)
  | None => Some (Rename rename_fails tmpFileName newMetadataFile fs)
  end.

Fixpoint load_channels (l : loc) (cs : list meta_channel) : NM () :=
  match cs with
  | [] => mret ()
  | c :: cs =>
    _ ← (if negb (Names.IsValidChannelName c.(mc_Name)) then mret () else
         lc ← on_topic l (GetChannel copts range channel_queue e2e c.(mc_Name));
         if c.(mc_Paused) then on_channel lc Channel.Pause else mret ());
    load_channels l cs
  end.

Fixpoint load_topics (ts : meta) : NM () :=
  match ts with
  | [] => mret ()
  | t :: ts =>
    _ ← (if negb (Names.IsValidTopicName t.(mt_Name)) then mret () else
         l ← GetTopic t.(mt_Name);
         _ ← (if t.(mt_Paused) then on_topic l t_Pause else mret ());
         _ ← load_channels l t.(mt_Channels);
         on_topic l Start);
    load_topics ts
  end.

(** [None] of the unmarshaller is an error; a missing file is a fresh
    start. *)
Definition LoadMetadata (unmarshal : bytes → option meta) (fs : files) : NM (option string) :=
  _ ← modST (set_isLoading true);
  err ← match fs !! newMetadataFile with
        | None => mret None
        | Some data =>
          match unmarshal data with
          | None => mret (Some "failed to parse metadata"%string)
          | Some m => _ ← load_topics m; mret None
          end
        end;
  _ ← modST (set_isLoading false);
  mret err.

(** [false]: a topic never returns. *)
Fixpoint close_topics (ls : list loc) : NM bool :=
  match ls with
  | [] => mret true
  | l :: ls =>
    r ← on_topic l (t_Close copts range);
    match r with None => mret false | Some _ => close_topics ls end
  end.

(** [Exit] after the listeners are closed; that the metadata could not be
    written is only logged. *)
Definition Exit (marshal : meta → bytes) (random : bytes) (f : option fault) (rename_fails : option string) (fs : files) :
    NM (files * bool) :=
  n ← getST;
  '(fs, _) ← liftST (PersistMetadata marshal random f rename_fails n fs);
  ok ← close_topics (range _ (map_to_list n.(topicMap)).*2);
  mret (fs, ok).

(** ** The queue scan *)

(** [int(float64(num) * 0.25)], clamped. *)
Definition idealPoolSize (num : Z) : Z :=
  let ideal := Z.quot num 4 in
  if ideal <? 1 then 1 else
  if ideal >? opts.(Opts.QueueScanWorkerPoolMax) then opts.(Opts.QueueScanWorkerPoolMax) else ideal.

(** The loop of [resizePool]: workers are told to stop or started one by one.
    Telling one to stop blocks when there is none ([None]). [fuel] bounds the
    rounds. *)
Fixpoint resize_loop (fuel : nat) (ideal pool : Z) : option Z :=
  match fuel with
  | O => None
  | S fuel =>
    if ideal =? pool then Some pool else
    if ideal <? pool then (if pool <=? 0 then None else resize_loop fuel ideal (pool - 1))
    else resize_loop fuel ideal (pool + 1)
  end.

Definition resizePool (num : Z) : NM () :=
  n ← getST;
  let ideal := idealPoolSize num in
  p ← liftST (resize_loop (S (Z.to_nat (Z.abs (ideal - n.(poolSize))))) ideal n.(poolSize));
  modST (set_poolSize p).

(** A worker handles a channel. *)
Definition queueScanWorker (now : time) (l : loc) : NM bool :=
  let t := UnixNano now in
  d1 ← on_channel l (processInFlightQueue copts t);
  d2 ← on_channel l (processDeferredQueue copts t);
  mret (d1 || d2).

(** The channels at the given positions of the cached list. *)
Fixpoint scan_selected (now : time) (cs : list loc) (sel : list nat) : NM nat :=
  match sel with
  | [] => mret 0%nat
  | i :: sel =>
    l ← liftST (cs !! i);
    dirty ← queueScanWorker now l;
    k ← scan_selected now cs sel;
    mret (if dirty : bool then S k else k)
  end.

(** One pass of [loop:] over the cached channels: [true] asks for another. *)
Definition scan_pass (now : time) (rand_Int : nat → nat) (cs : list loc) : NM bool :=
  let num := Nat.min (Z.to_nat opts.(Opts.QueueScanSelectionCount)) (length cs) in
  sel ← liftST (Rands.UniqRands rand_Int num (length cs));
  numDirty ← scan_selected now cs sel;
  (* 0/0 is not a number *)
  if bool_decide (num = 0%nat) then mret false else
  mret (negb (Qle_bool (Z.of_nat numDirty # Pos.of_nat num) opts.(Opts.QueueScanDirtyPercent))).

(** The clock and the random numbers of each pass. [false]: there were fewer
    than the passes the scan asked for. *)
Fixpoint scan_passes (passes : list (time * (nat → nat))) (cs : list loc) : NM bool :=
  match passes with
  | [] => mret false
  | (now, rand_Int) :: passes =>
    again ← scan_pass now rand_Int cs;
    if again : bool then scan_passes passes cs else mret true
  end.

(** [queueScanLoop]: the start, and the cases of its select. The loop keeps
    the list of channels. *)
Definition refresh : NM (list loc) :=
  n ← getST;
  let cs := channels n in
  _ ← resizePool (Z.of_nat (length cs));
  mret cs.

Definition queueScanLoop_start : NM (list loc) :=
  (* [make(chan *Channel, count)], [time.NewTicker] *)
  if (opts.(Opts.QueueScanSelectionCount) <? 0) || (opts.(Opts.QueueScanInterval) <=? 0) || (opts.(Opts.QueueScanRefreshInterval) <=? 0)
  then panic else refresh.

Inductive scan_event := ScanWork (passes : list (time * (nat → nat))) | ScanRefresh | ScanExit.

(** [None]: the loop ends; [Some (cs, false)]: it goes on scanning. *)
Definition queueScanLoop_turn (cs : list loc) (ev : scan_event) : NM (option (list loc * bool)) :=
  match ev with
  | ScanWork passes =>
    if bool_decide (cs = []) then mret (Some (cs, true)) else
    ok ← scan_passes passes cs;
    mret (Some (cs, ok))
  | ScanRefresh => cs ← refresh; mret (Some (cs, true))
  | ScanExit => mret None
  end.

End nsqd.
End Nsqd.
