(* ===== verification/Protocol.v ===== *)
(** * The client protocol of nsqd (nsqd/protocol_v2.go)

    A connection is served by two goroutines: [IOLoop] reads commands and
    answers them, [messagePump] sends messages and heartbeats. A turn of
    either is a step on the state of nsqd. A command handler ends with a
    response, fails with a client error, or waits for something that does not
    happen ([Blocked]); [None] is a panic. *)
From stdpp Require Import base gmap list strings.
From Stdlib Require Import ZArith Lia.
From S2P Require Import Prelude.
From S2P Require Import Decimal.
From S2P Require Import Text.
From S2P Require Import Message.
From S2P Require Import Guid.
From S2P Require Import Wire.
From S2P Require Import Heap.
From S2P Require Import Backend.
From S2P Require Import Channel.
From S2P Require Import Topic.
From S2P Require Import Options.
From S2P Require Import Auth.
From S2P Require Import Client.
From S2P Require Import Nsqd.
Set Default Goal Selector "!".
Local Open Scope Z_scope.

Module Protocol.
Import Wire Nsqd.

Definition frameTypeResponse : Z := 0.
Definition frameTypeError : Z := 1.
Definition frameTypeMessage : Z := 2.

Definition heartbeatBytes : bytes := bytes_of_string "_heartbeat_".
Definition okBytes : bytes := bytes_of_string "OK".

(** ** Programs that fail or wait *)

Inductive ending := Fail (e : client_error) | Blocked.

Definition PM (S A : Type) : Type := ST S (res ending A).
#[export] Instance PM_ret {S} : MRet (PM S) := λ A a s, Some (Ok a, s).
#[export] Instance PM_bind {S} : MBind (PM S) := λ A B f m s,
  match m s with
  | Some (Ok a, s) => f a s
  | Some (Err e, s) => Some (Err e, s)
  | None => None
  end.
Definition lift {S A} (m : ST S A) : PM S A := λ s, '(a, s) ← m s; Some (Ok a, s).
Definition fail {S A} (e : client_error) : PM S A := λ s, Some (Err (Fail e), s).
Definition blocked {S A} : PM S A := λ s, Some (Err Blocked, s).
(** [if b { return nil, e }] *)
Definition throwIf {S} (b : bool) (e : client_error) : PM S () := if b then fail e else mret ().
Definition crash {S A} : PM S A := λ _, None.
Definition pdone {S A} (a : A) : PM S A := mret a.

(** The response to IDENTIFY with feature negotiation. *)
Record identify_response := mkIdentifyResponse {
  ir_MaxRdyCount : Z;
  ir_MaxMsgTimeout : Z;
  ir_MsgTimeout : Z;
  ir_TLSv1 : bool;
  ir_Deflate : bool;
  ir_DeflateLevel : Z;
  ir_MaxDeflateLevel : Z;
  ir_Snappy : bool;
  ir_SampleRate : Z;
  ir_AuthRequired : bool;
  ir_OutputBufferSize : Z;
  ir_OutputBufferTimeout : Z;
}.

(** The response to AUTH. *)
Record auth_response := mkAuthResponse { ar_Identity : bytes; ar_IdentityURL : bytes; ar_PermissionCount : nat }.

(** What the message pump keeps in local variables: the channel it sends
    from, whether [subEventChan], [identifyEventChan] and [heartbeatChan] are
    not nil, whether the output buffer ticker runs, whether everything was
    flushed, the sample rate and the message time-out. *)
Record pump := mkPump {
  p_subChannel : option loc;
  p_subEvent : bool;
  p_identifyEvent : bool;
  p_heartbeat : bool;
  p_ticker : bool;
  p_flushed : bool;
  p_sampleRate : Z;
  p_msgTimeout : duration;
}.

(** The cases of the pump's [select]; [rnd] is [rand.Int31n(100)]. *)
Inductive pump_event :=
| EvFlush
| EvReady
| EvSub
| EvIdentify
| EvHeartbeat
| EvBackend (now : time) (rnd : Z)
| EvMemory (now : time) (rnd : Z)
| EvExit.

(** What the head of the pump's loop selected: nothing to receive, or
    messages, with the flush ticker or without. *)
Inductive pump_mode := NotReady | Unbuffered | Buffered.

(** A turn of the pump: the case cannot be taken, the pump goes on, or it
    leaves its loop. *)
Inductive pump_result := Disabled | Goes (p : pump) | Leaves (err : option string).

Section protocol.
Context {W D Q B MB : Type}.
Context `{Client.ConnWriter W, BackendQueue D, QuantileStream Q, BackendQueue B, UnloggedQueue MB}.
Context (opts : Opts.Options) (range : ∀ A : Type, list A → list A).
Context (channel_queue : bytes → D) (topic_queue : bytes → B) (memory_queue : bytes → MB) (e2e : option Q).
Context (lookupdHTTPAddrs : list bytes) (GetLookupdTopicChannels : bytes → list bytes).
(** Regular expressions, the authorization servers and certificates. *)
Context (compiles : bytes → bool) (match_string : bytes → bytes → bool) (GETV1 : bytes → res string Auth.State) (commonName : bytes).
(** JSON, the verb %q of [fmt] ([strconv.Quote]), and whether a TLS
    configuration is loaded. *)
Context (Quote : bytes → string).
Context (unmarshal_identify : bytes → option Client.identifyDataV2).
Context (marshal_identify : identify_response → res string bytes) (marshal_auth : auth_response → res string bytes).
Context (tlsConfig : bool).

Notation nsqd := (NSQD W D Q B MB).
Notation client := (Client.clientV2 W).
Notation NM := (ST nsqd).
Notation CM := (PM nsqd).
Notation copts := (Opts.chan_options opts).

(** ** Reading and writing *)

Definition upd_client (id : Z) (f : client → client) : NM () := c ← get_client id; put_client id (f c).
(** A method of the client that returns an error. *)
Definition run_client (id : Z) (f : client → client * option string) : NM (option string) :=
  c ← get_client id;
  let '(c, err) := f c in
  _ ← put_client id c;
  mret err.

(** [io.ReadFull]: what could not be filled is lost. *)
Definition ReadFull (id : Z) (n : nat) : NM (option bytes) :=
  c ← get_client id;
  if bool_decide (length c.(Client.cl_in) < n)%nat then _ ← put_client id (Client.set_cl_in [] c); mret None
  else _ ← put_client id (Client.set_cl_in (drop n c.(Client.cl_in)) c); mret (Some (take n c.(Client.cl_in))).

(** Filling a buffer from an [io.Reader]: the connection of a client, or the
    body of a request, which is the state of its reader. *)
Definition reader (R : Type) : Type := nat → R → NM (option bytes * R).
Definition client_reader (id : Z) : reader () := λ k _, b ← ReadFull id k; mret (b, ()).
Definition body_reader : reader bytes := λ k r,
  mret (if bool_decide (length r < k)%nat then (None, []) else (Some (take k r), drop k r)).

Definition readLen {R} (rd : reader R) (r : R) : NM (option Z * R) :=
  '(b, r) ← rd 4%nat r;
  mret ((λ b, i32 (be_decode b)) <$> b, r).

(** [Send] on the client's writer; everything but messages is flushed. *)
Definition send_frame (frameType : Z) (data : bytes) (c : client) : client * option string :=
  let '(w, (_, err)) := SendFramedResponse c.(Client.cl_out) frameType data in
  let c := Client.set_cl_out w c in
  match err with
  | Some e => (c, Some e)
  | None => if frameType =? frameTypeMessage then (c, None) else Client.Flush c
  end.
Definition Send (id : Z) (frameType : Z) (data : bytes) : NM (option string) := run_client id (send_frame frameType data).

Definition SendMessage (id : Z) (m : Message) : NM (option string) := Send id frameTypeMessage (encode_message m).

Definition fatal (parent : option string) (code desc : string) : client_error := FatalClientErr parent code desc.
Definition text (b : bytes) : string := string_of_bytes b.
Definition num (z : Z) : string := Client.fmt_Z z.

(** [if err != nil { return nil, e(err) }] *)
Definition on_error {A} (err : option string) (e : string → client_error) (k : CM A) : CM A :=
  match err with Some s => fail (e s) | None => k end.

(** Reading a size, and a body of a size. *)
Definition len_from {R} (rd : reader R) (r : R) (code desc : string) : CM (Z * R) :=
  '(n, r) ← lift (readLen rd r);
  match n with Some n => mret (n, r) | None => fail (fatal (Some "EOF"%string) code desc) end.
Definition body_from {R} (rd : reader R) (r : R) (n : Z) (code desc : string) : CM (bytes * R) :=
  (* [make([]byte, bodyLen)] *)
  if n <? 0 then crash else
  '(b, r) ← lift (rd (Z.to_nat n) r);
  match b with Some b => mret (b, r) | None => fail (fatal (Some "EOF"%string) code desc) end.

Definition need_len (id : Z) (code desc : string) : CM Z :=
  '(n, _) ← len_from (client_reader id) () code desc; mret n.
Definition need_body (id : Z) (n : Z) (code desc : string) : CM bytes :=
  '(b, _) ← body_from (client_reader id) () n code desc; mret b.

(** ** Authorization *)

Definition enforceTLSPolicy (c : client) (command : bytes) : CM () :=
  throwIf (negb (opts.(Opts.TLSRequired) =? Opts.TLSNotRequired) && negb c.(Client.TLS))
    (fatal None "E_INVALID" ("cannot " +:+ text command +:+ " in current state (TLS required)")).

Definition CheckAuth (now : time) (id : Z) (cmd : string) (topicName channelName : bytes) : CM () :=
  if negb (IsAuthEnabled opts) then mret () else
  c ← lift (get_client id);
  _ ← throwIf (negb (Client.HasAuthorizations c)) (fatal None "E_AUTH_FIRST" ("AUTH required before " +:+ cmd));
  match Client.IsAuthorized opts compiles match_string GETV1 commonName now topicName channelName c with
  | None => crash
  | Some (c, r) =>
    _ ← lift (put_client id c);
    match r with
    | Err _ => fail (fatal None "E_AUTH_FAILED" "AUTH failed")
    | Ok ok => throwIf (negb ok) (fatal None "E_UNAUTHORIZED"
                 ("AUTH failed for " +:+ cmd +:+ " on " +:+ Quote topicName +:+ " " +:+ Quote channelName))
    end
  end.

(** ** Commands *)

Definition bad_state (cmd : string) : client_error := fatal None "E_INVALID" ("cannot " +:+ cmd +:+ " in current state").

(** The features the client and the options agree on. *)
Definition negotiate (d : Client.identifyDataV2) : bool * bool * Z * bool :=
  let tlsv1 := tlsConfig && d.(Client.id_TLSv1) in
  let deflate := opts.(Opts.DeflateEnabled) && d.(Client.id_Deflate) in
  let level := if deflate && (0 <? d.(Client.id_DeflateLevel)) then d.(Client.id_DeflateLevel) else 6 in
  let level := if opts.(Opts.MaxDeflateLevel) <? level then opts.(Opts.MaxDeflateLevel) else level in
  let snappy := opts.(Opts.SnappyEnabled) && d.(Client.id_Snappy) in
  (tlsv1, deflate, level, snappy).

(** Upgrading the connection and confirming it on the new one. *)
Definition upgrade_and_confirm (id : Z) (f : client → client * option string) : CM () :=
  err ← lift (run_client id f);
  on_error err (λ e, fatal (Some e) "E_IDENTIFY_FAILED" ("IDENTIFY failed " +:+ e)) (
  err ← lift (Send id frameTypeResponse okBytes);
  on_error err (λ e, fatal (Some e) "E_IDENTIFY_FAILED" ("IDENTIFY failed " +:+ e)) (mret ())).

Definition IDENTIFY (id : Z) : CM (option bytes) :=
  c ← lift (get_client id);
  _ ← throwIf (negb (c.(Client.State) =? Client.stateInit)) (bad_state "IDENTIFY");
  bodyLen ← need_len id "E_BAD_BODY" "IDENTIFY failed to read body size";
  _ ← throwIf (opts.(Opts.MaxBodySize) <? bodyLen)
        (fatal None "E_BAD_BODY" ("IDENTIFY body too big " +:+ num bodyLen +:+ " > " +:+ num opts.(Opts.MaxBodySize)));
  _ ← throwIf (bodyLen <=? 0) (fatal None "E_BAD_BODY" ("IDENTIFY invalid body size " +:+ num bodyLen));
  body ← need_body id bodyLen "E_BAD_BODY" "IDENTIFY failed to read body";
  match unmarshal_identify body with
  | None => fail (fatal (Some "json"%string) "E_BAD_BODY" "IDENTIFY failed to decode JSON body")
  | Some d =>
    err ← lift (run_client id (Client.Identify opts d));
    on_error err (λ e, fatal (Some e) "E_BAD_BODY" ("IDENTIFY " +:+ e)) (
    if negb d.(Client.id_FeatureNegotiation) then mret (Some okBytes) else
    let '(tlsv1, deflate, deflateLevel, snappy) := negotiate d in
    _ ← throwIf (deflate && snappy) (fatal None "E_IDENTIFY_FAILED" "cannot enable both deflate and snappy compression");
    c ← lift (get_client id);
    match marshal_identify (mkIdentifyResponse opts.(Opts.MaxRdyCount) (Client.to_ms opts.(Opts.MaxMsgTimeout))
            (Client.to_ms c.(Client.MsgTimeout)) tlsv1 deflate deflateLevel opts.(Opts.MaxDeflateLevel) snappy
            c.(Client.SampleRate) (IsAuthEnabled opts) c.(Client.OutputBufferSize) (Client.to_ms c.(Client.OutputBufferTimeout))) with
    | Err e => fail (fatal (Some e) "E_IDENTIFY_FAILED" ("IDENTIFY failed " +:+ e))
    | Ok resp =>
      err ← lift (Send id frameTypeResponse resp);
      on_error err (λ e, fatal (Some e) "E_IDENTIFY_FAILED" ("IDENTIFY failed " +:+ e)) (
      _ ← (if tlsv1 : bool then upgrade_and_confirm id Client.UpgradeTLS else mret ());
      _ ← (if snappy : bool then upgrade_and_confirm id Client.UpgradeSnappy else mret ());
      _ ← (if deflate : bool then upgrade_and_confirm id (Client.UpgradeDeflate deflateLevel) else mret ());
      mret None)
    end)
  end.

Definition AUTH (now : time) (id : Z) (params : list bytes) : CM (option bytes) :=
  c ← lift (get_client id);
  _ ← throwIf (negb (c.(Client.State) =? Client.stateInit)) (bad_state "AUTH");
  _ ← throwIf (negb (bool_decide (length params = 1)%nat)) (fatal None "E_INVALID" "AUTH invalid number of parameters");
  bodyLen ← need_len id "E_BAD_BODY" "AUTH failed to read body size";
  _ ← throwIf (opts.(Opts.MaxBodySize) <? bodyLen)
        (fatal None "E_BAD_BODY" ("AUTH body too big " +:+ num bodyLen +:+ " > " +:+ num opts.(Opts.MaxBodySize)));
  _ ← throwIf (bodyLen <=? 0) (fatal None "E_BAD_BODY" ("AUTH invalid body size " +:+ num bodyLen));
  body ← need_body id bodyLen "E_BAD_BODY" "AUTH failed to read body";
  c ← lift (get_client id);
  _ ← throwIf (Client.HasAuthorizations c) (fatal None "E_INVALID" "AUTH already set");
  _ ← throwIf (negb (IsAuthEnabled opts)) (fatal None "E_AUTH_DISABLED" "AUTH disabled");
  err ← lift (run_client id (Client.Auth opts compiles GETV1 commonName now body));
  on_error err (λ e, fatal (Some e) "E_AUTH_FAILED" "AUTH failed") (
  c ← lift (get_client id);
  _ ← throwIf (negb (Client.HasAuthorizations c)) (fatal None "E_UNAUTHORIZED" "AUTH no authorizations found");
  s ← lift (liftST c.(Client.AuthState));
  match marshal_auth (mkAuthResponse s.(Auth.Identity) s.(Auth.IdentityURL) (length s.(Auth.Authorizations))) with
  | Err e => fail (fatal (Some e) "E_AUTH_ERROR" ("AUTH error " +:+ e))
  | Ok resp =>
    err ← lift (Send id frameTypeResponse resp);
    on_error err (λ e, fatal (Some e) "E_AUTH_ERROR" ("AUTH error " +:+ e)) (mret None)
  end).

Notation get_topic := (GetTopic opts range channel_queue topic_queue memory_queue e2e lookupdHTTPAddrs GetLookupdTopicChannels).

(** Both are ephemeral and exiting, or one of them. *)
Definition going_away (tl cl : loc) : NM bool :=
  n ← getST;
  t ← liftST (n.(n_topics) !! tl);
  c ← liftST (n.(n_chans) !! cl);
  mret (c.(Channel.ephemeral) && c.(Channel.exitFlag) || t.(Topic.t_ephemeral) && t.(Topic.t_exitFlag)).

(** The retry loop of SUB. Between two attempts others may move; alone, it
    would find the same channel again, so it waits after [fuel] attempts. *)
Fixpoint sub_loop (fuel : nat) (id : Z) (topicName channelName : bytes) : CM loc :=
  match fuel with
  | O => blocked
  | S fuel =>
    tl ← lift (get_topic topicName);
    cl ← lift (on_topic tl (Topic.GetChannel copts range channel_queue e2e channelName));
    err ← lift (on_channel cl (Channel.AddClient copts id));
    on_error err (λ _, fatal None "E_TOO_MANY_CHANNEL_CONSUMERS"
      ("channel consumers for " +:+ text topicName +:+ ":" +:+ text channelName +:+ " exceeds limit of " +:+ num opts.(Opts.MaxChannelConsumers))) (
    away ← lift (going_away tl cl);
    if away : bool then _ ← lift (on_channel cl (Channel.RemoveClient id)); sub_loop fuel id topicName channelName
    else mret cl)
  end.

Definition SUB (now : time) (attempts : nat) (id : Z) (params : list bytes) : CM (option bytes) :=
  c ← lift (get_client id);
  _ ← throwIf (negb (c.(Client.State) =? Client.stateInit)) (bad_state "SUB");
  _ ← throwIf (c.(Client.HeartbeatInterval) <=? 0) (fatal None "E_INVALID" "cannot SUB with heartbeats disabled");
  match params with
  | _ :: topicName :: channelName :: _ =>
    _ ← throwIf (negb (Names.IsValidTopicName topicName))
          (fatal None "E_BAD_TOPIC" ("SUB topic name " +:+ Quote topicName +:+ " is not valid"));
    _ ← throwIf (negb (Names.IsValidChannelName channelName))
          (fatal None "E_BAD_CHANNEL" ("SUB channel name " +:+ Quote channelName +:+ " is not valid"));
    _ ← CheckAuth now id "SUB" topicName channelName;
    cl ← sub_loop attempts id topicName channelName;
    _ ← lift (upd_client id (λ c, Client.set_c_Channel (Some cl) (Client.set_State Client.stateSubscribed c)));
    c ← lift (get_client id);
    match c.(Client.SubEventChan) with
    | Some _ => blocked
    | None => _ ← lift (upd_client id (Client.set_SubEventChan (Some cl))); mret (Some okBytes)
    end
  | _ => fail (fatal None "E_INVALID" "SUB insufficient number of parameters")
  end.

Definition RDY (id : Z) (params : list bytes) : CM (option bytes) :=
  c ← lift (get_client id);
  if c.(Client.State) =? Client.stateClosing then mret None else
  _ ← throwIf (negb (c.(Client.State) =? Client.stateSubscribed)) (bad_state "RDY");
  count ← match params with
          | _ :: p :: _ =>
            match Decimal.ByteToBase10 p with
            | Err e => fail (fatal (Some e) "E_INVALID" ("RDY could not parse count " +:+ text p))
            | Ok b10 => mret (i64 b10)
            end
          | _ => mret 1
          end;
  _ ← throwIf ((count <? 0) || (opts.(Opts.MaxRdyCount) <? count))
        (fatal None "E_INVALID" ("RDY count " +:+ num count +:+ " out of range 0-" +:+ num opts.(Opts.MaxRdyCount)));
  _ ← lift (upd_client id (Client.SetReadyCount count));
  mret None.

(** FIN, REQ and TOUCH are for clients that subscribed, closing or not. *)
Definition subscribed (c : client) : bool :=
  (c.(Client.State) =? Client.stateSubscribed) || (c.(Client.State) =? Client.stateClosing).

Definition getMessageID (p : bytes) : res string MessageID :=
  if bool_decide (length p = MsgIDLength) then Ok p else Err "Invalid Message ID"%string.

Definition need_id (p : bytes) : CM MessageID :=
  match getMessageID p with Ok id => mret id | Err e => fail (fatal None "E_INVALID" e) end.

Definition FIN (id : Z) (params : list bytes) : CM (option bytes) :=
  c ← lift (get_client id);
  _ ← throwIf (negb (subscribed c)) (bad_state "FIN");
  match params with
  | _ :: p :: _ =>
    mid ← need_id p;
    cl ← lift (liftST c.(Client.c_Channel));
    err ← lift (on_channel cl (Channel.FinishMessage id mid));
    on_error err (λ e, ClientErr (Some e) "E_FIN_FAILED" ("FIN " +:+ text mid +:+ " failed " +:+ e)) (
    _ ← lift (upd_client id Client.FinishedMessage);
    mret None)
  | _ => fail (fatal None "E_INVALID" "FIN insufficient number of params")
  end.

(** [time.Duration(timeoutMs) * time.Millisecond] *)
Definition ms_duration (timeoutMs : Z) : duration := i64 (i64 timeoutMs * Millisecond).

Definition clamp_req (d : duration) : duration :=
  if d <? 0 then 0 else if opts.(Opts.MaxReqTimeout) <? d then opts.(Opts.MaxReqTimeout) else d.

Definition REQ (now : time) (id : Z) (params : list bytes) : CM (option bytes) :=
  c ← lift (get_client id);
  _ ← throwIf (negb (subscribed c)) (bad_state "REQ");
  match params with
  | _ :: p :: ms :: _ =>
    mid ← need_id p;
    match Decimal.ByteToBase10 ms with
    | Err e => fail (fatal (Some e) "E_INVALID" ("REQ could not parse timeout " +:+ text ms))
    | Ok timeoutMs =>
      cl ← lift (liftST c.(Client.c_Channel));
      err ← lift (on_channel cl (Channel.RequeueMessage copts now id mid (clamp_req (ms_duration timeoutMs))));
      on_error err (λ e, ClientErr (Some e) "E_REQ_FAILED" ("REQ " +:+ text mid +:+ " failed " +:+ e)) (
      _ ← lift (upd_client id Client.RequeuedMessage);
      mret None)
    end
  | _ => fail (fatal None "E_INVALID" "REQ insufficient number of params")
  end.

Definition CLS (id : Z) : CM (option bytes) :=
  c ← lift (get_client id);
  _ ← throwIf (negb (c.(Client.State) =? Client.stateSubscribed)) (bad_state "CLS");
  _ ← lift (upd_client id Client.StartClose);
  mret (Some (bytes_of_string "CLOSE_WAIT")).

Definition NOP : CM (option bytes) := mret None.

Definition TOUCH (now : time) (id : Z) (params : list bytes) : CM (option bytes) :=
  c ← lift (get_client id);
  _ ← throwIf (negb (subscribed c)) (bad_state "TOUCH");
  match params with
  | _ :: p :: _ =>
    mid ← need_id p;
    cl ← lift (liftST c.(Client.c_Channel));
    err ← lift (on_channel cl (Channel.TouchMessage copts now id mid c.(Client.MsgTimeout)));
    on_error err (λ e, ClientErr (Some e) "E_TOUCH_FAILED" ("TOUCH " +:+ text mid +:+ " failed " +:+ e)) (mret None)
  | _ => fail (fatal None "E_INVALID" "TOUCH insufficient number of params")
  end.

(** ** Publishing *)

(** [NewMessage(topic.GenerateID(), body)] with a delay; [nows] are the
    readings of the attempts at an identifier. *)
Definition new_message (now : time) (nows : list time) (tl : loc) (body : bytes) (delay : duration) : CM loc :=
  mid ← lift (on_topic tl (Topic.t_GenerateID nows));
  match mid with
  | None => blocked
  | Some mid => lift (on_topic tl (Topic.t_new_msg (set_deferred delay (NewMessage now mid body))))
  end.

(** What PUB and DPUB do with a body. *)
Definition publish (now : time) (nows : list time) (id : Z) (topicName body : bytes) (delay : duration) (cmd code : string) : CM (option bytes) :=
  _ ← CheckAuth now id cmd topicName [];
  tl ← lift (get_topic topicName);
  x ← new_message now nows tl body delay;
  err ← lift (on_topic tl (Topic.t_PutMessage copts x));
  on_error err (λ e, fatal (Some e) code (cmd +:+ " failed " +:+ e)) (
  _ ← lift (upd_client id (Client.PublishedMessage topicName 1));
  mret (Some okBytes)).

(** Reading the message of PUB or DPUB. *)
Definition read_message (id : Z) (cmd : string) : CM bytes :=
  bodyLen ← need_len id "E_BAD_MESSAGE" (cmd +:+ " failed to read message body size");
  _ ← throwIf (bodyLen <=? 0) (fatal None "E_BAD_MESSAGE" (cmd +:+ " invalid message body size " +:+ num bodyLen));
  _ ← throwIf (opts.(Opts.MaxMsgSize) <? bodyLen)
        (fatal None "E_BAD_MESSAGE" (cmd +:+ " message too big " +:+ num bodyLen +:+ " > " +:+ num opts.(Opts.MaxMsgSize)));
  need_body id bodyLen "E_BAD_MESSAGE" (cmd +:+ " failed to read message body").

Definition bad_topic (cmd : string) (topicName : bytes) : client_error :=
  fatal None "E_BAD_TOPIC" (cmd +:+ " topic name " +:+ Quote topicName +:+ " is not valid").

Definition PUB (now : time) (nows : list time) (id : Z) (params : list bytes) : CM (option bytes) :=
  match params with
  | _ :: topicName :: _ =>
    _ ← throwIf (negb (Names.IsValidTopicName topicName)) (bad_topic "PUB" topicName);
    body ← read_message id "PUB";
    publish now nows id topicName body 0 "PUB" "E_PUB_FAILED"
  | _ => fail (fatal None "E_INVALID" "PUB insufficient number of parameters")
  end.

Definition DPUB (now : time) (nows : list time) (id : Z) (params : list bytes) : CM (option bytes) :=
  match params with
  | _ :: topicName :: ms :: _ =>
    _ ← throwIf (negb (Names.IsValidTopicName topicName)) (bad_topic "DPUB" topicName);
    match Decimal.ByteToBase10 ms with
    | Err e => fail (fatal (Some e) "E_INVALID" ("DPUB could not parse timeout " +:+ text ms))
    | Ok timeoutMs =>
      let timeoutDuration := ms_duration timeoutMs in
      _ ← throwIf ((timeoutDuration <? 0) || (opts.(Opts.MaxReqTimeout) <? timeoutDuration))
            (fatal None "E_INVALID" ("DPUB timeout " +:+ num timeoutMs +:+ " out of range 0-" +:+ num (Client.to_ms opts.(Opts.MaxReqTimeout))));
      body ← read_message id "DPUB";
      publish now nows id topicName body timeoutDuration "DPUB" "E_DPUB_FAILED"
    end
  | _ => fail (fatal None "E_INVALID" "DPUB insufficient number of parameters")
  end.

(** The loop of [readMPUB]; message [i] is made at [clock i]. *)
Fixpoint read_messages {R} (rd : reader R) (clock : nat → time) (nows : nat → list time) (tl : loc) (n i : nat) (r : R) : CM (list loc) :=
  match n with
  | O => mret []
  | S n =>
    '(messageSize, r) ← len_from rd r "E_BAD_MESSAGE" ("MPUB failed to read message(" +:+ num (Z.of_nat i) +:+ ") body size");
    _ ← throwIf (messageSize <=? 0)
          (fatal None "E_BAD_MESSAGE" ("MPUB invalid message(" +:+ num (Z.of_nat i) +:+ ") body size " +:+ num messageSize));
    _ ← throwIf (opts.(Opts.MaxMsgSize) <? messageSize)
          (fatal None "E_BAD_MESSAGE" ("MPUB message too big " +:+ num messageSize +:+ " > " +:+ num opts.(Opts.MaxMsgSize)));
    '(msgBody, r) ← body_from rd r messageSize "E_BAD_MESSAGE" "MPUB failed to read message body";
    x ← new_message (clock i) (nows i) tl msgBody 0;
    xs ← read_messages rd clock nows tl n (S i) r;
    mret (x :: xs)
  end.

Definition readMPUB {R} (rd : reader R) (clock : nat → time) (nows : nat → list time) (tl : loc) (r : R) : CM (list loc) :=
  '(numMessages, r) ← len_from rd r "E_BAD_BODY" "MPUB failed to read message count";
  let maxMessages := Z.quot (opts.(Opts.MaxBodySize) - 4) 5 in
  _ ← throwIf ((numMessages <=? 0) || (maxMessages <? numMessages))
        (fatal None "E_BAD_BODY" ("MPUB invalid message count " +:+ num numMessages));
  read_messages rd clock nows tl (Z.to_nat numMessages) 0 r.

Definition MPUB (clock : nat → time) (nows : nat → list time) (id : Z) (params : list bytes) : CM (option bytes) :=
  match params with
  | _ :: topicName :: _ =>
    _ ← throwIf (negb (Names.IsValidTopicName topicName)) (bad_topic "E_BAD_TOPIC MPUB" topicName);
    _ ← CheckAuth (clock 0%nat) id "MPUB" topicName [];
    tl ← lift (get_topic topicName);
    bodyLen ← need_len id "E_BAD_BODY" "MPUB failed to read body size";
    _ ← throwIf (bodyLen <=? 0) (fatal None "E_BAD_BODY" ("MPUB invalid body size " +:+ num bodyLen));
    _ ← throwIf (opts.(Opts.MaxBodySize) <? bodyLen)
          (fatal None "E_BAD_BODY" ("MPUB body too big " +:+ num bodyLen +:+ " > " +:+ num opts.(Opts.MaxBodySize)));
    xs ← readMPUB (client_reader id) clock nows tl ();
    err ← lift (on_topic tl (Topic.PutMessages copts xs));
    on_error err (λ e, fatal (Some e) "E_MPUB_FAILED" ("MPUB failed " +:+ e)) (
    _ ← lift (upd_client id (Client.PublishedMessage topicName (Z.of_nat (length xs))));
    mret (Some okBytes))
  | _ => fail (fatal None "E_INVALID" "MPUB insufficient number of parameters")
  end.

(** ** The command loop *)

Definition is_cmd (w : bytes) (s : string) : bool := bool_decide (w = bytes_of_string s).

(** The readings of the clock while a command runs: of message [i], and of
    the attempts at its identifier; and the attempts of SUB. *)
Record readings := mkReadings { r_clock : nat → time; r_nows : nat → list time; r_attempts : nat }.

Definition Exec (r : readings) (id : Z) (params : list bytes) : CM (option bytes) :=
  let now := r.(r_clock) 0%nat in
  match params with
  | [] => crash
  | cmd :: _ =>
    if is_cmd cmd "IDENTIFY" then IDENTIFY id else
    c ← lift (get_client id);
    _ ← enforceTLSPolicy c cmd;
    if is_cmd cmd "FIN" then FIN id params else
    if is_cmd cmd "RDY" then RDY id params else
    if is_cmd cmd "REQ" then REQ now id params else
    if is_cmd cmd "PUB" then PUB now (r.(r_nows) 0%nat) id params else
    if is_cmd cmd "MPUB" then MPUB r.(r_clock) r.(r_nows) id params else
    if is_cmd cmd "DPUB" then DPUB now (r.(r_nows) 0%nat) id params else
    if is_cmd cmd "NOP" then NOP else
    if is_cmd cmd "TOUCH" then TOUCH now id params else
    if is_cmd cmd "SUB" then SUB now r.(r_attempts) id params else
    if is_cmd cmd "CLS" then CLS id else
    if is_cmd cmd "AUTH" then AUTH now id params else
    fail (fatal None "E_INVALID" ("invalid command " +:+ text cmd))
  end.

(** [bufio.Reader.ReadSlice('\n')]: the line with its end, unless the stream
    ends first or the line does not fit the buffer. *)
Definition ReadSlice (s : bytes) : option (bytes * bytes) :=
  match ReadString s with
  | Some (line, rest) => if bool_decide (Z.of_nat (length line) <= Client.defaultBufferSize) then Some (line, rest) else None
  | None => None
  end.

(** The line without its end. *)
Definition trim_line (line : bytes) : bytes :=
  let line := take (length line - 1) line in
  if bool_decide (last line = Some (byte_of_Z 13)) then take (length line - 1) line else line.

(** A turn of the loop of [IOLoop]: [true] when it goes on. [None] in the
    middle: the command never returns. *)
Definition io_turn (r : readings) (id : Z) : NM (option bool) :=
  c ← get_client id;
  match ReadSlice c.(Client.cl_in) with
  | None => _ ← put_client id (Client.set_cl_in [] c); mret (Some false)
  | Some (line, rest) =>
    _ ← put_client id (Client.set_cl_in rest c);
    response ← Exec r id (Split.split space (trim_line line));
    match response with
    | Err Blocked => mret None
    | Err (Fail e) =>
      sendErr ← Send id frameTypeError (Error e);
      match sendErr with
      | Some _ => mret (Some false)
      | None => mret (Some (negb (is_fatal e)))
      end
    | Ok (Some response) =>
      err ← Send id frameTypeResponse response;
      mret (Some (match err with None => true | Some _ => false end))
    | Ok None => mret (Some true)
    end
  end.

(** [IOLoop] before its loop: the client is made and the message pump
    starts. [time.NewTicker] panics unless its period is positive. *)
Definition NewTicker (d : duration) : NM () := if d <=? 0 then panic else mret ().

Definition pump_started (c : client) : NM pump :=
  _ ← NewTicker c.(Client.OutputBufferTimeout);
  _ ← NewTicker c.(Client.HeartbeatInterval);
  mret (mkPump None true true true true true 0 c.(Client.MsgTimeout)).

Definition io_start (remoteAddr input : bytes) (out : W) (now : time) : NM (Z * pump) :=
  n ← getST;
  let clientID := i64 (n.(clientIDSequence) + 1) in
  _ ← modST (set_clientIDSequence clientID);
  let c := Client.newClientV2 opts clientID remoteAddr input out now in
  _ ← AddClient clientID c;
  p ← pump_started c;
  mret (clientID, p).

(** [IOLoop] after its loop. *)
Definition io_finish (id : Z) : NM () :=
  _ ← upd_client id Client.Close;
  _ ← upd_client id (Client.set_ExitChan true);
  c ← get_client id;
  _ ← match c.(Client.c_Channel) with
      | Some cl => on_channel cl (Channel.RemoveClient id)
      | None => mret ()
      end;
  RemoveClient id.

(** ** The message pump *)

Definition paused_of (l : loc) : NM bool := n ← getST; c ← liftST (n.(n_chans) !! l); mret c.(Channel.paused).

(** The head of the loop: what to select on, after flushing when there is
    nothing to send. *)
Definition pump_head (id : Z) (p : pump) : NM (res string (pump * pump_mode)) :=
  c ← get_client id;
  ready ← match p.(p_subChannel) with
          | None => mret false
          | Some l => paused ← paused_of l; mret (Client.IsReadyForMessages paused c)
          end;
  if negb ready then
    err ← run_client id Client.Flush;
    match err with
    | Some e => mret (Err e)
    | None => mret (Ok (mkPump p.(p_subChannel) p.(p_subEvent) p.(p_identifyEvent) p.(p_heartbeat) p.(p_ticker) true
                          p.(p_sampleRate) p.(p_msgTimeout), NotReady))
    end
  else mret (Ok (p, if p.(p_flushed) then Unbuffered else Buffered)).

Definition set_flushed (b : bool) (p : pump) : pump :=
  mkPump p.(p_subChannel) p.(p_subEvent) p.(p_identifyEvent) p.(p_heartbeat) p.(p_ticker) b p.(p_sampleRate) p.(p_msgTimeout).

(** The message is dropped when it is not in the sample. *)
Definition sampled_out (p : pump) (rnd : Z) : bool := (0 <? p.(p_sampleRate)) && (p.(p_sampleRate) <? rnd).

(** The receives of the select and what the pump does with the channel: a
    message that is not in the sample is dropped, any other goes in flight.
    [None]: there is nothing to receive. *)
Definition in_flight (id : Z) (p : pump) (now : time) (x : loc) : ST (Channel.heap client * Channel.Channel D Q) Message :=
  _ ← Channel.deliver now x id p.(p_msgTimeout);
  Channel.get_msg x.

Definition take_memory (id : Z) (p : pump) (now : time) (rnd : Z) : ST (Channel.heap client * Channel.Channel D Q) (option (option Message)) :=
  r ← Channel.recv_memory;
  match r with
  | None => mret None
  | Some x => if sampled_out p rnd then mret (Some None) else m ← in_flight id p now x; mret (Some (Some m))
  end.

(** What does not decode is dropped too. *)
Definition take_backend (id : Z) (p : pump) (now : time) (rnd : Z) : ST (Channel.heap client * Channel.Channel D Q) (option (option Message)) :=
  if sampled_out p rnd then
    '(_, c) ← getST;
    match bq_Recv c.(Channel.backend_) with
    | None => mret None
    | Some (_, bq) => _ ← Channel.upd_chan (Channel.set_backend_ bq); mret (Some None)
    end
  else
    r ← Channel.recv_backend;
    match r with
    | None => mret None
    | Some (Err _) => mret (Some None)
    | Some (Ok x) => m ← in_flight id p now x; mret (Some (Some m))
    end.

(** Sending what was received. *)
Definition pump_deliver (id : Z) (p : pump) (r : option (option Message)) : NM pump_result :=
  match r with
  | None => mret Disabled
  | Some None => mret (Goes p)
  | Some (Some m) =>
    _ ← upd_client id Client.SendingMessage;
    err ← SendMessage id m;
    match err with
    | Some e => mret (Leaves (Some e))
    | None => mret (Goes (set_flushed false p))
    end
  end.

Definition pump_case (id : Z) (p : pump) (mode : pump_mode) (ev : pump_event) : NM pump_result :=
  c ← get_client id;
  match ev with
  | EvFlush =>
    match mode with
    | Buffered =>
      if negb p.(p_ticker) then mret Disabled else
      err ← run_client id Client.Flush;
      match err with Some e => mret (Leaves (Some e)) | None => mret (Goes (set_flushed true p)) end
    | _ => mret Disabled
    end
  | EvReady =>
    if c.(Client.ReadyStateChan) then _ ← put_client id (Client.set_ReadyStateChan false c); mret (Goes p) else mret Disabled
  | EvSub =>
    match p.(p_subEvent), c.(Client.SubEventChan) with
    | true, Some l =>
      _ ← put_client id (Client.set_SubEventChan None c);
      mret (Goes (mkPump (Some l) false p.(p_identifyEvent) p.(p_heartbeat) p.(p_ticker) p.(p_flushed) p.(p_sampleRate) p.(p_msgTimeout)))
    | _, _ => mret Disabled
    end
  | EvIdentify =>
    match p.(p_identifyEvent), c.(Client.IdentifyEventChan) with
    | true, Some ie =>
      _ ← put_client id (Client.set_IdentifyEventChan None c);
      mret (Goes (mkPump p.(p_subChannel) p.(p_subEvent) false (0 <? ie.(Client.ie_HeartbeatInterval))
        (0 <? ie.(Client.ie_OutputBufferTimeout)) p.(p_flushed)
        (if 0 <? ie.(Client.ie_SampleRate) then ie.(Client.ie_SampleRate) else p.(p_sampleRate)) ie.(Client.ie_MsgTimeout)))
    | _, _ => mret Disabled
    end
  | EvHeartbeat =>
    if negb p.(p_heartbeat) then mret Disabled else
    err ← Send id frameTypeResponse heartbeatBytes;
    match err with Some e => mret (Leaves (Some e)) | None => mret (Goes p) end
  | EvBackend now rnd =>
    match mode, p.(p_subChannel) with
    | NotReady, _ | _, None => mret Disabled
    | _, Some l => r ← on_channel l (take_backend id p now rnd); pump_deliver id p r
    end
  | EvMemory now rnd =>
    match mode, p.(p_subChannel) with
    | NotReady, _ | _, None => mret Disabled
    | _, Some l => r ← on_channel l (take_memory id p now rnd); pump_deliver id p r
    end
  | EvExit => if c.(Client.ExitChan) then mret (Leaves None) else mret Disabled
  end.

(** A turn of the pump. *)
Definition pump_turn (id : Z) (p : pump) (ev : pump_event) : NM pump_result :=
  r ← pump_head id p;
  match r with
  | Err e => mret (Leaves (Some e))
  | Ok (p, mode) => pump_case id p mode ev
  end.

End protocol.
End Protocol.
