(* ===== verification/ClientProps.v ===== *)
(** * What a client promises

    The settings of a connection stay within what the options allow, whatever
    its peer asks for ([settings_typed]); [client_ok] is the invariant of a
    client that every method keeps. *)
From stdpp Require Import base gmap list strings.
From Stdlib Require Import ZArith Lia.
From S2P Require Import Prelude.
From S2P Require Import Net.
From S2P Require Import Wire.
From S2P Require Import Heap.
From S2P Require Import Channel.
From S2P Require Import ChannelFrame.
From S2P Require Import Auth.
From S2P Require Import Options.
From S2P Require Import Client.
Set Default Goal Selector "!".
Local Open Scope Z_scope.

Module ClientSpec.
Import ChannelF Client.

(** ** Settings *)

(** The options that bound the settings are durations, and not negative. *)
Record bounds_ok (opts : Opts.Options) : Prop := {
  bo_heartbeat : opts.(Opts.MaxHeartbeatInterval) < 2 ^ 63;
  bo_min : 0 <= opts.(Opts.MinOutputBufferTimeout);
  bo_max : opts.(Opts.MaxOutputBufferTimeout) < 2 ^ 63;
  bo_msg : opts.(Opts.MaxMsgTimeout) < 2 ^ 63;
}.

Section settings.
Context {W : Type} `{ConnWriter W}.
Context (opts : Opts.Options).
Implicit Types (c : clientV2 W).

Record settings_ok c : Prop := {
  so_heartbeat : c.(HeartbeatInterval) = Z.quot opts.(Opts.ClientTimeout) 2 ∨ c.(HeartbeatInterval) = 0 ∨
    Second <= c.(HeartbeatInterval) <= opts.(Opts.MaxHeartbeatInterval);
  (* the minimum is cut to milliseconds *)
  so_timeout : c.(OutputBufferTimeout) = opts.(Opts.OutputBufferTimeout) ∨ c.(OutputBufferTimeout) = 0 ∨
    opts.(Opts.MinOutputBufferTimeout) - Millisecond < c.(OutputBufferTimeout) <= opts.(Opts.MaxOutputBufferTimeout);
  so_size : c.(OutputBufferSize) = defaultBufferSize ∨ c.(OutputBufferSize) = 1 ∨
    64 <= c.(OutputBufferSize) <= opts.(Opts.MaxOutputBufferSize);
  so_rate : 0 <= c.(SampleRate) <= 99;
  so_msg : c.(MsgTimeout) = opts.(Opts.MsgTimeout) ∨ Second <= c.(MsgTimeout) <= opts.(Opts.MaxMsgTimeout);
}.

Hypothesis Hb : bounds_ok opts.

(** Milliseconds up to a bound are converted exactly. *)
Lemma from_ms_bounded ms d : 0 < ms <= to_ms d → d < 2 ^ 63 → from_ms ms = ms * Millisecond ∧ ms * Millisecond <= d.
Proof.
  intros [H0 H1] Hd. unfold from_ms, to_ms, Millisecond in *.
  assert (ms * 1000000 <= d) by lia.
  split; [|done]. apply i64_id. unfold in_i64. lia.
Qed.

Lemma SetHeartbeatInterval_ok d c : settings_ok c → settings_ok (SetHeartbeatInterval opts d c).1.
Proof using Hb.
  intros S. unfold SetHeartbeatInterval. repeat case_match; try done; bool_to_prop; destruct S; split; cbn; auto.
  right. right. destruct (from_ms_bounded d (Opts.MaxHeartbeatInterval opts)) as [-> ?]; [lia|apply Hb|].
  unfold Second, Millisecond in *. lia.
Qed.

Lemma SetSampleRate_ok r c : settings_ok c → settings_ok (SetSampleRate r c).1.
Proof. intros S. unfold SetSampleRate. case_match; [done|]. bool_to_prop. destruct S; split; cbn; try done. Qed.

Lemma SetMsgTimeout_ok d c : settings_ok c → settings_ok (SetMsgTimeout opts d c).1.
Proof using Hb.
  intros S. unfold SetMsgTimeout. repeat case_match; try done; bool_to_prop. destruct S; split; cbn; try done.
  right. destruct (from_ms_bounded d (Opts.MaxMsgTimeout opts)) as [-> ?]; [lia|apply Hb|].
  unfold Second, Millisecond in *. lia.
Qed.

Lemma set_timeout_ok d c : settings_ok c → settings_ok (set_timeout opts d c).1.
Proof using Hb.
  intros S. unfold set_timeout. repeat case_match; try done; bool_to_prop; destruct S; split; cbn; auto.
  pose proof (bo_min _ Hb). right. right.
  destruct (from_ms_bounded d (Opts.MaxOutputBufferTimeout opts)) as [-> ?]; [unfold to_ms, Millisecond in *; lia|apply Hb|].
  unfold to_ms, Millisecond in *. lia.
Qed.

Lemma set_size_ok d c : settings_ok c → settings_ok (set_size opts d c).1.
Proof.
  intros S. unfold set_size. repeat case_match; try done; bool_to_prop; destruct S; split; cbn; auto.
Qed.

Lemma then_ok (r : clientV2 W * option string) (f : clientV2 W → clientV2 W * option string) (P : clientV2 W → Prop) :
  P r.1 → (∀ c, P c → P (f c).1) → P (then_ r f).1.
Proof. destruct r as [c [e|]]; cbn; auto. Qed.

Lemma SetOutputBuffer_ok sz d c : settings_ok c → settings_ok (SetOutputBuffer opts sz d c).1.
Proof using Hb.
  intros S. unfold SetOutputBuffer. pose proof (set_timeout_ok d c S) as S1.
  destruct (set_timeout opts d c) as [c1 [e|]]; [done|]. pose proof (set_size_ok sz c1 S1) as S2.
  destruct (set_size opts sz c1) as [c2 [e|]]; [done|]. case_match; [done|].
  destruct (cw_Flush _) as [w [e|]]; destruct S2; by split.
Qed.

Lemma Identify_ok d c : settings_ok c → settings_ok (Identify opts d c).1.
Proof using Hb.
  intros S. unfold Identify.
  apply then_ok; [apply SetHeartbeatInterval_ok; destruct S; by split|]. intros c1 S1.
  apply then_ok; [by apply SetOutputBuffer_ok|]. intros c2 S2.
  apply then_ok; [by apply SetSampleRate_ok|]. intros c3 S3.
  apply then_ok; [by apply SetMsgTimeout_ok|]. intros c4 S4.
  cbn. case_match; [done|]. destruct S4; by split.
Qed.

Lemma newClientV2_ok id remoteAddr input out now : settings_ok (newClientV2 opts id remoteAddr input out now).
Proof. split; cbn; auto. lia. Qed.

(** C36: Whatever IDENTIFYs a peer sends on a connection, accepted or refused
    half-way, the heartbeat interval, the output buffer and its time-out, the
    sample rate and the message time-out stay within what the options allow. *)
Theorem settings_typed id remoteAddr input out now (ds : list identifyDataV2) :
  settings_ok (foldl (λ c d, (Identify opts d c).1) (newClientV2 opts id remoteAddr input out now) ds).
Proof using Hb.
  generalize (newClientV2_ok id remoteAddr input out now). generalize (newClientV2 opts id remoteAddr input out now).
  induction ds as [|d ds IH]; intros c S; cbn; [done|]. by apply IH, Identify_ok.
Qed.

End settings.

(** ** The invariant of a client *)

Section client.
Context {W : Type} `{ConnWriter W}.
Context (opts : Opts.Options).
Context (compiles : bytes → bool) (match_string : bytes → bytes → bool) (GETV1 : bytes → res string Auth.State) (commonName : bytes).
(** The locations of channels. *)
Implicit Types (P : loc → Prop) (c : clientV2 W).

Record client_ok P c : Prop := {
  co_settings : settings_ok opts c;
  co_state : c.(State) = stateInit ∧ c.(c_Channel) = None ∧ c.(ReadyCount) = 0 ∨
    (c.(State) = stateSubscribed ∧ 0 <= c.(ReadyCount) <= opts.(Opts.MaxRdyCount) ∨ c.(State) = stateClosing ∧ c.(ReadyCount) = 0) ∧
    ∃ l, c.(c_Channel) = Some l ∧ P l;
  co_sub : ∀ l, c.(SubEventChan) = Some l → c.(c_Channel) = Some l;
  co_inflight : in_i64 c.(InFlightCount);
  co_auth : ∀ s, c.(AuthState) = Some s → Auth.patterns_ok compiles s;
}.

Lemma client_ok_mono P P' c : client_ok P c → (∀ l, P l → P' l) → client_ok P' c.
Proof. intros [? [?|(? & l & ? & ?)] ? ? ?] HP; (split; [done| |done..]); [by left|]. right. split; [done|]. exists l. auto. Qed.

(** What the connection changes: the writer, the input, the upgrades. *)
Record same_client c c' : Prop := {
  sc_settings : settings_ok opts c → settings_ok opts c';
  sc_State : c'.(State) = c.(State);
  sc_Channel : c'.(c_Channel) = c.(c_Channel);
  sc_Ready : c'.(ReadyCount) = c.(ReadyCount);
  sc_Sub : c'.(SubEventChan) = c.(SubEventChan);
  sc_InFlight : c'.(InFlightCount) = c.(InFlightCount);
  sc_Auth : ∀ s, c'.(AuthState) = Some s → c.(AuthState) = Some s ∨ Auth.patterns_ok compiles s;
}.

Lemma same_client_refl c : same_client c c.
Proof. split; auto. Qed.

Lemma same_client_trans c1 c2 c3 : same_client c1 c2 → same_client c2 c3 → same_client c1 c3.
Proof.
  intros [S1 E1 F1 G1 H1 I1 A1] [S2 E2 F2 G2 H2 I2 A2].
  split; [auto|congruence..|]. intros s [Hs|?]%A2; [by apply A1|by right].
Qed.

Lemma same_client_ok P c c' : same_client c c' → client_ok P c → client_ok P c'.
Proof.
  intros [Ss Es Ec Er Eu Ei Ea] [S St Su Si Sa]. split; rewrite ?Es, ?Ec, ?Er, ?Eu, ?Ei; auto.
  intros s [?|?]%Ea; auto.
Qed.

(** Most updates: the fields of the invariant stay as they are. *)
Ltac same := split; try done; [intros []; by split|by left].

Lemma same_then (r : clientV2 W * option string) f c :
  same_client c r.1 → (∀ c', same_client c' (f c').1) → same_client c (then_ r f).1.
Proof. intros H1 Hf. destruct r as [c1 [e|]]; cbn in *; [done|]. by eapply same_client_trans. Qed.

Lemma same_cl_in i c : same_client c (set_cl_in i c).
Proof. same. Qed.
Lemma same_cl_out w c : same_client c (set_cl_out w c).
Proof. same. Qed.

Lemma same_Flush c : same_client c (Flush c).1.
Proof. unfold Flush. repeat case_match; apply same_cl_out. Qed.

Lemma same_upgrade u c : same_client c (upgrade_conn u c).1.
Proof. unfold upgrade_conn. destruct (cw_upgrade _ _ _ _) as [[i w] e]. same. Qed.

Lemma same_UpgradeTLS c : same_client c (UpgradeTLS c).1.
Proof. apply same_then; [apply same_upgrade|]. intros c'. same. Qed.
Lemma same_UpgradeDeflate level c : same_client c (UpgradeDeflate level c).1.
Proof.
  unfold UpgradeDeflate. pose proof (same_upgrade (UpDeflate level) c) as Hs. destruct (upgrade_conn _ _) as [c1 e].
  eapply same_client_trans; [exact Hs|same].
Qed.
Lemma same_UpgradeSnappy c : same_client c (UpgradeSnappy c).1.
Proof.
  unfold UpgradeSnappy. pose proof (same_upgrade UpSnappy c) as Hs. destruct (upgrade_conn _ _) as [c1 e].
  eapply same_client_trans; [exact Hs|same].
Qed.

Lemma same_QueryAuthd now c : same_client c (QueryAuthd opts compiles GETV1 commonName now c).1.
Proof.
  unfold QueryAuthd. destruct (Net.SplitHostPort _) as [[ip port]|e]; [|apply same_client_refl].
  destruct (Auth.QueryAnyAuthd _ _ _ _ _ _ _ _) as [s|e] eqn:E; [|apply same_client_refl].
  split; try done; [intros []; by split|]. intros s' [= <-]. right. by eapply Auth.QueryAnyAuthd_ok.
Qed.

Lemma same_Auth now secret c : same_client c (Client.Auth opts compiles GETV1 commonName now secret c).1.
Proof. unfold Client.Auth. eapply same_client_trans; [|apply same_QueryAuthd]. same. Qed.

(** Authorization is decided without a panic. *)
Lemma IsAuthorized_ok P now topic channel c : client_ok P c →
  ∃ c' r, IsAuthorized opts compiles match_string GETV1 commonName now topic channel c = Some (c', r) ∧ same_client c c'.
Proof.
  intros Hc. unfold IsAuthorized. destruct (AuthState c) as [s0|] eqn:Es.
  2: { eexists _, _. split; [done|apply same_client_refl]. }
  set (r := if Auth.IsExpired now s0 then _ else _).
  assert (Hr : same_client c r.1).
  { unfold r. destruct (Auth.IsExpired now s0); [apply same_QueryAuthd|apply same_client_refl]. }
  assert (Ha : r.2 = None → is_Some (AuthState r.1)).
  { unfold r. destruct (Auth.IsExpired now s0); [|cbn; rewrite Es; by eexists]. unfold QueryAuthd.
    destruct (Net.SplitHostPort _) as [[ip port]|e]; [|done].
    destruct (Auth.QueryAnyAuthd _ _ _ _ _ _ _ _); [by eexists|done]. }
  destruct r as [c1 [e|]]; cbn in Hr, Ha.
  { eexists _, _. by split. }
  destruct Ha as [s Hs]; [done|]. rewrite Hs. cbn [mbind option_bind].
  rewrite (Auth.IsAllowed_ok compiles match_string GETV1 s topic channel) by (eapply co_auth; [by eapply same_client_ok|done]).
  eexists _, _. by split.
Qed.

Section typed.
Hypothesis Hb : bounds_ok opts.

Lemma same_SetOutputBuffer sz d c : same_client c (SetOutputBuffer opts sz d c).1.
Proof using Hb.
  split; [by apply SetOutputBuffer_ok|..]; unfold SetOutputBuffer, set_timeout, set_size; repeat case_match; simplify_eq; auto.
Qed.

Lemma same_Identify d c : same_client c (Identify opts d c).1.
Proof using Hb.
  unfold Identify.
  apply same_then.
  { eapply same_client_trans with (c2 := set_UserAgent _ (set_Hostname _ (set_ClientID _ c))); [same|].
    split; [by apply SetHeartbeatInterval_ok|..]; unfold SetHeartbeatInterval; repeat case_match; auto. }
  intros c1. apply same_then; [apply same_SetOutputBuffer|]. intros c2. apply same_then.
  { split; [by apply SetSampleRate_ok|..]; unfold SetSampleRate; repeat case_match; auto. }
  intros c3. apply same_then.
  { split; [by apply SetMsgTimeout_ok|..]; unfold SetMsgTimeout; repeat case_match; auto. }
  intros c4. cbn. case_match; [apply same_client_refl|same].
Qed.
End typed.

(** ** The methods that count and change state *)

Lemma client_ok_called P c c' : called c c' → client_ok P c → client_ok P c'.
Proof.
  intros Hc Hok. induction Hc as [|c' _ IH|c' _ IH|c' _ IH|c' _ IH|c' _ IH]; [done|..];
    (destruct IH as [S St Su Si Sa]; split; try done; [destruct S; by split|..]; apply i64_range).
Qed.

Lemma client_ok_new P id remoteAddr input out now : client_ok P (newClientV2 opts id remoteAddr input out now).
Proof. split; try done; [apply newClientV2_ok|by left]. Qed.

Lemma client_ok_FinishedMessage P c : client_ok P c → client_ok P (FinishedMessage c).
Proof. intros [S ? ? ? ?]. split; try done; [destruct S; by split|apply i64_range]. Qed.
Lemma client_ok_RequeuedMessage P c : client_ok P c → client_ok P (RequeuedMessage c).
Proof. intros [S ? ? ? ?]. split; try done; [destruct S; by split|apply i64_range]. Qed.
Lemma client_ok_SendingMessage P c : client_ok P c → client_ok P (SendingMessage c).
Proof. intros [S ? ? ? ?]. split; try done; [destruct S; by split|apply i64_range]. Qed.
Lemma same_PublishedMessage topic k c : same_client c (PublishedMessage topic k c).
Proof. same. Qed.

Lemma client_ok_SetReadyCount P k c : client_ok P c → c.(State) = stateSubscribed → 0 <= k <= opts.(Opts.MaxRdyCount) →
  client_ok P (SetReadyCount k c).
Proof.
  intros [S [(Hs & _)|(_ & l & ? & ?)] ? ? ?] Hst Hk; [rewrite Hst in Hs; discriminate|].
  split; try done; [destruct S; by split|]. right. split; [by left|by exists l].
Qed.

Lemma client_ok_StartClose P c : client_ok P c → c.(State) = stateSubscribed → client_ok P (StartClose c).
Proof.
  intros [S [(Hs & _)|(_ & l & ? & ?)] ? ? ?] Hst; [rewrite Hst in Hs; discriminate|].
  split; try done; [destruct S; by split|]. right. split; [by right|by exists l].
Qed.

(** SUB. *)
Lemma client_ok_subscribe P l c : client_ok P c → c.(State) = stateInit → P l → 0 <= opts.(Opts.MaxRdyCount) →
  c.(SubEventChan) = None ∧
  client_ok P (set_c_Channel (Some l) (set_State stateSubscribed c)) ∧
  client_ok P (set_SubEventChan (Some l) (set_c_Channel (Some l) (set_State stateSubscribed c))).
Proof.
  intros [S [(_ & Hn & Hr)|([[Hs _]|[Hs _]] & _)] Hu ? ?] Hst Hl Hm; [|rewrite Hst in Hs; discriminate..].
  assert (Hnone : SubEventChan c = None) by (destruct (SubEventChan c) eqn:E; [specialize (Hu _ eq_refl); congruence|done]).
  split; [done|]. split; (split; [destruct S; by split| | |done..]).
  - right. split; [left; cbn; by rewrite Hr|by exists l].
  - cbn. rewrite Hnone. done.
  - right. split; [left; cbn; by rewrite Hr|by exists l].
  - by intros l' [= <-].
Qed.

End client.
End ClientSpec.
