(* ===== verification/DaemonProofs.v ===== *)
(** * Lemmas about the daemon

    The invariant of nsqd ([daemon_ok]): its topics, channels and clients
    share one heap, and each is well-formed next to the others. A step on a
    topic, a channel or a client keeps it. Programs are shown to run without a
    panic with [safe]. *)
From stdpp Require Import base gmap list strings.
From Stdlib Require Import ZArith Lia.
From S2P Require Import Prelude.
From S2P Require Import Decimal.
From S2P Require Import Text.
From S2P Require Import Message.
From S2P Require Import Guid.
From S2P Require Import Heap.
From S2P Require Import Backend.
From S2P Require Import Channel.
From S2P Require Import ChannelProofs.
From S2P Require Import ChannelScan.
From S2P Require Import ChannelProps.
From S2P Require Import ChannelFrame.
From S2P Require Import Topic.
From S2P Require Import TopicProofs.
From S2P Require Import TopicProps.
From S2P Require Import Auth.
From S2P Require Import Options.
From S2P Require Import Client.
From S2P Require Import ClientProps.
From S2P Require Import Nsqd.
Set Default Goal Selector "!".
Local Open Scope Z_scope.

Module DaemonP.
Import Channel ChannelP ChannelS ChannelSpec ChannelF Topic TopicP TopicSpec ClientSpec Nsqd.

(** What the options must say for nsqd to run. *)
Record options_ok (opts : Opts.Options) : Prop := {
  oo_bounds : bounds_ok opts;
  oo_rdy : 0 <= opts.(Opts.MaxRdyCount);
  (* the record of a message fits an [int32] *)
  oo_size : opts.(Opts.MaxMsgSize) + 26 < 2 ^ 31;
  (* [time.NewTicker] *)
  oo_output : 0 < opts.(Opts.OutputBufferTimeout);
  oo_client : 2 <= opts.(Opts.ClientTimeout);
  oo_interval : 0 < opts.(Opts.QueueScanInterval);
  oo_refresh : 0 < opts.(Opts.QueueScanRefreshInterval);
  (* [make(chan *Channel, count)] *)
  oo_selection : 0 <= opts.(Opts.QueueScanSelectionCount);
  oo_pool : 0 <= opts.(Opts.QueueScanWorkerPoolMax);
  (* an [int64] *)
  oo_least : - 2 ^ 63 <= opts.(Opts.MaxMsgSize);
}.

Section daemon.
Context {W D Q B MB : Type}.
Context `{Client.ConnWriter W, !BackendQueue D, !BackendLaws D, QuantileStream Q,
          !BackendQueue B, !BackendLaws B, UnloggedQueue MB}.
Context (opts : Opts.Options) (compiles : bytes → bool).

Notation nsqd := (NSQD W D Q B MB).
Notation NM := (ST nsqd).
Notation C := (Client.clientV2 W).
Notation chanstore := (gmap loc (Channel D Q)).
Notation topicstore := (gmap loc (Topic B MB)).
Implicit Types (n : nsqd) (ts : topicstore).

(** The messages in the memory of all topics. *)
Definition all_mem ts : list loc := map_to_list ts ≫= λ p, p.2.(t_memoryMsgChan).

Lemma all_mem_insert ts l t : all_mem (<[l := t]> ts) ≡ₚ t.(t_memoryMsgChan) ++ all_mem (delete l ts).
Proof.
  unfold all_mem. rewrite <- (insert_delete_eq ts l t), map_to_list_insert by apply lookup_delete_eq. done.
Qed.

Lemma all_mem_lookup ts l t : ts !! l = Some t → all_mem ts ≡ₚ t.(t_memoryMsgChan) ++ all_mem (delete l ts).
Proof. intros Hl. rewrite <- (all_mem_insert ts l t). by rewrite insert_id. Qed.

(** ** The invariant *)

Definition chan_in n (l : loc) : Prop := is_Some (n.(n_chans) !! l).

Record daemon_ok n : Prop := {
  dm_world : world_ok n.(n_heap) n.(n_chans) (all_mem n.(n_topics));
  dm_topic : ∀ l t, n.(n_topics) !! l = Some t → topic_local n.(n_chans) t;
  dm_fresh : ∀ l, (n.(n_heap).(next) <= l)%nat → n.(n_topics) !! l = None;
  dm_map : ∀ nm l, n.(topicMap) !! nm = Some l → is_Some (n.(n_topics) !! l);
  dm_client : ∀ id c, n.(n_heap).(consumers) !! id = Some c → client_ok opts compiles (chan_in n) c;
  dm_known : ∀ id, id ∈ n.(n_clients) → is_Some (n.(n_heap).(consumers) !! id);
}.

(** What only grows. *)
Record later n n' : Prop := {
  lt_next : (n.(n_heap).(next) <= n'.(n_heap).(next))%nat;
  lt_chans : ∀ l, chan_in n l → chan_in n' l;
  lt_topics : ∀ l, is_Some (n.(n_topics) !! l) → is_Some (n'.(n_topics) !! l);
  lt_clients : ∀ id, is_Some (n.(n_heap).(consumers) !! id) → is_Some (n'.(n_heap).(consumers) !! id);
  lt_pool : 0 <= n.(poolSize) → 0 <= n'.(poolSize);
}.

Lemma later_refl n : later n n.
Proof. by split. Qed.

Lemma later_trans n1 n2 n3 : later n1 n2 → later n2 n3 → later n1 n3.
Proof. intros [A1 B1 C1 D1 E1] [A2 B2 C2 D2 E2]. split; [lia|by eauto..]. Qed.

(** Nobody but topics and channels moved. *)
Definition quiet n n' : Prop :=
  consumers_kept n.(n_heap).(consumers) n'.(n_heap).(consumers) ∧ n'.(n_clients) = n.(n_clients).

Lemma quiet_refl n : quiet n n.
Proof. split; [apply consumers_kept_refl|done]. Qed.

Lemma quiet_trans n1 n2 n3 : quiet n1 n2 → quiet n2 n3 → quiet n1 n3.
Proof. intros [? ?] [? ?]. split; [by eapply consumers_kept_trans|congruence]. Qed.

Lemma kept_known (cs cs' : gmap Z C) id : consumers_kept cs cs' → is_Some (cs !! id) → is_Some (cs' !! id).
Proof. intros Hk [c Hc]. specialize (Hk id). rewrite Hc in Hk. inversion Hk; subst. by eexists. Qed.

Lemma kept_client (cs cs' : gmap Z C) id c' : consumers_kept cs cs' → cs' !! id = Some c' →
  ∃ c, cs !! id = Some c ∧ called c c'.
Proof. intros Hk Hc. specialize (Hk id). rewrite Hc in Hk. inversion Hk; subst. by eexists. Qed.

(** ** One topic moves *)

Definition frame_at n (l : loc) : frame := mkFrame (all_mem (delete l n.(n_topics))) n.(n_heap) n.(n_chans).

Definition put_topic n (l : loc) (s : heap C * chanstore * Topic B MB) : nsqd :=
  set_n_heap s.1.1 (set_n_chans s.1.2 (set_n_topics (<[l := s.2]> n.(n_topics)) n)).

Lemma world_perm (h : heap C) (cs : chanstore) mem mem' : mem' ≡ₚ mem → world_ok h cs mem → world_ok h cs mem'.
Proof.
  intros Hp Hw. eapply world_mem; [exact Hw|rewrite Hp; apply Hw|]. intros x. by rewrite Hp.
Qed.

Lemma put_topic_ok n l s : daemon_ok n → (l < s.1.1.(next))%nat → topic_ok (frame_at n l) s →
  daemon_ok (put_topic n l s) ∧ later n (put_topic n l s) ∧ quiet n (put_topic n l s).
Proof.
  destruct s as [[h cs] t]. intros Hn Hlt (Tw & [Mn Md Mc] & Tl)%topic_ok_local. cbn in *.
  split_and!; [split| |]; cbn.
  - eapply world_perm; [apply all_mem_insert|exact Tw].
  - intros k tk. rewrite lookup_insert_Some. intros [[<- <-]|[_ Hk]]; [done|].
    eapply topic_local_mono; [by eapply (dm_topic _ Hn)|exact Md].
  - intros k Hk. rewrite lookup_insert_ne by lia. apply (dm_fresh _ Hn). lia.
  - intros nm k Hk. destruct (decide (k = l)) as [->|]; [rewrite lookup_insert_eq; by eexists|].
    rewrite lookup_insert_ne by done. by eapply (dm_map _ Hn).
  - intros id c Hc. destruct (kept_client _ _ _ _ Mc Hc) as (c0 & Hc0 & Hcall).
    eapply client_ok_called; [exact Hcall|]. eapply client_ok_mono; [by eapply (dm_client _ Hn)|exact Md].
  - intros id Hid. eapply kept_known; [exact Mc|by apply (dm_known _ Hn)].
  - split; cbn; [done|exact Md| |intros id; by apply kept_known|done].
    intros k [tk Hk]. destruct (decide (k = l)) as [->|]; [rewrite lookup_insert_eq; by eexists|].
    rewrite lookup_insert_ne by done. by eexists.
  - split; [exact Mc|done].
Qed.

Lemma topic_at n l t : daemon_ok n → n.(n_topics) !! l = Some t →
  topic_ok (frame_at n l) (n.(n_heap), n.(n_chans), t) ∧ (l < n.(n_heap).(next))%nat.
Proof.
  intros Hn Hl. split.
  - apply topic_ok_local. split_and!; cbn.
    + eapply world_perm; [|apply (dm_world _ Hn)]. by rewrite (all_mem_lookup _ _ _ Hl).
    + apply moved_refl.
    + by eapply (dm_topic _ Hn).
  - destruct (decide (l < next (n_heap n))%nat); [done|]. rewrite (dm_fresh _ Hn l) in Hl by lia. done.
Qed.

(** ** Programs that do not panic *)

Definition safe {A} (m : NM A) n (R : A → nsqd → Prop) : Prop :=
  ∃ a n', m n = Some (a, n') ∧ daemon_ok n' ∧ later n n' ∧ R a n'.

Lemma safe_ret {A} (a : A) n (R : A → nsqd → Prop) : daemon_ok n → R a n → safe (mret a) n R.
Proof. intros. exists a, n. split_and!; [done|done|apply later_refl|done]. Qed.

Lemma safe_bind {A A'} (m : NM A) (f : A → NM A') n R1 R :
  safe m n R1 → (∀ a n', daemon_ok n' → later n n' → R1 a n' → safe (f a) n' R) → safe (m ≫= f) n R.
Proof.
  intros (a & n1 & E & K1 & L1 & HR) Hf. destruct (Hf a n1 K1 L1 HR) as (b & n2 & E2 & K2 & L2 & HR2).
  exists b, n2. split_and!; [|done|by eapply later_trans|done]. by callST ltac:(exact E).
Qed.

Lemma safe_weaken {A} (m : NM A) n (R R' : A → nsqd → Prop) :
  safe m n R → (∀ a n', daemon_ok n' → later n n' → R a n' → R' a n') → safe m n R'.
Proof. intros (a & n' & E & K1 & L1 & HR) Hw. exists a, n'. split_and!; auto. Qed.

Lemma safe_daemon_ok {A} (m : NM A) n R a n' : safe m n R → m n = Some (a, n') → daemon_ok n'.
Proof. intros (b & n1 & E & K & _) E'. rewrite E in E'. by injection E' as _ <-. Qed.

Lemma safe_get {A} (f : nsqd → NM A) n R : safe (f n) n R → safe (getST ≫= f) n R.
Proof. done. Qed.

Lemma safe_lift {A} (o : option A) a n (R : A → nsqd → Prop) : o = Some a → daemon_ok n → R a n → safe (liftST o) n R.
Proof. intros -> ? ?. exists a, n. split_and!; [done|done|apply later_refl|done]. Qed.

Lemma safe_on_topic {A} l t (m : ST (heap C * chanstore * Topic B MB) A) n (R : A → heap C * chanstore * Topic B MB → Prop) :
  daemon_ok n → n.(n_topics) !! l = Some t →
  (topic_ok (frame_at n l) (n.(n_heap), n.(n_chans), t) →
   ∃ a s, m (n.(n_heap), n.(n_chans), t) = Some (a, s) ∧ topic_ok (frame_at n l) s ∧ R a s) →
  safe (on_topic l m) n (λ a n', quiet n n' ∧ ∃ s, n' = put_topic n l s ∧ R a s).
Proof.
  intros Hn Hl Hm. destruct (topic_at n l t Hn Hl) as [T Hlt]. destruct (Hm T) as (a & [[h cs] t'] & E & T' & HR).
  destruct (put_topic_ok n l (h, cs, t') Hn) as (K1 & L1 & Q1); [|done|].
  { destruct T' as [_ [Mn _ _] _ _ _ _]. cbn in *. lia. }
  exists a, (put_topic n l (h, cs, t')). split_and!; [|done|done|done|by eexists].
  unfold on_topic. callST ltac:(reflexivity). unfold mbind, ST_bind, liftST, putST. rewrite Hl. cbn. by rewrite E.
Qed.

(** ** One channel moves *)

Definition put_channel n (l : loc) (s : heap C * Channel D Q) : nsqd :=
  set_n_heap s.1 (set_n_chans (<[l := s.2]> n.(n_chans)) n).

Lemma safe_on_channel {A} l (m : ST (heap C * Channel D Q) A) n (R : A → heap C * Channel D Q → Prop) :
  daemon_ok n → chan_in n l →
  (∀ c, chan_ok (n.(n_heap), c) → ∃ a s, m (n.(n_heap), c) = Some (a, s) ∧ chan_ok s ∧ R a s) →
  (∀ c X Y, (∀ x, (n.(n_heap).(next) <= x)%nat → X x) → (∀ x, (n.(n_heap).(next) <= x)%nat → Y x) →
     fp X Y n.(n_heap) m (n.(n_heap), c) any) →
  safe (on_channel l m) n (λ a n', quiet n n' ∧ ∃ s, n' = put_channel n l s ∧ R a s).
Proof.
  intros Hn [c Hl] Hm Hfp. pose proof (dm_world _ Hn) as Hw.
  destruct (Hm c (wk_chan _ _ _ Hw l c Hl)) as (a & [h' c'] & E & Hok' & HR).
  destruct (world_step m [] _ _ _ l c a h' c' Hw Hl E Hok') as (Hw' & Ho & _).
  { by intros x ?%elem_of_nil. } { intros X Y HX HY _. by apply Hfp. }
  destruct (os_moved _ _ _ _ _ Ho) as [Mn Md Mc].
  exists a, (put_channel n l (h', c')). split_and!; [|split|split| |]; cbn.
  - unfold on_channel. callST ltac:(reflexivity). unfold mbind, ST_bind, liftST, putST. rewrite Hl. cbn. by rewrite E.
  - exact Hw'.
  - intros k tk Hk. eapply topic_local_mono; [by eapply (dm_topic _ Hn)|exact Md].
  - intros k Hk. apply (dm_fresh _ Hn). lia.
  - apply (dm_map _ Hn).
  - intros id k Hc. destruct (kept_client _ _ _ _ Mc Hc) as (c0 & Hc0 & Hcall).
    eapply client_ok_called; [exact Hcall|]. eapply client_ok_mono; [by eapply (dm_client _ Hn)|exact Md].
  - intros id Hid. eapply kept_known; [exact Mc|by apply (dm_known _ Hn)].
  - exact Mn.
  - exact Md.
  - done.
  - intros id. by apply kept_known.
  - done.
  - split; [exact Mc|done].
  - by eexists.
Qed.

Lemma on_topic_eq {A} l t (m : ST (heap C * gmap loc (Channel D Q) * Topic B MB) A) n a s :
  n.(n_topics) !! l = Some t → m (n.(n_heap), n.(n_chans), t) = Some (a, s) → on_topic l m n = Some (a, put_topic n l s).
Proof.
  intros Hl E. destruct s as [[h cs] t']. unfold on_topic. callST ltac:(reflexivity). unfold mbind, ST_bind, liftST, putST.
  rewrite Hl. cbn. by rewrite E.
Qed.

Lemma on_channel_eq {A} l ch (m : ST (heap C * Channel D Q) A) n a s :
  n.(n_chans) !! l = Some ch → m (n.(n_heap), ch) = Some (a, s) → on_channel l m n = Some (a, put_channel n l s).
Proof.
  intros Hl E. destruct s as [h c]. unfold on_channel. callST ltac:(reflexivity). unfold mbind, ST_bind, liftST, putST.
  rewrite Hl. cbn. by rewrite E.
Qed.

(** ** Clients *)

Lemma world_consumers (h : heap C) (cs : chanstore) mem x : world_ok h cs mem → world_ok (set_consumers x h) cs mem.
Proof.
  intros Hw. split; try apply Hw.
  - intros l c Hl. apply (chan_ok_other (h, c)); try done. by apply (wk_chan _ _ _ Hw l).
  - intros l l' c c' Hll Hl Hl'. destruct (wk_apart _ _ _ Hw l l' c c') as [? ?]; [done..|]. by split.
Qed.

Definition with_client n (id : Z) (c : C) : nsqd :=
  set_n_heap (set_consumers (<[id := c]> n.(n_heap).(consumers)) n.(n_heap)) n.

Lemma with_client_ok n id c : daemon_ok n → client_ok opts compiles (chan_in n) c →
  daemon_ok (with_client n id c) ∧ later n (with_client n id c).
Proof.
  intros Hn Hc.
  assert (Hk : ∀ k, is_Some (consumers (n_heap n) !! k) → is_Some (<[id := c]> (consumers (n_heap n)) !! k)).
  { intros k Hk. destruct (decide (k = id)) as [->|]; [rewrite lookup_insert_eq; by eexists|].
    by rewrite lookup_insert_ne. }
  split; split; cbn; try done; try apply Hn.
  - apply world_consumers, Hn.
  - intros k ck. rewrite lookup_insert_Some. intros [[_ <-]|[_ Hck]]; [done|]. by apply (dm_client _ Hn k).
  - intros k Hk'. by apply Hk, (dm_known _ Hn).
Qed.

Lemma safe_get_client n id : daemon_ok n → is_Some (n.(n_heap).(consumers) !! id) →
  safe (get_client id) n (λ c n', n' = n ∧ n.(n_heap).(consumers) !! id = Some c ∧ client_ok opts compiles (chan_in n) c).
Proof.
  intros Hn [c Hc]. unfold get_client. apply safe_get. eapply safe_lift; [exact Hc|done|].
  split_and!; [done|done|by apply (dm_client _ Hn id)].
Qed.

Lemma safe_put_client n id c : daemon_ok n → client_ok opts compiles (chan_in n) c →
  safe (put_client id c) n (λ _ n', n' = with_client n id c).
Proof.
  intros Hn Hc. destruct (with_client_ok n id c Hn Hc) as [K1 L1]. by exists (), (with_client n id c).
Qed.

Lemma newNSQD_ok : daemon_ok (newNSQD (W:=W) (D:=D) (Q:=Q) (B:=B) (MB:=MB)).
Proof.
  assert (E : all_mem (n_topics (newNSQD (W:=W) (D:=D) (Q:=Q) (B:=B) (MB:=MB))) = []) by done.
  split; try done. rewrite E. split; try done; [by intros x Hx%elem_of_nil|constructor].
Qed.

(** ** Topics: what nsqd asks of them *)

Section topics.
Context (range : ∀ A : Type, list A → list A).
Hypothesis range_perm : ∀ A (l : list A), range A l ≡ₚ l.
Hypothesis recv_small : ∀ (b b' : D) d, bq_Recv b = Some (d, b') → Z.of_nat (length d) < 2 ^ 31.
Hypothesis t_recv_small : ∀ (b b' : B) d, bq_Recv b = Some (d, b') → Z.of_nat (length d) < 2 ^ 31.
(** [putMemoryToFile] does not crash: see Topic.v for the queue with which it
    does. *)
Hypothesis memory_put : ∀ d (b : MB), is_Some (uq_Put d b).
Context (channel_queue : bytes → D) (topic_queue : bytes → B) (memory_queue : bytes → MB) (e2e : option Q).
Context (lookupdHTTPAddrs : list bytes) (GetLookupdTopicChannels : bytes → list bytes).

Notation copts := (Opts.chan_options opts).
Notation get_topic := (GetTopic opts range channel_queue topic_queue memory_queue e2e lookupdHTTPAddrs GetLookupdTopicChannels).
Notation get_channel nm := (GetChannel copts range channel_queue e2e nm).

Definition topic_in n (l : loc) : Prop := is_Some (n.(n_topics) !! l).

(** An operation of a topic of which only the safety matters. *)
Lemma safe_topic {A} l (m : ST (heap C * chanstore * Topic B MB) A) n :
  daemon_ok n → topic_in n l →
  (∀ F h cs t, topic_ok F (h, cs, t) → ∃ a s, m (h, cs, t) = Some (a, s) ∧ topic_ok F s) →
  safe (on_topic l m) n (λ _ n', quiet n n').
Proof.
  intros Hn [t Hl] Hm. eapply safe_weaken.
  - apply (safe_on_topic l t m n (λ _ _, True) Hn Hl). intros T.
    destruct (Hm _ _ _ _ T) as (a & s & E & T'). by exists a, s.
  - by intros a n' _ _ [? _].
Qed.

Lemma safe_Start l n : daemon_ok n → topic_in n l → safe (on_topic l Start) n (λ _ n', quiet n n').
Proof.
  intros Hn Hl. apply safe_topic; [done..|]. intros F h cs t T. eexists (), _. split; [reflexivity|].
  by apply (topic_ok_other F h cs t).
Qed.

Lemma safe_t_doPause b l n : daemon_ok n → topic_in n l → safe (on_topic l (t_doPause b)) n (λ _ n', quiet n n').
Proof.
  intros Hn Hl. apply safe_topic; [done..|]. intros F h cs t T.
  destruct (pause_ok F b h cs t T) as (t' & E & T'). by eexists _, _.
Qed.

Lemma safe_t_exit d l n : daemon_ok n → topic_in n l → safe (on_topic l (t_exit copts range d)) n (λ _ n', quiet n n').
Proof.
  intros Hn Hl. apply safe_topic; [done..|]. intros F h cs t T. by apply t_exit_ok.
Qed.

(** The channel is there afterwards. *)
Lemma safe_GetChannel nm l n : daemon_ok n → topic_in n l →
  safe (on_topic l (get_channel nm)) n (λ k n', quiet n n' ∧ chan_in n' k).
Proof.
  intros Hn [t Hl]. eapply safe_weaken.
  - apply (safe_on_topic l t (get_channel nm) n (λ k s, is_Some (s.1.2 !! k)) Hn Hl). intros T.
    destruct (GetChannel_ok copts range range_perm (frame_at n l) channel_queue e2e nm _ _ _ T)
      as (k & h' & cs' & t' & E & T' & Em & _). exists k, (h', cs', t'). split_and!; [done|done|].
    apply (tk_map _ _ T' nm). cbn. rewrite Em. apply lookup_insert_eq.
  - intros k n' _ _ (Hq & s & -> & Hk). by split.
Qed.

(** ** Making and finding topics *)

Lemma daemon_topicMap n nm l : daemon_ok n → topic_in n l →
  daemon_ok (set_topicMap (<[nm := l]> n.(topicMap)) n).
Proof.
  intros Hn Hl. split; try apply Hn. cbn. intros nm' k. rewrite lookup_insert_Some.
  intros [[_ <-]|[_ Hk]]; [done|by eapply (dm_map _ Hn)].
Qed.

Lemma safe_new_topic nm n : daemon_ok n →
  safe (new_topic opts topic_queue memory_queue nm) n (λ l n', quiet n n' ∧ topic_in n' l ∧ n'.(topicMap) = <[nm := l]> n.(topicMap)).
Proof.
  intros Hn. set (l := n.(n_heap).(next)).
  set (s := NewTopic topic_queue memory_queue opts.(Opts.ID) nm (set_next (S l) n.(n_heap)) n.(n_chans)).
  assert (Hw : world_ok (set_next (S l) n.(n_heap)) n.(n_chans) (all_mem (delete l n.(n_topics)))).
  { assert (El : delete l n.(n_topics) = n.(n_topics)) by (apply delete_id, (dm_fresh _ Hn); unfold l; lia).
    rewrite El. pose proof (dm_world _ Hn) as Hw. split; try apply Hw.
    - intros k c Hk. pose proof (wk_chan _ _ _ Hw k c Hk) as Hok. destruct Hok. split; try done.
      intros x Hx. apply ck_fresh0. cbn in *. unfold l in *. lia.
    - intros k k' c c' Hkk Hk Hk'. destruct (wk_apart _ _ _ Hw k k' c c') as [? ?]; [done..|]. by split.
    - intros x Hx. apply (wk_fresh _ _ _ Hw). cbn in Hx. unfold l in *. lia.
    - intros k Hk. apply (wk_store _ _ _ Hw). cbn in Hk. unfold l in *. lia. }
  assert (T : topic_ok (frame_at n l) s).
  { apply NewTopic_ok; [exact Hw|]. cbn. apply moved_heap; [cbn; unfold l; lia|done]. }
  destruct (put_topic_ok n l s Hn) as (K1 & L1 & Q1); [cbn; unfold l; lia|done|].
  assert (Hin : topic_in (put_topic n l s) l) by (unfold topic_in; cbn; rewrite lookup_insert_eq; by eexists).
  exists l, (set_topicMap (<[nm := l]> n.(topicMap)) (put_topic n l s)).
  split_and!; [done|by apply (daemon_topicMap (put_topic n l s))|by destruct L1; split| | |done].
  - exact Q1.
  - exact Hin.
Qed.

Lemma safe_precreate l names n : daemon_ok n → topic_in n l →
  safe (precreate opts range channel_queue e2e l names) n (λ _ n', quiet n n').
Proof.
  revert n. induction names as [|nm names IH]; intros n Hn Hl; cbn [precreate].
  { apply safe_ret; [done|apply quiet_refl]. }
  eapply (safe_bind _ _ _ (λ _ n', quiet n n')).
  - destruct (Names.HasSuffix nm Names.ephemeral_suffix); [apply safe_ret; [done|apply quiet_refl]|].
    eapply safe_bind; [by apply safe_GetChannel|]. intros k n1 K1 _ [Q1 _]. by apply safe_ret.
  - intros [] n1 K1 L1 Q1. eapply safe_weaken; [apply IH; [done|by apply (lt_topics _ _ L1)]|].
    intros [] n2 _ _ Q2. by eapply quiet_trans.
Qed.

Lemma safe_GetTopic nm n : daemon_ok n → safe (get_topic nm) n (λ l n', quiet n n' ∧ topic_in n' l).
Proof.
  intros Hn. unfold GetTopic. apply safe_get. destruct (topicMap n !! nm) as [l|] eqn:El.
  { apply safe_ret; [done|]. split; [apply quiet_refl|by eapply (dm_map _ Hn)]. }
  eapply safe_bind; [by apply safe_new_topic|]. intros l n1 K1 _ (Q1 & Hl1 & _). apply safe_get.
  destruct (isLoading n1); [by apply safe_ret|].
  eapply (safe_bind _ _ _ (λ _ n', quiet n1 n')).
  { case_bool_decide; [apply safe_ret; [done|apply quiet_refl]|by apply safe_precreate]. }
  intros [] n2 K2 L2 Q2. eapply safe_bind; [apply (safe_Start l n2 K2); by apply (lt_topics _ _ L2)|].
  intros [] n3 K3 L3 Q3. apply safe_ret; [done|]. split.
  - eapply quiet_trans; [exact Q1|]. by eapply quiet_trans.
  - by apply (lt_topics _ _ L3), (lt_topics _ _ L2).
Qed.

Lemma safe_DeleteExistingTopic nm n : daemon_ok n →
  safe (DeleteExistingTopic opts range nm) n (λ _ n', quiet n n').
Proof.
  intros Hn. unfold DeleteExistingTopic. apply safe_get. destruct (topicMap n !! nm) as [l|] eqn:El.
  2: { apply safe_ret; [done|apply quiet_refl]. }
  eapply safe_bind; [apply (safe_t_exit true l n Hn); by eapply (dm_map _ Hn)|].
  intros [r|] n1 K1 L1 Q1; [|by apply safe_ret].
  eapply (safe_bind _ _ _ (λ _ n', quiet n1 n')).
  - exists (), (set_topicMap (delete nm n1.(topicMap)) n1). split_and!; [done| | |].
    + split; try apply K1. cbn. intros nm' k [_ Hk]%lookup_delete_Some. by eapply (dm_map _ K1).
    + by split.
    + split; [apply consumers_kept_refl|done].
  - intros [] n2 K2 _ Q2. apply safe_ret; [done|]. by eapply quiet_trans.
Qed.

(** ** Messages that were made and not yet put *)

Definition loose n (x : loc) (m : Message) : Prop :=
  n.(n_heap).(msgs) !! x = Some m ∧ unowned n.(n_heap) n.(n_chans) (all_mem n.(n_topics)) x.

Lemma unowned_perm (h : heap C) (cs : chanstore) mem mem' x : mem' ≡ₚ mem → unowned h cs mem x → unowned h cs mem' x.
Proof. intros Hp (? & Hx & ?). split_and!; [done|by rewrite Hp|done]. Qed.

Lemma held_at n l t : n.(n_topics) !! l = Some t →
  t.(t_memoryMsgChan) ++ (frame_at n l).(fr_mem) ≡ₚ all_mem n.(n_topics).
Proof. intros Hl. by rewrite (all_mem_lookup _ _ _ Hl). Qed.

Lemma loose_put_topic n l t t' x m : n.(n_topics) !! l = Some t → t'.(t_memoryMsgChan) = t.(t_memoryMsgChan) →
  loose n x m → loose (put_topic n l (n.(n_heap), n.(n_chans), t')) x m.
Proof.
  intros Hl Em [Hm Hu]. split; [done|]. eapply unowned_perm; [|exact Hu]. cbn.
  by rewrite all_mem_insert, Em, (all_mem_lookup _ _ _ Hl).
Qed.

Lemma loose_with_client n id c x m : loose n x m → loose (with_client n id c) x m.
Proof. intros [Hm [Hx [Hy Hz]]]. split; [done|]. split_and!; [done|done|]. intros l ck Hl. by apply (Hz l). Qed.

Lemma GenerateID_length nows f f' id : Guid.GenerateID nows f = (f', Some id) → length id = MsgIDLength.
Proof.
  revert f. induction nows as [|now nows IH]; intros f; cbn; [done|]. destruct (Guid.NewGUID now f) as [f1 [g|e]]; [|apply IH].
  intros [= _ <-]. apply Guid.length_Hex.
Qed.

Lemma safe_GenerateID nows l n : daemon_ok n → topic_in n l →
  safe (on_topic l (t_GenerateID nows)) n (λ r n', quiet n n' ∧ (∀ x m, loose n x m → loose n' x m) ∧
    match r with Some id => length id = MsgIDLength | None => True end).
Proof.
  intros Hn [t Hl]. eapply safe_weaken.
  - apply (safe_on_topic l t _ n (λ r s, (∃ f, s = (n.(n_heap), n.(n_chans), set_t_idFactory f t)) ∧
      match r with Some id => length id = MsgIDLength | None => True end) Hn Hl). intros T.
    unfold t_GenerateID, mbind, ST_bind, getST. destruct (Guid.GenerateID nows _) as [f id] eqn:E.
    eexists _, _. split_and!; [reflexivity| |by eexists|destruct id; [by eapply GenerateID_length|done]].
    by apply (topic_ok_other _ _ _ t).
  - intros id n' _ _ (Hq & s & -> & (f & ->) & Hlen). split_and!; [done| |done]. intros x m. by apply (loose_put_topic _ _ t).
Qed.

Lemma safe_t_new_msg l m n : daemon_ok n → topic_in n l → small m →
  safe (on_topic l (t_new_msg m)) n (λ x n', quiet n n' ∧ loose n' x m ∧ ∀ y v, loose n y v → loose n' y v ∧ y ≠ x).
Proof.
  intros Hn [t Hl] Hs. destruct (topic_at n l t Hn Hl) as [T _].
  destruct (topic_new_msg (frame_at n l) _ _ _ m T Hs) as (T1 & Hu & Hm & Hk).
  assert (Hmem : ∀ y, unowned (alloc_msg m n.(n_heap)) n.(n_chans) (t.(t_memoryMsgChan) ++ (frame_at n l).(fr_mem)) y →
    unowned (alloc_msg m n.(n_heap)) n.(n_chans) (all_mem (<[l := t]> n.(n_topics))) y).
  { intros y. apply unowned_perm. by rewrite all_mem_insert. }
  eapply safe_weaken.
  - apply (safe_on_topic l t _ n (λ x s, x = next n.(n_heap) ∧ s = (alloc_msg m n.(n_heap), n.(n_chans), t)) Hn Hl). intros _.
    eexists _, _. split_and!; [reflexivity|exact T1|done|done].
  - intros x n' _ _ (Hq & s & -> & -> & ->). split; [done|]. split; [by split; [|apply Hmem]|].
    intros y v [Hy Hyu]. destruct (Hk y) as (Hyu' & Hne & Em).
    { eapply unowned_perm; [|exact Hyu]. by rewrite (held_at _ _ _ Hl). }
    split; [|done]. split; [cbn [put_topic n_heap set_n_heap fst]; by rewrite Em|by apply Hmem].
Qed.

Lemma safe_t_PutMessage l x m n : daemon_ok n → topic_in n l → loose n x m →
  safe (on_topic l (t_PutMessage copts x)) n (λ _ n', quiet n n').
Proof.
  intros Hn [t Hl] [Hm Hu]. eapply safe_weaken.
  - apply (safe_on_topic l t _ n (λ _ _, True) Hn Hl). intros T.
    destruct (t_PutMessage_ok copts _ _ _ _ x m T) as (err & s & E & T'); [|done|by eexists _, _].
    eapply unowned_perm; [|exact Hu]. by rewrite (held_at _ _ _ Hl).
  - by intros a n' _ _ [? _].
Qed.

Lemma safe_PutMessages l xs ms n : daemon_ok n → topic_in n l → Forall2 (loose n) xs ms → NoDup xs →
  safe (on_topic l (PutMessages copts xs)) n (λ _ n', quiet n n').
Proof.
  intros Hn [t Hl] Hms Hnd. eapply safe_weaken.
  - apply (safe_on_topic l t _ n (λ _ _, True) Hn Hl). intros T.
    destruct (PutMessages_ok copts _ xs ms _ _ _ T) as (err & s & E & T'); [|done| |by eexists _, _].
    + eapply Forall2_impl; [exact Hms|]. by intros x m [? _].
    + intros x Hx. apply list_elem_of_lookup in Hx as [i Hx]. destruct (Forall2_lookup_l _ _ _ _ _ Hms Hx) as (m & _ & _ & Hu).
      eapply unowned_perm; [|exact Hu]. by rewrite (held_at _ _ _ Hl).
  - by intros a n' _ _ [? _].
Qed.

(** ** Metadata, the scan and the exit *)

Lemma safe_channel_exec o l n : daemon_ok n → chan_in n l → op_ok o →
  safe (on_channel l (exec copts range o)) n (λ _ n', quiet n n').
Proof.
  intros Hn Hl Ho. eapply safe_weaken.
  - apply (safe_on_channel l _ n (λ _ _, True) Hn Hl).
    + intros c Hok. destruct (exec_ok copts range range_perm recv_small _ o Hok Ho) as (s & E & ?). by eexists _, _.
    + intros c X Y HX HY. by apply fp_exec.
  - by intros a n' _ _ [? _].
Qed.

Lemma safe_doPause b l n : daemon_ok n → chan_in n l → safe (on_channel l (Channel.doPause b)) n (λ _ n', quiet n n').
Proof. intros Hn Hl. by apply (safe_channel_exec (OpPause b)). Qed.

Lemma safe_load_channels l cs n : daemon_ok n → topic_in n l →
  safe (load_channels opts range channel_queue e2e l cs) n (λ _ n', quiet n n').
Proof.
  revert n. induction cs as [|c cs IH]; intros n Hn Hl; cbn [load_channels].
  { apply safe_ret; [done|apply quiet_refl]. }
  eapply (safe_bind _ _ _ (λ _ n', quiet n n')).
  - destruct (negb _); [apply safe_ret; [done|apply quiet_refl]|].
    eapply safe_bind; [by apply safe_GetChannel|]. intros k n1 K1 _ [Q1 Hk].
    destruct (mc_Paused c); [|by apply safe_ret].
    eapply safe_weaken; [by apply (safe_doPause true)|]. intros [] n2 _ _ Q2. by eapply quiet_trans.
  - intros [] n1 K1 L1 Q1. eapply safe_weaken; [apply IH; [done|by apply (lt_topics _ _ L1)]|].
    intros [] n2 _ _ Q2. by eapply quiet_trans.
Qed.

Notation load := (load_topics opts range channel_queue topic_queue memory_queue e2e lookupdHTTPAddrs GetLookupdTopicChannels).

Lemma safe_load_topics mts n : daemon_ok n → safe (load mts) n (λ _ n', quiet n n').
Proof.
  revert n. induction mts as [|mt mts IH]; intros n Hn; cbn [load_topics].
  { apply safe_ret; [done|apply quiet_refl]. }
  eapply (safe_bind _ _ _ (λ _ n', quiet n n')).
  - destruct (negb _); [apply safe_ret; [done|apply quiet_refl]|].
    eapply safe_bind; [by apply safe_GetTopic|]. intros l n1 K1 _ [Q1 Hl].
    eapply (safe_bind _ _ _ (λ _ n', quiet n1 n')).
    { destruct (mt_Paused mt); [by apply (safe_t_doPause true)|apply safe_ret; [done|apply quiet_refl]]. }
    intros [] n2 K2 L2 Q2. eapply safe_bind; [apply safe_load_channels; [done|by apply (lt_topics _ _ L2)]|].
    intros [] n3 K3 L3 Q3. eapply safe_weaken; [apply (safe_Start l n3 K3); by apply (lt_topics _ _ L3), (lt_topics _ _ L2)|].
    intros [] n4 _ _ Q4. repeat (eapply quiet_trans; [eassumption|]). apply quiet_refl.
  - intros [] n1 K1 L1 Q1. eapply safe_weaken; [by apply IH|]. intros [] n2 _ _ Q2. by eapply quiet_trans.
Qed.

Lemma safe_set_isLoading b n : daemon_ok n → safe (modST (set_isLoading b)) n (λ _ n', quiet n n').
Proof.
  intros Hn. exists (), (set_isLoading b n). split_and!; [done| | |split; [apply consumers_kept_refl|done]].
  - split; apply Hn.
  - by split.
Qed.

Lemma safe_LoadMetadata unmarshal fs n : daemon_ok n →
  safe (LoadMetadata opts range channel_queue topic_queue memory_queue e2e lookupdHTTPAddrs GetLookupdTopicChannels unmarshal fs) n
    (λ _ n', quiet n n').
Proof.
  intros Hn. unfold LoadMetadata. eapply safe_bind; [by apply safe_set_isLoading|]. intros [] n1 K1 _ Q1.
  eapply (safe_bind _ _ _ (λ _ n', quiet n1 n')).
  { destruct (fs !! _) as [data|]; [|apply safe_ret; [done|apply quiet_refl]].
    destruct (unmarshal data) as [mts|]; [|apply safe_ret; [done|apply quiet_refl]].
    eapply safe_bind; [by apply safe_load_topics|]. intros [] n2 K2 _ Q2. by apply safe_ret. }
  intros err n2 K2 _ Q2. eapply safe_bind; [by apply safe_set_isLoading|]. intros [] n3 K3 _ Q3.
  apply safe_ret; [done|]. repeat (eapply quiet_trans; [eassumption|]). apply quiet_refl.
Qed.

Lemma safe_close_topics ls n : daemon_ok n → (∀ l, l ∈ ls → topic_in n l) →
  safe (close_topics opts range ls) n (λ _ n', quiet n n').
Proof.
  revert n. induction ls as [|l ls IH]; intros n Hn Hin; cbn [close_topics].
  { apply safe_ret; [done|apply quiet_refl]. }
  eapply safe_bind; [apply (safe_t_exit false l n Hn); apply Hin; by left|].
  intros [r|] n1 K1 L1 Q1; [|by apply safe_ret].
  eapply safe_weaken; [apply IH; [done|]|].
  - intros k Hk. apply (lt_topics _ _ L1), Hin. by right.
  - intros a n2 _ _ Q2. by eapply quiet_trans.
Qed.

(** A worker of the scan. *)
Lemma safe_queueScanWorker now l n : daemon_ok n → chan_in n l →
  safe (queueScanWorker opts now l) n (λ _ n', quiet n n').
Proof.
  intros Hn Hl. unfold queueScanWorker.
  eapply (safe_bind _ _ _ (λ _ n', quiet n n')).
  { eapply safe_weaken; [apply (safe_on_channel l _ n (λ _ _, True) Hn Hl)|by intros a n' _ _ [? _]].
    - intros c Hok. destruct (proj1 (scans_ok copts _ (UnixNano now) Hok)) as (b & s & E & ?). by eexists _, _.
    - intros c X Y HX HY. by apply fp_processInFlight. }
  intros d1 n1 K1 L1 Q1. eapply (safe_bind _ _ _ (λ _ n', quiet n1 n')).
  { eapply safe_weaken; [apply (safe_on_channel l _ n1 (λ _ _, True) K1)|by intros a n' _ _ [? _]].
    - by apply (lt_chans _ _ L1).
    - intros c Hok. destruct (proj2 (scans_ok copts _ (UnixNano now) Hok)) as (b & s & E & ?). by eexists _, _.
    - intros c X Y HX HY. by apply fp_processDeferred. }
  intros d2 n2 K2 _ Q2. apply safe_ret; [done|]. by eapply quiet_trans.
Qed.

(** ** The scan loop *)

Lemma channels_in n l : daemon_ok n → l ∈ channels range n → chan_in n l.
Proof.
  intros Hn. unfold channels. rewrite list_elem_of_bind. intros (k & Hl & Hk).
  rewrite range_perm in Hk. apply list_elem_of_fmap in Hk as ([nm k'] & -> & Hk%elem_of_map_to_list).
  destruct (dm_map _ Hn nm k' Hk) as [t Ht]. cbn in Hl. rewrite Ht in Hl.
  rewrite range_perm in Hl. apply list_elem_of_fmap in Hl as ([cn l'] & -> & Hl%elem_of_map_to_list).
  by eapply (tl_map _ _ (dm_topic _ Hn k' t Ht)).
Qed.

(** As many rounds as the pool is away from its size. *)
Lemma resize_loop_ok fuel ideal pool : 0 <= ideal → 0 <= pool → (Z.to_nat (Z.abs (ideal - pool)) < fuel)%nat →
  resize_loop fuel ideal pool = Some ideal.
Proof.
  revert pool. induction fuel as [|fuel IH]; intros pool Hi Hp Hf; [lia|]. cbn.
  destruct (Z.eqb_spec ideal pool) as [->|]; [done|].
  destruct (Z.ltb_spec ideal pool); [|apply IH; lia].
  destruct (Z.leb_spec pool 0); [lia|]. apply IH; lia.
Qed.

Lemma idealPoolSize_bounds num : 0 <= opts.(Opts.QueueScanWorkerPoolMax) →
  0 <= idealPoolSize opts num <= Z.max 1 opts.(Opts.QueueScanWorkerPoolMax).
Proof.
  intros Hm. unfold idealPoolSize. destruct (Z.ltb_spec (Z.quot num 4) 1); [lia|].
  rewrite Z.gtb_ltb. destruct (Z.ltb_spec opts.(Opts.QueueScanWorkerPoolMax) (Z.quot num 4)); lia.
Qed.

Lemma resizePool_eq num n : 0 <= opts.(Opts.QueueScanWorkerPoolMax) → 0 <= n.(poolSize) →
  resizePool opts num n = Some ((), set_poolSize (idealPoolSize opts num) n).
Proof.
  intros Hm Hp. unfold resizePool. callST ltac:(reflexivity). unfold mbind, ST_bind, liftST.
  rewrite resize_loop_ok; [done| |done|lia]. apply idealPoolSize_bounds, Hm.
Qed.

Lemma safe_refresh n : 0 <= opts.(Opts.QueueScanWorkerPoolMax) → 0 <= n.(poolSize) → daemon_ok n →
  safe (refresh opts range) n (λ cs n', quiet n n' ∧ ∀ l, l ∈ cs → chan_in n' l).
Proof.
  intros Hm Hp Hn. eexists _, _. split_and!.
  - unfold refresh, mbind, ST_bind, getST. rewrite (resizePool_eq _ n Hm Hp). reflexivity.
  - split; apply Hn.
  - split; try done. cbn. intros _. by apply idealPoolSize_bounds.
  - split; [apply consumers_kept_refl|done].
  - intros l. by apply channels_in.
Qed.

Definition all_in n (cs : list loc) : Prop := ∀ l, l ∈ cs → chan_in n l.

Lemma all_in_later n n' cs : later n n' → all_in n cs → all_in n' cs.
Proof. intros L Hcs l Hl. by apply (lt_chans _ _ L), Hcs. Qed.

Lemma safe_scan_selected now cs sel n : daemon_ok n → all_in n cs → Forall (λ i, i < length cs)%nat sel →
  safe (scan_selected opts now cs sel) n (λ _ n', quiet n n').
Proof.
  revert n. induction sel as [|i sel IH]; intros n Hn Hcs Hsel; cbn [scan_selected].
  { apply safe_ret; [done|apply quiet_refl]. }
  apply Forall_cons in Hsel as [Hi Hsel]. destruct (lookup_lt_is_Some_2 cs i Hi) as [l Hl].
  eapply (safe_bind _ _ _ (λ a n', n' = n ∧ a = l)); [by eapply safe_lift|]. intros a n' _ _ [-> ->].
  eapply safe_bind; [apply safe_queueScanWorker; [done|]|].
  { apply Hcs. by eapply list_elem_of_lookup_2. }
  intros dirty n1 K1 L1 Q1. eapply safe_bind; [apply IH; [done|by eapply all_in_later|done]|].
  intros k n2 K2 _ Q2. apply safe_ret; [done|]. exact (quiet_trans _ _ _ Q1 Q2).
Qed.

Lemma safe_scan_pass now rand cs n : daemon_ok n → all_in n cs → safe (scan_pass opts now rand cs) n (λ _ n', quiet n n').
Proof.
  intros Hn Hcs. unfold scan_pass. set (num := Nat.min _ _).
  destruct (Rands.UniqRands_spec rand num (length cs)) as (sel & E & _ & _ & Hsel).
  eapply (safe_bind _ _ _ (λ a n', n' = n ∧ a = sel)); [by eapply safe_lift|]. intros a n' _ _ [-> ->].
  eapply safe_bind; [by apply safe_scan_selected|]. intros k n1 K1 _ Q1.
  case_bool_decide; by apply safe_ret.
Qed.

Lemma safe_scan_passes passes cs n : daemon_ok n → all_in n cs → safe (scan_passes opts passes cs) n (λ _ n', quiet n n').
Proof.
  revert n. induction passes as [|[now rand] passes IH]; intros n Hn Hcs; cbn [scan_passes].
  { apply safe_ret; [done|apply quiet_refl]. }
  eapply safe_bind; [by apply safe_scan_pass|]. intros [] n1 K1 L1 Q1; [|by apply safe_ret].
  eapply safe_weaken; [apply IH; [done|by eapply all_in_later]|]. intros a n2 _ _ Q2. by eapply quiet_trans.
Qed.

Lemma safe_queueScanLoop_turn cs ev n : 0 <= opts.(Opts.QueueScanWorkerPoolMax) → 0 <= n.(poolSize) → daemon_ok n → all_in n cs →
  safe (queueScanLoop_turn opts range cs ev) n (λ r n', quiet n n' ∧ match r with Some (cs', _) => all_in n' cs' | None => True end).
Proof.
  intros Hm Hp Hn Hcs. destruct ev as [passes| |]; cbn.
  - case_bool_decide; [apply safe_ret; [done|]; split; [apply quiet_refl|done]|].
    eapply safe_bind; [by apply safe_scan_passes|]. intros ok n1 K1 L1 Q1. apply safe_ret; [done|].
    split; [done|by eapply all_in_later].
  - eapply safe_bind; [by apply safe_refresh|]. intros cs' n1 K1 L1 [Q1 Hcs']. by apply safe_ret.
  - apply safe_ret; [done|]. split; [apply quiet_refl|done].
Qed.

(** ** Metadata can always be written *)

Lemma channel_meta_ok n l : chan_in n l → is_Some (channel_meta n l).
Proof. intros [c Hc]. unfold channel_meta. rewrite Hc. by eexists. Qed.

Lemma topic_meta_ok n l : daemon_ok n → topic_in n l → is_Some (topic_meta range n l).
Proof.
  intros Hn [t Ht]. unfold topic_meta. rewrite Ht. cbn. destruct (t_ephemeral t); [by eexists|].
  assert (Hc : is_Some (mapM (channel_meta n) (range _ (map_to_list t.(t_channelMap)).*2))).
  { apply mapM_is_Some_2, Forall_forall. intros k Hk. rewrite range_perm in Hk.
    apply list_elem_of_fmap in Hk as ([cn k'] & -> & Hk%elem_of_map_to_list).
    apply channel_meta_ok. by eapply (tl_map _ _ (dm_topic _ Hn l t Ht)). }
  destruct Hc as [cs ->]. by eexists.
Qed.

Lemma metadata_ok n : daemon_ok n → is_Some (metadata range n).
Proof.
  intros Hn. unfold metadata. destruct (mapM _ _) as [ts|] eqn:E; [by eexists|]. exfalso.
  apply eq_None_not_Some in E. apply E, mapM_is_Some_2, Forall_forall. intros k Hk. rewrite range_perm in Hk.
  apply list_elem_of_fmap in Hk as ([nm k'] & -> & Hk%elem_of_map_to_list).
  apply topic_meta_ok; [done|]. by eapply (dm_map _ Hn).
Qed.

Lemma safe_Exit marshal random f rf fs n : daemon_ok n →
  safe (Exit opts range marshal random f rf fs) n (λ _ n', quiet n n').
Proof.
  intros Hn. unfold Exit. apply safe_get. destruct (metadata_ok n Hn) as [js Hjs].
  assert (Hp : is_Some (PersistMetadata opts range marshal random f rf n fs)).
  { unfold PersistMetadata. rewrite Hjs. cbn. destruct (writeSyncFile _ _ _ _) as [fs' [e|]]; by eexists. }
  destruct Hp as [[fs' err] Hp].
  eapply (safe_bind _ _ _ (λ a n', n' = n)); [by eapply safe_lift|]. intros [fs1 e1] n' _ _ ->.
  eapply safe_bind; [apply safe_close_topics; [done|]|].
  { intros l Hl. rewrite range_perm in Hl. apply list_elem_of_fmap in Hl as ([nm k] & -> & Hk%elem_of_map_to_list).
    by eapply (dm_map _ Hn). }
  intros ok n1 K1 _ Q1. by apply safe_ret.
Qed.

End topics.
End daemon.
End DaemonP.
