(* ===== verification/MetadataProps.v ===== *)
(** * Metadata survives restarts

    What [PersistMetadata] writes, [LoadMetadata] makes again: the topics,
    their channels and what is paused ([metadata_restart]); and the file of a
    data path always holds complete metadata, whatever fails while it is
    written ([metadata_atomic]). *)
From stdpp Require Import base gmap list strings.
From Stdlib Require Import ZArith Lia.
From S2P Require Import Prelude.
From S2P Require Import Text.
From S2P Require Import Message.
From S2P Require Import Heap.
From S2P Require Import Backend.
From S2P Require Import Channel.
From S2P Require Import ChannelProofs.
From S2P Require Import ChannelScan.
From S2P Require Import ChannelProps.
From S2P Require Import ChannelFrame.
From S2P Require Import Topic.
From S2P Require Import TopicProofs.
From S2P Require Import TopicProps.
From S2P Require Import Options.
From S2P Require Import Client.
From S2P Require Import Nsqd.
From S2P Require Import DaemonProofs.
Set Default Goal Selector "!".
Local Open Scope Z_scope.

Module Metadata.
Import Channel ChannelP ChannelS ChannelSpec ChannelF Topic TopicP TopicSpec Nsqd DaemonP.

(** ** What metadata says *)

Notation view := (gmap (list Byte.byte) (bool * gmap (list Byte.byte) bool)).

Definition channel_pairs (cs : list meta_channel) : list (list Byte.byte * bool) := (λ c, (mc_Name c, mc_Paused c)) <$> cs.
Definition topic_pairs (m : meta) : list (list Byte.byte * (bool * gmap (list Byte.byte) bool)) :=
  (λ t, (mt_Name t, (mt_Paused t, list_to_map (channel_pairs (mt_Channels t))))) <$> m.
Definition meta_view (m : meta) : view := list_to_map (topic_pairs m).

(** Valid names that are not ephemeral, each once: what is persisted for
    topics and channels with valid names. *)
Definition channels_ok (cs : list meta_channel) : Prop :=
  NoDup (mc_Name <$> cs) ∧ Forall (λ c, Names.IsValidChannelName (mc_Name c) = true ∧ Names.is_ephemeral (mc_Name c) = false) cs.
Definition meta_ok (m : meta) : Prop :=
  NoDup (mt_Name <$> m) ∧
  Forall (λ t, Names.IsValidTopicName (mt_Name t) = true ∧ Names.is_ephemeral (mt_Name t) = false ∧ channels_ok (mt_Channels t)) m.

(** ** Files *)

Section files.
Context {W D Q B MB : Type}.
Context (opts : Opts.Options) (range : ∀ A : Type, list A → list A).
Notation file := (newMetadataFile opts).

(** Whatever fails while the metadata is written - opening, a partial
    write, the sync, the rename - the metadata file afterwards holds what it
    held or the complete new metadata, the latter whenever no error is
    reported; and no file but it and the temporary one changed. *)
Theorem metadata_atomic marshal random f rename_fails (n : NSQD W D Q B MB) fs js fs' err :
  metadata range n = Some js → PersistMetadata opts range marshal random f rename_fails n fs = Some (fs', err) →
  (fs' !! file = fs !! file ∨ fs' !! file = Some (marshal js)) ∧
  (err = None → fs' !! file = Some (marshal js)) ∧
  ∀ fn, fn ≠ file → fn ≠ file ++ bytes_of_string "." ++ random ++ bytes_of_string ".tmp" → fs' !! fn = fs !! fn.
Proof.
  unfold files in *. intros Hjs. unfold PersistMetadata. rewrite Hjs. cbn [mbind option_bind].
  set (tmp := file ++ _). assert (Hne : tmp ≠ file).
  { unfold tmp. intros E. apply (f_equal length) in E. rewrite length_app in E. cbn in E. lia. }
  assert (Hw : ∀ data, (<[tmp := data]> fs) !! file = fs !! file) by (intros; by rewrite lookup_insert_ne).
  assert (Ho : ∀ data fn, fn ≠ tmp → (<[tmp := data]> fs) !! fn = fs !! fn) by (intros; by rewrite lookup_insert_ne).
  destruct f as [[e|k e|e]|]; unfold writeSyncFile, files;
    try (intros [= <- <-]; split_and!; [by left|done|intros; by rewrite ?Ho]).
  unfold Rename, files. rewrite lookup_insert_eq. destruct rename_fails as [e|]; intros [= <- <-].
  - split_and!; [by left|done|intros; by rewrite ?Ho].
  - rewrite lookup_insert_eq. split_and!; [by right|done|]. intros fn Hf Ht.
    by rewrite lookup_insert_ne, lookup_delete_ne, Ho.
Qed.
End files.

(** ** Loading *)

Section load.
Context {W D Q B MB : Type}.
Context `{Client.ConnWriter W, !BackendQueue D, !BackendLaws D, QuantileStream Q,
          !BackendQueue B, !BackendLaws B, UnloggedQueue MB}.
Context (opts : Opts.Options) (compiles : bytes → bool) (range : ∀ A : Type, list A → list A).
Hypothesis range_perm : ∀ A (l : list A), range A l ≡ₚ l.
Hypothesis recv_small : ∀ (b b' : D) d, bq_Recv b = Some (d, b') → Z.of_nat (length d) < 2 ^ 31.
Context (channel_queue : bytes → D) (topic_queue : bytes → B) (memory_queue : bytes → MB) (e2e : option Q).
Context (lookupdHTTPAddrs : list bytes) (GetLookupdTopicChannels : bytes → list bytes).

Notation nsqd := (NSQD W D Q B MB).
Notation chanstore := (gmap loc (Channel D Q)).
Notation copts := (Opts.chan_options opts).
Notation daemon_ok := (daemon_ok opts compiles).
Notation get_topic := (GetTopic opts range channel_queue topic_queue memory_queue e2e lookupdHTTPAddrs GetLookupdTopicChannels).
Notation get_channel nm := (GetChannel copts range channel_queue e2e nm).
Implicit Types (n : nsqd) (V : view).

(** The channels of a topic are [Cs]. *)
Definition channels_are (cs : chanstore) (t : Topic B MB) (Cs : gmap (list Byte.byte) bool) : Prop :=
  ∀ cn, match Cs !! cn with
    | None => t.(t_channelMap) !! cn = None
    | Some q => ∃ k c, t.(t_channelMap) !! cn = Some k ∧ cs !! k = Some c ∧
        c.(Channel.topicName) = t.(t_name) ∧ c.(Channel.name) = cn ∧ c.(Channel.paused) = q ∧ c.(Channel.ephemeral) = false
    end.

Definition topic_is (cs : chanstore) (t : Topic B MB) (nm : bytes) (p : bool) (Cs : gmap (list Byte.byte) bool) : Prop :=
  t.(t_name) = nm ∧ t.(t_paused) = p ∧ t.(t_ephemeral) = false ∧ channels_are cs t Cs.

(** The topics of the daemon are [V]. *)
Definition loaded n V : Prop :=
  ∀ nm, match V !! nm with
    | None => n.(topicMap) !! nm = None
    | Some (p, Cs) => ∃ l t, n.(topicMap) !! nm = Some l ∧ n.(n_topics) !! l = Some t ∧ topic_is n.(n_chans) t nm p Cs
    end.

(** What a channel that is not [cn] of the topic [nm] keeps. *)
Definition others_kept (nm : bytes) (cs cs' : chanstore) : Prop :=
  ∀ k c, cs !! k = Some c → c.(Channel.topicName) ≠ nm → cs' !! k = Some c.

Lemma loaded_step n n' V nm l t' p Cs :
  loaded n V → (∀ nm', nm' ≠ nm → n'.(topicMap) !! nm' = n.(topicMap) !! nm') →
  n'.(topicMap) !! nm = Some l → n'.(n_topics) = <[l := t']> n.(n_topics) →
  (∀ t, n.(n_topics) !! l = Some t → t.(t_name) = nm) →
  others_kept nm n.(n_chans) n'.(n_chans) → topic_is n'.(n_chans) t' nm p Cs →
  loaded n' (<[nm := (p, Cs)]> V).
Proof.
  intros HV Hmap Hl Ht Hold Hkeep Ht' nm'. destruct (decide (nm' = nm)) as [->|Hne].
  - rewrite lookup_insert_eq. exists l, t'. split_and!; [done| |done]. by rewrite Ht, lookup_insert_eq.
  - rewrite lookup_insert_ne by done. specialize (HV nm'). rewrite Hmap by done.
    destruct (V !! nm') as [[p1 C1]|]; [|done]. destruct HV as (l1 & t1 & Hm1 & Ht1 & Hn1 & Hp1 & He1 & Hc1).
    exists l1, t1. split; [done|]. split.
    { rewrite Ht, lookup_insert_ne; [done|]. intros ->. apply Hne. by rewrite <- Hn1, (Hold _ Ht1). }
    split_and!; [done..|]. intros cn. specialize (Hc1 cn). destruct (C1 !! cn) as [q|]; [|done].
    destruct Hc1 as (k & c & Hk & Hc & Htn & ?). exists k, c. split; [done|]. split; [|done].
    apply Hkeep; [done|]. rewrite Htn, Hn1. done.
Qed.

(** A fresh topic. *)
Lemma loaded_GetTopic nm n V : daemon_ok n → n.(isLoading) = true → loaded n V → V !! nm = None → Names.is_ephemeral nm = false →
  ∃ l n', get_topic nm n = Some (l, n') ∧ loaded n' (<[nm := (false, ∅)]> V) ∧ n'.(topicMap) !! nm = Some l ∧ n'.(isLoading) = true.
Proof.
  intros Hn Hload HV Hnm He. pose proof (HV nm) as Hnone. rewrite Hnm in Hnone.
  set (l := n.(n_heap).(next)).
  set (s := NewTopic topic_queue memory_queue opts.(Opts.ID) nm (set_next (S l) n.(n_heap)) n.(n_chans)).
  set (n' := set_topicMap (<[nm := l]> n.(topicMap)) (put_topic n l s)).
  assert (E : new_topic opts topic_queue memory_queue nm n = Some (l, n')) by done.
  exists l, n'. split_and!; [| |cbn; apply lookup_insert_eq|done].
  - unfold GetTopic. callST ltac:(reflexivity). rewrite Hnone. callST ltac:(exact E). callST ltac:(reflexivity).
    change (isLoading n') with (isLoading n). by rewrite Hload.
  - eapply (loaded_step n n' V nm l s.2); [done| |cbn; apply lookup_insert_eq|done| |by intros k c|].
    + intros nm' Hne. cbn. by rewrite lookup_insert_ne.
    + intros t Ht. rewrite (dm_fresh _ _ _ Hn l) in Ht; done.
    + split_and!; [done|done|exact He|]. intros cn. by rewrite !lookup_empty.
Qed.

(** A step on the topic of [nm]. *)
Lemma loaded_on_topic {A} nm (m : ST (heap (Client.clientV2 W) * chanstore * Topic B MB) A) n V l p Cs a h cs t t' p' Cs' :
  loaded n V → V !! nm = Some (p, Cs) → n.(topicMap) !! nm = Some l → n.(n_topics) !! l = Some t →
  m (n.(n_heap), n.(n_chans), t) = Some (a, (h, cs, t')) → others_kept nm n.(n_chans) cs → topic_is cs t' nm p' Cs' →
  ∃ n', on_topic l m n = Some (a, n') ∧ loaded n' (<[nm := (p', Cs')]> V) ∧ n'.(topicMap) !! nm = Some l ∧ n'.(isLoading) = n.(isLoading).
Proof.
  intros HV Hnm Hl Ht E Hkeep Ht'. exists (put_topic n l (h, cs, t')).
  split_and!; [by apply (on_topic_eq l t)| |done|done].
  pose proof (HV nm) as Hx. rewrite Hnm in Hx. destruct Hx as (l1 & t1 & Hl1 & Ht1 & Hn1 & _).
  rewrite Hl in Hl1. injection Hl1 as <-. rewrite Ht in Ht1. injection Ht1 as <-.
  apply (loaded_step n (put_topic n l (h, cs, t')) V nm l t'); try done.
  intros t2 Ht2. rewrite Ht in Ht2. injection Ht2 as <-. done.
Qed.

Lemma loaded_at n V nm l p Cs : loaded n V → V !! nm = Some (p, Cs) → n.(topicMap) !! nm = Some l →
  ∃ t, n.(n_topics) !! l = Some t ∧ topic_is n.(n_chans) t nm p Cs.
Proof.
  intros HV Hnm Hl. specialize (HV nm). rewrite Hnm in HV. destruct HV as (l1 & t & Hl1 & Ht & ?).
  rewrite Hl in Hl1. injection Hl1 as <-. by exists t.
Qed.

Lemma loaded_pause b nm n V l p Cs : loaded n V → V !! nm = Some (p, Cs) → n.(topicMap) !! nm = Some l →
  ∃ n', on_topic l (t_doPause b) n = Some ((), n') ∧ loaded n' (<[nm := (b, Cs)]> V) ∧ n'.(topicMap) !! nm = Some l ∧ n'.(isLoading) = n.(isLoading).
Proof.
  intros HV Hnm Hl. destruct (loaded_at n V nm l p Cs HV Hnm Hl) as (t & Ht & Hn1 & Hp1 & He1 & Hc1).
  set (t1 := set_t_paused b t).
  assert (E : ∃ t2, t_doPause b (n.(n_heap), n.(n_chans), t) = Some ((), (n.(n_heap), n.(n_chans), t2)) ∧
    t2.(t_name) = t.(t_name) ∧ t2.(t_paused) = b ∧ t2.(t_ephemeral) = t.(t_ephemeral) ∧ t2.(t_channelMap) = t.(t_channelMap)).
  { exists (if t.(t_exitChan) then t1 else match t.(t_pump) with PumpRunning chans _ => set_t_pump (PumpRunning chans (may_receive chans t1)) t1 | _ => t1 end).
    unfold t_doPause. callST ltac:(reflexivity). fold t1. unfold rendezvous. callST ltac:(reflexivity).
    change (t_exitChan t1) with (t_exitChan t). destruct (t_exitChan t); [done|]. unfold pump_pause, upd_topic, modST.
    change (t_pump t1) with (t_pump t). by destruct (t_pump t). }
  destruct E as (t2 & E & E1 & E2 & E3 & E4).
  eapply (loaded_on_topic nm (t_doPause b) n V l p Cs); [done|done|done|exact Ht|exact E|by intros k c|].
  split_and!; [congruence|done|congruence|]. intros cn. specialize (Hc1 cn). rewrite E4, E1. exact Hc1.
Qed.

Lemma loaded_Start nm n V l p Cs : loaded n V → V !! nm = Some (p, Cs) → n.(topicMap) !! nm = Some l →
  ∃ n', on_topic l Start n = Some ((), n') ∧ loaded n' V ∧ n'.(topicMap) !! nm = Some l ∧ n'.(isLoading) = n.(isLoading).
Proof.
  intros HV Hnm Hl. destruct (loaded_at n V nm l p Cs HV Hnm Hl) as (t & Ht & Hn1 & Hp1 & He1 & Hc1).
  destruct (loaded_on_topic nm Start n V l p Cs () n.(n_heap) n.(n_chans) t (set_t_startChan true t) p Cs)
    as (n' & E & HV' & ?); [done..|by intros k c|by split_and!|].
  exists n'. split; [done|]. by rewrite insert_id in HV'.
Qed.

(** A fresh channel. *)
Lemma GetChannel_new cn (h : heap (Client.clientV2 W)) (cs : chanstore) (t : Topic B MB) :
  t.(t_channelMap) !! cn = None →
  ∃ h' c t', get_channel cn (h, cs, t) = Some (h.(next), (h', <[h.(next) := c]> cs, t')) ∧
    c.(Channel.topicName) = t.(t_name) ∧ c.(Channel.name) = cn ∧ c.(Channel.paused) = false ∧
    c.(Channel.ephemeral) = Names.is_ephemeral cn ∧
    t'.(t_name) = t.(t_name) ∧ t'.(t_paused) = t.(t_paused) ∧ t'.(t_ephemeral) = t.(t_ephemeral) ∧
    t'.(t_channelMap) = <[cn := h.(next)]> t.(t_channelMap).
Proof.
  intros Hcn. destruct (NewChannel copts channel_queue e2e t.(t_name) cn h) as [[h1 c]|] eqn:E; [|done].
  assert (Hc : h1 = set_ctx_log (h.(ctx_log) ++ [Notify]) h ∧ c.(Channel.topicName) = t.(t_name) ∧ c.(Channel.name) = cn ∧
    c.(Channel.paused) = false ∧ c.(Channel.ephemeral) = Names.is_ephemeral cn).
  { revert E. unfold NewChannel. cbn. by intros [= <- <-]. }
  destruct Hc as (-> & Hc). set (k := h.(next)). set (h' := set_next (S k) (set_ctx_log (h.(ctx_log) ++ [Notify]) h)).
  set (t1 := set_t_channelMap (<[cn := k]> t.(t_channelMap)) t).
  set (t2 := if t.(t_exitChan) then t1 else match t.(t_pump) with
    | PumpRunning _ _ => set_t_pump (PumpRunning (current_chans range t1) (may_receive (current_chans range t1) t1)) t1 | _ => t1 end).
  exists h', c, t2. split; [|split_and!; try apply Hc; unfold t2; by destruct (t_exitChan t), (t_pump t)].
  assert (E1 : open_channel copts channel_queue e2e cn (h, cs, t) = Some (k, (h', <[k := c]> cs, t))).
  { unfold open_channel. callST ltac:(reflexivity). unfold mbind, ST_bind, liftST. by rewrite E. }
  unfold GetChannel, getOrCreateChannel.
  callST ltac:(callST ltac:(reflexivity); rewrite Hcn; callST ltac:(exact E1); callST ltac:(reflexivity); reflexivity).
  fold t1. cbn [whenST]. unfold rendezvous.
  assert (E2 : ((λ '(_, _, t), if t.(t_exitChan) then mret () else pump_update range) : _ → ST (heap (Client.clientV2 W) * chanstore * Topic B MB) ())
    (h', <[k := c]> cs, t1) (h', <[k := c]> cs, t1) = Some ((), (h', <[k := c]> cs, t2))).
  { unfold t2. change (t_exitChan t1) with (t_exitChan t). destruct (t_exitChan t); [done|]. unfold pump_update, upd_topic, modST.
    change (t_pump t1) with (t_pump t). by destruct (t_pump t). }
  callST ltac:(callST ltac:(reflexivity); exact E2). done.
Qed.

Lemma loaded_GetChannel nm cn n V l p Cs : daemon_ok n → loaded n V → V !! nm = Some (p, Cs) → n.(topicMap) !! nm = Some l →
  Cs !! cn = None → Names.is_ephemeral cn = false →
  ∃ k n', on_topic l (get_channel cn) n = Some (k, n') ∧ loaded n' (<[nm := (p, <[cn := false]> Cs)]> V) ∧
    n'.(topicMap) !! nm = Some l ∧ n'.(isLoading) = n.(isLoading) ∧
    (∃ t, n'.(n_topics) !! l = Some t ∧ t.(t_channelMap) !! cn = Some k).
Proof.
  intros Hn HV Hnm Hl Hcn He. destruct (loaded_at n V nm l p Cs HV Hnm Hl) as (t & Ht & Hn1 & Hp1 & He1 & Hc1).
  pose proof (Hc1 cn) as Hnone. rewrite Hcn in Hnone.
  destruct (GetChannel_new cn n.(n_heap) n.(n_chans) t Hnone) as (h' & c & t' & E & Hct & Hcname & Hcp & Hce & Et1 & Et2 & Et3 & Et4).
  set (k := n.(n_heap).(next)) in *.
  assert (Hfresh : n.(n_chans) !! k = None) by (apply (wk_store _ _ _ (dm_world _ _ _ Hn)); done).
  destruct (loaded_on_topic nm (get_channel cn) n V l p Cs k h' (<[k := c]> n.(n_chans)) t t' p (<[cn := false]> Cs))
    as (n' & E' & HV' & Hl' & Hload'); [done..| | |].
  - intros k' c' Hk' _. rewrite lookup_insert_ne; [done|]. intros <-. congruence.
  - split_and!; [congruence..|]. intros cn'. destruct (decide (cn' = cn)) as [->|Hne].
    + rewrite lookup_insert_eq. exists k, c. rewrite Et4, lookup_insert_eq, lookup_insert_eq. split_and!; [done|done|congruence|done|done|congruence].
    + rewrite lookup_insert_ne by done. specialize (Hc1 cn'). rewrite Et4, lookup_insert_ne by done.
      destruct (Cs !! cn') as [q|]; [|done]. destruct Hc1 as (k' & c' & Hk' & Hc' & Htn & ?). exists k', c'. split; [done|].
      split; [rewrite lookup_insert_ne; [done|]; intros <-; congruence|]. split; [congruence|done].
  - exists k, n'. split_and!; [done..|]. exists t'. split; [|by rewrite Et4, lookup_insert_eq].
    rewrite (on_topic_eq l t _ n k (h', <[k := c]> n.(n_chans), t') Ht E) in E'. injection E' as <-. cbn. apply lookup_insert_eq.
Qed.

(** The channel [cn] of the topic is paused. *)
Lemma loaded_channel_pause b nm cn n V l t k p Cs q : loaded n V → V !! nm = Some (p, Cs) → n.(topicMap) !! nm = Some l →
  n.(n_topics) !! l = Some t → t.(t_channelMap) !! cn = Some k → Cs !! cn = Some q →
  ∃ n', on_channel k (Channel.doPause b) n = Some ((), n') ∧ loaded n' (<[nm := (p, <[cn := b]> Cs)]> V) ∧
    n'.(topicMap) !! nm = Some l ∧ n'.(isLoading) = n.(isLoading).
Proof.
  intros HV Hnm Hl Ht Hk Hq. destruct (loaded_at n V nm l p Cs HV Hnm Hl) as (t1 & Ht1 & Hn1 & Hp1 & He1 & Hc1).
  rewrite Ht in Ht1. injection Ht1 as <-. pose proof (Hc1 cn) as Hx. rewrite Hq in Hx.
  destruct Hx as (k1 & c & Hk1 & Hc & Htn & Hcn & Hcq & Hce). rewrite Hk in Hk1. injection Hk1 as <-.
  assert (E : ∃ h', (Channel.doPause b) (n.(n_heap), c) = Some ((), (h', set_paused b c))) by (by eexists).
  destruct E as (h' & E). exists (put_channel n k (h', set_paused b c)).
  split_and!; [by apply (on_channel_eq k c)| |done|done].
  apply (loaded_step n (put_channel n k (h', set_paused b c)) V nm l t); try done.
  - cbn. by rewrite insert_id.
  - intros t2 Ht2. rewrite Ht in Ht2. by injection Ht2 as <-.
  - intros k' c' Hk' Hne. cbn. rewrite lookup_insert_ne; [done|]. intros <-. rewrite Hc in Hk'. injection Hk' as <-. congruence.
  - split_and!; [done..|]. intros cn'. destruct (decide (cn' = cn)) as [->|Hne].
    + rewrite lookup_insert_eq. exists k, (set_paused b c). cbn. rewrite lookup_insert_eq. by split_and!.
    + rewrite lookup_insert_ne by done. specialize (Hc1 cn'). destruct (Cs !! cn') as [q'|]; [|done].
      destruct Hc1 as (k' & c' & Hk' & Hc' & Htn' & Hcn' & ?). exists k', c'. split; [done|]. split; [|done].
      cbn. rewrite lookup_insert_ne; [done|]. intros <-. rewrite Hc in Hc'. injection Hc' as <-. congruence.
Qed.

(** ** Loading lists *)

Lemma loaded_topic_in n V nm l p Cs : loaded n V → V !! nm = Some (p, Cs) → n.(topicMap) !! nm = Some l → topic_in n l.
Proof. intros HV Hnm Hl. destruct (loaded_at n V nm l p Cs HV Hnm Hl) as (t & Ht & _). by exists t. Qed.

Lemma loaded_load_channels nm l p cs : ∀ n V Cs, daemon_ok n → n.(isLoading) = true → loaded n V → V !! nm = Some (p, Cs) →
  n.(topicMap) !! nm = Some l → channels_ok cs → (∀ c, c ∈ cs → Cs !! mc_Name c = None) →
  ∃ n', load_channels opts range channel_queue e2e l cs n = Some ((), n') ∧
    loaded n' (<[nm := (p, list_to_map (channel_pairs cs) ∪ Cs)]> V) ∧
    n'.(topicMap) !! nm = Some l ∧ n'.(isLoading) = true.
Proof.
  induction cs as [|c cs IH]; intros n V Cs Hn Hload HV Hnm Hl [Hnd Hok] Hfresh; cbn [load_channels].
  { exists n. split_and!; [done| |done|done]. cbn. rewrite (left_id_L ∅ (∪)). by rewrite insert_id. }
  apply NoDup_cons in Hnd as [Hnot Hnd]. apply Forall_cons in Hok as [[Hv He] Hok].
  set (cn := mc_Name c) in *. pose proof (Hfresh c ltac:(by left)) as Hcn. fold cn in Hcn.
  destruct (loaded_GetChannel nm cn n V l p Cs Hn HV Hnm Hl Hcn He) as (k & n1 & E1 & HV1 & Hl1 & Hload1 & t1 & Ht1 & Hk1).
  assert (K1 : daemon_ok n1).
  { eapply safe_daemon_ok; [|exact E1]. eapply safe_GetChannel; [done|done|by eapply loaded_topic_in]. }
  assert (H2 : ∃ n2, (if mc_Paused c then on_channel k Channel.Pause else mret ()) n1 = Some ((), n2) ∧ daemon_ok n2 ∧
    loaded n2 (<[nm := (p, <[cn := mc_Paused c]> Cs)]> V) ∧ n2.(topicMap) !! nm = Some l ∧ n2.(isLoading) = true).
  { destruct (mc_Paused c); [|exists n1; split_and!; [done..|congruence]].
    destruct (loaded_channel_pause true nm cn n1 _ l t1 k p (<[cn := false]> Cs) false HV1) as (n2 & E2 & HV2 & Hl2 & Hload2);
      [apply lookup_insert_eq|done|done|done|apply lookup_insert_eq|].
    exists n2. split_and!; [done| | |done|congruence].
    - eapply safe_daemon_ok; [|exact E2]. eapply (safe_doPause opts compiles range range_perm recv_small true); [done|].
      by eapply (tl_map _ _ (dm_topic _ _ _ K1 l t1 Ht1)).
    - by rewrite !insert_insert_eq in HV2. }
  destruct H2 as (n2 & E2 & K2 & HV2 & Hl2 & Hload2).
  destruct (IH n2 _ (<[cn := mc_Paused c]> Cs) K2 Hload2 HV2) as (n3 & E3 & HV3 & Hl3 & Hload3).
  { apply lookup_insert_eq. } { done. } { by split. }
  { intros c' Hc'. rewrite lookup_insert_ne; [apply Hfresh; by right|]. intros Ec. apply Hnot. rewrite Ec. by apply list_elem_of_fmap_2. }
  exists n3. split_and!; [| |done|done].
  - unfold Names.IsValidChannelName in *. rewrite Hv. cbn [negb].
    callST ltac:(callST ltac:(exact E1); exact E2). exact E3.
  - rewrite insert_insert_eq in HV3. cbn [channel_pairs fmap list_fmap list_to_map foldr].
    assert (Em : list_to_map (channel_pairs cs) ∪ <[cn:=mc_Paused c]> Cs = <[cn := mc_Paused c]> (list_to_map (channel_pairs cs)) ∪ Cs).
    { rewrite <- insert_union_l. symmetry. apply insert_union_r, not_elem_of_list_to_map_1.
      unfold channel_pairs. rewrite <- list_fmap_compose. exact Hnot. }
    rewrite Em in HV3. exact HV3.
Qed.

Notation load := (load_topics opts range channel_queue topic_queue memory_queue e2e lookupdHTTPAddrs GetLookupdTopicChannels).

Lemma loaded_load_topics m : ∀ n V, daemon_ok n → n.(isLoading) = true → loaded n V → meta_ok m →
  (∀ t, t ∈ m → V !! mt_Name t = None) →
  ∃ n', load m n = Some ((), n') ∧ daemon_ok n' ∧ loaded n' (meta_view m ∪ V).
Proof.
  induction m as [|mt m IH]; intros n V Hn Hload HV [Hnd Hok] Hfresh; cbn [load_topics].
  { exists n. split_and!; [done|done|]. unfold meta_view. cbn. by rewrite (left_id_L ∅ (∪)). }
  apply NoDup_cons in Hnd as [Hnot Hnd]. apply Forall_cons in Hok as [(Hv & He & Hcs) Hok].
  set (nm := mt_Name mt) in *. set (p := mt_Paused mt). set (Cs := list_to_map (channel_pairs (mt_Channels mt)) : gmap (list Byte.byte) bool).
  pose proof (Hfresh mt ltac:(by left)) as Hnm. fold nm in Hnm.
  destruct (loaded_GetTopic nm n V Hn Hload HV Hnm He) as (l & n1 & E1 & HV1 & Hl1 & Hload1).
  assert (K1 : daemon_ok n1) by (eapply safe_daemon_ok; [|exact E1]; by eapply safe_GetTopic).
  assert (H2 : ∃ n2, (if p then on_topic l t_Pause else mret ()) n1 = Some ((), n2) ∧ daemon_ok n2 ∧
    loaded n2 (<[nm := (p, ∅)]> V) ∧ n2.(topicMap) !! nm = Some l ∧ n2.(isLoading) = true).
  { destruct p; [|by exists n1].
    destruct (loaded_pause true nm n1 _ l false ∅ HV1) as (n2 & E2 & HV2 & Hl2 & Hload2); [apply lookup_insert_eq|done|].
    exists n2. split_and!; [done| | |done|congruence].
    - eapply safe_daemon_ok; [|exact E2]. eapply (safe_t_doPause opts compiles true); [done|].
      eapply loaded_topic_in; [exact HV1|apply lookup_insert_eq|done].
    - by rewrite insert_insert_eq in HV2. }
  destruct H2 as (n2 & E2 & K2 & HV2 & Hl2 & Hload2).
  destruct (loaded_load_channels nm l p (mt_Channels mt) n2 _ ∅ K2 Hload2 HV2) as (n3 & E3 & HV3 & Hl3 & Hload3);
    [apply lookup_insert_eq|done|done|done|].
  rewrite insert_insert_eq, (right_id_L ∅ (∪)) in HV3. fold Cs in HV3.
  assert (K3 : daemon_ok n3).
  { eapply safe_daemon_ok; [|exact E3]. eapply safe_load_channels; [done|done|done|].
    eapply loaded_topic_in; [exact HV2|apply lookup_insert_eq|done]. }
  destruct (loaded_Start nm n3 _ l p Cs HV3) as (n4 & E4 & HV4 & Hl4 & Hload4); [apply lookup_insert_eq|done|].
  assert (K4 : daemon_ok n4).
  { eapply safe_daemon_ok; [|exact E4]. eapply safe_Start; [done|]. eapply loaded_topic_in; [exact HV3|apply lookup_insert_eq|done]. }
  destruct (IH n4 _ K4 ltac:(congruence) HV4) as (n5 & E5 & K5 & HV5).
  { by split. }
  { intros t Ht. rewrite lookup_insert_ne; [apply Hfresh; by right|]. intros Ec. apply Hnot. rewrite Ec. by apply list_elem_of_fmap_2. }
  exists n5. split_and!; [|done|].
  - unfold Names.IsValidTopicName in *. rewrite Hv. cbn [negb]. fold p.
    callST ltac:(callST ltac:(exact E1); callST ltac:(exact E2); callST ltac:(exact E3); exact E4). exact E5.
  - unfold meta_view. cbn [topic_pairs fmap list_fmap list_to_map foldr].
    assert (Em : meta_view m ∪ <[nm := (p, Cs)]> V = <[nm := (p, Cs)]> (meta_view m) ∪ V).
    { rewrite <- insert_union_l. symmetry. apply insert_union_r, not_elem_of_list_to_map_1.
      unfold topic_pairs. rewrite <- list_fmap_compose. exact Hnot. }
    rewrite Em in HV5. exact HV5.
Qed.

(** ** Persisting what was loaded *)

Lemma list_to_map_is {A} (l : list (list Byte.byte * A)) (m : gmap (list Byte.byte) A) :
  (∀ k x, (k, x) ∈ l ↔ m !! k = Some x) → list_to_map l = m.
Proof.
  intros Hl. apply map_eq. intros k. destruct (m !! k) as [x|] eqn:E.
  - apply elem_of_list_to_map_1'; [|by apply Hl]. intros y Hy%Hl. congruence.
  - apply not_elem_of_list_to_map_1. intros ([k' x] & -> & Hx)%list_elem_of_fmap. apply Hl in Hx. cbn in E. congruence.
Qed.

(** A [mapM] whose results are single elements. *)
Lemma mapM_singles {A A'} (f : A → option (list A')) (g : A → A') xs :
  (∀ x, x ∈ xs → f x = Some [g x]) → ∃ ys, mapM f xs = Some ys ∧ mjoin ys = g <$> xs.
Proof.
  induction xs as [|x xs IH]; intros Hf; [by exists []|].
  destruct IH as (ys & E & Ej). { intros y Hy. apply Hf. by right. }
  exists ([g x] :: ys). cbn. rewrite (Hf x) by (by left). cbn. rewrite E. cbn. unfold mjoin in Ej |- *. cbn [list_join]. by rewrite Ej.
Qed.

(** Entries named like the keys of a map are named differently. *)
Lemma NoDup_keys {X Y : Type} (m : gmap (list Byte.byte) X) (name : Y → bytes) (g : X → Y) :
  (∀ k x, m !! k = Some x → name (g x) = k) → NoDup (name <$> (g <$> range X (map_to_list m).*2)).
Proof.
  intros Hg. rewrite range_perm, <- !list_fmap_compose.
  rewrite (list_fmap_ext _ fst); [apply NoDup_fst_map_to_list|]. intros j [k x] Hj%list_elem_of_lookup_2%elem_of_map_to_list. by apply Hg.
Qed.

Lemma channel_meta_view cs (t : Topic B MB) Cs n : n.(n_chans) = cs → channels_are cs t Cs →
  ∃ ys, mapM (channel_meta n) (range _ (map_to_list t.(t_channelMap)).*2) = Some ys ∧
    list_to_map (channel_pairs (mjoin ys)) = Cs ∧ NoDup (mc_Name <$> mjoin ys).
Proof.
  intros Hcs Hare. set (ks := range _ (map_to_list t.(t_channelMap)).*2).
  set (g := λ k, match cs !! k with Some c => mkMetaChannel c.(Channel.name) c.(Channel.paused) | None => mkMetaChannel [] false end).
  assert (Hks : ∀ k, k ∈ ks → ∃ cn q c, t.(t_channelMap) !! cn = Some k ∧ cs !! k = Some c ∧ c.(Channel.name) = cn ∧
    c.(Channel.paused) = q ∧ c.(Channel.ephemeral) = false ∧ Cs !! cn = Some q).
  { intros k. unfold ks. rewrite range_perm. intros ([cn k'] & -> & Hk%elem_of_map_to_list)%list_elem_of_fmap.
    specialize (Hare cn). cbn. destruct (Cs !! cn) as [q|] eqn:Eq; [|congruence].
    destruct Hare as (k & c & Hk' & Hc & _ & ? & ? & ?). rewrite Hk in Hk'. injection Hk' as <-. by exists cn, q, c. }
  destruct (mapM_singles (channel_meta n) g ks) as (ys & E & Ej).
  { intros k Hk. destruct (Hks k Hk) as (cn & q & c & _ & Hc & Hn & Hp & He & _). unfold channel_meta, g.
    rewrite Hcs, Hc. cbn. by rewrite He. }
  exists ys. split; [done|]. split.
  2: { rewrite Ej. apply NoDup_keys. intros cn k Hk. destruct (Hks k) as (cn' & q & c & Hk' & Hc & <- & _).
       { unfold ks. rewrite range_perm. apply list_elem_of_fmap. exists (cn, k). split; [done|]. by apply elem_of_map_to_list. }
       unfold g. rewrite Hc. specialize (Hare cn). destruct (Cs !! cn); [|congruence].
       destruct Hare as (k1 & c1 & Hk1 & Hc1 & _ & Hn1 & _). cbn. congruence. }
  etrans; [exact (f_equal (λ l, list_to_map (channel_pairs l)) Ej)|]. apply list_to_map_is. intros cn q. split.
  - intros (mc & [= -> ->] & (k & -> & Hk)%list_elem_of_fmap)%list_elem_of_fmap.
    destruct (Hks k Hk) as (cn & q & c & _ & Hc & Hn & Hp & _ & Hq). unfold g. rewrite Hc. cbn. by subst.
  - intros Hq. specialize (Hare cn). rewrite Hq in Hare. destruct Hare as (k & c & Hk & Hc & _ & Hn & Hp & _).
    apply list_elem_of_fmap. exists (g k). split; [unfold g; rewrite Hc; cbn; by subst|].
    apply list_elem_of_fmap_2. unfold ks. rewrite range_perm. apply list_elem_of_fmap. exists (cn, k). split; [done|].
    by apply elem_of_map_to_list.
Qed.

Lemma loaded_metadata n V : loaded n V → ∃ js, metadata range n = Some js ∧ meta_view js = V ∧
  NoDup (mt_Name <$> js) ∧ Forall (λ mt, NoDup (mc_Name <$> mt_Channels mt)) js.
Proof.
  intros HV. set (ls := range _ (map_to_list n.(topicMap)).*2).
  assert (Hls : ∀ l, l ∈ ls → ∃ nm p Cs cs, n.(topicMap) !! nm = Some l ∧ V !! nm = Some (p, Cs) ∧
    topic_meta range n l = Some [mkMetaTopic nm p cs] ∧ list_to_map (channel_pairs cs) = Cs ∧ NoDup (mc_Name <$> cs)).
  { intros l. unfold ls. rewrite range_perm. intros ([nm l'] & -> & Hl%elem_of_map_to_list)%list_elem_of_fmap.
    specialize (HV nm). cbn. destruct (V !! nm) as [[p Cs]|] eqn:EV; [|congruence].
    destruct HV as (l & t & Hl' & Ht & Hn & Hp & He & Hc). rewrite Hl in Hl'. injection Hl' as <-.
    destruct (channel_meta_view n.(n_chans) t Cs n eq_refl Hc) as (ys & E & Ec & Hnd).
    exists nm, p, Cs, (mjoin ys). split_and!; [done|done| |done|done]. unfold topic_meta. rewrite Ht. cbn. rewrite He, E. cbn. by rewrite Hn, Hp. }
  set (g := λ l, match topic_meta range n l with Some [mt] => mt | _ => mkMetaTopic [] false [] end).
  destruct (mapM_singles (topic_meta range n) g ls) as (ts & E & Ej).
  { intros l Hl. destruct (Hls l Hl) as (nm & p & Cs & cs & _ & _ & Em & _). unfold g. by rewrite Em. }
  exists (mjoin ts). split; [unfold metadata; fold ls; by rewrite E|]. split; [|rewrite Ej; split].
  2: { apply NoDup_keys. intros nm l Hl. destruct (Hls l) as (nm' & p & Cs & cs & Hl' & HVn & Em & _).
       { unfold ls. rewrite range_perm. apply list_elem_of_fmap. exists (nm, l). split; [done|]. by apply elem_of_map_to_list. }
       unfold g. rewrite Em. cbn. pose proof (HV nm) as Hx. pose proof (HV nm') as Hx'. rewrite HVn in Hx'.
       destruct (V !! nm) as [[]|]; [|congruence]. destruct Hx as (l1 & t1 & Hl1 & Ht1 & Hn1 & _), Hx' as (l2 & t2 & Hl2 & Ht2 & Hn2 & _).
       congruence. }
  2: { apply Forall_fmap, Forall_forall. intros l Hl. destruct (Hls l Hl) as (nm & p & Cs & cs & _ & _ & Em & _ & Hnd).
       cbn. unfold g. by rewrite Em. }
  etrans; [exact (f_equal meta_view Ej)|]. apply list_to_map_is. intros nm [p Cs]. split.
  - intros (mt & [= -> -> ->] & (l & -> & Hl)%list_elem_of_fmap)%list_elem_of_fmap.
    destruct (Hls l Hl) as (nm & p & Cs & cs & _ & HVn & Em & <- & _). unfold g. by rewrite Em.
  - intros Hv. pose proof (HV nm) as HVn. rewrite Hv in HVn. destruct HVn as (l & t & Hl & Ht & Hn & _).
    assert (Hin : l ∈ ls). { unfold ls. rewrite range_perm. apply list_elem_of_fmap. exists (nm, l). split; [done|]. by apply elem_of_map_to_list. }
    destruct (Hls l Hin) as (nm' & p' & Cs' & cs & Hl' & HV' & Em & Hcs & _).
    assert (nm' = nm) as ->.
    { pose proof (HV nm') as Hx. rewrite HV' in Hx. destruct Hx as (l2 & t2 & Hl2 & Ht2 & Hn2 & _).
      rewrite Hl' in Hl2. injection Hl2 as <-. rewrite Ht in Ht2. injection Ht2 as <-. congruence. }
    rewrite Hv in HV'. injection HV' as <- <-. apply list_elem_of_fmap. exists (g l).
    split; [|by apply list_elem_of_fmap_2]. unfold g. rewrite Em. by rewrite <- Hcs.
Qed.

(** What is persisted without a fault. *)
Lemma persisted_file marshal random n fs js : metadata range n = Some js →
  ∃ fs', PersistMetadata opts range marshal random None None n fs = Some (fs', None) ∧ fs' !! newMetadataFile opts = Some (marshal js).
Proof.
  intros Hjs. set (tmp := newMetadataFile opts ++ bytes_of_string "." ++ random ++ bytes_of_string ".tmp").
  exists (<[newMetadataFile opts := marshal js]> (delete tmp (<[tmp := marshal js]> fs)) : files). split.
  - unfold PersistMetadata. rewrite Hjs. cbn [mbind option_bind]. fold tmp. unfold writeSyncFile, Rename, files.
    by rewrite lookup_insert_eq.
  - unfold files. apply lookup_insert_eq.
Qed.

(** A start on a file with metadata. *)
Lemma started_on unmarshal fs data js :
  fs !! newMetadataFile opts = Some data → unmarshal data = Some js → meta_ok js →
  ∃ n', LoadMetadata opts range channel_queue topic_queue memory_queue e2e lookupdHTTPAddrs GetLookupdTopicChannels unmarshal fs newNSQD
      = Some (None, n') ∧ loaded n' (meta_view js) ∧ n'.(isLoading) = false.
Proof.
  intros Hf Hrt Hok. pose proof (newNSQD_ok opts compiles (W:=W) (D:=D) (Q:=Q) (B:=B) (MB:=MB)) as K0.
  set (n0 := set_isLoading true newNSQD : nsqd).
  assert (K0' : daemon_ok n0) by (split; apply K0).
  destruct (loaded_load_topics js n0 ∅ K0' eq_refl) as (n1 & E1 & K1 & HV); [by intros nm|done|by intros|].
  rewrite (right_id_L ∅ (∪)) in HV. exists (set_isLoading false n1). split_and!; [|exact HV|done].
  unfold LoadMetadata. callST ltac:(reflexivity). rewrite Hf, Hrt. fold n0.
  callST ltac:(callST ltac:(exact E1); reflexivity). callST ltac:(reflexivity). done.
Qed.

(** Nsqd started on a file with metadata - valid names, each once - has
    exactly these topics with exactly these channels, paused exactly where
    the metadata says; what it would persist in turn says the same. In
    particular what [PersistMetadata] wrote before a restart is what is there
    after it. *)
Theorem metadata_restart marshal unmarshal random n fs js :
  metadata range n = Some js → meta_ok js → unmarshal (marshal js) = Some js →
  ∃ fs' n' js', PersistMetadata opts range marshal random None None n fs = Some (fs', None) ∧
    LoadMetadata opts range channel_queue topic_queue memory_queue e2e lookupdHTTPAddrs GetLookupdTopicChannels unmarshal fs' newNSQD
      = Some (None, n') ∧
    loaded n' (meta_view js) ∧ n'.(isLoading) = false ∧ metadata range n' = Some js' ∧ meta_view js' = meta_view js.
Proof.
  intros Hjs Hok Hrt. destruct (persisted_file marshal random n fs js Hjs) as (fs' & E & Hf).
  destruct (started_on unmarshal fs' _ js Hf Hrt Hok) as (n' & E' & HV & Hl).
  destruct (loaded_metadata n' _ HV) as (js' & Ejs & Hv & _). by exists fs', n', js'.
Qed.

End load.

End Metadata.
