(* ===== verification/ProtocolProofs.v ===== *)
(** * No command stops nsqd

    Every command of a client, whatever its bytes, runs to a response or an
    error without a panic, and keeps the invariant of the daemon. *)
From stdpp Require Import base gmap list strings.
From Stdlib Require Import ZArith Lia.
From S2P Require Import Prelude.
From S2P Require Import Decimal.
From S2P Require Import Text.
From S2P Require Import Message.
From S2P Require Import Wire.
From S2P Require Import Heap.
From S2P Require Import Backend.
From S2P Require Import Channel.
From S2P Require Import ChannelProofs.
From S2P Require Import ChannelProps.
From S2P Require Import ChannelFrame.
From S2P Require Import Topic.
From S2P Require Import TopicProofs.
From S2P Require Import TopicProps.
From S2P Require Import Auth.
From S2P Require Import Options.
From S2P Require Import Client.
From S2P Require Import ClientProps.
From S2P Require Import Nsqd.
From S2P Require Import DaemonProofs.
From S2P Require Import Protocol.
Set Default Goal Selector "!".
Local Open Scope Z_scope.

Module ProtocolP.
Import Wire Channel ChannelP ChannelSpec ChannelF Topic TopicP TopicSpec ClientSpec Nsqd DaemonP Protocol.

(** A message that is not too big for the options. *)
Lemma small_new (opts : Opts.Options) now mid body d : options_ok opts → length mid = MsgIDLength → Z.of_nat (length body) <= opts.(Opts.MaxMsgSize) →
  small (set_deferred d (NewMessage now mid body)).
Proof.
  intros oo Hm Hb. pose proof (oo_size _ oo). unfold small. rewrite encode_message_eq. cbn [ID Body Timestamp Attempts set_deferred NewMessage].
  rewrite !length_app, !length_be_encode, Hm. unfold MsgIDLength. lia.
Qed.

Section protocol.
Context {W D Q B MB : Type}.
Context `{Client.ConnWriter W, !BackendQueue D, !BackendLaws D, QuantileStream Q,
          !BackendQueue B, !BackendLaws B, UnloggedQueue MB}.
Context (opts : Opts.Options) (range : ∀ A : Type, list A → list A).
Hypothesis range_perm : ∀ A (l : list A), range A l ≡ₚ l.
Hypothesis recv_small : ∀ (b b' : D) d, bq_Recv b = Some (d, b') → Z.of_nat (length d) < 2 ^ 31.
Hypothesis t_recv_small : ∀ (b b' : B) d, bq_Recv b = Some (d, b') → Z.of_nat (length d) < 2 ^ 31.
Hypothesis memory_put : ∀ d (b : MB), is_Some (uq_Put d b).
Context (channel_queue : bytes → D) (topic_queue : bytes → B) (memory_queue : bytes → MB) (e2e : option Q).
Context (lookupdHTTPAddrs : list bytes) (GetLookupdTopicChannels : bytes → list bytes).
Context (compiles : bytes → bool) (match_string : bytes → bytes → bool) (GETV1 : bytes → res string Auth.State) (commonName : bytes).
Context (unmarshal_identify : bytes → option Client.identifyDataV2).
Context (marshal_identify : identify_response → res string bytes) (marshal_auth : auth_response → res string bytes).
Context (Quote : bytes → string) (tlsConfig : bool).
Hypothesis oo : options_ok opts.

Notation nsqd := (NSQD W D Q B MB).
Notation client := (Client.clientV2 W).
Notation NM := (ST nsqd).
Notation CM := (PM nsqd).
Notation copts := (Opts.chan_options opts).
Notation daemon_ok := (daemon_ok opts compiles).
Notation safe := (safe opts compiles).
Implicit Types (n : nsqd).

(** ** Programs that fail or wait *)

Definition psafe {A} (m : CM A) n (R : A → nsqd → Prop) : Prop :=
  safe m n (λ r n', match r with Ok a => R a n' | Err _ => True end).

Lemma psafe_ret {A} (a : A) n (R : A → nsqd → Prop) : daemon_ok n → R a n → psafe (mret a) n R.
Proof. intros. exists (Ok a), n. split_and!; [done|done|apply later_refl|done]. Qed.

Lemma psafe_fail {A} e n (R : A → nsqd → Prop) : daemon_ok n → psafe (fail e) n R.
Proof. intros. exists (Err (Fail e)), n. split_and!; [done|done|apply later_refl|done]. Qed.

Lemma psafe_blocked {A} n (R : A → nsqd → Prop) : daemon_ok n → psafe blocked n R.
Proof. intros. exists (Err Blocked), n. split_and!; [done|done|apply later_refl|done]. Qed.

Lemma psafe_bind {A A'} (m : CM A) (f : A → CM A') n R1 R :
  psafe m n R1 → (∀ a n', daemon_ok n' → later n n' → R1 a n' → psafe (f a) n' R) → psafe (m ≫= f) n R.
Proof.
  intros ([a|e] & n1 & E & K1 & L1 & HR) Hf.
  - destruct (Hf a n1 K1 L1 HR) as (b & n2 & E2 & K2 & L2 & HR2).
    exists b, n2. split_and!; [|done|by eapply later_trans|done]. unfold mbind, PM_bind. by rewrite E.
  - exists (Err e), n1. split_and!; [|done|done|done]. unfold mbind, PM_bind. by rewrite E.
Qed.

Lemma psafe_weaken {A} (m : CM A) n (R R' : A → nsqd → Prop) :
  psafe m n R → (∀ a n', daemon_ok n' → later n n' → R a n' → R' a n') → psafe m n R'.
Proof. intros Hm Hw. eapply safe_weaken; [exact Hm|]. intros [a|e] n' K L HR; [by apply Hw|done]. Qed.

Lemma psafe_lift {A} (m : NM A) n R : safe m n R → psafe (lift m) n R.
Proof.
  intros (a & n1 & E & K1 & L1 & HR). exists (Ok a), n1. split_and!; [|done..]. unfold lift. by rewrite E.
Qed.

Lemma psafe_throwIf b e n : daemon_ok n → psafe (throwIf b e) n (λ _ n', n' = n ∧ b = false).
Proof. intros Hn. destruct b; [by apply psafe_fail|by apply psafe_ret]. Qed.

Lemma psafe_on_error {A} err e (k : CM A) n R : daemon_ok n → psafe k n R → psafe (on_error err e k) n R.
Proof. intros Hn Hk. destruct err; [by apply psafe_fail|done]. Qed.

(** ** The client of the connection *)

Definition known (id : Z) n : Prop := is_Some (n.(n_heap).(consumers) !! id).

Lemma known_later id n n' : later n n' → known id n → known id n'.
Proof. intros L. apply (lt_clients _ _ L). Qed.

(** Its protocol state is as it was. *)
Definition stays (id : Z) n n' : Prop :=
  ∀ c', n'.(n_heap).(consumers) !! id = Some c' → ∃ c, n.(n_heap).(consumers) !! id = Some c ∧ c'.(Client.State) = c.(Client.State).

Lemma stays_refl id n : stays id n n.
Proof. intros c' Hc. by exists c'. Qed.

Lemma stays_trans id n1 n2 n3 : stays id n1 n2 → stays id n2 n3 → stays id n1 n3.
Proof. intros S1 S2 c3 (c2 & (c1 & ? & ?)%S1 & ?)%S2. exists c1. split; [done|congruence]. Qed.

Lemma called_State (c c' : client) : called c c' → c'.(Client.State) = c.(Client.State).
Proof. by induction 1. Qed.

Lemma quiet_stays id n n' : quiet n n' → stays id n n'.
Proof. intros [Hk _] c' Hc. destruct (kept_client _ _ _ _ Hk Hc) as (c & ? & ?%called_State). by exists c. Qed.

Lemma safe_upd_client id f n : daemon_ok n → known id n →
  (∀ c, n.(n_heap).(consumers) !! id = Some c → client_ok opts compiles (chan_in n) c → client_ok opts compiles (chan_in n) (f c)) →
  safe (upd_client id f) n (λ _ n', ∃ c, n.(n_heap).(consumers) !! id = Some c ∧ n' = with_client n id (f c)).
Proof.
  intros Hn Hk Hf. eapply safe_bind; [by apply safe_get_client|]. intros c n' _ _ (-> & Hc & Hok).
  eapply safe_weaken; [apply safe_put_client; [done|by apply Hf]|]. intros [] n' _ _ ->. by exists c.
Qed.

(** A method that leaves the protocol's state alone. *)
Lemma safe_run_client id (f : client → client * option string) n : daemon_ok n → known id n →
  (∀ c, same_client opts compiles c (f c).1) →
  safe (run_client id f) n (λ _ n', stays id n n' ∧ ∀ x m, loose n x m → loose n' x m).
Proof.
  intros Hn Hk Hf. eapply safe_bind; [by apply safe_get_client|]. intros c n' _ _ (-> & Hc & Hok).
  specialize (Hf c). destruct (f c) as [c' err]. cbn in Hf.
  eapply safe_bind; [apply safe_put_client; [done|by eapply same_client_ok]|]. intros [] n' K L ->.
  apply safe_ret; [done|]. split; [|intros x m; apply loose_with_client].
  intros c2. cbn. rewrite lookup_insert_eq. intros [= <-]. exists c. split; [done|]. apply Hf.
Qed.

Lemma safe_put_same id c c' n : daemon_ok n → n.(n_heap).(consumers) !! id = Some c → same_client opts compiles c c' →
  safe (put_client id c') n (λ _ n', stays id n n' ∧ ∀ x m, loose n x m → loose n' x m).
Proof.
  intros Hn Hc Hs. eapply safe_weaken.
  - apply safe_put_client; [done|]. eapply same_client_ok; [exact Hs|]. by apply (dm_client _ _ _ Hn id).
  - intros [] n' _ _ ->. split; [|intros x m; apply loose_with_client].
    intros c2. cbn. rewrite lookup_insert_eq. intros [= <-]. exists c. split; [done|]. apply Hs.
Qed.

(** ** Reading and writing *)

Definition io_post (id : Z) n n' : Prop := stays id n n' ∧ ∀ x m, loose n x m → loose n' x m.

Lemma safe_ReadFull id k n : daemon_ok n → known id n →
  safe (ReadFull id k) n (λ r n', io_post id n n' ∧ match r with Some b => length b = k | None => True end).
Proof.
  intros Hn Hk. unfold ReadFull. eapply safe_bind; [by apply safe_get_client|]. intros c n' _ _ (-> & Hc & _).
  case_bool_decide as Hlen.
  - eapply safe_bind; [apply (safe_put_same id c _ n Hn Hc); apply same_cl_in|]. intros [] n' K _ P. by apply safe_ret.
  - eapply safe_bind; [apply (safe_put_same id c _ n Hn Hc); apply same_cl_in|]. intros [] n' K _ P. apply safe_ret; [done|].
    split; [done|]. rewrite length_take. lia.
Qed.

Lemma same_send_frame ft data c : same_client opts compiles c (send_frame ft data c).1.
Proof.
  unfold send_frame. destruct (SendFramedResponse _ ft data) as [w [k [e|]]]; [apply same_cl_out|].
  destruct (ft =? frameTypeMessage); [apply same_cl_out|]. eapply same_client_trans; [apply same_cl_out|apply same_Flush].
Qed.

Lemma safe_Send id ft data n : daemon_ok n → known id n → safe (Send id ft data) n (λ _ n', io_post id n n').
Proof. intros. apply safe_run_client; [done..|]. apply same_send_frame. Qed.

Notation reader := (Protocol.reader (W:=W) (D:=D) (Q:=Q) (B:=B) (MB:=MB)).

(** A reader moves nothing but [io] allows, where [P] holds. *)
Definition reader_safe {R} (P : nsqd → Prop) (io : nsqd → nsqd → Prop) (rd : reader R) : Prop :=
  ∀ k r n, daemon_ok n → P n → safe (rd k r) n (λ p n', io n n' ∧ match p.1 with Some b => length b = k | None => True end).

Lemma client_reader_safe id : reader_safe (known id) (io_post id) (client_reader id).
Proof.
  intros k [] n Hn Hk. eapply safe_bind; [by apply safe_ReadFull|]. intros b n' K _ [P Hb]. by apply safe_ret.
Qed.

Lemma body_reader_safe : reader_safe (λ _, True) (λ n n', n' = n) body_reader.
Proof.
  intros k r n Hn _. apply safe_ret; [done|]. split; [done|]. case_bool_decide as Hk; cbn; [done|].
  rewrite length_take. by apply Nat.min_l, Nat.nlt_ge.
Qed.

Section reading.
Context {R : Type} (P : nsqd → Prop) (io : nsqd → nsqd → Prop) (rd : reader R).
Hypothesis rd_safe : reader_safe P io rd.

Lemma psafe_len_from r code desc n : daemon_ok n → P n →
  psafe (len_from rd r code desc) n (λ p n', io n n' ∧ in_i32 p.1).
Proof.
  intros Hn Hk. unfold len_from.
  eapply (psafe_bind _ _ _ (λ p n', io n n' ∧ match p.1 with Some z => in_i32 z | None => True end)).
  - eapply psafe_lift, safe_bind; [by apply rd_safe|]. intros [b r'] n' K _ [Hio _]. apply safe_ret; [done|].
    split; [done|]. destruct b; cbn; [apply i32_range|done].
  - intros [[z|] r'] n' K _ [Hio Hz]; [by apply psafe_ret|by apply psafe_fail].
Qed.

Lemma psafe_body_from r z code desc n : daemon_ok n → P n → 0 <= z →
  psafe (body_from rd r z code desc) n (λ p n', io n n' ∧ Z.of_nat (length p.1) = z).
Proof.
  intros Hn Hk Hz. unfold body_from. destruct (z <? 0) eqn:E; [bool_to_prop; lia|].
  eapply psafe_bind; [by apply psafe_lift, rd_safe|]. intros [[b|] r'] n' K _ [Hio Hlen].
  - apply psafe_ret; [done|]. split; [done|]. cbn in *. lia.
  - by apply psafe_fail.
Qed.
End reading.

Lemma psafe_need_len id code desc n : daemon_ok n → known id n →
  psafe (need_len id code desc) n (λ z n', io_post id n n' ∧ in_i32 z).
Proof.
  intros Hn Hk. eapply psafe_bind; [by apply (psafe_len_from _ _ _ (client_reader_safe id))|].
  intros [z r] n' K _ Hp. by apply psafe_ret.
Qed.

Lemma psafe_need_body id z code desc n : daemon_ok n → known id n → 0 <= z →
  psafe (need_body id z code desc) n (λ b n', io_post id n n' ∧ Z.of_nat (length b) = z).
Proof.
  intros Hn Hk Hz. eapply psafe_bind; [by apply (psafe_body_from _ _ _ (client_reader_safe id))|].
  intros [b r] n' K _ Hp. by apply psafe_ret.
Qed.

(** ** Commands *)

Notation ok_after id n := (λ _ n', io_post id n n').

Lemma io_post_refl id n : io_post id n n.
Proof. split; [apply stays_refl|done]. Qed.

Lemma io_post_trans id n1 n2 n3 : io_post id n1 n2 → io_post id n2 n3 → io_post id n1 n3.
Proof. intros [S1 L1] [S2 L2]. split; [by eapply stays_trans|auto]. Qed.

Lemma psafe_get_client id n : daemon_ok n → known id n →
  psafe (lift (get_client id)) n (λ c n', n' = n ∧ n.(n_heap).(consumers) !! id = Some c ∧ client_ok opts compiles (chan_in n) c).
Proof. intros. by apply psafe_lift, safe_get_client. Qed.

Lemma psafe_enforceTLSPolicy c cmd n : daemon_ok n → psafe (enforceTLSPolicy opts c cmd) n (λ _ n', n' = n).
Proof. intros Hn. eapply psafe_weaken; [by apply psafe_throwIf|]. by intros [] n' _ _ [-> _]. Qed.

Lemma psafe_CheckAuth now id cmd topic channel n : daemon_ok n → known id n →
  psafe (CheckAuth opts compiles match_string GETV1 commonName Quote now id cmd topic channel) n (ok_after id n).
Proof.
  intros Hn Hk. unfold CheckAuth. destruct (negb (IsAuthEnabled opts)); [apply psafe_ret; [done|apply io_post_refl]|].
  eapply psafe_bind; [by apply psafe_get_client|]. intros c n' _ _ (-> & Hc & Hok).
  eapply psafe_bind; [by apply psafe_throwIf|]. intros [] n' _ _ [-> _].
  destruct (IsAuthorized_ok opts compiles match_string GETV1 commonName _ now topic channel c Hok) as (c' & r & -> & Hs).
  eapply psafe_bind; [by apply psafe_lift, (safe_put_same id c c')|]. intros [] n1 K1 L1 P1.
  destruct r as [b|e]; [|by apply psafe_fail].
  eapply psafe_weaken; [by apply psafe_throwIf|]. by intros [] n2 _ _ [-> _].
Qed.

Lemma psafe_upgrade_and_confirm id f n : daemon_ok n → known id n → (∀ c, same_client opts compiles c (f c).1) →
  psafe (upgrade_and_confirm id f) n (λ _ _, True).
Proof.
  intros Hn Hk Hf. eapply psafe_bind; [by apply psafe_lift, safe_run_client|]. intros err n1 K1 L1 _.
  apply psafe_on_error; [done|]. eapply psafe_bind; [apply psafe_lift, safe_Send; [done|by eapply known_later]|].
  intros err2 n2 K2 _ _. apply psafe_on_error; [done|]. by apply psafe_ret.
Qed.

Lemma psafe_IDENTIFY id n : daemon_ok n → known id n →
  psafe (IDENTIFY opts unmarshal_identify marshal_identify tlsConfig id) n (λ _ _, True).
Proof.
  intros Hn Hk. unfold IDENTIFY.
  eapply psafe_bind; [by apply psafe_get_client|]. intros c n' _ _ (-> & Hc & Hok).
  eapply psafe_bind; [by apply psafe_throwIf|]. intros [] n' _ _ [-> _].
  eapply psafe_bind; [by apply psafe_need_len|]. intros z n1 K1 L1 _.
  assert (Hk1 : known id n1) by by eapply known_later.
  eapply psafe_bind; [by apply psafe_throwIf|]. intros [] n' _ _ [-> _].
  eapply psafe_bind; [by apply psafe_throwIf|]. intros [] n' _ _ [-> Hz]. bool_to_prop.
  eapply psafe_bind; [apply psafe_need_body; [done|done|lia]|]. intros body n2 K2 L2 _.
  assert (Hk2 : known id n2) by by eapply known_later.
  destruct (unmarshal_identify body) as [d|]; [|by apply psafe_fail].
  eapply psafe_bind; [apply psafe_lift, safe_run_client; [done|done|intros; apply same_Identify, oo]|].
  intros err n3 K3 L3 _. apply psafe_on_error; [done|].
  assert (Hk3 : known id n3) by by eapply known_later.
  destruct (negb _); [by apply psafe_ret|]. destruct (negotiate opts tlsConfig d) as [[[tlsv1 deflate] level] snappy].
  eapply psafe_bind; [by apply psafe_throwIf|]. intros [] n' _ _ [-> _].
  eapply psafe_bind; [by apply psafe_get_client|]. intros c3 n' _ _ (-> & _ & _).
  destruct (marshal_identify _) as [resp|e]; [|by apply psafe_fail].
  eapply psafe_bind; [by apply psafe_lift, safe_Send|]. intros err4 n4 K4 L4 _. apply psafe_on_error; [done|].
  assert (Hk4 : known id n4) by by eapply known_later.
  assert (Hup : ∀ (b : bool) f nx, daemon_ok nx → known id nx → (∀ c, same_client opts compiles c (f c).1) →
    psafe (if b then upgrade_and_confirm id f else mret ()) nx (λ _ _, True)).
  { intros b f nx Kx Hx Hf. destruct b; [by apply psafe_upgrade_and_confirm|by apply psafe_ret]. }
  eapply psafe_bind; [apply Hup; [done|done|apply same_UpgradeTLS]|]. intros [] n5 K5 L5 _.
  assert (Hk5 : known id n5) by by eapply known_later.
  eapply psafe_bind; [apply Hup; [done|done|apply same_UpgradeSnappy]|]. intros [] n6 K6 L6 _.
  eapply psafe_bind; [apply Hup; [done|by eapply known_later|apply same_UpgradeDeflate]|]. intros [] n7 K7 _ _.
  by apply psafe_ret.
Qed.

Lemma psafe_AUTH now id params n : daemon_ok n → known id n →
  psafe (AUTH opts compiles GETV1 commonName marshal_auth now id params) n (λ _ _, True).
Proof.
  intros Hn Hk. unfold AUTH.
  eapply psafe_bind; [by apply psafe_get_client|]. intros c n' _ _ (-> & Hc & Hok).
  do 2 (eapply psafe_bind; [by apply psafe_throwIf|]; intros [] n' _ _ [-> _]).
  eapply psafe_bind; [by apply psafe_need_len|]. intros z n1 K1 L1 _.
  assert (Hk1 : known id n1) by by eapply known_later.
  eapply psafe_bind; [by apply psafe_throwIf|]. intros [] n' _ _ [-> _].
  eapply psafe_bind; [by apply psafe_throwIf|]. intros [] n' _ _ [-> Hz]. bool_to_prop.
  eapply psafe_bind; [apply psafe_need_body; [done|done|lia]|]. intros body n2 K2 L2 _.
  assert (Hk2 : known id n2) by by eapply known_later.
  eapply psafe_bind; [by apply psafe_get_client|]. intros c2 n' _ _ (-> & _ & _).
  do 2 (eapply psafe_bind; [by apply psafe_throwIf|]; intros [] n' _ _ [-> _]).
  eapply psafe_bind; [apply psafe_lift, safe_run_client; [done|done|intros; apply same_Auth]|].
  intros err n3 K3 L3 _. apply psafe_on_error; [done|].
  assert (Hk3 : known id n3) by by eapply known_later.
  eapply psafe_bind; [by apply psafe_get_client|]. intros c3 n' _ _ (-> & _ & _).
  eapply psafe_bind; [by apply psafe_throwIf|]. intros [] n' _ _ [-> Ha]. bool_to_prop.
  unfold Client.HasAuthorizations in Ha. destruct (Client.AuthState c3) as [s|] eqn:Es; [|done].
  eapply psafe_bind; [by apply psafe_lift, (safe_lift _ _ _ s n3 (λ _ n', n' = n3))|]. intros s' n' _ _ ->.
  destruct (marshal_auth _) as [resp|e]; [|by apply psafe_fail].
  eapply psafe_bind; [by apply psafe_lift, safe_Send|]. intros err4 n4 K4 L4 _. apply psafe_on_error; [done|].
  by apply psafe_ret.
Qed.

(** A method of the channel, seen as an operation. *)
Lemma safe_channel_method {A} (m : ST (heap client * Channel D Q) A) o l n :
  (∀ s, exec copts range o s = (_ ← m; mret ()) s) → op_ok o →
  (∀ h0 c X Y, (∀ x, (h0.(next) <= x)%nat → X x) → (∀ x, (h0.(next) <= x)%nat → Y x) → fp X Y h0 m (h0, c) any) →
  daemon_ok n → chan_in n l → safe (on_channel l m) n (λ _ n', quiet n n').
Proof.
  intros He Ho Hfp Hn Hl. eapply safe_weaken; [apply (safe_on_channel opts compiles l m n (λ _ _, True) Hn Hl)|by intros a n' _ _ [? _]].
  - intros c Hok. destruct (exec_ok copts range range_perm recv_small _ o Hok Ho) as (s' & E & Hok').
    rewrite He in E. apply ST_bind_inv in E as (a & s1 & E & [= <-]). by exists a, s1.
  - intros c X Y HX HY. by apply Hfp.
Qed.

Lemma safe_AddClient id l n : daemon_ok n → chan_in n l → safe (on_channel l (Channel.AddClient copts id)) n (λ _ n', quiet n n').
Proof. apply (safe_channel_method _ (OpAddClient id)); [done|done|]. intros. by apply fp_AddClient. Qed.

Lemma safe_FinishMessage id mid l n : daemon_ok n → chan_in n l → safe (on_channel l (Channel.FinishMessage id mid)) n (λ _ n', quiet n n').
Proof. apply (safe_channel_method _ (OpFinish id mid)); [done|done|]. intros. by apply fp_FinishMessage. Qed.

Lemma safe_RequeueMessage now id mid t l n : daemon_ok n → chan_in n l →
  safe (on_channel l (Channel.RequeueMessage copts now id mid t)) n (λ _ n', quiet n n').
Proof. apply (safe_channel_method _ (OpRequeue now id mid t)); [done|done|]. intros. by apply fp_RequeueMessage. Qed.

Lemma safe_TouchMessage now id mid t l n : daemon_ok n → chan_in n l →
  safe (on_channel l (Channel.TouchMessage copts now id mid t)) n (λ _ n', quiet n n').
Proof. apply (safe_channel_method _ (OpTouch now id mid t)); [done|done|]. intros. by apply fp_TouchMessage. Qed.

Lemma safe_RemoveClient id l n : daemon_ok n → chan_in n l → safe (on_channel l (Channel.RemoveClient id)) n (λ _ n', quiet n n').
Proof. intros. by apply (safe_channel_exec opts compiles range range_perm recv_small (OpRemoveClient id)). Qed.

Lemma safe_going_away tl cl n : daemon_ok n → topic_in n tl → chan_in n cl → safe (going_away tl cl) n (λ _ n', n' = n).
Proof.
  intros Hn [t Ht] [c Hc]. exists (c.(Channel.ephemeral) && c.(Channel.exitFlag) || t.(Topic.t_ephemeral) && t.(Topic.t_exitFlag)), n.
  split_and!; [|done|apply later_refl|done]. unfold going_away. callST ltac:(reflexivity).
  unfold mbind, ST_bind, liftST. rewrite Ht. cbn. by rewrite Hc.
Qed.

Notation the_sub_loop := (sub_loop opts range channel_queue topic_queue memory_queue e2e lookupdHTTPAddrs GetLookupdTopicChannels).

Lemma psafe_sub_loop fuel id topicName channelName n : daemon_ok n →
  psafe (the_sub_loop fuel id topicName channelName) n (λ cl n', quiet n n' ∧ chan_in n' cl).
Proof.
  revert n. induction fuel as [|fuel IH]; intros n Hn; cbn [sub_loop]; [by apply psafe_blocked|].
  eapply psafe_bind; [apply psafe_lift, safe_GetTopic; done|]. intros tl n1 K1 _ [Q1 Ht].
  eapply psafe_bind; [apply psafe_lift, safe_GetChannel; done|]. intros cl n2 K2 L2 [Q2 Hc].
  eapply psafe_bind; [by apply psafe_lift, safe_AddClient|]. intros err n3 K3 L3 Q3. apply psafe_on_error; [done|].
  assert (Hc3 : chan_in n3 cl) by by apply (lt_chans _ _ L3).
  assert (Q13 : quiet n n3) by (by eapply quiet_trans, quiet_trans).
  eapply psafe_bind; [apply psafe_lift, safe_going_away; [done|by apply (lt_topics _ _ L3), (lt_topics _ _ L2)|done]|].
  intros [] n' _ _ ->; [|by apply psafe_ret].
  eapply psafe_bind; [by apply psafe_lift, safe_RemoveClient|]. intros [] n4 K4 _ Q4.
  eapply psafe_weaken; [by apply IH|]. intros cl' n5 _ _ [Q5 Hc5]. split; [|done].
  repeat (eapply quiet_trans; [eassumption|]). apply quiet_refl.
Qed.

Notation the_SUB := (SUB opts range channel_queue topic_queue memory_queue e2e lookupdHTTPAddrs GetLookupdTopicChannels
  compiles match_string GETV1 commonName Quote).

Lemma psafe_SUB now attempts id params n : daemon_ok n → known id n →
  psafe (the_SUB now attempts id params) n (λ _ _, True).
Proof.
  intros Hn Hk. unfold SUB.
  eapply psafe_bind; [by apply psafe_get_client|]. intros c n' _ _ (-> & Hc & Hok).
  eapply psafe_bind; [by apply psafe_throwIf|]. intros [] n' _ _ [-> Hst]. bool_to_prop.
  eapply psafe_bind; [by apply psafe_throwIf|]. intros [] n' _ _ [-> _].
  destruct params as [|p0 [|topicName [|channelName ps]]]; try by apply psafe_fail.
  do 2 (eapply psafe_bind; [by apply psafe_throwIf|]; intros [] n' _ _ [-> _]).
  eapply psafe_bind; [by apply psafe_CheckAuth|]. intros [] n1 K1 L1 [S1 _].
  eapply psafe_bind; [by apply psafe_sub_loop|]. intros cl n2 K2 L2 [Q2 Hcl].
  assert (Hk2 : known id n2) by by eapply known_later, known_later.
  assert (Hst2 : ∀ c2, n2.(n_heap).(consumers) !! id = Some c2 → c2.(Client.State) = Client.stateInit).
  { intros c2 Hc2. destruct (quiet_stays id _ _ Q2 c2 Hc2) as (c1 & Hc1 & ->). destruct (S1 c1 Hc1) as (c0 & Hc0 & ->).
    rewrite Hc in Hc0. by injection Hc0 as <-. }
  assert (Hsub : ∀ c2, n2.(n_heap).(consumers) !! id = Some c2 → client_ok opts compiles (chan_in n2) c2 →
    Client.SubEventChan c2 = None ∧
    client_ok opts compiles (chan_in n2) (Client.set_c_Channel (Some cl) (Client.set_State Client.stateSubscribed c2)) ∧
    client_ok opts compiles (chan_in n2) (Client.set_SubEventChan (Some cl) (Client.set_c_Channel (Some cl) (Client.set_State Client.stateSubscribed c2)))).
  { intros c2 Hc2 Hok2. apply client_ok_subscribe; [done|by apply Hst2|done|apply oo]. }
  eapply psafe_bind; [apply psafe_lift, safe_upd_client; [done|done|]|].
  { intros c2 Hc2 Hok2. by apply Hsub. }
  intros [] n3 K3 L3 (c2 & Hc2 & ->). pose proof (dm_client _ _ _ K2 id c2 Hc2) as Hok2.
  destruct (Hsub c2 Hc2 Hok2) as (Hnone & _ & Hok3).
  eapply psafe_bind; [apply psafe_get_client; [done|by eapply known_later]|]. intros c3 n' _ _ (-> & Hc3 & _).
  cbn in Hc3. rewrite lookup_insert_eq in Hc3. injection Hc3 as <-. cbn. rewrite Hnone.
  eapply psafe_bind; [apply psafe_lift, safe_upd_client; [done|by eapply known_later|]|].
  { intros c3. cbn. rewrite lookup_insert_eq. intros [= <-] _. exact Hok3. }
  intros [] n4 K4 _ _. by apply psafe_ret.
Qed.

Lemma psafe_RDY id params n : daemon_ok n → known id n → psafe (RDY opts id params) n (λ _ _, True).
Proof.
  intros Hn Hk. unfold RDY.
  eapply psafe_bind; [by apply psafe_get_client|]. intros c n' _ _ (-> & Hc & Hok).
  destruct (_ =? _); [by apply psafe_ret|].
  eapply psafe_bind; [by apply psafe_throwIf|]. intros [] n' _ _ [-> Hst]. bool_to_prop.
  eapply (psafe_bind _ _ _ (λ _ n', n' = n)).
  { destruct params as [|p0 [|p ps]]; [by apply psafe_ret..|]. destruct (Decimal.ByteToBase10 p); [by apply psafe_ret|by apply psafe_fail]. }
  intros count n' _ _ ->.
  eapply psafe_bind; [by apply psafe_throwIf|]. intros [] n' _ _ [-> Hr]. bool_to_prop.
  eapply psafe_bind; [apply psafe_lift, safe_upd_client; [done|done|]|].
  { intros c2 Hc2 Hok2. rewrite Hc in Hc2. injection Hc2 as <-. by apply client_ok_SetReadyCount. }
  intros [] n2 K2 _ _. by apply psafe_ret.
Qed.

Lemma psafe_CLS id n : daemon_ok n → known id n → psafe (CLS id) n (λ _ _, True).
Proof.
  intros Hn Hk. unfold CLS.
  eapply psafe_bind; [by apply psafe_get_client|]. intros c n' _ _ (-> & Hc & Hok).
  eapply psafe_bind; [by apply psafe_throwIf|]. intros [] n' _ _ [-> Hst]. bool_to_prop.
  eapply psafe_bind; [apply psafe_lift, safe_upd_client; [done|done|]|].
  { intros c2 Hc2 Hok2. rewrite Hc in Hc2. injection Hc2 as <-. by apply client_ok_StartClose. }
  intros [] n2 K2 _ _. by apply psafe_ret.
Qed.

(** A client that subscribed has a channel. *)
Lemma subscribed_channel n (c : client) : subscribed c = true → client_ok opts compiles (chan_in n) c →
  ∃ cl, c.(Client.c_Channel) = Some cl ∧ chan_in n cl.
Proof.
  unfold subscribed. intros Hs [_ [(Hst & _)|(_ & l & ? & ?)] _ _ _]; [|by exists l]. rewrite Hst in Hs. discriminate.
Qed.

Lemma psafe_need_id p n : daemon_ok n → psafe (need_id p) n (λ _ n', n' = n).
Proof. intros Hn. unfold need_id. destruct (getMessageID p); [by apply psafe_ret|by apply psafe_fail]. Qed.

(** FIN, REQ and TOUCH: an operation on the client's channel, then perhaps a
    count. *)
Lemma psafe_on_subscribed id cl (m : ST (heap client * Channel D Q) (option string)) e (f : client → client) n :
  daemon_ok n → known id n → chan_in n cl → safe (on_channel cl m) n (λ _ n', quiet n n') →
  (∀ P c, client_ok opts compiles P c → client_ok opts compiles P (f c)) →
  psafe (err ← lift (on_channel cl m); on_error err e (_ ← lift (upd_client id f); mret (@None bytes))) n (λ _ _, True).
Proof.
  intros Hn Hk Hcl Hm Hf. eapply psafe_bind; [by apply psafe_lift|]. intros err n1 K1 L1 _. apply psafe_on_error; [done|].
  eapply psafe_bind; [apply psafe_lift, safe_upd_client; [done|by eapply known_later|by intros; apply Hf]|].
  intros [] n2 K2 _ _. by apply psafe_ret.
Qed.

Lemma psafe_FIN id params n : daemon_ok n → known id n → psafe (FIN id params) n (λ _ _, True).
Proof.
  intros Hn Hk. unfold FIN.
  eapply psafe_bind; [by apply psafe_get_client|]. intros c n' _ _ (-> & Hc & Hok).
  eapply psafe_bind; [by apply psafe_throwIf|]. intros [] n' _ _ [-> Hst]. bool_to_prop.
  destruct params as [|p0 [|p ps]]; [by apply psafe_fail..|].
  eapply psafe_bind; [by apply psafe_need_id|]. intros mid n' _ _ ->.
  destruct (subscribed_channel n c Hst Hok) as (cl & Ecl & Hcl).
  eapply psafe_bind; [by apply psafe_lift, (safe_lift _ _ _ cl n (λ a n', a = cl ∧ n' = n))|]. intros cl' n' _ _ [-> ->].
  apply psafe_on_subscribed; [done|done|done|by apply safe_FinishMessage|intros; by apply client_ok_FinishedMessage].
Qed.

Lemma psafe_REQ now id params n : daemon_ok n → known id n → psafe (REQ opts now id params) n (λ _ _, True).
Proof.
  intros Hn Hk. unfold REQ.
  eapply psafe_bind; [by apply psafe_get_client|]. intros c n' _ _ (-> & Hc & Hok).
  eapply psafe_bind; [by apply psafe_throwIf|]. intros [] n' _ _ [-> Hst]. bool_to_prop.
  destruct params as [|p0 [|p [|ms ps]]]; [by apply psafe_fail..|].
  eapply psafe_bind; [by apply psafe_need_id|]. intros mid n' _ _ ->.
  destruct (Decimal.ByteToBase10 ms) as [t|e]; [|by apply psafe_fail].
  destruct (subscribed_channel n c Hst Hok) as (cl & Ecl & Hcl).
  eapply psafe_bind; [by apply psafe_lift, (safe_lift _ _ _ cl n (λ a n', a = cl ∧ n' = n))|]. intros cl' n' _ _ [-> ->].
  apply psafe_on_subscribed; [done|done|done|by apply safe_RequeueMessage|intros; by apply client_ok_RequeuedMessage].
Qed.

Lemma psafe_TOUCH now id params n : daemon_ok n → known id n → psafe (TOUCH opts now id params) n (λ _ _, True).
Proof.
  intros Hn Hk. unfold TOUCH.
  eapply psafe_bind; [by apply psafe_get_client|]. intros c n' _ _ (-> & Hc & Hok).
  eapply psafe_bind; [by apply psafe_throwIf|]. intros [] n' _ _ [-> Hst]. bool_to_prop.
  destruct params as [|p0 [|p ps]]; [by apply psafe_fail..|].
  eapply psafe_bind; [by apply psafe_need_id|]. intros mid n' _ _ ->.
  destruct (subscribed_channel n c Hst Hok) as (cl & Ecl & Hcl).
  eapply psafe_bind; [by apply psafe_lift, (safe_lift _ _ _ cl n (λ a n', a = cl ∧ n' = n))|]. intros cl' n' _ _ [-> ->].
  eapply psafe_bind; [by apply psafe_lift, safe_TouchMessage|]. intros err n1 K1 _ _. apply psafe_on_error; [done|]. by apply psafe_ret.
Qed.

(** ** Publishing *)

(** The new message is loose, and so are those made before. *)
Definition made n n' (x : loc) : Prop :=
  (∃ m, loose n' x m) ∧ ∀ y v, loose n y v → loose n' y v ∧ y ≠ x.

Lemma psafe_new_message now nows tl body d n : daemon_ok n → topic_in n tl → Z.of_nat (length body) <= opts.(Opts.MaxMsgSize) →
  psafe (new_message now nows tl body d) n (λ x n', quiet n n' ∧ made n n' x).
Proof.
  intros Hn Ht Hb. unfold new_message.
  eapply psafe_bind; [by apply psafe_lift, safe_GenerateID|]. intros [mid|] n1 K1 L1 (Q1 & Hl1 & Hlen); [|by apply psafe_blocked].
  eapply psafe_weaken.
  - apply psafe_lift, safe_t_new_msg; [done|by apply (lt_topics _ _ L1)|apply (small_new opts); [exact oo|exact Hlen|exact Hb]].
  - intros x n2 _ _ (Q2 & Hx & Hkeep). split; [by eapply quiet_trans|]. split; [by eexists|].
    intros y v Hy. by apply Hkeep, Hl1.
Qed.

Notation get_topic := (GetTopic opts range channel_queue topic_queue memory_queue e2e lookupdHTTPAddrs GetLookupdTopicChannels).
Notation the_publish := (publish opts range channel_queue topic_queue memory_queue e2e lookupdHTTPAddrs GetLookupdTopicChannels
  compiles match_string GETV1 commonName Quote).

Lemma psafe_publish now nows id topicName body d cmd code n : daemon_ok n → known id n →
  Z.of_nat (length body) <= opts.(Opts.MaxMsgSize) →
  psafe (the_publish now nows id topicName body d cmd code) n (λ _ _, True).
Proof.
  intros Hn Hk Hb. unfold publish.
  eapply psafe_bind; [by apply psafe_CheckAuth|]. intros [] n1 K1 L1 _.
  eapply psafe_bind; [apply psafe_lift, safe_GetTopic; done|]. intros tl n2 K2 L2 [_ Ht].
  eapply psafe_bind; [by apply psafe_new_message|]. intros x n3 K3 L3 (_ & (m & Hm) & _).
  eapply psafe_bind; [eapply psafe_lift, safe_t_PutMessage; [done|by apply (lt_topics _ _ L3)|done]|]. intros err n4 K4 L4 _.
  apply psafe_on_error; [done|]. eapply psafe_bind; [apply psafe_lift, safe_upd_client; [done| |]|].
  - by repeat (eapply known_later; [eassumption|]).
  - intros c _ Hok. eapply same_client_ok; [apply same_PublishedMessage|done].
  - intros [] n5 K5 _ _. by apply psafe_ret.
Qed.

Lemma psafe_read_message id cmd n : daemon_ok n → known id n →
  psafe (read_message opts id cmd) n (λ body _, Z.of_nat (length body) <= opts.(Opts.MaxMsgSize)).
Proof.
  intros Hn Hk. unfold read_message.
  eapply psafe_bind; [by apply psafe_need_len|]. intros z n1 K1 L1 _.
  eapply psafe_bind; [by apply psafe_throwIf|]. intros [] n' _ _ [-> Hz]. bool_to_prop.
  eapply psafe_bind; [by apply psafe_throwIf|]. intros [] n' _ _ [-> Hz2]. bool_to_prop.
  eapply psafe_weaken; [apply psafe_need_body; [done|by eapply known_later|lia]|]. intros body n2 _ _ [_ Hlen]. lia.
Qed.

Notation the_PUB := (PUB opts range channel_queue topic_queue memory_queue e2e lookupdHTTPAddrs GetLookupdTopicChannels
  compiles match_string GETV1 commonName Quote).
Notation the_DPUB := (DPUB opts range channel_queue topic_queue memory_queue e2e lookupdHTTPAddrs GetLookupdTopicChannels
  compiles match_string GETV1 commonName Quote).
Notation the_MPUB := (MPUB opts range channel_queue topic_queue memory_queue e2e lookupdHTTPAddrs GetLookupdTopicChannels
  compiles match_string GETV1 commonName Quote).

Lemma psafe_PUB now nows id params n : daemon_ok n → known id n → psafe (the_PUB now nows id params) n (λ _ _, True).
Proof.
  intros Hn Hk. unfold PUB. destruct params as [|p0 [|topicName ps]]; [by apply psafe_fail..|].
  eapply psafe_bind; [by apply psafe_throwIf|]. intros [] n' _ _ [-> _].
  eapply psafe_bind; [by apply psafe_read_message|]. intros body n1 K1 L1 Hb.
  apply psafe_publish; [done|by eapply known_later|done].
Qed.

Lemma psafe_DPUB now nows id params n : daemon_ok n → known id n → psafe (the_DPUB now nows id params) n (λ _ _, True).
Proof.
  intros Hn Hk. unfold DPUB. destruct params as [|p0 [|topicName [|ms ps]]]; [by apply psafe_fail..|].
  eapply psafe_bind; [by apply psafe_throwIf|]. intros [] n' _ _ [-> _].
  destruct (Decimal.ByteToBase10 ms) as [t|e]; [|by apply psafe_fail].
  eapply psafe_bind; [by apply psafe_throwIf|]. intros [] n' _ _ [-> _].
  eapply psafe_bind; [by apply psafe_read_message|]. intros body n1 K1 L1 Hb.
  apply psafe_publish; [done|by eapply known_later|done].
Qed.

(** What [readMPUB] makes is new, and nobody holds it yet. *)
Definition loose_batch n n' (xs : list loc) : Prop :=
  (∃ ms, Forall2 (loose n') xs ms) ∧ NoDup xs ∧ ∀ y v, loose n y v → loose n' y v ∧ y ∉ xs.

Section batch.
Context {R : Type} (P : nsqd → Prop) (io : nsqd → nsqd → Prop) (rd : reader R).
Hypothesis rd_safe : reader_safe P io rd.
Hypothesis P_later : ∀ n n', later n n' → P n → P n'.
Hypothesis io_loose : ∀ n n' x m, io n n' → loose n x m → loose n' x m.

Lemma psafe_read_messages clock nows tl k : ∀ i r n, daemon_ok n → P n → topic_in n tl →
  psafe (read_messages opts rd clock nows tl k i r) n (λ xs n', loose_batch n n' xs).
Proof.
  induction k as [|k IH]; intros i r n Hn Hk Ht; cbn [read_messages].
  { apply psafe_ret; [done|]. split_and!; [exists []; constructor|constructor|]. intros y v Hy. split; [done|]. by intros ?%elem_of_nil. }
  eapply psafe_bind; [by eapply psafe_len_from|]. intros [z r1] n1 K1 L1 [P1 _].
  eapply psafe_bind; [by apply psafe_throwIf|]. intros [] n' _ _ [-> Hz]. bool_to_prop.
  eapply psafe_bind; [by apply psafe_throwIf|]. intros [] n' _ _ [-> Hz2]. bool_to_prop.
  assert (Hk1 : P n1) by by eapply P_later.
  eapply psafe_bind; [eapply psafe_body_from; [done|done|done|lia]|]. intros [body r2] n2 K2 L2 [P2 Hlen].
  assert (Ht2 : topic_in n2 tl) by by apply (lt_topics _ _ L2), (lt_topics _ _ L1).
  cbn in Hlen. eapply psafe_bind; [apply psafe_new_message; [done|done|lia]|]. intros x n3 K3 L3 (_ & (m & Hm) & Hkeep).
  eapply psafe_bind; [apply IH; [done| |by apply (lt_topics _ _ L3)]|].
  { by repeat (eapply P_later; [eassumption|]). }
  intros xs n4 K4 L4 ((ms & Hms) & Hnd & Hkeep2). destruct (Hkeep2 x m Hm) as [Hm4 Hx].
  apply psafe_ret; [done|]. split_and!.
  - exists (m :: ms). by constructor.
  - by constructor.
  - intros y v Hy. apply (io_loose _ _ _ _ P1), (io_loose _ _ _ _ P2) in Hy. destruct (Hkeep y v Hy) as [Hy3 Hne].
    destruct (Hkeep2 y v Hy3) as [Hy4 Hnin]. split; [done|]. by apply not_elem_of_cons.
Qed.

Lemma psafe_readMPUB clock nows tl r n : daemon_ok n → P n → topic_in n tl →
  psafe (readMPUB opts rd clock nows tl r) n (λ xs n', (∃ ms, Forall2 (loose n') xs ms) ∧ NoDup xs).
Proof.
  intros Hn Hk Ht. unfold readMPUB. eapply psafe_bind; [by eapply psafe_len_from|]. intros [k r1] n1 K1 L1 _.
  eapply psafe_bind; [by apply psafe_throwIf|]. intros [] n' _ _ [-> _].
  eapply psafe_weaken; [apply psafe_read_messages; [done|by eapply P_later|by apply (lt_topics _ _ L1)]|].
  by intros xs n5 _ _ (? & ? & _).
Qed.
End batch.

Lemma psafe_MPUB clock nows id params n : daemon_ok n → known id n → psafe (the_MPUB clock nows id params) n (λ _ _, True).
Proof.
  intros Hn Hk. unfold MPUB. destruct params as [|p0 [|topicName ps]]; [by apply psafe_fail..|].
  eapply psafe_bind; [by apply psafe_throwIf|]. intros [] n' _ _ [-> _].
  eapply psafe_bind; [by apply psafe_CheckAuth|]. intros [] n1 K1 L1 _.
  eapply psafe_bind; [apply psafe_lift, safe_GetTopic; done|]. intros tl n2 K2 L2 [_ Ht].
  assert (Hk2 : known id n2) by by eapply known_later, known_later.
  eapply psafe_bind; [by apply psafe_need_len|]. intros z n3 K3 L3 _.
  do 2 (eapply psafe_bind; [by apply psafe_throwIf|]; intros [] n' _ _ [-> _]).
  assert (Hk3 : known id n3) by by eapply known_later.
  eapply psafe_bind.
  { eapply (psafe_readMPUB (known id) (io_post id) _ (client_reader_safe id));
      [intros; by eapply known_later|by intros ? ? ? ? [_ ?]; auto|done|done|by apply (lt_topics _ _ L3)]. }
  intros xs n4 K4 L4 [(ms & Hms) Hnd].
  eapply psafe_bind; [eapply psafe_lift, safe_PutMessages; [done|by apply (lt_topics _ _ L4), (lt_topics _ _ L3)|done|done]|].
  intros err n5 K5 L5 _. apply psafe_on_error; [done|].
  eapply psafe_bind; [apply psafe_lift, safe_upd_client; [done| |]|].
  - by repeat (eapply known_later; [eassumption|]).
  - intros c _ Hok. eapply same_client_ok; [apply same_PublishedMessage|done].
  - intros [] n6 K6 _ _. by apply psafe_ret.
Qed.

(** ** The loop and the pump *)

Notation the_Exec := (Exec opts range channel_queue topic_queue memory_queue e2e lookupdHTTPAddrs GetLookupdTopicChannels
  compiles match_string GETV1 commonName Quote unmarshal_identify marshal_identify marshal_auth tlsConfig).
Notation the_io_turn := (io_turn opts range channel_queue topic_queue memory_queue e2e lookupdHTTPAddrs GetLookupdTopicChannels
  compiles match_string GETV1 commonName Quote unmarshal_identify marshal_identify marshal_auth tlsConfig).

Lemma psafe_Exec (r : readings) (id : Z) (params : list bytes) (n : nsqd) : daemon_ok n → known id n → params ≠ [] → psafe (the_Exec r id params) n (λ _ _, True).
Proof.
  intros Hn Hk Hne. unfold Exec. destruct params as [|cmd ps]; [done|]. set (params := cmd :: ps).
  destruct (is_cmd cmd "IDENTIFY"); [by apply psafe_IDENTIFY|].
  eapply psafe_bind; [by apply psafe_get_client|]. intros c n' _ _ (-> & Hc & Hok).
  eapply psafe_bind; [by apply psafe_enforceTLSPolicy|]. intros [] n' _ _ ->.
  repeat match goal with |- psafe (if ?b then _ else _) _ _ => destruct b end;
    auto using psafe_FIN, psafe_RDY, psafe_REQ, psafe_PUB, psafe_MPUB, psafe_DPUB, psafe_TOUCH, psafe_SUB, psafe_CLS, psafe_AUTH, psafe_fail.
  by apply psafe_ret.
Qed.

Lemma split_nonempty (b : byte) s : Split.split b s ≠ [].
Proof. destruct s as [|x s]; cbn; [done|]. repeat case_match; done. Qed.

Lemma safe_io_turn (r : readings) (id : Z) (n : nsqd) : daemon_ok n → known id n → safe (the_io_turn r id) n (λ _ _, True).
Proof.
  intros Hn Hk. unfold io_turn.
  eapply safe_bind; [by apply safe_get_client|]. intros c n' _ _ (-> & Hc & Hok).
  destruct (ReadSlice _) as [[line rest]|].
  2: { eapply safe_bind; [apply (safe_put_same id c _ n Hn Hc); apply same_cl_in|]. intros [] n1 K1 _ _. by apply safe_ret. }
  eapply safe_bind; [apply (safe_put_same id c _ n Hn Hc); apply same_cl_in|]. intros [] n1 K1 L1 _.
  assert (Hk1 : known id n1) by by eapply known_later.
  eapply safe_bind; [apply psafe_Exec; [done|done|apply split_nonempty]|]. intros response n2 K2 L2 _.
  assert (Hk2 : known id n2) by by eapply known_later.
  destruct response as [[response|]|[e|]]; try by apply safe_ret.
  - eapply safe_bind; [by apply safe_Send|]. intros err n3 K3 _ _. by apply safe_ret.
  - eapply safe_bind; [by apply safe_Send|]. intros [err|] n3 K3 _ _; by apply safe_ret.
Qed.

(** ** The start and the end of a connection *)

Lemma safe_AddConnection id c n : daemon_ok n → client_ok opts compiles (chan_in n) c →
  safe (AddClient id c) n (λ _ n', known id n').
Proof.
  intros Hn Hc. destruct (with_client_ok opts compiles n id c Hn Hc) as [K1 L1].
  eexists (), _. split_and!; [reflexivity| | |].
  - split; try apply K1. cbn. intros k. rewrite elem_of_union, elem_of_singleton. intros [->|Hk].
    + rewrite lookup_insert_eq. by eexists.
    + by apply (dm_known _ _ _ K1).
  - destruct L1. by split.
  - unfold known. cbn. rewrite lookup_insert_eq. by eexists.
Qed.

(** What the pump of a client may hold. *)
Definition pump_ok n (p : pump) : Prop := ∀ l, p.(p_subChannel) = Some l → chan_in n l.

Lemma pump_ok_later n n' p : later n n' → pump_ok n p → pump_ok n' p.
Proof. intros L Hp l Hl. by apply (lt_chans _ _ L), Hp. Qed.

Lemma safe_io_start remoteAddr input out now n : daemon_ok n →
  safe (io_start opts remoteAddr input out now) n (λ r n', known r.1 n' ∧ pump_ok n' r.2).
Proof.
  intros Hn. unfold io_start. apply safe_get. set (id := i64 _).
  eapply (safe_bind _ _ _ _ _ (λ _ n', True)).
  { exists (), (set_clientIDSequence id n). split_and!; [done| |by split|done]. split; apply Hn. }
  intros [] n1 K1 _ _. eapply safe_bind; [apply safe_AddConnection; [done|apply client_ok_new]|].
  intros [] n2 K2 _ Hk. unfold pump_started.
  pose proof (oo_output _ oo) as Ho. pose proof (oo_client _ oo) as Hc. cbn.
  eexists (id, _), n2. split_and!; [|done|apply later_refl|done|].
  - unfold NewTicker. destruct (Opts.OutputBufferTimeout opts <=? 0) eqn:E1; [bool_to_prop; lia|].
    destruct (Z.quot _ 2 <=? 0) eqn:E2; [bool_to_prop; lia|]. reflexivity.
  - done.
Qed.

Lemma safe_io_finish id n : daemon_ok n → known id n → safe (io_finish id) n (λ _ _, True).
Proof.
  intros Hn Hk. unfold io_finish.
  eapply safe_bind; [apply safe_upd_client; [done..|]|]. { intros c _ [S ? ? ? ?]. split; try done. destruct S; by split. }
  intros [] n1 K1 L1 _. assert (Hk1 : known id n1) by by eapply known_later.
  eapply safe_bind; [apply safe_upd_client; [done..|]|]. { intros c _ [S ? ? ? ?]. split; try done. destruct S; by split. }
  intros [] n2 K2 L2 _. assert (Hk2 : known id n2) by by eapply known_later.
  eapply safe_bind; [by apply safe_get_client|]. intros c n' _ _ (-> & Hc & Hok).
  eapply (safe_bind _ _ _ _ _ (λ _ _, True)).
  { destruct (Client.c_Channel c) as [cl|] eqn:Ecl; [|by apply safe_ret].
    eapply safe_weaken; [apply safe_RemoveClient; [done|]|done].
    destruct (co_state _ _ _ _ Hok) as [(_ & Hn0 & _)|(_ & l & Hl & ?)]; congruence. }
  intros [] n3 K3 _ _. unfold RemoveClient.
  eexists (), _. split_and!; [reflexivity| | |done].
  - case_bool_decide; [|done]. split; try apply K3. cbn. intros k [Hk3 _]%elem_of_difference. by apply (dm_known _ _ _ K3).
  - by case_bool_decide.
Qed.

(** ** The message pump *)

(** A message that was taken goes in flight and is there to be sent. *)
Lemma in_flight_ok (s : heap client * Channel D Q) id p now x m : chan_ok s → x ∉ owned s → s.1.(msgs) !! x = Some m →
  ∃ m' s', in_flight id p now x s = Some (m', s') ∧ chan_ok s' ∧
    encode_message m' = encode_message (set_Attempts (u16 (m.(Attempts) + 1)) m).
Proof.
  intros Hok Hx Hm. destruct (deliver_ok s now x id p.(p_msgTimeout) m Hok Hx Hm) as (err & s' & m' & E & Hok' & Hm' & He).
  exists m', s'. split_and!; [|done|done]. unfold in_flight. callST ltac:(exact E). exact (get_msg_ok s' x m' Hm').
Qed.

Lemma take_memory_ok (s : heap client * Channel D Q) id p now rnd : chan_ok s →
  ∃ r s', take_memory id p now rnd s = Some (r, s') ∧ chan_ok s'.
Proof.
  intros Hok. pose proof (recv_memory_eq s) as Er. unfold take_memory.
  destruct (memoryMsgChan s.2) as [|x xs] eqn:Hmem.
  { exists None, s. split; [|done]. by callST ltac:(exact Er). }
  destruct (pop_memory s x xs Hok Hmem) as (Hok1 & Hx1 & Hown).
  callST ltac:(exact Er). destruct (sampled_out p rnd); [by eexists _, _|].
  destruct (ck_live _ Hok x) as [m Hm]; [rewrite Hown; by constructor|].
  destruct (in_flight_ok _ id p now x m Hok1 Hx1 Hm) as (m' & s2 & E2 & Hok2 & _).
  eexists _, s2. split; [|exact Hok2]. by callST ltac:(exact E2).
Qed.

Lemma take_backend_ok (s : heap client * Channel D Q) id p now rnd : chan_ok s →
  ∃ r s', take_backend id p now rnd s = Some (r, s') ∧ chan_ok s'.
Proof.
  intros Hok. unfold take_backend. destruct (sampled_out p rnd).
  { destruct s as [h c]. callST ltac:(reflexivity). destruct (bq_Recv c.(backend_)) as [[d b]|]; [|by eexists _, _].
    callST ltac:(reflexivity). eexists _, _. split; [reflexivity|]. by apply (chan_ok_other (h, c)). }
  pose proof (recv_backend_eq s) as Er. destruct (bq_Recv s.2.(backend_)) as [[d b]|] eqn:Eb.
  2: { exists None, s. split; [|done]. by callST ltac:(exact Er). }
  assert (Hd : Z.of_nat (length d) < 2 ^ 31).
  { destruct (s.2.(backend_)) as [b0|b0]; cbn in Eb; [done|].
    destruct (bq_Recv b0) as [[d' b']|] eqn:Er'; [|done]. cbn in Eb. injection Eb as <- _. by eapply recv_small. }
  assert (Hok1 : chan_ok (s.1, set_backend_ b s.2)) by (by apply (chan_ok_other s)).
  destruct (decodeMessage d) as [m|e] eqn:Ed.
  - destruct (decodeMessage_ok d m Ed) as (_ & _ & Hm).
    destruct (new_msg_ok _ m Hok1) as (s1 & E1 & Hok2 & Hm1 & Hx1 & _); [unfold small; by rewrite Hm|].
    unfold mbind at 1, ST_bind at 1. rewrite Er. unfold mbind at 1, ST_bind at 1. rewrite E1. cbn [mret ST_ret].
    destruct (in_flight_ok s1 id p now _ m Hok2 Hx1 Hm1) as (m' & s2 & E2 & Hok3 & _).
    eexists _, s2. split; [|exact Hok3]. by callST ltac:(exact E2).
  - eexists _, _. split; [|exact Hok1]. by callST ltac:(exact Er).
Qed.

(** A receive of the pump is an operation of its channel. *)
Lemma safe_take (m : ST (heap client * Channel D Q) (option (option Message))) l n :
  daemon_ok n → chan_in n l →
  (∀ s, chan_ok s → ∃ r s', m s = Some (r, s') ∧ chan_ok s') →
  (∀ c X Y, (∀ x, (n.(n_heap).(next) <= x)%nat → X x) → (∀ x, (n.(n_heap).(next) <= x)%nat → Y x) →
     fp X Y n.(n_heap) m (n.(n_heap), c) any) →
  safe (on_channel l m) n (λ _ n', quiet n n').
Proof.
  intros Hn Hl Hm Hfp. eapply safe_weaken; [apply (safe_on_channel opts compiles l m n (λ _ _, True) Hn Hl)|].
  - intros c Hok. destruct (Hm _ Hok) as (r & s' & E & Hok'). by exists r, s'.
  - done.
  - by intros r n' _ _ [Hq _].
Qed.

Lemma fp_in_flight X Y (h0 : heap client) id p now x s : X x → fp X Y h0 (Protocol.in_flight (D:=D) (Q:=Q) id p now x) s any.
Proof.
  intros Hx. unfold Protocol.in_flight. eapply fp_bind; [by apply fp_deliver|]. intros err s' _ _. apply fp_get_msg.
Qed.

Lemma safe_take_memory l id p now rnd n : daemon_ok n → chan_in n l →
  safe (on_channel l (take_memory id p now rnd)) n (λ _ n', quiet n n').
Proof.
  intros Hn Hl. apply safe_take; [done|done|intros s; apply take_memory_ok|].
  intros c X Y HX HY. unfold take_memory. eapply fp_bind; [by apply fp_recv_memory|]. intros [x|] s' _ Hx; [|by apply fp_ret].
  destruct (sampled_out p rnd); [by apply fp_ret|]. eapply fp_bind; [by apply fp_in_flight|]. intros. by apply fp_ret.
Qed.

Lemma safe_take_backend l id p now rnd n : daemon_ok n → chan_in n l →
  safe (on_channel l (take_backend id p now rnd)) n (λ _ n', quiet n n').
Proof.
  intros Hn Hl. apply safe_take; [done|done|intros s; apply take_backend_ok|].
  intros c X Y HX HY. unfold take_backend. destruct (sampled_out p rnd).
  - apply fp_get. destruct (bq_Recv _) as [[d b]|]; [|by apply fp_ret].
    eapply fp_bind; [apply fp_upd_chan; intros [? ? ? ? ? ? ?]; by split|]. intros. by apply fp_ret.
  - eapply fp_bind; [by apply fp_recv_backend|]. intros [[x|e]|] s' _ Hx; [|by apply fp_ret..].
    eapply fp_bind; [by apply fp_in_flight|]. intros. by apply fp_ret.
Qed.

Definition turn_ok n (r : pump_result) : Prop := match r with Goes p => pump_ok n p | _ => True end.

Lemma safe_pump_deliver id p r n : daemon_ok n → known id n → pump_ok n p →
  safe (pump_deliver id p r) n (λ r n', turn_ok n' r).
Proof.
  intros Hn Hk Hp. destruct r as [[m|]|]; [|by apply safe_ret..]. cbn.
  eapply safe_bind; [apply safe_upd_client; [done..|]|]. { intros c _. apply client_ok_SendingMessage. }
  intros [] n1 K1 L1 _. eapply safe_bind; [apply safe_Send; [done|by eapply known_later]|].
  intros [err|] n2 K2 L2 _; apply safe_ret; try done.
  by do 2 (eapply pump_ok_later; [eassumption|]).
Qed.

Lemma safe_Flush id n : daemon_ok n → known id n → safe (run_client id Client.Flush) n (λ _ n', io_post id n n').
Proof. intros. apply safe_run_client; [done..|]. intros. apply same_Flush. Qed.

Lemma safe_pump_head id p n : daemon_ok n → known id n → pump_ok n p →
  safe (pump_head id p) n (λ r n', match r with Ok (p', _) => pump_ok n' p' | Err _ => True end).
Proof.
  intros Hn Hk Hp. unfold pump_head.
  eapply safe_bind; [by apply safe_get_client|]. intros c n' _ _ (-> & Hc & Hok).
  eapply (safe_bind _ _ _ _ _ (λ _ n', n' = n)).
  { destruct (p_subChannel p) as [l|] eqn:El; [|by apply safe_ret]. destruct (Hp l El) as [ch Hch].
    eexists _, n. split_and!; [|done|apply later_refl|done]. unfold paused_of.
    callST ltac:(unfold mbind, ST_bind, getST, liftST; rewrite Hch; reflexivity). reflexivity. }
  intros ready n' _ _ ->. destruct ready; cbn [negb]; [by apply safe_ret|].
  eapply safe_bind; [by apply safe_Flush|]. intros [e|] n1 K1 L1 _; apply safe_ret; try done.
  eapply pump_ok_later in Hp; [|exact L1]. exact Hp.
Qed.

Lemma safe_pump_case id p mode ev n : daemon_ok n → known id n → pump_ok n p →
  safe (pump_case id p mode ev) n (λ r n', turn_ok n' r).
Proof.
  intros Hn Hk Hp. unfold pump_case.
  eapply safe_bind; [by apply safe_get_client|]. intros c n' _ _ (-> & Hc & Hok).
  pose proof (pump_ok_later n) as Hlater.
  destruct ev as [| | | | |now rnd|now rnd|].
  - destruct mode; try by apply safe_ret. destruct (negb _); [by apply safe_ret|].
    eapply safe_bind; [by apply safe_Flush|]. intros [e|] n1 K1 L1 _; apply safe_ret; try done. cbn. by eapply Hlater in Hp.
  - destruct (Client.ReadyStateChan c); [|by apply safe_ret].
    eapply safe_bind; [apply safe_put_client; [done|]|].
    { destruct Hok as [S ? ? ? ?]. split; try done. destruct S; by split. }
    intros [] n1 K1 L1 _. apply safe_ret; [done|]. by eapply Hlater.
  - destruct (p_subEvent p); [|by apply safe_ret]. destruct (Client.SubEventChan c) as [l|] eqn:El; [|by apply safe_ret].
    eapply safe_bind; [apply safe_put_client; [done|]|].
    { destruct Hok as [S ? ? ? ?]. split; try done. destruct S; by split. }
    intros [] n1 K1 L1 _. apply safe_ret; [done|]. intros l' [= <-]. apply (lt_chans _ _ L1).
    pose proof (co_sub _ _ _ _ Hok l El) as Ec.
    destruct (co_state _ _ _ _ Hok) as [(_ & Hn0 & _)|(_ & k & Hk' & ?)]; congruence.
  - destruct (p_identifyEvent p); [|by apply safe_ret]. destruct (Client.IdentifyEventChan c) as [ie|]; [|by apply safe_ret].
    eapply safe_bind; [apply safe_put_client; [done|]|].
    { destruct Hok as [S ? ? ? ?]. split; try done. destruct S; by split. }
    intros [] n1 K1 L1 _. apply safe_ret; [done|]. intros l' Hl'. by apply (lt_chans _ _ L1), Hp.
  - destruct (negb _); [by apply safe_ret|]. eapply safe_bind; [by apply safe_Send|].
    intros [e|] n1 K1 L1 _; apply safe_ret; try done. by eapply Hlater.
  - destruct mode; try by apply safe_ret.
    all: destruct (p_subChannel p) as [l|] eqn:El; [|by apply safe_ret].
    all: eapply safe_bind; [apply safe_take_backend; [done|by apply Hp]|].
    all: intros r n1 K1 L1 _; apply safe_pump_deliver; [done|by eapply known_later|by eapply Hlater].
  - destruct mode; try by apply safe_ret.
    all: destruct (p_subChannel p) as [l|] eqn:El; [|by apply safe_ret].
    all: eapply safe_bind; [apply safe_take_memory; [done|by apply Hp]|].
    all: intros r n1 K1 L1 _; apply safe_pump_deliver; [done|by eapply known_later|by eapply Hlater].
  - by destruct (Client.ExitChan c); apply safe_ret.
Qed.

Lemma safe_pump_turn id p ev n : daemon_ok n → known id n → pump_ok n p →
  safe (pump_turn id p ev) n (λ r n', turn_ok n' r).
Proof.
  intros Hn Hk Hp. unfold pump_turn. eapply safe_bind; [by apply safe_pump_head|].
  intros [[p' mode]|e] n1 K1 L1 Hp1; [|by apply safe_ret]. apply safe_pump_case; [done|by eapply known_later|done].
Qed.

End protocol.
End ProtocolP.
