(* ===== verification/ProtocolProps.v ===== *)
(** * What the commands of a client do

    Commands that are refused leave the daemon alone ([refused_keeps]); a
    publish that is answered is held ([pub_held]); the pump takes no message
    for a client that is not ready ([not_ready_takes_nothing]). *)
From stdpp Require Import base gmap list strings.
From Stdlib Require Import ZArith Lia.
From S2P Require Import Prelude.
From S2P Require Import Decimal.
From S2P Require Import Text.
From S2P Require Import Message.
From S2P Require Import Guid.
From S2P Require Import Wire.
From S2P Require Import Heap.
From S2P Require Import Backend.
From S2P Require Import Channel.
From S2P Require Import ChannelProofs.
From S2P Require Import ChannelScan.
From S2P Require Import ChannelProps.
From S2P Require Import ChannelFrame.
From S2P Require Import Topic.
From S2P Require Import TopicProofs.
From S2P Require Import TopicProps.
From S2P Require Import Auth.
From S2P Require Import Options.
From S2P Require Import Client.
From S2P Require Import ClientProps.
From S2P Require Import Nsqd.
From S2P Require Import DaemonProofs.
From S2P Require Import Protocol.
From S2P Require Import ProtocolProofs.
Set Default Goal Selector "!".
Local Open Scope Z_scope.

Module ProtocolSpec.
Import Wire Channel ChannelP ChannelS ChannelSpec ChannelF Topic TopicP TopicSpec ClientSpec Nsqd DaemonP Protocol ProtocolP.

Section protocol.
Context {W D Q B MB : Type}.
Context `{Client.ConnWriter W, !BackendQueue D, !BackendLaws D, QuantileStream Q,
          !BackendQueue B, !BackendLaws B, UnloggedQueue MB}.
Context (opts : Opts.Options) (range : ∀ A : Type, list A → list A).
Context (channel_queue : bytes → D) (topic_queue : bytes → B) (memory_queue : bytes → MB) (e2e : option Q).
Context (lookupdHTTPAddrs : list bytes) (GetLookupdTopicChannels : bytes → list bytes).
Context (compiles : bytes → bool) (match_string : bytes → bytes → bool) (GETV1 : bytes → res string Auth.State) (commonName : bytes).
Context (Quote : bytes → string).

Notation nsqd := (NSQD W D Q B MB).
Notation client := (Client.clientV2 W).
Notation NM := (ST nsqd).
Notation CM := (PM nsqd).
Notation copts := (Opts.chan_options opts).
Notation daemon_ok := (daemon_ok opts compiles).
Notation same := (same_client opts compiles).
Implicit Types (n : nsqd) (c : client).

Notation the_PUB := (PUB opts range channel_queue topic_queue memory_queue e2e lookupdHTTPAddrs GetLookupdTopicChannels
  compiles match_string GETV1 commonName Quote).
Notation the_DPUB := (DPUB opts range channel_queue topic_queue memory_queue e2e lookupdHTTPAddrs GetLookupdTopicChannels
  compiles match_string GETV1 commonName Quote).
Notation the_MPUB := (MPUB opts range channel_queue topic_queue memory_queue e2e lookupdHTTPAddrs GetLookupdTopicChannels
  compiles match_string GETV1 commonName Quote).
Notation the_SUB := (SUB opts range channel_queue topic_queue memory_queue e2e lookupdHTTPAddrs GetLookupdTopicChannels
  compiles match_string GETV1 commonName Quote).
Notation authorized := (Client.IsAuthorized opts compiles match_string GETV1 commonName).
Notation check := (CheckAuth opts compiles match_string GETV1 commonName Quote).

(** ** Programs that only touch the client of the connection

    [keeps id c m n R]: from a state whose client [id] is [c], the program
    changes nothing but that client, and of it nothing the protocol depends
    on; it fails with a fatal error, or its result and the client satisfy
    [R]. *)
Definition keeps {A} (id : Z) c (m : CM A) n (R : A → client → Prop) : Prop :=
  ∃ r c', m n = Some (r, with_client n id c') ∧ same c c' ∧
    match r with Ok a => R a c' | Err (Fail e) => is_fatal e = true | Err Blocked => False end.

Definition has (id : Z) c n : Prop := n.(n_heap).(consumers) !! id = Some c.

Lemma has_with_client n id c' : has id c' (with_client n id c').
Proof. unfold has. cbn. apply lookup_insert_eq. Qed.

Lemma with_client_same n id c : has id c n → with_client n id c = n.
Proof.
  intros Hc. destruct n as [[ms its cons nx lg] cs ts tm seq cl ld pool]. unfold with_client, set_n_heap, set_consumers. cbn.
  unfold has in Hc. cbn in Hc. by rewrite insert_id.
Qed.

Lemma with_client_twice n id c c' : with_client (with_client n id c) id c' = with_client n id c'.
Proof.
  unfold with_client, set_n_heap, set_consumers. cbn. by rewrite insert_insert_eq.
Qed.

Lemma keeps_ret {A} id c (a : A) n (R : A → client → Prop) : has id c n → R a c → keeps id c (mret a) n R.
Proof. intros Hc HR. exists (Ok a), c. rewrite with_client_same by done. split_and!; [done|apply same_client_refl|done]. Qed.

Lemma keeps_fail {A} id c e n (R : A → client → Prop) : has id c n → is_fatal e = true → keeps id c (fail e) n R.
Proof. intros Hc He. exists (Err (Fail e)), c. rewrite with_client_same by done. split_and!; [done|apply same_client_refl|done]. Qed.

Lemma keeps_bind {A A'} id c (m : CM A) (f : A → CM A') n R1 R :
  keeps id c m n R1 → (∀ a c', same c c' → R1 a c' → keeps id c' (f a) (with_client n id c') R) →
  keeps id c (m ≫= f) n R.
Proof.
  intros (r & c1 & E & Hs & HR) Hf. destruct r as [a|e].
  - destruct (Hf a c1 Hs HR) as (r2 & c2 & E2 & Hs2 & HR2). exists r2, c2.
    split_and!; [|by eapply same_client_trans|done]. unfold mbind, PM_bind. rewrite E.
    rewrite with_client_twice in E2. exact E2.
  - exists (Err e), c1. split_and!; [|done|done]. unfold mbind, PM_bind. by rewrite E.
Qed.

Lemma keeps_throwIf id c b code desc n : has id c n →
  keeps id c (throwIf b (fatal None code desc)) n (λ _ c', c' = c ∧ b = false).
Proof. intros Hc. destruct b; [by apply keeps_fail|by apply keeps_ret]. Qed.

Lemma keeps_get_client id c n : has id c n → keeps id c (lift (get_client id)) n (λ a c', a = c ∧ c' = c).
Proof.
  intros Hc. exists (Ok c), c. rewrite with_client_same by done. split_and!; [|apply same_client_refl|done|done].
  unfold lift, get_client, mbind, ST_bind, getST, liftST. unfold has in Hc. by rewrite Hc.
Qed.

(** Reading changes the unread input. *)
Definition read_from c c' : Prop := ∃ i, c' = Client.set_cl_in i c.

Lemma read_from_trans c1 c2 c3 : read_from c1 c2 → read_from c2 c3 → read_from c1 c3.
Proof. intros [i ->] [j ->]. by exists j. Qed.

Lemma ReadFull_eq id k c n : has id c n →
  ReadFull id k n = let i := c.(Client.cl_in) in
    if bool_decide (length i < k)%nat then Some (None, with_client n id (Client.set_cl_in [] c))
    else Some (Some (take k i), with_client n id (Client.set_cl_in (drop k i) c)).
Proof.
  intros Hc. unfold ReadFull, get_client, mbind, ST_bind, getST, liftST. unfold has in Hc. rewrite Hc. cbn.
  by case_bool_decide.
Qed.

Lemma keeps_need_len id c code desc n : has id c n → keeps id c (need_len id code desc) n (λ _ c', read_from c c').
Proof.
  intros Hc. unfold need_len, len_from, readLen, client_reader. exists (if bool_decide (length (Client.cl_in c) < 4)%nat then Err (Fail (fatal (Some "EOF"%string) code desc))
    else Ok (i32 (be_decode (take 4 (Client.cl_in c))))).
  exists (Client.set_cl_in (if bool_decide (length (Client.cl_in c) < 4)%nat then [] else drop 4 (Client.cl_in c)) c).
  split_and!; [|apply same_cl_in|].
  - unfold mbind, PM_bind, lift, ST_bind. rewrite (ReadFull_eq id 4 c n Hc). cbn. by case_bool_decide.
  - case_bool_decide; [done|by eexists].
Qed.

Lemma keeps_need_body id c z code desc n : has id c n → 0 <= z → keeps id c (need_body id z code desc) n (λ _ c', read_from c c').
Proof.
  intros Hc Hz. unfold need_body, body_from, client_reader. rewrite (proj2 (Z.ltb_ge _ _) Hz).
  exists (if bool_decide (length (Client.cl_in c) < Z.to_nat z)%nat then Err (Fail (fatal (Some "EOF"%string) code desc))
    else Ok (take (Z.to_nat z) (Client.cl_in c))).
  exists (Client.set_cl_in (if bool_decide (length (Client.cl_in c) < Z.to_nat z)%nat then [] else drop (Z.to_nat z) (Client.cl_in c)) c).
  split_and!; [|apply same_cl_in|].
  - unfold mbind, PM_bind, lift, ST_bind. rewrite (ReadFull_eq id _ c n Hc). cbn. by case_bool_decide.
  - case_bool_decide; [done|by eexists].
Qed.

Lemma keeps_read_message id c cmd n : has id c n → keeps id c (read_message opts id cmd) n (λ _ c', read_from c c').
Proof.
  intros Hc. unfold read_message. eapply keeps_bind; [by apply keeps_need_len|]. intros z c1 _ Hr1.
  eapply keeps_bind; [apply keeps_throwIf, has_with_client|]. intros [] c' _ [-> Hz]. bool_to_prop.
  eapply keeps_bind; [apply keeps_throwIf, has_with_client|]. intros [] c' _ [-> _]. rewrite !with_client_twice.
  destruct (keeps_need_body id c1 z "E_BAD_MESSAGE" (cmd +:+ " failed to read message body") (with_client n id c1))
    as (r & c2 & E & Hs & HR); [apply has_with_client|lia|].
  exists r, c2. split_and!; [done|done|]. destruct r; [|done]. exact (read_from_trans _ _ _ Hr1 HR).
Qed.

(** ** Refusals *)

(** The topic and the channel a command needs permission for. *)
Definition asked_for (params : list bytes) : option (bytes * bytes) :=
  match params with
  | cmd :: topic :: rest =>
    if is_cmd cmd "PUB" || is_cmd cmd "MPUB" || is_cmd cmd "DPUB" then Some (topic, []) else
    if is_cmd cmd "SUB" then match rest with channel :: _ => Some (topic, channel) | [] => None end else None
  | _ => None
  end.

(** The client has no authorizations, or none for this. (What it is about to
    send does not matter.) *)
Definition denied (now : time) c (topic channel : bytes) : Prop :=
  ∀ i, Client.HasAuthorizations c = false ∨ ∀ c', authorized now topic channel (Client.set_cl_in i c) ≠ Some (c', Ok true).

Lemma denied_read now c c' topic channel : read_from c c' → denied now c topic channel → denied now c' topic channel.
Proof. intros [i ->] Hd j. exact (Hd j). Qed.

Lemma set_cl_in_same c : Client.set_cl_in c.(Client.cl_in) c = c.
Proof. by destruct c. Qed.

Lemma keeps_CheckAuth_denied now id c cmd topic channel n : daemon_ok n → has id c n → IsAuthEnabled opts = true →
  denied now c topic channel → client_ok opts compiles (chan_in n) c →
  keeps id c (check now id cmd topic channel) n (λ _ _, False).
Proof.
  intros Hn Hc Ha Hd Hok. unfold CheckAuth. rewrite Ha. cbn [negb].
  eapply keeps_bind; [by apply keeps_get_client|]. intros c1 c' _ [-> ->]. rewrite (with_client_same n id c Hc).
  eapply keeps_bind; [by apply keeps_throwIf|]. intros [] c' _ [-> Hh]. bool_to_prop.
  rewrite (with_client_same n id c Hc).
  destruct (IsAuthorized_ok opts compiles match_string GETV1 commonName _ now topic channel c Hok) as (c2 & r & E & Hs).
  rewrite E. destruct (Hd c.(Client.cl_in)) as [Hd'|Hd']; [congruence|]. rewrite set_cl_in_same in Hd'.
  assert (Hput : keeps id c (lift (put_client id c2)) n (λ _ c', c' = c2)).
  { exists (Ok ()), c2. by split_and!. }
  eapply keeps_bind; [exact Hput|]. intros [] c' _ ->.
  destruct r as [b|e]; [|apply keeps_fail; [apply has_with_client|done]].
  destruct b; [by destruct (Hd' c2)|]. cbn. apply keeps_fail; [apply has_with_client|done].
Qed.

Lemma keeps_false {A A'} id c (m : CM A) (f : A → CM A') n R :
  keeps id c m n (λ _ _, False) → keeps id c (m ≫= f) n R.
Proof. intros Hm. eapply keeps_bind; [exact Hm|]. by intros. Qed.

Notation the_publish := (publish opts range channel_queue topic_queue memory_queue e2e lookupdHTTPAddrs GetLookupdTopicChannels
  compiles match_string GETV1 commonName Quote).

Section denied.
Context (now : time) (id : Z) (c : client) (n : nsqd).
Hypothesis Hn : daemon_ok n.
Hypothesis Hc : has id c n.
Hypothesis Ha : IsAuthEnabled opts = true.

Lemma keeps_throwIf_then {A} b code desc (m : CM A) R :
  (b = false → keeps id c m n R) → keeps id c (_ ← throwIf b (fatal None code desc); m) n R.
Proof.
  intros Hm. eapply keeps_bind; [by apply keeps_throwIf|]. intros [] c' _ [-> Hb]. rewrite with_client_same by done. by apply Hm.
Qed.

(** Reading the body first changes nothing. *)
Lemma keeps_read_publish nows topicName d cmd code (m : CM bytes) : denied now c topicName [] →
  keeps id c m n (λ _ c', read_from c c') →
  keeps id c (body ← m; the_publish now nows id topicName body d cmd code) n (λ _ _, False).
Proof.
  intros Hd Hm. eapply keeps_bind; [exact Hm|]. intros body c' Hs Hr.
  pose proof (same_client_ok _ _ _ _ _ Hs (dm_client _ _ _ Hn id c Hc)) as Hok'.
  destruct (with_client_ok opts compiles n id c' Hn Hok') as [K1 _]. unfold publish.
  apply keeps_false, keeps_CheckAuth_denied; [done|apply has_with_client|done|exact (denied_read _ _ _ _ _ Hr Hd)|done].
Qed.

Lemma keeps_PUB nows cmd topicName ps : denied now c topicName [] →
  keeps id c (the_PUB now nows id (cmd :: topicName :: ps)) n (λ _ _, False).
Proof. intros Hd. apply keeps_throwIf_then. intros _. apply keeps_read_publish; [done|by apply keeps_read_message]. Qed.

Lemma keeps_DPUB nows cmd topicName ps : denied now c topicName [] →
  keeps id c (the_DPUB now nows id (cmd :: topicName :: ps)) n (λ _ _, False).
Proof.
  intros Hd. unfold DPUB. destruct ps as [|ms ps]; [by apply keeps_fail|]. apply keeps_throwIf_then. intros _.
  destruct (Decimal.ByteToBase10 ms); [|by apply keeps_fail]. apply keeps_throwIf_then. intros _.
  apply keeps_read_publish; [done|by apply keeps_read_message].
Qed.

Lemma keeps_MPUB clock nows cmd topicName ps : clock 0%nat = now → denied now c topicName [] →
  keeps id c (the_MPUB clock nows id (cmd :: topicName :: ps)) n (λ _ _, False).
Proof.
  intros <- Hd. apply keeps_throwIf_then. intros _.
  apply keeps_false, keeps_CheckAuth_denied; [done..|]. by apply (dm_client _ _ _ Hn id).
Qed.

Lemma keeps_SUB attempts cmd topicName channelName ps : denied now c topicName channelName →
  keeps id c (the_SUB now attempts id (cmd :: topicName :: channelName :: ps)) n (λ _ _, False).
Proof.
  intros Hd. unfold SUB. eapply keeps_bind; [by apply keeps_get_client|]. intros c1 c' _ [-> ->]. rewrite with_client_same by done.
  do 4 (apply keeps_throwIf_then; intros _).
  apply keeps_false, keeps_CheckAuth_denied; [done..|]. by apply (dm_client _ _ _ Hn id).
Qed.
End denied.

Section exec.
Context (unmarshal_identify : bytes → option Client.identifyDataV2).
Context (marshal_identify : identify_response → res string bytes) (marshal_auth : auth_response → res string bytes).
Context (tlsConfig : bool).
Notation the_Exec := (Exec opts range channel_queue topic_queue memory_queue e2e lookupdHTTPAddrs GetLookupdTopicChannels
  compiles match_string GETV1 commonName Quote unmarshal_identify marshal_identify marshal_auth tlsConfig).

End exec.

(** ** A publish that is answered *)

Lemma lift_bind_eq {A A'} (m : NM A) (f : A → CM A') n a n' : m n = Some (a, n') → (lift m ≫= f) n = f a n'.
Proof. intros E. unfold mbind, PM_bind, lift. by rewrite E. Qed.

Lemma PM_bind_eq {A A'} (m : CM A) (f : A → CM A') n a n' : m n = Some (Ok a, n') → (m ≫= f) n = f a n'.
Proof. intros E. unfold mbind, PM_bind. by rewrite E. Qed.

Lemma throwIf_eq {A} b e (m : CM A) n : b = false → (_ ← throwIf b e; m) n = m n.
Proof. by intros ->. Qed.

Lemma need_len_eq id c code desc n z s : has id c n → in_i32 z → c.(Client.cl_in) = be_encode 4 (u32 z) ++ s →
  need_len id code desc n = Some (Ok z, with_client n id (Client.set_cl_in s c)).
Proof.
  intros Hc Hz Hin. unfold need_len, len_from, readLen, client_reader, mbind, PM_bind, lift, ST_bind.
  rewrite (ReadFull_eq id 4 c n Hc), Hin. cbv zeta.
  rewrite bool_decide_eq_false_2 by (rewrite length_app, length_be_encode; lia).
  rewrite take_app_length', drop_app_length' by (by rewrite length_be_encode).
  cbv [mret ST_ret PM_ret fmap option_fmap option_map].
  rewrite be_decode_encode_small, i32_u32; [done|done|]. unfold u32, uwrap. pose proof (Z.mod_pos_bound z (2 ^ 32)). cbn. lia.
Qed.

Lemma need_body_eq id c code desc n b s : has id c n → c.(Client.cl_in) = b ++ s →
  need_body id (Z.of_nat (length b)) code desc n = Some (Ok b, with_client n id (Client.set_cl_in s c)).
Proof.
  intros Hc Hin. unfold need_body, body_from, client_reader. rewrite (proj2 (Z.ltb_ge _ _)) by lia. rewrite Nat2Z.id.
  unfold mbind, PM_bind, lift, ST_bind. rewrite (ReadFull_eq id _ c n Hc), Hin. cbn zeta.
  rewrite bool_decide_eq_false_2 by (rewrite length_app; lia).
  by rewrite take_app_length, drop_app_length.
Qed.

Lemma read_message_eq id c cmd n b s : has id c n → 0 < Z.of_nat (length b) <= opts.(Opts.MaxMsgSize) →
  Z.of_nat (length b) < 2 ^ 31 → c.(Client.cl_in) = be_encode 4 (Z.of_nat (length b)) ++ b ++ s →
  read_message opts id cmd n = Some (Ok b, with_client n id (Client.set_cl_in s c)).
Proof.
  intros Hc Hb Hs Hin. unfold read_message.
  erewrite PM_bind_eq.
  2: { apply (need_len_eq id c _ _ n (Z.of_nat (length b)) (b ++ s) Hc); [unfold in_i32; lia|].
       rewrite Hin. f_equal. f_equal. unfold u32, uwrap. rewrite Z.mod_small; [done|]. cbn. lia. }
  rewrite throwIf_eq by (apply Z.leb_gt; lia). rewrite throwIf_eq by (apply Z.ltb_ge; lia).
  erewrite need_body_eq; [|apply has_with_client|reflexivity]. by rewrite with_client_twice.
Qed.

Lemma upd_client_eq id f c n : has id c n → upd_client id f n = Some ((), with_client n id (f c)).
Proof. intros Hc. unfold upd_client, get_client, mbind, ST_bind, getST, liftST. unfold has in Hc. by rewrite Hc. Qed.

Lemma new_message_eq now nows l (t : Topic B MB) body d n f mid :
  n.(n_topics) !! l = Some t → Guid.GenerateID nows t.(t_idFactory) = (f, Some mid) →
  let t1 := set_t_idFactory f t in
  new_message now nows l body d n = Some (Ok n.(n_heap).(next),
    put_topic (put_topic n l (n.(n_heap), n.(n_chans), t1)) l
      (alloc_msg (set_deferred d (NewMessage now mid body)) n.(n_heap), n.(n_chans), t1)).
Proof.
  intros Hl Hg t1. unfold new_message.
  erewrite lift_bind_eq.
  2: { apply (on_topic_eq l t _ n (Some mid) (n.(n_heap), n.(n_chans), t1) Hl).
       unfold t_GenerateID, mbind, ST_bind, getST. rewrite Hg. reflexivity. }
  unfold lift. erewrite on_topic_eq; [reflexivity| |].
  - cbn. apply lookup_insert_eq.
  - reflexivity.
Qed.

(** The daemon after a message was put to the topic [l] by the client [id]. *)
Record put_by (id : Z) (l : loc) (body rest : bytes) c n n' (t' : Topic B MB) : Prop := {
  pb_topics : n'.(n_topics) = <[l := t']> n.(n_topics);
  pb_chans : n'.(n_chans) = n.(n_chans);
  pb_map : n'.(topicMap) = n.(topicMap);
  pb_others : ∀ k, k ≠ id → n'.(n_heap).(consumers) !! k = n.(n_heap).(consumers) !! k;
}.


(** ** What the pump sends *)

(** An operation that leaves the consumers and the memory of the channel
    alone. *)
Definition quiet_op {A} (m : ST (heap client * Channel D Q) A) : Prop :=
  ∀ s a s', m s = Some (a, s') → s'.1.(consumers) = s.1.(consumers) ∧ s'.2.(memoryMsgChan) = s.2.(memoryMsgChan).

Lemma quiet_bind {A A'} (m : ST (heap client * Channel D Q) A) (f : A → ST (heap client * Channel D Q) A') :
  quiet_op m → (∀ a, quiet_op (f a)) → quiet_op (m ≫= f).
Proof.
  intros Hm Hf s b s2 (a & s1 & E1 & E2)%ST_bind_inv. destruct (Hf a _ _ _ E2) as [-> ->]. by apply Hm in E1.
Qed.

Lemma quiet_get : quiet_op (getST (S := heap client * Channel D Q)).
Proof. by intros s a s' [= <- <-]. Qed.
Lemma quiet_ret {A} (a : A) : quiet_op (mret a).
Proof. by intros s b s' [= <- <-]. Qed.
Lemma quiet_lift {A} (o : option A) : quiet_op (liftST o).
Proof. intros s b s'. unfold liftST. destruct o; [|done]. by intros [= <- <-]. Qed.
Lemma quiet_upd_chan f : (∀ ch, memoryMsgChan (f ch) = memoryMsgChan ch) → quiet_op (upd_chan f).
Proof. intros Hf [h c] b s' [= <- <-]. split; [done|apply Hf]. Qed.
Lemma quiet_set_msgs f : quiet_op (upd_heap (λ h, set_msgs (f h) h)).
Proof. by intros [h c] b s' [= <- <-]. Qed.

Lemma quiet_get_msg x : quiet_op (get_msg x).
Proof. apply quiet_bind; [apply quiet_get|]. intros [h c]. apply quiet_lift. Qed.

Lemma quiet_deliver now x cid t : quiet_op (deliver now x cid t).
Proof.
  unfold deliver, StartInFlightTimeout, pushInFlightMessage, addToInFlightPQ, on_ifpq, put_msg.
  repeat first [apply quiet_bind; [|intros] | apply quiet_get_msg | apply quiet_get | apply quiet_ret | apply quiet_upd_chan; intros; reflexivity
    | apply quiet_set_msgs | apply quiet_lift | case_match
    | match goal with |- quiet_op (match ?p with _ => _ end) => destruct p end
    | match goal with |- quiet_op (upd_heap (set_msgs ?st)) => apply (quiet_set_msgs (λ _, st)) end].
Qed.

(** A message that is not in flight yet is sent from memory. *)
Lemma take_memory_exact (s : heap client * Channel D Q) id p now rnd x xs m :
  chan_ok s → s.2.(memoryMsgChan) = x :: xs → s.1.(msgs) !! x = Some m → s.2.(inFlightMessages) !! m.(ID) = None →
  sampled_out p rnd = false →
  ∃ m' s', take_memory id p now rnd s = Some (Some (Some m'), s') ∧ s'.1.(consumers) = s.1.(consumers) ∧ s'.2.(memoryMsgChan) = xs ∧
    ChannelP.in_flight s' id m.(ID) x m' ∧ m'.(pri) = UnixNano (time_add now p.(p_msgTimeout)) ∧
    s'.2.(inFlightMessages) = <[m.(ID) := x]> s.2.(inFlightMessages) ∧
    encode_message m' = encode_message (set_Attempts (u16 (m.(Attempts) + 1)) m).
Proof.
  intros Hok Hmem Hm Hnone Hsam. destruct (pop_memory s x xs Hok Hmem) as (Hok1 & Hx1 & _).
  set (s1 := (s.1, set_memoryMsgChan xs s.2)) in *. set (m1 := set_Attempts (u16 (m.(Attempts) + 1)) m).
  set (s2 := (set_msgs (<[x := m1]> s1.1.(msgs)) s1.1, s1.2)).
  assert (Hok2 : chan_ok s2).
  { eapply chan_ok_put_msg; [done|exact Hm|done|]. pose proof (ck_small _ Hok x m Hm) as Hs. unfold small in *.
    rewrite encode_message_eq in *. rewrite !length_app, !length_be_encode in *. exact Hs. }
  assert (Hm2 : s2.1.(msgs) !! x = Some m1) by (cbn; by rewrite lookup_insert_eq).
  pose proof (StartInFlight_ok s2 now x id p.(p_msgTimeout) m1 Hok2 Hx1 Hm2) as Hst.
  replace (inFlightMessages s2.2 !! ID m1) with (@None nat) in Hst.
  destruct Hst as (s3 & m3 & E3 & Hok3 & Hif & Hpri & _ & Henc & _ & Hmap & _).
  assert (Ed : deliver now x id p.(p_msgTimeout) s1 = Some (None, s3)).
  { unfold deliver. callST ltac:(exact (get_msg_ok s1 x m Hm)). fold m1.
    assert (E1 : put_msg x m1 s1 = Some ((), s2)) by (by destruct s). callST ltac:(exact E1). exact E3. }
  destruct (quiet_deliver _ _ _ _ _ _ _ Ed) as [Ec Em].
  exists m3, s3. split_and!; [|exact Ec|exact Em|exact Hif|done|exact Hmap|done].
  - unfold take_memory. callST ltac:(rewrite recv_memory_eq, Hmem; reflexivity). rewrite Hsam. fold s1.
    unfold Protocol.in_flight. callST ltac:(callST ltac:(exact Ed); exact (get_msg_ok s3 x m3 (proj1 (proj2 Hif)))). done.
Qed.

Lemma get_client_eq id c n : has id c n → get_client id n = Some (c, n).
Proof. intros Hc. unfold get_client, mbind, ST_bind, getST, liftST. unfold has in Hc. by rewrite Hc. Qed.

Lemma put_client_eq n id c c' : put_client id c' (with_client n id c) = Some ((), with_client n id c').
Proof. rewrite <- (with_client_twice n id c c'). reflexivity. Qed.

Lemma run_client_eq id (f : client → client * option string) c n : has id c n →
  run_client id f n = Some ((f c).2, with_client n id (f c).1).
Proof.
  intros Hc. unfold run_client. callST ltac:(exact (get_client_eq id c n Hc)). destruct (f c) as [c' err]. reflexivity.
Qed.

(** The client is ready, and the channel it subscribed to is not paused. *)
Definition ready_for (p : pump) n c : bool :=
  match p.(p_subChannel) with
  | None => false
  | Some l => match n.(n_chans) !! l with Some ch => Client.IsReadyForMessages ch.(Channel.paused) c | None => false end
  end.

Lemma pump_head_eq id p c n : has id c n → pump_ok n p →
  pump_head id p n =
    if ready_for p n c then Some (Ok (p, if p.(p_flushed) then Unbuffered else Buffered), n)
    else let '(c', err) := Client.Flush c in
      Some (match err with Some e => Err e | None => Ok (set_flushed true p, NotReady) end, with_client n id c').
Proof.
  intros Hc Hp. unfold pump_head, ready_for. callST ltac:(exact (get_client_eq id c n Hc)).
  assert (Hr : (match p.(p_subChannel) with None => mret false | Some l => paused ← paused_of l; mret (Client.IsReadyForMessages paused c) end : NM bool) n
    = Some (ready_for p n c, n)).
  { unfold ready_for. destruct (p_subChannel p) as [l|] eqn:El; [|done]. destruct (Hp l El) as [ch Hch].
    unfold paused_of, mbind, ST_bind, getST, liftST. rewrite Hch. done. }
  callST ltac:(exact Hr). fold (ready_for p n c). destruct (ready_for p n c); [done|]. cbn [negb]. callST ltac:(exact (run_client_eq id Client.Flush c n Hc)). destruct (Client.Flush c) as [c' [e|]]; done.
Qed.

Lemma send_frame_counts ft data c :
  (send_frame ft data c).1.(Client.InFlightCount) = c.(Client.InFlightCount) ∧
  (send_frame ft data c).1.(Client.MessageCount) = c.(Client.MessageCount).
Proof. unfold send_frame, Client.Flush. repeat case_match; simplify_eq/=; done. Qed.

Lemma Flush_counts c :
  (Client.Flush c).1.(Client.InFlightCount) = c.(Client.InFlightCount) ∧ (Client.Flush c).1.(Client.MessageCount) = c.(Client.MessageCount).
Proof. unfold Client.Flush. repeat case_match; simplify_eq/=; done. Qed.

(** The pump of a client that is not ready - RDY 0 or used up, or a paused
    channel, or no channel - takes no message whatever its select chooses:
    every turn returns and touches nothing but the client's connection and
    its event channels. *)
Theorem not_ready_takes_nothing id p ev n c :
  n.(n_heap).(consumers) !! id = Some c → pump_ok n p → ready_for p n c = false →
  ∃ r c', pump_turn id p ev n = Some (r, with_client n id c') ∧
    c'.(Client.InFlightCount) = c.(Client.InFlightCount) ∧ c'.(Client.MessageCount) = c.(Client.MessageCount).
Proof.
  intros Hc Hp Hr. unfold pump_turn. pose proof (pump_head_eq id p c n Hc Hp) as Eh. rewrite Hr in Eh.
  pose proof (Flush_counts c) as [Hi Hm]. destruct (Client.Flush c) as [c1 err]. cbn in Hi, Hm.
  callST ltac:(exact Eh). destruct err as [e|]; [by exists (Leaves (Some e)), c1|].
  unfold pump_case. callST ltac:(exact (get_client_eq id c1 _ (has_with_client n id c1))).
  rewrite <- Hi, <- Hm. clear Hi Hm Hr Eh.
  destruct ev as [| | | | |now rnd|now rnd|].
  - by exists Disabled, c1.
  - destruct (Client.ReadyStateChan c1); [|by exists Disabled, c1]. eexists _, (Client.set_ReadyStateChan false c1). split; [|done].
    callST ltac:(exact (put_client_eq n id c1 _)). reflexivity.
  - cbn. destruct (p_subEvent p); [|by exists Disabled, c1]. destruct (Client.SubEventChan c1) as [l|]; [|by exists Disabled, c1].
    eexists _, _. split; [callST ltac:(exact (put_client_eq n id c1 _)); reflexivity|done].
  - cbn. destruct (p_identifyEvent p); [|by exists Disabled, c1]. destruct (Client.IdentifyEventChan c1) as [ie|]; [|by exists Disabled, c1].
    eexists _, _. split; [callST ltac:(exact (put_client_eq n id c1 _)); reflexivity|done].
  - cbn. destruct (p_heartbeat p); [|by exists Disabled, c1]. cbn [negb].
    destruct (send_frame_counts frameTypeResponse heartbeatBytes c1) as [Hi Hm].
    exists (match (send_frame frameTypeResponse heartbeatBytes c1).2 with Some e => Leaves (Some e) | None => Goes (set_flushed true p) end),
      (send_frame frameTypeResponse heartbeatBytes c1).1. split; [|by rewrite Hi, Hm].
    unfold Send. callST ltac:(exact (run_client_eq id _ c1 _ (has_with_client n id c1))). rewrite with_client_twice.
    destruct (send_frame _ _ c1).2; reflexivity.
  - by exists Disabled, c1.
  - by exists Disabled, c1.
  - destruct (Client.ExitChan c1); by eexists _, c1.
Qed.

(** C4: The pump of a ready client sends the first message in the memory of
    its channel: the message leaves the memory and is in flight, owned by the
    client and due after the client's message time-out, with one attempt
    more; exactly its encoding is written to the client as a message frame;
    the client counts it as sent and in flight. Nothing else in the daemon
    moves. *)
Theorem pump_delivers id p now rnd n c l (ch : Channel D Q) x xs m :
  daemon_ok n → n.(n_heap).(consumers) !! id = Some c → p.(p_subChannel) = Some l → n.(n_chans) !! l = Some ch →
  ready_for p n c = true → sampled_out p rnd = false →
  ch.(memoryMsgChan) = x :: xs → n.(n_heap).(msgs) !! x = Some m → ch.(inFlightMessages) !! m.(ID) = None →
  ∃ r n' ch' c' m', pump_turn id p (EvMemory now rnd) n = Some (r, n') ∧
    n'.(n_chans) = <[l := ch']> n.(n_chans) ∧ n'.(n_topics) = n.(n_topics) ∧ ch'.(memoryMsgChan) = xs ∧
    ch'.(inFlightMessages) = <[m.(ID) := x]> ch.(inFlightMessages) ∧
    n'.(n_heap).(msgs) !! x = Some m' ∧ m'.(clientID) = id ∧ m'.(pri) = UnixNano (time_add now p.(p_msgTimeout)) ∧
    encode_message m' = encode_message (set_Attempts (u16 (m.(Attempts) + 1)) m) ∧
    n'.(n_heap).(consumers) = <[id := c']> n.(n_heap).(consumers) ∧
    c' = Client.set_cl_out (SendFramedResponse c.(Client.cl_out) frameTypeMessage (encode_message m')).1 (Client.SendingMessage c) ∧
    r = match (SendFramedResponse c.(Client.cl_out) frameTypeMessage (encode_message m')).2.2 with
        | Some e => Leaves (Some e) | None => Goes (set_flushed false p) end.
Proof.
  intros Hn Hc Hl Hch Hr Hsam Hmem Hm Hnone.
  destruct (take_memory_exact (n.(n_heap), ch) id p now rnd x xs m) as (m' & [h' ch'] & E & Ec & Hmem' & (Hx & Hm' & Hid) & Hpri & Hmap & Henc);
    [by apply (wk_chan _ _ _ (dm_world _ _ _ Hn) l)|done..|].
  cbn [fst snd] in *.
  set (n1 := put_channel n l (h', ch')). set (c1 := Client.SendingMessage c).
  assert (Hc1 : has id c n1) by (unfold has; cbn; by rewrite Ec).
  set (w := SendFramedResponse c.(Client.cl_out) frameTypeMessage (encode_message m')).
  set (c2 := Client.set_cl_out w.1 c1). set (n2 := with_client n1 id c2).
  exists (match w.2.2 with Some e => Leaves (Some e) | None => Goes (set_flushed false p) end), n2, ch', c2, m'.
  split; [|split_and!; try done; cbn; by rewrite Ec].
  unfold pump_turn. pose proof (pump_head_eq id p c n Hc) as Eh. rewrite Hr in Eh.
  callST ltac:(apply Eh; intros l' Hl'; rewrite Hl in Hl'; injection Hl' as <-; by eexists).
  unfold pump_case. callST ltac:(exact (get_client_eq id c n Hc)). rewrite Hl.
  assert (Ed : pump_deliver id p (Some (Some m')) n1 = Some (match w.2.2 with Some e => Leaves (Some e) | None => Goes (set_flushed false p) end, n2)).
  { cbn [pump_deliver]. callST ltac:(exact (upd_client_eq id Client.SendingMessage c n1 Hc1)).
    unfold SendMessage, Send. callST ltac:(exact (run_client_eq id _ c1 _ (has_with_client n1 id c1))).
    rewrite with_client_twice. unfold send_frame. cbn [Client.cl_out]. change (Client.cl_out c1) with (Client.cl_out c). fold w.
    destruct w as [w' [k [e|]]]; reflexivity. }
  destruct (p_flushed p); callST ltac:(exact (on_channel_eq l ch _ n _ _ Hch E)); exact Ed.
Qed.

End protocol.
End ProtocolSpec.
