(* ===== verification/DaemonProps.v ===== *)
(** * No run stops nsqd

    A node is the daemon with the message pumps of its connections and the
    list of the scan loop. Every sequence of steps of its goroutines, whatever
    its peers send, runs to its end and keeps the invariant
    ([daemon_safe]). *)
From stdpp Require Import base gmap list strings.
From Stdlib Require Import ZArith Lia.
From S2P Require Import Prelude.
From S2P Require Import Message.
From S2P Require Import Wire.
From S2P Require Import Heap.
From S2P Require Import Backend.
From S2P Require Import Channel.
From S2P Require Import ChannelProofs.
From S2P Require Import ChannelProps.
From S2P Require Import ChannelFrame.
From S2P Require Import Topic.
From S2P Require Import TopicProofs.
From S2P Require Import TopicProps.
From S2P Require Import Auth.
From S2P Require Import Options.
From S2P Require Import Client.
From S2P Require Import ClientProps.
From S2P Require Import Nsqd.
From S2P Require Import DaemonProofs.
From S2P Require Import Protocol.
From S2P Require Import ProtocolProofs.
Set Default Goal Selector "!".
Local Open Scope Z_scope.

Module DaemonSpec.
Import Channel ChannelP ChannelSpec ChannelF Topic TopicP TopicSpec ClientSpec Nsqd DaemonP Protocol ProtocolP.

(** A process of nsqd: the daemon, the local variables of the pumps of its
    connections, and the cached list of the scan loop while it runs. *)
Record node (W D Q B MB : Type) := mkNode {
  nd : NSQD W D Q B MB;
  pumps : gmap Z pump;
  scan : option (list loc);
}.
Arguments mkNode {W D Q B MB} _ _ _.
Arguments nd {W D Q B MB} _.
Arguments pumps {W D Q B MB} _.
Arguments scan {W D Q B MB} _.

(** Steps: a connection is accepted with what its peer will send, its command
    loop makes a turn or ends, its pump makes a turn; topics are asked for
    and deleted, and make a step ([topic_op]: their pump, the HTTP interface);
    the scan loop; the start and the end of the process. *)
Inductive daemon_op {W : Type} :=
| DConnect (remoteAddr input : bytes) (out : W) (now : time)
| DCommand (id : Z) (r : readings)
| DDisconnect (id : Z)
| DPump (id : Z) (ev : pump_event)
| DGetTopic (name : bytes)
| DDeleteTopic (name : bytes)
| DTopic (l : loc) (o : topic_op)
| DScanStart
| DScan (ev : scan_event)
| DLoad (unmarshal : bytes → option meta) (fs : files)
| DExit (marshal : meta → bytes) (random : bytes) (f : option fault) (rename_fails : option string) (fs : files).
Arguments daemon_op : clear implicits.

Section run.
Context {W D Q B MB : Type}.
Context `{Client.ConnWriter W, !BackendQueue D, !BackendLaws D, QuantileStream Q,
          !BackendQueue B, !BackendLaws B, UnloggedQueue MB}.
Context (opts : Opts.Options) (range : ∀ A : Type, list A → list A).
Context (channel_queue : bytes → D) (topic_queue : bytes → B) (memory_queue : bytes → MB) (e2e : option Q).
Context (lookupdHTTPAddrs : list bytes) (GetLookupdTopicChannels : bytes → list bytes).
Context (compiles : bytes → bool) (match_string : bytes → bytes → bool) (GETV1 : bytes → res string Auth.State) (commonName : bytes).
Context (Quote : bytes → string).
Context (unmarshal_identify : bytes → option Client.identifyDataV2).
Context (marshal_identify : identify_response → res string bytes) (marshal_auth : auth_response → res string bytes).
Context (tlsConfig : bool).

Notation nsqd := (NSQD W D Q B MB).
Notation node := (node W D Q B MB).
Notation client := (Client.clientV2 W).
Notation copts := (Opts.chan_options opts).
Notation DM := (ST node).

Notation the_io_turn := (io_turn opts range channel_queue topic_queue memory_queue e2e lookupdHTTPAddrs GetLookupdTopicChannels
  compiles match_string GETV1 commonName Quote unmarshal_identify marshal_identify marshal_auth tlsConfig).
Notation get_topic := (GetTopic opts range channel_queue topic_queue memory_queue e2e lookupdHTTPAddrs GetLookupdTopicChannels).
Notation load := (LoadMetadata opts range channel_queue topic_queue memory_queue e2e lookupdHTTPAddrs GetLookupdTopicChannels).

Definition set_nd (n : nsqd) (s : node) : node := mkNode n s.(pumps) s.(scan).
Definition set_pumps (ps : gmap Z pump) (s : node) : node := mkNode s.(nd) ps s.(scan).
Definition set_scan (x : option (list loc)) (s : node) : node := mkNode s.(nd) s.(pumps) x.

Definition on_nd {A} (m : ST nsqd A) : DM A :=
  s ← getST;
  '(a, n) ← liftST (m s.(nd));
  _ ← modST (set_nd n);
  mret a.

Definition has_client (id : Z) : DM bool := s ← getST; mret (bool_decide (is_Some (s.(nd).(n_heap).(consumers) !! id))).
Definition has_topic (l : loc) : DM bool := s ← getST; mret (bool_decide (is_Some (s.(nd).(n_topics) !! l))).

Definition dexec (o : daemon_op W) : DM () :=
  match o with
  | DConnect remoteAddr input out now =>
    '(id, p) ← on_nd (io_start opts remoteAddr input out now);
    modST (λ s, set_pumps (<[id := p]> s.(pumps)) s)
  | DCommand id r =>
    k ← has_client id;
    if k : bool then _ ← on_nd (the_io_turn r id); mret () else mret ()
  | DDisconnect id =>
    k ← has_client id;
    if k : bool then on_nd (io_finish id) else mret ()
  | DPump id ev =>
    s ← getST;
    match s.(pumps) !! id with
    | None => mret ()
    | Some p =>
      r ← on_nd (pump_turn id p ev);
      match r with
      | Disabled => mret ()
      | Goes p => modST (λ s, set_pumps (<[id := p]> s.(pumps)) s)
      | Leaves _ => modST (λ s, set_pumps (delete id s.(pumps)) s)
      end
    end
  | DGetTopic name => _ ← on_nd (get_topic name); mret ()
  | DDeleteTopic name => _ ← on_nd (DeleteExistingTopic opts range name); mret ()
  | DTopic l o =>
    k ← has_topic l;
    if k : bool then on_nd (on_topic l (texec copts range channel_queue e2e o)) else mret ()
  | DScanStart =>
    s ← getST;
    match s.(scan) with
    | Some _ => mret ()
    | None => cs ← on_nd (queueScanLoop_start opts range); modST (set_scan (Some cs))
    end
  | DScan ev =>
    s ← getST;
    match s.(scan) with
    | None => mret ()
    | Some cs => r ← on_nd (queueScanLoop_turn opts range cs ev); modST (set_scan (fst <$> r))
    end
  | DLoad unmarshal fs => _ ← on_nd (load unmarshal fs); mret ()
  | DExit marshal random f rename_fails fs => _ ← on_nd (Exit opts range marshal random f rename_fails fs); mret ()
  end.

Fixpoint dexec_all (os : list (daemon_op W)) : DM () :=
  match os with
  | [] => mret ()
  | o :: os => _ ← dexec o; dexec_all os
  end.

Definition new_node : node := mkNode newNSQD ∅ None.

(** Published messages fit the record of a message; peers may send anything. *)
Definition daemon_op_ok (o : daemon_op W) : Prop := match o with DTopic _ o => topic_op_ok o | _ => True end.

(** The steps that run [putMemoryToFile] on a message. *)
Definition writes_memory (o : daemon_op W) : bool :=
  match o with DDeleteTopic _ | DExit _ _ _ _ _ | DTopic _ TToFile => true | _ => false end.

(** ** The invariant *)

Record node_ok (s : node) : Prop := {
  nk_daemon : daemon_ok opts compiles s.(nd);
  nk_pump : ∀ id p, s.(pumps) !! id = Some p → known id s.(nd) ∧ pump_ok s.(nd) p;
  nk_scan : ∀ cs, s.(scan) = Some cs → all_in s.(nd) cs;
  nk_pool : 0 <= s.(nd).(poolSize);
}.

Lemma node_ok_later s n : node_ok s → daemon_ok opts compiles n → later s.(nd) n → node_ok (set_nd n s).
Proof.
  intros [K P S O] Hn L. split; cbn; [done| | |by apply (lt_pool _ _ L)].
  - intros id p Hp. destruct (P id p Hp). split; [by eapply known_later|by eapply pump_ok_later].
  - intros cs Hcs. eapply all_in_later; [done|by apply S].
Qed.

Lemma node_ok_pumps s ps : node_ok s → (∀ id p, ps !! id = Some p → known id s.(nd) ∧ pump_ok s.(nd) p) → node_ok (set_pumps ps s).
Proof. by intros [K P S O] Hp; split. Qed.

Lemma node_ok_scan s x : node_ok s → (∀ cs, x = Some cs → all_in s.(nd) cs) → node_ok (set_scan x s).
Proof. by intros [K P S O] Hp; split. Qed.

(** A program of the daemon that is [safe] runs in a node. *)
Lemma on_nd_ok {A} (m : ST nsqd A) s R : node_ok s → safe opts compiles m s.(nd) R →
  ∃ a n, on_nd m s = Some (a, set_nd n s) ∧ node_ok (set_nd n s) ∧ R a n.
Proof.
  intros Hs (a & n & E & K & L & HR). exists a, n. split_and!; [|by apply node_ok_later|done].
  unfold on_nd, mbind, ST_bind, getST, liftST. by rewrite E.
Qed.

(** ** Every step *)

Section safety.
Hypothesis range_perm : ∀ A (l : list A), range A l ≡ₚ l.
(** The disk queues send no message longer than an [int32] can say. *)
Hypothesis recv_small : ∀ (b b' : D) d, bq_Recv b = Some (d, b') → Z.of_nat (length d) < 2 ^ 31.
Hypothesis t_recv_small : ∀ (b b' : B) d, bq_Recv b = Some (d, b') → Z.of_nat (length d) < 2 ^ 31.
Hypothesis oo : options_ok opts.

(** A step of which the result does not matter. *)
Lemma on_nd_unit {A} (m : ST nsqd A) s R : node_ok s → safe opts compiles m s.(nd) R →
  ∃ s', (_ ← on_nd m; mret ()) s = Some ((), s') ∧ node_ok s'.
Proof.
  intros Hs Hm. destruct (on_nd_ok m s R Hs Hm) as (a & n & E & K & _). eexists. split; [|exact K]. by callST ltac:(exact E).
Qed.

Lemma on_nd_tail (m : ST nsqd ()) s R : node_ok s → safe opts compiles m s.(nd) R →
  ∃ s', on_nd m s = Some ((), s') ∧ node_ok s'.
Proof. intros Hs Hm. destruct (on_nd_ok m s R Hs Hm) as ([] & n & E & K & _). by eexists. Qed.

Lemma safe_texec l o (n : nsqd) : daemon_ok opts compiles n → topic_in n l → topic_op_ok o →
  (o = TToFile → ∀ d (b : MB), is_Some (uq_Put d b)) →
  safe opts compiles (on_topic l (texec copts range channel_queue e2e o)) n (λ _ n', quiet n n').
Proof.
  intros Hn Hl Ho Hf. apply safe_topic; [done..|]. intros F h cs t T.
  destruct (texec_ok copts range range_perm recv_small t_recv_small F channel_queue e2e _ o T Ho Hf) as (s' & E & T').
  by exists (), s'.
Qed.

Lemma dexec_ok (s : node) (o : daemon_op W) : node_ok s → daemon_op_ok o → (writes_memory o = true → ∀ d (b : MB), is_Some (uq_Put d b)) →
  ∃ s', dexec o s = Some ((), s') ∧ node_ok s'.
Proof.
  intros Hs Ho Hf. pose proof (nk_daemon _ Hs) as Hn.
  destruct o as [ra input out now|id r|id|id ev|nm|nm|l o| |ev|unm fs|marshal rnd f rf fs]; cbn [dexec].
  - destruct (on_nd_ok (io_start opts ra input out now) s (λ r n', known r.1 n' ∧ pump_ok n' r.2)) as ([id p] & n & E & K & Hk & Hp); [done|by eapply safe_io_start|].
    callST ltac:(exact E). eexists. split; [reflexivity|]. apply node_ok_pumps; [done|].
    intros k q. rewrite lookup_insert_Some. intros [[<- <-]|[_ Hq]]; [done|]. by apply (nk_pump _ K).
  - callST ltac:(reflexivity). case_bool_decide as Hk; [|by exists s].
    eapply on_nd_unit; [done|by eapply safe_io_turn].
  - callST ltac:(reflexivity). case_bool_decide as Hk; [|by exists s].
    eapply on_nd_tail; [done|by eapply safe_io_finish].
  - callST ltac:(reflexivity). destruct (pumps s !! id) as [p|] eqn:Ep; [|by exists s].
    destruct (nk_pump _ Hs id p Ep) as [Hk Hp].
    destruct (on_nd_ok (pump_turn id p ev) s (λ r n', turn_ok n' r)) as (r & n & E & K & Hr); [done|by eapply safe_pump_turn|].
    callST ltac:(exact E). destruct (nk_pump _ K id p Ep) as [Hk' _].
    destruct r as [|p'|err]; [by eexists| |]; (eexists; split; [reflexivity|]; apply node_ok_pumps; [done|]); intros k q.
    + rewrite lookup_insert_Some. intros [[<- <-]|[_ Hq]]; [done|]. by apply (nk_pump _ K).
    + intros [_ Hq]%lookup_delete_Some. by apply (nk_pump _ K).
  - eapply on_nd_unit; [done|by eapply safe_GetTopic].
  - eapply on_nd_unit; [done|]. eapply safe_DeleteExistingTopic; try done. by apply Hf.
  - callST ltac:(reflexivity). case_bool_decide as Hk; [|by exists s].
    eapply on_nd_tail; [done|]. apply safe_texec; [done..|]. intros ->. by apply Hf.
  - callST ltac:(reflexivity). destruct (scan s) as [cs|] eqn:Ec; [by exists s|].
    destruct (on_nd_ok (queueScanLoop_start opts range) s (λ cs n', all_in n' cs)) as (cs & n & E & K & Hcs); [done| |].
    { unfold queueScanLoop_start. destruct oo as [_ _ _ _ _ O1 O2 O3 O4].
      rewrite (proj2 (Z.ltb_ge _ _) O3), (proj2 (Z.leb_gt _ _) O1), (proj2 (Z.leb_gt _ _) O2). cbn.
      eapply safe_weaken; [eapply safe_refresh; [done|done|by apply (nk_pool _ Hs)|done]|]. by intros cs n _ _ [_ ?]. }
    callST ltac:(exact E). eexists. split; [reflexivity|]. apply node_ok_scan; [done|]. by intros cs' [= <-].
  - callST ltac:(reflexivity). destruct (scan s) as [cs|] eqn:Ec; [|by exists s].
    destruct (on_nd_ok (queueScanLoop_turn opts range cs ev) s
      (λ r n', quiet s.(nd) n' ∧ match r with Some (cs', _) => all_in n' cs' | None => True end)) as (r & n & E & K & _ & Hr); [done| |].
    { eapply safe_queueScanLoop_turn; [done|apply oo|by apply (nk_pool _ Hs)|done|by apply (nk_scan _ Hs)]. }
    callST ltac:(exact E). eexists. split; [reflexivity|]. apply node_ok_scan; [done|].
    intros cs'. destruct r as [[cs1 b]|]; [|done]. by intros [= <-].
  - eapply on_nd_unit; [done|by eapply safe_LoadMetadata].
  - eapply on_nd_unit; [done|]. eapply safe_Exit; try done. by apply Hf.
Qed.

Lemma dexec_all_ok (os : list (daemon_op W)) : ∀ s, node_ok s → Forall daemon_op_ok os →
  (Exists (λ o, writes_memory o = true) os → ∀ d (b : MB), is_Some (uq_Put d b)) →
  ∃ s', dexec_all os s = Some ((), s') ∧ node_ok s'.
Proof.
  induction os as [|o os IH]; intros s Hs Hos Hf; cbn [dexec_all]; [by exists s|]. apply Forall_cons in Hos as [Ho Hos].
  destruct (dexec_ok s o Hs Ho) as (s1 & E1 & Hs1). { intros Hw. apply Hf. by left. }
  callST ltac:(exact E1). apply IH; [done|done|]. intros Hw. apply Hf. by right.
Qed.

Lemma new_node_ok : node_ok new_node.
Proof. split; [apply newNSQD_ok|done..]. Qed.


End safety.

End run.
End DaemonSpec.
