(* ===== verification/DaemonDemo.v ===== *)
(** * nsqd at work

    A run of the daemon over list backends and sockets in memory: one client
    subscribes, another publishes, the message is sent, finished, and the
    clients leave. *)
From stdpp Require Import base gmap list strings.
From Stdlib Require Import ZArith Lia.
From S2P Require Import Prelude.
From S2P Require Import Message.
From S2P Require Import Guid.
From S2P Require Import InFlightPQ.
From S2P Require Import PQueue.
From S2P Require Import Wire.
From S2P Require Import Backend.
From S2P Require Import Channel.
From S2P Require Import ChannelDemo.
From S2P Require Import Topic.
From S2P Require Import TopicProps.
From S2P Require Import Options.
From S2P Require Import Auth.
From S2P Require Import Client.
From S2P Require Import ClientProps.
From S2P Require Import Nsqd.
From S2P Require Import DaemonProofs.
From S2P Require Import MetadataProps.
From S2P Require Import Protocol.
From S2P Require Import ProtocolProofs.
From S2P Require Import ProtocolProps.
From S2P Require Import DaemonProps.
Set Default Goal Selector "!".
Local Open Scope Z_scope.

Module DaemonDemo.
Import ListBackend ChannelDemo Topic TopicSpec ClientSpec Nsqd DaemonP Protocol ProtocolP ProtocolSpec DaemonSpec Metadata.

(** A socket with its buffered writer: what was flushed through which layers,
    and what was not. *)
Record sock := mkSock { layers : list Client.upgrade; flushed : list (list Client.upgrade * bytes); buffered : bytes }.

#[export] Instance sock_writer : Writer sock := λ w p,
  (mkSock w.(layers) w.(flushed) (w.(buffered) ++ p), (Z.of_nat (length p), None)).

Definition flush_sock (w : sock) : sock :=
  if bool_decide (w.(buffered) = []) then w else mkSock w.(layers) (w.(flushed) ++ [(w.(layers), w.(buffered))]) [].

#[export] Instance sock_conn : Client.ConnWriter sock := {|
  Client.cw_Flush w := (flush_sock w, None);
  Client.cw_FlushDeflate w := (w, None);
  Client.cw_NewWriterConn _ w := mkSock [] w.(flushed) [];
  Client.cw_upgrade u _ input w := ((input, mkSock (w.(layers) ++ [u]) w.(flushed) []), None);
|}.

#[export] Instance list_unlogged : UnloggedQueue list_queue := {| uq_Put d b := Some (bq_Put d b) |}.

Definition opts : Opts.Options := Opts.NewOptions (bytes_of_string "host") 1.

Lemma opts_ok : options_ok opts.
Proof. split; [split|..]; by vm_compute. Qed.

(** The same with TLS required. *)
Definition tls_opts : Opts.Options :=
  let 'Opts.mkOptions a0 a1 a2 a3 a4 a5 a6 a7 a8 a9 a10 a11 a12 a13 a14 a15 a16 a17 a18 a19 a20 a21 a22 a23 a24 a25 a26 a27 a28 a29 a30 a31 a32 a33 a34 a35 a36 a37 a38 a39 a40 a41 a42 a43 a44 a45 a46 a47 a48 a49 := opts in
  Opts.mkOptions a0 a1 a2 a3 a4 a5 a6 a7 a8 a9 a10 a11 a12 a13 a14 a15 a16 a17 a18 a19 a20 a21 a22 a23 a24 a25 a26 a27 a28 a29 a30 a31 a32 a33 a34 a35 a36 a37 a38 a39 a40 a41 a42 a43 a44 Opts.TLSRequired_ a46 a47 a48 a49.

Lemma tls_opts_ok : options_ok tls_opts.
Proof. split; [split|..]; by vm_compute. Qed.

Definition range (A : Type) (l : list A) : list A := l.
Definition empty_queue (_ : bytes) : list_queue := mkListQueue [].

Definition Quote (b : bytes) : string := string_of_bytes b.

Notation run_with opts := (dexec_all opts range empty_queue empty_queue empty_queue (None : option (list Z)) [] (λ _, [])
  (λ _, true) (λ _ _, true) (λ _, Err "no server"%string) [] Quote
  (λ _, None) (λ _, Err "json"%string) (λ _, Err "json"%string) false).

Notation run := (run_with opts).

Definition readings_at (t : Z) : readings := mkReadings (λ _, t) (λ _, [t]) 2.
Definition now0 : time := 1600000000 * Second.

Definition size32 (n : Z) : bytes := be_encode 4 n.

(** What the clients send: the identifier of the message is known. *)
Definition publisher : bytes := bytes_of_string "PUB t" ++ [byte_of_Z 10] ++ size32 5 ++ bytes_of_string "hello".
Definition consumer (mid : bytes) : bytes :=
  bytes_of_string "SUB t c" ++ [byte_of_Z 10] ++ bytes_of_string "RDY 1" ++ [byte_of_Z 10] ++
  bytes_of_string "FIN " ++ mid ++ [byte_of_Z 10].

Definition steps (mid : bytes) : list (daemon_op sock) := [
  DScanStart;
  DConnect (bytes_of_string "10.0.0.1:1000") (consumer mid) (mkSock [] [] []) now0;
  DCommand 1 (readings_at now0);
  DPump 1 EvSub;
  DCommand 1 (readings_at now0);
  DConnect (bytes_of_string "10.0.0.2:1000") publisher (mkSock [] [] []) now0;
  DCommand 2 (readings_at now0);
  DTopic 0 TPumpStart;
  DTopic 0 (TPumpMemory (λ _, now0));
  DPump 1 (EvMemory now0 0);
  DScan ScanRefresh;
  DScan (ScanWork [(now0, λ _, 0%nat)]);
  DPump 1 EvFlush;
  DCommand 1 (readings_at now0);
  DDisconnect 2;
  DDisconnect 1 ].

Definition mid : bytes := bytes_of_string "0dcc3ad6ce801000".

(** What a client was sent, and how many messages it finished. *)
Definition outcome (s : node sock list_queue (list Z) list_queue list_queue) (id : Z) : option (bytes * Z) :=
  c ← s.(nd).(n_heap).(Channel.consumers) !! id;
  Some (mjoin (snd <$> c.(Client.cl_out).(flushed)), c.(Client.FinishCount)).

Definition expected : bytes :=
  Wire.frame_bytes (frameTypeResponse, okBytes) ++
  Wire.frame_bytes (frameTypeMessage, encode_message (set_Attempts 1 (NewMessage now0 mid (bytes_of_string "hello")))).

Lemma steps_small : Forall daemon_op_ok (steps mid).
Proof. repeat constructor. Qed.

Lemma steps_memory : Exists (λ o, writes_memory o = true) (steps mid) → ∀ d (b : list_queue), is_Some (uq_Put d b).
Proof. intros _ d b. by eexists. Qed.


(** One IDENTIFY that is accepted, one that asks for too much. *)
Definition identify1 : Client.identifyDataV2 :=
  Client.mkIdentifyData [] [] 2000 128 100 true false false 0 false 50 [] 5000.
Definition identify2 : Client.identifyDataV2 :=
  Client.mkIdentifyData [] [] 3600000 128 100 true false false 0 false 50 [] 5000.

Definition client0 : Client.clientV2 sock := Client.newClientV2 opts 1 [] [] (mkSock [] [] []) now0.
Definition identified : Client.clientV2 sock := foldl (λ c d, (Client.Identify opts d c).1) client0 [identify1; identify2].

Lemma settings_typed_witness :
  settings_ok opts identified ∧ identified.(Client.HeartbeatInterval) = 2 * Second ∧ identified.(Client.SampleRate) = 50 ∧
  (Client.Identify opts identify2 identified).2 ≠ None.
Proof.
  split; [|split_and!; by vm_compute]. unfold identified, client0.
  apply (settings_typed opts); split; by vm_compute.
Defined.

(** ** Commands *)

(** A state that a run reaches. *)
Definition reach (o : Opts.Options) (os : list (daemon_op sock)) : node sock list_queue (list Z) list_queue list_queue :=
  default new_node (snd <$> run_with o os new_node).

Lemma reach_ok o os : options_ok o → Forall daemon_op_ok os → node_ok o (λ _, true) (reach o os).
Proof.
  intros Ho Hos.
  destruct (dexec_all_ok o range empty_queue empty_queue empty_queue (None : option (list Z)) [] (λ _, [])
    (λ _, true) (λ _ _, true) (λ _, Err "no server"%string) [] Quote
    (λ _, None) (λ _, Err "json"%string) (λ _, Err "json"%string) false (λ _ _, reflexivity _) list_recv_small list_recv_small Ho
    os new_node (new_node_ok _ _) Hos (λ _ d b, ltac:(by eexists))) as (s & E & Hs).
  unfold reach. by rewrite E.
Qed.

Notation exec_with o := (Exec o range empty_queue empty_queue empty_queue (None : option (list Z)) [] (λ _, [])
  (λ _, true) (λ _ _, true) (λ _, Err "no server"%string) [] Quote
  (λ _, None) (λ _, Err "json"%string) (λ _, Err "json"%string) false).
Notation pub_with o := (PUB o range empty_queue empty_queue empty_queue (None : option (list Z)) [] (λ _, [])
  (λ _, true) (λ _ _, true) (λ _, Err "no server"%string) [] Quote).

Definition connect (input : bytes) : daemon_op sock := DConnect (bytes_of_string "10.0.0.1:1000") input (mkSock [] [] []) now0.

Definition client_of (s : node sock list_queue (list Z) list_queue list_queue) (id : Z) : Client.clientV2 sock :=
  default client0 (s.(nd).(n_heap).(Channel.consumers) !! id).

(** A client that did not upgrade publishes. *)
Definition insecure := reach tls_opts [connect (size32 5 ++ bytes_of_string "hello")].

Lemma insecure_ok : node_ok tls_opts (λ _, true) insecure.
Proof. apply reach_ok; [exact tls_opts_ok|by repeat constructor]. Qed.


(** A topic with a consumer, and a publisher that sent a message. *)
Definition publishing := reach opts (take 5 (steps mid) ++ [connect (size32 5 ++ bytes_of_string "hello")]).

Definition topic_of (s : node sock list_queue (list Z) list_queue list_queue) : Topic.Topic list_queue list_queue :=
  default (NewTopic empty_queue empty_queue 0 [] (empty_heap (W := sock)) (∅ : gmap nat (Channel.Channel list_queue (list Z)))).2
    (s.(nd).(n_topics) !! 0%nat).

Lemma publishing_ok : node_ok opts (λ _, true) publishing.
Proof. apply reach_ok; [exact opts_ok|by repeat constructor]. Qed.


(** A message waits in the memory of the channel of a ready client. *)
Definition delivering := reach opts (take 9 (steps mid)).

Lemma delivering_ok : node_ok opts (λ _, true) delivering.
Proof. apply reach_ok; [exact opts_ok|by repeat constructor]. Qed.

Definition pump1 (s : node sock list_queue (list Z) list_queue list_queue) : pump :=
  default (mkPump None true true true true true 0 0) (s.(pumps) !! 1).
Definition chan_of (s : node sock list_queue (list Z) list_queue list_queue) : Channel.Channel list_queue (list Z) :=
  default (Channel.mkChannel 0 0 0 [] [] (Dummy newDummyBackendQueue) [] false ∅ false false false None ∅ (PQ.New 0) ∅ (IFPQ.newInFlightPqueue 0))
    (s.(nd).(n_chans) !! 1%nat).
Definition waiting (s : node sock list_queue (list Z) list_queue list_queue) : nat := default 0%nat (head (chan_of s).(Channel.memoryMsgChan)).
Definition hello : Message := NewMessage now0 mid (bytes_of_string "hello").

Lemma pump_delivers_witness :
  ∃ r n' ch' c' m', pump_turn 1 (pump1 delivering) (EvMemory now0 0) delivering.(nd) = Some (r, n') ∧
    n'.(n_chans) = <[1%nat := ch']> delivering.(nd).(n_chans) ∧ ch'.(Channel.memoryMsgChan) = [] ∧
    encode_message m' = encode_message (set_Attempts 1 hello) ∧
    n'.(n_heap).(Channel.consumers) = <[1 := c']> delivering.(nd).(n_heap).(Channel.consumers) ∧
    c'.(Client.InFlightCount) = 1.
Proof.
  destruct (pump_delivers opts (λ _, true) 1 (pump1 delivering) now0 0 delivering.(nd) (client_of delivering 1) 1%nat (chan_of delivering)
    (waiting delivering) [] hello) as (r & n' & ch' & c' & m' & E & Hch & _ & Hmem & _ & _ & _ & _ & He & Hcons & Hc & _).
  - apply (nk_daemon _ _ _ delivering_ok).
  - by vm_compute.
  - by vm_compute.
  - by vm_compute.
  - by vm_compute.
  - by vm_compute.
  - by vm_compute.
  - by vm_compute.
  - by vm_compute.
  - exists r, n', ch', c', m'. split; [exact E|]. split; [exact Hch|]. split; [exact Hmem|]. split; [exact He|]. split; [exact Hcons|].
    rewrite Hc. by vm_compute.
Defined.

(** The same client before its RDY. *)
Definition not_ready := reach opts (take 4 (steps mid)).

Lemma not_ready_ok : node_ok opts (λ _, true) not_ready.
Proof. apply reach_ok; [exact opts_ok|by repeat constructor]. Qed.

Lemma not_ready_takes_nothing_witness :
  (∃ r c', pump_turn 1 (pump1 not_ready) (EvMemory now0 0) not_ready.(nd) = Some (r, with_client not_ready.(nd) 1 c') ∧
    c'.(Client.InFlightCount) = 0) ∧ (pump1 not_ready).(p_subChannel) = Some 1%nat.
Proof.
  split; [|by vm_compute].
  destruct (not_ready_takes_nothing 1 (pump1 not_ready) (EvMemory now0 0) not_ready.(nd) (client_of not_ready 1)) as (r & c' & E & Hi & _).
  - by vm_compute.
  - apply (nk_pump _ _ _ not_ready_ok 1). by vm_compute.
  - by vm_compute.
  - exists r, c'. split; [exact E|]. rewrite Hi. by vm_compute.
Defined.

(** ** Metadata *)

(** The topic with its consumer, paused; and what is persisted of it. *)
Definition paused_nsqd : NSQD sock list_queue (list Z) list_queue list_queue :=
  default publishing.(nd) (snd <$> on_topic 0%nat t_Pause publishing.(nd)).
Definition persisted : meta := [mkMetaTopic (bytes_of_string "t") true [mkMetaChannel (bytes_of_string "c") false]].
Definition json : bytes := bytes_of_string "{topics:t,channels:c}".
Definition marshal (_ : meta) : bytes := json.
Definition unmarshal (b : bytes) : option meta := if bool_decide (b = json) then Some persisted else None.

Lemma persisted_ok : metadata range paused_nsqd = Some persisted.
Proof. by vm_compute. Qed.

Definition old_files : files := {[newMetadataFile opts := bytes_of_string "old"]}.
Definition torn : files := <[newMetadataFile opts ++ bytes_of_string ".1.tmp" := bytes_of_string "{to"]> old_files.

Lemma torn_ok : PersistMetadata opts range marshal (bytes_of_string "1") (Some (FWrite 3 "disk full")) None paused_nsqd old_files =
  Some (torn, Some "disk full"%string).
Proof. unfold PersistMetadata. rewrite persisted_ok. by cbn [mbind option_bind writeSyncFile]. Qed.

Lemma metadata_atomic_witness :
  torn !! newMetadataFile opts = old_files !! newMetadataFile opts ∨ torn !! newMetadataFile opts = Some (marshal persisted).
Proof.
  exact (proj1 (metadata_atomic opts range marshal (bytes_of_string "1") (Some (FWrite 3 "disk full")) None paused_nsqd
    old_files persisted torn (Some "disk full"%string) persisted_ok torn_ok)).
Defined.

Lemma metadata_restart_witness :
  ∃ fs' n' js', LoadMetadata opts range empty_queue empty_queue empty_queue (None : option (list Z)) [] (λ _, []) unmarshal fs'
      (newNSQD : NSQD sock list_queue (list Z) list_queue list_queue) = Some (None, n') ∧
    metadata range n' = Some js' ∧ meta_view js' = {[bytes_of_string "t" := (true, {[bytes_of_string "c" := false]})]}.
Proof.
  destruct (metadata_restart opts (λ _, true) range (λ _ _, reflexivity _) list_recv_small empty_queue empty_queue empty_queue
    (None : option (list Z)) [] (λ _, []) marshal unmarshal (bytes_of_string "1") paused_nsqd ∅ persisted)
    as (fs' & n' & js' & _ & E & _ & _ & Hm & Hv).
  - by vm_compute.
  - repeat constructor; apply (bool_decide_unpack _); by vm_compute.
  - by vm_compute.
  - exists fs', n', js'. split; [exact E|]. split; [exact Hm|]. by rewrite Hv.
Defined.

End DaemonDemo.
