(* ===== verification/Order.v ===== *)
(** * Ordering by name

    Go compares strings byte by byte; [sort.Sort] on a slice by a key of its
    elements. *)
From stdpp Require Import base gmap list strings sorting.
From Stdlib Require Import ZArith Lia.
From S2P Require Import Prelude.
Set Default Goal Selector "!".
Local Open Scope Z_scope.

Module Order.

Fixpoint bytes_leb (a b : bytes) : bool :=
  match a, b with
  | [], _ => true
  | _, [] => false
  | x :: a, y :: b => (Z_of_byte x <? Z_of_byte y) || ((Z_of_byte x =? Z_of_byte y) && bytes_leb a b)
  end.
Definition bytes_le (a b : bytes) : Prop := bytes_leb a b = true.

#[export] Instance bytes_le_dec : RelDecision bytes_le.
Proof. intros a b. unfold bytes_le. apply _. Defined.

#[export] Instance bytes_le_trans : Transitive bytes_le.
Proof.
  unfold bytes_le. intros a. induction a as [|x a IH]; intros [|y b] [|z c]; cbn; try done.
  rewrite !orb_true_iff, !andb_true_iff, !Z.ltb_lt, !Z.eqb_eq. intros [?|[? ?]] [?|[? ?]]; [left; lia..|].
  right. split; [lia|by eapply IH].
Qed.

#[export] Instance bytes_le_total : Total bytes_le.
Proof.
  unfold bytes_le. intros a. induction a as [|x a IH]; intros [|y b]; cbn; [by left|by left|by right|].
  rewrite !orb_true_iff, !andb_true_iff, !Z.ltb_lt, !Z.eqb_eq. destruct (Z.lt_trichotomy (Z_of_byte x) (Z_of_byte y)) as [?|[?|?]].
  - by left; left.
  - destruct (IH b); [left; right|right; right]; (split; [lia|done]).
  - by right; left.
Qed.

#[export] Instance bytes_le_antisymm : AntiSymm (=) bytes_le.
Proof.
  unfold bytes_le. intros a. induction a as [|x a IH]; intros [|y b]; cbn; try done.
  rewrite !orb_true_iff, !andb_true_iff, !Z.ltb_lt, !Z.eqb_eq. intros [?|[E ?]] [?|[? ?]]; try lia.
  f_equal; [|by apply IH]. rewrite <- (byte_of_Z_of_byte x), <- (byte_of_Z_of_byte y). congruence.
Qed.

Section sort.
Context {A : Type} (key : A → bytes).

Definition key_le (a b : A) : Prop := bytes_le (key a) (key b).
#[local] Instance key_le_dec a b : Decision (key_le a b).
Proof. unfold key_le. apply _. Defined.
#[local] Instance key_le_trans : Transitive key_le.
Proof. intros a b c. unfold key_le. apply bytes_le_trans. Qed.
#[local] Instance key_le_total : Total key_le.
Proof. intros a b. unfold key_le. apply bytes_le_total. Qed.

(** [sort.Sort] by [key]. *)
Definition sort_by (l : list A) : list A := merge_sort key_le l.

Lemma sort_by_perm l : sort_by l ≡ₚ l.
Proof. apply merge_sort_Permutation. Qed.

Lemma sort_by_sorted l : Sorted bytes_le (key <$> sort_by l).
Proof.
  assert (Hs : Sorted key_le (sort_by l)) by (apply Sorted_merge_sort, _).
  induction Hs as [|a l' _ IH Hd]; cbn; constructor; [done|]. destruct Hd; by constructor.
Qed.

(** Sorting by a key that tells the elements apart does not depend on the
    order they came in. *)
Lemma sort_by_unique l l' : l ≡ₚ l' → NoDup (key <$> l) → sort_by l = sort_by l'.
Proof.
  intros Hp Hn.
  assert (Hpp : sort_by l ≡ₚ sort_by l') by (by rewrite !sort_by_perm).
  assert (Hk : key <$> sort_by l = key <$> sort_by l').
  { apply (Sorted_unique bytes_le); [apply sort_by_sorted..|by rewrite Hpp]. }
  assert (Hn' : NoDup (key <$> sort_by l)) by (by rewrite sort_by_perm).
  revert Hpp Hk Hn'. generalize (sort_by l) (sort_by l'). clear.
  intros l1. induction l1 as [|a l1 IH]; intros [|b l2] Hp Hk Hn; try done.
  rewrite !fmap_cons in Hk. rewrite fmap_cons in Hn. injection Hk as Hab Hk0. assert (Hk : key <$> l1 = key <$> l2) by exact Hk0. clear Hk0. assert (a = b) as ->.
  { assert (Ha : a ∈ b :: l2) by (rewrite <- Hp; by left). apply elem_of_cons in Ha as [->|Ha]; [done|].
    apply NoDup_cons in Hn as [Hn _]. destruct Hn. rewrite Hk. by apply list_elem_of_fmap_2. }
  f_equal. apply IH; [by eapply Permutation_cons_inv|done|]. by apply NoDup_cons in Hn as [_ ?].
Qed.

End sort.

(** ** [sort.Sort]

    Sorting by a [Less] method, of which only what package sort documents is
    known: the result is a permutation, in order when [Less] is a strict weak
    ordering. Equal elements may come in any order. *)
Record weak_order {A : Type} (less : A → A → bool) : Prop := {
  wo_asym : ∀ a b, less a b = true → less b a = false;
  wo_trans : ∀ a b c, less b a = false → less c b = false → less c a = false;
}.

(** [b] does not come before [a]. *)
Definition in_order {A : Type} (less : A → A → bool) (a b : A) : Prop := less b a = false.

Class GoSort := {
  go_sort : ∀ {A : Type}, (A → A → bool) → list A → list A;
  go_sort_perm : ∀ {A : Type} (less : A → A → bool) l, go_sort less l ≡ₚ l;
  go_sort_ordered : ∀ {A : Type} (less : A → A → bool) l, weak_order less → StronglySorted (in_order less) (go_sort less l);
}.

#[export] Instance in_order_dec {A : Type} (less : A → A → bool) : RelDecision (in_order less).
Proof. intros a b. unfold in_order. apply _. Defined.

(** A sort that keeps the order of equal elements. *)
Program Definition merge_GoSort : GoSort := {|
  go_sort A less l := merge_sort (in_order less) l;
|}.
Next Obligation. intros. cbn. apply merge_sort_Permutation. Qed.
Next Obligation.
  intros A less l [Ha Ht]. cbn. apply Sorted_StronglySorted; [exact Ht|]. apply Sorted_merge_sort.
  intros a b. unfold in_order. destruct (less b a) eqn:E; [right; by apply Ha|by left].
Qed.

(** [Less] by a string. *)
Definition bytes_ltb (a b : bytes) : bool := negb (bytes_leb b a).

Lemma bytes_ltb_weak {A : Type} (key : A → bytes) : weak_order (λ a b, bytes_ltb (key a) (key b)).
Proof.
  split; unfold bytes_ltb.
  - intros a b Hab%negb_true_iff. apply negb_false_iff. destruct (bytes_le_total (key a) (key b)) as [?|E]; [done|].
    unfold bytes_le in E. congruence.
  - intros a b c Hab%negb_false_iff Hbc%negb_false_iff. apply negb_false_iff. by apply (bytes_le_trans (key a) (key b) (key c)).
Qed.

Lemma in_order_bytes {A : Type} (key : A → bytes) a b : in_order (λ a b, bytes_ltb (key a) (key b)) a b ↔ bytes_le (key a) (key b).
Proof. unfold in_order, bytes_ltb, bytes_le. by rewrite negb_false_iff. Qed.

(** Sorting strings gives the one sorted list. *)
Lemma go_sort_bytes `{GoSort} l : go_sort bytes_ltb l = sort_by id l.
Proof.
  apply (StronglySorted_unique bytes_le).
  - eapply StronglySorted_impl; [|apply go_sort_ordered, (bytes_ltb_weak id)]. intros a b. apply (in_order_bytes id).
  - apply Sorted_StronglySorted; [apply _|]. rewrite <- (list_fmap_id (sort_by id l)). apply sort_by_sorted.
  - by rewrite go_sort_perm, sort_by_perm.
Qed.

End Order.
