(* ===== verification/Quantile.v ===== *)
(** * Latency quantiles (internal/quantile/quantile.go)

    A quantile keeps two streams of samples and inserts into the current one;
    when half of the window time has passed the streams swap and the new
    current one is emptied. A stream is that of the perks package, of which
    only the interface is known. A float is a rational. [None] is a call that
    never returns. *)
From stdpp Require Import base gmap list strings.
From Stdlib Require Import ZArith QArith Qround Lia.
From S2P Require Import Prelude.
From S2P Require Import Decimal.
Set Default Goal Selector "!".
Local Open Scope Z_scope.

(** [quantile.Stream] of github.com/bmizerany/perks, with its samples. *)
Class Stream (S Sm : Type) := {
  st_NewTargeted : list Q → S;
  st_Insert : Q → S → S;
  st_Samples : S → Sm;
  st_Merge : Sm → S → S;
  st_Query : Q → S → Q;
  st_Count : S → Z;
  st_Reset : S → S;
}.

Module Quantile.

(** [streams], of which [currentStream] is the one at [currentIndex]. *)
Record Quantile (S : Type) := mkQuantile {
  stream0 : S;
  stream1 : S;
  currentIndex : bool;
  lastMoveWindow : time;
  Percentiles : list Q;
  MoveWindowTime : duration;
}.
Arguments mkQuantile {S} _ _ _ _ _ _.
Arguments stream0 {S} _.
Arguments stream1 {S} _.
Arguments currentIndex {S} _.
Arguments lastMoveWindow {S} _.
Arguments Percentiles {S} _.
Arguments MoveWindowTime {S} _.

(** An entry of [Percentiles] of a [Result]: its quantile and its value. *)
Record Result := mkResult { res_Count : Z; res_Percentiles : list (Q * Q) }.

(** [stringy.NanoSecondToHuman] (internal/stringy/template.go). *)
Definition round_even (q : Q) : Z :=
  let f := Qfloor q in
  let r := (q - inject_Z f)%Q in
  if Qle_bool r (1 # 2) then (if Qle_bool (1 # 2) r then (if Z.even f then f else f + 1) else f) else f + 1.

(** [%.1f] *)
Definition fmt_1f (q : Q) : bytes :=
  let z := round_even (10 * q)%Q in
  (if Qle_bool 0 q then [] else [Decimal.minus]) ++ Decimal.digits (Z.abs z / 10) ++ bytes_of_string "." ++ Decimal.digits (Z.abs z `mod` 10).

Definition NanoSecondToHuman (v : Q) : bytes :=
  let above k := negb (Qle_bool v (inject_Z k)) in
  let '(v, suffix) :=
    if above 1000000000 then (v / inject_Z 1000000000, "s"%string)%Q else
    if above 1000000 then (v / inject_Z 1000000, "ms"%string)%Q else
    if above 1000 then (v / inject_Z 1000, "us"%string)%Q else (v, "ns"%string) in
  fmt_1f v ++ bytes_of_string suffix.

(** [strings.Join(s, ", ")] *)
Fixpoint join (sep : bytes) (s : list bytes) : bytes :=
  match s with
  | [] => []
  | [b] => b
  | b :: s => b ++ sep ++ join sep s
  end.

Definition String (r : Result) : bytes := join (bytes_of_string ", ") ((λ p, NanoSecondToHuman p.2) <$> r.(res_Percentiles)).

Section quantile.
Context {S Sm : Type} `{Stream S Sm}.
Notation quantile := (Quantile S).
Implicit Types (q : quantile).

Definition current q : S := if q.(currentIndex) then q.(stream1) else q.(stream0).
Definition previous q : S := if q.(currentIndex) then q.(stream0) else q.(stream1).
Definition upd_current (f : S → S) q : quantile :=
  mkQuantile (if q.(currentIndex) then q.(stream0) else f q.(stream0)) (if q.(currentIndex) then f q.(stream1) else q.(stream1))
    q.(currentIndex) q.(lastMoveWindow) q.(Percentiles) q.(MoveWindowTime).

Definition New (now : time) (WindowTime : duration) (percentiles : list Q) : quantile :=
  mkQuantile (st_NewTargeted percentiles) (st_NewTargeted percentiles) false now percentiles (Z.quot WindowTime 2).

Definition IsDataStale (now : time) q : bool := time_add q.(lastMoveWindow) q.(MoveWindowTime) <? now.

Definition moveWindow q : quantile :=
  upd_current st_Reset
    (mkQuantile q.(stream0) q.(stream1) (negb q.(currentIndex)) (time_add q.(lastMoveWindow) q.(MoveWindowTime))
       q.(Percentiles) q.(MoveWindowTime)).

(** [for q.IsDataStale(now) { q.moveWindow() }] *)
Fixpoint move_windows (fuel : nat) (now : time) q : option quantile :=
  match fuel with
  | O => None
  | Datatypes.S fuel => if IsDataStale now q then move_windows fuel now (moveWindow q) else Some q
  end.

(** How often the window can move until it reaches [now]; with a window that
    does not move the loop never ends. *)
Definition turns (now : time) q : nat :=
  if q.(MoveWindowTime) <=? 0 then 1 else Datatypes.S (Z.to_nat ((now - q.(lastMoveWindow)) / q.(MoveWindowTime))).

Definition catch_up (now : time) q : option quantile := move_windows (turns now q) now q.

(** [now] is read twice, once for the window. *)
Definition Insert (now : time) (msgStartTime : Z) q : option quantile :=
  q ← catch_up now q;
  Some (upd_current (st_Insert (inject_Z (i64 (UnixNano now - msgStartTime)))) q).

Definition QueryHandler (now : time) q : option (S * quantile) :=
  q ← catch_up now q;
  Some (st_Merge (st_Samples q.(stream1)) (st_Merge (st_Samples q.(stream0)) (st_NewTargeted q.(Percentiles))), q).

(** [Result] of a quantile that may be [nil]. *)
Definition get_Result (now : time) (q : option quantile) : option (Result * option quantile) :=
  match q with
  | None => Some (mkResult 0 [], None)
  | Some q =>
    '(s, q) ← QueryHandler now q;
    Some (mkResult (st_Count s) ((λ p, (p, st_Query p s)) <$> q.(Percentiles)), Some q)
  end.

Definition Merge q (them : quantile) : quantile :=
  let q := upd_current (st_Merge (st_Samples (current them))) q in
  mkQuantile (if q.(currentIndex) then st_Merge (st_Samples (previous them)) q.(stream0) else q.(stream0))
    (if q.(currentIndex) then q.(stream1) else st_Merge (st_Samples (previous them)) q.(stream1))
    q.(currentIndex) (if q.(lastMoveWindow) <? them.(lastMoveWindow) then them.(lastMoveWindow) else q.(lastMoveWindow))
    q.(Percentiles) q.(MoveWindowTime).

(** ** The windows *)

(** How many times the window moves until it reaches [now]. *)
Definition moves (now : time) q : nat := Z.to_nat ((now - q.(lastMoveWindow) - 1) / q.(MoveWindowTime)).

Lemma moved_window k q : (Nat.iter k moveWindow q).(lastMoveWindow) = q.(lastMoveWindow) + Z.of_nat k * q.(MoveWindowTime) ∧
  (Nat.iter k moveWindow q).(MoveWindowTime) = q.(MoveWindowTime) ∧ (Nat.iter k moveWindow q).(Percentiles) = q.(Percentiles).
Proof.
  induction k as [|k (IH1 & IH2 & IH3)]; [split_and!; [cbn; lia|done|done]|].
  change (Nat.iter (Datatypes.S k) moveWindow q) with (moveWindow (Nat.iter k moveWindow q)).
  generalize dependent (Nat.iter k moveWindow q). intros q' IH1 IH2 IH3. split_and!; [|exact IH2|exact IH3].
  cbn. rewrite IH1, IH2. unfold time_add. lia.
Qed.

Lemma stale_moves now q : 0 < q.(MoveWindowTime) → IsDataStale now q = bool_decide (moves now q ≠ 0%nat).
Proof.
  intros Hm. unfold IsDataStale, moves, time_add. case_bool_decide as Hb; [apply Z.ltb_lt|apply Z.ltb_ge]; nia.
Qed.

Lemma moves_moveWindow now q : 0 < q.(MoveWindowTime) → moves now (moveWindow q) = (moves now q - 1)%nat.
Proof.
  intros Hm. unfold moves, moveWindow, upd_current. cbn. unfold time_add.
  replace (now - (lastMoveWindow q + MoveWindowTime q) - 1) with (now - lastMoveWindow q - 1 + (-1) * MoveWindowTime q) by lia.
  rewrite Z.div_add by lia. lia.
Qed.

Lemma move_windows_exact fuel now q : 0 < q.(MoveWindowTime) → (moves now q < fuel)%nat →
  move_windows fuel now q = Some (Nat.iter (moves now q) moveWindow q).
Proof.
  revert q. induction fuel as [|fuel IH]; intros q Hm Hf; [lia|]. cbn [move_windows]. rewrite stale_moves by done.
  case_bool_decide as Hk.
  - rewrite IH; [|done|rewrite moves_moveWindow by done; lia]. rewrite moves_moveWindow by done. f_equal.
    destruct (moves now q) as [|k] eqn:E; [by destruct Hk|]. replace (Datatypes.S k - 1)%nat with k by lia. symmetry. apply Nat.iter_succ_r.
  - by rewrite Hk.
Qed.

Lemma catch_up_eq now q : 0 < q.(MoveWindowTime) → catch_up now q = Some (Nat.iter (moves now q) moveWindow q).
Proof.
  intros Hm. unfold catch_up, turns. rewrite (proj2 (Z.leb_gt _ _) Hm). apply move_windows_exact; [done|]. unfold moves. nia.
Qed.

(** When the window has a positive length, catching up with the clock
    ends, and afterwards the current stream is not stale; a stream that is not
    current for a whole window time is emptied, so after two moves nothing
    remains of what was inserted before. When the window has no length - a
    window time of 0 or 1 - and the clock has moved, it never ends. *)
Theorem windows_move now q :
  (0 < q.(MoveWindowTime) → ∃ q', catch_up now q = Some q' ∧ IsDataStale now q' = false ∧
     match moves now q with
     | 0%nat => q' = q
     | 1%nat => current q' = st_Reset (previous q) ∧ previous q' = current q
     | _ => ∃ s0 s1, stream0 q' = st_Reset s0 ∧ stream1 q' = st_Reset s1
     end) ∧
  (q.(MoveWindowTime) <= 0 → IsDataStale now q = true → ∀ fuel, move_windows fuel now q = None).
Proof.
  split.
  - intros Hm. rewrite catch_up_eq by done. eexists. split; [done|]. split.
    + destruct (moved_window (moves now q) q) as (Hl & Hw & _). unfold IsDataStale. rewrite Hl, Hw. apply Z.ltb_ge. unfold time_add, moves. nia.
    + destruct (moves now q) as [|[|k]]; [done| |].
      * cbn. unfold current, previous, moveWindow, upd_current. cbn. by destruct (currentIndex q).
      * change (Nat.iter (Datatypes.S (Datatypes.S k)) moveWindow q) with (moveWindow (moveWindow (Nat.iter k moveWindow q))).
        generalize (Nat.iter k moveWindow q). intros q0. unfold moveWindow, upd_current. cbn.
        destruct (currentIndex q0); cbn; by eexists _, _.
  - intros Hm Hs fuel. revert q Hm Hs. induction fuel as [|fuel IH]; intros q Hm Hs; [done|]. cbn. rewrite Hs. apply IH; [done|].
    revert Hs. unfold IsDataStale, moveWindow, upd_current, time_add. cbn. rewrite !Z.ltb_lt. lia.
Qed.

(** Catching up early changes nothing: asking for a result in between is not
    seen later. *)
Lemma catch_up_twice now now' q : 0 < q.(MoveWindowTime) → now <= now' →
  (catch_up now q ≫= catch_up now') = catch_up now' q.
Proof.
  intros Hm Hn. rewrite catch_up_eq by done. cbn. destruct (moved_window (moves now q) q) as (Hl & Hw & _).
  rewrite !catch_up_eq by (rewrite ?Hw; done). f_equal.
  assert (E : (moves now' (Nat.iter (moves now q) moveWindow q) + moves now q)%nat = moves now' q).
  { unfold moves at 1. rewrite Hl, Hw. unfold moves.
    replace (now' - (lastMoveWindow q + Z.of_nat (Z.to_nat ((now - lastMoveWindow q - 1) / MoveWindowTime q)) * MoveWindowTime q) - 1)
      with (now' - lastMoveWindow q - 1 + - Z.of_nat (Z.to_nat ((now - lastMoveWindow q - 1) / MoveWindowTime q)) * MoveWindowTime q) by lia.
    rewrite Z.div_add by lia.
    assert ((now - lastMoveWindow q - 1) / MoveWindowTime q <= (now' - lastMoveWindow q - 1) / MoveWindowTime q) by (apply Z.div_le_mono; lia).
    lia. }
  rewrite <- E. generalize (moves now' (Nat.iter (moves now q) moveWindow q)) (moves now q). intros a b. clear.
  rewrite Nat.iter_add. done.
Qed.

End quantile.

(** Streams that keep their samples. *)
#[local] Instance list_stream : Stream (list Q) (list Q) := {|
  st_NewTargeted _ := []; st_Insert x l := l ++ [x]; st_Samples l := l; st_Merge l l' := l' ++ l;
  st_Query _ l := default 0%Q (head l); st_Count l := Z.of_nat (length l); st_Reset _ := [];
|}.

Definition idle : Quantile (list Q) := New 100 1 [].

(** A window time of one nanosecond, one nanosecond later. *)
Lemma windows_move_witness :
  (∀ fuel, move_windows fuel 101 idle = None) ∧ (∃ q', catch_up 150 (New 100 20 [] : Quantile (list Q)) = Some q' ∧ IsDataStale 150 q' = false).
Proof.
  split.
  - apply (windows_move (S:=list Q) 101 idle); [by vm_compute|reflexivity].
  - destruct (windows_move (S:=list Q) 150 (New 100 20 [])) as [H _]. destruct H as (q' & E & Hs & _); [reflexivity|]. by exists q'.
Defined.

Example result_text : String (mkResult 3 [(99 # 100, inject_Z 1234567); (1 # 2, inject_Z 850)]) = bytes_of_string "1.2ms, 850.0ns".
Proof. by vm_compute. Qed.

End Quantile.
