(* ===== verification/Aggregate.v ===== *)
(** * Aggregated latencies (internal/quantile/aggregate.go)

    nsqadmin merges what several nsqd report of their latencies: per quantile
    it keeps the largest value and the mean weighted by the counts. The
    percentiles are maps of floats, which are rationals here; a missing key
    reads as 0. [None] is a panic. *)
From stdpp Require Import base gmap list strings.
From Stdlib Require Import ZArith QArith Qminmax Lqa.
From S2P Require Import Prelude.
From S2P Require Import Order.
Set Default Goal Selector "!".
Local Open Scope Q_scope.

Module Aggregate.
Import Order.

(** [map[string]float64] *)
Notation percentile := (gmap string Q).
Definition get (p : percentile) (k : string) : Q := default 0 (p !! k).

Record E2eProcessingLatencyAggregate := mkAggregate {
  Count : Z;
  Percentiles : list percentile;
  Topic : bytes;
  Channel : bytes;
  Addr : bytes;
}.

(** The struct [UnmarshalJSON] decodes into; a [null] in the list is a nil
    map, which must not be written to. *)
Record raw_aggregate := mkRaw {
  r_Count : Z;
  r_Percentiles : list (option percentile);
  r_Topic : bytes;
  r_Channel : bytes;
  r_Addr : bytes;
}.

Definition complete (count : Z) (p : percentile) : percentile :=
  let p := <["min" := get p "value"]> p in
  let p := <["max" := get p "value"]> p in
  let p := <["average" := get p "value"]> p in
  <["count" := inject_Z count]> p.

Definition UnmarshalJSON (r : raw_aggregate) : option E2eProcessingLatencyAggregate :=
  ps ← mapM id r.(r_Percentiles);
  Some (mkAggregate r.(r_Count) (complete r.(r_Count) <$> ps) r.(r_Topic) r.(r_Channel) r.(r_Addr)).

Definition Less (p q : percentile) : bool := negb (Qle_bool (get p "percentile") (get q "percentile")).

(** Merges [value] into the entry [v] of its quantile. *)
Definition merge_into (value v : percentile) : percentile :=
  let v := <["max" := Qmax (get value "max") (get v "max")]> v in
  let v := <["min" := Qmin (get value "max") (get v "max")]> v in
  let v := <["count" := get v "count" + get value "count"]> v in
  if Qeq_bool (get v "count") 0 then <["average" := 0]> v else
  let delta := get value "average" - get v "average" in
  let R := delta * get value "count" / get v "count" in
  <["average" := get v "average" + R]> v.

Definition same_quantile (value v : percentile) : bool := Qeq_bool (get value "quantile") (get v "quantile").

(** A turn of the loop of [Add]: the entry with the quantile, or a new one. *)
Definition merge_value (ps : list percentile) (value : percentile) : list percentile :=
  match list_find (λ v, same_quantile value v = true) ps with
  | Some (i, v) => <[i := merge_into value v]> ps
  | None => ps ++ [merge_into value {[ "quantile" := get value "quantile" ]}]
  end.

Section add.
Context `{GoSort}.

(** [e.Add(e2)]; [e2] may be nil. *)
Definition Add (e2 : option E2eProcessingLatencyAggregate) (e : E2eProcessingLatencyAggregate) : option E2eProcessingLatencyAggregate :=
  e2 ← e2;
  let ps := foldl merge_value e.(Percentiles) e2.(Percentiles) in
  Some (mkAggregate (i64 (e.(Count) + e2.(Count))) (go_sort (λ v w, Less v w) ps) e.(Topic) e.(Channel) (bytes_of_string "*")).

(** [Less] compares a key that no entry has. *)
Lemma merge_into_get value v k : k ≠ "max"%string → k ≠ "min"%string → k ≠ "count"%string → k ≠ "average"%string →
  get (merge_into value v) k = get v k.
Proof.
  intros. unfold merge_into. cbv zeta. unfold get. destruct (Qeq_bool _ _); by rewrite !lookup_insert_ne by done.
Qed.

(** ** Means *)

(** What is to be merged for a quantile: the counts, the weighted averages and
    the largest value. *)
Definition of_quantile (q : Q) (vs : list percentile) : list percentile := filter (λ v, Qeq_bool q (get v "quantile") = true) vs.
Definition counts (vs : list percentile) : Q := foldr (λ v n, get v "count" + n) 0 vs.
Definition weights (vs : list percentile) : Q := foldr (λ v n, get v "average" * get v "count" + n) 0 vs.
Definition largest (vs : list percentile) : Q := foldr (λ v n, Qmax (get v "max") n) 0 vs.

Lemma foldr_snoc_Q (f : percentile → Q) vs v : foldr (λ v n, f v + n) 0 (vs ++ [v]) == foldr (λ v n, f v + n) 0 vs + f v.
Proof. induction vs as [|w vs IH]; cbn [foldr app]; [ring|]. rewrite IH. ring. Qed.

Lemma largest_snoc vs v : largest (vs ++ [v]) == Qmax (get v "max") (largest vs).
Proof.
  induction vs as [|w vs IH]; cbn; [done|]. rewrite IH. rewrite !Q.max_assoc. by rewrite (Q.max_comm (get w "max")).
Qed.

(** The entry of a quantile after [vs] were merged. *)
Record merged (vs : list percentile) (v : percentile) : Prop := {
  mg_count : get v "count" == counts vs;
  mg_average : get v "average" * get v "count" == weights vs;
  mg_max : get v "max" == largest vs;
  mg_zero : get v "count" == 0 → get v "average" == 0;
}.

Definition counted (v : percentile) : Prop := 0 <= get v "count".

Lemma counts_nonneg vs : Forall counted vs → 0 <= counts vs.
Proof. unfold counts, counted. induction 1 as [|v vs Hv _ IH]; cbn [foldr]; [apply Qle_refl|]. lra. Qed.

Lemma zero_counts vs : Forall counted vs → counts vs == 0 → weights vs == 0.
Proof.
  unfold counts, weights. induction 1 as [|v vs Hv Hvs IH]; cbn [foldr]; [reflexivity|]. pose proof (counts_nonneg vs Hvs) as Hn. unfold counts, counted in *.
  intros Hz. rewrite IH by lra. assert (get v "count" == 0) as -> by lra. lra.
Qed.

Lemma merge_into_merged vs value v : Forall counted (vs ++ [value]) → merged vs v → merged (vs ++ [value]) (merge_into value v).
Proof.
  intros Hc [Hn Ha Hm Hz]. unfold merge_into. cbv zeta.
  set (v1 := <["max" := Qmax (get value "max") (get v "max")]> v).
  set (v2 := <["min" := Qmin (get value "max") (get v1 "max")]> v1).
  set (v3 := <["count" := get v2 "count" + get value "count"]> v2).
  assert (E3 : get v3 "count" = get v "count" + get value "count").
  { unfold v3, get. rewrite lookup_insert_eq. cbn. unfold v2, v1. by rewrite !lookup_insert_ne by done. }
  assert (Em : get v3 "max" = Qmax (get value "max") (get v "max")).
  { unfold v3, v2, v1, get. rewrite lookup_insert_ne by done. rewrite lookup_insert_ne by done. by rewrite lookup_insert_eq. }
  assert (Ea : get v3 "average" = get v "average").
  { unfold v3, v2, v1, get. by rewrite !lookup_insert_ne by done. }
  assert (Hcount : get v3 "count" == counts (vs ++ [value])).
  { rewrite E3. unfold counts. rewrite foldr_snoc_Q. fold (counts vs). by rewrite Hn. }
  assert (Hmax : get v3 "max" == largest (vs ++ [value])) by (by rewrite Em, largest_snoc, Hm).
  assert (Hget : ∀ x k, k ≠ "average"%string → get (<["average" := x]> v3) k = get v3 k).
  { intros x k Hk. unfold get. by rewrite lookup_insert_ne by done. }
  assert (Havg : ∀ x, get (<["average" := x]> v3) "average" = x) by (intros x; unfold get; by rewrite lookup_insert_eq).
  destruct (Qeq_bool (get v3 "count") 0) eqn:E0.
  - apply Qeq_bool_eq in E0. split; rewrite ?Havg, ?Hget by done; [done| |done|done].
    rewrite zero_counts; [lra|done|]. by rewrite <- Hcount.
  - apply Qeq_bool_neq in E0. split; rewrite ?Havg, ?Hget by done; [done| |done|done].
    unfold weights. rewrite foldr_snoc_Q. fold (weights vs). rewrite <- Ha, Ea, E3. rewrite E3 in E0. field. exact E0.
Qed.

(** Merging a list of values into the entries: each quantile has one entry,
    which is that of its values. *)
Definition entries_of (vs ps : list percentile) : Prop :=
  (∀ i j v w, ps !! i = Some v → ps !! j = Some w → get v "quantile" == get w "quantile" → i = j) ∧
  (∀ v, v ∈ ps → merged (of_quantile (get v "quantile") vs) v) ∧
  ∀ v, v ∈ vs → ∃ w, w ∈ ps ∧ get v "quantile" == get w "quantile".

Lemma of_quantile_app q vs ws : of_quantile q (vs ++ ws) = of_quantile q vs ++ of_quantile q ws.
Proof. apply filter_app. Qed.

Lemma of_quantile_eq q q' vs : q == q' → of_quantile q vs = of_quantile q' vs.
Proof.
  intros E. apply list_filter_iff. intros v. by rewrite !Qeq_bool_iff, E.
Qed.

Lemma counted_of q vs : Forall counted vs → Forall counted (of_quantile q vs).
Proof. rewrite !Forall_forall. intros Hv v [_ Hin]%list_elem_of_filter. by apply Hv. Qed.

Lemma merge_value_entries vs ps value : Forall counted (vs ++ [value]) → entries_of vs ps → entries_of (vs ++ [value]) (merge_value ps value).
Proof.
  intros Hc (Hu & Hm & Hin). set (q := get value "quantile").
  assert (Hself : of_quantile q [value] = [value]).
  { unfold of_quantile. rewrite filter_cons_True; [done|]. apply Qeq_bool_iff. unfold q. reflexivity. }
  assert (Hother : ∀ w, ¬ q == get w "quantile" → of_quantile (get w "quantile") (vs ++ [value]) = of_quantile (get w "quantile") vs).
  { intros w Hw. rewrite of_quantile_app. unfold of_quantile at 2. rewrite filter_cons_False; [by rewrite app_nil_r|].
    intros E%Qeq_bool_iff. apply Hw. by symmetry. }
  assert (Hstep : ∀ v, get v "quantile" == q → merged (of_quantile q vs) v → merged (of_quantile q (vs ++ [value])) (merge_into value v)).
  { intros v _ Hv. rewrite of_quantile_app, Hself. apply merge_into_merged; [|done].
    rewrite <- Hself, <- of_quantile_app. by apply counted_of. }
  assert (Hquant : ∀ v, get (merge_into value v) "quantile" = get v "quantile") by (intros v; by apply merge_into_get).
  unfold merge_value. destruct (list_find _ ps) as [[i v]|] eqn:E.
  - apply list_find_Some in E as (Hi & Hq & Hfirst). apply Qeq_bool_iff in Hq. fold q in Hq.
    assert (Hilen := lookup_lt_Some _ _ _ Hi).
    assert (Hlook : ∀ j w, <[i := merge_into value v]> ps !! j = Some w → ∃ w', ps !! j = Some w' ∧ get w "quantile" = get w' "quantile" ∧
      (i = j ∧ w = merge_into value v ∨ i ≠ j ∧ w = w')).
    { intros j w Hj. destruct (decide (i = j)) as [<-|Hne].
      - rewrite list_lookup_insert_eq in Hj by done. injection Hj as <-. exists v. split; [done|]. split; [apply Hquant|by left].
      - rewrite list_lookup_insert_ne in Hj by done. exists w. auto. }
    split_and!.
    + intros j k w1 w2 H1 H2 Eq. apply Hlook in H1 as (w1' & H1 & E1 & _). apply Hlook in H2 as (w2' & H2 & E2 & _).
      rewrite E1, E2 in Eq. by eapply Hu.
    + intros w Hw. apply list_elem_of_lookup_1 in Hw as [j Hj]. apply Hlook in Hj as (w' & Hj & Ew & Hcase). rewrite Ew.
      destruct Hcase as [[<- ->]|[Hne ->]].
      * rewrite Hi in Hj. injection Hj as <-. rewrite (of_quantile_eq _ q) by (by symmetry). apply Hstep; [by symmetry|].
        rewrite (of_quantile_eq _ (get v "quantile")) by done. apply Hm. by eapply list_elem_of_lookup_2.
      * rewrite Hother; [apply Hm; by eapply list_elem_of_lookup_2|]. intros Eq. apply Hne. eapply (Hu i j); [done..|]. by rewrite <- Hq.
    + intros w [Hw|Hw]%elem_of_app.
      * destruct (Hin w Hw) as (w' & Hw' & Eq). apply list_elem_of_lookup_1 in Hw' as [j Hj]. destruct (decide (i = j)) as [<-|Hne].
        -- rewrite Hi in Hj. injection Hj as <-. exists (merge_into value v). split; [|by rewrite Hquant].
           eapply list_elem_of_lookup_2. by apply list_lookup_insert_eq.
        -- exists w'. split; [|done]. eapply list_elem_of_lookup_2. by rewrite list_lookup_insert_ne.
      * apply list_elem_of_singleton in Hw as ->. exists (merge_into value v). split; [|by rewrite Hquant].
        eapply list_elem_of_lookup_2. by apply list_lookup_insert_eq.
  - apply list_find_None in E. rewrite Forall_forall in E.
    set (v := {[ "quantile" := get value "quantile" ]} : percentile).
    assert (Hv : get v "quantile" = q) by (unfold get, v; by rewrite lookup_singleton_eq).
    assert (Hempty : of_quantile q vs = []).
    { apply elem_of_nil_inv. intros w [Eq%Qeq_bool_iff Hw]%list_elem_of_filter. destruct (Hin w Hw) as (w' & Hw' & Eq').
      apply (E w' Hw'). apply Qeq_bool_iff. fold q. by rewrite Eq. }
    assert (Hnew : merged (of_quantile q (vs ++ [value])) (merge_into value v)).
    { apply Hstep; [by rewrite Hv|]. rewrite Hempty. unfold v, get. split; rewrite ?lookup_singleton_ne by done; cbn; try done. }
    assert (Hnone : ∀ w, w ∈ ps → ¬ q == get w "quantile").
    { intros w Hw Eq. apply (E w Hw). by apply Qeq_bool_iff. }
    split_and!.
    + intros i j w1 w2 H1 H2 Eq. apply lookup_snoc_inv in H1 as [[H1 L1]|[-> ->]]; apply lookup_snoc_inv in H2 as [[H2 L2]|[-> ->]].
      * by eapply Hu.
      * destruct (Hnone w1); [by eapply list_elem_of_lookup_2|]. by rewrite Eq, Hquant, Hv.
      * destruct (Hnone w2); [by eapply list_elem_of_lookup_2|]. by rewrite <- Eq, Hquant, Hv.
      * done.
    + intros w [Hw| ->%list_elem_of_singleton]%elem_of_app.
      * rewrite Hother by (by apply Hnone). by apply Hm.
      * rewrite Hquant, Hv. done.
    + intros w [Hw| ->%list_elem_of_singleton]%elem_of_app.
      * destruct (Hin w Hw) as (w' & Hw' & Eq). exists w'. split; [by apply elem_of_app; left|done].
      * exists (merge_into value v). split; [apply elem_of_app; right; by left|]. by rewrite Hquant, Hv.
Qed.

Lemma merge_values_entries ws : ∀ vs ps, Forall counted (vs ++ ws) → entries_of vs ps → entries_of (vs ++ ws) (foldl merge_value ps ws).
Proof.
  induction ws as [|w ws IH]; intros vs ps Hc Hp; cbn [foldl]; [by rewrite app_nil_r|].
  replace (vs ++ w :: ws) with ((vs ++ [w]) ++ ws) in * by by rewrite <- app_assoc.
  apply IH; [done|]. apply merge_value_entries; [|done]. by apply Forall_app in Hc as [? _].
Qed.

(** The order of the entries does not matter. *)
Lemma entries_of_perm vs ps ps' : ps ≡ₚ ps' → entries_of vs ps → entries_of vs ps'.
Proof.
  intros Hp (Hu & Hm & Hin). split_and!.
  - apply Permutation_sym in Hp. apply Permutation_inj in Hp as [_ (f & Hf & Hl)].
    intros i j v w Hi Hj Eq. apply Hf. rewrite Hl in Hi, Hj. by eapply Hu.
  - intros v Hv. apply Hm. by rewrite Hp.
  - intros v Hv. destruct (Hin v Hv) as (w & Hw & Eq). exists w. by rewrite <- Hp.
Qed.

(** [Add] of several aggregates, one after the other. *)
Fixpoint add_all (es : list E2eProcessingLatencyAggregate) (e : E2eProcessingLatencyAggregate) : option E2eProcessingLatencyAggregate :=
  match es with
  | [] => Some e
  | e2 :: es => e ← Add (Some e2) e; add_all es e
  end.

Lemma add_all_entries es : ∀ vs e, Forall counted (vs ++ mjoin (Percentiles <$> es)) → entries_of vs e.(Percentiles) →
  ∃ e', add_all es e = Some e' ∧ entries_of (vs ++ mjoin (Percentiles <$> es)) e'.(Percentiles).
Proof.
  induction es as [|e2 es IH]; intros vs e Hc He; cbn [add_all fmap list_fmap mjoin list_join].
  - exists e. by rewrite app_nil_r.
  - unfold Add. cbn [mbind option_bind]. cbn [fmap list_fmap mjoin list_join] in Hc.
    set (ps := foldl merge_value e.(Percentiles) e2.(Percentiles)).
    assert (Hps : entries_of (vs ++ e2.(Percentiles)) ps).
    { apply merge_values_entries; [|done]. rewrite app_assoc in Hc. by apply Forall_app in Hc as [? _]. }
    rewrite app_assoc in Hc |- *. apply (IH _ (mkAggregate _ _ _ _ _)); [done|].
    eapply entries_of_perm; [|exact Hps]. cbn. symmetry. apply go_sort_perm.
Qed.

(** Adding the latencies of several nsqd into an empty aggregate gives
    each quantile one entry: its count is the sum of the counts, its average
    the mean of the averages weighted by them, its maximum the largest
    maximum; but what is called its minimum is the maximum of the value that
    was merged last. *)
Theorem latencies_merge es e : e.(Percentiles) = [] → Forall counted (mjoin (Percentiles <$> es)) →
  (∃ e', add_all es e = Some e' ∧
    (∀ q, (∃ v, v ∈ mjoin (Percentiles <$> es) ∧ get v "quantile" == q) → 
      ∃ i, (∃ w, e'.(Percentiles) !! i = Some w ∧ get w "quantile" == q) ∧
        ∀ j w, e'.(Percentiles) !! j = Some w → get w "quantile" == q → i = j) ∧
    ∀ w, w ∈ e'.(Percentiles) →
      let vs := of_quantile (get w "quantile") (mjoin (Percentiles <$> es)) in
      get w "count" == counts vs ∧ (¬ counts vs == 0 → get w "average" == weights vs / counts vs) ∧ get w "max" == largest vs) ∧
  ∀ value v, get (merge_into value v) "min" == get value "max".
Proof.
  intros He Hc. split.
  - destruct (add_all_entries es [] e Hc) as (e' & E & Hu & Hm & Hin).
    { rewrite He. split_and!; [done|by intros v ?%elem_of_nil|by intros v ?%elem_of_nil]. }
    exists e'. split; [done|]. split.
    + intros q (v & Hv & Eq). destruct (Hin v Hv) as (w & Hw & Eq'). apply list_elem_of_lookup_1 in Hw as [i Hi].
      exists i. split; [exists w; by rewrite <- Eq'|]. intros j w' Hj Eq''. apply (Hu i j w w' Hi Hj). by rewrite <- Eq', Eq''.
    + intros w Hw. destruct (Hm w Hw) as [Hcw Haw Hmw _]. split; [done|]. split; [|done].
      intros Hz. cbn [app] in *. rewrite <- Haw, <- Hcw. field. by rewrite Hcw.
  - intros value v. unfold merge_into. cbv zeta.
    assert (Hmin : ∀ m : percentile, get (<["min" := Qmin (get value "max") (get (<["max" := Qmax (get value "max") (get v "max")]> m) "max")]> m) "min" == get value "max").
    { intros m. unfold get at 1. rewrite lookup_insert_eq. cbn. unfold get at 2. rewrite lookup_insert_eq. cbn. apply Q.min_l, Q.le_max_l. }
    assert (Hd : ∀ (m : percentile) x k, k ≠ "min"%string → get (<[k := x]> m) "min" = get m "min").
    { intros m x k Hk. unfold get. by rewrite lookup_insert_ne. }
    destruct (Qeq_bool _ _); rewrite !Hd by done; unfold get at 1; rewrite lookup_insert_eq; cbn;
      unfold get at 2; rewrite lookup_insert_eq; cbn; apply Q.min_l, Q.le_max_l.
Qed.

End add.

Definition reported (q value : Q) (count : Z) : raw_aggregate :=
  mkRaw count [Some (<["quantile" := q]> {[ "value" := value ]})] [] [] [].

Lemma latencies_merge_witness :
  let add := add_all (H := merge_GoSort) in
  ∃ e1 e2 e', UnmarshalJSON (reported (99 # 100) 10 1) = Some e1 ∧ UnmarshalJSON (reported (99 # 100) 20 3) = Some e2 ∧
    add [e1; e2] (mkAggregate 0 [] [] [] []) = Some e' ∧
    (∃ i, ∃ w, e'.(Percentiles) !! i = Some w ∧ get w "quantile" == 99 # 100) ∧
    ((λ w, Qred (get w "average")) <$> e'.(Percentiles)) = [35 # 2].
Proof.
  intros add. eexists _, _. destruct (latencies_merge (H := merge_GoSort)
    (omap UnmarshalJSON [reported (99 # 100) 10 1; reported (99 # 100) 20 3]) (mkAggregate 0 [] [] [] []) eq_refl) as [(e' & E & Hq & _) _].
  - repeat constructor; unfold counted; by vm_compute.
  - exists e'. split; [reflexivity|]. split; [reflexivity|]. split; [exact E|]. split.
    + destruct (Hq (99 # 100)) as (i & Hi & _); [|by exists i]. eexists. split; [by left|]. by vm_compute.
    + vm_compute in E. injection E as <-. by vm_compute.
Defined.

End Aggregate.
