(* ===== verification/Stats.v ===== *)
(** * Statistics of the daemon (nsqd/stats.go)

    What [GetStats] and [GetProducerStats] report of the topics, channels and
    clients, in the order of their names. Latencies are those of the quantile
    streams; asking for them moves the windows of a stream, which is not seen
    later (Quantile.catch_up_twice), so reporting changes nothing here. [None]
    is a panic or a call that never returns. *)
From stdpp Require Import base gmap list strings sorting.
From Stdlib Require Import ZArith QArith Qround Lia.
From S2P Require Import Prelude.
From S2P Require Import Backend.
From S2P Require Import Order.
From S2P Require Import Quantile.
From S2P Require Import Channel.
From S2P Require Import Topic.
From S2P Require Import Options.
From S2P Require Import Client.
From S2P Require Import Nsqd.
Set Default Goal Selector "!".
Local Open Scope Z_scope.

(** What the statistics ask of a quantile stream. *)
Class LatencyStream (Q : Type) := {
  ls_New : time → duration → list QArith_base.Q → Q;
  ls_Merge : Q → Q → Q;
  ls_Result : time → option Q → option Quantile.Result;
}.

#[export] Instance quantile_latency {S Sm : Type} `{Stream S Sm} : LatencyStream (Quantile.Quantile S) := {|
  ls_New := Quantile.New;
  ls_Merge := Quantile.Merge;
  ls_Result now q := fst <$> Quantile.get_Result now q;
|}.

Module Stats.
Import Channel Topic Nsqd.

Record ChannelStats := mkChannelStats {
  chs_ChannelName : bytes;
  chs_Depth : Z;
  chs_BackendDepth : Z;
  chs_InFlightCount : Z;
  chs_DeferredCount : Z;
  chs_MessageCount : Z;
  chs_RequeueCount : Z;
  chs_TimeoutCount : Z;
  chs_ClientCount : Z;
  chs_Clients : list Client.ClientStats;
  chs_Paused : bool;
  chs_E2e : Quantile.Result;
}.

Record TopicStats := mkTopicStats {
  ts_TopicName : bytes;
  ts_Channels : list ChannelStats;
  ts_Depth : Z;
  ts_BackendDepth : Z;
  ts_MessageCount : Z;
  ts_MessageBytes : Z;
  ts_Paused : bool;
  ts_E2e : Quantile.Result;
}.

Section stats.
Context {W D Q B MB : Type}.
Context `{BackendQueue D, LatencyStream Q, BackendQueue B}.
Context (opts : Opts.Options) (range : ∀ A : Type, list A → list A).
Context (now : time).
Notation nsqd := (NSQD W D Q B MB).
Implicit Types (n : nsqd).

Definition NewChannelStats (h : heap (Client.clientV2 W)) (c : Channel D Q) (clients : list Client.ClientStats) (clientCount : Z) :
    option ChannelStats :=
  e2e ← ls_Result now c.(e2eProcessingLatencyStream);
  Some (mkChannelStats c.(Channel.name) (Depth (h, c)) (bq_Depth c.(backend_)) (Z.of_nat (size c.(inFlightMessages)))
    (Z.of_nat (size c.(deferredMessages))) c.(messageCount) c.(requeueCount) c.(timeoutCount) clientCount clients
    c.(paused) e2e).

(** [AggregateChannelE2eProcessingLatency] *)
Definition AggregateChannelE2eProcessingLatency n (t : Topic B MB) : option (option Q) :=
  cs ← mapM (λ l, n.(n_chans) !! l) (range _ (map_to_list t.(t_channelMap)).*2);
  Some (foldl (λ acc c,
    match c.(e2eProcessingLatencyStream) with
    | None => acc
    | Some s => Some (ls_Merge (default (ls_New now opts.(Opts.E2EProcessingLatencyWindowTime) opts.(Opts.E2EProcessingLatencyPercentiles)) acc) s)
    end) None cs).

Definition NewTopicStats n (t : Topic B MB) (channels : list ChannelStats) : option TopicStats :=
  stream ← AggregateChannelE2eProcessingLatency n t;
  e2e ← ls_Result now stream;
  Some (mkTopicStats t.(t_name) channels (t_Depth (n.(n_heap), n.(n_chans), t)) (bq_Depth t.(t_backend))
    t.(t_messageCount) t.(t_messageBytes) t.(t_paused) e2e).

(** [Stats] of each client of a channel; all of them are in the heap. *)
Definition client_stats n (ids : list Z) : list Client.ClientStats :=
  omap (λ id, Client.Stats range <$> n.(n_heap).(consumers) !! id) ids.

Definition channel_stats (includeClients : bool) n (c : Channel D Q) : option ChannelStats :=
  let cs := if includeClients then client_stats n (range _ (elements c.(clients))) else [] in
  NewChannelStats n.(n_heap) c cs (Z.of_nat (size c.(clients))).

(** The channels of a topic that are asked for; [None]: the topic is skipped. *)
Definition real_channels n (channel : bytes) (t : Topic B MB) : option (option (list (Channel D Q))) :=
  if bool_decide (channel = []) then
    cs ← mapM (λ l, n.(n_chans) !! l) (range _ (map_to_list t.(t_channelMap)).*2); Some (Some cs)
  else match t.(t_channelMap) !! channel with
       | Some l => c ← n.(n_chans) !! l; Some (Some [c])
       | None => Some None
       end.

Definition topic_stats (channel : bytes) (includeClients : bool) n (t : Topic B MB) : option (list TopicStats) :=
  cs ← real_channels n channel t;
  match cs with
  | None => Some []
  | Some cs =>
    chs ← mapM (channel_stats includeClients n) (Order.sort_by Channel.name cs);
    ts ← NewTopicStats n t chs;
    Some [ts]
  end.

Definition real_topics n (topic : bytes) : option (list (Topic B MB)) :=
  if bool_decide (topic = []) then mapM (λ l, n.(n_topics) !! l) (range _ (map_to_list n.(topicMap)).*2)
  else match n.(topicMap) !! topic with
       | Some l => t ← n.(n_topics) !! l; Some [t]
       | None => Some []
       end.

Definition GetStats (topic channel : bytes) (includeClients : bool) n : option (list TopicStats) :=
  ts ← real_topics n topic;
  ss ← mapM (topic_stats channel includeClients n) (Order.sort_by t_name ts);
  Some (mjoin ss).

Definition GetProducerStats n : option (list Client.ClientStats) :=
  cs ← mapM (λ id, n.(n_heap).(consumers) !! id) (range _ (elements n.(n_clients)));
  Some (Client.Stats range <$> filter (λ c, Client.IsProducer c = true) cs).

End stats.

(** ** Memory

    What [runtime.ReadMemStats] fills in, of what is reported. *)
Record MemStats := mkMemStats {
  ms_HeapObjects : Z;
  ms_HeapIdle : Z;
  ms_HeapInuse : Z;
  ms_HeapReleased : Z;
  ms_PauseNs : list Z;
  ms_NextGC : Z;
  ms_NumGC : Z;
}.

Record memStats := mkmemStats {
  HeapObjects : Z;
  HeapIdleBytes : Z;
  HeapInUseBytes : Z;
  HeapReleasedBytes : Z;
  GCPauseUsec100 : Z;
  GCPauseUsec99 : Z;
  GCPauseUsec95 : Z;
  NextGCBytes : Z;
  GCTotalRuns : Z;
}.

(** [percentile] (nsqd/statsd.go), with exact arithmetic. *)
Definition percentile (perc : Q) (arr : list Z) (length : nat) : option Z :=
  if bool_decide (length = 0%nat) then Some 0 else
  let indexOfPerc := Qfloor ((perc / 100) * inject_Z (Z.of_nat length) + (1 # 2))%Q in
  let indexOfPerc := if Z.of_nat length <=? indexOfPerc then Z.of_nat length - 1 else indexOfPerc in
  if indexOfPerc <? 0 then None else arr !! Z.to_nat indexOfPerc.

Definition getMemStats (ms : MemStats) : option memStats :=
  let len := if ms.(ms_NumGC) <? Z.of_nat (length ms.(ms_PauseNs)) then Z.to_nat ms.(ms_NumGC) else length ms.(ms_PauseNs) in
  let gcPauses := merge_sort Z.le (take len ms.(ms_PauseNs)) in
  p100 ← percentile 100 gcPauses (length gcPauses);
  p99 ← percentile 99 gcPauses (length gcPauses);
  p95 ← percentile 95 gcPauses (length gcPauses);
  Some (mkmemStats ms.(ms_HeapObjects) ms.(ms_HeapIdle) ms.(ms_HeapInuse) ms.(ms_HeapReleased)
    (p100 / 1000) (p99 / 1000) (p95 / 1000) ms.(ms_NextGC) ms.(ms_NumGC)).

End Stats.
