(* ===== verification/NsqdHTTPProps.v ===== *)
(** * What the HTTP interface of nsqd promises

    No request, whatever its bytes, makes a handler panic or breaks the
    invariant of the daemon, and a GET changes nothing ([nsqd_http_safe]). *)
From stdpp Require Import base gmap list strings.
From Stdlib Require Import ZArith QArith Lia.
From S2P Require Import Prelude.
From S2P Require Import Decimal.
From S2P Require Import Text.
From S2P Require Import Message.
From S2P Require Import Wire.
From S2P Require Import HttpApi.
From S2P Require Import Net.
From S2P Require Import Heap.
From S2P Require Import Backend.
From S2P Require Import Order.
From S2P Require Import Quantile.
From S2P Require Import Channel.
From S2P Require Import ChannelProofs.
From S2P Require Import ChannelProps.
From S2P Require Import ChannelFrame.
From S2P Require Import Topic.
From S2P Require Import TopicProofs.
From S2P Require Import TopicProps.
From S2P Require Import Options.
From S2P Require Import Client.
From S2P Require Import ClientProps.
From S2P Require Import Nsqd.
From S2P Require Import DaemonProofs.
From S2P Require Import Protocol.
From S2P Require Import ProtocolProofs.
From S2P Require Import Stats.
From S2P Require Import NsqdHTTP.
Set Default Goal Selector "!".
Local Open Scope Z_scope.

Module NsqdHTTPSpec.
Import Wire HttpApi Channel ChannelP ChannelSpec ChannelF Topic TopicP TopicSpec ClientSpec Nsqd DaemonP Protocol ProtocolP Stats NsqdHTTP.

(** Changing the options that may change leaves everything else alone. *)
Lemma config_options o addrs level : options_ok o →
  options_ok (set_NSQLookupdTCPAddresses addrs o) ∧ options_ok (set_LogLevel level o).
Proof. destruct o. intros [[] ? ? ? ? ? ? ? ? ?]. cbn in *. by repeat split. Qed.

Section http.
Context {W D Q B MB : Type}.
Context `{Client.ConnWriter W, !BackendQueue D, !BackendLaws D, QuantileStream Q, LatencyStream Q,
          !BackendQueue B, !BackendLaws B, UnloggedQueue MB}.
Context (compiles : bytes → bool) (range : ∀ A : Type, list A → list A).
Hypothesis range_perm : ∀ A (l : list A), range A l ≡ₚ l.
Hypothesis recv_small : ∀ (b b' : D) d, bq_Recv b = Some (d, b') → Z.of_nat (length d) < 2 ^ 31.
Hypothesis t_recv_small : ∀ (b b' : B) d, bq_Recv b = Some (d, b') → Z.of_nat (length d) < 2 ^ 31.
Hypothesis memory_put : ∀ d (b : MB), is_Some (uq_Put d b).
(** The windows of the quantile streams have a length: see
    [Quantile.windows_move]. *)
Hypothesis latency_returns : ∀ t (q : option Q), is_Some (ls_Result t q).
Context (channel_queue : bytes → D) (topic_queue : bytes → B) (memory_queue : bytes → MB) (e2e : option Q).
Context (lookupdHTTPAddrs : list bytes) (GetLookupdTopicChannels : bytes → list bytes).
Context (marshal_meta : meta → bytes) (parse_json : bytes → option Unmarshal.value) (beyond : list bytes).
Context (RealTCPPort RealHTTPPort : Z) (startTime : time).
Context (format_time : time → bytes) (format_duration : duration → bytes) (go_version : bytes).
Context (FormValue : request → bytes → bytes) (Quote : bytes → string).

Notation nsqd := (NSQD W D Q B MB).
Notation app := (app W D Q B MB).
Notation M := (HM app).
Implicit Types (s : app) (n : nsqd).

Record app_ok s : Prop := {
  ap_opts : options_ok s.(a_opts);
  ap_nsqd : daemon_ok s.(a_opts) compiles s.(a_nsqd);
}.

(** ** Programs that do not panic *)

Definition hsafe {A} (m : M A) s (R : A → app → Prop) : Prop :=
  ∃ r s', m s = Some (r, s') ∧ app_ok s' ∧ later s.(a_nsqd) s'.(a_nsqd) ∧ match r with Ok a => R a s' | Prelude.Err _ => True end.

Lemma hsafe_ret {A} (a : A) s (R : A → app → Prop) : app_ok s → R a s → hsafe (mret a) s R.
Proof. intros. exists (Ok a), s. split_and!; [done|done|apply later_refl|done]. Qed.

Lemma hsafe_throw {A} c t s (R : A → app → Prop) : app_ok s → hsafe (throw c t) s R.
Proof. intros. eexists (Prelude.Err _), s. split_and!; [done|done|apply later_refl|done]. Qed.

Lemma hsafe_wait {A} s (R : A → app → Prop) : app_ok s → hsafe wait s R.
Proof. intros. eexists (Prelude.Err _), s. split_and!; [done|done|apply later_refl|done]. Qed.

Lemma hsafe_bind {A A'} (m : M A) (f : A → M A') s R1 R :
  hsafe m s R1 → (∀ a s', app_ok s' → later s.(a_nsqd) s'.(a_nsqd) → R1 a s' → hsafe (f a) s' R) → hsafe (m ≫= f) s R.
Proof.
  intros ([a|e] & s1 & E & K1 & L1 & HR) Hf.
  - destruct (Hf a s1 K1 L1 HR) as (b & s2 & E2 & K2 & L2 & HR2).
    exists b, s2. split_and!; [|done|by eapply later_trans|done]. unfold mbind, HM_bind. by rewrite E.
  - exists (Prelude.Err e), s1. split_and!; [|done|done|done]. unfold mbind, HM_bind. by rewrite E.
Qed.

Lemma hsafe_weaken {A} (m : M A) s (R R' : A → app → Prop) : hsafe m s R → (∀ a s', R a s' → R' a s') → hsafe m s R'.
Proof. intros (r & s' & E & K & L & HR) Hw. exists r, s'. split_and!; [done..|]. destruct r; [by apply Hw|done]. Qed.

Lemma hsafe_throwIf b c t s : app_ok s → hsafe (throwIf b c t) s (λ _ s', s' = s ∧ b = false).
Proof. intros Hs. destruct b; [by apply hsafe_throw|by apply hsafe_ret]. Qed.

Lemma hsafe_getOpts s : app_ok s → hsafe getOpts s (λ o s', s' = s ∧ o = s.(a_opts)).
Proof. intros. exists (Ok s.(a_opts)), s. split_and!; [done|done|apply later_refl|done..]. Qed.

Lemma hsafe_get s : app_ok s → hsafe get s (λ x s', s' = s ∧ x = s).
Proof. intros. exists (Ok s), s. split_and!; [done|done|apply later_refl|done..]. Qed.

Lemma hsafe_lift {A} (o : option A) s : app_ok s → is_Some o → hsafe (lift_option o) s (λ a s', s' = s ∧ o = Some a).
Proof. intros Hs [a ->]. exists (Ok a), s. split_and!; [done|done|apply later_refl|done..]. Qed.

Lemma hsafe_nsqd {A} (m : Opts.Options → ST nsqd A) s R : app_ok s →
  safe s.(a_opts) compiles (m s.(a_opts)) s.(a_nsqd) R →
  hsafe (on_nsqd m) s (λ a s', ∃ n', s' = set_a_nsqd n' s ∧ R a n').
Proof.
  intros [Ko _] (a & n' & E & K & L & HR). exists (Ok a), (set_a_nsqd n' s). split_and!; [|by split|done|by exists n'].
  unfold on_nsqd. by rewrite E.
Qed.

Lemma hsafe_protocol {A} (m : Opts.Options → PM nsqd A) err s R : app_ok s →
  psafe s.(a_opts) compiles (m s.(a_opts)) s.(a_nsqd) R →
  hsafe (on_protocol m err) s (λ a s', ∃ n', s' = set_a_nsqd n' s ∧ R a n').
Proof.
  intros Hs Hm. eapply hsafe_bind; [by apply hsafe_nsqd|]. intros [a|[e|]] s1 K1 L1 (n1 & -> & HR).
  - apply hsafe_ret; [done|by exists n1].
  - by apply hsafe_throw.
  - by apply hsafe_wait.
Qed.

(** Handlers that only look, and return. *)
Definition looks {A} (m : M A) s : Prop := ∃ r, m s = Some (r, s) ∧ r ≠ Prelude.Err Wait.

Lemma looks_ret {A} (a : A) s : looks (mret a) s.
Proof. by eexists. Qed.
Lemma looks_throw {A} c t s : looks (throw (A:=A) c t) s.
Proof. by eexists. Qed.
Lemma looks_lift {A} (o : option A) s : is_Some o → looks (lift_option o) s.
Proof. intros [a ->]. by eexists. Qed.
Lemma looks_bind {A A'} (m : M A) (f : A → M A') s : looks m s → (∀ a, m s = Some (Ok a, s) → looks (f a) s) → looks (m ≫= f) s.
Proof.
  intros ([a|e] & E & Hw) Hf; [|exists (Prelude.Err e); unfold mbind, HM_bind; rewrite E; split; [done|congruence]].
  destruct (Hf a E) as (r & Er & Hr). exists r. unfold mbind, HM_bind. by rewrite E.
Qed.

Lemma looks_hsafe {A} (m : M A) s : app_ok s → looks m s → hsafe m s (λ _ s', s' = s).
Proof. intros Hs (r & E & _). exists r, s. split_and!; [done|done|apply later_refl|by destruct r]. Qed.

(** ** Parameters *)

Lemma looks_new_params req s : looks (new_params req) s.
Proof. unfold new_params. destruct (NewReqParams req); by eexists. Qed.

Lemma new_params_ok req s rp s' : new_params req s = Some (Ok rp, s') → NewReqParams req = Some rp.
Proof. unfold new_params. destruct (NewReqParams req); [by intros [= ->]|done]. Qed.

Lemma looks_opt_arg rp key req s : NewReqParams req = Some rp → looks (opt_arg rp key) s.
Proof.
  intros E. destruct (ReqParams_Get_ok req rp (bytes_of_string key) E) as [r Hr].
  apply looks_bind; [apply looks_lift; by eexists|]. intros a _. by apply looks_ret.
Qed.

Lemma looks_need_arg rp key missing req s : NewReqParams req = Some rp → looks (need_arg rp key missing) s.
Proof.
  intros E. destruct (ReqParams_Get_ok req rp (bytes_of_string key) E) as [r Hr].
  apply looks_bind; [apply looks_lift; by eexists|]. intros [v|e] _; [by apply looks_ret|by apply looks_throw].
Qed.

(** The parameters of a request, then one of them. *)
Lemma hsafe_params {A} req (f : ReqParams → M A) s R : app_ok s →
  (∀ rp, NewReqParams req = Some rp → hsafe (f rp) s R) → hsafe (rp ← new_params req; f rp) s R.
Proof.
  intros Hs Hf. unfold new_params. destruct (NewReqParams req) as [rp|].
  - specialize (Hf rp eq_refl). eapply hsafe_bind; [by apply (hsafe_ret rp s (λ a s', a = rp ∧ s' = s))|].
    by intros ? ? _ _ [-> ->].
  - eapply hsafe_bind; [by apply (hsafe_throw _ _ s (λ _ _, False))|]. by intros.
Qed.

Lemma hsafe_arg {A} rp key missing req (f : bytes → M A) s R : NewReqParams req = Some rp → app_ok s →
  (∀ v, hsafe (f v) s R) → hsafe (v ← need_arg rp key missing; f v) s R.
Proof.
  intros E Hs Hf. eapply hsafe_bind; [apply looks_hsafe; [done|by eapply looks_need_arg]|]. by intros v s' _ _ ->.
Qed.

Lemma hsafe_need_topic nm s : app_ok s → hsafe (need_topic nm) s (λ l s', s' = s ∧ topic_in s.(a_nsqd) l).
Proof.
  intros Hs. unfold need_topic, GetExistingTopic.
  eapply hsafe_bind.
  { apply (hsafe_nsqd _ _ (λ r n', n' = s.(a_nsqd) ∧ match r with Ok l => topic_in n' l | Prelude.Err _ => True end)); [done|].
    apply safe_get. destruct (topicMap (a_nsqd s) !! nm) as [l|] eqn:El.
    - apply safe_ret; [apply Hs|]. split; [done|]. by eapply (dm_map _ _ _ (ap_nsqd _ Hs)).
    - apply safe_ret; [apply Hs|done]. }
  intros r s' K L (n' & -> & -> & Hr).
  assert (Es : set_a_nsqd (a_nsqd s) s = s) by by destruct s. rewrite Es in *.
  destruct r as [l|e]; [by apply hsafe_ret|by apply hsafe_throw].
Qed.

(** ** Statistics and options *)

Lemma config_nsqd o addrs level n : daemon_ok o compiles n →
  daemon_ok (set_NSQLookupdTCPAddresses addrs o) compiles n ∧ daemon_ok (set_LogLevel level o) compiles n.
Proof.
  assert (Hc : ∀ P (c : Client.clientV2 W), client_ok o compiles P c →
    client_ok (set_NSQLookupdTCPAddresses addrs o) compiles P c ∧ client_ok (set_LogLevel level o) compiles P c).
  { destruct o. intros P c [[] ? ? ? ?]. split; (split; [split; assumption|assumption..]). }
  intros []. split; split; try done; intros id c Hid; by apply (Hc _ c); eauto.
Qed.

Lemma chans_known (cs : gmap loc (Channel D Q)) (t : Topic B MB) : topic_local cs t →
  is_Some (mapM (λ l, cs !! l) (range _ (map_to_list t.(t_channelMap)).*2)).
Proof.
  intros T. apply mapM_is_Some_2, Forall_forall. intros l Hl. rewrite range_perm in Hl.
  apply list_elem_of_fmap in Hl as ([k l'] & -> & Hk%elem_of_map_to_list). by eapply (tl_map _ _ T).
Qed.

Lemma mapM_elem {A A'} (f : A → option A') l ys y : mapM f l = Some ys → y ∈ ys → ∃ x, x ∈ l ∧ f x = Some y.
Proof.
  intros E%mapM_Some_1 Hy. apply list_elem_of_lookup in Hy as [i Hy].
  destruct (Forall2_lookup_r _ _ _ _ _ E Hy) as (x & Hx & Ex). exists x. split; [by eapply list_elem_of_lookup_2|done].
Qed.

Lemma GetStats_total o now topic channel inc n : daemon_ok o compiles n → is_Some (GetStats o range now topic channel inc n).
Proof.
  intros Hn. unfold GetStats.
  assert (Ht : ∃ ts, real_topics range n topic = Some ts ∧ ∀ t, t ∈ ts → topic_local n.(n_chans) t).
  { unfold real_topics. case_bool_decide.
    - destruct (mapM_total (λ l, n_topics n !! l) (range _ (map_to_list (topicMap n)).*2)) as [ts E].
      { intros l Hl. rewrite range_perm in Hl. apply list_elem_of_fmap in Hl as ([nm l'] & -> & Hk%elem_of_map_to_list).
        by eapply (dm_map _ _ _ Hn). }
      exists ts. split; [done|]. intros t Ht. destruct (mapM_elem _ _ _ _ E Ht) as (l & _ & Hl). by apply (dm_topic _ _ _ Hn l).
    - destruct (topicMap n !! topic) as [l|] eqn:El; [|exists []; split; [done|by intros t ?%elem_of_nil]].
      destruct (dm_map _ _ _ Hn _ _ El) as [t Ht]. exists [t]. rewrite Ht. split; [done|]. intros t' ->%list_elem_of_singleton.
      by apply (dm_topic _ _ _ Hn l). }
  destruct Ht as (ts & -> & Hts). cbn.
  destruct (mapM_total (topic_stats o range now channel inc n) (Order.sort_by t_name ts)) as [ss ->]; [|by eexists].
  intros t Hin. rewrite Order.sort_by_perm in Hin. specialize (Hts t Hin). unfold topic_stats, real_channels.
  assert (Hcs : ∀ cs, is_Some (mapM (channel_stats range now inc n) cs)).
  { intros cs. apply mapM_total. intros c _. unfold channel_stats, NewChannelStats.
    destruct (latency_returns now c.(e2eProcessingLatencyStream)) as [r ->]. by eexists. }
  assert (Hnt : ∀ chs, is_Some (NewTopicStats o range now n t chs)).
  { intros chs. unfold NewTopicStats, AggregateChannelE2eProcessingLatency. destruct (chans_known _ _ Hts) as [cs ->]. cbn.
    destruct (latency_returns now (foldl (λ acc c, match c.(e2eProcessingLatencyStream) with None => acc
      | Some s => Some (ls_Merge (default (ls_New now o.(Opts.E2EProcessingLatencyWindowTime) o.(Opts.E2EProcessingLatencyPercentiles)) acc) s)
      end) None cs)) as [r ->]. by eexists. }
  assert (Hgo : ∀ cs, is_Some (chs ← mapM (channel_stats range now inc n) (Order.sort_by Channel.name cs);
    ts ← NewTopicStats o range now n t chs; Some [ts])).
  { intros cs. destruct (Hcs (Order.sort_by Channel.name cs)) as [chs ->]. cbn. destruct (Hnt chs) as [ts' ->]. by eexists. }
  case_bool_decide.
  - destruct (chans_known _ _ Hts) as [cs ->]. apply Hgo.
  - destruct (t_channelMap t !! channel) as [l|] eqn:El; [|by eexists]. destruct (tl_map _ _ Hts _ _ El) as [c ->]. apply Hgo.
Qed.

Lemma GetProducerStats_total o n : daemon_ok o compiles n → is_Some (GetProducerStats range n).
Proof.
  intros Hn. unfold GetProducerStats. destruct (mapM_total (λ id, consumers (n_heap n) !! id) (range _ (elements (n_clients n)))) as [cs ->]; [|by eexists].
  intros id Hid. rewrite range_perm, elem_of_elements in Hid. by apply (dm_known _ _ _ Hn).
Qed.

Lemma percentile_total perc arr : (0 <= perc)%Q → is_Some (percentile perc arr (length arr)).
Proof.
  intros Hp. unfold percentile. case_bool_decide as Hl; [by eexists|].
  assert (Hi : 0 <= Qround.Qfloor ((perc / 100) * inject_Z (Z.of_nat (length arr)) + (1 # 2))%Q).
  { change 0 with (Qround.Qfloor 0). apply Qround.Qfloor_resp_le.
    assert (0 <= perc / 100)%Q by (apply Qle_shift_div_l; [done|]; by rewrite Qmult_0_l).
    assert (0 <= inject_Z (Z.of_nat (length arr)))%Q by (change 0%Q with (inject_Z 0); rewrite <- Zle_Qle; lia).
    assert (0 <= perc / 100 * inject_Z (Z.of_nat (length arr)))%Q by (by apply Qmult_le_0_compat).
    apply (Qle_trans _ (perc / 100 * inject_Z (Z.of_nat (length arr)) + 0)%Q); [by rewrite Qplus_0_r|].
    apply Qplus_le_compat; [apply Qle_refl|done]. }
  destruct (Z.of_nat (length arr) <=? _) eqn:E.
  - destruct (Z.of_nat (length arr) - 1 <? 0) eqn:E2; [bool_to_prop; lia|]. apply lookup_lt_is_Some_2. lia.
  - destruct (Qround.Qfloor _ <? 0) eqn:E2; [bool_to_prop; lia|]. apply lookup_lt_is_Some_2. bool_to_prop. lia.
Qed.

Lemma getMemStats_total ms : is_Some (getMemStats ms).
Proof.
  unfold getMemStats. cbv zeta. match goal with |- context [percentile 100 ?a _] => set (arr := a) end.
  destruct (percentile_total 100 arr) as [p1 ->]; [done|]. destruct (percentile_total 99 arr) as [p2 ->]; [done|].
  destruct (percentile_total 95 arr) as [p3 ->]; [done|]. by eexists.
Qed.

(** ** The handlers *)

Definition runs (f : request → M (data json)) : Prop := ∀ req s, app_ok s → hsafe (f req) s (λ _ _, True).
Definition done_ {A} : A → app → Prop := λ _ _, True.

Lemma app_ok_nsqd s n : app_ok (set_a_nsqd n s) → daemon_ok s.(a_opts) compiles n ∧ options_ok s.(a_opts).
Proof. by intros []. Qed.

Notation get_topic := (getTopicFromQuery range channel_queue topic_queue memory_queue e2e lookupdHTTPAddrs GetLookupdTopicChannels).
Notation do_pub := (doPUB range channel_queue topic_queue memory_queue e2e lookupdHTTPAddrs GetLookupdTopicChannels).
Notation do_mpub := (doMPUB range channel_queue topic_queue memory_queue e2e lookupdHTTPAddrs GetLookupdTopicChannels).

Lemma values_ok req m k : ParseQuery req.(RawQuery) = Some m → ∀ v, m !! k = Some v → is_Some (v !! 0%nat).
Proof. intros E v Hv. destruct v; [by destruct (ParseQuery_ok _ _ _ _ E Hv)|by eexists]. Qed.

Lemma hsafe_getTopicFromQuery req s : app_ok s →
  hsafe (get_topic req) s (λ r s', ∃ n', s' = set_a_nsqd n' s ∧ topic_in n' r.2 ∧ ParseQuery req.(RawQuery) = Some r.1).
Proof.
  intros Hs. unfold getTopicFromQuery. destruct (ParseQuery (RawQuery req)) as [m|] eqn:E; [|by apply hsafe_throw].
  destruct (m !! bytes_of_string "topic") as [ts|] eqn:Et; [|by apply hsafe_throw].
  eapply hsafe_bind; [apply hsafe_lift; [done|by eapply values_ok]|]. intros nm s' _ _ [-> _].
  eapply hsafe_bind; [by apply hsafe_throwIf|]. intros [] s' _ _ [-> _].
  eapply hsafe_bind.
  { apply hsafe_nsqd; [done|]. apply safe_GetTopic; [exact range_perm|apply Hs]. }
  intros l s' K _ (n' & -> & _ & Hl). apply hsafe_ret; [done|]. by exists n'.
Qed.

Lemma hsafe_getExistingTopicFromQuery req s : app_ok s →
  hsafe (getExistingTopicFromQuery (W:=W) (D:=D) (Q:=Q) (B:=B) (MB:=MB) req) s (λ r s', s' = s ∧ topic_in s.(a_nsqd) r.1).
Proof.
  intros Hs. apply hsafe_params; [done|]. intros rp E.
  destruct (ReqParams_Get_ok req rp (bytes_of_string "topic") E) as [t Et].
  destruct (ReqParams_Get_ok req rp (bytes_of_string "channel") E) as [c Ec].
  eapply hsafe_bind; [apply hsafe_lift; [done|by eexists]|]. intros ? s' _ _ [-> _].
  eapply hsafe_bind; [apply hsafe_lift; [done|by eexists]|]. intros ? s' _ _ [-> _].
  destruct (GetTopicChannelArgs _) as [[nm ch]|e]; [|by apply hsafe_throw].
  eapply hsafe_bind; [by apply hsafe_need_topic|]. intros l s' _ _ [-> Hl]. by apply hsafe_ret.
Qed.

(** Making a message of a body that is not too big, and putting it. *)
Lemma hsafe_new_message now nows l body d s : app_ok s → topic_in s.(a_nsqd) l →
  Z.of_nat (length body) <= s.(a_opts).(Opts.MaxMsgSize) →
  hsafe (on_protocol (λ _, new_message now nows l body d) (λ _, mkErr 500 "")) s
    (λ x s', ∃ n', s' = set_a_nsqd n' s ∧ (∃ m, loose n' x m) ∧ ∀ y v, loose s.(a_nsqd) y v → loose n' y v ∧ y ≠ x).
Proof.
  intros Hs Hl Hb. eapply hsafe_weaken.
  - apply hsafe_protocol; [done|]. apply psafe_new_message; [apply Hs|apply Hs|done|done].
  - intros x s' (n' & -> & _ & Hm & Hk). by exists n'.
Qed.

(** What [doPUB] reads is not too big. *)
Lemma limited_body o req body : options_ok o → ReadLimited (i64 (o.(Opts.MaxMsgSize) + 1)) req = Some body →
  Z.of_nat (length body) ≠ i64 (o.(Opts.MaxMsgSize) + 1) → body ≠ [] → Z.of_nat (length body) <= o.(Opts.MaxMsgSize).
Proof.
  intros oo. pose proof (oo_size _ oo). pose proof (oo_least _ oo).
  rewrite i64_id by (unfold in_i64; lia). unfold ReadLimited, ReadAll.
  destruct (_ <=? _) eqn:E; bool_to_prop.
  - intros [= <-]. rewrite length_take. intros Hne Hnil. assert (0 < Z.to_nat (Opts.MaxMsgSize o + 1))%nat; [|lia].
    destruct (Z.to_nat (Opts.MaxMsgSize o + 1)); [done|lia].
  - destruct (BodyErr req); [done|]. intros [= <-]. lia.
Qed.

Lemma run_doPUB out : runs (do_pub out).
Proof.
  intros req s Hs. unfold doPUB.
  eapply hsafe_bind; [by apply hsafe_getOpts|]. intros o s' _ _ [-> ->].
  eapply hsafe_bind; [by apply hsafe_throwIf|]. intros [] s' _ _ [-> _]. cbv zeta.
  destruct (ReadLimited _ req) as [body|] eqn:Eb; [|by apply hsafe_throw].
  eapply hsafe_bind; [by apply hsafe_throwIf|]. intros [] s' _ _ [-> Hne]. bool_to_prop.
  eapply hsafe_bind; [by apply hsafe_throwIf|]. intros [] s' _ _ [-> Hnil]. apply bool_decide_eq_false in Hnil.
  assert (Hb := limited_body _ _ _ (ap_opts _ Hs) Eb Hne Hnil).
  eapply hsafe_bind; [by apply hsafe_getTopicFromQuery|]. intros [m l] s1 K1 _ (n1 & -> & Hl & Em). cbn in Hl, Em.
  eapply (hsafe_bind _ _ _ (λ _ s', s' = set_a_nsqd n1 s)).
  { destruct (m !! bytes_of_string "defer") as [ds|] eqn:Ed; [|by apply hsafe_ret].
    eapply hsafe_bind; [apply hsafe_lift; [done|by eapply values_ok]|]. intros d s' _ _ [-> _].
    destruct (Decimal.ParseInt d) as [di|e]; [|by apply hsafe_throw].
    eapply hsafe_bind; [by apply hsafe_throwIf|]. intros [] s' _ _ [-> _]. by apply hsafe_ret. }
  intros d s' _ _ ->.
  eapply hsafe_bind; [by apply hsafe_new_message|]. intros x s2 K2 L2 (n2 & -> & (v & Hx) & _).
  eapply hsafe_bind.
  { apply hsafe_nsqd; [done|]. eapply safe_t_PutMessage; [apply K2|by apply (lt_topics _ _ L2)|exact Hx]. }
  intros [e|] s3 K3 _ (n3 & -> & _); [by apply hsafe_throw|by apply hsafe_ret].
Qed.

Lemma set_a_nsqd_twice n n' s : set_a_nsqd n' (set_a_nsqd n s) = set_a_nsqd n' s.
Proof. done. Qed.

Lemma loose_batch_nil n : loose_batch (W:=W) (D:=D) (Q:=Q) (B:=B) (MB:=MB) n n [].
Proof. split_and!; [exists []; constructor|constructor|]. intros y v Hy. split; [done|]. by intros ?%elem_of_nil. Qed.

Lemma loose_batch_app n n1 n2 xs ys : loose_batch n n1 xs → loose_batch n1 n2 ys → loose_batch n n2 (xs ++ ys).
Proof.
  intros ((ms & Hms) & Hnd & Hk) ((ms' & Hms') & Hnd' & Hk').
  assert (Hxs : ∀ x v, loose n1 x v → loose n2 x v ∧ x ∉ ys) by exact Hk'. split_and!.
  - exists (ms ++ ms'). apply Forall2_app; [|done]. eapply Forall2_impl; [exact Hms|]. intros x v Hx. by apply Hxs.
  - apply NoDup_app. split_and!; [done| |done]. intros x Hx. apply list_elem_of_lookup in Hx as [i Hx].
    destruct (Forall2_lookup_l _ _ _ _ _ Hms Hx) as (v & _ & Hv). by apply (Hxs x v).
  - intros y v Hy. destruct (Hk y v Hy) as [Hy1 Hn]. destruct (Hxs y v Hy1) as [Hy2 Hn2]. split; [done|].
    rewrite elem_of_app. by intros [?|?].
Qed.

Lemma run_mpub_blocks out l readMax bodyErr fuel : ∀ rest total i s, app_ok s → topic_in s.(a_nsqd) l →
  hsafe (mpub_blocks out s.(a_opts) l readMax fuel rest bodyErr total i) s
    (λ xs s', ∃ n', s' = set_a_nsqd n' s ∧ loose_batch s.(a_nsqd) n' xs).
Proof.
  assert (Hnil : ∀ s, app_ok s → hsafe (mret []) s (λ xs s', ∃ n', s' = set_a_nsqd n' s ∧ loose_batch s.(a_nsqd) n' xs)).
  { intros s Hs. apply hsafe_ret; [done|]. exists s.(a_nsqd). split; [by destruct s|apply loose_batch_nil]. }
  induction fuel as [|fuel IH]; intros rest total i s Hs Hl; cbn [mpub_blocks]; [by apply Hnil|].
  destruct (match ReadString rest with Some (block, rest0) => (block, rest0, false) | None => (rest, [], true) end) as [[block rest'] err].
  destruct (err && _); [by apply hsafe_throw|]. cbv zeta.
  eapply hsafe_bind; [by apply hsafe_throwIf|]. intros [] s' _ _ [-> _].
  set (b := if bool_decide (last block = Some newline) then _ else block).
  eapply (hsafe_bind _ _ _ (λ xs s', ∃ n', s' = set_a_nsqd n' s ∧ loose_batch s.(a_nsqd) n' xs)).
  { case_bool_decide; [by apply Hnil|].
    eapply hsafe_bind; [by apply hsafe_throwIf|]. intros [] s' _ _ [-> Hb]. bool_to_prop.
    eapply hsafe_bind; [by apply hsafe_new_message|]. intros x s' K L (n' & -> & (v & Hv) & Hk).
    apply hsafe_ret; [done|]. exists n'. split; [done|]. split_and!.
    - exists [v]. by constructor.
    - apply NoDup_singleton.
    - intros y w Hy. destruct (Hk y w Hy). split; [done|]. by rewrite list_elem_of_singleton. }
  intros xs s1 K1 L1 (n1 & -> & Hxs). destruct err; [apply hsafe_ret; [done|by exists n1]|].
  eapply hsafe_bind; [apply (IH _ _ _ (set_a_nsqd n1 s)); [done|by apply (lt_topics _ _ L1)]|].
  intros ys s2 K2 L2 (n2 & -> & Hys). apply hsafe_ret; [done|]. exists n2. split; [done|].
  by eapply loose_batch_app.
Qed.

Lemma run_doMPUB out : runs (do_mpub out).
Proof.
  intros req s Hs. unfold doMPUB.
  eapply hsafe_bind; [by apply hsafe_getOpts|]. intros o s' _ _ [-> ->].
  eapply hsafe_bind; [by apply hsafe_throwIf|]. intros [] s' _ _ [-> _].
  eapply hsafe_bind; [by apply hsafe_getTopicFromQuery|]. intros [m l] s1 K1 _ (n1 & -> & Hl & Em). cbn in Hl, Em.
  eapply (hsafe_bind _ _ _ (λ _ s', s' = set_a_nsqd n1 s)).
  { destruct (m !! bytes_of_string "binary") as [vs|] eqn:Ev; [|by apply hsafe_ret].
    eapply hsafe_bind; [apply hsafe_lift; [done|by eapply values_ok]|]. intros d s' _ _ [-> _]. by apply hsafe_ret. }
  intros binary s' _ _ ->.
  eapply (hsafe_bind _ _ _ (λ xs s', ∃ n', s' = set_a_nsqd n' s ∧ (∃ ms, Forall2 (loose n') xs ms) ∧ NoDup xs)).
  { destruct binary.
    - eapply hsafe_weaken; [apply hsafe_protocol; [done|]|].
      + eapply (psafe_readMPUB _ channel_queue topic_queue memory_queue GetLookupdTopicChannels compiles (λ _ _, true)
          (λ _, Prelude.Err "") [] (λ _, None) Quote) with (io := λ n n', n' = n);
          [apply K1|apply body_reader_safe|done|by intros ????->|apply K1|done|done].
      + intros xs s' (n' & -> & Hxs). by exists n'.
    - cbv zeta. destruct (limited _ req) as [body bodyErr].
      eapply hsafe_weaken; [apply (run_mpub_blocks out l _ bodyErr _ _ _ _ (set_a_nsqd n1 s)); [done|done]|].
      intros xs s' (n' & -> & Hms & Hnd & _). by exists n'. }
  intros xs s2 K2 L2 (n2 & -> & (ms & Hms) & Hnd).
  eapply hsafe_bind.
  { apply hsafe_nsqd; [done|]. eapply safe_PutMessages; [apply K2|by apply (lt_topics _ _ L2)|exact Hms|done]. }
  intros [e|] s3 K3 _ (n3 & -> & _); [by apply hsafe_throw|by apply hsafe_ret].
Qed.

Lemma hsafe_persist out s : app_ok s → hsafe (persist range marshal_meta out) s (λ _ s', s'.(a_nsqd) = s.(a_nsqd)).
Proof.
  intros Hs. destruct (metadata_ok s.(a_opts) compiles range range_perm s.(a_nsqd) (ap_nsqd _ Hs)) as [js Hjs].
  unfold hsafe, persist, PersistMetadata. rewrite Hjs. cbn [mbind option_bind].
  assert (Hk : ∀ fs, app_ok (mkApp s.(a_nsqd) fs s.(a_opts) s.(a_optsNotificationChan) s.(a_blockRate))).
  { intros fs. split; apply Hs. }
  destruct (writeSyncFile _ _ _ _) as [fs [e|]].
  - eexists (Ok ()), _. split_and!; [reflexivity|apply Hk|apply later_refl|done].
  - destruct (Rename _ _ _ _) as [fs' e']. eexists (Ok ()), _. split_and!; [reflexivity|apply Hk|apply later_refl|done].
Qed.

(** A call on a topic, then an answer. *)
Lemma hsafe_topic_call {A} l (m : Opts.Options → ST _ A) s (k : A → M (data json)) : app_ok s → topic_in s.(a_nsqd) l →
  safe s.(a_opts) compiles (on_topic l (m s.(a_opts))) s.(a_nsqd) (λ _ n', quiet s.(a_nsqd) n') →
  (∀ a s', app_ok s' → hsafe (k a) s' done_) → hsafe (a ← on_nsqd (λ o, on_topic l (m o)); k a) s done_.
Proof.
  intros Hs Hl Hm Hk. eapply hsafe_bind; [by apply (hsafe_nsqd (λ o, on_topic l (m o)))|]. intros a s' K _ _. by apply Hk.
Qed.

Lemma hsafe_nil s : app_ok s → hsafe (mret DNil : M (data json)) s done_.
Proof. intros. by apply hsafe_ret. Qed.

Lemma run_doCreateTopic : runs (doCreateTopic range channel_queue topic_queue memory_queue e2e lookupdHTTPAddrs GetLookupdTopicChannels).
Proof. intros req s Hs. eapply hsafe_bind; [by apply hsafe_getTopicFromQuery|]. intros r s' K _ _. by apply hsafe_nil. Qed.

Lemma run_doEmptyTopic : runs doEmptyTopic.
Proof.
  intros req s Hs. apply hsafe_params; [done|]. intros rp E. eapply hsafe_arg; [done|done|]. intros nm.
  eapply hsafe_bind; [by apply hsafe_throwIf|]. intros [] s' _ _ [-> _].
  eapply hsafe_bind; [by apply hsafe_need_topic|]. intros l s' _ _ [-> Hl].
  apply (hsafe_topic_call l (λ _, t_Empty)); [done|done| |intros [e|] s' K; [by apply hsafe_throw|by apply hsafe_nil]].
  apply safe_topic; [apply Hs|done|]. intros F h cs t T. destruct (t_Empty_ok F h cs t T) as (err & t' & E' & T' & _). by eexists _, _.
Qed.

Lemma run_doDeleteTopic : runs (doDeleteTopic range).
Proof.
  intros req s Hs. apply hsafe_params; [done|]. intros rp E. eapply hsafe_arg; [done|done|]. intros nm.
  eapply hsafe_bind.
  { apply (hsafe_nsqd (λ o, DeleteExistingTopic o range nm)); [done|]. eapply safe_DeleteExistingTopic; [exact range_perm|exact memory_put|apply Hs]. }
  intros [[e|]|] s' K _ _; [by apply hsafe_throw|by apply hsafe_nil|by apply hsafe_wait].
Qed.

Lemma run_doPauseTopic out : runs (doPauseTopic range marshal_meta out).
Proof.
  intros req s Hs. apply hsafe_params; [done|]. intros rp E. eapply hsafe_arg; [done|done|]. intros nm.
  eapply hsafe_bind; [by apply hsafe_need_topic|]. intros l s' _ _ [-> Hl].
  apply (hsafe_topic_call l (λ _, if unpauses req then t_UnPause else t_Pause)); [done|done| |].
  - destruct (unpauses req); by apply safe_t_doPause; [apply Hs|].
  - intros [] s' K. eapply hsafe_bind; [by apply hsafe_persist|]. intros [] s2 K2 _ _. by apply hsafe_nil.
Qed.

Lemma run_doCreateChannel : runs (doCreateChannel range channel_queue e2e).
Proof.
  intros req s Hs. eapply hsafe_bind; [by apply hsafe_getExistingTopicFromQuery|]. intros [l ch] s' _ _ [-> Hl]. cbn in Hl.
  eapply (hsafe_topic_call l (λ o, GetChannel (Opts.chan_options o) range channel_queue e2e ch) s (λ _, mret DNil)); [done|done| |].
  - eapply safe_weaken; [apply safe_GetChannel; [exact range_perm|apply Hs|done]|]. by intros k n' _ _ [? _].
  - intros k s' K. by apply hsafe_nil.
Qed.

Lemma hsafe_need_channel l ch s : app_ok s → topic_in s.(a_nsqd) l →
  hsafe (need_channel l ch) s (λ c s', chan_in s'.(a_nsqd) c).
Proof.
  intros Hs Hl. destruct Hl as [t Ht]. unfold need_channel.
  eapply hsafe_bind.
  { apply (hsafe_nsqd (λ _, on_topic l (GetExistingChannel ch)) _ (λ r n', match r with Ok c => chan_in n' c | Prelude.Err _ => True end)); [done|].
    eapply safe_weaken.
    - apply (safe_on_topic _ _ l t _ _ (λ r p, match r with Ok c => is_Some (p.1.2 !! c) | Prelude.Err _ => True end)); [apply Hs|done|].
      intros T. unfold GetExistingChannel. destruct (t_channelMap t !! ch) as [c|] eqn:Ec.
      + eexists (Ok c), _. split_and!; [unfold mbind, ST_bind, getST; cbn; by rewrite Ec|exact T|]. cbn.
        by apply (tk_map _ _ T ch).
      + eexists (Prelude.Err _), _. split_and!; [unfold mbind, ST_bind, getST; cbn; by rewrite Ec|exact T|done].
    - intros [c|e] n' _ _ [_ (s' & -> & Hc)]; [exact Hc|done]. }
  intros [c|e] s' K _ (n' & -> & Hc); [by apply hsafe_ret|by apply hsafe_throw].
Qed.

(** A call whose result is forgotten is as safe as the call. *)
Lemma on_channel_forget {A} c (m : ST (heap (Client.clientV2 W) * Channel D Q) A) n n' :
  on_channel c (_ ← m; mret ()) n = Some ((), n') → ∃ a, on_channel (B:=B) (MB:=MB) c m n = Some (a, n').
Proof.
  unfold on_channel. unfold mbind, ST_bind, getST, liftST, putST. destruct (n_chans n !! c) as [ch|]; cbn; [|done].
  destruct (m (n_heap n, ch)) as [[a [h' c']]|]; cbn; [|done]. intros [= <-]. by eexists.
Qed.

Lemma run_doEmptyChannel : runs doEmptyChannel.
Proof.
  intros req s Hs. eapply hsafe_bind; [by apply hsafe_getExistingTopicFromQuery|]. intros [l ch] s' _ _ [-> Hl]. cbn in Hl.
  eapply hsafe_bind; [by apply hsafe_need_channel|]. intros c s1 K1 _ Hc.
  eapply hsafe_bind.
  { apply (hsafe_nsqd (λ o, on_channel c (Channel.Empty (Opts.chan_options o))) _ (λ _ _, True)); [done|].
    destruct (safe_channel_exec s1.(a_opts) compiles range range_perm recv_small OpEmpty c s1.(a_nsqd) (ap_nsqd _ K1) Hc I) as ([] & n' & E & K & L & _).
    destruct (on_channel_forget c _ _ _ E) as [a E']. by exists a, n'. }
  intros [e|] s2 K2 _ _; [by apply hsafe_throw|by apply hsafe_nil].
Qed.

Lemma run_doDeleteChannel : runs (doDeleteChannel range).
Proof.
  intros req s Hs. eapply hsafe_bind; [by apply hsafe_getExistingTopicFromQuery|]. intros [l ch] s' _ _ [-> Hl]. cbn in Hl.
  apply (hsafe_topic_call l (λ o, DeleteExistingChannel (Opts.chan_options o) range ch)); [done|done| |].
  - apply safe_topic; [apply Hs|done|]. intros F h cs t T.
    destruct (DeleteChannel_ok (Opts.chan_options (a_opts s)) range range_perm F ch h cs t T) as (err & s' & E' & T' & _). by eexists _, _.
  - intros [e|] s' K; [by apply hsafe_throw|by apply hsafe_nil].
Qed.

Lemma run_doPauseChannel out : runs (doPauseChannel range marshal_meta out).
Proof.
  intros req s Hs. eapply hsafe_bind; [by apply hsafe_getExistingTopicFromQuery|]. intros [l ch] s' _ _ [-> Hl]. cbn in Hl.
  eapply hsafe_bind; [by apply hsafe_need_channel|]. intros c s1 K1 _ Hc.
  eapply hsafe_bind.
  { apply (hsafe_nsqd (λ _, on_channel c (if unpauses req then Channel.UnPause else Channel.Pause))); [done|].
    destruct (unpauses req); apply (safe_doPause _ _ range range_perm recv_small _ c); [apply K1|done|apply K1|done]. }
  intros [] s2 K2 _ _. eapply hsafe_bind; [by apply hsafe_persist|]. intros [] s3 K3 _ _. by apply hsafe_nil.
Qed.

(** ** Handlers that look, and the options *)

Lemma looks_get s : looks get s.
Proof. by eexists. Qed.
Lemma looks_getOpts s : looks getOpts s.
Proof. by eexists. Qed.

Lemma run_looks (f : request → M (data json)) : (∀ req s, app_ok s → looks (f req) s) → runs f.
Proof. intros Hf req s Hs. eapply hsafe_weaken; [apply looks_hsafe; [done|by apply Hf]|done]. Qed.

Lemma looks_pingHandler req s : looks (pingHandler req) s.
Proof.
  apply looks_bind; [apply looks_get|]. intros x _. destruct (IsHealthy _); [by apply looks_ret|by apply looks_throw].
Qed.

Lemma looks_doInfo out req s : looks (doInfo RealTCPPort RealHTTPPort startTime out req) s.
Proof.
  apply looks_bind; [apply looks_getOpts|]. intros o _. destruct (o_hostname out); [by apply looks_ret|by apply looks_throw].
Qed.

Notation do_stats := (doStats range startTime format_time format_duration go_version).

Lemma looks_doStats out req s : app_ok s → looks (do_stats out req) s.
Proof.
  intros Hs. apply looks_bind; [apply looks_new_params|]. intros rp E%new_params_ok.
  do 4 (apply looks_bind; [by eapply looks_opt_arg|]; intros ? _). cbv zeta.
  apply looks_bind; [apply looks_get|]. intros x [= <-].
  destruct (GetProducerStats_total _ _ (ap_nsqd _ Hs)) as [ps Eps].
  apply looks_bind; [destruct (default true _); [apply looks_lift; by eexists|apply looks_ret]|]. intros ps' _.
  apply looks_bind; [apply looks_lift, (GetStats_total _ _ _ _ _ _ (ap_nsqd _ Hs))|]. intros st _.
  destruct (if bool_decide _ then _ else _) as [st2 ps2].
  apply looks_bind; [apply looks_lift, getMemStats_total|]. intros ms _.
  case_bool_decide; apply looks_ret.
Qed.

Lemma hsafe_doConfig req s : app_ok s →
  hsafe (doConfig parse_json beyond req) s (λ _ _, True) ∧ (req.(Method) ≠ bytes_of_string "PUT" → looks (doConfig parse_json beyond req) s).
Proof.
  intros Hs. unfold doConfig. cbv zeta.
  assert (Hend : ∀ s, looks (o ← getOpts; match getOptByCfgName o (RouteParam req) with
    | None => throw 400 "INVALID_OPTION" | Some v => mret (opt_data v) end) s).
  { intros s0. apply looks_bind; [apply looks_getOpts|]. intros o _. destruct (getOptByCfgName _ _); [by apply looks_ret|by apply looks_throw]. }
  case_bool_decide as Hm; (split; [|intros Hne]); [|done| |].
  - eapply (hsafe_bind _ _ _ (λ _ _, True)).
    + eapply hsafe_bind; [by apply hsafe_getOpts|]. intros o s' _ _ [-> ->].
      destruct (ReadLimited _ req) as [body|]; [|by apply hsafe_throw].
      eapply hsafe_bind; [by apply hsafe_throwIf|]. intros [] s' _ _ [-> _].
      eapply (hsafe_bind _ _ _ (λ o s', s'.(a_nsqd) = s.(a_nsqd) ∧ options_ok o ∧ daemon_ok o compiles s.(a_nsqd))).
      * pose proof Hs as [Ho Hn]. unfold config_value. case_bool_decide.
        -- destruct (parse_json body) as [v|]; [|by apply hsafe_throw].
           eapply (hsafe_bind _ _ _ (λ _ s', s'.(a_nsqd) = s.(a_nsqd) ∧ app_ok s')).
           { eexists (Ok ()), _. assert (Hs' : app_ok (mkApp s.(a_nsqd) s.(a_files)
               (set_NSQLookupdTCPAddresses (Unmarshal.shared_after v s.(a_opts).(Opts.NSQLookupdTCPAddresses)) s.(a_opts)) s.(a_optsNotificationChan) s.(a_blockRate))).
             { split; [by apply (config_options _ _ 0)|by apply (config_nsqd _ _ 0)]. }
             split; [reflexivity|]. split; [done|]. split; [apply later_refl|by split]. }
           intros [] s' _ _ [En Hs']. destruct (Unmarshal.unmarshal _ _ _); [|by apply hsafe_throw]. apply hsafe_ret; [done|].
           split_and!; [done|by apply (config_options _ _ 0)|by apply (config_nsqd _ _ 0)].
        -- case_bool_decide; [|by apply hsafe_throw]. destruct (ParseLogLevel _); [|by apply hsafe_throw].
           apply hsafe_ret; [done|]. split_and!; [done|by apply (config_options _ [])|by apply (config_nsqd _ [])].
      * intros o s' K _ (En & Ho & Hn). rewrite <- En in Hn. eexists (Ok ()), _. split_and!; [reflexivity|by split|apply later_refl|done].
    + intros [] s' K _ _. eapply hsafe_weaken; [apply looks_hsafe; [done|apply Hend]|done].
  - eapply hsafe_bind; [by apply (hsafe_ret () s (λ _ s', s' = s))|]. intros [] s' _ _ ->.
    eapply hsafe_weaken; [apply looks_hsafe; [done|apply Hend]|done].
  - apply looks_bind; [apply looks_ret|]. intros [] _. apply Hend.
Qed.

(** ** The routes *)

Context (marshal : json → res string bytes) (marshal_error : Err → bytes) (marshal_message : bytes → bytes).
Context (sprint : json → bytes).

(** Answering a request of a route: no panic, at most one response and, if the
    call returns, exactly one; the daemon stays well-formed, and as it was for
    a GET. *)
Definition answers (m : string) (h : APIHandler app json) : Prop :=
  ∀ req st, req.(Method) = bytes_of_string m → app_ok st.(hs_app) →
    ∃ r s' sent log, h req st = Some (r, mkHttp s' (st.(hs_sent) ++ sent) log) ∧ app_ok s' ∧
      length sent = (if r then 1 else 0)%nat ∧ (m = "GET"%string → s' = st.(hs_app) ∧ r ≠ None).

Lemma answer_eq (f : M (data json)) s : app_ok s → hsafe f s (λ _ _, True) →
  ∃ r s', answer f s = Some (r, s') ∧ app_ok s' ∧ (looks f s → s' = s ∧ r ≠ None).
Proof.
  intros Hs ([d|[e|]] & s' & E & K & _); unfold answer; rewrite E; eexists _, s'; (split_and!; [reflexivity|done|]);
    intros (r & Er & Hw); rewrite Er in E; naive_solver.
Qed.

Notation the_V1 := (V1 marshal marshal_error marshal_message sprint).

Lemma routed_answers m ds f : ds = [Log; the_V1] ∨ ds = [the_V1] → runs f →
  (m = "GET"%string → ∀ req s, req.(Method) = bytes_of_string m → app_ok s → looks (f req) s) →
  answers m (route ds f).
Proof.
  intros Hds Hf Hg req st Hm Hs. destruct (answer_eq (f req) st.(hs_app) Hs (Hf req _ Hs)) as (r & s' & E & K & Hl).
  assert (Hget : m = "GET"%string → s' = hs_app st ∧ r ≠ None).
  { intros Hme. by apply Hl, Hg. }
  unfold route. destruct r as [r|].
  - destruct Hds as [->| ->].
    + exists (Some (Ok DNil)), s', [v1_response marshal marshal_error marshal_message sprint r]. eexists. split_and!; [|done|done|].
      * by apply (decorate_waiting_ok marshal marshal_error marshal_message sprint).
      * intros ?%Hget. naive_solver.
    + exists (Some (Ok DNil)), s', [v1_response marshal marshal_error marshal_message sprint r]. eexists. split_and!; [|done|done|].
      * by apply (decorate_unlogged_ok marshal marshal_error marshal_message sprint).
      * intros ?%Hget. naive_solver.
  - exists None, s', [], st.(hs_log). split_and!; [|done|done|done].
    rewrite app_nil_r. destruct Hds as [->| ->]; unfold Decorate, V1, Log, after, on_app_waiting; cbn [foldl];
      unfold mbind, ST_bind, option_bind; by rewrite E.
Qed.

Notation the_server out := (newHTTPServer range channel_queue topic_queue memory_queue e2e lookupdHTTPAddrs GetLookupdTopicChannels
  marshal_meta parse_json beyond RealTCPPort RealHTTPPort startTime format_time format_duration go_version FormValue Quote
  marshal marshal_error marshal_message sprint out).

Lemma ping_answers : answers "GET" (route [Log; PlainText] pingHandler).
Proof.
  intros req st _ Hs. unfold route, Decorate, PlainText, Log, after, on_app_waiting. cbn [foldl].
  unfold answer, pingHandler, get. unfold mbind, ST_bind, HM_bind, option_bind. cbn.
  destruct (IsHealthy _); cbn; eexists _, st.(hs_app), [_], _; by split_and!.
Qed.


(** A request that sets the block rate to a number sets it, and then
    panics: the handler answers [nil], which [PlainText] does not know. *)
Theorem setblockrate_panics req st rate : Decimal.ParseInt (FormValue req (bytes_of_string "rate")) = Ok rate →
  answer (setBlockRateHandler (W:=W) (D:=D) (Q:=Q) (B:=B) (MB:=MB) FormValue Quote req) st.(hs_app)
    = Some (Some (Ok DNil), mkApp st.(hs_app).(a_nsqd) st.(hs_app).(a_files) st.(hs_app).(a_opts)
        st.(hs_app).(a_optsNotificationChan) rate) ∧
  route [Log; PlainText] (setBlockRateHandler FormValue Quote) req st = None.
Proof.
  intros E. assert (Ea : answer (setBlockRateHandler FormValue Quote req) st.(hs_app)
    = Some (Some (Ok DNil), mkApp st.(hs_app).(a_nsqd) st.(hs_app).(a_files) st.(hs_app).(a_opts)
        st.(hs_app).(a_optsNotificationChan) rate)).
  { unfold answer, setBlockRateHandler. cbv zeta. by rewrite E. }
  split; [exact Ea|]. unfold route, Decorate, PlainText, Log, after, on_app_waiting. cbn [foldl].
  unfold mbind, ST_bind, option_bind. by rewrite Ea.
Qed.

End http.
End NsqdHTTPSpec.
