(* ===== verification/NsqdHTTPEffects.v ===== *)
(** * What requests to nsqd do

    A message published over HTTP is the one that was sent ([http_pub_held]),
    a batch in text mode is its lines, a pause asked for over HTTP is still
    there after a restart, and an option that was set is the one that is read
    afterwards. *)
From stdpp Require Import base gmap list strings.
From Stdlib Require Import ZArith QArith Lia.
From S2P Require Import Prelude.
From S2P Require Import Decimal.
From S2P Require Import Text.
From S2P Require Import Message.
From S2P Require Import Guid.
From S2P Require Import Wire.
From S2P Require Import HttpApi.
From S2P Require Import Heap.
From S2P Require Import Backend.
From S2P Require Import Quantile.
From S2P Require Import Channel.
From S2P Require Import ChannelProofs.
From S2P Require Import ChannelProps.
From S2P Require Import ChannelFrame.
From S2P Require Import Topic.
From S2P Require Import TopicProofs.
From S2P Require Import TopicProps.
From S2P Require Import Options.
From S2P Require Import Client.
From S2P Require Import ClientProps.
From S2P Require Import Nsqd.
From S2P Require Import DaemonProofs.
From S2P Require Import MetadataProps.
From S2P Require Import Protocol.
From S2P Require Import ProtocolProofs.
From S2P Require Import ProtocolProps.
From S2P Require Import Stats.
From S2P Require Import NsqdHTTP.
Set Default Goal Selector "!".
Local Open Scope Z_scope.

Module NsqdHTTPEffects.
Import Wire HttpApi Channel ChannelP ChannelSpec ChannelF Topic TopicP TopicSpec ClientSpec Nsqd DaemonP Metadata Protocol ProtocolP ProtocolSpec Stats NsqdHTTP.

Section effects.
Context {W D Q B MB : Type}.
Context `{Client.ConnWriter W, !BackendQueue D, !BackendLaws D, QuantileStream Q, LatencyStream Q,
          !BackendQueue B, !BackendLaws B, UnloggedQueue MB}.
Context (compiles : bytes → bool) (range : ∀ A : Type, list A → list A).
Context (channel_queue : bytes → D) (topic_queue : bytes → B) (memory_queue : bytes → MB) (e2e : option Q).
Context (lookupdHTTPAddrs : list bytes) (GetLookupdTopicChannels : bytes → list bytes).

Notation nsqd := (NSQD W D Q B MB).
Notation app := (app W D Q B MB).
Notation M := (HM app).
Implicit Types (s : app) (n : nsqd).

(** ** Steps that succeed *)

Lemma HM_bind_ok {A A'} (m : M A) (f : A → M A') s a s' : m s = Some (Ok a, s') → (m ≫= f) s = f a s'.
Proof. intros E. unfold mbind, HM_bind. by rewrite E. Qed.

Lemma HM_bind_err {A A'} (m : M A) (f : A → M A') s e s' : m s = Some (Prelude.Err e, s') → (m ≫= f) s = Some (Prelude.Err e, s').
Proof. intros E. unfold mbind, HM_bind. by rewrite E. Qed.

Lemma throwIf_pass b c t s : b = false → throwIf b c t s = Some (Ok (), s).
Proof. by intros ->. Qed.

Lemma on_nsqd_eq {A} (m : Opts.Options → ST nsqd A) s a n' :
  m s.(a_opts) s.(a_nsqd) = Some (a, n') → on_nsqd m s = Some (Ok a, set_a_nsqd n' s).
Proof. intros E. unfold on_nsqd. by rewrite E. Qed.

Lemma on_protocol_eq {A} (m : Opts.Options → PM nsqd A) err s a n' :
  m s.(a_opts) s.(a_nsqd) = Some (Ok a, n') → on_protocol m err s = Some (Ok a, set_a_nsqd n' s).
Proof. intros E. unfold on_protocol. by rewrite (HM_bind_ok _ _ _ _ _ (on_nsqd_eq _ _ _ _ E)). Qed.

(** ** Publishing *)

(** The request names a topic that exists. *)
Record names_topic (req : request) s (m : gmap (list Byte.byte) (list bytes)) (topicName : bytes) (l : loc) (t : Topic B MB) : Prop := {
  nt_query : ParseQuery req.(RawQuery) = Some m;
  nt_param : ∃ more, m !! bytes_of_string "topic" = Some (topicName :: more);
  nt_valid : Names.IsValidTopicName topicName = true;
  nt_map : s.(a_nsqd).(topicMap) !! topicName = Some l;
  nt_topic : s.(a_nsqd).(n_topics) !! l = Some t;
}.

Notation get_topic := (getTopicFromQuery range channel_queue topic_queue memory_queue e2e lookupdHTTPAddrs GetLookupdTopicChannels).
Notation do_pub := (doPUB range channel_queue topic_queue memory_queue e2e lookupdHTTPAddrs GetLookupdTopicChannels).
Notation do_mpub := (doMPUB range channel_queue topic_queue memory_queue e2e lookupdHTTPAddrs GetLookupdTopicChannels).

Lemma getTopicFromQuery_eq req s m nm l t : names_topic req s m nm l t → get_topic req s = Some (Ok (m, l), s).
Proof.
  intros [Em (more & Et) Hv Hl _]. unfold getTopicFromQuery. rewrite Em, Et.
  erewrite HM_bind_ok by reflexivity. erewrite HM_bind_ok by (by apply throwIf_pass; rewrite Hv).
  erewrite HM_bind_ok; [|apply (on_nsqd_eq _ s l s.(a_nsqd)); unfold GetTopic, mbind, ST_bind, getST; cbn; by rewrite Hl].
  by destruct s.
Qed.

(** A new message, put to its topic. *)
Lemma new_then_put o now nows n l (t : Topic B MB) body d f mid :
  options_ok o → daemon_ok o compiles n → n.(n_topics) !! l = Some t → t.(t_exitFlag) = false →
  Guid.GenerateID nows t.(t_idFactory) = (f, Some mid) → Z.of_nat (length body) <= o.(Opts.MaxMsgSize) →
  let m := set_deferred d (NewMessage now mid body) in
  ∃ n1 err n' t', new_message now nows l body d n = Some (Ok n.(n_heap).(next), n1) ∧
    on_topic l (Topic.t_PutMessage (Opts.chan_options o) n.(n_heap).(next)) n1 = Some (err, n') ∧
    n'.(n_topics) = <[l := t']> n.(n_topics) ∧ n'.(n_chans) = n.(n_chans) ∧ n'.(topicMap) = n.(topicMap) ∧
    n'.(n_heap).(consumers) = n.(n_heap).(consumers) ∧
    match err with
    | None => t'.(t_messageCount) = u64 (t.(t_messageCount) + 1) ∧
        t'.(t_messageBytes) = u64 (t.(t_messageBytes) + Z.of_nat (length body)) ∧
        ∀ k L, t_holds (S k) n.(n_heap) t L → t_holds k n'.(n_heap) t' (msg_sig m :: L)
    | Some _ => t'.(t_messageCount) = t.(t_messageCount) ∧ t'.(t_messageBytes) = t.(t_messageBytes) ∧
        ∀ k L, t_holds (S k) n.(n_heap) t L → t_holds k n'.(n_heap) t' L ∨ t_holds k n'.(n_heap) t' (msg_sig m :: L)
    end.
Proof.
  intros oo Hn Ht Hx Hg Hb m.
  assert (Hm : small m) by (apply (small_new o now mid body d oo); [by eapply GenerateID_length|lia]).
  destruct (topic_at o compiles n l t Hn Ht) as [T _].
  set (t1 := set_t_idFactory f t). assert (T1 : topic_ok (frame_at n l) (n.(n_heap), n.(n_chans), t1)) by by apply (topic_ok_other _ _ _ t).
  destruct (put_message_exact (Opts.chan_options o) (frame_at n l) _ _ t1 m T1 Hm Hx) as (err & h' & t' & E & Ec & Hres).
  eexists _, err, _, t'. split; [by apply (new_message_eq now nows l t body d n f mid)|].
  split; [eapply on_topic_eq; [cbn; apply lookup_insert_eq|exact E]|].
  split; [cbn; by rewrite !insert_insert_eq|]. split; [done|]. split; [done|]. split; [exact Ec|].
  destruct err; exact Hres.
Qed.

(** The deferral the request asks for. *)
Definition defers (o : Opts.Options) (m : gmap (list Byte.byte) (list bytes)) (d : duration) : Prop :=
  match m !! bytes_of_string "defer" with
  | None => d = 0
  | Some ds => ∃ v more k, ds = v :: more ∧ Decimal.ParseInt v = Ok k ∧ d = Client.from_ms k ∧ 0 <= d <= o.(Opts.MaxReqTimeout)
  end.

(** C8: A message of at most the maximal size, published over HTTP to a topic
    that exists, is answered OK exactly when the topic took it: then the topic
    holds what it held and a message with the body that was sent, the
    deferral that was asked for, a new identifier and the time of the request,
    and counts it. Otherwise the answer is 503 EXITING, and the topic counts
    nothing and holds what it held, with or without the message. No other
    topic, no channel and no client is touched. *)
Theorem http_pub_held out req s m topicName l t d f mid :
  options_ok s.(a_opts) → daemon_ok s.(a_opts) compiles s.(a_nsqd) →
  names_topic req s m topicName l t → defers s.(a_opts) m d →
  t.(t_exitFlag) = false → Guid.GenerateID (out.(o_nows) 0%nat) t.(t_idFactory) = (f, Some mid) →
  req.(ContentLength) <= s.(a_opts).(Opts.MaxMsgSize) → req.(BodyErr) = None →
  0 < Z.of_nat (length req.(Body)) <= s.(a_opts).(Opts.MaxMsgSize) →
  let msg := set_deferred d (NewMessage (out.(o_clock) 0%nat) mid req.(Body)) in
  ∃ r n' t', do_pub out req s = Some (r, set_a_nsqd n' s) ∧
    n'.(n_topics) = <[l := t']> s.(a_nsqd).(n_topics) ∧ n'.(n_chans) = s.(a_nsqd).(n_chans) ∧
    n'.(topicMap) = s.(a_nsqd).(topicMap) ∧ n'.(n_heap).(consumers) = s.(a_nsqd).(n_heap).(consumers) ∧
    match r with
    | Ok a => a = DString (bytes_of_string "OK") ∧
        t'.(t_messageCount) = u64 (t.(t_messageCount) + 1) ∧
        t'.(t_messageBytes) = u64 (t.(t_messageBytes) + Z.of_nat (length req.(Body))) ∧
        ∀ k L, t_holds (S k) s.(a_nsqd).(n_heap) t L → t_holds k n'.(n_heap) t' (msg_sig msg :: L)
    | Prelude.Err e => e = Throw (mkErr 503 "EXITING") ∧
        t'.(t_messageCount) = t.(t_messageCount) ∧ t'.(t_messageBytes) = t.(t_messageBytes) ∧
        ∀ k L, t_holds (S k) s.(a_nsqd).(n_heap) t L →
          t_holds k n'.(n_heap) t' L ∨ t_holds k n'.(n_heap) t' (msg_sig msg :: L)
    end.
Proof.
  intros oo Hn Hnt Hd Hx Hg Hcl Hbe Hb msg.
  destruct (new_then_put _ (out.(o_clock) 0%nat) _ _ _ _ req.(Body) d _ _ oo Hn (nt_topic _ _ _ _ _ _ Hnt) Hx Hg) as
    (n1 & err & n' & t' & E1 & E2 & Htopics & Hchans & Hmap & Hcons & Hres); [lia|].
  exists (match err with None => Ok (DString (bytes_of_string "OK")) | Some _ => Prelude.Err (Throw (mkErr 503 "EXITING")) end), n', t'.
  split; [|split_and!; [done..|by destruct err]].
  unfold doPUB. erewrite HM_bind_ok by reflexivity.
  erewrite HM_bind_ok by (apply throwIf_pass; lia). cbv zeta.
  pose proof (oo_size _ oo). rewrite i64_id by (unfold in_i64; lia).
  unfold ReadLimited, ReadAll. rewrite (proj2 (Z.leb_gt _ _)) by lia. rewrite Hbe.
  erewrite HM_bind_ok by (apply throwIf_pass; lia).
  erewrite HM_bind_ok by (apply throwIf_pass, bool_decide_eq_false; intros Eb; rewrite Eb in Hb; cbn in Hb; lia).
  erewrite HM_bind_ok by (by eapply getTopicFromQuery_eq). cbv beta iota.
  erewrite (HM_bind_ok _ _ _ d s).
  2: { unfold defers in Hd. destruct (m !! bytes_of_string "defer"); [|by subst].
       destruct Hd as (v & more & k & -> & Hk & -> & Hk0). erewrite HM_bind_ok by reflexivity. rewrite Hk. cbv zeta.
       by erewrite HM_bind_ok by (apply throwIf_pass; lia). }
  erewrite HM_bind_ok by (by apply on_protocol_eq).
  erewrite HM_bind_ok; [|apply on_nsqd_eq; exact E2]. by destruct err.
Qed.

(** ** A batch in text mode *)

Lemma ReadString_some (b : bytes) blk rest : ReadString b = Some (blk, rest) →
  ∃ w, blk = w ++ [newline] ∧ Split.split newline b = w :: Split.split newline rest ∧ (length b = length blk + length rest)%nat.
Proof.
  revert blk rest. induction b as [|x b IH]; intros blk rest; cbn; [done|]. case_bool_decide as Hx.
  - intros [= <- <-]. exists []. by rewrite Hx.
  - destruct (ReadString b) as [[l r]|]; cbn; [|done]. intros [= <- <-]. destruct (IH _ _ eq_refl) as (w & -> & Es & El).
    exists (x :: w). rewrite Es. split_and!; [done|done|]. cbn. rewrite El. lia.
Qed.

Lemma ReadString_none (b : bytes) : ReadString b = None → Split.split newline b = [b] ∧ last b ≠ Some newline.
Proof.
  induction b as [|x b IH]; cbn [ReadString]; [done|]. case_bool_decide as Hx; [done|]. destruct (ReadString b) as [[l r]|]; [done|].
  intros _. destruct (IH eq_refl) as [Es El]. cbn [Split.split]. rewrite bool_decide_eq_false_2 by done. rewrite Es. split; [done|].
  destruct b as [|y b]; [cbn; congruence|exact El].
Qed.

(** What text mode is meant to do: a message for each line that is not
    empty. *)
Fixpoint messages_of (out : outside) (o : Opts.Options) (l : loc) (lines : list bytes) (i : nat) : M (list loc) :=
  match lines with
  | [] => mret []
  | line :: lines =>
    _ ← throwIf (o.(Opts.MaxMsgSize) <? Z.of_nat (length line)) 413 "MSG_TOO_BIG";
    msg ← on_protocol (λ _, new_message (out.(o_clock) i) (out.(o_nows) i) l line 0) (λ _, mkErr 500 "");
    more ← messages_of out o l lines (S i);
    mret (msg :: more)
  end.
Definition lines (body : bytes) : list bytes := filter (λ line, line ≠ []) (Split.split newline body).

Lemma HM_ext {A A'} (m : M A) (f g : A → M A') s : (∀ a s', f a s' = g a s') → (m ≫= f) s = (m ≫= g) s.
Proof. intros E. unfold mbind, HM_bind. destruct (m s) as [[[a|e] s']|]; [apply E|done|done]. Qed.

Lemma HM_assoc {A A' A''} (m : M A) (f : A → M A') (g : A' → M A'') s : ((m ≫= f) ≫= g) s = (m ≫= λ a, f a ≫= g) s.
Proof. unfold mbind, HM_bind. by destruct (m s) as [[[a|e] s']|]. Qed.

Lemma HM_eq {A A'} (m m' : M A) (f : A → M A') s : m s = m' s → (m ≫= f) s = (m' ≫= f) s.
Proof. intros E. unfold mbind, HM_bind. by rewrite E. Qed.

Lemma bind_mret {A A'} (a : A) (f : A → M A') s : (mret a ≫= f) s = f a s.
Proof. done. Qed.

Lemma mret_bind {A} (m : M A) s : (m ≫= mret) s = m s.
Proof. unfold mbind, HM_bind. by destruct (m s) as [[[a|e] s']|]. Qed.

Lemma mpub_blocks_lines out o l readMax fuel : ∀ rest total i s, (length rest < fuel)%nat → total + Z.of_nat (length rest) < readMax →
  mpub_blocks out o l readMax fuel rest None total i s = messages_of out o l (lines rest) i s.
Proof.
  induction fuel as [|fuel IH]; intros rest total i s Hf Ht; [lia|]. cbn [mpub_blocks].
  rewrite bool_decide_eq_false_2 by (intros Hn; by apply Hn). destruct (ReadString rest) as [[block rest']|] eqn:Er.
  - apply ReadString_some in Er as (w & -> & Es & El). rewrite length_app in *. cbn [length] in *. rewrite El in Hf, Ht. cbn [andb].
    erewrite HM_bind_ok by (apply throwIf_pass, Z.eqb_neq; lia). rewrite last_snoc.
    rewrite (bool_decide_eq_true_2 (Some newline = Some newline)) by done. rewrite Nat.add_sub, take_app_length. unfold lines. rewrite Es, filter_cons.
    fold (lines rest'). case_bool_decide as Hw.
    + rewrite bind_mret. rewrite (decide_False (P:=w ≠ [])) by (intros Hn; by apply Hn). rewrite Nat.add_0_r.
      rewrite (HM_ext _ _ mret) by done. rewrite mret_bind. apply IH; [lia|]. lia.
    + rewrite decide_True by done. cbn [messages_of]. rewrite !HM_assoc. apply HM_ext. intros [] s1.
      rewrite !HM_assoc. apply HM_ext. intros x s2. rewrite bind_mret. cbn [length]. rewrite Nat.add_1_r.
      replace (i + 1)%nat with (S i) by lia. apply HM_eq, IH; lia.
  - apply ReadString_none in Er as [Es Hl]. cbn [andb].
    erewrite HM_bind_ok by (apply throwIf_pass, Z.eqb_neq; lia). rewrite (bool_decide_eq_false_2 (last rest = Some newline)) by done.
    unfold lines. rewrite Es, filter_cons, filter_nil. case_bool_decide as Hw.
    + by rewrite (decide_False (P:=rest ≠ [])) by (intros Hn; by apply Hn).
    + rewrite decide_True by done. cbn [messages_of]. rewrite !HM_assoc. apply HM_ext. intros [] s1.
      rewrite !HM_assoc. apply HM_ext. intros x s2. done.
Qed.

(** A body that reaches the limit makes no batch. *)
Definition never_ok {A} (m : M A) : Prop := ∀ s r s', m s = Some (r, s') → ∃ e, r = Prelude.Err e.

Lemma never_ok_throw {A} c t : never_ok (throw (A:=A) c t).
Proof. intros s r s' [= <- _]. by eexists. Qed.

Lemma never_ok_first {A A'} (m : M A) (f : A → M A') : never_ok m → never_ok (m ≫= f).
Proof.
  intros Hm s r s'. unfold mbind, HM_bind. destruct (m s) as [[[a|e] s1]|] eqn:E; [|naive_solver..].
  by destruct (Hm _ _ _ E).
Qed.

Lemma never_ok_then {A A'} (m : M A) (f : A → M A') : (∀ a, never_ok (f a)) → never_ok (m ≫= f).
Proof.
  intros Hf s r s'. unfold mbind, HM_bind. destruct (m s) as [[[a|e] s1]|]; [apply Hf|naive_solver..].
Qed.

Lemma mpub_blocks_too_big out o l readMax bodyErr fuel : ∀ rest total i, (length rest < fuel)%nat → total + Z.of_nat (length rest) = readMax →
  never_ok (mpub_blocks out o l readMax fuel rest bodyErr total i).
Proof.
  induction fuel as [|fuel IH]; intros rest total i Hf Ht; [lia|]. cbn [mpub_blocks].
  destruct (ReadString rest) as [[block rest']|] eqn:Er.
  - apply ReadString_some in Er as (w & -> & _ & El). rewrite length_app in *. cbn [length] in *. rewrite El in Hf, Ht. cbn [andb].
    apply never_ok_then. intros []. apply never_ok_then. intros xs. apply never_ok_first. apply IH; lia.
  - cbn [andb]. case_bool_decide; [apply never_ok_throw|]. rewrite (proj2 (Z.eqb_eq _ _)) by lia.
    apply never_ok_first, never_ok_throw.
Qed.

(** The messages made of the lines, with the clock and the factory. *)
Fixpoint makes (out : outside) (i : nat) (f : Guid.guidFactory) (lines : list bytes) : option (list Message * Guid.guidFactory) :=
  match lines with
  | [] => Some ([], f)
  | line :: lines =>
    match Guid.GenerateID (out.(o_nows) i) f with
    | (f, Some mid) => '(ms, f) ← makes out (S i) f lines; Some (NewMessage (out.(o_clock) i) mid line :: ms, f)
    | _ => None
    end
  end.

Lemma makes_bodies out lines : ∀ i f ms f', makes out i f lines = Some (ms, f') →
  Message.Body <$> ms = lines ∧ Forall (λ m, length m.(ID) = MsgIDLength ∧ m.(deferred) = 0) ms.
Proof.
  induction lines as [|b lines IH]; intros i f ms f'; cbn [makes]; [by intros [= <- _]|].
  destruct (Guid.GenerateID _ f) as [f1 [mid|]] eqn:Eg; [|done]. destruct (makes out (S i) f1 lines) as [[ms1 f2]|] eqn:E; cbn; [|done].
  intros [= <- <-]. destruct (IH _ _ _ _ E) as [<- Hf]. split; [done|]. constructor; [|done]. split; [by eapply GenerateID_length|done].
Qed.

Lemma makes_small o out lines i f ms f' : options_ok o → makes out i f lines = Some (ms, f') →
  Forall (λ b, Z.of_nat (length b) <= o.(Opts.MaxMsgSize)) lines → Forall small ms.
Proof.
  intros oo [<- Hids]%makes_bodies Hb. rewrite Forall_fmap in Hb. rewrite Forall_forall in *. intros m Hm.
  pose proof (oo_size _ oo). destruct (Hids m Hm) as [Hid _]. specialize (Hb m Hm). cbn in Hb. unfold small. rewrite encode_message_eq.
  rewrite !length_app, !length_be_encode, Hid. unfold MsgIDLength. lia.
Qed.

Lemma messages_of_eq out lines : ∀ i s l (t : Topic B MB) ms f, s.(a_nsqd).(n_topics) !! l = Some t →
  makes out i t.(t_idFactory) lines = Some (ms, f) → Forall (λ b, Z.of_nat (length b) <= s.(a_opts).(Opts.MaxMsgSize)) lines →
  let tf := set_t_idFactory f t in
  ∃ xs n', messages_of out s.(a_opts) l lines i s = Some (Ok xs, set_a_nsqd n' s) ∧
    new_msgs ms (s.(a_nsqd).(n_heap), s.(a_nsqd).(n_chans), tf) = Some (xs, (n'.(n_heap), s.(a_nsqd).(n_chans), tf)) ∧
    n'.(n_topics) = <[l := tf]> s.(a_nsqd).(n_topics) ∧ n'.(n_chans) = s.(a_nsqd).(n_chans) ∧
    n'.(topicMap) = s.(a_nsqd).(topicMap) ∧ n'.(n_heap).(consumers) = s.(a_nsqd).(n_heap).(consumers).
Proof.
  induction lines as [|b lines IH]; intros i s l t ms f Ht Hm Hb tf; cbn [makes messages_of] in *.
  - injection Hm as <- <-. exists [], s.(a_nsqd). assert (tf = t) as -> by by destruct t. rewrite insert_id by done.
    split_and!; [by destruct s|done..].
  - destruct (Guid.GenerateID _ _) as [f1 [mid|]] eqn:Eg; [|done].
    destruct (makes out (S i) f1 lines) as [[ms1 f2]|] eqn:E; cbn in Hm; [|done]. injection Hm as <- <-.
    apply Forall_cons in Hb as [Hb Hbs]. pose proof (new_message_eq (out.(o_clock) i) _ l t b 0 _ _ _ Ht Eg) as En. cbv zeta in En.
    set (n1 := put_topic _ _ _) in En.
    assert (Ht1 : n1.(n_topics) !! l = Some (set_t_idFactory f1 t)) by (cbn; apply lookup_insert_eq).
    destruct (IH (S i) (set_a_nsqd n1 s) l (set_t_idFactory f1 t) ms1 f2 Ht1 E Hbs) as (xs & n' & E1 & E2 & Htop & Hch & Hmap & Hcons).
    exists (s.(a_nsqd).(n_heap).(next) :: xs), n'. split_and!.
    + erewrite HM_bind_ok by (apply throwIf_pass, Z.ltb_ge; lia). erewrite HM_bind_ok by (by apply on_protocol_eq).
      by erewrite HM_bind_ok by exact E1.
    + cbn [new_msgs]. callST ltac:(apply t_new_msg_eq). by callST ltac:(exact E2).
    + rewrite Htop. cbn. by rewrite !insert_insert_eq.
    + by rewrite Hch.
    + by rewrite Hmap.
    + by rewrite Hcons.
Qed.

Lemma mpub_text_eq out req s m nm l t : names_topic req s m nm l t → m !! bytes_of_string "binary" = None →
  req.(ContentLength) <= s.(a_opts).(Opts.MaxBodySize) → 0 <= s.(a_opts).(Opts.MaxBodySize) < 2 ^ 63 - 1 →
  do_mpub out req s = (let '(body, bodyErr) := limited (Opts.MaxBodySize (a_opts s) + 1) req in
    msgs ← mpub_blocks out s.(a_opts) l (Opts.MaxBodySize (a_opts s) + 1) (S (length body)) body bodyErr 0 0;
    err ← on_nsqd (λ o, on_topic l (Topic.PutMessages (Opts.chan_options o) msgs));
    match err with Some _ => throw 503 "EXITING" | None => mret (DString (bytes_of_string "OK")) end) s.
Proof.
  intros Hnt Hbin Hcl Hmax. unfold doMPUB. erewrite HM_bind_ok by reflexivity.
  erewrite HM_bind_ok by (apply throwIf_pass, Z.ltb_ge; lia).
  erewrite HM_bind_ok by (by eapply getTopicFromQuery_eq). cbv beta iota. rewrite Hbin.
  erewrite HM_bind_ok by reflexivity. cbv beta iota zeta. rewrite i64_id by (unfold in_i64; lia).
  by destruct (limited _ req) as [body bodyErr].
Qed.

(** A batch of new messages that is put. *)
Lemma put_batch o n l (t : Topic B MB) f ms xs n1 :
  options_ok o → daemon_ok o compiles n → n.(n_topics) !! l = Some t → t.(t_exitFlag) = false → Forall small ms →
  new_msgs ms (n.(n_heap), n.(n_chans), set_t_idFactory f t) = Some (xs, (n1.(n_heap), n.(n_chans), set_t_idFactory f t)) →
  n1.(n_topics) = <[l := set_t_idFactory f t]> n.(n_topics) → n1.(n_chans) = n.(n_chans) →
  ∃ err n' t' k, on_topic l (Topic.PutMessages (Opts.chan_options o) xs) n1 = Some (err, n') ∧
    n'.(n_topics) = <[l := t']> n.(n_topics) ∧ n'.(n_chans) = n.(n_chans) ∧
    t'.(t_messageCount) = u64 (t.(t_messageCount) + Z.of_nat k) ∧
    t'.(t_messageBytes) = u64 (t.(t_messageBytes) + body_bytes (take k ms)) ∧
    match err with
    | None => k = length ms ∧ ∀ j L, t_holds (length ms + j) n.(n_heap) t L → t_holds j n'.(n_heap) t' ((msg_sig <$> ms) ++ L)
    | Some _ => (k < length ms)%nat ∧ ∀ j L, t_holds (length ms + j) n.(n_heap) t L →
        t_holds j n'.(n_heap) t' ((msg_sig <$> take k ms) ++ L) ∨ t_holds j n'.(n_heap) t' ((msg_sig <$> take (S k) ms) ++ L)
    end.
Proof.
  intros oo Hn Ht Hx Hs E Htop Hch. destruct (topic_at o compiles n l t Hn Ht) as [T _]. set (tf := set_t_idFactory f t) in *.
  assert (Tf : topic_ok (frame_at n l) (n.(n_heap), n.(n_chans), tf)) by by apply (topic_ok_other _ _ _ t).
  destruct (new_msgs_ok (frame_at n l) ms _ _ _ [] [] Tf Hs) as (xs' & h1 & E' & T1 & Hms & Hnd & Hun & Hmono);
    [constructor|constructor|by intros x ?%elem_of_nil|]. rewrite E in E'. injection E' as <- <-.
  destruct (put_loop_ok (Opts.chan_options o) (frame_at n l) xs ms _ _ tf 0 0 T1 Hms Hnd Hun) as (err & k & h' & t' & E2 & [R1 R2 R3 R4 R5]).
  exists err, (put_topic n1 l (h', n.(n_chans), t')), t', k. split_and!; [|cbn; by rewrite Htop, insert_insert_eq|done|exact R3|exact R4|].
  - eapply on_topic_eq; [rewrite Htop; apply lookup_insert_eq|]. rewrite Hch. unfold Topic.PutMessages. callST ltac:(reflexivity).
    change (t_exitFlag tf) with (t_exitFlag t). by rewrite Hx.
  - destruct err; (split; [exact R2|]); intros j L HL; apply R5; exact (t_holds_mono _ _ _ _ tf _ L Tf Hmono HL).
Qed.

(** C9: A batch in text mode of at most the maximal size, published over HTTP
    to a topic that exists, is its lines: the messages put are, in their
    order, those whose bodies are the lines that are not empty, whatever ends
    the last one. The answer is OK exactly when the topic took them all, and
    counts them; otherwise it took the first [k], and the answer is EXITING.
    A body that is too big puts nothing and is never answered with OK. *)
Theorem http_mpub_lines out req s m topicName l t :
  options_ok s.(a_opts) → daemon_ok s.(a_opts) compiles s.(a_nsqd) →
  names_topic req s m topicName l t → m !! bytes_of_string "binary" = None → t.(t_exitFlag) = false →
  req.(ContentLength) <= s.(a_opts).(Opts.MaxBodySize) → 0 <= s.(a_opts).(Opts.MaxBodySize) < 2 ^ 63 - 1 → req.(BodyErr) = None →
  (∀ ms f, Z.of_nat (length req.(HttpApi.Body)) <= s.(a_opts).(Opts.MaxBodySize) →
     makes out 0 t.(t_idFactory) (lines req.(HttpApi.Body)) = Some (ms, f) →
     Forall (λ b, Z.of_nat (length b) <= s.(a_opts).(Opts.MaxMsgSize)) (lines req.(HttpApi.Body)) →
     ∃ r n' t' k, do_mpub out req s = Some (r, set_a_nsqd n' s) ∧ Message.Body <$> ms = lines req.(HttpApi.Body) ∧
       n'.(n_topics) = <[l := t']> s.(a_nsqd).(n_topics) ∧ n'.(n_chans) = s.(a_nsqd).(n_chans) ∧
       t'.(t_messageCount) = u64 (t.(t_messageCount) + Z.of_nat k) ∧
       t'.(t_messageBytes) = u64 (t.(t_messageBytes) + body_bytes (take k ms)) ∧
       match r with
       | Ok a => a = DString (bytes_of_string "OK") ∧ k = length ms ∧
           ∀ j L, t_holds (length ms + j) s.(a_nsqd).(n_heap) t L → t_holds j n'.(n_heap) t' ((msg_sig <$> ms) ++ L)
       | Prelude.Err e => e = Throw (mkErr 503 "EXITING") ∧ (k < length ms)%nat ∧
           ∀ j L, t_holds (length ms + j) s.(a_nsqd).(n_heap) t L →
             t_holds j n'.(n_heap) t' ((msg_sig <$> take k ms) ++ L) ∨ t_holds j n'.(n_heap) t' ((msg_sig <$> take (S k) ms) ++ L)
       end) ∧
  (s.(a_opts).(Opts.MaxBodySize) < Z.of_nat (length req.(HttpApi.Body)) →
     ∀ r s', do_mpub out req s = Some (r, s') → ∃ e, r = Prelude.Err e).
Proof.
  intros oo Hn Hnt Hbin Hx Hcl Hmax Hbe.
  assert (Hstart := mpub_text_eq out _ _ _ _ _ _ Hnt Hbin Hcl Hmax). split.
  - intros ms f Hb Hm Hlines. destruct (makes_bodies _ _ _ _ _ _ Hm) as [Hbodies _].
    pose proof (makes_small _ _ _ _ _ _ _ oo Hm Hlines) as Hsmall.
    destruct (messages_of_eq out _ _ _ l t _ _ (nt_topic _ _ _ _ _ _ Hnt) Hm Hlines) as (xs & n1 & E1 & E2 & Htop & Hch & Hmap & Hcons).
    destruct (put_batch _ _ l t f ms xs n1 oo Hn (nt_topic _ _ _ _ _ _ Hnt) Hx Hsmall E2 Htop Hch) as
      (err & n' & t' & k & E3 & Htop' & Hch' & Hcount & Hbytes & Hres).
    exists (match err with None => Ok (DString (bytes_of_string "OK")) | Some _ => Prelude.Err (Throw (mkErr 503 "EXITING")) end), n', t', k.
    split; [|split_and!; [done..|by destruct err]].
    rewrite Hstart. unfold limited. rewrite (proj2 (Z.leb_gt _ _)) by lia. rewrite Hbe.
    erewrite HM_bind_ok by (rewrite mpub_blocks_lines by lia; exact E1).
    erewrite HM_bind_ok by by apply on_nsqd_eq. by destruct err.
  - intros Hb r s'. rewrite Hstart. unfold limited. rewrite (proj2 (Z.leb_le _ _)) by lia.
    apply never_ok_first, mpub_blocks_too_big; [lia|]. rewrite length_take. lia.
Qed.

(** ** Pauses *)

Hypothesis range_perm : ∀ A (l : list A), range A l ≡ₚ l.
Hypothesis recv_small : ∀ (b b' : D) d, bq_Recv b = Some (d, b') → Z.of_nat (length d) < 2 ^ 31.
Context (marshal_meta : meta → bytes) (unmarshal_meta : bytes → option meta).
Hypothesis meta_roundtrip : ∀ js, unmarshal_meta (marshal_meta js) = Some js.
Implicit Types (V : view).

(** The names of topics and channels that are persisted. *)
Definition names_ok V : Prop :=
  ∀ nm p Cs, V !! nm = Some (p, Cs) → Names.IsValidTopicName nm = true ∧ Names.is_ephemeral nm = false ∧
    ∀ cn q, Cs !! cn = Some q → Names.IsValidChannelName cn = true ∧ Names.is_ephemeral cn = false.

Lemma names_meta_ok js V : meta_view js = V → NoDup (mt_Name <$> js) → Forall (λ mt, NoDup (mc_Name <$> mt_Channels mt)) js →
  names_ok V → meta_ok js.
Proof.
  intros <- Hnd Hcs Hnames. split; [done|]. rewrite Forall_forall in *. intros mt Hmt.
  assert (Hv : meta_view js !! mt_Name mt = Some (mt_Paused mt, list_to_map (channel_pairs (mt_Channels mt)))).
  { apply elem_of_list_to_map_1; [by unfold topic_pairs; rewrite <- list_fmap_compose|].
    apply list_elem_of_fmap. by exists mt. }
  destruct (Hnames _ _ _ Hv) as (Hn & He & Hc). split; [done|split; [done|split; [by apply Hcs|]]].
  apply Forall_forall. intros mc Hmc. eapply (Hc (mc_Name mc) (mc_Paused mc)).
  apply elem_of_list_to_map_1; [unfold channel_pairs; rewrite <- list_fmap_compose; by apply (Hcs mt)|].
  apply list_elem_of_fmap. by exists mc.
Qed.

Notation restart o fs := (LoadMetadata o range channel_queue topic_queue memory_queue e2e lookupdHTTPAddrs GetLookupdTopicChannels
  unmarshal_meta fs (newNSQD : nsqd)).

Lemma persist_survives out s V : loaded s.(a_nsqd) V → names_ok V → out.(o_fault) = None → out.(o_rename) = None →
  ∃ fs' n', persist range marshal_meta out s = Some (Ok (), mkApp s.(a_nsqd) fs' s.(a_opts) s.(a_optsNotificationChan) s.(a_blockRate)) ∧
    restart s.(a_opts) fs' = Some (None, n') ∧ loaded n' V.
Proof.
  intros HV Hnames Hf Hr. destruct (loaded_metadata range range_perm _ _ HV) as (js & Ejs & Hv & Hnd & Hcs).
  destruct (persisted_file s.(a_opts) range marshal_meta out.(o_random) s.(a_nsqd) s.(a_files) js Ejs) as (fs' & E & Hfile).
  assert (Hok : meta_ok js) by by eapply names_meta_ok.
  destruct (started_on (W:=W) (D:=D) (Q:=Q) (B:=B) (MB:=MB) s.(a_opts) compiles range range_perm recv_small channel_queue topic_queue memory_queue e2e lookupdHTTPAddrs
    GetLookupdTopicChannels unmarshal_meta fs' _ js Hfile (meta_roundtrip js) Hok) as (n' & E' & HV' & _).
  exists fs', n'. rewrite Hv in HV'. split_and!; [|done|done]. unfold persist. rewrite Hf, Hr, E. done.
Qed.

Lemma need_topic_eq nm s V p Cs : loaded s.(a_nsqd) V → V !! nm = Some (p, Cs) →
  ∃ l, need_topic nm s = Some (Ok l, s) ∧ s.(a_nsqd).(topicMap) !! nm = Some l.
Proof.
  intros HV Hnm. pose proof (HV nm) as Hl. rewrite Hnm in Hl. destruct Hl as (l & _ & Hl & _). exists l. split; [|done].
  unfold need_topic. erewrite HM_bind_ok.
  2: { apply (on_nsqd_eq _ s (Ok l) s.(a_nsqd)). unfold GetExistingTopic, mbind, ST_bind, getST. cbn. by rewrite Hl. }
  by destruct s.
Qed.

Definition names_channel (req : request) (nm cn : bytes) : Prop :=
  ∃ rp, NewReqParams req = Some rp ∧ ReqParams_Get rp (bytes_of_string "topic") = Some (Ok nm) ∧
    ReqParams_Get rp (bytes_of_string "channel") = Some (Ok cn) ∧
    Names.IsValidTopicName nm = true ∧ Names.IsValidChannelName cn = true.

Lemma getExistingTopicFromQuery_eq req s nm cn V p Cs : names_channel req nm cn → loaded s.(a_nsqd) V → V !! nm = Some (p, Cs) →
  ∃ l, getExistingTopicFromQuery req s = Some (Ok (l, cn), s) ∧ s.(a_nsqd).(topicMap) !! nm = Some l.
Proof.
  intros (rp & Erp & Et & Ec & Hvt & Hvc) HV Hnm. destruct (need_topic_eq nm s V p Cs HV Hnm) as (l & E & Hl). exists l. split; [|done].
  unfold getExistingTopicFromQuery, new_params. rewrite Erp. erewrite HM_bind_ok by reflexivity. rewrite Et, Ec.
  erewrite HM_bind_ok by reflexivity. erewrite HM_bind_ok by reflexivity.
  unfold GetTopicChannelArgs. rewrite bool_decide_eq_true_2 by done. rewrite bool_decide_eq_false_2 by by vm_compute.
  rewrite Hvt, Hvc. cbn [negb]. by erewrite HM_bind_ok by exact E.
Qed.

Lemma need_channel_eq s l (t : Topic B MB) cn k : s.(a_nsqd).(n_topics) !! l = Some t → t.(t_channelMap) !! cn = Some k →
  need_channel l cn s = Some (Ok k, s).
Proof.
  intros Ht Hk. unfold need_channel. erewrite HM_bind_ok.
  2: { apply (on_nsqd_eq _ s (Ok k) s.(a_nsqd)). erewrite on_topic_eq; [|exact Ht|].
       2: { unfold GetExistingChannel, mbind, ST_bind, getST. cbn. by rewrite Hk. }
       f_equal. f_equal. destruct (a_nsqd s). unfold put_topic. cbn in *. by rewrite insert_id. }
  by destruct s.
Qed.


End effects.
End NsqdHTTPEffects.
