(* ===== verification/NsqdHTTPDemo.v ===== *)
(** * The HTTP interface of nsqd at work

    Requests to the daemon of [DaemonDemo]: the theorems about the interface
    at concrete requests. *)
From stdpp Require Import base gmap list strings.
From Stdlib Require Import ZArith QArith Lia.
From S2P Require Import Prelude.
From S2P Require Import Message.
From S2P Require Import Guid.
From S2P Require Import Text.
From S2P Require Import Decimal.
From S2P Require Import Wire.
From S2P Require Import HttpApi.
From S2P Require Import Backend.
From S2P Require Import Quantile.
From S2P Require Import Channel.
From S2P Require Import ChannelDemo.
From S2P Require Import Topic.
From S2P Require Import Options.
From S2P Require Import Client.
From S2P Require Import Nsqd.
From S2P Require Import DaemonProofs.
From S2P Require Import Protocol.
From S2P Require Import DaemonProps.
From S2P Require Import DaemonDemo.
From S2P Require Import MetadataProps.
From S2P Require Import Stats.
From S2P Require Import NsqdHTTP.
From S2P Require Import NsqdHTTPProps.
From S2P Require Import NsqdHTTPEffects.
Set Default Goal Selector "!".
Local Open Scope Z_scope.

Module NsqdHTTPDemo.
Import ListBackend ChannelDemo HttpApi Topic Nsqd DaemonP Protocol DaemonSpec DaemonDemo Wire Metadata NsqdHTTP NsqdHTTPSpec NsqdHTTPEffects.

(** Latencies that keep every sample. *)
#[export] Instance samples_latency : LatencyStream (list Z) := {|
  ls_New _ _ _ := []; ls_Merge a b := a ++ b;
  ls_Result _ q := Some (Quantile.mkResult (Z.of_nat (length (default [] q))) []);
|}.

Notation node := (NSQD sock list_queue (list Z) list_queue list_queue).
Notation demo_app := (app sock list_queue (list Z) list_queue list_queue).

Definition tx := bytes_of_string.
Definition the_app (n : node) : demo_app := mkApp n ∅ opts false 0.
Definition start (n : node) : http_state demo_app := mkHttp (the_app n) [] [].

Definition at_now : outside := mkOutside (λ _, now0) (λ _, [now0]) (tx "1") None None (Ok (tx "host"))
  (Stats.mkMemStats 1 2 3 4 [5; 6] 7 2).
Definition post (path query body : string) : request :=
  mkRequest (tx "POST") (tx path) (tx query) [] (Z.of_nat (String.length body)) (tx body) None.

(** JSON of what is shown here. *)
Definition show (j : NsqdHTTP.json) : res string bytes := match j with JOption (OStr s) => Ok s | _ => Ok (tx "{}") end.
Definition form_rate (_ : request) (key : bytes) : bytes := tx "7".
Definition demo_server : list (string * string * APIHandler demo_app NsqdHTTP.json) :=
  newHTTPServer range empty_queue empty_queue empty_queue (None : option (list Z)) [] (λ _, []) marshal (λ _, None) []
    4150 4151 now0 (λ _, tx "then") (λ _, tx "0s") (tx "go1.9") form_rate Quote
    show (λ e, tx e.(ErrText)) (λ b, b) (λ _, []) at_now.

Definition handler_of (m path : string) : APIHandler demo_app NsqdHTTP.json :=
  match list_find (λ '(m', p', _), m' = m ∧ p' = path) demo_server with
  | Some (_, (_, _, h)) => h
  | None => LogNotFoundHandler show (λ e, tx e.(ErrText)) (λ b, b) (λ _, [])
  end.
Definition sent_by (m path : string) (req : request) (st : http_state demo_app) : option (list response) :=
  hs_sent ∘ snd <$> handler_of m path req st.

Example pub_ok : sent_by "POST" "/pub" (post "/pub" "topic=t" "hello") (start publishing.(nd)) = Some [mkResponse 200 false (tx "OK")].
Proof. by vm_compute. Qed.
Example pub_empty : sent_by "POST" "/pub" (post "/pub" "topic=t" "") (start publishing.(nd)) = Some [mkResponse 400 true (tx "MSG_EMPTY")].
Proof. by vm_compute. Qed.


Lemma setblockrate_panics_witness : handler_of "PUT" "/debug/setblockrate" (post "/debug/setblockrate" "" "rate=7") (start publishing.(nd)) = None.
Proof. exact (proj2 (setblockrate_panics form_rate Quote (post "/debug/setblockrate" "" "rate=7") (start publishing.(nd)) 7 eq_refl)). Defined.

(** ** Publishing *)

Notation pub_req body := (post "/pub" "topic=t" body).
Notation demo_pub := (doPUB range empty_queue empty_queue empty_queue (None : option (list Z)) [] (λ _, []) at_now).
Notation demo_mpub := (doMPUB range empty_queue empty_queue empty_queue (None : option (list Z)) [] (λ _, []) at_now).
Definition topic_t : gmap (list Byte.byte) (list bytes) := default ∅ (ParseQuery (tx "topic=t")).

Lemma names_t path body : names_topic (post path "topic=t" body) (the_app publishing.(nd)) topic_t (tx "t") 0%nat (topic_of publishing).
Proof. split; [reflexivity|exists []; by vm_compute|by vm_compute|by vm_compute|by vm_compute]. Qed.

Lemma http_pub_held_witness :
  ∃ r n' t', demo_pub (pub_req "hello") (the_app publishing.(nd)) = Some (r, the_app n') ∧ n'.(n_topics) !! 0%nat = Some t' ∧
    match r with Ok _ => t'.(t_messageCount) = 1 ∧ t'.(t_messageBytes) = 5 | Prelude.Err _ => t'.(t_messageCount) = 0 end.
Proof.
  destruct (http_pub_held (λ _, true) range empty_queue empty_queue empty_queue (None : option (list Z)) [] (λ _, []) at_now
    (pub_req "hello") (the_app publishing.(nd)) topic_t (tx "t") 0%nat (topic_of publishing) 0
    (Guid.GenerateID [now0] (topic_of publishing).(t_idFactory)).1 mid) as (r & n' & t' & E & Ht & _ & _ & _ & Hr).
  - exact opts_ok.
  - apply (nk_daemon _ _ _ publishing_ok).
  - apply names_t.
  - by vm_compute.
  - by vm_compute.
  - by vm_compute.
  - by vm_compute.
  - by vm_compute.
  - by vm_compute.
  - exists r, n', t'. split; [exact E|]. split; [rewrite Ht; apply lookup_insert_eq|]. destruct r as [a|e].
    + destruct Hr as (_ & Hn & Hb & _). split; [rewrite Hn|rewrite Hb]; by vm_compute.
    + destruct Hr as (_ & Hn & _). rewrite Hn. by vm_compute.
Defined.

(** Three lines, one of them empty, the last one not ended. *)
Definition three : string := string_of_bytes (tx "ab" ++ [newline; newline] ++ tx "c").

(** The identifiers need one reading of the clock each. *)
Definition ticking : outside := mkOutside (λ i, now0 + Z.of_nat i) (λ i, [now0 + 1000000 * Z.of_nat (S i)]) (tx "1") None None (Ok (tx "host"))
  (Stats.mkMemStats 1 2 3 4 [5; 6] 7 2).
Definition made : list Message * Guid.guidFactory :=
  default ([], (topic_of publishing).(t_idFactory)) (makes ticking 0 (topic_of publishing).(t_idFactory) [tx "ab"; tx "c"]).

Lemma http_mpub_lines_witness :
  ∃ r n' t', doMPUB range empty_queue empty_queue empty_queue (None : option (list Z)) [] (λ _, []) ticking (post "/mpub" "topic=t" three)
      (the_app publishing.(nd)) = Some (r, the_app n') ∧ n'.(n_topics) !! 0%nat = Some t' ∧
    match r with Ok _ => t'.(t_messageCount) = 2 ∧ t'.(t_messageBytes) = 3 | Prelude.Err _ => True end.
Proof.
  destruct (http_mpub_lines (λ _, true) range empty_queue empty_queue empty_queue (None : option (list Z)) [] (λ _, []) ticking
    (post "/mpub" "topic=t" three) (the_app publishing.(nd)) topic_t (tx "t") 0%nat (topic_of publishing)) as [H _].
  - exact opts_ok.
  - apply (nk_daemon _ _ _ publishing_ok).
  - apply names_t.
  - by vm_compute.
  - by vm_compute.
  - by vm_compute.
  - split; by vm_compute.
  - by vm_compute.
  - destruct (H made.1 made.2) as (r & n' & t' & k & E & _ & Ht & _ & Hn & Hb & Hr).
    + by vm_compute.
    + by vm_compute.
    + repeat constructor; by vm_compute.
    + exists r, n', t'. split; [exact E|]. split; [rewrite Ht; apply lookup_insert_eq|]. destruct r as [a|e]; [|exact I].
      destruct Hr as (_ & -> & _). split; [rewrite Hn|rewrite Hb]; by vm_compute.
Defined.

(** ** A pause *)

(** Metadata as one number. *)
Definition flat (m : meta) : list (bytes * bool * list (bytes * bool)) :=
  (λ t, (mt_Name t, mt_Paused t, (λ c, (mc_Name c, mc_Paused c)) <$> mt_Channels t)) <$> m.
Definition unflat (l : list (bytes * bool * list (bytes * bool))) : meta :=
  (λ '(n, p, cs), mkMetaTopic n p ((λ '(c, q), mkMetaChannel c q) <$> cs)) <$> l.
Definition number (m : meta) : bytes := Decimal.digits (Z.pos (encode (flat m))).
Definition of_number (b : bytes) : option meta := unflat <$> decode (Z.to_pos (Decimal.val b)).

Lemma of_number_number m : of_number (number m) = Some m.
Proof.
  unfold of_number, number. destruct (Decimal.digits_spec (Z.pos (encode (flat m)))) as (Hv & _); [lia|]. rewrite Hv. cbn [Z.to_pos]. rewrite decode_encode. cbn. f_equal.
  unfold unflat, flat. rewrite <- list_fmap_compose. rewrite <- (list_fmap_id m) at 2. apply list_fmap_ext. intros i [n p cs] _. cbn.
  f_equal. rewrite <- list_fmap_compose. rewrite <- (list_fmap_id cs) at 2. apply list_fmap_ext. by intros j [c q] _.
Qed.

Definition view_of : gmap (list Byte.byte) (bool * gmap (list Byte.byte) bool) := {[tx "t" := (false, {[tx "c" := false]})]}.

Lemma publishing_loaded : loaded publishing.(nd) view_of.
Proof.
  intros nm. unfold view_of. destruct (decide (nm = tx "t")) as [->|Hne].
  - rewrite lookup_singleton_eq. exists 0%nat, (topic_of publishing). split; [by vm_compute|]. split; [by vm_compute|].
    split; [by vm_compute|]. split; [by vm_compute|]. split; [by vm_compute|]. intros cn. destruct (decide (cn = tx "c")) as [->|Hnc].
    + rewrite lookup_singleton_eq. exists 1%nat, (chan_of publishing). by split_and!; vm_compute.
    + rewrite lookup_singleton_ne by done. apply not_elem_of_dom. intros Hd. apply Hnc.
      assert (Hs : dom (t_channelMap (topic_of publishing)) ⊆ {[tx "c"]}) by (apply (bool_decide_unpack _); by vm_compute).
      by apply Hs, elem_of_singleton in Hd.
  - rewrite lookup_singleton_ne by done. apply not_elem_of_dom. intros Hd. apply Hne.
    assert (Hs : dom (topicMap publishing.(nd)) ⊆ {[tx "t"]}) by (apply (bool_decide_unpack _); by vm_compute).
    by apply Hs, elem_of_singleton in Hd.
Qed.


End NsqdHTTPDemo.
