(* ===== verification/LookupPeer.v ===== *)
(** * How nsqd announces itself (nsqd/lookup.go, nsqd/lookup_peer.go)

    A [lookupPeer] is a lazily made connection to an nsqlookupd. [lookupLoop]
    keeps one for each configured address, pings them, and tells them of
    topics and channels that come and go; whenever a peer connects it is told
    of all of them. The network is an interface: a connection is a name for
    something that can be written to, read from and closed. [None] is a
    panic. *)
From stdpp Require Import base gmap list strings.
From Stdlib Require Import ZArith Lia.
From S2P Require Import Prelude.
From S2P Require Import Net.
From S2P Require Import Decimal.
From S2P Require Import Heap.
From S2P Require Import Backend.
From S2P Require Import Channel.
From S2P Require Import Topic.
From S2P Require Import Options.
From S2P Require Import Client.
From S2P Require Import Nsqd.
Set Default Goal Selector "!".
Local Open Scope Z_scope.

(** The connections of the process. A read is [io.ReadFull] of that many
    bytes. *)
Class Network (N : Type) := {
  net_Dial : bytes → N → res string nat * N;
  net_Write : nat → bytes → N → option string * N;
  net_Read : nat → nat → N → res string bytes * N;
  net_Close : nat → N → N;
}.

(** The commands of github.com/nsqio/go-nsq, as they are written to a
    connection. Marshalling the body of IDENTIFY can fail. *)
Class Commands (Cmd J : Type) := {
  nsq_Identify : J → option Cmd;
  nsq_Ping : Cmd;
  nsq_Register : bytes → bytes → Cmd;
  nsq_UnRegister : bytes → bytes → Cmd;
  nsq_bytes : Cmd → bytes;
  nsq_MagicV1 : bytes;
}.

Module LookupPeer.
Import Nsqd.

Record peerInfo := mkPeerInfo {
  pi_TCPPort : Z;
  pi_HTTPPort : Z;
  pi_Version : bytes;
  pi_BroadcastAddress : bytes;
}.

Record lookupPeer := mkLookupPeer {
  addr : bytes;
  conn : option nat;
  state : Z;
  maxBodySize : Z;
  Info : peerInfo;
}.

Definition set_conn (x : option nat) (p : lookupPeer) := mkLookupPeer p.(addr) x p.(state) p.(maxBodySize) p.(Info).
Definition set_state (x : Z) (p : lookupPeer) := mkLookupPeer p.(addr) p.(conn) x p.(maxBodySize) p.(Info).
Definition set_Info (x : peerInfo) (p : lookupPeer) := mkLookupPeer p.(addr) p.(conn) p.(state) p.(maxBodySize) x.

Definition newLookupPeer (addr : bytes) (maxBodySize : Z) : lookupPeer :=
  mkLookupPeer addr None Client.stateDisconnected maxBodySize (mkPeerInfo 0 0 [] []).

(** What IDENTIFY tells of nsqd. *)
Record identity := mkIdentity {
  ci_version : bytes;
  ci_tcp_port : Z;
  ci_http_port : Z;
  ci_hostname : bytes;
  ci_broadcast_address : bytes;
}.

Section peer.
Context {N Cmd : Type} `{Network N, Commands Cmd identity}.
(** [json.Unmarshal(resp, &lp.Info)], which may have set some fields when it
    fails. *)
Context (unmarshal_info : bytes → peerInfo → peerInfo * option string).

Notation PeerM := (ST (N * lookupPeer)).

Definition upd_peer (f : lookupPeer → lookupPeer) : PeerM () := modST (λ '(w, p), (w, f p)).
Definition on_net {A} (f : N → A * N) : PeerM A := λ '(w, p), let '(a, w) := f w in Some (a, (w, p)).

Definition Connect : PeerM (option string) :=
  '(_, p) ← getST;
  r ← on_net (net_Dial p.(addr));
  match r with
  | Err e => mret (Some e)
  | Ok c => _ ← upd_peer (set_conn (Some c)); mret None
  end.

(** Reading and writing follow the pointer [lp.conn]. *)
Definition need_conn : PeerM nat := '(_, p) ← getST; liftST p.(conn).
Definition Write (data : bytes) : PeerM (option string) := c ← need_conn; on_net (net_Write c data).
Definition Read (n : nat) : PeerM (res string bytes) := c ← need_conn; on_net (net_Read c n).

Definition Close : PeerM () :=
  _ ← upd_peer (set_state Client.stateDisconnected);
  '(_, p) ← getST;
  match p.(conn) with
  | Some c => on_net (λ w, ((), net_Close c w))
  | None => mret ()
  end.

Definition readResponseBounded (limit : Z) : PeerM (res string bytes) :=
  hd ← Read 4;
  match hd with
  | Err e => mret (Err e)
  | Ok hd =>
    let msgSize := i32 (be_decode hd) in
    if limit <? msgSize
    then mret (Err ("response body size (" +:+ Client.fmt_Z msgSize +:+ ") is greater than limit (" +:+ Client.fmt_Z limit +:+ ")"))
    else if msgSize <? 0 then panic  (* make([]byte, msgSize) *)
    else Read (Z.to_nat msgSize)
  end.

(** A round trip on a connected peer. *)
Definition exchange (cmd : Cmd) : PeerM (res string bytes) :=
  err ← Write (nsq_bytes cmd);
  match err with
  | Some e => _ ← Close; mret (Err e)
  | None =>
    '(_, p) ← getST;
    resp ← readResponseBounded p.(maxBodySize);
    match resp with
    | Err e => _ ← Close; mret (Err e)
    | Ok resp => mret (Ok resp)
    end
  end.

(** [connectCallback(lp)], which itself calls [Command]. *)
Section command.
Context (callback : (option Cmd → PeerM (res string bytes)) → PeerM ()).

(** Connecting, with the magic and the callback; [None] is success. *)
Definition reach (Command : option Cmd → PeerM (res string bytes)) : PeerM (option string) :=
  '(_, p) ← getST;
  if p.(state) =? Client.stateConnected then mret None else
  err ← Connect;
  match err with
  | Some e => mret (Some e)
  | None =>
    _ ← upd_peer (set_state Client.stateConnected);
    err ← Write nsq_MagicV1;
    match err with
    | Some e => _ ← Close; mret (Some e)
    | None =>
      _ ← (if p.(state) =? Client.stateDisconnected then callback Command else mret ());
      '(_, p) ← getST;
      mret (if negb (p.(state) =? Client.stateConnected) then Some "lookupPeer connectCallback() failed"%string else None)
    end
  end.

(** The fuel bounds how deep [Command] and the callback call each other. *)
Fixpoint Command (fuel : nat) (cmd : option Cmd) : PeerM (res string bytes) :=
  match fuel with
  | O => panic
  | S fuel =>
    err ← reach (Command fuel);
    match err with
    | Some e => mret (Err e)
    | None =>
      match cmd with
      | None => mret (Ok [])
      | Some cmd => exchange cmd
      end
    end
  end.
End command.

(** ** What is told when a peer connects *)

Definition E_INVALID : bytes := bytes_of_string "E_INVALID".

Fixpoint send_all (Command : option Cmd → PeerM (res string bytes)) (commands : list Cmd) : PeerM () :=
  match commands with
  | [] => mret ()
  | cmd :: commands =>
    r ← Command (Some cmd);
    match r with
    | Err _ => mret ()
    | Ok _ => send_all Command commands
    end
  end.

Definition connectCallback (ci : identity) (commands : list Cmd) (Command : option Cmd → PeerM (res string bytes)) : PeerM () :=
  match nsq_Identify ci with
  | None => Close
  | Some cmd =>
    resp ← Command (Some cmd);
    match resp with
    | Err _ => mret ()
    | Ok resp =>
      if bool_decide (resp = E_INVALID) then Close else
      '(_, p) ← getST;
      let '(info, err) := unmarshal_info resp p.(Info) in
      _ ← upd_peer (set_Info info);
      match err with
      | Some _ => Close
      | None => send_all Command commands
      end
    end
  end.

(** Two levels: the callback runs on a connected peer. *)
Definition peer_Command (ci : identity) (commands : list Cmd) (cmd : option Cmd) : PeerM (res string bytes) :=
  Command (connectCallback ci commands) 2 cmd.

End peer.

(** ** The loop *)

Section loop.
Context {N Cmd W D Q B MB : Type} `{Network N, Commands Cmd identity}.
Context (unmarshal_info : bytes → peerInfo → peerInfo * option string) (range : ∀ A : Type, list A → list A).
(** The name of the host and the ports of the listeners. *)
Context (hostname version_Binary : bytes) (RealTCPPort RealHTTPPort : Z).
Notation nsqd := (NSQD W D Q B MB).

(** The commands of [connectCallback]; [None] is a dangling pointer. *)
Definition register_channel (n : nsqd) (l : loc) : option Cmd :=
  c ← n.(n_chans) !! l; Some (nsq_Register c.(Channel.topicName) c.(Channel.name)).
Definition register_topic (n : nsqd) (l : loc) : option (list Cmd) :=
  t ← n.(n_topics) !! l;
  if bool_decide (size t.(Topic.t_channelMap) = 0)%nat then Some [nsq_Register t.(Topic.t_name) []]
  else mapM (register_channel n) (range _ (map_to_list t.(Topic.t_channelMap)).*2).
Definition announcements (n : nsqd) : option (list Cmd) :=
  cs ← mapM (register_topic n) (range _ (map_to_list n.(topicMap)).*2);
  Some (mjoin cs).

Definition identity_of (o : Opts.Options) : identity :=
  mkIdentity version_Binary RealTCPPort RealHTTPPort hostname o.(Opts.BroadcastAddress).

(** The variables of [lookupLoop] and [n.lookupPeers]; peers are shared
    between both, so they live in a heap. *)
Record lookup := mkLookup {
  lk_net : N;
  lk_heap : gmap nat lookupPeer;
  lk_next : nat;
  lookupPeers : list nat;
  lookupAddrs : list bytes;
  connect : bool;
  stored : option (list nat);
}.

Notation LookM := (ST lookup).

Definition start_lookup (w : N) : lookup := mkLookup w ∅ 0 [] [] true None.

Definition on_peer {A} (l : nat) (m : ST (N * lookupPeer) A) : LookM A := λ s,
  p ← s.(lk_heap) !! l;
  '(a, (w, p)) ← m (s.(lk_net), p);
  Some (a, mkLookup w (<[l := p]> s.(lk_heap)) s.(lk_next) s.(lookupPeers) s.(lookupAddrs) s.(connect) s.(stored)).

Definition add_peer (p : lookupPeer) : LookM nat := λ s,
  Some (s.(lk_next), mkLookup s.(lk_net) (<[s.(lk_next) := p]> s.(lk_heap)) (S s.(lk_next)) s.(lookupPeers) s.(lookupAddrs)
    s.(connect) s.(stored)).
Definition append_peer (l : nat) (host : bytes) : LookM () :=
  modST (λ s, mkLookup s.(lk_net) s.(lk_heap) s.(lk_next) (s.(lookupPeers) ++ [l]) (s.(lookupAddrs) ++ [host]) s.(connect) s.(stored)).
Definition store_peers : LookM () :=
  modST (λ s, mkLookup s.(lk_net) s.(lk_heap) s.(lk_next) s.(lookupPeers) s.(lookupAddrs) s.(connect) (Some s.(lookupPeers))).
Definition set_connect (b : bool) : LookM () :=
  modST (λ s, mkLookup s.(lk_net) s.(lk_heap) s.(lk_next) s.(lookupPeers) s.(lookupAddrs) b s.(stored)).

Definition is_in (s : bytes) (lst : list bytes) : bool := existsb (λ v, bool_decide (s = v)) lst.

Definition command_to (o : Opts.Options) (n : nsqd) (l : nat) (cmd : option Cmd) : LookM (res string bytes) :=
  commands ← liftST (announcements n);
  on_peer l (peer_Command unmarshal_info (identity_of o) commands cmd).

Fixpoint connect_all (o : Opts.Options) (n : nsqd) (hosts : list bytes) : LookM () :=
  match hosts with
  | [] => mret ()
  | host :: hosts =>
    s ← getST;
    _ ← (if is_in host s.(lookupAddrs) then mret () else
         l ← add_peer (newLookupPeer host o.(Opts.MaxBodySize));
         _ ← command_to o n l None;
         append_peer l host);
    connect_all o n hosts
  end.

(** The same command for every peer; errors are logged. *)
Fixpoint command_all (o : Opts.Options) (n : nsqd) (ls : list nat) (cmd : Cmd) : LookM () :=
  match ls with
  | [] => mret ()
  | l :: ls => _ ← command_to o n l (Some cmd); command_all o n ls cmd
  end.

(** What comes over [notifyChan]: a channel or a topic, exiting or not. *)
Inductive notification :=
| NChannel (topicName name : bytes) (exiting : bool)
| NTopic (name : bytes) (exiting : bool).

Definition notification_cmd (v : notification) : Cmd :=
  match v with
  | NChannel t c true => nsq_UnRegister t c
  | NChannel t c false => nsq_Register t c
  | NTopic t true => nsq_UnRegister t []
  | NTopic t false => nsq_Register t []
  end.

Inductive event := Tick | Notified (v : notification) | OptsChanged | ExitChan.

(** The peers whose address is still configured; the others are closed. *)
Fixpoint keep_peers (o : Opts.Options) (ls : list nat) : LookM (list nat * list bytes) :=
  match ls with
  | [] => mret ([], [])
  | l :: ls =>
    s ← getST;
    p ← liftST (s.(lk_heap) !! l);
    if is_in p.(addr) o.(Opts.NSQLookupdTCPAddresses) then
      '(tmpPeers, tmpAddrs) ← keep_peers o ls; mret (l :: tmpPeers, p.(addr) :: tmpAddrs)
    else _ ← on_peer l Close; keep_peers o ls
  end.

Definition connect_phase (o : Opts.Options) (n : nsqd) : LookM () :=
  s ← getST;
  if s.(connect) then
    _ ← connect_all o n o.(Opts.NSQLookupdTCPAddresses);
    _ ← store_peers;
    set_connect false
  else mret ().

(** A turn of the loop: [false] when it ends. The options and the topics are
    those at the time of the turn. *)
Definition lookupLoop_turn (o : Opts.Options) (n : nsqd) (ev : event) : LookM bool :=
  _ ← connect_phase o n;
  s ← getST;
  match ev with
  | Tick => _ ← command_all o n s.(lookupPeers) nsq_Ping; mret true
  | Notified v => _ ← command_all o n s.(lookupPeers) (notification_cmd v); mret true
  | OptsChanged =>
    '(tmpPeers, tmpAddrs) ← keep_peers o s.(lookupPeers);
    _ ← modST (λ s, mkLookup s.(lk_net) s.(lk_heap) s.(lk_next) tmpPeers tmpAddrs true s.(stored));
    mret true
  | ExitChan => mret false
  end.

Definition lookupdHTTPAddrs (s : lookup) : option (list bytes) :=
  match s.(stored) with
  | None => Some []
  | Some ls =>
    ps ← mapM (λ l, s.(lk_heap) !! l) ls;
    Some (omap (λ p, if bool_decide (p.(Info).(pi_BroadcastAddress) = []) then None
                     else Some (Net.JoinHostPort p.(Info).(pi_BroadcastAddress) (Decimal.fmt_d p.(Info).(pi_HTTPPort)))) ps)
  end.

End loop.
Arguments lookup N : clear implicits.
End LookupPeer.
