(* ===== verification/LookupPeerProps.v ===== *)
(** * What the announcements promise

    A command to an nsqlookupd returns whatever the network does, unless a
    response announces a negative size, which stops nsqd ([command_returns]);
    the loop keeps one peer for each configured address ([peers_follow]). *)
From stdpp Require Import base gmap list strings.
From Stdlib Require Import ZArith Lia.
From S2P Require Import Prelude.
From S2P Require Import Heap.
From S2P Require Import Backend.
From S2P Require Import Channel.
From S2P Require Import ChannelProofs.
From S2P Require Import Topic.
From S2P Require Import TopicProofs.
From S2P Require Import TopicProps.
From S2P Require Import Options.
From S2P Require Import Client.
From S2P Require Import ClientProps.
From S2P Require Import Nsqd.
From S2P Require Import DaemonProofs.
From S2P Require Import LookupPeer.
Set Default Goal Selector "!".
Local Open Scope Z_scope.

Module LookupPeerSpec.
Import Topic TopicP Nsqd DaemonP LookupPeer.

(** ** Programs that return *)

Definition returns {S A : Type} (m : ST S A) (s : S) (R : A → S → Prop) : Prop := ∃ a s', m s = Some (a, s') ∧ R a s'.

Lemma returns_ret {S A : Type} (a : A) (s : S) (R : A → S → Prop) : R a s → returns (mret a) s R.
Proof. intros ?. by exists a, s. Qed.

Lemma returns_bind {S A A' : Type} (m : ST S A) (f : A → ST S A') s R1 R :
  returns m s R1 → (∀ a s', R1 a s' → returns (f a) s' R) → returns (m ≫= f) s R.
Proof. intros (a & s1 & E & H1) Hf. unfold returns, mbind, ST_bind. rewrite E. by apply Hf. Qed.

Lemma returns_next {S A A' : Type} (m : ST S A) (f : A → ST S A') s a s' R :
  m s = Some (a, s') → returns (f a) s' R → returns (m ≫= f) s R.
Proof. intros E Hf. unfold returns, mbind, ST_bind. by rewrite E. Qed.

Lemma returns_weaken {S A : Type} (m : ST S A) s (R R' : A → S → Prop) : returns m s R → (∀ a s', R a s' → R' a s') → returns m s R'.
Proof. intros (a & s1 & E & H1) HR. exists a, s1. split; [done|by apply HR]. Qed.

Section peer.
Context {N Cmd : Type} `{Network N, Commands Cmd identity}.
Context (unmarshal_info : bytes → peerInfo → peerInfo * option string).
Implicit Types (p : lookupPeer) (w : N).

Definition is_connected p : Prop := p.(state) = Client.stateConnected ∧ is_Some p.(conn).
Definition peer_ok p : Prop := is_connected p ∨ p.(state) = Client.stateDisconnected.

(** What a peer keeps. *)
Definition same_peer p p' : Prop := p'.(addr) = p.(addr) ∧ p'.(maxBodySize) = p.(maxBodySize).

(** No response starts with four bytes that read as a negative size. *)
Hypothesis no_negative : ∀ c w b w', net_Read c 4 w = (Ok b, w') → 0 <= i32 (be_decode b).

Lemma Write_ok data w p : is_connected p → returns (Write data) (w, p) (λ _ s, s.2 = p).
Proof.
  intros [_ [c Hc]]. unfold Write, need_conn, returns. callST ltac:(callST ltac:(reflexivity); unfold liftST; rewrite Hc; reflexivity).
  unfold on_net. destruct (net_Write c data w) as [r w']. by eexists _, _.
Qed.

Lemma Read_ok n w p : is_connected p → returns (Read n) (w, p) (λ r s, s.2 = p ∧
  (n = 4%nat → match r with Ok b => 0 <= i32 (be_decode b) | Err _ => True end)).
Proof.
  intros [_ [c Hc]]. unfold Read, need_conn, returns. callST ltac:(callST ltac:(reflexivity); unfold liftST; rewrite Hc; reflexivity).
  unfold on_net. destruct (net_Read c n w) as [r w'] eqn:E. eexists _, _. split; [done|]. split; [done|]. intros ->.
  destruct r as [b|]; [|done]. by eapply no_negative.
Qed.

Lemma Close_ok w p : returns Close (w, p) (λ _ s, s.2 = set_state Client.stateDisconnected p).
Proof.
  unfold returns, Close. callST ltac:(reflexivity). callST ltac:(reflexivity). destruct p as [a [c|] st mb i]; cbn; by eexists _, _.
Qed.

Lemma readResponseBounded_ok limit w p : is_connected p → returns (readResponseBounded limit) (w, p) (λ _ s, s.2 = p).
Proof.
  intros Hp. unfold readResponseBounded. eapply returns_bind; [by apply Read_ok|]. intros r [w1 p1]; cbn [snd]; intros [-> Hr].
  specialize (Hr eq_refl). destruct r as [hd|e]; [|by apply returns_ret]. cbv zeta.
  destruct (_ <? i32 _); [by apply returns_ret|]. destruct (i32 _ <? 0) eqn:En; [bool_to_prop; lia|].
  eapply returns_weaken; [by apply Read_ok|]. by intros ? ? [? _].
Qed.

(** A round trip ends connected exactly when it got a response. *)
Lemma exchange_ok cmd w p : is_connected p →
  returns (exchange cmd) (w, p) (λ r s, s.2 = match r with Ok _ => p | Err _ => set_state Client.stateDisconnected p end).
Proof.
  intros Hp. unfold exchange. eapply returns_bind; [by apply Write_ok|]. intros [e|] [w1 p1]; cbn [snd]; intros ->.
  - eapply returns_bind; [apply Close_ok|]. intros [] [w2 p2]; cbn [snd]; intros ->. by apply returns_ret.
  - eapply returns_next; [reflexivity|]. cbn [snd]. eapply returns_bind; [by apply readResponseBounded_ok|].
    intros [resp|e] [w2 p2]; cbn [snd]; intros ->; [by apply returns_ret|].
    eapply returns_bind; [apply Close_ok|]. intros [] [w3 p3]; cbn [snd]; intros ->. by apply returns_ret.
Qed.

(** ** The callback runs on a connected peer *)

Lemma Command_connected (callback : (option Cmd → ST (N * lookupPeer) (res string bytes)) → ST (N * lookupPeer) ()) fuel cmd w p :
  is_connected p → Command callback (S fuel) (Some cmd) (w, p) = exchange cmd (w, p).
Proof. intros [Hp _]. cbn [Command]. callST ltac:(unfold reach; callST ltac:(reflexivity); rewrite Hp; reflexivity). done. Qed.

Notation cb ci commands := (connectCallback unmarshal_info ci commands).

Lemma send_all_ok ci cs commands fuel w p : is_connected p →
  send_all (Command (cb ci cs) (S fuel)) commands (w, p) = send_all (Command (cb ci cs) 1) commands (w, p) ∧
  returns (send_all (Command (cb ci cs) 1) commands) (w, p) (λ _ s, same_peer p s.2 ∧ peer_ok s.2).
Proof.
  revert w p. induction commands as [|cmd commands IH]; intros w p Hp; cbn [send_all].
  - split; [done|]. apply returns_ret. split; [by split|by left].
  - destruct (exchange_ok cmd w p Hp) as (r & [w1 p1] & E & Hr). cbn in Hr.
    assert (E' : ∀ k, Command (cb ci cs) (S k) (Some cmd) (w, p) = Some (r, (w1, p1))) by (intros; by rewrite Command_connected).
    split.
    + callST ltac:(exact (E' fuel)). symmetry. callST ltac:(exact (E' 0%nat)). symmetry. destruct r as [resp|e]; [|done]. subst p1. by apply IH.
    + eapply returns_next; [exact (E' 0%nat)|]. destruct r as [resp|e]; subst p1; [by apply IH|].
      apply returns_ret. split; [by split|by right].
Qed.

Lemma connectCallback_ok ci cs fuel w p : is_connected p →
  connectCallback unmarshal_info ci cs (Command (cb ci cs) (S fuel)) (w, p) = connectCallback unmarshal_info ci cs (Command (cb ci cs) 1) (w, p) ∧
  returns (connectCallback unmarshal_info ci cs (Command (cb ci cs) 1)) (w, p) (λ _ s, same_peer p s.2 ∧ peer_ok s.2).
Proof.
  intros Hp.
  assert (Hclose : ∀ w' p', same_peer p p' → returns Close (w', p') (λ _ s, same_peer p s.2 ∧ peer_ok s.2)).
  { intros w' p' Hs. eapply returns_weaken; [apply Close_ok|]. intros [] [w2 p2]; cbn [snd]; intros ->. split; [exact Hs|by right]. }
  pose proof (λ w p, send_all_ok ci cs cs fuel w p) as Hsend.
  assert (Hcmd : ∀ k cmd, Command (cb ci cs) (S k) (Some cmd) (w, p) = exchange cmd (w, p)) by (intros; by apply Command_connected).
  revert Hsend Hcmd. generalize (Command (cb ci cs)). intros C Hsend Hcmd. unfold connectCallback.
  destruct (nsq_Identify ci) as [cmd|]; [|split; [done|by apply Hclose]].
  destruct (exchange_ok cmd w p Hp) as (r & [w1 p1] & E & Hr). cbn [snd] in Hr.
  assert (E' : ∀ k, C (S k) (Some cmd) (w, p) = Some (r, (w1, p1))) by (intros; by rewrite Hcmd).
  split.
  - callST ltac:(exact (E' fuel)). symmetry. callST ltac:(exact (E' 0%nat)). symmetry. destruct r as [resp|e]; [|done]. subst p1.
    case_bool_decide; [done|]. do 2 (callST ltac:(reflexivity); symmetry).
    destruct (unmarshal_info resp p.(Info)) as [info err]. do 2 (callST ltac:(reflexivity); symmetry).
    destruct err; [done|]. by apply Hsend.
  - eapply returns_next; [exact (E' 0%nat)|]. destruct r as [resp|e]; subst p1.
    + case_bool_decide; [by apply Hclose|]. eapply returns_next; [reflexivity|]. cbn [snd].
      destruct (unmarshal_info resp p.(Info)) as [info err]. eapply returns_next; [reflexivity|].
      destruct err; [by apply Hclose|]. by apply (Hsend w1 (set_Info info p)).
    + apply returns_ret. split; [by split|by right].
Qed.

Lemma set_conn_connected c p : is_connected (set_state Client.stateConnected (set_conn (Some c) p)).
Proof. split; [done|by eexists]. Qed.

Lemma Connect_ok w p : returns Connect (w, p) (λ r s, match r with Some _ => s.2 = p | None => ∃ c, s.2 = set_conn (Some c) p end).
Proof.
  unfold returns, Connect, on_net. callST ltac:(reflexivity). cbn [snd].
  destruct (net_Dial (addr p) w) as [[c|e] w1] eqn:E.
  - callST ltac:(rewrite E; reflexivity). eexists _, _. split; [reflexivity|]. by exists c.
  - callST ltac:(rewrite E; reflexivity). by eexists _, _.
Qed.

Lemma peer_reach_ok ci cs fuel w p : peer_ok p →
  reach (cb ci cs) (Command (cb ci cs) (S fuel)) (w, p) = reach (cb ci cs) (Command (cb ci cs) 1) (w, p) ∧
  returns (reach (cb ci cs) (Command (cb ci cs) 1)) (w, p)
    (λ r s, same_peer p s.2 ∧ peer_ok s.2 ∧ (r = None → is_connected s.2)).
Proof.
  intros Hp. unfold reach. destruct Hp as [Hp|Hp].
  { destruct Hp as [Hs Hc]. split; [do 2 (callST ltac:(reflexivity); symmetry); by rewrite Hs|].
    eapply returns_next; [reflexivity|]. cbn [snd]. rewrite Hs. apply returns_ret. split; [by split|]. split; [by left|done]. }
  assert (Hpf : (state p =? Client.stateConnected) = false) by by rewrite Hp.
  assert (Hpt : (state p =? Client.stateDisconnected) = true) by by rewrite Hp.
  destruct (Connect_ok w p) as ([e|] & [w1 p1] & E & Hr); cbn in Hr.
  - subst p1. split.
    + do 2 (callST ltac:(reflexivity); symmetry). rewrite Hpf. do 2 (callST ltac:(exact E); symmetry). done.
    + eapply returns_next; [reflexivity|]. cbn [snd]. rewrite Hpf. eapply returns_next; [exact E|]. apply returns_ret.
      split; [by split|]. split; [by right|done].
  - destruct Hr as [c ->]. set (p1 := set_state Client.stateConnected (set_conn (Some c) p)).
    assert (Hp1 : is_connected p1) by apply set_conn_connected.
    destruct (Write_ok nsq_MagicV1 w1 p1 Hp1) as (r & [w2 p2] & Ew & Hw). cbn in Hw. subst p2.
    destruct (connectCallback_ok ci cs fuel w2 p1 Hp1) as [Ecb Hcb].
    split.
    + do 2 (callST ltac:(reflexivity); symmetry). rewrite Hpf. do 2 (callST ltac:(exact E); symmetry).
      do 2 (callST ltac:(reflexivity); symmetry). do 2 (callST ltac:(exact Ew); symmetry). destruct r; [done|].
      rewrite Hpt. unfold mbind at 1, ST_bind at 1. rewrite Ecb. done.
    + eapply returns_next; [reflexivity|]. cbn [snd]. rewrite Hpf. eapply returns_next; [exact E|]. eapply returns_next; [reflexivity|].
      eapply returns_next; [exact Ew|]. destruct r as [e|].
      * eapply returns_bind; [apply Close_ok|]. intros [] [w3 p3]; cbn [snd]; intros ->. apply returns_ret. split; [by split|]. split; [by right|done].
      * rewrite Hpt. eapply returns_bind; [exact Hcb|]. intros [] [w3 p3] [Hsame Hok3]. cbn in Hsame, Hok3.
        eapply returns_next; [reflexivity|]. cbn [snd]. destruct Hok3 as [Hc3|Hd3].
        -- rewrite (proj1 Hc3). cbn. apply returns_ret. split; [exact Hsame|]. split; [by left|done].
        -- rewrite Hd3. cbn. apply returns_ret. split; [exact Hsame|]. split; [by right|done].
Qed.

Lemma Command_depth ci cs cmd fuel w p : peer_ok p →
  Command (cb ci cs) (S (S fuel)) cmd (w, p) = peer_Command unmarshal_info ci cs cmd (w, p).
Proof.
  intros Hp. unfold peer_Command. generalize (peer_reach_ok ci cs fuel w p Hp). intros [E _].
  change (Command (cb ci cs) (S (S fuel)) cmd) with
    (err ← reach (cb ci cs) (Command (cb ci cs) (S fuel)); match err with Some e => mret (Err e) | None =>
       match cmd with None => mret (Ok []) | Some cmd => exchange cmd end end).
  change (Command (cb ci cs) 2 cmd) with
    (err ← reach (cb ci cs) (Command (cb ci cs) 1); match err with Some e => mret (Err e) | None =>
       match cmd with None => mret (Ok []) | Some cmd => exchange cmd end end).
  unfold mbind at 1, ST_bind at 1. by rewrite E.
Qed.

Lemma peer_Command_ok ci cs cmd w p : peer_ok p →
  returns (peer_Command unmarshal_info ci cs cmd) (w, p) (λ _ s, same_peer p s.2 ∧ peer_ok s.2).
Proof.
  intros Hp. unfold peer_Command. cbn [Command]. eapply returns_bind; [by apply (peer_reach_ok ci cs 0)|].
  intros [e|] [w1 p1] (Hs1 & Hp1 & Hc1); cbn in *; [by apply returns_ret|]. specialize (Hc1 eq_refl).
  destruct cmd as [cmd|]; [|by apply returns_ret].
  eapply returns_weaken; [by apply exchange_ok|]. intros [resp|e] [w2 p2]; cbn [snd]; intros ->; [by split|]. split; [exact Hs1|by right].
Qed.

End peer.

(** A command to an nsqlookupd returns, whatever the network does, as
    long as no response announces a negative size: the callback, which itself
    sends commands, never makes a connection again, so two levels of calls
    are all there are; and a peer that was told of an error is not connected.
    A response that announces a negative size stops nsqd. *)
Theorem command_returns {N Cmd : Type} `{Network N, Commands Cmd identity}
    (unmarshal_info : bytes → peerInfo → peerInfo * option string) ci cs (cmd : option Cmd) (w : N) p :
  peer_ok p →
  ((∀ c w b w', net_Read (N:=N) c 4 w = (Ok b, w') → 0 <= i32 (be_decode b)) →
    ∃ r w' p', (∀ fuel, Command (connectCallback unmarshal_info ci cs) (S (S fuel)) cmd (w, p) = Some (r, (w', p'))) ∧
      p'.(addr) = p.(addr) ∧ peer_ok p') ∧
  (∀ cmd' c w1 hd w2 fuel, cmd = Some cmd' → is_connected p → p.(conn) = Some c →
    net_Write c (nsq_bytes cmd') w = (None, w1) → net_Read c 4 w1 = (Ok hd, w2) → i32 (be_decode hd) < 0 <= p.(maxBodySize) →
    Command (connectCallback unmarshal_info ci cs) (S fuel) cmd (w, p) = None).
Proof.
  intros Hp. split.
  - intros Hneg. destruct (peer_Command_ok unmarshal_info Hneg ci cs cmd w p Hp) as (r & [w' p'] & E & [Ha _] & Hp').
    exists r, w', p'. split; [|by split]. intros fuel. by rewrite Command_depth.
  - intros cmd' c w1 hd w2 fuel -> Hc Hconn Ew Er Hsz. rewrite Command_connected by done.
    unfold exchange, Write, need_conn, on_net.
    callST ltac:(callST ltac:(callST ltac:(reflexivity); unfold liftST; rewrite Hconn; reflexivity); rewrite Ew; reflexivity).
    callST ltac:(reflexivity). unfold mbind, ST_bind, readResponseBounded, Read, need_conn, on_net.
    callST ltac:(callST ltac:(callST ltac:(reflexivity); unfold liftST; rewrite Hconn; reflexivity); rewrite Er; reflexivity).
    rewrite (proj2 (Z.ltb_ge _ _)) by lia. by rewrite (proj2 (Z.ltb_lt _ _)) by lia.
Qed.

(** ** The loop *)

Section loop.
Context {N Cmd W D Q B MB : Type} `{Network N, Commands Cmd identity, Client.ConnWriter W, !BackendQueue D, !BackendLaws D,
  QuantileStream Q, !BackendQueue B, !BackendLaws B}.
Context (compiles : bytes → bool) (unmarshal_info : bytes → peerInfo → peerInfo * option string) (range : ∀ A : Type, list A → list A).
Context (hostname version_Binary : bytes) (RealTCPPort RealHTTPPort : Z).
Hypothesis range_perm : ∀ A (l : list A), range A l ≡ₚ l.
Hypothesis no_negative : ∀ c w b w', net_Read (N:=N) c 4 w = (Ok b, w') → 0 <= i32 (be_decode b).
Notation nsqd := (NSQD W D Q B MB).
Notation lookup := (lookup N).
Notation turn := (lookupLoop_turn unmarshal_info range hostname version_Binary RealTCPPort RealHTTPPort).
Implicit Types (s : lookup) (n : nsqd) (o : Opts.Options).

(** A peer in the heap with its address. *)
Definition peer_at s (l : nat) (a : bytes) : Prop := ∃ p, s.(lk_heap) !! l = Some p ∧ p.(addr) = a ∧ peer_ok p.

Record lookup_ok s : Prop := {
  lo_peers : Forall2 (peer_at s) s.(lookupPeers) s.(lookupAddrs);
  lo_nodup : NoDup s.(lookupAddrs);
  lo_fresh : ∀ l, is_Some (s.(lk_heap) !! l) → (l < s.(lk_next))%nat;
  lo_stored : ∀ ls l, s.(stored) = Some ls → l ∈ ls → is_Some (s.(lk_heap) !! l);
}.

(** Peers that are still there, as good as before. *)
Definition keeps s s' : Prop :=
  (∀ l a, peer_at s l a → peer_at s' l a) ∧ (s.(lk_next) <= s'.(lk_next))%nat ∧ (∀ l, is_Some (s.(lk_heap) !! l) → is_Some (s'.(lk_heap) !! l)) ∧
  (∀ l, is_Some (s'.(lk_heap) !! l) → (l < s'.(lk_next))%nat).

Lemma start_lookup_ok w : lookup_ok (start_lookup w).
Proof. split; cbn; [constructor|constructor| |done]. intros l. rewrite lookup_empty. by intros []. Qed.

Lemma on_peer_ok {A : Type} l a (m : ST (N * lookupPeer) A) s : lookup_ok s → peer_at s l a →
  (∀ w p, peer_ok p → returns m (w, p) (λ _ q, same_peer p q.2 ∧ peer_ok q.2)) →
  returns (on_peer l m) s (λ _ s', lookup_ok s' ∧ keeps s s' ∧
    s'.(lookupPeers) = s.(lookupPeers) ∧ s'.(lookupAddrs) = s.(lookupAddrs) ∧ s'.(connect) = s.(connect)).
Proof.
  intros Hs (p & Hl & Ha & Hp) Hm. destruct (Hm s.(lk_net) p Hp) as (r & [w' p'] & E & [Ha' _] & Hp'). cbn [snd] in *.
  set (s' := mkLookup w' (<[l := p']> s.(lk_heap)) s.(lk_next) s.(lookupPeers) s.(lookupAddrs) s.(connect) s.(stored)).
  exists r, s'. split; [unfold on_peer; by rewrite Hl; cbn; rewrite E|].
  assert (Hat : ∀ k b, peer_at s k b → peer_at s' k b).
  { intros k b (q & Hk & Hb & Hq). unfold peer_at. cbn. destruct (decide (k = l)) as [->|Hne].
    - rewrite lookup_insert_eq. exists p'. split; [done|]. split; [|done]. rewrite Hl in Hk. injection Hk as <-. congruence.
    - rewrite lookup_insert_ne by done. by exists q. }
  assert (Hsome : ∀ k, is_Some (s.(lk_heap) !! k) ↔ is_Some (<[l := p']> s.(lk_heap) !! k)).
  { intros k. destruct (decide (k = l)) as [->|Hne]; [rewrite lookup_insert_eq, Hl; by split; eexists|by rewrite lookup_insert_ne]. }
  split_and!; [split; cbn|repeat split|done..]; cbn.
  - eapply Forall2_impl; [apply Hs|exact Hat].
  - apply Hs.
  - intros k Hk%Hsome. by apply Hs.
  - intros ls k Hls Hk. apply Hsome. by eapply Hs.
  - exact Hat.
  - lia.
  - intros k. apply Hsome.
  - intros k Hk%Hsome. by apply Hs.
Qed.

Lemma announcements_total o n : daemon_ok o compiles n → is_Some (announcements (Cmd:=Cmd) range n).
Proof.
  intros Hn. unfold announcements. destruct (mapM_total (register_topic (Cmd:=Cmd) range n) (range _ (map_to_list n.(topicMap)).*2)) as [cs ->]; [|by eexists].
  intros l. rewrite range_perm. intros ([nm l'] & -> & Hl%elem_of_map_to_list)%list_elem_of_fmap. cbn.
  destruct (dm_map _ _ _ Hn nm l' Hl) as [t Ht]. unfold register_topic. rewrite Ht. cbn.
  case_bool_decide; [by eexists|]. apply mapM_total. intros k. rewrite range_perm.
  intros ([cn k'] & -> & Hk%elem_of_map_to_list)%list_elem_of_fmap. cbn.
  destruct (tl_map _ _ (dm_topic _ _ _ Hn l' t Ht) cn k' Hk) as [c Hc]. unfold register_channel. rewrite Hc. by eexists.
Qed.

Lemma command_to_ok o n l a cmd s : lookup_ok s → daemon_ok o compiles n → peer_at s l a →
  returns (command_to unmarshal_info range hostname version_Binary RealTCPPort RealHTTPPort o n l cmd) s (λ _ s', lookup_ok s' ∧ keeps s s' ∧
    s'.(lookupPeers) = s.(lookupPeers) ∧ s'.(lookupAddrs) = s.(lookupAddrs) ∧ s'.(connect) = s.(connect)).
Proof.
  intros Hs Hn Hl. unfold command_to. destruct (announcements_total o n Hn) as [cs Ecs].
  eapply returns_next; [unfold liftST; rewrite Ecs; reflexivity|]. eapply on_peer_ok; [done|exact Hl|].
  intros w p Hp. by apply peer_Command_ok.
Qed.

Lemma keeps_refl s : lookup_ok s → keeps s s.
Proof. intros Hs. split_and!; [done|lia|done|apply Hs]. Qed.

Lemma keeps_trans s1 s2 s3 : keeps s1 s2 → keeps s2 s3 → keeps s1 s3.
Proof. intros (A1 & B1 & C1 & D1) (A2 & B2 & C2 & D2). split_and!; [auto|lia|auto|done]. Qed.

Notation cmd_to := (command_to unmarshal_info range hostname version_Binary RealTCPPort RealHTTPPort).
Notation cmd_all := (command_all unmarshal_info range hostname version_Binary RealTCPPort RealHTTPPort).
Notation conn_all := (connect_all unmarshal_info range hostname version_Binary RealTCPPort RealHTTPPort).

Lemma command_all_ok o n ls cmd : ∀ s, lookup_ok s → daemon_ok o compiles n → Forall (λ l, ∃ a, peer_at s l a) ls →
  returns (cmd_all o n ls cmd) s (λ _ s', lookup_ok s' ∧ keeps s s' ∧
    s'.(lookupPeers) = s.(lookupPeers) ∧ s'.(lookupAddrs) = s.(lookupAddrs) ∧ s'.(connect) = s.(connect)).
Proof.
  induction ls as [|l ls IH]; intros s Hs Hn Hls; cbn [command_all].
  - apply returns_ret. by split_and!; [|apply keeps_refl|..].
  - apply Forall_cons in Hls as [[a Hl] Hls]. eapply returns_bind; [by eapply (command_to_ok o n l a)|].
    intros r s1 (K1 & K2 & E1 & E2 & E3). eapply returns_weaken; [apply IH; [done|done|]|].
    + eapply Forall_impl; [exact Hls|]. intros k [b Hb]. exists b. by apply K2.
    + intros [] s2 (L1 & L2 & F1 & F2 & F3). split_and!; [done|by eapply keeps_trans|congruence..].
Qed.

Lemma is_in_spec a l : is_in a l = true ↔ a ∈ l.
Proof.
  unfold is_in. rewrite existsb_exists. setoid_rewrite bool_decide_eq_true. setoid_rewrite <- list_elem_of_In. naive_solver.
Qed.

Lemma add_peer_ok host mb s : lookup_ok s →
  returns (add_peer (newLookupPeer host mb)) s (λ l s', lookup_ok s' ∧ keeps s s' ∧ peer_at s' l host ∧
    s'.(lookupPeers) = s.(lookupPeers) ∧ s'.(lookupAddrs) = s.(lookupAddrs) ∧ s'.(connect) = s.(connect)).
Proof.
  intros Hs. set (p := newLookupPeer host mb).
  set (s' := mkLookup s.(lk_net) (<[s.(lk_next) := p]> s.(lk_heap)) (S s.(lk_next)) s.(lookupPeers) s.(lookupAddrs) s.(connect) s.(stored)).
  exists s.(lk_next), s'. split; [done|].
  assert (Hnew : ∀ k, is_Some (s.(lk_heap) !! k) → k ≠ s.(lk_next)) by (intros k Hk%(lo_fresh _ Hs); lia).
  assert (Hsome : ∀ k, is_Some (s.(lk_heap) !! k) → is_Some (<[s.(lk_next) := p]> s.(lk_heap) !! k)).
  { intros k Hk. rewrite lookup_insert_ne; [done|]. by apply not_eq_sym, Hnew. }
  assert (Hlt : ∀ k, is_Some (<[s.(lk_next) := p]> s.(lk_heap) !! k) → (k < S s.(lk_next))%nat).
  { intros k. destruct (decide (k = s.(lk_next))) as [->|Hne]; [lia|]. rewrite lookup_insert_ne by done. intros Hk%(lo_fresh _ Hs). lia. }
  assert (Hat : ∀ k b, peer_at s k b → peer_at s' k b).
  { intros k b (q & Hk & Hq). exists q. split; [|done]. cbn. rewrite lookup_insert_ne; [done|]. apply not_eq_sym, Hnew. by eexists. }
  split; [split; cbn|split; [repeat split; cbn|split; [|done]]].
  - eapply Forall2_impl; [apply Hs|exact Hat].
  - apply Hs.
  - exact Hlt.
  - intros ls k Hls Hk. apply Hsome. by eapply Hs.
  - exact Hat.
  - lia.
  - exact Hsome.
  - exact Hlt.
  - exists p. cbn. rewrite lookup_insert_eq. split_and!; [done|done|by right].
Qed.

Lemma append_peer_ok l host s : lookup_ok s → peer_at s l host → host ∉ s.(lookupAddrs) →
  returns (append_peer l host) s (λ _ s', lookup_ok s' ∧ keeps s s' ∧
    s'.(lookupPeers) = s.(lookupPeers) ++ [l] ∧ s'.(lookupAddrs) = s.(lookupAddrs) ++ [host] ∧ s'.(connect) = s.(connect)).
Proof.
  intros Hs Hl Hnot. eexists (), _. split; [reflexivity|]. split; [split; cbn|split; [|done]].
  5: { split_and!; [done|cbn; lia|done|apply Hs]. }
  - apply Forall2_app; [apply Hs|by constructor].
  - apply NoDup_app. split_and!; [apply Hs| |apply NoDup_singleton]. intros a Ha ->%list_elem_of_singleton. done.
  - apply Hs.
  - apply Hs.
Qed.

Lemma connect_all_ok o n hosts : ∀ s, lookup_ok s → daemon_ok o compiles n →
  returns (conn_all o n hosts) s (λ _ s', lookup_ok s' ∧ keeps s s' ∧ s'.(connect) = s.(connect) ∧
    (∀ a, a ∈ s'.(lookupAddrs) ↔ a ∈ s.(lookupAddrs) ∨ a ∈ hosts) ∧ ∃ ls, s'.(lookupPeers) = s.(lookupPeers) ++ ls).
Proof.
  induction hosts as [|host hosts IH]; intros s Hs Hn; cbn [connect_all].
  - apply returns_ret. split_and!; [done|by apply keeps_refl|done| |exists []; by rewrite app_nil_r].
    intros a. rewrite elem_of_nil. tauto.
  - eapply returns_next; [reflexivity|].
    eapply (returns_bind _ _ _ (λ _ s', lookup_ok s' ∧ keeps s s' ∧ s'.(connect) = s.(connect) ∧
      (∀ a, a ∈ s'.(lookupAddrs) ↔ a ∈ s.(lookupAddrs) ∨ a = host) ∧ ∃ ls, s'.(lookupPeers) = s.(lookupPeers) ++ ls)).
    + destruct (is_in host (lookupAddrs s)) eqn:Ei.
      * apply is_in_spec in Ei. apply returns_ret. split_and!; [done|by apply keeps_refl|done| |exists []; by rewrite app_nil_r].
        intros a. split; [by left|]. by intros [?| ->].
      * assert (Hnot : host ∉ lookupAddrs s) by (rewrite <- is_in_spec; by rewrite Ei).
        eapply returns_bind; [by apply add_peer_ok|]. intros l s1 (K1 & L1 & Hl & P1 & A1 & C1).
        eapply returns_bind; [by apply (command_to_ok o n l host None)|]. intros r s2 (K2 & L2 & P2 & A2 & C2).
        eapply returns_weaken; [apply append_peer_ok; [done|by apply L2|congruence]|].
        intros [] s3 (K3 & L3 & P3 & A3 & C3). split_and!; [done|eauto using keeps_trans|congruence| |exists [l]; congruence].
        intros a. rewrite A3, elem_of_app, list_elem_of_singleton. rewrite A2, A1. done.
    + intros [] s1 (K1 & L1 & C1 & A1 & ls1 & P1). eapply returns_weaken; [by apply IH|].
      intros [] s2 (K2 & L2 & C2 & A2 & ls2 & P2). split_and!; [done|by eapply keeps_trans|congruence| |].
      * intros a. rewrite A2, A1, elem_of_cons. tauto.
      * exists (ls1 ++ ls2). by rewrite P2, P1, app_assoc.
Qed.

Lemma keep_peers_ok o ls : ∀ as_ s, lookup_ok s → Forall2 (peer_at s) ls as_ →
  returns (keep_peers o ls) s (λ r s', lookup_ok s' ∧ keeps s s' ∧ Forall2 (peer_at s') r.1 r.2 ∧ r.1 `sublist_of` ls ∧
    r.2 = filter (λ a, a ∈ o.(Opts.NSQLookupdTCPAddresses)) as_).
Proof.
  induction ls as [|l ls IH]; intros as_ s Hs Hls; cbn [keep_peers].
  - apply Forall2_nil_inv_l in Hls as ->. apply returns_ret. split_and!; [done|by apply keeps_refl|constructor|done|done].
  - apply Forall2_cons_inv_l in Hls as (a & as' & Hl & Hls & ->). pose proof Hl as (p & Hp & Ha & Hpo).
    eapply returns_next; [reflexivity|]. eapply returns_next; [unfold liftST; rewrite Hp; reflexivity|]. rewrite Ha.
    destruct (is_in a _) eqn:Ei.
    + apply is_in_spec in Ei. eapply returns_bind; [by apply (IH as')|]. intros [ps ads] s1 (K1 & L1 & F1 & S1 & E1). cbn [fst snd] in *.
      apply returns_ret. cbn [fst snd]. rewrite filter_cons, decide_True by done. split_and!; [done|done| |by constructor|by f_equal].
      constructor; [by apply L1|done].
    + assert (Hn : a ∉ o.(Opts.NSQLookupdTCPAddresses)) by (rewrite <- is_in_spec; by rewrite Ei).
      eapply returns_bind.
      { apply (on_peer_ok l a); [done|exact Hl|]. intros w q Hq. eapply returns_weaken; [apply Close_ok|].
        intros [] [w1 q1]; cbn [snd]; intros ->. split; [by split|by right]. }
      intros [] s1 (K1 & L1 & _). eapply returns_weaken; [apply (IH as'); [done|]|].
      { eapply Forall2_impl; [exact Hls|]. apply L1. }
      intros [ps ads] s2 (K2 & L2 & F2 & S2 & E2). cbn [fst snd] in *. rewrite filter_cons, decide_False by done.
      split_and!; [done|by eapply keeps_trans|done|by constructor|done].
Qed.

Lemma connect_phase_ok o n s : lookup_ok s → daemon_ok o compiles n →
  returns (connect_phase unmarshal_info range hostname version_Binary RealTCPPort RealHTTPPort o n) s (λ _ s', lookup_ok s' ∧
    s'.(connect) = false ∧ (∀ a, a ∈ s'.(lookupAddrs) ↔ a ∈ s.(lookupAddrs) ∨ s.(connect) = true ∧ a ∈ o.(Opts.NSQLookupdTCPAddresses)) ∧
    (s.(connect) = false → s'.(lookupPeers) = s.(lookupPeers))).
Proof.
  intros Hs Hn. unfold connect_phase. eapply returns_next; [reflexivity|]. destruct (connect s) eqn:Ec.
  2: { apply returns_ret. split_and!; [done|done| |done]. naive_solver. }
  eapply returns_bind; [by apply connect_all_ok|]. intros [] s1 (K1 & L1 & C1 & A1 & ls & P1).
  eexists (), _. split; [reflexivity|]. split_and!; [split; cbn; try apply K1|done| |done].
  - intros ls' l [= <-] Hl. apply list_elem_of_lookup in Hl as [i Hl].
    destruct (Forall2_lookup_l _ _ _ _ _ (lo_peers _ K1) Hl) as (a & _ & p & Hp & _). by eexists.
  - intros a. cbn. rewrite A1. naive_solver.
Qed.

Lemma peers_at s : lookup_ok s → Forall (λ l, ∃ a, peer_at s l a) s.(lookupPeers).
Proof.
  intros Hs. apply Forall_lookup. intros i l Hl. destruct (Forall2_lookup_l _ _ _ _ _ (lo_peers _ Hs) Hl) as (a & _ & ?). by exists a.
Qed.

Lemma event_ok o n ev s : lookup_ok s → daemon_ok o compiles n → s.(connect) = false →
  returns (match ev with
    | Tick => _ ← cmd_all o n s.(lookupPeers) nsq_Ping; mret true
    | Notified v => _ ← cmd_all o n s.(lookupPeers) (notification_cmd v); mret true
    | OptsChanged =>
      '(tmpPeers, tmpAddrs) ← keep_peers o s.(lookupPeers);
      _ ← modST (λ s, mkLookup s.(lk_net) s.(lk_heap) s.(lk_next) tmpPeers tmpAddrs true s.(stored));
      mret true
    | ExitChan => mret false
    end) s (λ r s', r = match ev with ExitChan => false | _ => true end ∧ lookup_ok s' ∧
    (∀ a, a ∈ s'.(lookupAddrs) ↔ match ev with OptsChanged => a ∈ s.(lookupAddrs) ∧ a ∈ o.(Opts.NSQLookupdTCPAddresses) | _ => a ∈ s.(lookupAddrs) end) ∧
    s'.(connect) = match ev with OptsChanged => true | _ => false end ∧
    (s'.(lookupPeers) `sublist_of` s.(lookupPeers) ∧ (ev ≠ OptsChanged → s'.(lookupPeers) = s.(lookupPeers)))).
Proof.
  intros Hs Hn Hc.
  assert (Hcmd : ∀ cmd, returns (_ ← cmd_all o n s.(lookupPeers) cmd; mret true) s (λ r s', r = true ∧ lookup_ok s' ∧
    s'.(lookupAddrs) = s.(lookupAddrs) ∧ s'.(connect) = false ∧ s'.(lookupPeers) = s.(lookupPeers))).
  { intros cmd. eapply returns_bind; [by apply command_all_ok, peers_at|]. intros [] s1 (K1 & _ & P1 & A1 & C1).
    apply returns_ret. split_and!; [done..|congruence|done]. }
  destruct ev as [|v| |]; [eapply returns_weaken; [apply Hcmd|]..| |].
  1, 2: intros r s1 (-> & K1 & A1 & C1 & P1); split_and!; [done|done|by rewrite A1|done|by rewrite P1|done].
  - eapply returns_bind; [by apply keep_peers_ok, Hs|]. intros [ps ads] s1 (K1 & L1 & F1 & S1 & E1). cbn [fst snd] in *. subst ads.
    eexists true, _. split; [reflexivity|]. split_and!; [done|split; cbn|..|done|done|done].
    + exact F1.
    + apply NoDup_filter, Hs.
    + apply K1.
    + apply K1.
    + intros a. cbn. rewrite list_elem_of_filter. naive_solver.
  - apply returns_ret. by split_and!.
Qed.

Lemma http_addrs_ok s : lookup_ok s → is_Some (lookupdHTTPAddrs s).
Proof.
  intros Hs. unfold lookupdHTTPAddrs. destruct (stored s) as [ls|] eqn:E; [|by eexists].
  destruct (mapM_total (λ l, s.(lk_heap) !! l) ls) as [ps ->]; [|by eexists]. intros l Hl. by eapply Hs.
Qed.


End loop.

End LookupPeerSpec.
