(* ===== verification/Announce.v ===== *)
(** * nsqd and nsqlookupd together

    The network of [LookupPeer] with one nsqlookupd on it: a connection is a
    session of [LookupProtocol], which runs a turn for each command that is
    written to it, against the registration database. After nsqd connected,
    the database holds nsqd under exactly its topics and channels
    ([announced]). *)
From stdpp Require Import base gmap list strings.
From Stdlib Require Import ZArith Lia.
From S2P Require Import Prelude.
From S2P Require Import Text.
From S2P Require Import Message.
From S2P Require Import Heap.
From S2P Require Import Wire.
From S2P Require Import RegistrationDB.
From S2P Require Import LookupProtocol.
From S2P Require Import LookupProtocolProps.
From S2P Require Import Backend.
From S2P Require Import Channel.
From S2P Require Import Topic.
From S2P Require Import Options.
From S2P Require Import Client.
From S2P Require Import Nsqd.
From S2P Require Import LookupPeer.
From S2P Require Import LookupPeerProps.
Set Default Goal Selector "!".
Local Open Scope Z_scope.

(** What a command of go-nsq looks like on the wire. *)
Class CommandsLaws (Cmd J : Type) `{Commands Cmd J} (marshal : J → bytes) := {
  nc_Magic : nsq_MagicV1 = bytes_of_string "  V1";
  nc_Ping : nsq_bytes nsq_Ping = bytes_of_string "PING" ++ [Wire.newline];
  nc_Register t c : nsq_bytes (nsq_Register t c) =
    bytes_of_string "REGISTER" ++ Wire.space :: t ++ (if bool_decide (c = []) then [] else Wire.space :: c) ++ [Wire.newline];
  nc_UnRegister t c : nsq_bytes (nsq_UnRegister t c) =
    bytes_of_string "UNREGISTER" ++ Wire.space :: t ++ (if bool_decide (c = []) then [] else Wire.space :: c) ++ [Wire.newline];
  nc_Identify j : ∃ cmd, nsq_Identify j = Some cmd ∧
    nsq_bytes cmd = bytes_of_string "IDENTIFY" ++ Wire.newline :: be_encode 4 (Z.of_nat (length (marshal j))) ++ marshal j;
}.

Module Announce.
Import Wire RegDB LookupProtocol LookupSpec LookupPeer LookupPeerSpec.

(** ** Lines *)

(** Bytes of words: printable and not a space. *)
Definition plain (b : byte) : Prop := 33 <= Z_of_byte b <= 126.
Definition word (w : bytes) : Prop := w ≠ [] ∧ Forall plain w.

Lemma plain_not_space b : plain b → b ≠ newline ∧ b ≠ space.
Proof. unfold plain. intros Hb. split; intros ->; vm_compute in Hb; naive_solver. Qed.

Definition starts_white (p : bytes) : bool :=
  match p with h :: _ => negb ((33 <=? Z_of_byte h) && (Z_of_byte h <=? 126)) | [] => false end.

Lemma starts_white_strip ps b : forallb starts_white ps = true → plain b → Forall (λ p, ∀ s, strip_prefix p (b :: s) = None) ps.
Proof.
  intros Hps%Is_true_true%forallb_True Hb. eapply Forall_impl; [exact Hps|]. intros [|h t] Hh s; [done|]. cbn [strip_prefix].
  rewrite bool_decide_eq_false_2; [done|]. intros ->. unfold plain in Hb. cbn [starts_white] in Hh.
  by rewrite (proj2 (Z.leb_le _ _) (proj1 Hb)), (proj2 (Z.leb_le _ _) (proj2 Hb)) in Hh.
Qed.

Lemma plain_no_white b : plain b → Forall (λ p, ∀ s, strip_prefix p (b :: s) = None) white_space ∧
  Forall (λ p, ∀ s, strip_prefix p (b :: s) = None) (map reverse white_space).
Proof. intros Hb. split; (apply starts_white_strip; [by vm_compute|done]). Qed.

Lemma trim_left_word ps fuel b s : Forall (λ p, ∀ s, strip_prefix p (b :: s) = None) ps → trim_left ps fuel (b :: s) = b :: s.
Proof.
  intros Hps. destruct fuel as [|fuel]; [done|]. cbn [trim_left].
  destruct (list_find _ ps) as [[i p]|] eqn:E; [|done]. apply list_find_Some in E as (Hi & [x Hx] & _).
  rewrite Forall_lookup in Hps. by rewrite (Hps i p Hi) in Hx.
Qed.

Lemma TrimSpace_line l b c s : l = b :: s → last l = Some c → plain b → plain c → TrimSpace (l ++ [newline]) = l.
Proof.
  intros -> Hc Hb Hpc. unfold TrimSpace. cbn [app]. rewrite trim_left_word by by apply plain_no_white.
  change (b :: s ++ [newline]) with ((b :: s) ++ [newline]). rewrite reverse_snoc.
  apply last_Some in Hc as [l' El]. rewrite El, reverse_snoc.
  rewrite !length_app. cbn [length]. replace (length l' + 1 + 1)%nat with (S (S (length l'))) by lia.
  change (trim_left (map reverse white_space) (S (S (length l'))) (newline :: c :: reverse l'))
    with (trim_left (map reverse white_space) (S (length l')) (c :: reverse l')).
  rewrite trim_left_word by by apply plain_no_white. by rewrite reverse_cons, reverse_involutive.
Qed.

Lemma ReadString_line l rest : newline ∉ l → ReadString (l ++ newline :: rest) = Some (l ++ [newline], rest).
Proof.
  induction l as [|b l IH]; intros Hn; cbn; [done|]. apply not_elem_of_cons in Hn as [Hb Hn].
  rewrite bool_decide_eq_false_2 by done. by rewrite IH.
Qed.

Lemma join_words ws : ws ≠ [] → Forall word ws →
  ∃ b c s, Split.join space ws = b :: s ∧ last (Split.join space ws) = Some c ∧ plain b ∧ plain c ∧ newline ∉ Split.join space ws.
Proof.
  induction ws as [|w ws IH]; intros Hne Hws; [done|]. apply Forall_cons in Hws as [[Hw Hp] Hws].
  assert (Hwn : newline ∉ w).
  { intros Hin. rewrite Forall_forall in Hp. by destruct (plain_not_space _ (Hp _ Hin)). }
  destruct w as [|b s]; [done|]. pose proof Hp as Hp'. apply Forall_cons in Hp' as [Hb _].
  assert (Hl : ∃ c, last (b :: s) = Some c ∧ plain c).
  { destruct (last (b :: s)) as [c|] eqn:E; [|by apply last_None in E]. exists c. split; [done|].
    apply last_Some in E as [l' E]. rewrite E, Forall_app, Forall_singleton in Hp. by apply Hp. }
  destruct ws as [|w2 ws].
  - destruct Hl as (c & Hc & Hpc). by exists b, c, s.
  - rewrite Split.join_cons by done. destruct IH as (b2 & c2 & s2 & E2 & L2 & Hb2 & Hc2 & Hn2); [done|done|].
    exists b, c2, (s ++ space :: Split.join space (w2 :: ws)). split_and!; [done| |done|done|].
    + by rewrite last_app, last_cons, L2.
    + intros [Hin|Hin]%elem_of_app; [done|]. apply elem_of_cons in Hin as [Hin|Hin]; [by vm_compute in Hin|done].
Qed.

(** A line of words is read and split into them. *)
Lemma line_words ws rest : ws ≠ [] → Forall word ws →
  ReadString (Split.join space ws ++ newline :: rest) = Some (Split.join space ws ++ [newline], rest) ∧
  Split.split space (TrimSpace (Split.join space ws ++ [newline])) = ws.
Proof.
  intros Hne Hws. destruct (join_words ws Hne Hws) as (b & c & s & E & Hl & Hb & Hc & Hn). split.
  - by apply ReadString_line.
  - rewrite (TrimSpace_line _ b c s) by done. apply Split.split_join; [done|].
    eapply Forall_impl; [exact Hws|]. intros w [_ Hp] Hin. rewrite Forall_forall in Hp. by destruct (plain_not_space _ (Hp _ Hin)).
Qed.

Lemma name_word nm : Names.isValidName nm = true → word nm.
Proof.
  intros Hv. apply (proj1 (Names.isValidName_spec nm)) in Hv as (Hlen & base & Hne & Hf & Hnm). split; [by intros ->; cbn in Hlen; lia|].
  assert (Hbase : Forall plain base).
  { eapply Forall_impl; [exact Hf|]. intros b. unfold Names.name_char, Names.in_range, plain. intros Hb.
    repeat rewrite orb_true_iff in Hb. rewrite !andb_true_iff, !bool_decide_eq_true, !Z.leb_le in Hb. lia. }
  destruct Hnm as [->| ->]; [done|]. apply Forall_app. split; [done|]. by repeat (apply Forall_cons; split; [unfold plain; by vm_compute|]).
Qed.

(** ** The network with one nsqlookupd *)

Inductive conn_state := Magic | Running | Closed.

Record lnet := mkLnet {
  ln_db : RegistrationDB;
  ln_conns : gmap nat (conn_state * ClientV1 bytes);
  ln_next : nat;
  ln_up : bool;
}.

Section lookupd.
Context (range : ∀ A : Type, list A → list A).
Context (unmarshal : bytes → option identify_body) (identify_response : option bytes).
(** The address nsqlookupd listens on, that of a connection as nsqlookupd sees
    it, and the time. *)
Context (server_addr : bytes) (local_addr : nat → bytes) (now : time).

Definition set_conns (f : gmap nat (conn_state * ClientV1 bytes) → gmap nat (conn_state * ClientV1 bytes)) (w : lnet) : lnet :=
  mkLnet w.(ln_db) (f w.(ln_conns)) w.(ln_next) w.(ln_up).

(** nsqlookupd is gone, and its connections with it. *)
Definition crashed (w : lnet) : lnet := mkLnet NewRegistrationDB ∅ w.(ln_next) false.

(** The session of the connection [c] ends. *)
Definition end_session (c : nat) (cl : ClientV1 bytes) (w : lnet) : lnet :=
  match IOLoop_end range (w.(ln_db), cl) with
  | Some (_, (d, cl)) => mkLnet d (<[c := (Closed, cl)]> w.(ln_conns)) w.(ln_next) w.(ln_up)
  | None => crashed w
  end.

(** A command was written: a turn of the loop. *)
Definition serve (c : nat) (cl : ClientV1 bytes) (w : lnet) : lnet :=
  match IOLoop_turn range unmarshal identify_response now (w.(ln_db), cl) with
  | Some (true, (d, cl)) => mkLnet d (<[c := (Running, cl)]> w.(ln_conns)) w.(ln_next) w.(ln_up)
  | Some (false, (d, cl)) => end_session c cl (mkLnet d w.(ln_conns) w.(ln_next) w.(ln_up))
  | None => crashed w
  end.

(** The first four bytes choose the protocol. *)
Definition serve_magic (c : nat) (cl : ClientV1 bytes) (w : lnet) : lnet :=
  if bool_decide (cl.(c_in) = bytes_of_string "  V1") then set_conns (<[c := (Running, set_c_in [] cl)]>) w
  else set_conns (<[c := (Closed, cl)]>) w.

#[export] Instance lookupd_network : Network lnet := {|
  net_Dial a w :=
    if ln_up w && bool_decide (a = server_addr)
    then (Ok w.(ln_next), mkLnet w.(ln_db) (<[w.(ln_next) := (Magic, mkClient [] [] (local_addr w.(ln_next)) None)]> w.(ln_conns)) (S w.(ln_next)) (ln_up w))
    else (Err "connection refused"%string, w);
  net_Write c data w :=
    match w.(ln_conns) !! c with
    | Some (Magic, cl) => (None, serve_magic c (set_c_in (cl.(c_in) ++ data) cl) w)
    | Some (Running, cl) => (None, serve c (set_c_in (cl.(c_in) ++ data) cl) w)
    | _ => (Some "broken pipe"%string, w)
    end;
  net_Read c n w :=
    match w.(ln_conns) !! c with
    | Some (st, cl) =>
      if (n <=? length cl.(c_out))%nat
      then (Ok (take n cl.(c_out)), set_conns (<[c := (st, set_c_out (drop n cl.(c_out)) cl)]>) w)
      else (Err "EOF"%string, set_conns (<[c := (st, set_c_out [] cl)]>) w)
    | None => (Err "EOF"%string, w)
    end;
  net_Close c w :=
    match w.(ln_conns) !! c with
    | Some (Running, cl) => set_conns (delete c) (end_session c cl w)
    | Some _ => set_conns (delete c) w
    | None => w
    end;
|}.

(** ** Turns *)

Hypothesis range_perm : ∀ A (l : list A), range A l ≡ₚ l.
Notation turn := (IOLoop_turn range unmarshal identify_response now).
Implicit Types (d : RegistrationDB) (cl : ClientV1 bytes).

Definition reply (resp : bytes) : bytes := be_encode 4 (u32 (Z.of_nat (length resp))) ++ resp.

Lemma send_reply resp d cl : send resp (d, cl) = Some (true, (d, set_c_out (cl.(c_out) ++ reply resp) cl)).
Proof.
  unfold send. callST ltac:(reflexivity). unfold SendResponse, write, buffer_writer. cbv beta iota zeta.
  unfold reply. rewrite app_assoc. by callST ltac:(reflexivity).
Qed.

Definition command_words (cmd : bytes) (t c : bytes) : list bytes := cmd :: t :: (if bool_decide (c = []) then [] else [c]).

Lemma command_line cmd t c : Split.join space (command_words cmd t c) ++ [newline] =
  cmd ++ space :: t ++ (if bool_decide (c = []) then [] else space :: c) ++ [newline].
Proof. unfold command_words. case_bool_decide; cbn [Split.join]; by rewrite <- ?app_assoc; cbn; rewrite <- ?app_assoc. Qed.

Definition names (t c : bytes) : Prop := Names.IsValidTopicName t = true ∧ (c ≠ [] → Names.IsValidChannelName c = true).

Lemma command_words_ok cmd t c : word cmd → names t c → Forall word (command_words cmd t c).
Proof.
  intros Hcmd [Ht Hc]. unfold command_words. constructor; [done|]. constructor; [by apply name_word|].
  case_bool_decide; constructor; [by apply name_word, Hc|constructor].
Qed.

Lemma getTopicChan_words cmd t c : names t c → getTopicChan cmd (t :: (if bool_decide (c = []) then [] else [c])) = Ok (t, c).
Proof.
  intros [Ht Hc]. unfold getTopicChan. rewrite Ht. cbn [negb]. destruct (decide (c = [])) as [->|E]; [done|].
  rewrite (bool_decide_eq_false_2 (c = [])) by done. rewrite Hc by done. rewrite bool_decide_eq_false_2 by done. done.
Qed.

Lemma register_turn d cl addr pi t c : db_ok d → identified d cl addr pi → names t c →
  (∃ d', turn (d, set_c_in (bytes_of_string "REGISTER" ++ space :: t ++ (if bool_decide (c = []) then [] else space :: c) ++ [newline]) cl)
      = Some (true, (d', set_c_out (cl.(c_out) ++ reply OK) (set_c_in [] cl))) ∧ db_ok d' ∧ identified d' cl addr pi ∧
    ∀ k i, registered d' k i ↔ registered d k i ∨
      i = addr ∧ (k = mkReg topic_category t [] ∨ c ≠ [] ∧ k = mkReg channel_category t c)) ∧
  (∃ d', turn (d, set_c_in (bytes_of_string "UNREGISTER" ++ space :: t ++ (if bool_decide (c = []) then [] else space :: c) ++ [newline]) cl)
      = Some (true, (d', set_c_out (cl.(c_out) ++ reply OK) (set_c_in [] cl))) ∧ db_ok d' ∧ identified d' cl addr pi ∧
    ∀ k i, registered d' k i ↔ registered d k i ∧ ¬ (i = addr ∧ unregistered t c k)).
Proof.
  intros Hok Hid Hn. set (cl0 := set_c_in [] cl). assert (Hid0 : identified d cl0 addr pi) by exact Hid.
  destruct (register_ok range range_perm d cl0 addr pi (t :: (if bool_decide (c = []) then [] else [c])) Hok Hid0) as [Hreg Hunreg].
  rewrite getTopicChan_words in Hreg by done. rewrite getTopicChan_words in Hunreg by done.
  destruct Hreg as (d1 & E1 & Hok1 & Hid1 & Hr1). destruct Hunreg as (d2 & E2 & Hok2 & Hid2 & Hr2).
  assert (Hturn : ∀ cmd d', word cmd → Exec range unmarshal identify_response now (command_words cmd t c) (d, cl0) = Some (Ok OK, (d', cl0)) →
    turn (d, set_c_in (cmd ++ space :: t ++ (if bool_decide (c = []) then [] else space :: c) ++ [newline]) cl)
      = Some (true, (d', set_c_out (cl.(c_out) ++ reply OK) (set_c_in [] cl)))).
  { intros cmd d' Hcmd E. rewrite <- command_line.
    destruct (line_words (command_words cmd t c) [] ltac:(done) (command_words_ok _ _ _ Hcmd Hn)) as [Hr Hs].
    unfold IOLoop_turn. callST ltac:(reflexivity). cbn [snd c_in set_c_in]. rewrite Hr. callST ltac:(reflexivity). rewrite Hs.
    callST ltac:(exact E). exact (send_reply OK d' cl0). }
  split.
  - exists d1. split; [apply Hturn; [split; [done|by repeat (apply Forall_cons; split; [unfold plain; by vm_compute|])]|exact E1]|done].
  - exists d2. split; [apply Hturn; [split; [done|by repeat (apply Forall_cons; split; [unfold plain; by vm_compute|])]|exact E2]|done].
Qed.

Definition complete (ib : identify_body) : Prop :=
  ib.(ib_BroadcastAddress) ≠ [] ∧ ib.(ib_TCPPort) ≠ 0 ∧ ib.(ib_HTTPPort) ≠ 0 ∧ ib.(ib_Version) ≠ [].

Lemma ReadFull_app n d cl b rest : length b = n → cl.(c_in) = b ++ rest → ReadFull n (d, cl) = Some (Some b, (d, set_c_in rest cl)).
Proof.
  intros Hl Hin. unfold ReadFull. callST ltac:(reflexivity). rewrite Hin. rewrite bool_decide_eq_false_2 by (rewrite length_app; lia).
  callST ltac:(reflexivity). by rewrite take_app_length', drop_app_length' by done.
Qed.

Lemma identify_turn d cl body ib : db_ok d → cl.(c_peerInfo) = None → cl.(c_in) = [] → Z.of_nat (length body) < 2 ^ 31 →
  unmarshal body = Some ib → complete ib →
  let cl' := set_c_peerInfo (Some d.(next)) cl in
  ∃ d', turn (d, set_c_in (bytes_of_string "IDENTIFY" ++ newline :: be_encode 4 (Z.of_nat (length body)) ++ body) cl)
      = Some (true, (d', set_c_out (cl.(c_out) ++ reply (default OK identify_response)) cl')) ∧
    db_ok d' ∧ identified d' cl' cl.(RemoteAddr) d.(next) ∧
    ∀ k i, registered d' k i ↔ registered d k i ∨ i = cl.(RemoteAddr) ∧ k = mkReg client_category [] [].
Proof.
  intros Hok Hnone Hin Hlen Hun (Hc1 & Hc2 & Hc3 & Hc4) cl'.
  set (hd := be_encode 4 (Z.of_nat (length body))).
  set (pi := mkPeer (UnixNano now) cl.(RemoteAddr) cl.(RemoteAddr) ib.(ib_Hostname) ib.(ib_BroadcastAddress) ib.(ib_TCPPort) ib.(ib_HTTPPort) ib.(ib_Version)).
  destruct (new_peer_ok pi d Hok) as (d1 & E1 & Hok1 & Ep1 & Er1).
  assert (Hpi : d1.(peers) !! d.(next) = Some pi) by (rewrite Ep1; apply lookup_insert_eq).
  destruct (add_producer_ok (mkReg client_category [] []) d.(next) pi d1 cl' Hok1 Hpi) as (b & d2 & E2 & Hok2 & Ep2 & Hr2).
  exists d2. split_and!; [|done|split; [done|]; exists pi; by rewrite Ep2|].
  2: { intros k i. rewrite Hr2. unfold registered at 1. rewrite Er1. fold (registered d k i). naive_solver. }
  unfold IOLoop_turn. callST ltac:(reflexivity). cbn [snd c_in set_c_in].
  assert (Er : ReadString (bytes_of_string "IDENTIFY" ++ newline :: hd ++ body) = Some (bytes_of_string "IDENTIFY" ++ [newline], hd ++ body)) by reflexivity.
  rewrite Er. callST ltac:(reflexivity).
  replace (Split.split space (TrimSpace (bytes_of_string "IDENTIFY" ++ [newline]))) with [bytes_of_string "IDENTIFY"] by by vm_compute.
  set (cl1 := set_c_in (hd ++ body) (set_c_in _ cl)).
  assert (Ex : IDENTIFY unmarshal identify_response now (d, cl1) = Some (Ok (default OK identify_response), (d2, cl'))).
  { unfold IDENTIFY. callST ltac:(reflexivity). cbn [c_peerInfo cl1 set_c_in]. rewrite Hnone.
    callST ltac:(apply (ReadFull_app 4 d cl1 hd body); [apply length_be_encode|reflexivity]).
    assert (Hdec : i32 (be_decode hd) = Z.of_nat (length body)).
    { unfold hd. rewrite be_decode_encode. rewrite Z.mod_small by (pow2; lia). apply i32_id. unfold in_i32. lia. }
    rewrite Hdec, (proj2 (Z.ltb_ge _ _)) by lia.
    callST ltac:(apply (ReadFull_app _ d _ body []); [by rewrite Nat2Z.id|by rewrite app_nil_r]). rewrite Hun.
    rewrite (bool_decide_eq_false_2 (ib_BroadcastAddress ib = [])), (bool_decide_eq_false_2 (ib_Version ib = [])) by done.
    rewrite (proj2 (Z.eqb_neq _ _) Hc2), (proj2 (Z.eqb_neq _ _) Hc3). cbn [orb].
    callST ltac:(apply on_db_eq; exact E1). callST ltac:(reflexivity).
    assert (Ecl : set_c_peerInfo (Some d.(next)) (set_c_in [] (set_c_in body cl1)) = cl').
    { unfold cl', cl1, set_c_peerInfo, set_c_in. cbn. by rewrite <- Hin. }
    rewrite Ecl. by callST ltac:(exact E2). }
  change (Exec range unmarshal identify_response now [bytes_of_string "IDENTIFY"] (d, cl1)) with (IDENTIFY unmarshal identify_response now (d, cl1)).
  callST ltac:(exact Ex). exact (send_reply _ d2 cl').
Qed.

(** ** Round trips over the network *)

#[local] Existing Instance lookupd_network.
Context {Cmd : Type} `{!Commands Cmd identity} (marshal_identity : identity → bytes) `{!CommandsLaws Cmd identity marshal_identity}.
Implicit Types (w : lnet) (p : lookupPeer).

(** The connection [c] of the peer is a session that waits for a command. *)
Definition waits w (c : nat) cl : Prop := w.(ln_conns) !! c = Some (Running, cl) ∧ cl.(c_in) = [] ∧ cl.(c_out) = [].

Lemma exchange_served (cmd : Cmd) w p c cl d' cl' resp :
  is_connected p → p.(conn) = Some c → waits w c cl → turn (w.(ln_db), set_c_in (nsq_bytes cmd) cl) = Some (true, (d', cl')) →
  cl'.(c_out) = reply resp → Z.of_nat (length resp) < 2 ^ 31 → Z.of_nat (length resp) <= p.(maxBodySize) →
  exchange (N:=lnet) cmd (w, p) = Some (Ok resp, (mkLnet d' (<[c := (Running, set_c_out [] cl')]> w.(ln_conns)) w.(ln_next) w.(ln_up), p)).
Proof.
  intros Hp Hc (Hcl & Hin & _) Et Hout Hlen Hmax. unfold exchange.
  set (w1 := mkLnet d' (<[c := (Running, cl')]> w.(ln_conns)) w.(ln_next) w.(ln_up)).
  assert (Hconn : ∀ w', need_conn (w', p) = Some (c, (w', p))) by (intros; unfold need_conn; callST ltac:(reflexivity); unfold liftST; by rewrite Hc).
  assert (Ew : Write (N:=lnet) (nsq_bytes cmd) (w, p) = Some (None, (w1, p))).
  { unfold Write. callST ltac:(apply Hconn). unfold on_net. cbn [net_Write lookupd_network]. rewrite Hcl, Hin. unfold serve. cbn [app]. by rewrite Et. }
  callST ltac:(exact Ew). callST ltac:(reflexivity). cbn [snd].
  assert (Hlr : length (reply resp) = (4 + length resp)%nat) by (unfold reply; by rewrite length_app, length_be_encode).
  set (hd := be_encode 4 (u32 (Z.of_nat (length resp)))).
  assert (Hdec : i32 (be_decode hd) = Z.of_nat (length resp)).
  { unfold hd. rewrite be_decode_encode, Z.mod_small by (pow2; lia). rewrite i32_u32; [done|]. unfold in_i32. lia. }
  set (w2 := set_conns (<[c := (Running, set_c_out resp cl')]>) w1).
  set (w3 := set_conns (<[c := (Running, set_c_out [] (set_c_out resp cl'))]>) w2).
  assert (Er : ∀ k w' cl0 b rest, w'.(ln_conns) !! c = Some (Running, cl0) → cl0.(c_out) = b ++ rest → length b = k →
    Read (N:=lnet) k (w', p) = Some (Ok b, (set_conns (<[c := (Running, set_c_out rest cl0)]>) w', p))).
  { intros k w' cl0 b rest Hw Hout0 Hk. unfold Read. callST ltac:(apply Hconn). unfold on_net. cbn [net_Read lookupd_network]. rewrite Hw.
    rewrite Hout0, length_app. rewrite (proj2 (Nat.leb_le _ _)) by lia. by rewrite take_app_length', drop_app_length' by done. }
  assert (Ebounded : readResponseBounded (N:=lnet) p.(maxBodySize) (w1, p) = Some (Ok resp, (w3, p))).
  { unfold readResponseBounded.
    callST ltac:(apply (Er 4%nat w1 cl' hd resp); [apply lookup_insert_eq|exact Hout|apply length_be_encode]).
    rewrite Hdec, (proj2 (Z.ltb_ge _ _)), (proj2 (Z.ltb_ge _ 0)) by lia. rewrite Nat2Z.id.
    apply (Er _ w2 (set_c_out resp cl') resp []); [apply lookup_insert_eq|by rewrite app_nil_r|done]. }
  callST ltac:(exact Ebounded). unfold w3, w2, w1, set_conns. cbn. by rewrite !insert_insert_eq.
Qed.

Lemma waits_again w c cl d : waits w c cl → waits (mkLnet d (<[c := (Running, set_c_out [] (set_c_out (cl.(c_out) ++ reply OK) (set_c_in [] cl)))]> w.(ln_conns)) w.(ln_next) w.(ln_up)) c cl.
Proof.
  intros (_ & Hin & Hout). split; [|done]. cbn. rewrite lookup_insert_eq. do 2 f_equal. destruct cl. cbn in *. by subst.
Qed.

(** One command about a topic or channel. *)
Lemma register_served w p c cl addr pi t ch : is_connected p → p.(conn) = Some c → waits w c cl → db_ok w.(ln_db) →
  identified w.(ln_db) cl addr pi → names t ch → 2 <= p.(maxBodySize) →
  (∃ w', exchange (N:=lnet) (nsq_Register t ch : Cmd) (w, p) = Some (Ok OK, (w', p)) ∧ waits w' c cl ∧ db_ok w'.(ln_db) ∧
    identified w'.(ln_db) cl addr pi ∧
    ∀ k i, registered w'.(ln_db) k i ↔ registered w.(ln_db) k i ∨
      i = addr ∧ (k = mkReg topic_category t [] ∨ ch ≠ [] ∧ k = mkReg channel_category t ch)) ∧
  (∃ w', exchange (N:=lnet) (nsq_UnRegister t ch : Cmd) (w, p) = Some (Ok OK, (w', p)) ∧ waits w' c cl ∧ db_ok w'.(ln_db) ∧
    identified w'.(ln_db) cl addr pi ∧
    ∀ k i, registered w'.(ln_db) k i ↔ registered w.(ln_db) k i ∧ ¬ (i = addr ∧ unregistered t ch k)).
Proof.
  intros Hp Hc Hw Hok Hid Hn Hmax. destruct (register_turn _ cl addr pi t ch Hok Hid Hn) as [(d1 & E1 & Hok1 & Hid1 & Hr1) (d2 & E2 & Hok2 & Hid2 & Hr2)].
  rewrite <- nc_Register in E1. rewrite <- nc_UnRegister in E2. destruct Hw as (Hcl & Hin & Hout).
  assert (Hreply : (cl.(c_out) ++ reply OK) = reply OK) by by rewrite Hout.
  split.
  - eexists. split; [eapply exchange_served; [done|done|by split_and!|exact E1|exact Hreply|by vm_compute|exact Hmax]|].
    split; [by apply waits_again|]. by split_and!.
  - eexists. split; [eapply exchange_served; [done|done|by split_and!|exact E2|exact Hreply|by vm_compute|exact Hmax]|].
    split; [by apply waits_again|]. by split_and!.
Qed.

Lemma send_all_served (C : option Cmd → ST (lnet * lookupPeer) (res string bytes)) p c cl addr pi pairs : ∀ w,
  (∀ cmd w, C (Some cmd) (w, p) = exchange cmd (w, p)) →
  is_connected p → p.(conn) = Some c → waits w c cl → db_ok w.(ln_db) → identified w.(ln_db) cl addr pi →
  Forall (λ '(t, ch), names t ch) pairs → 2 <= p.(maxBodySize) →
  ∃ w', send_all C ((λ '(t, ch), nsq_Register t ch) <$> pairs) (w, p) = Some ((), (w', p)) ∧ waits w' c cl ∧ db_ok w'.(ln_db) ∧
    identified w'.(ln_db) cl addr pi ∧
    ∀ k i, registered w'.(ln_db) k i ↔ registered w.(ln_db) k i ∨
      i = addr ∧ ∃ t ch, (t, ch) ∈ pairs ∧ (k = mkReg topic_category t [] ∨ ch ≠ [] ∧ k = mkReg channel_category t ch).
Proof.
  induction pairs as [|[t ch] pairs IH]; intros w HC Hp Hc Hw Hok Hid Hn Hmax; cbn [send_all fmap list_fmap].
  - exists w. split_and!; [done..|]. intros k i. split; [by left|]. intros [?|(_ & t & ch & Hin%elem_of_nil & _)]; done.
  - apply Forall_cons in Hn as [Hn Hns].
    destruct (register_served w p c cl addr pi t ch Hp Hc Hw Hok Hid Hn Hmax) as [(w1 & E1 & Hw1 & Hok1 & Hid1 & Hr1) _].
    destruct (IH w1 HC Hp Hc Hw1 Hok1 Hid1 Hns Hmax) as (w2 & E2 & Hw2 & Hok2 & Hid2 & Hr2).
    exists w2. split_and!; [|done..|].
    + callST ltac:(rewrite HC; exact E1). exact E2.
    + intros k i. rewrite Hr2, Hr1. setoid_rewrite elem_of_cons. split.
      * intros [[?|[-> Hk]]|[-> (t' & ch' & Hin & Hk)]]; [by left|right; split; [done|]..]; [by exists t, ch; auto|by exists t', ch'; auto].
      * intros [?|[-> (t' & ch' & [[= -> ->]|Hin] & Hk)]]; [by left; left|left; right; by split|right; split; [done|by exists t', ch']].
Qed.

(** ** What nsqd announces *)

Section nsqd.
Context {W D Q B MB : Type}.
Notation nsqd := (Nsqd.NSQD W D Q B MB).
Implicit Types (n : nsqd).


(** Topics and channels are filed under their names, which are valid. *)
Definition named n : Prop :=
  ∀ nm l, n.(Nsqd.topicMap) !! nm = Some l → ∃ t, n.(Nsqd.n_topics) !! l = Some t ∧ t.(Topic.t_name) = nm ∧ Names.IsValidTopicName nm = true ∧
    ∀ cn k, t.(Topic.t_channelMap) !! cn = Some k → ∃ c, n.(Nsqd.n_chans) !! k = Some c ∧ c.(Channel.topicName) = nm ∧
      c.(Channel.name) = cn ∧ Names.IsValidChannelName cn = true.

(** The keys nsqlookupd is meant to hold nsqd under. *)
Definition announced_key n k : Prop :=
  ∃ nm l t, n.(Nsqd.topicMap) !! nm = Some l ∧ n.(Nsqd.n_topics) !! l = Some t ∧
    (k = mkReg topic_category nm [] ∨ ∃ cn, is_Some (t.(Topic.t_channelMap) !! cn) ∧ k = mkReg channel_category nm cn).

Notation register := (λ '(t, ch), nsq_Register t ch : Cmd).

Definition keys_of (pairs : list (bytes * bytes)) k : Prop :=
  ∃ t ch, (t, ch) ∈ pairs ∧ (k = mkReg topic_category t [] ∨ ch ≠ [] ∧ k = mkReg channel_category t ch).

Lemma mapM_fmap {X Y : Type} (f : X → option Y) (g : X → Y) xs : (∀ x, x ∈ xs → f x = Some (g x)) → mapM f xs = Some (g <$> xs).
Proof.
  induction xs as [|x xs IH]; intros Hf; [done|]. cbn. rewrite (Hf x) by by left. cbn. rewrite IH; [done|].
  intros y Hy. apply Hf. by right.
Qed.

Lemma valid_not_empty nm : Names.isValidName nm = true → nm ≠ [].
Proof. intros Hv ->. by vm_compute in Hv. Qed.

Lemma topic_announcements n nm l : named n → n.(Nsqd.topicMap) !! nm = Some l →
  ∃ t pairs, n.(Nsqd.n_topics) !! l = Some t ∧ register_topic range n l = Some (register <$> pairs) ∧ Forall (λ '(t, ch), names t ch) pairs ∧
    ∀ k, keys_of pairs k ↔ (k = mkReg topic_category nm [] ∨ ∃ cn, is_Some (t.(Topic.t_channelMap) !! cn) ∧ k = mkReg channel_category nm cn).
Proof.
  intros Hn Hl. destruct (Hn nm l Hl) as (t & Ht & Hname & Hv & Hch). exists t.
  assert (Hr : register_topic (Cmd:=Cmd) range n l = if bool_decide (size t.(Topic.t_channelMap) = 0)%nat then Some [nsq_Register t.(Topic.t_name) []]
    else mapM (register_channel n) (range _ (map_to_list t.(Topic.t_channelMap)).*2)) by (unfold register_topic; by rewrite Ht).
  case_bool_decide as Hs.
  - exists [(nm, [])]. split_and!; [done|by rewrite Hr, Hname|by repeat constructor|].
    intros k. apply map_size_empty_iff in Hs. split.
    + intros (t' & ch & [= -> ->]%list_elem_of_singleton & [->|[? _]]); [by left|done].
    + intros [->|(cn & [x Hx] & _)]; [exists nm, []; split; [by left|by left]|]. by rewrite Hs, lookup_empty in Hx.
  - set (ks := range _ (map_to_list t.(Topic.t_channelMap)).*2) in *.
    set (g := λ k, match n.(Nsqd.n_chans) !! k with Some c => (c.(Channel.topicName), c.(Channel.name)) | None => ([], []) end).
    assert (Hks : ∀ k, k ∈ ks ↔ ∃ cn, t.(Topic.t_channelMap) !! cn = Some k).
    { intros k. unfold ks. rewrite range_perm. rewrite list_elem_of_fmap. split.
      - intros ([cn k'] & -> & Hk%elem_of_map_to_list). by exists cn.
      - intros [cn Hk]. exists (cn, k). split; [done|]. by apply elem_of_map_to_list. }
    assert (Hg : ∀ k cn, t.(Topic.t_channelMap) !! cn = Some k → g k = (nm, cn) ∧ Names.IsValidChannelName cn = true).
    { intros k cn Hk. destruct (Hch cn k Hk) as (c & Hc & Htn & Hcn & Hcv). unfold g. by rewrite Hc, Htn, Hcn. }
    exists (g <$> ks). split_and!; [done| | |].
    + rewrite Hr, <- list_fmap_compose. apply mapM_fmap. intros k [cn Hk]%Hks. destruct (Hch cn k Hk) as (c & Hc & _).
      unfold register_channel, g. rewrite Hc. cbn. by rewrite Hc.
    + apply Forall_fmap, Forall_forall. intros k [cn Hk]%Hks. cbn. destruct (Hg k cn Hk) as [-> Hcv]. by split.
    + intros k. split.
      * intros (t' & ch & (k' & Ek & [cn Hk]%Hks)%list_elem_of_fmap & Hkey). destruct (Hg k' cn Hk) as [Eg _]. rewrite Eg in Ek.
        injection Ek as -> ->. destruct Hkey as [->|[_ ->]]; [by left|right; exists cn; by split].
      * assert (Hin : ∀ cn k, t.(Topic.t_channelMap) !! cn = Some k → (nm, cn) ∈ g <$> ks).
        { intros cn k' Hk. apply list_elem_of_fmap. exists k'. split; [symmetry; by apply Hg|]. apply Hks. by exists cn. }
        intros [->|(cn & [k' Hk] & ->)].
        -- destruct (map_choose t.(Topic.t_channelMap)) as (cn & k' & Hk); [by intros E; rewrite E, map_size_empty in Hs|].
           exists nm, cn. split; [by eapply Hin|by left].
        -- exists nm, cn. split; [by eapply Hin|]. right. split; [|done]. by apply valid_not_empty, (Hg k' cn Hk).
Qed.

Lemma announcements_pairs n : named n →
  ∃ pairs, announcements range n = Some (register <$> pairs) ∧ Forall (λ '(t, ch), names t ch) pairs ∧ ∀ k, keys_of pairs k ↔ announced_key n k.
Proof.
  intros Hn. set (ls := range _ (map_to_list n.(Nsqd.topicMap)).*2).
  assert (Hls : ∀ l, l ∈ ls ↔ ∃ nm, n.(Nsqd.topicMap) !! nm = Some l).
  { intros l. unfold ls. rewrite range_perm. rewrite list_elem_of_fmap. split.
    - intros ([nm l'] & -> & Hl%elem_of_map_to_list). by exists nm.
    - intros [nm Hl]. exists (nm, l). split; [done|]. by apply elem_of_map_to_list. }
  enough (Hgen : ∀ ls', (∀ l, l ∈ ls' → ∃ nm, n.(Nsqd.topicMap) !! nm = Some l) →
    ∃ pairss, mapM (register_topic (Cmd:=Cmd) range n) ls' = Some ((fmap register) <$> pairss) ∧ Forall (λ '(t, ch), names t ch) (mjoin pairss) ∧
      ∀ k, keys_of (mjoin pairss) k ↔ ∃ nm l t, l ∈ ls' ∧ n.(Nsqd.topicMap) !! nm = Some l ∧ n.(Nsqd.n_topics) !! l = Some t ∧
        (k = mkReg topic_category nm [] ∨ ∃ cn, is_Some (t.(Topic.t_channelMap) !! cn) ∧ k = mkReg channel_category nm cn)).
  { destruct (Hgen ls) as (pairss & E & Hf & Hk); [by intros l ?%Hls|]. exists (mjoin pairss). split_and!; [|done|].
    - unfold announcements. fold ls. rewrite E. cbn. f_equal. clear. induction pairss as [|ps pairss IH]; [done|].
      change (mjoin (ps :: pairss)) with (ps ++ mjoin pairss). by rewrite fmap_app, <- IH.
    - intros k. rewrite Hk. unfold announced_key. split.
      + intros (nm & l & t & _ & ? & ? & ?). by exists nm, l, t.
      + intros (nm & l & t & Hl & ? & ?). exists nm, l, t. split_and!; [apply Hls; by exists nm|done..]. }
  induction ls' as [|l ls' IH]; intros Hin.
  - exists []. split_and!; [done|constructor|]. intros k. split; [by intros (? & ? & ?%elem_of_nil & _)|by intros (? & ? & ? & ?%elem_of_nil & _)].
  - destruct (Hin l) as [nm Hl]; [by left|]. destruct (topic_announcements n nm l Hn Hl) as (t & pairs & Ht & Er & Hf & Hk).
    destruct IH as (pairss & E & Hfs & Hks); [intros l' Hl'; apply Hin; by right|].
    exists (pairs :: pairss). split_and!.
    + cbn [mapM]. rewrite Er. cbn. rewrite E. done.
    + cbn. by apply Forall_app.
    + intros k. unfold keys_of in *. change (mjoin (pairs :: pairss)) with (pairs ++ mjoin pairss). setoid_rewrite elem_of_app.
      assert (Hname : ∀ nm', n.(Nsqd.topicMap) !! nm' = Some l → nm' = nm).
      { intros nm' Hl'. destruct (Hn nm l Hl) as (t1 & Ht1 & E1 & _), (Hn nm' l Hl') as (t2 & Ht2 & E2 & _). congruence. }
      split.
      * intros (t' & ch & [Hp|Hp] & Hkey).
        -- exists nm, l, t. split_and!; [by left|done|done|]. apply Hk. by exists t', ch.
        -- destruct (proj1 (Hks k)) as (nm' & l' & t'' & ? & ? & ? & ?); [by exists t', ch|]. exists nm', l', t''. split_and!; [by right|done..].
      * intros (nm' & l' & t'' & [->|Hl']%elem_of_cons & Hm & Ht'' & Hkey).
        -- rewrite (Hname nm' Hm) in Hkey. rewrite Ht in Ht''. injection Ht'' as <-. apply Hk in Hkey as (t' & ch & ? & ?). exists t', ch. auto.
        -- destruct (proj2 (Hks k)) as (t' & ch & ? & ?); [by exists nm', l', t''|]. exists t', ch. auto.
Qed.

(** nsqlookupd understands what nsqd says of itself, and answers something
    nsqd understands. *)
Record understood (unmarshal_info : bytes → peerInfo → peerInfo * option string) (ci : identity) (p : lookupPeer) (info : peerInfo) : Prop := {
  un_body : Z.of_nat (length (marshal_identity ci)) < 2 ^ 31;
  un_fields : ∃ ib, unmarshal (marshal_identity ci) = Some ib ∧ complete ib;
  un_response : let resp := default OK identify_response in
    resp ≠ E_INVALID ∧ Z.of_nat (length resp) < 2 ^ 31 ∧ Z.of_nat (length resp) <= p.(maxBodySize) ∧
    unmarshal_info resp p.(Info) = (info, None);
}.

Lemma connect_served unmarshal_info ci cs n w p info :
  named n → announcements range n = Some cs → db_ok w.(ln_db) → understood unmarshal_info ci p info → 2 <= p.(maxBodySize) →
  p.(state) = Client.stateDisconnected → w.(ln_up) = true → p.(addr) = server_addr →
  let me := local_addr w.(ln_next) in
  let p' := set_Info info (set_state Client.stateConnected (set_conn (Some w.(ln_next)) p)) in
  ∃ w' cl, peer_Command (N:=lnet) unmarshal_info ci cs None (w, p) = Some (Ok [], (w', p')) ∧ waits w' w.(ln_next) cl ∧ db_ok w'.(ln_db) ∧
    identified w'.(ln_db) cl me w.(ln_db).(next) ∧
    ∀ k i, registered w'.(ln_db) k i ↔ registered w.(ln_db) k i ∨ i = me ∧ (k = mkReg client_category [] [] ∨ announced_key n k).
Proof.
  intros Hn Hcs Hok [Hbody (ib & Hib & Hcomplete) (Hne & Hrl & Hrm & Hinfo)] Hmax Hs Hup Haddr me p'.
  set (c := w.(ln_next)). set (cl0 := mkClient [] [] me None : ClientV1 bytes).
  set (w1 := mkLnet w.(ln_db) (<[c := (Magic, cl0)]> w.(ln_conns)) (S c) true).
  set (w2 := mkLnet w.(ln_db) (<[c := (Running, cl0)]> w1.(ln_conns)) (S c) true).
  set (p1 := set_state Client.stateConnected (set_conn (Some c) p)).
  assert (Hp1 : is_connected p1) by (split; [done|by eexists]).
  destruct (nc_Identify ci) as (cmd & Ecmd & Ebytes).
  destruct (identify_turn w.(ln_db) cl0 (marshal_identity ci) ib Hok eq_refl eq_refl Hbody Hib Hcomplete) as (d3 & E3 & Hok3 & Hid3 & Hr3).
  cbv zeta in E3. rewrite <- Ebytes in E3.
  assert (Hw2 : waits w2 c cl0) by (split; [apply lookup_insert_eq|done]).
  set (cl3 := set_c_peerInfo (Some w.(ln_db).(next)) cl0).
  pose proof (exchange_served cmd w2 p1 c cl0 d3 (set_c_out ([] ++ reply (default OK identify_response)) cl3) (default OK identify_response) Hp1 eq_refl Hw2 E3 eq_refl Hrl Hrm) as E4.
  set (w4 := mkLnet d3 _ _ _) in E4. assert (Hw4 : waits w4 c cl3) by (split; [apply lookup_insert_eq|done]).
  destruct (announcements_pairs n Hn) as (pairs & Epairs & Hnames & Hkeys). rewrite Hcs in Epairs. injection Epairs as ->.
  set (C := Command (connectCallback unmarshal_info ci (register <$> pairs)) 1).
  assert (Hp' : is_connected p') by (split; [done|by eexists]).
  destruct (send_all_served C p' c cl3 me w.(ln_db).(next) pairs w4) as (w5 & E5 & Hw5 & Hok5 & Hid5 & Hr5);
    [intros; by apply Command_connected|done..|].
  exists w5, cl3. split_and!; [|done..|].
  2: { intros k i. rewrite Hr5. cbn [ln_db w4]. rewrite Hr3. unfold keys_of in Hkeys. rewrite <- Hkeys. cbn [RemoteAddr cl0]. fold me. tauto. }
  assert (Ecb : connectCallback unmarshal_info ci (register <$> pairs) C (w2, p1) = Some ((), (w5, p'))).
  { unfold connectCallback. rewrite Ecmd. callST ltac:(unfold C; rewrite Command_connected by done; exact E4).
    rewrite bool_decide_eq_false_2 by done. callST ltac:(reflexivity). cbn [snd].
    change (Info p1) with (Info p). rewrite Hinfo. callST ltac:(reflexivity). exact E5. }
  unfold peer_Command. change (Command (connectCallback unmarshal_info ci (register <$> pairs)) 2 None) with
    (err ← reach (connectCallback unmarshal_info ci (register <$> pairs)) C; match err with Some e => mret (Err e) | None => mret (Ok ([] : bytes)) end).
  enough (Er : reach (connectCallback unmarshal_info ci (register <$> pairs)) C (w, p) = Some (None, (w5, p'))) by by callST ltac:(exact Er).
  unfold reach. callST ltac:(reflexivity). cbn [snd]. rewrite Hs.
  change (Client.stateDisconnected =? Client.stateConnected) with false. change (Client.stateDisconnected =? Client.stateDisconnected) with true. cbv iota.
  assert (Ec : Connect (N:=lnet) (w, p) = Some (None, (w1, set_conn (Some c) p))).
  { assert (Ed : net_Dial (N:=lnet) p.(addr) w = (Ok c, w1)).
    { cbn [net_Dial lookupd_network]. by rewrite Hup, Haddr, bool_decide_eq_true_2. }
    unfold Connect. callST ltac:(reflexivity). cbn [snd]. callST ltac:(unfold on_net; rewrite Ed; reflexivity).
    callST ltac:(reflexivity). done. }
  callST ltac:(exact Ec). callST ltac:(reflexivity).
  assert (Ew : Write (N:=lnet) nsq_MagicV1 (w1, p1) = Some (None, (w2, p1))).
  { unfold Write, need_conn. callST ltac:(callST ltac:(reflexivity); reflexivity). unfold on_net. cbn [net_Write lookupd_network].
    cbn [ln_conns w1]. rewrite lookup_insert_eq. rewrite nc_Magic. done. }
  callST ltac:(exact Ew). callST ltac:(exact Ecb). callST ltac:(reflexivity). done.
Qed.

(** C5: A peer that connects to nsqlookupd introduces nsqd and announces it:
    afterwards the registration database holds this nsqd as a client and
    under exactly its topics and channels, and everybody else under what it
    held them before; and the connection waits for the next command. On it,
    the notification that a topic or channel came registers it, and that it
    went unregisters it - a topic with all of its channels - and nothing else
    changes. *)
Theorem announced unmarshal_info ci cs n w p info :
  named n → announcements range n = Some cs → db_ok w.(ln_db) → understood unmarshal_info ci p info → 2 <= p.(maxBodySize) →
  (p.(state) = Client.stateDisconnected → w.(ln_up) = true → p.(addr) = server_addr →
    let me := local_addr w.(ln_next) in
    ∃ w' p' cl, peer_Command (N:=lnet) unmarshal_info ci cs None (w, p) = Some (Ok [], (w', p')) ∧
      is_connected p' ∧ p'.(conn) = Some w.(ln_next) ∧ p'.(Info) = info ∧ waits w' w.(ln_next) cl ∧ db_ok w'.(ln_db) ∧
      identified w'.(ln_db) cl me w.(ln_db).(next) ∧
      ∀ k i, registered w'.(ln_db) k i ↔ registered w.(ln_db) k i ∨
        i = me ∧ (k = mkReg client_category [] [] ∨ announced_key n k)) ∧
  (∀ v c cl me pi, is_connected p → p.(conn) = Some c → waits w c cl → identified w.(ln_db) cl me pi →
    match v with NChannel t ch _ => names t ch ∧ ch ≠ [] | NTopic t _ => names t [] end →
    ∃ w', peer_Command (N:=lnet) unmarshal_info ci cs (Some (notification_cmd v)) (w, p) = Some (Ok OK, (w', p)) ∧
      waits w' c cl ∧ db_ok w'.(ln_db) ∧ identified w'.(ln_db) cl me pi ∧
      ∀ k i, registered w'.(ln_db) k i ↔
        match v with
        | NChannel t ch false => registered w.(ln_db) k i ∨ i = me ∧ (k = mkReg topic_category t [] ∨ k = mkReg channel_category t ch)
        | NTopic t false => registered w.(ln_db) k i ∨ i = me ∧ k = mkReg topic_category t []
        | NChannel t ch true => registered w.(ln_db) k i ∧ ¬ (i = me ∧ k = mkReg channel_category t ch)
        | NTopic t true => registered w.(ln_db) k i ∧
            ¬ (i = me ∧ (k = mkReg topic_category t [] ∨ k.(Category) = channel_category ∧ k.(Key) = t))
        end).
Proof.
  intros Hn Hcs Hok Hun Hmax. split.
  - intros Hs Hup Haddr me. destruct (connect_served unmarshal_info ci cs n w p info Hn Hcs Hok Hun Hmax Hs Hup Haddr) as
      (w' & cl & E & Hw & Hok' & Hid & Hr). eexists w', _, cl. split; [exact E|]. by split_and!.
  - intros v c cl me pi Hp Hc Hw Hid Hv. unfold peer_Command. rewrite Command_connected by done.
    destruct v as [t ch ex|t ex].
    + destruct Hv as [Hv Hne]. destruct (register_served w p c cl me pi t ch Hp Hc Hw Hok Hid Hv Hmax) as
        [(w1 & E1 & Hw1 & Hok1 & Hid1 & Hr1) (w2 & E2 & Hw2 & Hok2 & Hid2 & Hr2)].
      destruct ex; [exists w2|exists w1]; (split_and!; [done..|]); intros k i; [rewrite Hr2|rewrite Hr1].
      * unfold unregistered. by rewrite bool_decide_eq_false_2.
      * naive_solver.
    + destruct (register_served w p c cl me pi t [] Hp Hc Hw Hok Hid Hv Hmax) as
        [(w1 & E1 & Hw1 & Hok1 & Hid1 & Hr1) (w2 & E2 & Hw2 & Hok2 & Hid2 & Hr2)].
      destruct ex; [exists w2|exists w1]; (split_and!; [done..|]); intros k i; [rewrite Hr2|rewrite Hr1].
      * unfold unregistered. by rewrite bool_decide_eq_true_2.
      * naive_solver.
Qed.

End nsqd.

End lookupd.

End Announce.
