(* ===== verification/AnnounceDemo.v ===== *)
(** * Announcements at work

    The daemon of [DaemonDemo] connects to an nsqlookupd, which then holds
    its topic and its channel; and a loop over a network whose peers answer
    with empty responses. *)
From stdpp Require Import base gmap list strings.
From Stdlib Require Import ZArith Lia.
From S2P Require Import Prelude.
From S2P Require Import Text.
From S2P Require Import Wire.
From S2P Require Import RegistrationDB.
From S2P Require Import LookupProtocol.
From S2P Require Import LookupProtocolProps.
From S2P Require Import Backend.
From S2P Require Import ChannelDemo.
From S2P Require Import Topic.
From S2P Require Import Options.
From S2P Require Import Client.
From S2P Require Import ClientProps.
From S2P Require Import Nsqd.
From S2P Require Import DaemonProofs.
From S2P Require Import Protocol.
From S2P Require Import DaemonProps.
From S2P Require Import DaemonDemo.
From S2P Require Import NsqdHTTP.
From S2P Require Import LookupPeer.
From S2P Require Import LookupPeerProps.
From S2P Require Import Announce.
Set Default Goal Selector "!".
Local Open Scope Z_scope.

Module AnnounceDemo.
Import ListBackend ChannelDemo RegDB LookupProtocol LookupSpec Nsqd DaemonP DaemonSpec DaemonDemo LookupPeer LookupPeerSpec Announce.

Definition tx := bytes_of_string.

(** Commands as the bytes they are written as; a body that names the host. *)
Definition marshal_identity (ci : identity) : bytes := ci.(ci_hostname).
#[export] Instance byte_commands : Commands bytes identity := {|
  nsq_Identify ci := Some (tx "IDENTIFY" ++ Wire.newline :: be_encode 4 (Z.of_nat (length (marshal_identity ci))) ++ marshal_identity ci);
  nsq_Ping := tx "PING" ++ [Wire.newline];
  nsq_Register t c := tx "REGISTER" ++ Wire.space :: t ++ (if bool_decide (c = []) then [] else Wire.space :: c) ++ [Wire.newline];
  nsq_UnRegister t c := tx "UNREGISTER" ++ Wire.space :: t ++ (if bool_decide (c = []) then [] else Wire.space :: c) ++ [Wire.newline];
  nsq_bytes c := c;
  nsq_MagicV1 := tx "  V1";
|}.
#[export] Instance byte_commands_laws : CommandsLaws bytes identity marshal_identity.
Proof. split; [done..|]. intros j. by eexists. Qed.

(** ** A network that answers nothing *)

#[export] Instance zero_net : Network () := {|
  net_Dial _ w := (Ok 0%nat, w); net_Write _ _ w := (None, w); net_Read _ n w := (Ok (replicate n Byte.x00), w); net_Close _ w := w;
|}.

Lemma zero_net_sizes (c : nat) (w : ()) b w' : net_Read c 4 w = (Ok b, w') → 0 <= i32 (be_decode b).
Proof. intros [= <- _]. by vm_compute. Qed.

(** A network whose responses announce a negative size. *)
Definition negative_net : Network () := {|
  net_Dial _ w := (Ok 0%nat, w); net_Write _ _ w := (None, w); net_Read _ n w := (Ok (replicate n Byte.xff), w); net_Close _ w := w;
|}.

Definition no_info (_ : bytes) (i : peerInfo) : peerInfo * option string := (i, None).
Definition me : identity := mkIdentity (tx "1.1.1-alpha") 4150 4151 (tx "host") (tx "host").
Definition peer : lookupPeer := newLookupPeer (tx "lookupd:4160") 1000.
Definition connected_peer : lookupPeer := set_state Client.stateConnected (set_conn (Some 0%nat) peer).

Lemma peer_is_ok : peer_ok peer.
Proof. by right. Qed.

Lemma command_returns_witness :
  (∃ r w' p', (∀ fuel, Command (N:=()) (connectCallback no_info me [nsq_Register (tx "t") []]) (S (S fuel)) None ((), peer) = Some (r, (w', p'))) ∧
    peer_ok p') ∧
  Command (H:=negative_net) (connectCallback (H:=negative_net) no_info me []) 1 (Some (nsq_Ping : bytes)) ((), connected_peer) = None.
Proof.
  split.
  - destruct (command_returns (N:=()) no_info me [nsq_Register (tx "t") []] None () peer peer_is_ok) as [H _].
    destruct (H zero_net_sizes) as (r & w' & p' & E & _ & Hp). by exists r, w', p'.
  - destruct (command_returns (H:=negative_net) no_info me [] (Some (nsq_Ping : bytes)) () connected_peer) as [_ H].
    + left. split; [reflexivity|by eexists].
    + apply (H nsq_Ping 0%nat () (replicate 4 Byte.xff) () 0%nat); [reflexivity|split; [reflexivity|by eexists]|reflexivity..|by vm_compute].
Defined.

(** ** The loop *)

Definition two_lookupds : Opts.Options := NsqdHTTP.NsqdHTTP.set_NSQLookupdTCPAddresses [tx "a:4160"; tx "b:4160"; tx "a:4160"] opts.

Definition looped : lookup () := start_lookup ().
Notation demo_turn := (lookupLoop_turn no_info range (tx "host") (tx "1.1.1-alpha") 4150 4151).

Lemma lookupds_client_ok addrs o (c : Client.clientV2 sock) P : ClientSpec.client_ok o (λ _, true) P c →
  ClientSpec.client_ok (NsqdHTTP.NsqdHTTP.set_NSQLookupdTCPAddresses addrs o) (λ _, true) P c.
Proof. destruct o. intros [[] ? ? ? ?]. split; [split; assumption|assumption..]. Qed.

Lemma two_lookupds_ok : daemon_ok two_lookupds (λ _, true) publishing.(nd).
Proof.
  destruct (nk_daemon _ _ _ publishing_ok) as [? ? ? ? Hc ?]. split; [done..| |done].
  intros id c Hid. exact (lookupds_client_ok _ _ c _ (Hc id c Hid)).
Qed.


(** ** nsqd and nsqlookupd *)

Definition the_body : identify_body := mkIdentify (tx "host") (tx "host") 4150 4151 (tx "1.1.1-alpha").
Definition unmarshal_body (b : bytes) : option identify_body := if bool_decide (b = tx "host") then Some the_body else None.
Definition the_info : peerInfo := mkPeerInfo 4160 4161 (tx "1.1.1-alpha") (tx "lookupd").
Definition learn (_ : bytes) (_ : peerInfo) : peerInfo * option string := (the_info, None).
Definition conn_addr (c : nat) : bytes := tx "10.0.0.1:5000".
Definition quiet : lnet := mkLnet NewRegistrationDB ∅ 0 true.
Notation lookupd := (lookupd_network range unmarshal_body (Some (tx "{}")) (tx "lookupd:4160") conn_addr now0).

Lemma publishing_named : named publishing.(nd).
Proof.
  intros nm l Hl. assert (Hs : dom (topicMap publishing.(nd)) ⊆ {[tx "t"]}) by (apply (bool_decide_unpack _); by vm_compute).
  pose proof (Hs nm (elem_of_dom_2 _ _ _ Hl)) as Hn. apply elem_of_singleton in Hn as ->.
  assert (Some l = Some 0%nat) as [= ->] by (rewrite <- Hl; by vm_compute).
  exists (topic_of publishing). split; [by vm_compute|]. split; [by vm_compute|]. split; [by vm_compute|]. intros cn k Hk.
  assert (Hs' : dom (Topic.Topic.t_channelMap (topic_of publishing)) ⊆ {[tx "c"]}) by (apply (bool_decide_unpack _); by vm_compute).
  pose proof (Hs' cn (elem_of_dom_2 _ _ _ Hk)) as Hn. apply elem_of_singleton in Hn as ->.
  assert (Some k = Some 1%nat) as [= ->] by (rewrite <- Hk; by vm_compute).
  exists (chan_of publishing). by split_and!; vm_compute.
Qed.

Lemma new_db_ok : db_ok NewRegistrationDB.
Proof.
  split.
  - intros k ps i p Hk. unfold NewRegistrationDB in Hk. cbn [registrationMap] in Hk. by rewrite lookup_empty in Hk.
  - intros p x Hp. unfold NewRegistrationDB in Hp. cbn [producers] in Hp. by rewrite lookup_empty in Hp.
  - intros p _. split; apply lookup_empty.
Qed.

Lemma demo_understood : understood unmarshal_body (Some (tx "{}")) marshal_identity learn me peer the_info.
Proof.
  split.
  - by vm_compute.
  - exists the_body. split; [reflexivity|]. unfold complete. by repeat apply conj.
  - cbv zeta. cbn [default]. repeat apply conj; [by vm_compute..|reflexivity].
Qed.

Lemma announced_witness :
  ∃ cs w' p', announcements (Cmd:=bytes) range publishing.(nd) = Some cs ∧
    peer_Command (H:=lookupd) learn me cs None (quiet, peer) = Some (Ok [], (w', p')) ∧ is_connected p' ∧
    registered w'.(ln_db) (mkReg channel_category (tx "t") (tx "c")) (conn_addr 0) ∧
    ¬ registered w'.(ln_db) (mkReg topic_category (tx "u") []) (conn_addr 0).
Proof.
  assert (Hcs : announcements (Cmd:=bytes) range publishing.(nd) = Some [nsq_Register (tx "t") (tx "c")]) by by vm_compute.
  destruct (announced range unmarshal_body (Some (tx "{}")) (tx "lookupd:4160") conn_addr now0 (λ _ _, reflexivity _) marshal_identity
    learn me _ publishing.(nd) quiet peer the_info publishing_named Hcs) as [H _].
  - exact new_db_ok.
  - exact demo_understood.
  - by vm_compute.
  - destruct (H eq_refl eq_refl eq_refl) as (w' & p' & cl & E & Hp & _ & _ & _ & _ & _ & Hr).
    eexists _, w', p'. split; [exact Hcs|]. split; [exact E|]. split; [exact Hp|]. split.
    + apply Hr. right. split; [done|]. right. exists (tx "t"), 0%nat, (topic_of publishing).
      split; [by vm_compute|]. split; [by vm_compute|]. right. exists (tx "c"). split; [exists 1%nat; by vm_compute|reflexivity].
    + intros Hu%Hr. destruct Hu as [(ps & p & Hu & _)|(_ & [Hu|(nm & l & t & Hm & _ & [Hu|(cn & _ & Hu)])])].
      * exact (lookup_empty_Some _ _ Hu).
      * by apply (f_equal Key) in Hu.
      * apply (f_equal Key) in Hu. cbn [Key] in Hu. subst nm. by vm_compute in Hm.
      * by apply (f_equal Category) in Hu.
Defined.

End AnnounceDemo.
