(* ===== verification/ClusterTypes.v ===== *)
(** * What nsqadmin knows of a cluster (internal/clusterinfo/types.go)

    Producers, and the statistics of topics and channels, which are added up
    over the nodes. Statistics are shared by pointers: a topic points to its
    channels, an aggregate to the statistics it was made of; so they live in
    a heap. [None] is a panic. A list of a response never holds [null]. *)
From stdpp Require Import base gmap list strings.
From Stdlib Require Import ZArith Lia.
From S2P Require Import Prelude.
From S2P Require Import Net.
From S2P Require Import Decimal.
From S2P Require Import Order.
From S2P Require Import Aggregate.
Set Default Goal Selector "!".
Local Open Scope Z_scope.

(** Versions of github.com/blang/semver; [semver_LT] orders them. *)
Class Semver (V : Type) := {
  semver_Parse : bytes → option V;
  semver_zero : V;  (* of the type *)
  semver_LT : V → V → bool;
}.

Module Cluster.
Import Order.

Definition tx := bytes_of_string.

(** ** Producers *)

Record ProducerTopic := mkProducerTopic { pt_Topic : bytes; pt_Tombstoned : bool }.

Record Producer (V : Type) := mkProducer {
  RemoteAddresses : list bytes;
  RemoteAddress : bytes;
  Hostname : bytes;
  BroadcastAddress : bytes;
  TCPPort : Z;
  HTTPPort : Z;
  Version : bytes;
  VersionObj : V;
  Topics : list ProducerTopic;
  OutOfDate : bool;
}.
Arguments mkProducer {V} _ _ _ _ _ _ _ _ _ _.
Arguments RemoteAddresses {V} _.
Arguments RemoteAddress {V} _.
Arguments Hostname {V} _.
Arguments BroadcastAddress {V} _.
Arguments TCPPort {V} _.
Arguments HTTPPort {V} _.
Arguments Version {V} _.
Arguments VersionObj {V} _.
Arguments Topics {V} _.
Arguments OutOfDate {V} _.

(** The struct [UnmarshalJSON] decodes into. *)
Record raw_producer := mkRawProducer {
  rp_RemoteAddress : bytes;
  rp_Hostname : bytes;
  rp_BroadcastAddress : bytes;
  rp_TCPPort : Z;
  rp_HTTPPort : Z;
  rp_Version : bytes;
  rp_Topics : list bytes;
  rp_Tombstoned : list bool;
}.

Section producers.
Context {V : Type} `{Semver V}.
Implicit Types (p : Producer V).

Definition set_RemoteAddresses (x : list bytes) p :=
  mkProducer x p.(RemoteAddress) p.(Hostname) p.(BroadcastAddress) p.(TCPPort) p.(HTTPPort) p.(Version) p.(VersionObj) p.(Topics) p.(OutOfDate).
Definition set_Topics (x : list ProducerTopic) p :=
  mkProducer p.(RemoteAddresses) p.(RemoteAddress) p.(Hostname) p.(BroadcastAddress) p.(TCPPort) p.(HTTPPort) p.(Version) p.(VersionObj) x p.(OutOfDate).
Definition set_OutOfDate (x : bool) p :=
  mkProducer p.(RemoteAddresses) p.(RemoteAddress) p.(Hostname) p.(BroadcastAddress) p.(TCPPort) p.(HTTPPort) p.(Version) p.(VersionObj) p.(Topics) x.

(** The version, or 0.0.0 if it cannot be read. *)
Definition version_of (v : bytes) : V := default (default semver_zero (semver_Parse (tx "0.0.0"))) (semver_Parse v).

(** [r.Tombstoned[i]] of each topic. *)
Definition producer_topics (r : raw_producer) : option (list ProducerTopic) :=
  mapM (λ '(i, t), b ← r.(rp_Tombstoned) !! i; Some (mkProducerTopic t b)) (imap pair r.(rp_Topics)).

Definition UnmarshalJSON (r : raw_producer) : option (Producer V) :=
  topics ← producer_topics r;
  Some (mkProducer [] r.(rp_RemoteAddress) r.(rp_Hostname) r.(rp_BroadcastAddress) r.(rp_TCPPort) r.(rp_HTTPPort) r.(rp_Version)
    (version_of r.(rp_Version)) topics false).

Definition Address p : bytes := if bool_decide (p.(RemoteAddress) = []) then tx "N/A" else p.(RemoteAddress).
Definition HTTPAddress p : bytes := Net.JoinHostPort p.(BroadcastAddress) (Decimal.fmt_d p.(HTTPPort)).
Definition TCPAddress p : bytes := Net.JoinHostPort p.(BroadcastAddress) (Decimal.fmt_d p.(TCPPort)).
Definition IsInconsistent p (numLookupd : Z) : bool := negb (Z.of_nat (length p.(RemoteAddresses)) =? numLookupd).

Definition HTTPAddrs (t : list (Producer V)) : list bytes := HTTPAddress <$> t.
Definition Search (t : list (Producer V)) (needle : bytes) : option (Producer V) :=
  snd <$> list_find (λ p, needle = HTTPAddress p) t.

Definition ProducerTopics_Less (p q : ProducerTopic) : bool := bytes_ltb p.(pt_Topic) q.(pt_Topic).
Definition ProducersByHost_Less (p q : Producer V) : bool := bytes_ltb p.(Hostname) q.(Hostname).

End producers.

(** ** Statistics *)

Record ClientStats := mkClientStats {
  cl_Node : bytes;
  cl_RemoteAddress : bytes;
  cl_Version : bytes;
  cl_ClientID : bytes;
  cl_Hostname : bytes;
  cl_UserAgent : bytes;
  cl_ConnectTs : Z;
  cl_ConnectedDuration : duration;
  cl_InFlightCount : Z;
  cl_ReadyCount : Z;
  cl_FinishCount : Z;
  cl_RequeueCount : Z;
  cl_MessageCount : Z;
  cl_SampleRate : Z;
  cl_Deflate : bool;
  cl_Snappy : bool;
  cl_Authed : bool;
  cl_AuthIdentity : bytes;
  cl_AuthIdentityURL : bytes;
  cl_TLS : bool;
  cl_CipherSuite : bytes;
  cl_TLSVersion : bytes;
  cl_TLSNegotiatedProtocol : bytes;
  cl_TLSNegotiatedProtocolIsMutual : bool;
}.

Definition set_cl_Node (x : bytes) (c : ClientStats) : ClientStats :=
  let 'mkClientStats _ a1 a2 a3 a4 a5 a6 a7 a8 a9 a10 a11 a12 a13 a14 a15 a16 a17 a18 a19 a20 a21 a22 a23 := c in
  mkClientStats x a1 a2 a3 a4 a5 a6 a7 a8 a9 a10 a11 a12 a13 a14 a15 a16 a17 a18 a19 a20 a21 a22 a23.
Definition set_cl_ConnectedDuration (x : duration) (c : ClientStats) : ClientStats :=
  let 'mkClientStats a0 a1 a2 a3 a4 a5 a6 _ a8 a9 a10 a11 a12 a13 a14 a15 a16 a17 a18 a19 a20 a21 a22 a23 := c in
  mkClientStats a0 a1 a2 a3 a4 a5 a6 x a8 a9 a10 a11 a12 a13 a14 a15 a16 a17 a18 a19 a20 a21 a22 a23.

(** [ClientStats.UnmarshalJSON] of the decoded fields, at [now]. *)
Definition ClientStats_UnmarshalJSON (now : time) (ss : ClientStats) : ClientStats :=
  set_cl_ConnectedDuration (time_sub (now / Second * Second) (ss.(cl_ConnectTs) * Second)) ss.

Definition HasUserAgent (c : ClientStats) : bool := negb (bool_decide (c.(cl_UserAgent) = [])).
Definition HasSampleRate (c : ClientStats) : bool := 0 <? c.(cl_SampleRate).

Record ChannelStats := mkChannelStats {
  chs_Node : bytes;
  chs_Hostname : bytes;
  chs_TopicName : bytes;
  chs_ChannelName : bytes;
  chs_Depth : Z;
  chs_MemoryDepth : Z;
  chs_BackendDepth : Z;
  chs_InFlightCount : Z;
  chs_DeferredCount : Z;
  chs_RequeueCount : Z;
  chs_TimeoutCount : Z;
  chs_MessageCount : Z;
  chs_ClientCount : Z;
  chs_Selected : bool;
  chs_NodeStats : list nat;
  chs_Clients : list ClientStats;
  chs_Paused : bool;
  chs_E2e : option Aggregate.E2eProcessingLatencyAggregate;
}.

Record TopicStats := mkTopicStats {
  ts_Node : bytes;
  ts_Hostname : bytes;
  ts_TopicName : bytes;
  ts_Depth : Z;
  ts_MemoryDepth : Z;
  ts_BackendDepth : Z;
  ts_MessageCount : Z;
  ts_NodeStats : list nat;
  ts_Channels : list nat;
  ts_Paused : bool;
  ts_E2e : option Aggregate.E2eProcessingLatencyAggregate;
}.

(** Pointers of the two types name different objects. *)
Record heap := mkHeap {
  h_topics : gmap nat TopicStats;
  h_channels : gmap nat ChannelStats;
  h_next : nat;
}.

Definition empty_heap : heap := mkHeap ∅ ∅ 0.

Notation HM := (ST heap).

Definition new_topic (t : TopicStats) : HM nat := λ h, Some (h.(h_next), mkHeap (<[h.(h_next) := t]> h.(h_topics)) h.(h_channels) (S h.(h_next))).
Definition new_channel (c : ChannelStats) : HM nat := λ h, Some (h.(h_next), mkHeap h.(h_topics) (<[h.(h_next) := c]> h.(h_channels)) (S h.(h_next))).
Definition get_topic (l : nat) : HM TopicStats := λ h, t ← h.(h_topics) !! l; Some (t, h).
Definition get_channel (l : nat) : HM ChannelStats := λ h, c ← h.(h_channels) !! l; Some (c, h).
Definition put_topic (l : nat) (t : TopicStats) : HM () := λ h, Some ((), mkHeap (<[l := t]> h.(h_topics)) h.(h_channels) h.(h_next)).
Definition put_channel (l : nat) (c : ChannelStats) : HM () := λ h, Some ((), mkHeap h.(h_topics) (<[l := c]> h.(h_channels)) h.(h_next)).

Section add.
Context `{GoSort}.

(** [sort.Sort] of pointers by the host they point to. *)
Definition sort_by_host (hosts : list (bytes * nat)) : list nat := (go_sort (λ x y, bytes_ltb x.1 y.1) hosts).*2.

Definition empty_aggregate (addr topic channel : bytes) : Aggregate.E2eProcessingLatencyAggregate := Aggregate.mkAggregate 0 [] topic channel addr.

(** Pointers with the hosts they point to. *)
Definition channel_hosts (ls : list nat) : HM (list (bytes * nat)) := λ h,
  hs ← mapM (λ l, x ← h.(h_channels) !! l; Some (x.(chs_Hostname), l)) ls; Some (hs, h).
Definition topic_hosts (ls : list nat) : HM (list (bytes * nat)) := λ h,
  hs ← mapM (λ l, x ← h.(h_topics) !! l; Some (x.(ts_Hostname), l)) ls; Some (hs, h).

(** [c.Add(a)]: [c] and [a] are different objects. *)
Definition ChannelStats_Add (c a : nat) : HM () :=
  cs ← get_channel c;
  a_ ← get_channel a;
  hosts ← channel_hosts (cs.(chs_NodeStats) ++ [a]);
  e2e ← liftST (Aggregate.Add a_.(chs_E2e) (default (empty_aggregate (tx "*") cs.(chs_TopicName) cs.(chs_ChannelName)) cs.(chs_E2e)));
  put_channel c (mkChannelStats (tx "*") cs.(chs_Hostname) cs.(chs_TopicName) cs.(chs_ChannelName)
    (i64 (cs.(chs_Depth) + a_.(chs_Depth))) (i64 (cs.(chs_MemoryDepth) + a_.(chs_MemoryDepth)))
    (i64 (cs.(chs_BackendDepth) + a_.(chs_BackendDepth))) (i64 (cs.(chs_InFlightCount) + a_.(chs_InFlightCount)))
    (i64 (cs.(chs_DeferredCount) + a_.(chs_DeferredCount))) (i64 (cs.(chs_RequeueCount) + a_.(chs_RequeueCount)))
    (i64 (cs.(chs_TimeoutCount) + a_.(chs_TimeoutCount))) (i64 (cs.(chs_MessageCount) + a_.(chs_MessageCount)))
    (i64 (cs.(chs_ClientCount) + a_.(chs_ClientCount))) cs.(chs_Selected) (sort_by_host hosts)
    (go_sort (λ x y, bytes_ltb x.(cl_Hostname) y.(cl_Hostname)) (cs.(chs_Clients) ++ a_.(chs_Clients)))
    (if a_.(chs_Paused) then true else cs.(chs_Paused)) (Some e2e)).

(** The inner loop of [TopicStats.Add] for one channel [a]: whether there was
    a channel of its name; all that have it get it added. *)
Fixpoint add_to_named (name : bytes) (a : nat) (cs : list nat) : HM bool :=
  match cs with
  | [] => mret false
  | c :: cs =>
    x ← get_channel c;
    found ← (if bool_decide (name = x.(chs_ChannelName)) then _ ← ChannelStats_Add c a; mret true else mret false);
    more ← add_to_named name a cs;
    mret (found || more)
  end.

(** The outer loop: the channels of [t] afterwards. *)
Fixpoint add_channels (as_ cs : list nat) : HM (list nat) :=
  match as_ with
  | [] => mret cs
  | a :: as_ =>
    x ← get_channel a;
    found ← add_to_named x.(chs_ChannelName) a cs;
    add_channels as_ (if found : bool then cs else cs ++ [a])
  end.

(** [t.Add(a)] *)
Definition TopicStats_Add (t a : nat) : HM () :=
  ts ← get_topic t;
  a_ ← get_topic a;
  channels ← add_channels a_.(ts_Channels) ts.(ts_Channels);
  hosts ← topic_hosts (ts.(ts_NodeStats) ++ [a]);
  e2e ← liftST (Aggregate.Add a_.(ts_E2e) (default (empty_aggregate (tx "*") ts.(ts_TopicName) []) ts.(ts_E2e)));
  put_topic t (mkTopicStats (tx "*") ts.(ts_Hostname) ts.(ts_TopicName)
    (i64 (ts.(ts_Depth) + a_.(ts_Depth))) (i64 (ts.(ts_MemoryDepth) + a_.(ts_MemoryDepth)))
    (i64 (ts.(ts_BackendDepth) + a_.(ts_BackendDepth))) (i64 (ts.(ts_MessageCount) + a_.(ts_MessageCount)))
    (sort_by_host hosts) channels (if a_.(ts_Paused) then true else ts.(ts_Paused)) (Some e2e)).

End add.
End Cluster.
