(* ===== verification/ClusterInfo.v ===== *)
(** * Asking a cluster (internal/clusterinfo/data.go)

    nsqadmin asks all nsqlookupd or all nsqd at once, one goroutine for each,
    and merges what they answer under a lock; [sched] is the order in which
    the goroutines get it. An error of some is reported beside the result, an
    error of all in its place. Changes are posted to one after the other.
    [None] is a panic. *)
From stdpp Require Import base gmap list strings.
From Stdlib Require Import ZArith Lia.
From S2P Require Import Prelude.
From S2P Require Import Text.
From S2P Require Import Net.
From S2P Require Import Decimal.
From S2P Require Import Wire.
From S2P Require Import HttpApi.
From S2P Require Import HttpClient.
From S2P Require Import Order.
From S2P Require Import Aggregate.
From S2P Require Import ClusterTypes.
Set Default Goal Selector "!".
Local Open Scope Z_scope.

(** [infoRespType] *)
Record info_resp := mkInfo {
  i_Version : bytes;
  i_BroadcastAddress : bytes;
  i_Hostname : bytes;
  i_HTTPPort : Z;
  i_TCPPort : Z;
}.

(** The statistics of a channel and of a topic as they are decoded: the
    pointers are empty, and what has a decoder of its own is beside. *)
Record raw_channel := mkRawChannel {
  rc_stats : Cluster.ChannelStats;
  rc_e2e : option Aggregate.raw_aggregate;
  rc_clients : list Cluster.ClientStats;
}.
Record raw_topic := mkRawTopic {
  rt_stats : Cluster.TopicStats;
  rt_e2e : option Aggregate.raw_aggregate;
  rt_channels : list raw_channel;
}.

(** Decoding the fields of responses. *)
Class ClusterJSON := {
  cj_topics : bytes → res string (list bytes);
  cj_channels : bytes → res string (list bytes);
  cj_producers : bytes → res string (list Cluster.raw_producer);
  cj_topic_names : bytes → res string (list bytes);
  cj_info : bytes → res string info_resp;
  cj_stats : bytes → res string (list raw_topic);
  cj_version : bytes → res string bytes;
  cj_https_port : bytes → res string Z;
}.

Module ClusterInfo.
Import HttpClient Order Cluster.
Notation QueryEscape := HttpApi.QueryEscape.

(** ** Errors *)

(** An [ErrList], which is a [PartialErr], or another error. *)
Inductive ci_err := ErrList (errs : list string) | Failed (msg : string).

Fixpoint join_strings (sep : string) (l : list string) : string :=
  match l with
  | [] => ""
  | [e] => e
  | e :: l => e +:+ sep +:+ join_strings sep l
  end.
Definition ErrList_Error (l : list string) : string := join_strings (String (Ascii.ascii_of_nat 10) EmptyString) l.
Definition Error (e : ci_err) : string := match e with ErrList l => ErrList_Error l | Failed m => m end.

(** [if len(errs) > 0 { return ErrList(errs) }] *)
Definition err_list (errs : list string) : option ci_err := match errs with [] => None | _ => Some (ErrList errs) end.

(** The end of a query of [n] nodes. *)
Definition conclude {A} (what : string) (n : nat) (errs : list string) (nil value : A) : A * option ci_err :=
  if bool_decide (length errs = n) then (nil, Some (Failed ("Failed to query any " +:+ what +:+ ": " +:+ ErrList_Error errs)))
  else (value, err_list errs).

Section cluster.
Context {W V : Type} `{Web W, Semver V, ClusterJSON, GoSort}.
Context (sched : ∀ A : Type, list A → list A).
Context (url_Parse : bytes → res string URL) (Quote : bytes → string).

Notation get := (GETV1 url_Parse cj_https_port Quote).
Notation post := (POSTV1 url_Parse cj_https_port Quote).
Notation producer := (Producer V).

Definition no_panic {T} (f : bytes → res string T) (b : bytes) : option (res string T) := Some (f b).

(** One goroutine for each item, then their critical sections. *)
Definition fan_out {A T} (f : nat → A → option (res string T)) (items : list A) : option (list (A * res string T)) :=
  rs ← mapM (λ '(i, a), r ← f i a; Some (a, r)) (imap pair items);
  Some (sched _ rs).
Definition errors {A T} (rs : list (A * res string T)) : list string :=
  omap (λ r, match r.2 with Err e => Some e | Ok _ => None end) rs.
Definition answers {A T} (rs : list (A * res string T)) : list (A * T) :=
  omap (λ r, match r.2 with Err _ => None | Ok t => Some (r.1, t) end) rs.

Definition endpoint (addr : bytes) (path : string) : bytes := tx "http://" ++ addr ++ tx path.

Definition GetVersion (addr : bytes) (w : W) : option (res string V) :=
  r ← get (no_panic cj_version) 0 (endpoint addr "/info") w;
  Some (version ← r;
        match semver_Parse (if bool_decide (version = []) then tx "unknown" else version) with
        | Some v => Ok v
        | None => Err "invalid version"%string
        end).

(** ** nsqlookupd *)

Definition GetLookupdTopics (addrs : list bytes) (w : W) : option (list bytes * option ci_err) :=
  rs ← fan_out (λ i addr, get (no_panic cj_topics) i (endpoint addr "/topics") w) addrs;
  Some (conclude "nsqlookupd" (length addrs) (errors rs) []
    (go_sort bytes_ltb (Stringy.Uniq (mjoin (snd <$> answers rs))))).

Definition GetLookupdTopicChannels (topic : bytes) (addrs : list bytes) (w : W) : option (list bytes * option ci_err) :=
  rs ← fan_out (λ i addr, get (no_panic cj_channels) i (endpoint addr "/channels?topic=" ++ QueryEscape topic) w) addrs;
  Some (conclude "nsqlookupd" (length addrs) (errors rs) []
    (go_sort bytes_ltb (Stringy.Uniq (mjoin (snd <$> answers rs))))).

Definition unmarshal_producers (b : bytes) : option (res string (list producer)) :=
  match cj_producers b with
  | Err e => Some (Err e)
  | Ok rs => ps ← mapM UnmarshalJSON rs; Some (Ok ps)
  end.

(** [producers], [producersByAddr] and [maxVersion]; a pointer is a position
    in [producers]. *)
Record node_set := mkNodes { ns_producers : list producer; ns_byAddr : gmap (list Byte.byte) nat; ns_max : V }.

Definition report (addr : bytes) (q : producer) (p : producer) : producer :=
  set_RemoteAddresses (p.(RemoteAddresses) ++ [addr ++ tx "/" ++ Address q]) p.

Definition merge_producer (addr : bytes) (s : node_set) (q : producer) : node_set :=
  let key := TCPAddress q in
  match s.(ns_byAddr) !! key with
  | None =>
    mkNodes (s.(ns_producers) ++ [report addr q (set_Topics (go_sort ProducerTopics_Less q.(Topics)) q)])
      (<[key := length s.(ns_producers)]> s.(ns_byAddr))
      (if semver_LT s.(ns_max) q.(VersionObj) then q.(VersionObj) else s.(ns_max))
  | Some i => mkNodes (alter (report addr q) i s.(ns_producers)) s.(ns_byAddr) s.(ns_max)
  end.

Definition merge_producers (s : node_set) (answer : bytes * list producer) : node_set := foldl (merge_producer answer.1) s answer.2.

Definition no_nodes : node_set := mkNodes [] ∅ (version_of (tx "0.0.0")).

Definition mark_out_of_date (max : V) (p : producer) : producer := if semver_LT p.(VersionObj) max then set_OutOfDate true p else p.

Definition GetLookupdProducers (addrs : list bytes) (w : W) : option (list producer * option ci_err) :=
  rs ← fan_out (λ i addr, get unmarshal_producers i (endpoint addr "/nodes") w) addrs;
  let s := foldl merge_producers no_nodes (answers rs) in
  Some (conclude "nsqlookupd" (length addrs) (errors rs) []
    (go_sort ProducersByHost_Less (mark_out_of_date s.(ns_max) <$> s.(ns_producers)))).

(** A producer whose address is already there is skipped. *)
Definition add_producer (ps : list producer) (p : producer) : list producer :=
  if existsb (λ pp, bool_decide (HTTPAddress p = HTTPAddress pp)) ps then ps else ps ++ [p].

Definition GetLookupdTopicProducers (topic : bytes) (addrs : list bytes) (w : W) : option (list producer * option ci_err) :=
  rs ← fan_out (λ i addr, get unmarshal_producers i (endpoint addr "/lookup?topic=" ++ QueryEscape topic) w) addrs;
  Some (conclude "nsqlookupd" (length addrs) (errors rs) []
    (foldl (λ ps answer, foldl add_producer ps answer.2) [] (answers rs))).

(** ** nsqd *)

Definition GetNSQDTopics (addrs : list bytes) (w : W) : option (list bytes * option ci_err) :=
  rs ← fan_out (λ i addr, get (no_panic cj_topic_names) i (endpoint addr "/stats?format=json") w) addrs;
  Some (conclude "nsqd" (length addrs) (errors rs) []
    (go_sort bytes_ltb (foldl (λ topics answer, foldl Stringy.Add topics answer.2) [] (answers rs)))).

Definition nsqd_producer (info : info_resp) (topics : list bytes) : producer :=
  mkProducer [] [] info.(i_Hostname) info.(i_BroadcastAddress) info.(i_TCPPort) info.(i_HTTPPort) info.(i_Version)
    (version_of info.(i_Version)) ((λ t, mkProducerTopic t false) <$> topics) false.

(** The goroutine of one nsqd: two requests. *)
Definition query_nsqd (w : W) (i : nat) (addr : bytes) : option (res string producer) :=
  info ← get (no_panic cj_info) i (endpoint addr "/info") w;
  match info with
  | Err e => Some (Err e)
  | Ok info =>
    stats ← get (no_panic cj_topic_names) i (endpoint addr "/stats?format=json&include_clients=false") w;
    Some (match stats with
          | Err e => Err e
          | Ok topics => Ok (nsqd_producer info topics)
          end)
  end.

Definition GetNSQDProducers (addrs : list bytes) (w : W) : option (list producer * option ci_err) :=
  rs ← fan_out (query_nsqd w) addrs;
  Some (conclude "nsqd" (length addrs) (errors rs) [] (snd <$> answers rs)).

(** The fields that are missing are taken from the address. *)
Definition split_host (addr : bytes) : bytes * bytes := match Net.SplitHostPort addr with Ok hp => hp | Err _ => ([], []) end.
Definition complete_info (addr : bytes) (info : info_resp) : info_resp :=
  let info := if bool_decide (info.(i_BroadcastAddress) = [])
              then mkInfo info.(i_Version) (split_host addr).1 info.(i_Hostname) (Decimal.Atoi (split_host addr).2).1 info.(i_TCPPort)
              else info in
  if bool_decide (info.(i_Hostname) = [])
  then mkInfo info.(i_Version) info.(i_BroadcastAddress) (split_host addr).1 info.(i_HTTPPort) info.(i_TCPPort)
  else info.

(** [None] inside: this nsqd does not produce the topic. *)
Definition query_topic (topic : bytes) (w : W) (i : nat) (addr : bytes) : option (res string (option producer)) :=
  stats ← get (no_panic cj_topic_names) i
    (endpoint addr "/stats?format=json&topic=" ++ QueryEscape topic ++ tx "&include_clients=false") w;
  match stats with
  | Err e => Some (Err e)
  | Ok topics =>
    if bool_decide (topic ∈ topics) then
      info ← get (no_panic cj_info) i (endpoint addr "/info") w;
      Some (match info with
            | Err e => Err e
            | Ok info => Ok (Some (nsqd_producer (complete_info addr info) topics))
            end)
    else Some (Ok None)
  end.

Definition GetNSQDTopicProducers (topic : bytes) (addrs : list bytes) (w : W) : option (list producer * option ci_err) :=
  rs ← fan_out (query_topic topic w) addrs;
  Some (conclude "nsqd" (length addrs) (errors rs) [] (omap snd (answers rs))).

Definition GetProducers (lookupdHTTPAddrs nsqdHTTPAddrs : list bytes) (w : W) : option (list producer * option ci_err) :=
  if bool_decide (length lookupdHTTPAddrs ≠ 0)%nat then GetLookupdProducers lookupdHTTPAddrs w else GetNSQDProducers nsqdHTTPAddrs w.
Definition GetTopicProducers (topic : bytes) (lookupdHTTPAddrs nsqdHTTPAddrs : list bytes) (w : W) : option (list producer * option ci_err) :=
  if bool_decide (length lookupdHTTPAddrs ≠ 0)%nat then GetLookupdTopicProducers topic lookupdHTTPAddrs w
  else GetNSQDTopicProducers topic nsqdHTTPAddrs w.

(** ** Statistics *)

Notation HM := (ST heap).

Definition decode_e2e (r : option Aggregate.raw_aggregate) : option (option Aggregate.E2eProcessingLatencyAggregate) :=
  match r with None => Some None | Some r => a ← Aggregate.UnmarshalJSON r; Some (Some a) end.

Definition set_chs_decoded (clients : list ClientStats) (e2e : option Aggregate.E2eProcessingLatencyAggregate) (c : ChannelStats) : ChannelStats :=
  let 'mkChannelStats a0 a1 a2 a3 a4 a5 a6 a7 a8 a9 a10 a11 a12 a13 a14 _ a16 _ := c in
  mkChannelStats a0 a1 a2 a3 a4 a5 a6 a7 a8 a9 a10 a11 a12 a13 a14 clients a16 e2e.
Definition set_ts_decoded (e2e : option Aggregate.E2eProcessingLatencyAggregate) (t : TopicStats) : TopicStats :=
  let 'mkTopicStats a0 a1 a2 a3 a4 a5 a6 a7 a8 a9 _ := t in mkTopicStats a0 a1 a2 a3 a4 a5 a6 a7 a8 a9 e2e.
Definition set_ts_Channels (x : list nat) (t : TopicStats) : TopicStats :=
  let 'mkTopicStats a0 a1 a2 a3 a4 a5 a6 a7 _ a9 a10 := t in mkTopicStats a0 a1 a2 a3 a4 a5 a6 a7 x a9 a10.

Definition decode_channel (now : time) (r : raw_channel) : option ChannelStats :=
  e2e ← decode_e2e r.(rc_e2e);
  Some (set_chs_decoded (ClientStats_UnmarshalJSON now <$> r.(rc_clients)) e2e r.(rc_stats)).
Definition decode_topic (now : time) (r : raw_topic) : option (TopicStats * list ChannelStats) :=
  e2e ← decode_e2e r.(rt_e2e);
  cs ← mapM (decode_channel now) r.(rt_channels);
  Some (set_ts_decoded e2e r.(rt_stats), cs).
Definition unmarshal_stats (now : time) (b : bytes) : option (res string (list (TopicStats * list ChannelStats))) :=
  match cj_stats b with
  | Err e => Some (Err e)
  | Ok rs => ts ← mapM (decode_topic now) rs; Some (Ok ts)
  end.

Fixpoint new_channels (cs : list ChannelStats) : HM (list nat) :=
  match cs with
  | [] => mret []
  | c :: cs => l ← new_channel c; ls ← new_channels cs; mret (l :: ls)
  end.

(** What the answer of a node leaves out. *)
Definition located_topic (addr host : bytes) (t : TopicStats) : TopicStats :=
  mkTopicStats addr host t.(ts_TopicName) t.(ts_Depth) (i64 (t.(ts_Depth) - t.(ts_BackendDepth))) t.(ts_BackendDepth) t.(ts_MessageCount)
    t.(ts_NodeStats) t.(ts_Channels) t.(ts_Paused) t.(ts_E2e).
Definition located_channel (addr host topic : bytes) (c : ChannelStats) : ChannelStats :=
  mkChannelStats addr host topic c.(chs_ChannelName) c.(chs_Depth) (i64 (c.(chs_Depth) - c.(chs_BackendDepth))) c.(chs_BackendDepth)
    c.(chs_InFlightCount) c.(chs_DeferredCount) c.(chs_RequeueCount) c.(chs_TimeoutCount) c.(chs_MessageCount) c.(chs_ClientCount)
    c.(chs_Selected) c.(chs_NodeStats) (set_cl_Node addr <$> c.(chs_Clients)) c.(chs_Paused) c.(chs_E2e).

Definition fresh_channel (addr topic name : bytes) : ChannelStats :=
  mkChannelStats addr [] topic name 0 0 0 0 0 0 0 0 0 false [] [] false None.

Definition channel_key (selectedTopic topic name : bytes) : bytes :=
  if bool_decide (selectedTopic = []) then topic ++ tx ":" ++ name else name.

Notation stats_map := (gmap (list Byte.byte) nat).

Definition add_channel (addr host selectedTopic topic : bytes) (m : stats_map) (l : nat) : HM stats_map :=
  c ← get_channel l;
  _ ← put_channel l (located_channel addr host topic c);
  let key := channel_key selectedTopic topic c.(chs_ChannelName) in
  '(m, cs) ← match m !! key with
             | Some cs => mret (m, cs)
             | None => cs ← new_channel (fresh_channel addr topic c.(chs_ChannelName)); mret (<[key := cs]> m, cs)
             end;
  _ ← ChannelStats_Add cs l;
  mret m.

Fixpoint add_node_channels (addr host selectedTopic topic : bytes) (m : stats_map) (ls : list nat) : HM stats_map :=
  match ls with
  | [] => mret m
  | l :: ls => m ← add_channel addr host selectedTopic topic m l; add_node_channels addr host selectedTopic topic m ls
  end.

(** The critical section of one node: its topics, of which the selected one
    is kept, or all. *)
Fixpoint add_node (addr host selectedTopic : bytes) (topics : list (TopicStats * list ChannelStats)) (list_ : list nat) (m : stats_map)
    : HM (list nat * stats_map) :=
  match topics with
  | [] => mret (list_, m)
  | (t, cs) :: topics =>
    if negb (bool_decide (selectedTopic = [])) && negb (bool_decide (t.(ts_TopicName) = selectedTopic))
    then add_node addr host selectedTopic topics list_ m
    else
      ls ← new_channels cs;
      l ← new_topic (located_topic addr host (set_ts_Channels ls t));
      m ← add_node_channels addr host selectedTopic t.(ts_TopicName) m ls;
      add_node addr host selectedTopic topics (list_ ++ [l]) m
  end.

Fixpoint add_nodes (selectedTopic : bytes) (rs : list (producer * list (TopicStats * list ChannelStats))) (list_ : list nat) (m : stats_map)
    : HM (list nat * stats_map) :=
  match rs with
  | [] => mret (list_, m)
  | (p, topics) :: rs =>
    '(list_, m) ← add_node (HTTPAddress p) p.(Hostname) selectedTopic topics list_ m;
    add_nodes selectedTopic rs list_ m
  end.

Definition stats_endpoint (addr selectedTopic selectedChannel : bytes) (includeClients : bool) : bytes :=
  endpoint addr "/stats?format=json" ++
  (if bool_decide (selectedTopic = []) then [] else
   tx "&topic=" ++ QueryEscape selectedTopic ++
   (if bool_decide (selectedChannel = []) then [] else tx "&channel=" ++ QueryEscape selectedChannel)) ++
  (if includeClients then [] else tx "&include_clients=false").

Definition GetNSQDStats (producers : list producer) (selectedTopic selectedChannel : bytes) (includeClients : bool) (now : time) (w : W)
    : HM (list nat * stats_map * option ci_err) :=
  rs ← liftST (fan_out (λ i p, get (unmarshal_stats now) i (stats_endpoint (HTTPAddress p) selectedTopic selectedChannel includeClients) w) producers);
  '(list_, m) ← add_nodes selectedTopic (answers rs) [] ∅;
  hosts ← topic_hosts list_;
  mret (conclude "nsqd" (length producers) (errors rs) ([], ∅) (sort_by_host hosts, m)).

(** ** Changes *)

Notation WM := (ST W).

Definition ask {A} (q : W → option A) : WM A := λ w, a ← q w; Some (a, w).

(** Posts to one after the other, with the errors. *)
Fixpoint post_all (endpoints : list bytes) : WM (list string) :=
  match endpoints with
  | [] => mret []
  | e :: endpoints =>
    err ← post e;
    errs ← post_all endpoints;
    mret (match err with Some e => e :: errs | None => errs end)
  end.

Definition post_endpoint (addr : bytes) (uri : string) (qs : bytes) : bytes := endpoint addr "/" ++ tx uri ++ tx "?" ++ qs.

Definition nsqlookupdPOST (addrs : list bytes) (uri : string) (qs : bytes) : WM (option ci_err) :=
  errs ← post_all ((λ addr, post_endpoint addr uri qs) <$> addrs);
  mret (err_list errs).
Definition producersPOST (pl : list producer) (uri : string) (qs : bytes) : WM (option ci_err) :=
  errs ← post_all ((λ p, post_endpoint (HTTPAddress p) uri qs) <$> pl);
  mret (err_list errs).

(** A partial error is remembered, another one is returned. *)
Definition remember (err : option ci_err) (errs : list string) (k : list string → WM (option ci_err)) : WM (option ci_err) :=
  match err with
  | None => k errs
  | Some (ErrList es) => k (errs ++ es)
  | Some (Failed m) => mret (Some (Failed m))
  end.
Definition finish (errs : list string) : WM (option ci_err) := mret (err_list errs).

Definition topic_qs (topic : bytes) : bytes := tx "topic=" ++ QueryEscape topic.
Definition channel_qs (topic channel : bytes) : bytes := topic_qs topic ++ tx "&channel=" ++ QueryEscape channel.

Definition TombstoneNodeForTopic (topic node : bytes) (lookupdHTTPAddrs : list bytes) : WM (option ci_err) :=
  err ← nsqlookupdPOST lookupdHTTPAddrs "topic/tombstone" (topic_qs topic ++ tx "&node=" ++ QueryEscape node);
  remember err [] (λ errs,
  '(producers, err) ← ask (GetNSQDProducers [node]);
  remember err errs (λ errs,
  err ← producersPOST producers "topic/delete" (topic_qs topic);
  remember err errs finish)).

Definition CreateTopicChannel (topic channel : bytes) (lookupdHTTPAddrs : list bytes) : WM (option ci_err) :=
  err ← nsqlookupdPOST lookupdHTTPAddrs "topic/create" (topic_qs topic);
  remember err [] (λ errs,
  if bool_decide (0 < length channel)%nat then
    let qs := channel_qs topic channel in
    err ← nsqlookupdPOST lookupdHTTPAddrs "channel/create" qs;
    remember err errs (λ errs,
    '(producers, err) ← ask (GetLookupdTopicProducers topic lookupdHTTPAddrs);
    remember err errs (λ errs,
    err ← producersPOST producers "channel/create" qs;
    remember err errs finish))
  else finish errs).

(** The producers are asked for first. *)
Definition delete_everywhere (topic : bytes) (lookupdHTTPAddrs nsqdHTTPAddrs : list bytes) (uri : string) (qs : bytes) : WM (option ci_err) :=
  '(producers, err) ← ask (GetTopicProducers topic lookupdHTTPAddrs nsqdHTTPAddrs);
  remember err [] (λ errs,
  err ← nsqlookupdPOST lookupdHTTPAddrs uri qs;
  remember err errs (λ errs,
  err ← producersPOST producers uri qs;
  remember err errs finish)).
Definition DeleteTopic (topic : bytes) (lookupdHTTPAddrs nsqdHTTPAddrs : list bytes) : WM (option ci_err) :=
  delete_everywhere topic lookupdHTTPAddrs nsqdHTTPAddrs "topic/delete" (topic_qs topic).
Definition DeleteChannel (topic channel : bytes) (lookupdHTTPAddrs nsqdHTTPAddrs : list bytes) : WM (option ci_err) :=
  delete_everywhere topic lookupdHTTPAddrs nsqdHTTPAddrs "channel/delete" (channel_qs topic channel).

Definition actionHelper (topic : bytes) (lookupdHTTPAddrs nsqdHTTPAddrs : list bytes) (uri : string) (qs : bytes) : WM (option ci_err) :=
  '(producers, err) ← ask (GetTopicProducers topic lookupdHTTPAddrs nsqdHTTPAddrs);
  remember err [] (λ errs,
  err ← producersPOST producers uri qs;
  remember err errs finish).

Definition PauseTopic (topic : bytes) (lookupds nsqds : list bytes) : WM (option ci_err) := actionHelper topic lookupds nsqds "topic/pause" (topic_qs topic).
Definition UnPauseTopic (topic : bytes) (lookupds nsqds : list bytes) : WM (option ci_err) := actionHelper topic lookupds nsqds "topic/unpause" (topic_qs topic).
Definition PauseChannel (topic channel : bytes) (lookupds nsqds : list bytes) : WM (option ci_err) :=
  actionHelper topic lookupds nsqds "channel/pause" (channel_qs topic channel).
Definition UnPauseChannel (topic channel : bytes) (lookupds nsqds : list bytes) : WM (option ci_err) :=
  actionHelper topic lookupds nsqds "channel/unpause" (channel_qs topic channel).
Definition EmptyTopic (topic : bytes) (lookupds nsqds : list bytes) : WM (option ci_err) := actionHelper topic lookupds nsqds "topic/empty" (topic_qs topic).
Definition EmptyChannel (topic channel : bytes) (lookupds nsqds : list bytes) : WM (option ci_err) :=
  actionHelper topic lookupds nsqds "channel/empty" (channel_qs topic channel).

End cluster.
End ClusterInfo.
