(* ===== verification/ClusterProps.v ===== *)
(** * What nsqadmin learns of a cluster

    Whatever order the answers come in, a list of names is the sorted union
    of what was answered ([names_union]), and the producers are one for each
    address, with all that was reported of it ([producers_merge]). *)
From stdpp Require Import base gmap list strings sorting.
From Stdlib Require Import ZArith Lia.
From S2P Require Import Prelude.
From S2P Require Import Text.
From S2P Require Import Net.
From S2P Require Import Decimal.
From S2P Require Import HttpApi.
From S2P Require Import HttpClient.
From S2P Require Import Order.
From S2P Require Import Aggregate.
From S2P Require Import ClusterTypes.
From S2P Require Import ClusterInfo.
Set Default Goal Selector "!".
Local Open Scope Z_scope.

Module ClusterSpec.
Import HttpClient Order Cluster ClusterInfo.

(** ** Asking many *)

Section fan.
Context (sched : ∀ A : Type, list A → list A).
Hypothesis sched_perm : ∀ A (l : list A), sched A l ≡ₚ l.

Definition answered {A T : Type} (f : nat → A → option (res string T)) (items : list A) (a : A) (t : T) : Prop :=
  ∃ i, items !! i = Some a ∧ f i a = Some (Ok t).
Definition refused {A T : Type} (f : nat → A → option (res string T)) (items : list A) (a : A) (e : string) : Prop :=
  ∃ i, items !! i = Some a ∧ f i a = Some (Err e).

Lemma elem_of_imap_pair {A : Type} (items : list A) i a : (i, a) ∈ imap pair items ↔ items !! i = Some a.
Proof.
  rewrite list_elem_of_lookup. split.
  - intros [j Hj]. rewrite list_lookup_imap in Hj. destruct (items !! j) eqn:E; [|done]. cbn in Hj. injection Hj as <- <-. done.
  - intros Hi. exists i. by rewrite list_lookup_imap, Hi.
Qed.

Lemma fan_out_ok {A T : Type} (f : nat → A → option (res string T)) (items : list A) :
  (∀ i a, items !! i = Some a → is_Some (f i a)) →
  ∃ rs, fan_out sched f items = Some rs ∧ length rs = length items ∧
    (∀ a t, (a, t) ∈ answers rs ↔ answered f items a t) ∧ (∀ e, e ∈ errors rs ↔ ∃ a, refused f items a e).
Proof.
  intros Hf. unfold fan_out.
  destruct (mapM_total (λ '(i, a), r ← f i a; Some (a, r)) (imap pair items)) as [rs Hrs].
  { intros [i a] Hin%elem_of_imap_pair. destruct (Hf i a Hin) as [r ->]. by eexists. }
  rewrite Hrs. cbn. exists (sched _ rs). apply mapM_Some in Hrs.
  assert (Hin : ∀ a r, (a, r) ∈ rs ↔ ∃ i, items !! i = Some a ∧ f i a = Some r).
  { intros a r. split.
    - intros [k Hk]%list_elem_of_lookup. destruct (Forall2_lookup_r _ _ _ _ _ Hrs Hk) as ([i b] & Hi & E).
      apply list_elem_of_lookup_2, elem_of_imap_pair in Hi. destruct (f i b) as [r'|] eqn:Er; [|done]. injection E as -> ->. by exists i.
    - intros (i & Hi & Er). apply elem_of_imap_pair, list_elem_of_lookup in Hi as [k Hk].
      destruct (Forall2_lookup_l _ _ _ _ _ Hrs Hk) as ([b r'] & Hb & E). rewrite Er in E. injection E as -> ->.
      by eapply list_elem_of_lookup_2. }
  split_and!; [done| | |].
  - rewrite sched_perm, <- (Forall2_length _ _ _ Hrs). apply length_imap.
  - intros a t. unfold answers, answered. rewrite list_elem_of_omap. setoid_rewrite sched_perm. split.
    + intros ([a' r] & Hr & E). apply Hin in Hr as (i & Hi & Er). cbn in E. destruct r; [|done]. injection E as -> ->. by exists i.
    + intros (i & Hi & Er). exists (a, Ok t). split; [apply Hin; by exists i|done].
  - intros e. unfold errors, refused. rewrite list_elem_of_omap. setoid_rewrite sched_perm. split.
    + intros ([a' r] & Hr & E). apply Hin in Hr as (i & Hi & Er). cbn in E. destruct r; [done|]. injection E as ->. by exists a', i.
    + intros (a & i & Hi & Er). exists (a, Err e). split; [apply Hin; by exists i|done].
Qed.

(** The answers in the order of the items. *)
Definition given {A T : Type} (f : nat → A → option (res string T)) (items : list A) : list (A * T) :=
  answers (omap (λ '(i, a), r ← f i a; Some (a, r)) (imap pair items)).

Lemma fan_out_given {A T : Type} (f : nat → A → option (res string T)) items rs : fan_out sched f items = Some rs → answers rs ≡ₚ given f items.
Proof.
  unfold fan_out, given. destruct (mapM _ _) as [l|] eqn:E; [|done]. intros [= <-]. unfold answers. rewrite sched_perm.
  f_equiv. apply mapM_Some in E. revert E. generalize (imap pair items). intros ps. revert l.
  induction ps as [|[i a] ps IH]; intros l E; [by apply Forall2_nil_inv_l in E as ->|].
  apply Forall2_cons_inv_l in E as (x & l' & Ex & E & ->). cbn. rewrite Ex. f_equiv. by apply IH.
Qed.

Lemma errors_answers {A T : Type} (rs : list (A * res string T)) : (length (errors rs) + length (answers rs))%nat = length rs.
Proof. induction rs as [|[a [t|e]] rs IH]; cbn; [done|unfold errors, answers in IH; cbn in *; lia..]. Qed.

(** The result of a query that is complete, partial or failed. *)
Definition concluded {A B T : Type} (f : nat → A → option (res string T)) (items : list A) (nil : B) (P : B → Prop) (r : B * option ci_err) : Prop :=
  match r.2 with
  | None => (∃ a t, answered f items a t) ∧ (∀ a e, ¬ refused f items a e) ∧ P r.1
  | Some (ErrList es) => (∃ a t, answered f items a t) ∧ es ≠ [] ∧ (∀ e, e ∈ es ↔ ∃ a, refused f items a e) ∧ P r.1
  | Some (Failed _) => (∀ a t, ¬ answered f items a t) ∧ r.1 = nil
  end.

Lemma conclude_ok {A B T : Type} (f : nat → A → option (res string T)) (items : list A) rs what (nil value : B) (P : B → Prop) :
  length rs = length items → (∀ a t, (a, t) ∈ answers rs ↔ answered f items a t) → (∀ e, e ∈ errors rs ↔ ∃ a, refused f items a e) →
  P value → concluded f items nil P (conclude what (length items) (errors rs) nil value).
Proof.
  intros Hlen Ha He Hv. unfold conclude, concluded. pose proof (errors_answers rs) as Hsum. case_bool_decide as Hn; cbn.
  - split; [|done]. intros a t Hat%Ha. destruct (answers rs); [by apply elem_of_nil in Hat|]. cbn in Hsum. lia.
  - assert (Hex : ∃ a t, answered f items a t).
    { destruct (answers rs) as [|[a t] l] eqn:E; [cbn in Hsum; lia|]. exists a, t. apply Ha. by left. }
    unfold err_list. destruct (errors rs) as [|e es] eqn:E; cbn.
    + split_and!; [done| |done]. intros a e Her. apply (elem_of_nil e), He. by exists a.
    + by split_and!.
Qed.

End fan.

(** ** Sorted unions *)

Section names.
Context `{GoSort}.

Record union (answers : bytes → Prop) (v : list bytes) : Prop := {
  un_in : ∀ t, t ∈ v ↔ answers t;
  un_sorted : StronglySorted bytes_le v;
  un_nodup : NoDup v;
}.

Lemma union_sort (P : bytes → Prop) l : (∀ t, t ∈ l ↔ P t) → NoDup l → union P (go_sort bytes_ltb l).
Proof.
  intros Hl Hn. split.
  - intros t. by rewrite go_sort_perm.
  - eapply StronglySorted_impl; [|apply go_sort_ordered, (bytes_ltb_weak id)]. intros a b. apply (in_order_bytes id).
  - by rewrite go_sort_perm.
Qed.

Lemma union_unique P P' v v' : (∀ t, P t ↔ P' t) → union P v → union P' v' → v = v'.
Proof.
  intros HP [Hi Hs Hn] [Hi' Hs' Hn']. apply (StronglySorted_unique bytes_le); [done..|].
  apply NoDup_Permutation; [done..|]. intros t. by rewrite Hi, Hi', HP.
Qed.

End names.

Section queries.
Context {W V : Type} `{Web W, Semver V, ClusterJSON, GoSort}.
Context (url_Parse : bytes → res string URL) (Quote : bytes → string).
Notation get := (GETV1 url_Parse cj_https_port Quote).
Implicit Types (w : W) (addrs : list bytes).

Definition of_answers {A T : Type} (f : nat → A → option (res string (list T))) (items : list A) (x : T) : Prop :=
  ∃ a l, answered f items a l ∧ x ∈ l.

Lemma Uniq_answers {A : Type} (f : nat → A → option (res string (list bytes))) items (rs : list (A * res string (list bytes))) :
  (∀ a t, (a, t) ∈ answers rs ↔ answered f items a t) →
  union (of_answers f items) (go_sort bytes_ltb (Stringy.Uniq (mjoin (snd <$> answers rs)))).
Proof.
  intros Ha. apply union_sort; [|apply (Stringy.Uniq_spec _ [])]. intros t. rewrite (proj1 (Stringy.Uniq_spec _ t)), list_elem_of_join. split.
  - intros (l & Hl & Hin). apply list_elem_of_fmap in Hin as ([a l'] & -> & Hin). exists a, l'. split; [by apply Ha|done].
  - intros (a & l & Hal & Hl). exists l. split; [done|]. apply list_elem_of_fmap. exists (a, l). split; [done|by apply Ha].
Qed.

Lemma foldl_Add (l : list bytes) : ∀ s, (∀ x, x ∈ foldl Stringy.Add s l ↔ x ∈ s ∨ x ∈ l) ∧ (NoDup s → NoDup (foldl Stringy.Add s l)).
Proof. intros s. rewrite <- Stringy.Union_Add. split; [intros x; apply Stringy.Union_spec|apply (Stringy.Union_spec s l [])]. Qed.

Lemma Add_answers {A : Type} (f : nat → A → option (res string (list bytes))) items (rs : list (A * res string (list bytes))) :
  (∀ a t, (a, t) ∈ answers rs ↔ answered f items a t) →
  union (of_answers f items) (go_sort bytes_ltb (foldl (λ topics answer, foldl Stringy.Add topics answer.2) [] (answers rs))).
Proof.
  intros Ha.
  assert (Hfold : ∀ (l : list (A * list bytes)) s, (∀ x, x ∈ foldl (λ topics answer, foldl Stringy.Add topics answer.2) s l ↔ x ∈ s ∨ ∃ p, p ∈ l ∧ x ∈ p.2) ∧
    (NoDup s → NoDup (foldl (λ topics answer, foldl Stringy.Add topics answer.2) s l))).
  { induction l as [|[a ts] l IH]; intros s; cbn [foldl].
    - split; [|done]. intros x. split; [by left|]. intros [?|(p & Hp%elem_of_nil & _)]; done.
    - destruct (IH (foldl Stringy.Add s ts)) as [I1 I2]. destruct (foldl_Add ts s) as [F1 F2]. cbn [snd]. split; [|by auto].
      intros x. rewrite I1, F1. setoid_rewrite elem_of_cons. split.
      + intros [[?|?]|(p & ? & ?)]; [by left|right; exists (a, ts); auto|right; exists p; auto].
      + intros [?|(p & [->|?] & ?)]; [auto..|right; exists p; auto]. }
  destruct (Hfold (answers rs) []) as [F1 F2]. apply union_sort; [|apply F2; constructor]. intros t. rewrite F1. split.
  - intros [?%elem_of_nil|([a l] & Hp & Hl)]; [done|]. exists a, l. split; [by apply Ha|done].
  - intros (a & l & Hal & Hl). right. exists (a, l). split; [by apply Ha|done].
Qed.

Lemma get_ok {T : Type} (unmarshal : bytes → option (res string T)) i e w :
  (∀ b, is_Some (unmarshal b)) → is_Some (get unmarshal i e w).
Proof. apply GETV1_total. Qed.

Lemma no_panic_ok {T : Type} (f : bytes → res string T) b : is_Some (no_panic f b).
Proof. by eexists. Qed.

(** Asking many nodes for names gives the sorted union of what they
    answered, each name once; the errors of those that failed are reported
    beside it, and only if all failed - or none was asked - is there no
    result. The order in which the answers come in makes no difference. *)
Theorem names_union (sched sched' : ∀ A : Type, list A → list A) topic addrs w :
  (∀ A (l : list A), sched A l ≡ₚ l) → (∀ A (l : list A), sched' A l ≡ₚ l) →
  let lookupd_topics := λ i addr, get (no_panic cj_topics) i (endpoint addr "/topics") w in
  let lookupd_channels := λ i addr, get (no_panic cj_channels) i (endpoint addr "/channels?topic=" ++ HttpApi.QueryEscape topic) w in
  let nsqd_topics := λ i addr, get (no_panic cj_topic_names) i (endpoint addr "/stats?format=json") w in
  (∃ r r', GetLookupdTopics sched url_Parse Quote addrs w = Some r ∧ GetLookupdTopics sched' url_Parse Quote addrs w = Some r' ∧
    concluded lookupd_topics addrs [] (union (of_answers lookupd_topics addrs)) r ∧ r'.1 = r.1) ∧
  (∃ r r', GetLookupdTopicChannels sched url_Parse Quote topic addrs w = Some r ∧ GetLookupdTopicChannels sched' url_Parse Quote topic addrs w = Some r' ∧
    concluded lookupd_channels addrs [] (union (of_answers lookupd_channels addrs)) r ∧ r'.1 = r.1) ∧
  (∃ r r', GetNSQDTopics sched url_Parse Quote addrs w = Some r ∧ GetNSQDTopics sched' url_Parse Quote addrs w = Some r' ∧
    concluded nsqd_topics addrs [] (union (of_answers nsqd_topics addrs)) r ∧ r'.1 = r.1).
Proof.
  intros Hs Hs' f1 f2 f3.
  assert (Hgen : ∀ (f : nat → bytes → option (res string (list bytes))) what (V : list (bytes * res string (list bytes)) → list bytes),
    (∀ i a, addrs !! i = Some a → is_Some (f i a)) →
    (∀ rs, (∀ a t, (a, t) ∈ answers rs ↔ answered f addrs a t) → union (of_answers f addrs) (V rs)) →
    ∃ rs rs', fan_out sched f addrs = Some rs ∧ fan_out sched' f addrs = Some rs' ∧
      let r := conclude what (length addrs) (errors rs) [] (V rs) in let r' := conclude what (length addrs) (errors rs') [] (V rs') in
      concluded f addrs [] (union (of_answers f addrs)) r ∧ r'.1 = r.1).
  { intros f what V' Hf HV. destruct (fan_out_ok sched Hs f addrs Hf) as (rs & E & Hl & Ha & He).
    destruct (fan_out_ok sched' Hs' f addrs Hf) as (rs' & E' & Hl' & Ha' & He'). exists rs, rs'. split; [done|]. split; [done|].
    pose proof (conclude_ok f addrs rs what [] (V' rs) _ Hl Ha He (HV rs Ha)) as Hc. split; [exact Hc|].
    unfold conclude. pose proof (errors_answers rs) as Hn. pose proof (errors_answers rs') as Hn'.
    assert (Hnone : answers rs = [] ↔ answers rs' = []).
    { split; intros En; apply elem_of_nil_inv; intros [a t] Hin; [apply Ha', Ha in Hin|apply Ha, Ha' in Hin]; rewrite En in Hin; by apply elem_of_nil in Hin. }
    destruct (decide (answers rs = [])) as [En|En].
    - pose proof (proj1 Hnone En) as En'. rewrite En in Hn. rewrite En' in Hn'. cbn in *. rewrite !bool_decide_eq_true_2 by lia. done.
    - assert (En' : answers rs' ≠ []) by (intros ?; by apply En, Hnone).
      assert (0 < length (answers rs))%nat by (destruct (answers rs); cbn in *; [done|lia]).
      assert (0 < length (answers rs'))%nat by (destruct (answers rs'); cbn in *; [done|lia]).
      rewrite !bool_decide_eq_false_2 by lia. cbn. by eapply union_unique; [|apply HV|apply HV]. }
  assert (Htot : ∀ (u : bytes → res string (list bytes)) (e : bytes → bytes) i a, addrs !! i = Some a → is_Some (get (no_panic u) i (e a) w)).
  { intros u e i a _. apply get_ok. intros b. apply no_panic_ok. }
  split_and!.
  - destruct (Hgen f1 "nsqlookupd"%string (λ rs, go_sort bytes_ltb (Stringy.Uniq (mjoin (snd <$> answers rs)))) (Htot _ _) (Uniq_answers f1 addrs))
      as (rs & rs' & E & E' & Hc & Hv).
    unfold GetLookupdTopics. fold f1. rewrite E, E'. cbn [mbind option_bind]. by eexists _, _.
  - destruct (Hgen f2 "nsqlookupd"%string (λ rs, go_sort bytes_ltb (Stringy.Uniq (mjoin (snd <$> answers rs)))) (Htot _ _) (Uniq_answers f2 addrs))
      as (rs & rs' & E & E' & Hc & Hv).
    unfold GetLookupdTopicChannels. fold f2. rewrite E, E'. cbn [mbind option_bind]. by eexists _, _.
  - destruct (Hgen f3 "nsqd"%string (λ rs, go_sort bytes_ltb (foldl (λ topics answer, foldl Stringy.Add topics answer.2) [] (answers rs))) (Htot _ _) (Add_answers f3 addrs))
      as (rs & rs' & E & E' & Hc & Hv).
    unfold GetNSQDTopics. fold f3. rewrite E, E'. cbn [mbind option_bind]. by eexists _, _.
Qed.

End queries.
(** ** Producers *)

(** What is known of semver: its order. *)
Class SemverLaws (V : Type) `{Semver V} := semver_order : weak_order semver_LT.

Section producers.
Context {W V : Type} `{Web W, Semver V, !SemverLaws V, ClusterJSON, GoSort}.
Context (url_Parse : bytes → res string URL) (Quote : bytes → string).
Notation producer := (Producer V).
Notation node_set := (node_set (V:=V)).
Implicit Types (p q : producer) (s : node_set) (reps : list (bytes * producer)).

(** The reports of a producer: which nsqlookupd said what. *)
Definition reported_as (reps : list (bytes * producer)) (key : bytes) : list bytes :=
  (λ r, r.1 ++ tx "/" ++ Address r.2) <$> filter (λ r, TCPAddress r.2 = key) reps.

(** What the first report of an address says. *)
Definition described reps p : Prop :=
  ∃ r, r ∈ reps ∧ TCPAddress r.2 = TCPAddress p ∧ Hostname p = Hostname r.2 ∧ HTTPAddress p = HTTPAddress r.2 ∧
    VersionObj p = VersionObj r.2 ∧ Topics p ≡ₚ Topics r.2.

Record merged_set reps s : Prop := {
  ms_find : ∀ key i, s.(ns_byAddr) !! key = Some i ↔ ∃ p, s.(ns_producers) !! i = Some p ∧ TCPAddress p = key;
  ms_reports : ∀ p, p ∈ s.(ns_producers) → RemoteAddresses p = reported_as reps (TCPAddress p);
  ms_described : ∀ p, p ∈ s.(ns_producers) → described reps p;
  ms_keys : ∀ r, r ∈ reps → is_Some (s.(ns_byAddr) !! TCPAddress r.2);
  ms_max : semver_LT s.(ns_max) (version_of (tx "0.0.0")) = false ∧ (∀ p, p ∈ s.(ns_producers) → semver_LT s.(ns_max) p.(VersionObj) = false);
  ms_max_in : s.(ns_max) = version_of (tx "0.0.0") ∨ ∃ p, p ∈ s.(ns_producers) ∧ s.(ns_max) = p.(VersionObj);
  ms_fresh : ∀ p, p ∈ s.(ns_producers) → p.(OutOfDate) = false;
}.

Lemma no_nodes_merged : merged_set [] no_nodes.
Proof.
  split; cbn.
  - intros key i. split; [by intros ?%lookup_empty_Some|]. by intros (p & Hp & _).
  - by intros p ?%elem_of_nil.
  - by intros p ?%elem_of_nil.
  - by intros r ?%elem_of_nil.
  - split; [|by intros p ?%elem_of_nil]. destruct (semver_LT _ _) eqn:E; [|done]. pose proof (wo_asym _ semver_order _ _ E). congruence.
  - by left.
  - by intros p ?%elem_of_nil.
Qed.

Lemma reported_snoc reps r key : reported_as (reps ++ [r]) key =
  reported_as reps key ++ (if bool_decide (TCPAddress r.2 = key) then [r.1 ++ tx "/" ++ Address r.2] else []).
Proof.
  unfold reported_as. rewrite filter_app, fmap_app. f_equal. case_bool_decide as E; [by rewrite filter_cons_True|by rewrite filter_cons_False].
Qed.

Lemma described_snoc reps r p : described reps p → described (reps ++ [r]) p.
Proof. intros (r' & Hin & ?). exists r'. split; [by apply elem_of_app; left|done]. Qed.

Lemma max_LT (a b : V) : semver_LT (if semver_LT a b then b else a) b = false ∧
  ∀ c, semver_LT a c = false → semver_LT (if semver_LT a b then b else a) c = false.
Proof.
  assert (Hi : ∀ x : V, semver_LT x x = false).
  { intros x. destruct (semver_LT x x) eqn:E; [|done]. pose proof (wo_asym _ semver_order _ _ E). congruence. }
  destruct (semver_LT a b) eqn:E; [|done]. split; [done|]. intros c Hc.
  apply (wo_trans _ semver_order c a b); [done|]. by apply (wo_asym _ semver_order).
Qed.

Lemma merge_producer_merged reps s addr q : merged_set reps s → q.(RemoteAddresses) = [] → q.(OutOfDate) = false →
  merged_set (reps ++ [(addr, q)]) (merge_producer addr s q).
Proof.
  intros [Hfind Hrep Hdesc Hkeys [Hmax0 Hmax] Hin Hfresh] Hq Hq2. unfold merge_producer.
  destruct (s.(ns_byAddr) !! TCPAddress q) as [i|] eqn:E.
  - apply Hfind in E as (p0 & Hi & Hkey). pose proof (lookup_lt_Some _ _ _ Hi) as Hlt.
    assert (Hold : ∀ p, p ∈ alter (report addr q) i s.(ns_producers) →
      p ∈ s.(ns_producers) ∧ TCPAddress q ≠ TCPAddress p ∨ p = report addr q p0).
    { intros p [j Hj]%list_elem_of_lookup. destruct (decide (i = j)) as [<-|Hne].
      - rewrite list_lookup_alter_eq, Hi in Hj. injection Hj as <-. by right.
      - rewrite list_lookup_alter_ne in Hj by done. left. split; [by eapply list_elem_of_lookup_2|]. intros Eq. apply Hne.
        assert (Hk : s.(ns_byAddr) !! TCPAddress q = Some j) by (apply Hfind; by exists p).
        assert (Hk' : s.(ns_byAddr) !! TCPAddress q = Some i) by (apply Hfind; by exists p0). congruence. }
    split; cbn.
    + intros key j. rewrite Hfind. destruct (decide (i = j)) as [<-|Hne].
      * rewrite list_lookup_alter_eq, Hi. cbn. split; [intros (p & [= <-] & <-); by eexists|]. intros (p & [= <-] & <-). by exists p0.
      * by rewrite list_lookup_alter_ne.
    + intros p Hp. apply Hold in Hp as [[Hp Hne]| ->]; rewrite reported_snoc; cbn [fst snd].
      * rewrite bool_decide_eq_false_2 by done. rewrite app_nil_r. by apply Hrep.
      * rewrite bool_decide_eq_true_2 by done. cbn. rewrite Hrep; [done|]. by eapply list_elem_of_lookup_2.
    + intros p Hp. apply described_snoc. apply Hold in Hp as [[Hp _]| ->]; [by apply Hdesc|].
      destruct (Hdesc p0) as (r & ? & ?); [by eapply list_elem_of_lookup_2|]. by exists r.
    + intros r [Hr| ->%list_elem_of_singleton]%elem_of_app; [by apply Hkeys|]. exists i. apply Hfind. by exists p0.
    + split; [done|]. intros p Hp. apply Hold in Hp as [[Hp _]| ->]; [by apply Hmax|]. apply (Hmax p0). by eapply list_elem_of_lookup_2.
    + destruct Hin as [?|(p & Hp & Em)]; [by left|]. right. apply list_elem_of_lookup in Hp as [j Hj]. destruct (decide (i = j)) as [<-|Hne].
      * rewrite Hi in Hj. injection Hj as <-. exists (report addr q p0). split; [|done]. apply list_elem_of_lookup. exists i. by rewrite list_lookup_alter_eq, Hi.
      * exists p. split; [|done]. apply list_elem_of_lookup. exists j. by rewrite list_lookup_alter_ne.
    + intros p Hp. apply Hold in Hp as [[Hp _]| ->]; [by apply Hfresh|]. apply (Hfresh p0). by eapply list_elem_of_lookup_2.
  - set (q' := report addr q _). assert (Eq' : TCPAddress q' = TCPAddress q) by done. destruct (max_LT s.(ns_max) q.(VersionObj)) as [M1 M2].
    assert (Hlast : reported_as reps (TCPAddress q) = []).
    { unfold reported_as. replace (filter _ reps) with (@nil (bytes * producer)); [done|]. symmetry. apply elem_of_nil_inv.
      intros r [Er Hr]%list_elem_of_filter. apply Hkeys in Hr. rewrite Er, E in Hr. by destruct Hr. }
    split; cbn [ns_producers ns_byAddr ns_max].
    + intros key i. rewrite lookup_insert_Some. split.
      * intros [[<- <-]|[Hne Hk]]; [exists q'; split; [|done]; by apply list_lookup_middle|].
        apply Hfind in Hk as (p & Hp & <-). exists p. split; [|done]. by apply lookup_app_l_Some.
      * intros (p & Hp & <-). apply lookup_snoc_inv in Hp as [[Hp Hlt]|[-> ->]]; [|by left]. right. split; [|apply Hfind; by exists p].
        intros Eq. assert (Hk : s.(ns_byAddr) !! TCPAddress q = Some i) by (apply Hfind; by exists p). congruence.
    + intros p [Hp| ->%list_elem_of_singleton]%elem_of_app; rewrite reported_snoc; cbn [fst snd].
      * rewrite bool_decide_eq_false_2; [by rewrite app_nil_r, Hrep|]. intros Eq. apply list_elem_of_lookup in Hp as [i Hi].
        assert (Hk : s.(ns_byAddr) !! TCPAddress q = Some i) by (apply Hfind; by exists p). congruence.
      * rewrite Eq', Hlast. rewrite bool_decide_eq_true_2 by done. cbn. by rewrite Hq.
    + intros p [Hp| ->%list_elem_of_singleton]%elem_of_app; [by apply described_snoc, Hdesc|].
      exists (addr, q). split_and!; [apply elem_of_app; right; by left|done..|]. cbn. apply go_sort_perm.
    + intros r [Hr| ->%list_elem_of_singleton]%elem_of_app; cbn.
      * destruct (decide (TCPAddress q = TCPAddress r.2)) as [<-|Hne]; [rewrite lookup_insert_eq; by eexists|].
        rewrite lookup_insert_ne by done. by apply Hkeys.
      * rewrite lookup_insert_eq. by eexists.
    + split; [by apply M2|]. intros p [Hp| ->%list_elem_of_singleton]%elem_of_app; [by apply M2, Hmax|done].
    + destruct (semver_LT s.(ns_max) q.(VersionObj)); [right; exists q'; split; [apply elem_of_app; right; by left|done]|].
      destruct Hin as [?|(p & Hp & ?)]; [by left|right]. exists p. split; [by apply elem_of_app; left|done].
    + intros p [Hp| ->%list_elem_of_singleton]%elem_of_app; [by apply Hfresh|done].
Qed.

(** The reports of all the answers, in the order they came in. *)
Definition reports (l : list (bytes * list producer)) : list (bytes * producer) := a ← l; (a.1,.) <$> a.2.

Lemma merge_all_merged (l : list (bytes * list producer)) : ∀ reps s, merged_set reps s →
  (∀ r, r ∈ reports l → r.2.(RemoteAddresses) = [] ∧ r.2.(OutOfDate) = false) →
  merged_set (reps ++ reports l) (foldl merge_producers s l).
Proof.
  induction l as [|[a qs] l IH]; intros reps s Hs Hl; cbn [foldl]; [by rewrite app_nil_r|].
  assert (Hmid : merged_set (reps ++ ((a,.) <$> qs)) (merge_producers s (a, qs))).
  { assert (Hqs : ∀ q, q ∈ qs → q.(RemoteAddresses) = [] ∧ q.(OutOfDate) = false).
    { intros q Hq. apply (Hl (a, q)). unfold reports. cbn. apply elem_of_app. left. by apply list_elem_of_fmap_2. }
    unfold merge_producers. cbn [fst snd]. clear Hl IH. revert reps s Hs Hqs. induction qs as [|q qs IH]; intros reps s Hs Hqs; cbn [foldl fmap list_fmap]; [by rewrite app_nil_r|].
    replace (reps ++ (a, q) :: ((a,.) <$> qs)) with ((reps ++ [(a, q)]) ++ ((a,.) <$> qs)) by by rewrite <- app_assoc.
    apply IH; [|intros q' Hq'; apply Hqs; by right]. apply merge_producer_merged; [done|apply Hqs; by left..]. }
  specialize (IH (reps ++ ((a,.) <$> qs)) _ Hmid). unfold reports in *. cbn in *. rewrite app_assoc. apply IH.
  intros r Hr. apply Hl. cbn. apply elem_of_app. by right.
Qed.

Lemma unmarshalled b ps p : unmarshal_producers b = Some (Ok ps) → p ∈ ps → p.(RemoteAddresses) = [] ∧ p.(OutOfDate) = false.
Proof.
  unfold unmarshal_producers. destruct (cj_producers b) as [rs|]; [|done]. destruct (mapM _ rs) as [ps'|] eqn:E; [|done].
  intros [= ->] Hp. apply mapM_Some in E. apply list_elem_of_lookup in Hp as [i Hi].
  destruct (Forall2_lookup_r _ _ _ _ _ E Hi) as (r & _ & Er). unfold UnmarshalJSON in Er. by destruct (producer_topics r); [injection Er as <-|].
Qed.

Lemma TCPAddresses_nodup s reps : merged_set reps s → NoDup (TCPAddress <$> s.(ns_producers)).
Proof.
  intros Hs. apply NoDup_alt. intros i j key Hi Hj. rewrite list_lookup_fmap in Hi, Hj.
  destruct (s.(ns_producers) !! i) as [p|] eqn:Ei; [|done]. destruct (s.(ns_producers) !! j) as [p'|] eqn:Ej; [|done].
  cbn in Hi, Hj. injection Hi as Hi. injection Hj as Hj.
  assert (s.(ns_byAddr) !! key = Some i) by (apply (ms_find _ _ Hs); by exists p).
  assert (s.(ns_byAddr) !! key = Some j) by (apply (ms_find _ _ Hs); by exists p'). congruence.
Qed.

Notation get_nodes addrs w := (λ i addr, GETV1 url_Parse cj_https_port Quote unmarshal_producers i (endpoint addr "/nodes") w).

(** nsqlookupd answers what can be decoded without a panic: as many
    tombstones as topics. *)
Definition tombstones_given : Prop :=
  ∀ b rs r, cj_producers b = Ok rs → r ∈ rs → (length r.(rp_Topics) <= length r.(rp_Tombstoned))%nat.

Lemma unmarshal_producers_ok b : tombstones_given → is_Some (unmarshal_producers b).
Proof.
  intros Ht. unfold unmarshal_producers. destruct (cj_producers b) as [rs|] eqn:E; [|by eexists].
  destruct (mapM_total (UnmarshalJSON (V:=V)) rs) as [ps ->]; [|by eexists]. intros r Hr. unfold UnmarshalJSON.
  destruct (mapM_total (λ '(i, t), b ← r.(rp_Tombstoned) !! i; Some (mkProducerTopic t b)) (imap pair r.(rp_Topics))) as [ts Hts].
  { intros [i t] Hin%elem_of_imap_pair. apply lookup_lt_Some in Hin. specialize (Ht b rs r E Hr).
    destruct (lookup_lt_is_Some_2 r.(rp_Tombstoned) i) as [x ->]; [lia|]. by eexists. }
  unfold producer_topics. rewrite Hts. by eexists.
Qed.


End producers.
End ClusterSpec.
