(* ===== verification/ClusterStats.v ===== *)
(** * Adding up the statistics of a cluster

    The statistics of a channel over all nodes are the sums of what the nodes
    reported ([stats_sum]); and what becomes of the statistics of the first
    node when topics are added ([topic_add_aliases]). *)
From stdpp Require Import base gmap list strings sorting.
From Stdlib Require Import ZArith Lia.
From S2P Require Import Prelude.
From S2P Require Import Text.
From S2P Require Import HttpClient.
From S2P Require Import Order.
From S2P Require Import Aggregate.
From S2P Require Import ClusterTypes.
From S2P Require Import ClusterInfo.
From S2P Require Import ClusterProps.
Set Default Goal Selector "!".
Local Open Scope Z_scope.

Module ClusterStats.
Import HttpClient Order Cluster ClusterInfo ClusterSpec.

Section stats.
Context `{GoSort}.
Implicit Types (h : heap) (c x : ChannelStats) (cs : list ChannelStats).

(** ** Sums *)

Definition total {A : Type} (f : A → Z) (l : list A) : Z := i64 (foldr (λ e n, f e + n) 0 l).

Lemma total_snoc {A : Type} (f : A → Z) (l : list A) a : total f (l ++ [a]) = i64 (total f l + f a).
Proof.
  unfold total. assert (foldr (λ e n, f e + n) 0 (l ++ [a]) = foldr (λ e n, f e + n) 0 l + f a) as ->.
  { induction l as [|b l IH]; cbn [foldr app]; lia. }
  generalize (foldr (λ e n, f e + n) 0 l). intros z. pow2. lia.
Qed.

Definition latency (x : ChannelStats) : Aggregate.E2eProcessingLatencyAggregate := default (empty_aggregate [] [] []) x.(chs_E2e).
Definition timed (x : ChannelStats) : Prop := is_Some x.(chs_E2e).

#[local] Arguments empty_aggregate : simpl never.
#[local] Arguments latency : simpl never.

(** [x] adds up [cs]. *)
Record sum_of cs x : Prop := {
  so_depth : x.(chs_Depth) = total chs_Depth cs;
  so_memory : x.(chs_MemoryDepth) = total chs_MemoryDepth cs;
  so_backend : x.(chs_BackendDepth) = total chs_BackendDepth cs;
  so_inflight : x.(chs_InFlightCount) = total chs_InFlightCount cs;
  so_deferred : x.(chs_DeferredCount) = total chs_DeferredCount cs;
  so_requeue : x.(chs_RequeueCount) = total chs_RequeueCount cs;
  so_timeout : x.(chs_TimeoutCount) = total chs_TimeoutCount cs;
  so_messages : x.(chs_MessageCount) = total chs_MessageCount cs;
  so_client_count : x.(chs_ClientCount) = total chs_ClientCount cs;
  so_clients : x.(chs_Clients) ≡ₚ mjoin (chs_Clients <$> cs);
  so_paused : x.(chs_Paused) = existsb chs_Paused cs;
  so_latency : cs ≠ [] → ∃ e, x.(chs_E2e) = Some e ∧
    Aggregate.add_all (latency <$> cs) (empty_aggregate (tx "*") x.(chs_TopicName) x.(chs_ChannelName)) = Some e;
  so_no_latency : cs = [] → x.(chs_E2e) = None;
}.

Lemma add_all_snoc es e2 : ∀ e, Aggregate.add_all (es ++ [e2]) e = (e' ← Aggregate.add_all es e; Aggregate.Add (Some e2) e').
Proof.
  induction es as [|e1 es IH]; intros e; cbn [app Aggregate.add_all]; [unfold Aggregate.Add; done|].
  destruct (Aggregate.Add (Some e1) e) as [e'|]; cbn; [apply IH|done].
Qed.

Lemma fresh_sum addr topic name : sum_of [] (fresh_channel addr topic name).
Proof. by split. Qed.

Lemma channel_hosts_ok h ls : (∀ l, l ∈ ls → is_Some (h.(h_channels) !! l)) →
  ∃ hs, channel_hosts ls h = Some (hs, h) ∧ hs.*2 = ls.
Proof.
  intros Hl. unfold channel_hosts. destruct (mapM_total (λ l, x ← h.(h_channels) !! l; Some (chs_Hostname x, l)) ls) as [hs E].
  { intros l Hin. destruct (Hl l Hin) as [x ->]. by eexists. }
  rewrite E. exists hs. split; [done|]. apply mapM_Some in E. clear Hl. induction E as [|l [n l'] ls hs E _ IH]; cbn; [done|].
  destruct (h_channels h !! l); cbn in E; [|done]. injection E as _ ->. by rewrite IH.
Qed.

Lemma sort_by_host_perm hs : sort_by_host hs ≡ₚ hs.*2.
Proof. unfold sort_by_host. by rewrite go_sort_perm. Qed.

(** Adding one channel to another. *)
Lemma ChannelStats_Add_ok h l a x c cs : h.(h_channels) !! l = Some x → h.(h_channels) !! a = Some c → timed c → sum_of cs x →
  (∀ k, k ∈ x.(chs_NodeStats) → is_Some (h.(h_channels) !! k)) →
  ∃ x', ChannelStats_Add l a h = Some ((), mkHeap h.(h_topics) (<[l := x']> h.(h_channels)) h.(h_next)) ∧ sum_of (cs ++ [c]) x' ∧
    x'.(chs_NodeStats) ≡ₚ x.(chs_NodeStats) ++ [a] ∧ x'.(chs_Node) = tx "*" ∧ x'.(chs_TopicName) = x.(chs_TopicName) ∧
    x'.(chs_ChannelName) = x.(chs_ChannelName) ∧ x'.(chs_Hostname) = x.(chs_Hostname).
Proof.
  intros Hx Hc [e2 He2] Hs Hn. unfold ChannelStats_Add.
  callST ltac:(unfold get_channel; rewrite Hx; reflexivity). callST ltac:(unfold get_channel; rewrite Hc; reflexivity).
  destruct (channel_hosts_ok h (x.(chs_NodeStats) ++ [a])) as (hs & Ehs & Hhs).
  { intros k [?| ->%list_elem_of_singleton]%elem_of_app; [by apply Hn|by eexists]. }
  callST ltac:(exact Ehs).
  set (e0 := default _ x.(chs_E2e)).
  destruct (Aggregate.Add (c.(chs_E2e)) e0) as [e'|] eqn:Ee; [|by rewrite He2 in Ee].
  callST ltac:(unfold liftST; reflexivity). eexists. split; [reflexivity|]. split_and!; [|cbn; by rewrite sort_by_host_perm, Hhs|done..].
  assert (Hlat : latency c = e2) by (unfold latency; by rewrite He2).
  destruct Hs. split; cbn; rewrite ?total_snoc, ?fmap_app, ?existsb_app; cbn; try congruence; try done.
  - rewrite go_sort_perm, join_app. cbn. by rewrite app_nil_r, so_clients0.
  - rewrite orb_false_r. destruct (chs_Paused c); [by rewrite orb_true_r|by rewrite orb_false_r].
  - intros _. exists e'. split; [done|]. rewrite add_all_snoc, Hlat. rewrite He2 in Ee. unfold e0 in Ee. destruct (decide (cs = [])) as [->|Hcs].
    + rewrite (so_no_latency0 eq_refl) in Ee. exact Ee.
    + destruct (so_latency0 Hcs) as (e & E1 & E2). rewrite E1 in Ee. change [Byte.x2a] with (tx "*"). by rewrite E2.
  - by destruct cs.
Qed.

(** ** The table of channels *)

Notation stats_map := (gmap (list Byte.byte) nat).
Implicit Types (m : stats_map) (done : list (bytes * ChannelStats)).

Definition of_key (k : bytes) done : list ChannelStats := (filter (λ kc, kc.1 = k) done).*2.

Lemma of_key_snoc k done k' c : of_key k (done ++ [(k', c)]) = of_key k done ++ (if bool_decide (k' = k) then [c] else []).
Proof.
  unfold of_key. rewrite filter_app, fmap_app. f_equal. case_bool_decide as E; [by rewrite filter_cons_True|by rewrite filter_cons_False].
Qed.

(** [m] adds up the channels [done]; those in [busy] are still to be added. *)
Record table_ok done (busy : list nat) m h : Prop := {
  tb_fresh : ∀ l, is_Some (h.(h_channels) !! l) → (l < h.(h_next))%nat;
  tb_keys : ∀ k, is_Some (m !! k) ↔ ∃ c, (k, c) ∈ done;
  tb_inj : ∀ k k' l, m !! k = Some l → m !! k' = Some l → k = k';
  tb_busy : ∀ l, l ∈ busy → is_Some (h.(h_channels) !! l) ∧ ∀ k, m !! k ≠ Some l;
  tb_sum : ∀ k l, m !! k = Some l → ∃ x ls, h.(h_channels) !! l = Some x ∧ sum_of (of_key k done) x ∧ x.(chs_NodeStats) ≡ₚ ls ∧
    Forall2 (λ l' c, h.(h_channels) !! l' = Some c ∧ l' ∉ busy ∧ ∀ k', m !! k' ≠ Some l') ls (of_key k done);
}.

Lemma empty_table h : (∀ l, is_Some (h.(h_channels) !! l) → (l < h.(h_next))%nat) → table_ok [] [] ∅ h.
Proof.
  intros Hf. split; [done| | | |].
  - intros k. rewrite lookup_empty. split; [by intros []|]. by intros (c & ?%elem_of_nil).
  - intros k k' l. by rewrite lookup_empty.
  - by intros l ?%elem_of_nil.
  - intros k l. by rewrite lookup_empty.
Qed.

Definition key_of (sel topic : bytes) c : bytes := channel_key sel topic c.(chs_ChannelName).

(** The aggregate for a key is there, or made. *)
Lemma find_or_new done busy m h addr sel topic name : table_ok done busy m h →
  let key := channel_key sel topic name in
  ∃ m' ag h', (match m !! key with
               | Some ag => mret (m, ag)
               | None => ag ← new_channel (fresh_channel addr topic name); mret (<[key := ag]> m, ag)
               end) h = Some ((m', ag), h') ∧ m' !! key = Some ag ∧
    (∀ k, k ≠ key → m' !! k = m !! k) ∧ (∀ l c, h.(h_channels) !! l = Some c → h'.(h_channels) !! l = Some c) ∧
    h'.(h_topics) = h.(h_topics) ∧ (h.(h_next) <= h'.(h_next))%nat ∧
    (∀ l, is_Some (h'.(h_channels) !! l) → (l < h'.(h_next))%nat) ∧ (∀ k k' l, m' !! k = Some l → m' !! k' = Some l → k = k') ∧
    (∀ l, l ∈ busy → ∀ k, m' !! k ≠ Some l) ∧
    (∀ l k, is_Some (h.(h_channels) !! l) → (∀ k, m !! k ≠ Some l) → m' !! k ≠ Some l) ∧
    (∃ x ls, h'.(h_channels) !! ag = Some x ∧ sum_of (of_key key done) x ∧ x.(chs_NodeStats) ≡ₚ ls ∧
      Forall2 (λ l' c, h.(h_channels) !! l' = Some c ∧ l' ∉ busy ∧ ∀ k', m !! k' ≠ Some l') ls (of_key key done)).
Proof.
  intros [Hf Hk Hi Hb Hs] key. destruct (m !! key) as [ag|] eqn:E.
  - exists m, ag, h. split; [reflexivity|]. split_and!; [done..| | | ].
    + intros l Hl. by apply Hb.
    + done.
    + destruct (Hs key ag E) as (x & ls & ? & ? & ? & ?). by exists x, ls.
  - exists (<[key := h.(h_next)]> m), h.(h_next). eexists. split; [reflexivity|]. cbn.
    assert (Hnew : ∀ l, is_Some (h.(h_channels) !! l) → l ≠ h.(h_next)) by (intros l Hl ->; apply Hf in Hl; lia).
    assert (Hempty : of_key key done = []).
    { unfold of_key. replace (filter _ done) with (@nil (bytes * ChannelStats)); [done|]. symmetry. apply elem_of_nil_inv.
      intros [k c] [Ek Hin]%list_elem_of_filter. cbn in Ek. subst k.
      assert (Hsome : is_Some (m !! key)) by (apply Hk; by exists c). rewrite E in Hsome. by destruct Hsome. }
    split_and!; [apply lookup_insert_eq| | |done|lia| | | | |].
    + intros k Hne. by rewrite lookup_insert_ne.
    + intros l c Hl. rewrite lookup_insert_ne; [done|]. intros <-. by apply (Hnew (h.(h_next))); [eexists|].
    + intros l. destruct (decide (l = h.(h_next))) as [->|Hne]; [lia|]. rewrite lookup_insert_ne by done. intros Hl%Hf. lia.
    + intros k k' l. rewrite !lookup_insert_Some. intros [[<- <-]|[? H1]] [[<- E2]|[? H2]]; [done| | |by eapply Hi].
      * exfalso. destruct (Hs k' _ H2) as (x & _ & Hx & _). by apply (Hnew (h.(h_next))); [eexists|].
      * exfalso. destruct (Hs k _ H1) as (x & _ & Hx & _). subst l. by apply (Hnew (h.(h_next))); [eexists|].
    + intros l Hl k. destruct (Hb l Hl) as [Hin Hno]. rewrite lookup_insert_Some. intros [[_ <-]|[_ ?]]; [by apply (Hnew _ Hin)|by eapply Hno].
    + intros l k Hl Hno. rewrite lookup_insert_Some. intros [[_ <-]|[_ ?]]; [by apply (Hnew _ Hl)|by eapply Hno].
    + eexists _, []. rewrite lookup_insert_eq. split; [done|]. rewrite Hempty. split; [apply fresh_sum|done].
Qed.

(** A channel that is not an aggregate. *)
Definition settled m h (l : nat) c : Prop := h.(h_channels) !! l = Some c ∧ ∀ k, m !! k ≠ Some l.

Lemma add_channel_ok done busy m h addr host sel topic l c : table_ok done (l :: busy) m h → l ∉ busy → h.(h_channels) !! l = Some c → timed c →
  ∃ m' h', add_channel addr host sel topic m l h = Some (m', h') ∧
    table_ok (done ++ [(key_of sel topic c, located_channel addr host topic c)]) busy m' h' ∧
    settled m' h' l (located_channel addr host topic c) ∧ (∀ l' y, l' ≠ l → settled m h l' y → settled m' h' l' y) ∧ h'.(h_topics) = h.(h_topics) ∧ (h.(h_next) <= h'.(h_next))%nat.
Proof.
  intros Ht Hl Hc Htimed. set (c' := located_channel addr host topic c). set (key := key_of sel topic c).
  destruct (tb_busy _ _ _ _ Ht l) as [_ Hlm]; [by left|].
  set (h1 := mkHeap h.(h_topics) (<[l := c']> h.(h_channels)) h.(h_next)).
  assert (Hother : ∀ l', l' ≠ l → h1.(h_channels) !! l' = h.(h_channels) !! l') by (intros l' Hne; cbn; by rewrite lookup_insert_ne).
  assert (Hh1 : table_ok done (l :: busy) m h1).
  { destruct Ht as [Hf Hk Hi Hb Hs]. split; [|done..| |].
    - intros l'. destruct (decide (l' = l)) as [->|Hne]; [intros _; apply Hf; by eexists|rewrite Hother by done; apply Hf].
    - intros l' Hl'. destruct (Hb l' Hl') as [Hsome ?]. split; [|done]. destruct (decide (l' = l)) as [->|Hne]; [cbn; rewrite lookup_insert_eq; by eexists|by rewrite Hother].
    - intros k ck Hck. destruct (Hs k ck Hck) as (x & ls & Hx & Hsum & Hperm & Hls). exists x, ls.
      rewrite Hother by (intros ->; by apply (Hlm k)). split_and!; [done..|]. eapply Forall2_impl; [exact Hls|]. intros l' y (Hy & Hn & ?).
      rewrite Hother by (intros ->; apply Hn; by left). by split_and!. }
  destruct (find_or_new done (l :: busy) m h1 addr sel topic c.(chs_ChannelName) Hh1) as
    (m' & ag & h2 & E2 & Hmk & Hmo & Hgrow & Htop & Hnext & Hf2 & Hi2 & Hb2 & Hno2 & x & ls & Hx & Hsum & Hperm & Hls).
  fold (key_of sel topic c) in Hmk, Hmo, E2, Hsum, Hls. fold key in Hmk, Hmo, E2, Hsum, Hls.
  assert (Hl2 : h2.(h_channels) !! l = Some c') by (apply Hgrow; cbn; apply lookup_insert_eq).
  assert (Hcsl : ag ≠ l) by (intros ->; by apply (Hb2 l ltac:(by left) key)).
  destruct (ChannelStats_Add_ok h2 ag l x c' (of_key key done) Hx Hl2) as (x' & E3 & Hsum' & Hperm' & _).
  { unfold timed, c', located_channel. done. } { done. }
  { intros k Hk. rewrite Hperm in Hk. apply list_elem_of_lookup in Hk as [i Hi]. destruct (Forall2_lookup_l _ _ _ _ _ Hls Hi) as (y & _ & Hy & _).
    exists y. by apply Hgrow. }
  set (h3 := mkHeap h2.(h_topics) (<[ag := x']> h2.(h_channels)) h2.(h_next)) in E3.
  assert (H3 : ∀ l' y, l' ≠ ag → h1.(h_channels) !! l' = Some y → h3.(h_channels) !! l' = Some y).
  { intros l' y Hne Hy. cbn. rewrite lookup_insert_ne by done. by apply Hgrow. }
  exists m', h3. split; [|split_and!; [| | |exact Htop|exact Hnext]].
  - unfold add_channel. callST ltac:(unfold get_channel; rewrite Hc; reflexivity). callST ltac:(reflexivity).
    fold (key_of sel topic c). fold key. callST ltac:(exact E2). callST ltac:(exact E3). reflexivity.
  - destruct Hh1 as [_ Hk1 Hi1 Hb1 Hs1].
    assert (Hnode : ∀ l' y, h1.(h_channels) !! l' = Some y ∧ l' ∉ l :: busy ∧ (∀ k', m !! k' ≠ Some l') →
      h3.(h_channels) !! l' = Some y ∧ l' ∉ busy ∧ ∀ k', m' !! k' ≠ Some l').
    { intros l' y (Hy & Hn & Hm). assert (Hm' : ∀ k', m' !! k' ≠ Some l') by (intros k'; apply Hno2; [by eexists|done]).
      split; [apply H3; [intros ->; by apply (Hm' key)|done]|]. split; [intros ?; apply Hn; by right|done]. }
    split.
    + intros l'. cbn. destruct (decide (l' = ag)) as [->|Hne]; [intros _; apply Hf2; by eexists|rewrite lookup_insert_ne by done; apply Hf2].
    + intros k. setoid_rewrite elem_of_app. setoid_rewrite list_elem_of_singleton. destruct (decide (k = key)) as [->|Hne].
      * rewrite Hmk. split; [intros _; exists c'; by right|by eexists].
      * rewrite Hmo, Hk1 by done. split; [intros (y & ?); exists y; by left|]. intros (y & [?|[= ? _]]); [by exists y|done].
    + done.
    + intros l' Hl'. destruct (Hb1 l') as [[y Hy] _]; [by right|]. assert (Hm' : ∀ k, m' !! k ≠ Some l') by (intros k; apply Hb2; by right).
      split; [|done]. exists y. apply H3; [intros ->; by apply (Hm' key)|done].
    + intros k ck Hck. rewrite of_key_snoc. destruct (decide (k = key)) as [->|Hne].
      * rewrite Hmk in Hck. injection Hck as <-. rewrite bool_decide_eq_true_2 by done. exists x', (ls ++ [l]). split; [cbn; apply lookup_insert_eq|].
        split; [done|]. split; [by rewrite Hperm', Hperm|]. apply Forall2_app; [eapply Forall2_impl; [exact Hls|exact Hnode]|].
        constructor; [|constructor]. split; [cbn; by rewrite lookup_insert_ne|]. split; [done|]. intros k'. apply Hb2. by left.
      * rewrite bool_decide_eq_false_2 by done. rewrite app_nil_r. rewrite Hmo in Hck by done.
        destruct (Hs1 k ck Hck) as (y & ls' & Hy & Hsum1 & Hperm1 & Hls1). exists y, ls'.
        assert (Hckcs : ck ≠ ag). { intros ->. apply Hne. apply (Hi2 _ _ ag); [by rewrite Hmo|done]. }
        split; [by apply H3|]. split_and!; [done..|]. eapply Forall2_impl; [exact Hls1|exact Hnode].
  - split; [cbn; by rewrite lookup_insert_ne|]. apply Hb2. by left.
  - intros l' y Hne [Hy Hm]. assert (Hm' : ∀ k, m' !! k ≠ Some l') by (intros k; apply Hno2; [rewrite Hother by done; by eexists|done]).
    split; [|done]. apply H3; [intros ->; by apply (Hm' key)|]. by rewrite Hother.
Qed.

(** The channels of a topic: the table with what was reported of them. *)
Definition reported_channels (addr host sel topic : bytes) cs : list (bytes * ChannelStats) :=
  (λ c, (key_of sel topic c, located_channel addr host topic c)) <$> cs.

Lemma add_node_channels_ok addr host sel topic ls : ∀ cs done busy m h, table_ok done (ls ++ busy) m h → NoDup (ls ++ busy) →
  Forall2 (λ l c, h.(h_channels) !! l = Some c) ls cs → Forall timed cs →
  ∃ m' h', add_node_channels addr host sel topic m ls h = Some (m', h') ∧
    table_ok (done ++ reported_channels addr host sel topic cs) busy m' h' ∧
    Forall2 (settled m' h') ls (located_channel addr host topic <$> cs) ∧
    (∀ l' y, l' ∉ ls → settled m h l' y → settled m' h' l' y) ∧ h'.(h_topics) = h.(h_topics) ∧ (h.(h_next) <= h'.(h_next))%nat.
Proof.
  induction ls as [|l ls IH]; intros cs done busy m h Ht Hn Hls Hcs; cbn [add_node_channels app] in *.
  - apply Forall2_nil_inv_l in Hls as ->. exists m, h. split; [done|]. cbn. rewrite app_nil_r. by split_and!.
  - apply Forall2_cons_inv_l in Hls as (c & cs' & Hc & Hls & ->). apply Forall_cons in Hcs as [Hc0 Hcs].
    apply NoDup_cons in Hn as [Hl Hn].
    destruct (add_channel_ok done (ls ++ busy) m h addr host sel topic l c Ht Hl Hc Hc0) as (m1 & h1 & E1 & Ht1 & Hs1 & Hf1 & Htop1 & Hnx1).
    assert (Hl' : l ∉ ls) by (intros ?; apply Hl, elem_of_app; by left).
    destruct (IH cs' _ busy m1 h1 Ht1 Hn) as (m2 & h2 & E2 & Ht2 & Hs2 & Hf2 & Htop2 & Hnx2).
    { apply Forall2_same_length_lookup_2; [by eapply Forall2_length|]. intros i l' y Hi Hy.
      assert (Hin : l' ∈ ls) by by eapply list_elem_of_lookup_2.
      apply Hf1; [by intros ->|]. split; [by eapply (Forall2_lookup_lr _ _ _ _ _ _ Hls)|]. apply (tb_busy _ _ _ _ Ht). right. apply elem_of_app. by left. }
    { done. }
    exists m2, h2. split; [callST ltac:(exact E1); exact E2|]. cbn. rewrite <- app_assoc in Ht2. split_and!; [done| | |congruence|lia].
    + constructor; [by apply Hf2|done].
    + intros l' y [Hne Hin]%not_elem_of_cons Hy. apply Hf2; [done|]. by apply Hf1.
Qed.

Lemma new_channels_fresh cs : ∀ h ls h', new_channels cs h = Some (ls, h') → Forall (λ l, h.(h_next) <= l)%nat ls.
Proof.
  induction cs as [|c cs IH]; intros h ls h' E; cbn [new_channels] in E; [injection E as <- _; constructor|].
  apply ST_bind_inv in E as (l & h1 & [= <- <-] & E). apply ST_bind_inv in E as (ls' & h2 & E2 & [= <- <-]).
  constructor; [done|]. eapply Forall_impl; [by eapply IH|]. cbn. lia.
Qed.

Lemma new_channels_ok cs : ∀ done m h busy, table_ok done busy m h → NoDup busy → 
  ∃ ls h', new_channels cs h = Some (ls, h') ∧ table_ok done (ls ++ busy) m h' ∧ NoDup (ls ++ busy) ∧
    Forall2 (λ l c, h'.(h_channels) !! l = Some c) ls cs ∧ h'.(h_topics) = h.(h_topics) ∧ (h.(h_next) <= h'.(h_next))%nat ∧
    (∀ l y, h.(h_channels) !! l = Some y → h'.(h_channels) !! l = Some y).
Proof.
  induction cs as [|c cs IH]; intros done m h busy Ht Hn; cbn [new_channels].
  - exists [], h. split; [done|]. by split_and!.
  - set (l := h.(h_next)). set (h1 := mkHeap h.(h_topics) (<[l := c]> h.(h_channels)) (S l)).
    assert (Hold : ∀ l' y, h.(h_channels) !! l' = Some y → l' ≠ l ∧ h1.(h_channels) !! l' = Some y).
    { intros l' y Hy. assert (l' ≠ l) by (intros ->; assert (l < h.(h_next))%nat by (apply (tb_fresh _ _ _ _ Ht); by eexists); unfold l in *; lia).
      split; [done|]. cbn. by rewrite lookup_insert_ne. }
    assert (Hlb : l ∉ busy). { intros Hl. destruct (tb_busy _ _ _ _ Ht l Hl) as [[y Hy] _]. by apply Hold in Hy as [? _]. }
    assert (Ht1 : table_ok done (l :: busy) m h1).
    { destruct Ht as [Hf Hk Hi Hb Hs].
      assert (Hml : ∀ k, m !! k ≠ Some l). { intros k Hk'. destruct (Hs k l Hk') as (x & _ & Hx & _). by apply Hold in Hx as [? _]. }
      split; [|done..| |].
      - intros l'. cbn. destruct (decide (l' = l)) as [->|Hne]; [lia|]. rewrite lookup_insert_ne by done. intros Hl'%Hf. unfold l. lia.
      - intros l' [->|Hl']%elem_of_cons; [split; [cbn; rewrite lookup_insert_eq; by eexists|done]|].
        destruct (Hb l' Hl') as [[y Hy] ?]. split; [exists y; by apply Hold|done].
      - intros k ck Hck. destruct (Hs k ck Hck) as (x & ls & Hx & Hsum & Hperm & Hls). exists x, ls. split; [by apply Hold|].
        split_and!; [done..|]. eapply Forall2_impl; [exact Hls|]. intros l' y (Hy & Hn' & ?). apply Hold in Hy as [Hne Hy].
        split_and!; [done| |done]. intros [?|?]%elem_of_cons; done. }
    destruct (IH done m h1 (l :: busy) Ht1) as (ls & h2 & E & Ht2 & Hn2 & Hls & Htop & Hnx & Hgrow); [by constructor|].
    exists (l :: ls), h2.
    assert (Hp : l :: ls ++ busy ≡ₚ ls ++ l :: busy) by (by rewrite Permutation_middle).
    split; [callST ltac:(reflexivity); callST ltac:(exact E); reflexivity|]. cbn [app]. split_and!.
    + destruct Ht2 as [Hf Hk Hi Hb Hs]. split; [done..| |].
      * intros l' Hl'. apply Hb. by rewrite <- Hp.
      * intros k ck Hck. destruct (Hs k ck Hck) as (x & ls' & ? & ? & ? & Hls'). exists x, ls'. split_and!; [done..|].
        eapply Forall2_impl; [exact Hls'|]. intros l' y (? & ? & ?). split_and!; [done|by rewrite Hp|done].
    + by rewrite Hp.
    + constructor; [|done]. apply Hgrow. cbn. apply lookup_insert_eq.
    + done.
    + cbn in Hnx. lia.
    + intros l' y Hy. apply Hgrow. by apply Hold.
Qed.

(** ** The nodes *)

Notation decoded := (list (TopicStats * list ChannelStats)).

(** What a node reported of its topics, but for those that are not selected. *)
Definition kept (sel : bytes) (topics : decoded) : decoded :=
  filter (λ tc, sel = [] ∨ tc.1.(ts_TopicName) = sel) topics.

Definition node_channels (addr host sel : bytes) (topics : decoded) : list (bytes * ChannelStats) :=
  tc ← kept sel topics; reported_channels addr host sel tc.1.(ts_TopicName) tc.2.

(** A topic of the result with its channels, as the node [addr] reported them. *)
Definition topic_shown m h (l : nat) (r : (bytes * bytes) * (TopicStats * list ChannelStats)) : Prop :=
  ∃ ls, h.(h_topics) !! l = Some (located_topic r.1.1 r.1.2 (set_ts_Channels ls r.2.1)) ∧
    Forall2 (settled m h) ls (located_channel r.1.1 r.1.2 r.2.1.(ts_TopicName) <$> r.2.2).

Definition topics_fresh h : Prop := ∀ l, is_Some (h.(h_topics) !! l) → (l < h.(h_next))%nat.

Lemma topic_shown_mono m h m' h' l r : topic_shown m h l r → (∀ k t, h.(h_topics) !! k = Some t → h'.(h_topics) !! k = Some t) →
  (∀ k y, settled m h k y → settled m' h' k y) → topic_shown m' h' l r.
Proof. intros (ls & Ht & Hls) Htop Hset. exists ls. split; [by apply Htop|]. eapply Forall2_impl; [exact Hls|]. auto. Qed.

Definition timed_topics (topics : decoded) : Prop := Forall (λ tc, Forall timed tc.2) topics.

Lemma add_node_ok addr host sel topics : ∀ done m h list_ shown, table_ok done [] m h → topics_fresh h → timed_topics topics →
  Forall2 (topic_shown m h) list_ shown →
  ∃ list' m' h', add_node addr host sel topics list_ m h = Some ((list', m'), h') ∧
    table_ok (done ++ node_channels addr host sel topics) [] m' h' ∧ topics_fresh h' ∧
    Forall2 (topic_shown m' h') list' (shown ++ (((addr, host),.) <$> kept sel topics)).
Proof.
  induction topics as [|[t cs] topics IH]; intros done m h list_ shown Ht Hf Htimed Hl; cbn [add_node].
  - exists list_, m, h. split; [done|]. cbn. by rewrite !app_nil_r.
  - apply Forall_cons in Htimed as [Hcs Htimed]. cbn [snd] in Hcs.
    unfold node_channels, kept. destruct (decide (sel = [] ∨ (t, cs).1.(ts_TopicName) = sel)) as [Hk|Hk].
    2: { rewrite !filter_cons_False by done. assert (negb (bool_decide (sel = [])) && negb (bool_decide (ts_TopicName t = sel)) = true) as ->.
         { cbn in Hk. rewrite !bool_decide_eq_false_2 by tauto. done. }
         by apply IH. }
    rewrite !filter_cons_True by done. assert (negb (bool_decide (sel = [])) && negb (bool_decide (ts_TopicName t = sel)) = false) as ->.
    { cbn in Hk. destruct Hk; [by rewrite bool_decide_eq_true_2|]. rewrite (bool_decide_eq_true_2 (ts_TopicName t = sel)) by done. apply andb_false_r. }
    destruct (new_channels_ok cs done m h [] Ht) as (ls & h1 & E1 & Ht1 & Hn1 & Hls & Htop1 & Hnx1 & Hgrow1); [constructor|].
    set (t' := located_topic addr host (set_ts_Channels ls t)). set (l := h1.(h_next)).
    set (h2 := mkHeap (<[l := t']> h1.(h_topics)) h1.(h_channels) (S l)).
    assert (Ht2 : table_ok done (ls ++ []) m h2).
    { destruct Ht1 as [A1 A2 A3 A4 A5]. split; [|done..]. intros k Hk'%A1. cbn. unfold l. lia. }
    destruct (add_node_channels_ok addr host sel t.(ts_TopicName) ls cs done [] m h2 Ht2 Hn1 Hls Hcs) as
      (m3 & h3 & E3 & Ht3 & Hs3 & Hf3 & Htop3 & Hnx3).
    assert (Hlnew : ∀ k tt, h.(h_topics) !! k = Some tt → k ≠ l ∧ h3.(h_topics) !! k = Some tt).
    { intros k tt Hk'. assert (k < h.(h_next))%nat by (apply Hf; by eexists). assert (k ≠ l) by (unfold l; lia).
      split; [done|]. rewrite Htop3. cbn. rewrite lookup_insert_ne by done. by rewrite Htop1. }
    assert (Hset : ∀ k y, settled m h k y → settled m3 h3 k y).
    { intros k y Hy. apply Hf3.
      - intros Hin. destruct Hy as [Hy _]. apply list_elem_of_lookup in Hin as [i Hi].
        (* new channels are not old ones *)
        assert (k < h.(h_next))%nat by (apply (tb_fresh _ _ _ _ Ht); by eexists).
        pose proof (new_channels_fresh cs h ls h1 E1) as Hfr. rewrite Forall_forall in Hfr.
        specialize (Hfr k (list_elem_of_lookup_2 _ _ _ Hi)). lia.
      - destruct Hy as [Hy Hm]. split; [by apply Hgrow1|done]. }
    destruct (IH (done ++ reported_channels addr host sel t.(ts_TopicName) cs) m3 h3 (list_ ++ [l]) (shown ++ [((addr, host), (t, cs))]) Ht3) as
      (list' & m4 & h4 & E4 & Ht4 & Hf4 & Hl4).
    { intros k. rewrite Htop3. cbn. rewrite lookup_insert_is_Some. cbn in Hnx3. intros [<-|[_ Hk']]; [unfold l; lia|].
      rewrite Htop1 in Hk'. apply Hf in Hk'. lia. }
    { done. }
    { apply Forall2_app.
      - eapply Forall2_impl; [exact Hl|]. intros k r Hr. eapply topic_shown_mono; [exact Hr| |done]. intros k' tt Hk'. by apply Hlnew.
      - constructor; [|constructor]. exists ls. split; [rewrite Htop3; cbn; apply lookup_insert_eq|done]. }
    exists list', m4, h4. split.
    { callST ltac:(exact E1). callST ltac:(reflexivity). callST ltac:(exact E3). exact E4. }
    split_and!; [|done|].
    + unfold node_channels in Ht4. cbn. by rewrite <- app_assoc in Ht4.
    + cbn. by rewrite <- app_assoc in Hl4.
Qed.

End stats.

(** ** Adding topics *)

Section alias.
Context `{GoSort}.
Implicit Types (h : heap).

Definition host_of h (l : nat) : bytes := default [] (ts_Hostname <$> h.(h_topics) !! l).

Lemma topic_hosts_ok h ls : (∀ l, l ∈ ls → is_Some (h.(h_topics) !! l)) → topic_hosts ls h = Some ((λ l, (host_of h l, l)) <$> ls, h).
Proof.
  intros Hl. unfold topic_hosts. assert (E : mapM (λ l, x ← h.(h_topics) !! l; Some (ts_Hostname x, l)) ls = Some ((λ l, (host_of h l, l)) <$> ls)).
  { apply mapM_Some. induction ls as [|l ls IH]; cbn; constructor; [|apply IH; intros ? ?; apply Hl; by right].
    destruct (Hl l) as [x Hx]; [by left|]. unfold host_of. by rewrite Hx. }
  by rewrite E.
Qed.

Lemma channel_added h l a x c : h.(h_channels) !! l = Some x → h.(h_channels) !! a = Some c → timed c → x.(chs_NodeStats) = [] →
  ∃ x', ChannelStats_Add l a h = Some ((), mkHeap h.(h_topics) (<[l := x']> h.(h_channels)) h.(h_next)) ∧
    x'.(chs_Node) = tx "*" ∧ x'.(chs_Depth) = i64 (x.(chs_Depth) + c.(chs_Depth)) ∧
    x'.(chs_MessageCount) = i64 (x.(chs_MessageCount) + c.(chs_MessageCount)) ∧ x'.(chs_NodeStats) = [a] ∧
    x'.(chs_ChannelName) = x.(chs_ChannelName).
Proof.
  intros Hx Hc [e2 He2] Hn. unfold ChannelStats_Add.
  callST ltac:(unfold get_channel; rewrite Hx; reflexivity). callST ltac:(unfold get_channel; rewrite Hc; reflexivity).
  destruct (channel_hosts_ok h (x.(chs_NodeStats) ++ [a])) as (hs & Ehs & Hhs).
  { rewrite Hn. cbn. intros k ->%list_elem_of_singleton. by eexists. }
  callST ltac:(exact Ehs). rewrite He2. callST ltac:(reflexivity). eexists. split; [reflexivity|]. cbn. split_and!; try done.
  apply Permutation_singleton_r. by rewrite sort_by_host_perm, Hhs, Hn.
Qed.

Lemma topic_added h t a ts a_ channels h1 : h.(h_topics) !! t = Some ts → h.(h_topics) !! a = Some a_ → is_Some a_.(ts_E2e) →
  add_channels a_.(ts_Channels) ts.(ts_Channels) h = Some (channels, h1) → h1.(h_topics) = h.(h_topics) →
  (∀ k, k ∈ ts.(ts_NodeStats) → is_Some (h.(h_topics) !! k)) →
  ∃ ts', TopicStats_Add t a h = Some ((), mkHeap (<[t := ts']> h.(h_topics)) h1.(h_channels) h1.(h_next)) ∧
    ts'.(ts_Depth) = i64 (ts.(ts_Depth) + a_.(ts_Depth)) ∧ ts'.(ts_MessageCount) = i64 (ts.(ts_MessageCount) + a_.(ts_MessageCount)) ∧
    ts'.(ts_Channels) = channels ∧ ts'.(ts_NodeStats) ≡ₚ ts.(ts_NodeStats) ++ [a] ∧ is_Some ts'.(ts_E2e).
Proof.
  intros Ht Ha [e2 He2] Hc Htop Hn. unfold TopicStats_Add.
  callST ltac:(unfold get_topic; rewrite Ht; reflexivity). callST ltac:(unfold get_topic; rewrite Ha; reflexivity). callST ltac:(exact Hc).
  callST ltac:(apply topic_hosts_ok; rewrite Htop; intros k [?| ->%list_elem_of_singleton]%elem_of_app; [by apply Hn|by eexists]).
  rewrite He2. callST ltac:(reflexivity). eexists. split; [unfold put_topic; by rewrite Htop|]. cbn. split_and!; try done.
  rewrite sort_by_host_perm, <- list_fmap_compose. by rewrite list_fmap_id.
Qed.

(** Adding the topics of two nodes that have the same channel: the totals
    of the topic are the sums, and so are those of its channel; but that
    channel is the first node's own, so what the first node reported of it
    is overwritten, and the nodes listed for the channel lack the first. *)
Theorem topic_add_aliases h t t1 t2 c1 c2 name (x1 x2 : ChannelStats) (ts1 ts2 : TopicStats) :
  h.(h_topics) !! t = Some (mkTopicStats [] [] name 0 0 0 0 [] [] false None) →
  h.(h_topics) !! t1 = Some ts1 → h.(h_topics) !! t2 = Some ts2 → t ≠ t1 → t ≠ t2 → t1 ≠ t2 →
  ts1.(ts_Channels) = [c1] → ts2.(ts_Channels) = [c2] → is_Some ts1.(ts_E2e) → is_Some ts2.(ts_E2e) →
  h.(h_channels) !! c1 = Some x1 → h.(h_channels) !! c2 = Some x2 → c1 ≠ c2 → timed x2 →
  x1.(chs_ChannelName) = x2.(chs_ChannelName) → x1.(chs_NodeStats) = [] →
  ∃ h' ts x, (_ ← TopicStats_Add t t1; TopicStats_Add t t2) h = Some ((), h') ∧
    h'.(h_topics) !! t = Some ts ∧ ts.(ts_Depth) = i64 (i64 ts1.(ts_Depth) + ts2.(ts_Depth)) ∧
    ts.(ts_MessageCount) = i64 (i64 ts1.(ts_MessageCount) + ts2.(ts_MessageCount)) ∧ ts.(ts_NodeStats) ≡ₚ [t1; t2] ∧
    ts.(ts_Channels) = [c1] ∧ h'.(h_topics) !! t1 = Some ts1 ∧
    h'.(h_channels) !! c1 = Some x ∧ x.(chs_Depth) = i64 (x1.(chs_Depth) + x2.(chs_Depth)) ∧
    x.(chs_Node) = tx "*" ∧ x.(chs_NodeStats) = [c2].
Proof.
  intros Ht H1 H2 Hn1 Hn2 Hn12 Hc1 Hc2 He1 He2 Hx1 Hx2 Hc Htimed Hname Hnodes.
  destruct (topic_added h t t1 _ ts1 [c1] h Ht H1 He1) as (ts' & E1 & D1 & M1 & C1 & N1 & _); [|done|by intros k ?%elem_of_nil|].
  { rewrite Hc1. cbn. callST ltac:(unfold get_channel; rewrite Hx1; reflexivity). callST ltac:(reflexivity). reflexivity. }
  set (h1 := mkHeap (<[t := ts']> h.(h_topics)) h.(h_channels) h.(h_next)) in E1.
  destruct (channel_added h1 c1 c2 x1 x2 Hx1 Hx2 Htimed Hnodes) as (x & E2 & Xn & Xd & _ & Xs & _).
  set (h2 := mkHeap h1.(h_topics) (<[c1 := x]> h1.(h_channels)) h1.(h_next)) in E2.
  destruct (topic_added h1 t t2 ts' ts2 [c1] h2) as (ts & E3 & D3 & M3 & C3 & N3 & _); [apply lookup_insert_eq|cbn; by rewrite lookup_insert_ne|done| |done| |].
  - rewrite Hc2, C1. cbn. callST ltac:(unfold get_channel; cbn; rewrite Hx2; reflexivity).
    callST ltac:(callST ltac:(unfold get_channel; cbn; rewrite Hx1; reflexivity); rewrite bool_decide_eq_true_2 by done;
      callST ltac:(callST ltac:(exact E2); reflexivity); callST ltac:(reflexivity); reflexivity). reflexivity.
  - intros k Hk. rewrite N1 in Hk. cbn in Hk. apply list_elem_of_singleton in Hk as ->. cbn. rewrite lookup_insert_ne by done. by eexists.
  - eexists _, ts, x. split; [callST ltac:(exact E1); exact E3|]. cbn. rewrite !lookup_insert_eq, !lookup_insert_ne by done.
    split_and!; try done; cbn in *.
    + by rewrite D3, D1.
    + by rewrite M3, M1.
    + by rewrite N3, N1.
Qed.

End alias.

Section query.
Context {W V : Type} `{Web W, Semver V, ClusterJSON, GoSort}.
Context (url_Parse : bytes → res string URL) (Quote : bytes → string).
Notation producer := (Producer V).
Notation decoded := (list (TopicStats * list ChannelStats)).
Notation stats_map := (gmap (list Byte.byte) nat).
Implicit Types (h : heap) (m : stats_map).

Definition all_channels (sel : bytes) (rs : list (producer * decoded)) : list (bytes * ChannelStats) :=
  r ← rs; node_channels (HTTPAddress r.1) (Hostname r.1) sel r.2.
Definition all_topics (sel : bytes) (rs : list (producer * decoded)) : list ((bytes * bytes) * (TopicStats * list ChannelStats)) :=
  r ← rs; ((HTTPAddress r.1, Hostname r.1),.) <$> kept sel r.2.

Lemma add_nodes_ok sel rs : ∀ done m h list_ shown, table_ok done [] m h → topics_fresh h → Forall (λ r, timed_topics r.2) rs →
  Forall2 (topic_shown m h) list_ shown →
  ∃ list' m' h', add_nodes sel rs list_ m h = Some ((list', m'), h') ∧ table_ok (done ++ all_channels sel rs) [] m' h' ∧
    Forall2 (topic_shown m' h') list' (shown ++ all_topics sel rs).
Proof.
  induction rs as [|[p topics] rs IH]; intros done m h list_ shown Ht Hf Htimed Hl; cbn [add_nodes].
  - exists list_, m, h. split; [done|]. cbn. by rewrite !app_nil_r.
  - apply Forall_cons in Htimed as [Htopics Htimed].
    destruct (add_node_ok (HTTPAddress p) (Hostname p) sel topics done m h list_ shown Ht Hf Htopics Hl) as (l1 & m1 & h1 & E1 & Ht1 & Hf1 & Hl1).
    destruct (IH _ m1 h1 l1 _ Ht1 Hf1 Htimed Hl1) as (l2 & m2 & h2 & E2 & Ht2 & Hl2).
    exists l2, m2, h2. split; [callST ltac:(exact E1); exact E2|]. cbn. by rewrite <- !app_assoc in *.
Qed.

(** What is reported of [rs]: the table of the channels and the topics. *)
Record stats_of (sel : bytes) (rs : list (producer * decoded)) h (r : list nat * stats_map) : Prop := {
  st_keys : ∀ k, is_Some (r.2 !! k) ↔ ∃ c, (k, c) ∈ all_channels sel rs;
  st_sum : ∀ k l, r.2 !! k = Some l → ∃ x ls, h.(h_channels) !! l = Some x ∧ sum_of (of_key k (all_channels sel rs)) x ∧
    x.(chs_NodeStats) ≡ₚ ls ∧ Forall2 (settled r.2 h) ls (of_key k (all_channels sel rs));
  st_topics : ∃ ls, r.1 ≡ₚ ls ∧ Forall2 (topic_shown r.2 h) ls (all_topics sel rs);
  st_sorted : StronglySorted (λ l l', bytes_le (host_of h l) (host_of h l')) r.1;
}.

Notation get_stats sel chan incl now w :=
  (λ i p, GETV1 url_Parse cj_https_port Quote (unmarshal_stats now) i (stats_endpoint (HTTPAddress p) sel chan incl) w).


End query.
End ClusterStats.
