(* ===== verification/Directory.v ===== *)
(** * nsqadmin and nsqlookupd together

    The web of [HttpClient] with nsqlookupd on it: a request to the address of
    one is routed to its handlers, on its registration database. A topic that
    is deleted through nsqadmin is gone from every nsqlookupd
    ([topic_deleted_everywhere]). The queries that nsqadmin makes are read
    back as they were meant ([query_roundtrip]). *)
From stdpp Require Import base gmap list strings.
From Stdlib Require Import ZArith Lia.
From S2P Require Import Prelude.
From S2P Require Import Text.
From S2P Require Import Decimal.
From S2P Require Import Wire.
From S2P Require Import HttpApi.
From S2P Require Import HttpClient.
From S2P Require Import RegistrationDB.
From S2P Require Import LookupProtocol.
From S2P Require Import LookupHTTP.
From S2P Require Import LookupHTTPProps.
From S2P Require Import Order.
From S2P Require Import ClusterTypes.
From S2P Require Import ClusterInfo.
From S2P Require Import ClusterProps.
Set Default Goal Selector "!".
Local Open Scope Z_scope.

Module Directory.
Import Wire HttpApi HttpClient RegDB LookupProtocol LookupHTTP LookupHTTPSpec Order Cluster ClusterInfo ClusterSpec.

(** ** Query strings *)

(** The parameters of a query as they are written. *)
Definition encode (kvs : list (bytes * bytes)) : bytes :=
  Split.join ampersand ((λ kv, QueryEscape kv.1 ++ equals :: QueryEscape kv.2) <$> kvs).
Definition add_param (m : gmap (list Byte.byte) (list bytes)) (kv : bytes * bytes) : gmap (list Byte.byte) (list bytes) :=
  <[kv.1 := default [] (m !! kv.1) ++ [kv.2]]> m.

Definition clean (b : byte) : bool := negb (bool_decide (b = ampersand) || bool_decide (b = semicolon) || bool_decide (b = equals)).

Lemma escape_byte_clean b : forallb clean (escape_byte b) = true.
Proof. by destruct b. Qed.

Lemma QueryEscape_clean s b : b ∈ QueryEscape s → clean b = true.
Proof.
  unfold QueryEscape. rewrite list_elem_of_bind. intros (c & Hb & _). pose proof (escape_byte_clean c) as Hc.
  apply Is_true_true, forallb_True in Hc. rewrite Forall_forall in Hc. by apply Is_true_true, Hc.
Qed.

Lemma clean_not b : clean b = true → b ≠ ampersand ∧ b ≠ semicolon ∧ b ≠ equals.
Proof. unfold clean. intros Hb%negb_true_iff. apply orb_false_iff in Hb as [Hb ?]. apply orb_false_iff in Hb as [H1 H2]. split_and!; by eapply bool_decide_eq_false_1. Qed.

Lemma cut_app sep l r : sep ∉ l → cut sep (l ++ sep :: r) = (l, r).
Proof.
  induction l as [|b l IH]; intros Hl; cbn; [by rewrite bool_decide_eq_true_2|].
  apply not_elem_of_cons in Hl as [Hb Hl]. rewrite bool_decide_eq_false_2 by done. by rewrite IH.
Qed.

Lemma parse_pair_encoded m k v : parse_pair m (QueryEscape k ++ equals :: QueryEscape v) = Some (add_param m (k, v)).
Proof.
  unfold parse_pair. rewrite bool_decide_eq_false_2 by (by destruct (QueryEscape k)). rewrite cut_app.
  2: { intros Hin%QueryEscape_clean. by vm_compute in Hin. }
  by rewrite !query_escape_roundtrip.
Qed.

Lemma foldl_parse (kvs : list (bytes * bytes)) : ∀ m,
  foldl (λ m p, m ← m; parse_pair m p) (Some m) ((λ kv, QueryEscape kv.1 ++ equals :: QueryEscape kv.2) <$> kvs) = Some (foldl add_param m kvs).
Proof.
  induction kvs as [|[k v] kvs IH]; intros m; [done|]. cbn [foldl fmap list_fmap]. cbn [mbind option_bind fst snd].
  rewrite parse_pair_encoded. apply IH.
Qed.

(** The parameters are parsed into exactly these, in order. *)
Lemma ParseQuery_encode kvs : kvs ≠ [] → ParseQuery (encode kvs) = Some (foldl add_param ∅ kvs).
Proof.
  intros Hne. unfold ParseQuery, encode. set (ps := (λ kv, QueryEscape kv.1 ++ equals :: QueryEscape kv.2) <$> kvs).
  assert (Hclean : Forall (λ p, Forall (λ b, b ≠ ampersand ∧ b ≠ semicolon) p) ps).
  { unfold ps. apply Forall_fmap, Forall_forall. intros [k v] _. cbn. apply Forall_forall. intros b [Hb|[->|Hb]%elem_of_cons]%elem_of_app.
    - apply QueryEscape_clean, clean_not in Hb. tauto.
    - by vm_compute.
    - apply QueryEscape_clean, clean_not in Hb. tauto. }
  assert (Hmap : (λ b, if bool_decide (b = semicolon) then ampersand else b) <$> Split.join ampersand ps = Split.join ampersand ps).
  { assert (Hid : ∀ l : bytes, Forall (λ b, b ≠ semicolon) l → (λ b, if bool_decide (b = semicolon) then ampersand else b) <$> l = l).
    { intros l. induction 1 as [|b l Hb _ IH]; cbn; [done|]. rewrite bool_decide_eq_false_2 by done. by f_equal. }
    apply Hid. clear Hid Hne. induction Hclean as [|p ps' Hp Hps IH]; [constructor|].
    assert (Hp' : Forall (λ b, b ≠ semicolon) p) by (eapply Forall_impl; [exact Hp|]; by intros ? [_ ?]).
    destruct ps' as [|p' ps']; [done|]. rewrite Split.join_cons by done. apply Forall_app. split; [done|]. constructor; [by vm_compute|done]. }
  rewrite Hmap, Split.split_join; [apply foldl_parse| |].
  - unfold ps. by destruct kvs.
  - eapply Forall_impl; [exact Hclean|]. intros p Hp Hin. rewrite Forall_forall in Hp. by destruct (Hp _ Hin).
Qed.

Lemma topic_qs_encode topic : topic_qs topic = encode [(tx "topic", topic)].
Proof. done. Qed.
Lemma channel_qs_encode topic channel : channel_qs topic channel = encode [(tx "topic", topic); (tx "channel", channel)].
Proof. unfold channel_qs, topic_qs. by rewrite <- !app_assoc. Qed.
Lemma node_qs_encode topic node : topic_qs topic ++ tx "&node=" ++ QueryEscape node = encode [(tx "topic", topic); (tx "node", node)].
Proof. unfold topic_qs. by rewrite <- !app_assoc. Qed.

(** Whatever reads the parameters of a request with this query finds these
    values. *)
Definition reads (query : bytes) (kvs : list (string * bytes)) : Prop :=
  ∀ req body, req.(RawQuery) = query → ReadAll req = Some body →
  ∃ rp, NewReqParams req = Some rp ∧ Forall (λ kv, ReqParams_Get rp (tx kv.1) = Some (Ok kv.2)) kvs.

Lemma reads_encode kvs : kvs ≠ [] → NoDup (tx <$> kvs.*1) → reads (encode ((λ kv, (tx kv.1, kv.2)) <$> kvs)) kvs.
Proof.
  intros Hne Hnd req body Hq Hb. unfold NewReqParams. rewrite Hq, ParseQuery_encode by (by destruct kvs). cbn [mbind option_bind]. rewrite Hb.
  eexists. split; [reflexivity|]. unfold ReqParams_Get. cbn [Values]. clear Hq Hb Hne.
  assert (Hgen : ∀ m : gmap (list Byte.byte) (list bytes), (∀ k, k ∈ tx <$> kvs.*1 → m !! k = None) →
    (∀ k, k ∉ tx <$> kvs.*1 → foldl add_param m ((λ kv, (tx kv.1, kv.2)) <$> kvs) !! k = m !! k) ∧
    Forall (λ kv, foldl add_param m ((λ kv, (tx kv.1, kv.2)) <$> kvs) !! tx kv.1 = Some [kv.2]) kvs).
  { induction kvs as [|[k v] kvs IH]; intros m Hm; [by split|]. cbn [fmap list_fmap foldl fst snd] in *.
    apply NoDup_cons in Hnd as [Hk Hnd]. destruct (IH Hnd (add_param m (tx k, v))) as [Hout Hin].
    { intros k' Hk'. unfold add_param. cbn [fst snd]. rewrite lookup_insert_ne by (intros <-; done). apply Hm. by right. }
    assert (Ek : add_param m (tx k, v) !! tx k = Some [v]).
    { unfold add_param. cbn [fst snd]. by rewrite lookup_insert_eq, (Hm (tx k)) by by left. }
    split.
    - intros k' Hk'. apply not_elem_of_cons in Hk' as [Hne Hk']. rewrite Hout by done. unfold add_param. cbn [fst snd]. by rewrite lookup_insert_ne.
    - constructor; [|done]. cbn [fst snd]. by rewrite Hout. }
  destruct (Hgen ∅) as [_ H]; [done|]. eapply Forall_impl; [exact H|]. intros [k v] E. cbn [fst snd] in *. by rewrite E.
Qed.

(** C24: The parameters nsqadmin writes into the queries of its changes - the
    topic, the channel, the node - are read by the daemons as they were
    meant, whatever bytes the names consist of. *)
Theorem query_roundtrip topic channel node :
  reads (topic_qs topic) [("topic"%string, topic)] ∧
  reads (channel_qs topic channel) [("topic"%string, topic); ("channel"%string, channel)] ∧
  reads (topic_qs topic ++ tx "&node=" ++ QueryEscape node) [("topic"%string, topic); ("node"%string, node)].
Proof.
  rewrite channel_qs_encode, node_qs_encode. change (topic_qs topic) with (encode [(tx "topic", topic)]).
  split_and!.
  - apply (reads_encode [("topic"%string, topic)]); [done|]. apply NoDup_singleton.
  - apply (reads_encode [("topic"%string, topic); ("channel"%string, channel)]); [done|]. by apply (bool_decide_unpack (NoDup [tx "topic"; tx "channel"])).
  - apply (reads_encode [("topic"%string, topic); ("node"%string, node)]); [done|]. by apply (bool_decide_unpack (NoDup [tx "topic"; tx "node"])).
Qed.

Lemma query_roundtrip_witness :
  ∃ rp, NewReqParams (mkRequest (tx "POST") (tx "/channel/delete") (channel_qs (tx "a&b=%;c d") []) [] 0 [] None) = Some rp ∧
    ReqParams_Get rp (tx "topic") = Some (Ok (tx "a&b=%;c d")) ∧ ReqParams_Get rp (tx "channel") = Some (Ok []).
Proof.
  destruct (query_roundtrip (tx "a&b=%;c d") [] []) as (_ & H & _).
  destruct (H (mkRequest (tx "POST") (tx "/channel/delete") (channel_qs (tx "a&b=%;c d") []) [] 0 [] None) []) as (rp & E & Hr); [reflexivity..|].
  exists rp. rewrite !Forall_cons in Hr. cbn [fst snd] in Hr. tauto.
Defined.

(** ** A web of nsqlookupds *)

Definition slash : byte := byte_of_Z 47.
Definition question : byte := byte_of_Z 63.

(** The address, the path and the query of a plain endpoint. *)
Definition locate (endpoint : bytes) : option (bytes * bytes * bytes) :=
  if HasPrefix endpoint (tx "http://") then
    let '(addr, rest) := cut slash (drop 7 endpoint) in
    let '(path, query) := cut question rest in Some (addr, slash :: path, query)
  else None.

Section web.
Context (range : ∀ A : Type, list A → list A).
Hypothesis range_perm : ∀ A (l : list A), range A l ≡ₚ l.
Context (inactive lifetime : duration) (now : time) (clock : nat → time).
Context (marshal : json → res string bytes) (marshal_error : HttpApi.Err → bytes) (marshal_message : bytes → bytes) (sprint : json → bytes).
(** The text of a status; and all that is not an nsqlookupd. *)
Context (status : Z → bytes).
Context {U : Type} (other_Get : nat → bytes → U → res string http_reply) (other_Post : bytes → U → res string http_reply * U).

Record web := mkWeb { lookupds : gmap (list Byte.byte) RegistrationDB; others : U }.

Notation server := (newHTTPServer range inactive lifetime now clock marshal marshal_error marshal_message sprint).

Definition route (method : string) (path : bytes) : APIHandler RegistrationDB json :=
  match list_find (λ r, r.1.1 = method ∧ tx r.1.2 = path) server with
  | Some (_, (_, _, h)) => h
  | None => LogNotFoundHandler marshal marshal_error marshal_message sprint
  end.

Definition serve (method : string) (path query : bytes) (d : RegistrationDB) : option (http_reply * RegistrationDB) :=
  '(_, s) ← route method path (mkRequest (tx method) path query [] 0 [] None) (mkHttp d [] []);
  r ← head s.(hs_sent);
  Some (mkReply r.(r_code) (status r.(r_code)) r.(r_body), s.(hs_app)).

Definition located (endpoint : bytes) (w : web) : option (bytes * bytes * bytes * RegistrationDB) :=
  '(addr, path, query) ← locate endpoint; d ← w.(lookupds) !! addr; Some (addr, path, query, d).

#[export] Instance directory : Web web := {|
  web_Get i endpoint w :=
    match located endpoint w with
    | Some (_, path, query, d) => match serve "GET" path query d with Some (r, _) => Ok r | None => Prelude.Err "EOF"%string end
    | None => other_Get i endpoint w.(others)
    end;
  web_Post endpoint w :=
    match located endpoint w with
    | Some (addr, path, query, d) =>
      match serve "POST" path query d with
      | Some (r, d) => (Ok r, mkWeb (<[addr := d]> w.(lookupds)) w.(others))
      | None => (Prelude.Err "EOF"%string, w)
      end
    | None => let '(r, u) := other_Post endpoint w.(others) in (r, mkWeb w.(lookupds) u)
    end;
|}.

(** ** Deleting a topic *)

(** A database that lost at most keys of the topic, and one without any. *)
Definition keeps (topic : bytes) (d d' : RegistrationDB) : Prop :=
  db_ok d' ∧ ∀ k, d'.(registrationMap) !! k = d.(registrationMap) !! k ∨ topic_keys topic k ∧ d'.(registrationMap) !! k = None.
Definition gone (topic : bytes) (d : RegistrationDB) : Prop := ∀ k, topic_keys topic k → d.(registrationMap) !! k = None.

Definition web_keeps (topic : bytes) (w w' : web) : Prop :=
  ∀ addr, option_Forall2 (λ d d', db_ok d → keeps topic d d') (w.(lookupds) !! addr) (w'.(lookupds) !! addr).
Definition web_gone (topic addr : bytes) (w : web) : Prop := ∀ d, w.(lookupds) !! addr = Some d → gone topic d.
Definition web_ok (w : web) : Prop := map_Forall (λ _, db_ok) w.(lookupds).

Lemma db_keeps_refl topic d : db_ok d → keeps topic d d.
Proof. intros Hok. split; [done|]. by left. Qed.

Lemma db_keeps_trans topic d1 d2 d3 : keeps topic d1 d2 → keeps topic d2 d3 → keeps topic d1 d3.
Proof. intros [Hok1 H1] [Hok2 H2]. split; [done|]. intros k. destruct (H1 k) as [E1|[? E1]], (H2 k) as [E2|[? E2]]; rewrite ?E2, ?E1; tauto. Qed.

Lemma web_keeps_eq topic w w' : lookupds w' = lookupds w → web_keeps topic w w'.
Proof. intros E addr. rewrite E. destruct (lookupds w !! addr); constructor. apply db_keeps_refl. Qed.

Lemma web_keeps_trans topic w1 w2 w3 : web_keeps topic w1 w2 → web_keeps topic w2 w3 → web_keeps topic w1 w3.
Proof.
  intros H1 H2 addr. specialize (H1 addr). specialize (H2 addr). destruct H1 as [d1 d2 Hk1|].
  - inversion H2 as [? d3 Hk2|]; subst. constructor. intros Hok. eapply db_keeps_trans; [by apply Hk1|]. by apply Hk2, Hk1.
  - inversion H2. constructor.
Qed.

Lemma web_keeps_ok topic w w' : web_keeps topic w w' → web_ok w → web_ok w'.
Proof. intros Hk Hok addr d' Hd. specialize (Hk addr). rewrite Hd in Hk. inversion Hk as [d ? H E|]; subst. by eapply H, Hok. Qed.

Lemma web_keeps_gone topic addr w w' : web_ok w → web_keeps topic w w' → web_gone topic addr w → web_gone topic addr w'.
Proof.
  intros Hok Hk Hg d' Hd k Hkey. specialize (Hk addr). rewrite Hd in Hk. inversion Hk as [d ? H E|]; subst.
  destruct (proj2 (H (Hok _ _ (eq_sym E))) k) as [->|[_ ->]]; [|done]. by eapply Hg.
Qed.

(** An nsqlookupd answers a deletion with 200. *)
Lemma serve_delete topic d :
  db_ok d → ∃ body d', serve "POST" (tx "/topic/delete") (topic_qs topic) d = Some (mkReply 200 (status 200) body, d') ∧
    keeps topic d d' ∧ gone topic d'.
Proof.
  intros Hok. set (req := mkRequest (tx "POST") (tx "/topic/delete") (topic_qs topic) [] 0 [] None).
  assert (Harg : arg req "topic" topic).
  { destruct (reads_encode [("topic"%string, topic)]) with (req := req) (body := @nil byte) as (rp & E & Hr); [done|apply NoDup_singleton|done..|].
    exists rp. rewrite Forall_singleton in Hr. done. }
  destruct (delete_topic_ok range range_perm d req topic Hok Harg) as (d' & E & Hok' & _ & Hm).
  exists [], d'. split_and!.
  - unfold serve. assert (Hr : route "POST" (tx "/topic/delete") = v1 marshal marshal_error marshal_message sprint (doDeleteTopic range)) by done.
    rewrite Hr. fold req. unfold v1. by rewrite (decorate_v1_ok _ _ _ _ _ _ (mkHttp d [] []) _ _ E).
  - split; [done|]. intros k. rewrite Hm. destruct (decide _); [by right|by left].
  - intros k Hk. rewrite Hm. by rewrite decide_True.
Qed.

Lemma locate_endpoint addr uri qs :
  slash ∉ addr → question ∉ tx uri → locate (post_endpoint addr uri qs) = Some (addr, slash :: tx uri, qs).
Proof.
  intros Ha Hu. assert (E : post_endpoint addr uri qs = tx "http://" ++ addr ++ slash :: (tx uri ++ question :: qs)).
  { unfold post_endpoint, endpoint. change (tx "/") with [slash]. change (tx "?") with [question]. by rewrite <- !app_assoc. }
  unfold locate. rewrite E. unfold HasPrefix. rewrite take_app_length, bool_decide_eq_true_2 by done.
  change 7%nat with (length (tx "http://")). rewrite drop_app_length. rewrite (cut_app slash) by done. by rewrite (cut_app question) by done.
Qed.

Lemma locate_https e : HasPrefix e (tx "https") = true → locate e = None.
Proof.
  unfold locate, HasPrefix. intros He%bool_decide_eq_true. case_bool_decide as Hh; [|done]. exfalso. cbn in He, Hh.
  destruct e as [|? [|? [|? [|? [|? e]]]]]; try done. injection He as -> -> -> -> ->. done.
Qed.

Section post.
Context (url_Parse : bytes → res string URL) (unmarshal_port : bytes → res string Z) (Quote : bytes → string).

(** A deletion of the topic is posted to an address without slashes. *)
Lemma post_delete topic addr w :
  slash ∉ addr → web_ok w →
  ∃ err w', POSTV1 url_Parse unmarshal_port Quote (post_endpoint addr "topic/delete" (topic_qs topic)) w = Some (err, w') ∧
    web_keeps topic w w' ∧ web_gone topic addr w'.
Proof.
  intros Ha Hok. set (e := post_endpoint addr "topic/delete" (topic_qs topic)).
  assert (El : locate e = Some (addr, tx "/topic/delete", topic_qs topic)) by (apply locate_endpoint; [done|apply (bool_decide_unpack (question ∉ tx "topic/delete")); by vm_compute]).
  destruct (lookupds w !! addr) as [d|] eqn:Ed.
  - assert (Hl : located e w = Some (addr, tx "/topic/delete", topic_qs topic, d)) by (unfold located; rewrite El; cbn; by rewrite Ed).
    destruct (serve_delete topic d (Hok _ _ Ed)) as (body & d' & Es & Hk & Hg).
    exists None, (mkWeb (<[addr := d']> (lookupds w)) (others w)). split_and!.
    + unfold POSTV1. cbn [post_retry]. unfold mbind at 1, ST_bind. cbn [web_Post directory]. rewrite Hl, Es. done.
    + intros a. cbn. destruct (decide (a = addr)) as [->|Hne]; [rewrite lookup_insert_eq, Ed; by constructor|].
      rewrite lookup_insert_ne by done. destruct (lookupds w !! a); constructor. apply db_keeps_refl.
    + intros x. cbn. rewrite lookup_insert_eq. by intros [= <-].
  - assert (Hl : located e w = None) by (unfold located; rewrite El; cbn; by rewrite Ed).
    assert (Hg : ∀ w', lookupds w' = lookupds w → web_gone topic addr w') by (intros w' Ew x; rewrite Ew, Ed; done).
    destruct (other_Post e (others w)) as [r u] eqn:Eo.
    unfold POSTV1. cbn [post_retry]. unfold mbind, ST_bind. cbn [web_Post directory]. rewrite Hl, Eo.
    destruct (judge url_Parse unmarshal_port Quote e r) as [[b|e2]|err] eqn:Ej.
    + eexists _, _. split; [done|]. split; [by apply web_keeps_eq|by apply Hg].
    + pose proof (judge_again _ _ _ _ _ _ Ej) as [_ Hs]. set (w1 := mkWeb (lookupds w) u).
      assert (Hl2 : located e2 w1 = None) by (unfold located; by rewrite (locate_https e2)). rewrite Hl2.
      destruct (other_Post e2 (others w1)) as [r2 u2]. destruct (judge _ _ _ e2 r2) as [[b|e3]|err] eqn:Ej2.
      * eexists _, _. split; [done|]. split; [by apply web_keeps_eq|by apply Hg].
      * by apply judge_https in Ej2.
      * eexists _, _. split; [done|]. split; [by apply web_keeps_eq|by apply Hg].
    + eexists _, _. split; [done|]. split; [by apply web_keeps_eq|by apply Hg].
Qed.

End post.

Section cluster.
Context {V : Type} `{Semver V, ClusterJSON, GoSort}.
Context (sched : ∀ A : Type, list A → list A) (url_Parse : bytes → res string URL) (Quote : bytes → string).

Lemma post_all_delete topic addrs : ∀ w,
  Forall (λ addr, slash ∉ addr) addrs → web_ok w →
  ∃ errs w', post_all url_Parse Quote ((λ addr, post_endpoint addr "topic/delete" (topic_qs topic)) <$> addrs) w = Some (errs, w') ∧
    web_keeps topic w w' ∧ ∀ addr, addr ∈ addrs → web_gone topic addr w'.
Proof.
  induction addrs as [|addr addrs IH]; intros w Ha Hok.
  { exists [], w. split_and!; [done|by apply web_keeps_eq|]. intros a Hin. by apply elem_of_nil in Hin. }
  apply Forall_cons in Ha as [Ha Has].
  destruct (post_delete url_Parse cj_https_port Quote topic addr w Ha Hok) as (err & w1 & E1 & Hk1 & Hg1).
  destruct (IH w1 Has (web_keeps_ok _ _ _ Hk1 Hok)) as (errs & w' & E & Hk & Hg).
  eexists _, w'. split_and!; [|by eapply web_keeps_trans|].
  - cbn [fmap list_fmap post_all]. callST ltac:(exact E1). callST ltac:(exact E). reflexivity.
  - intros a [->|Hin]%elem_of_cons; [|by apply Hg]. eapply web_keeps_gone; [|done..]. by eapply web_keeps_ok.
Qed.

(** A topic is deleted: once the producers are known, whatever they and other
    addresses answer, no nsqlookupd of [addrs] has a key of it. *)
Lemma DeleteTopic_ok topic addrs nsqds w ps perr :
  Forall (λ addr, slash ∉ addr) addrs → web_ok w →
  GetTopicProducers sched url_Parse Quote topic addrs nsqds w = Some (ps, perr) → (∀ m, perr ≠ Some (Failed m)) →
  Forall (λ p : Producer V, slash ∉ HTTPAddress p) ps →
  ∃ err w', DeleteTopic sched url_Parse Quote topic addrs nsqds w = Some (err, w') ∧ (∀ m, err ≠ Some (Failed m)) ∧
    web_keeps topic w w' ∧ ∀ addr, addr ∈ addrs → web_gone topic addr w'.
Proof.
  intros Ha Hok Eq Hp Hps.
  destruct (post_all_delete topic addrs w Ha Hok) as (errs1 & w1 & E1 & Hk1 & Hg1).
  destruct (post_all_delete topic (HTTPAddress <$> ps) w1) as (errs2 & w2 & E2 & Hk2 & _); [by apply Forall_fmap|by eapply web_keeps_ok|].
  rewrite <- list_fmap_compose in E2.
  assert (Hrem : ∀ err errs (k : list string → ST web (option ci_err)) w, (∀ m, err ≠ Some (Failed m)) → ∃ es, remember err errs k w = k es w).
  { intros [[es|m]|] errs k w0 Hf; [by eexists|by destruct (Hf m)|by eexists]. }
  assert (Hlist : ∀ es m, err_list es ≠ Some (Failed m)) by by intros [].
  destruct (Hrem perr [] (λ errs, err ← nsqlookupdPOST url_Parse Quote addrs "topic/delete" (topic_qs topic);
    remember err errs (λ errs, err ← producersPOST url_Parse Quote ps "topic/delete" (topic_qs topic); remember err errs finish)) w Hp) as [es1 R1].
  destruct (Hrem (err_list errs1) es1 (λ errs, err ← producersPOST url_Parse Quote ps "topic/delete" (topic_qs topic); remember err errs finish) w1 (Hlist errs1)) as [es2 R2].
  destruct (Hrem (err_list errs2) es2 finish w2 (Hlist errs2)) as [es3 R3].
  exists (err_list es3), w2. split_and!; [|by apply Hlist|by eapply web_keeps_trans|].
  - unfold DeleteTopic, delete_everywhere. callST ltac:(unfold ask; rewrite Eq; reflexivity). etransitivity; [exact R1|].
    callST ltac:(unfold nsqlookupdPOST; callST ltac:(exact E1); reflexivity). etransitivity; [exact R2|].
    callST ltac:(unfold producersPOST; callST ltac:(exact E2); reflexivity). etransitivity; [exact R3|]. done.
  - intros addr Hin. eapply web_keeps_gone; [|done|by apply Hg1]. by eapply web_keeps_ok.
Qed.


End cluster.

End web.
End Directory.
