(* ===== verification/ClusterDemo.v ===== *)
(** * nsqadmin's view of a cluster on concrete inputs

    Three addresses of which one is down, and a directory with one
    nsqlookupd, to which the theorems of [ClusterProps], [ClusterStats] and
    [Directory] are applied. *)
From stdpp Require Import base gmap list strings sorting.
From Stdlib Require Import ZArith QArith Lia.
From S2P Require Import Prelude.
From S2P Require Import Text.
From S2P Require Import Net.
From S2P Require Import HttpApi.
From S2P Require Import HttpClient.
From S2P Require Import RegistrationDB.
From S2P Require Import LookupHTTPProps.
From S2P Require Import LookupDemo.
From S2P Require Import Order.
From S2P Require Import Aggregate.
From S2P Require Import ClusterTypes.
From S2P Require Import ClusterInfo.
From S2P Require Import ClusterProps.
From S2P Require Import ClusterStats.
From S2P Require Import Directory.
Set Default Goal Selector "!".
Local Open Scope Z_scope.

Module ClusterDemo.
Import LookupDemo HttpClient Order Cluster ClusterInfo ClusterSpec ClusterStats Directory.

#[local] Existing Instance merge_GoSort.

(** Two nodes answer with the request, the third is down. *)
Definition node1 : bytes := tx "node1:4161".
Definition node2 : bytes := tx "node2:4161".
Definition node3 : bytes := tx "node3:4161".
Definition asks (addr endpoint : bytes) : bool := HasPrefix endpoint (tx "http://" ++ addr).

#[local] Instance small_web : Web () := {|
  web_Get _ e _ := if asks node3 e then Err "down"%string else Ok (mkReply 200 (tx "200 OK") e);
  web_Post _ w := (Err "down"%string, w);
|}.

(** Versions are numbers. *)
#[local] Instance versions : Semver Z := {| semver_Parse b := Some (Z.of_nat (length b)); semver_zero := 0; semver_LT := Z.ltb |}.
#[local] Instance versions_laws : SemverLaws Z.
Proof. split; cbn; intros; rewrite ?Z.ltb_lt, ?Z.ltb_ge in *; lia. Qed.

Definition a_producer (host version : string) : raw_producer :=
  mkRawProducer (tx "10.0.0.9:4150") (tx host) (tx host) 4150 4151 (tx version) [tx "events"] [false].
Definition latency : Aggregate.raw_aggregate :=
  Aggregate.mkRaw 10 [Some {["quantile"%string := (99 # 100)%Q; "value"%string := 10%Q]}] [] [] [].
Definition a_channel (depth : Z) : raw_channel :=
  mkRawChannel (mkChannelStats [] [] [] (tx "archive") depth 0 0 0 0 0 0 0 0 false [] [] false None) (Some latency) [].
Definition a_topic (depth : Z) : raw_topic :=
  mkRawTopic (mkTopicStats [] [] (tx "events") depth 0 0 0 [] [] false None) (Some latency) [a_channel depth].

#[local] Instance answers_of : ClusterJSON := {|
  cj_topics b := Ok (if asks node1 b then [tx "events"; tx "archive"] else [tx "events"]);
  cj_channels b := Ok (if asks node1 b then [tx "c2"] else [tx "c1"]);
  cj_producers b := Ok (if asks node1 b then [a_producer "host1" "1.0"; a_producer "host2" "1.0.0"] else [a_producer "host1" "1.0"]);
  cj_topic_names b := Ok [tx "events"];
  cj_info b := Ok (mkInfo (tx "1.0") (tx "host1") (tx "host1") 4151 4150);
  cj_stats b := Ok [a_topic (if asks node1 b then 3 else 4)];
  cj_version b := Ok (tx "1.0");
  cj_https_port b := Ok 4152;
|}.

Definition no_url (b : bytes) : res string URL := Err "parse"%string.
Definition quote (b : bytes) : string := string_of_bytes b.
Definition first_come (A : Type) (l : list A) : list A := l.
Definition last_come (A : Type) (l : list A) : list A := reverse l.

Lemma names_union_witness :
  let all := [node1; node2; node3] in
  ∃ r, GetLookupdTopics first_come no_url quote all () = Some r ∧ GetLookupdTopics last_come no_url quote all () = Some r ∧
    r = ([tx "archive"; tx "events"], Some (ErrList ["down"%string])).
Proof.
  intros all.
  destruct (names_union no_url quote first_come last_come (tx "events") all ()) as [(r & r' & E & E' & _ & Heq) _].
  - intros A l. done.
  - intros A l. apply reverse_Permutation.
  - exists r. vm_compute in E, E'. injection E as <-. injection E' as <-. by vm_compute.
Defined.


Definition two_producers : list (Producer Z) :=
  [mkProducer [] [] (tx "host1") (tx "node1") 4150 4161 [] 1 [] false; mkProducer [] [] (tx "host2") (tx "node2") 4150 4161 [] 1 [] false].

(** The errors, and the depth and the nodes of the archive. *)
Definition archive_of (v : list nat * gmap (list Byte.byte) nat * option ci_err * heap) : option ci_err * option (Z * nat) :=
  (v.1.2, l ← v.1.1.2 !! tx "archive"; c ← v.2.(h_channels) !! l; Some (c.(chs_Depth), length c.(chs_NodeStats))).


Definition agg0 : option Aggregate.E2eProcessingLatencyAggregate := Some (Aggregate.mkAggregate 0 [] [] [] []).
Definition chan (host : string) (depth : Z) : ChannelStats :=
  mkChannelStats (tx host) (tx host) (tx "events") (tx "archive") depth 0 0 0 0 0 0 0 0 false [] [] false agg0.
Definition top (host : string) (depth : Z) (c : nat) : TopicStats :=
  mkTopicStats (tx host) (tx host) (tx "events") depth 0 0 0 [] [c] false agg0.
Definition heap0 : heap :=
  mkHeap {[0%nat := mkTopicStats [] [] (tx "events") 0 0 0 0 [] [] false None; 1%nat := top "n1" 5 3; 2%nat := top "n2" 6 4]}
    {[3%nat := chan "n1" 5; 4%nat := chan "n2" 6]} 5.

Lemma topic_add_aliases_witness :
  ∃ h' x, (_ ← TopicStats_Add 0 1; TopicStats_Add 0 2) heap0 = Some ((), h') ∧
    h'.(h_channels) !! 3%nat = Some x ∧ x.(chs_Depth) = 11 ∧ x.(chs_Node) = tx "*" ∧ x.(chs_NodeStats) = [4%nat].
Proof.
  destruct (topic_add_aliases heap0 0 1 2 3 4 (tx "events") (chan "n1" 5) (chan "n2" 6) (top "n1" 5 3) (top "n2" 6 4))
    as (h' & ts & x & E & _ & _ & _ & _ & _ & _ & Hx & Hd & Hn & Hl); try done; try by eexists.
  by exists h', x.
Defined.

(** A directory of one nsqlookupd that knows the topic; the rest is down. *)
Definition the_web : Web web :=
  directory LookupDemo.in_order (300 * Second) (45 * Second) 200 (λ _, 200) (λ _, Ok []) (λ _, []) id (λ _, []) (λ _, tx "200 OK")
    (U:=()) (λ _ _ _, Err "down"%string) (λ _ u, (Err "down"%string, u)).
Definition one_lookupd : web (U:=()) := mkWeb {[node1 := db1]} ().


End ClusterDemo.
