(* ===== verification/Admin.v ===== *)
(** * nsqadmin (nsqadmin/http.go, notify.go, options.go, nsqadmin.go)

    The options, the HTTP interface with its authorization and notifications,
    and the checks at the start. The cluster is asked and changed through
    [ClusterInfo]; what a request carries besides its query and body is a
    record of its own. [None] is a panic. Logging is left out. *)
From stdpp Require Import base gmap list strings.
From Stdlib Require Import ZArith QArith Lia.
From S2P Require Import Prelude.
From S2P Require Import Text.
From S2P Require Import Paths.
From S2P Require Import Net.
From S2P Require Import Decimal.
From S2P Require Import Wire.
From S2P Require Import HttpApi.
From S2P Require Import HttpClient.
From S2P Require Import Order.
From S2P Require Import NsqdHTTP.
From S2P Require Import ClusterTypes.
From S2P Require Import ClusterInfo.
Set Default Goal Selector "!".
Local Open Scope Z_scope.

Module Admin.
Import Wire HttpApi HttpClient Order Cluster ClusterInfo.

Definition tx := bytes_of_string.
Definition slash : byte := byte_of_Z 47.

(** ** Options (options.go) *)

Record Options := mkOptions {
  LogLevel : Z;
  LogPrefix : bytes;
  HTTPAddress : bytes;
  BasePath : bytes;
  GraphiteURL : bytes;
  ProxyGraphite : bool;
  StatsdPrefix : bytes;
  StatsdCounterFormat : bytes;
  StatsdGaugeFormat : bytes;
  StatsdInterval : duration;
  NSQLookupdHTTPAddresses : list bytes;
  NSQDHTTPAddresses : list bytes;
  HTTPClientConnectTimeout : duration;
  HTTPClientRequestTimeout : duration;
  HTTPClientTLSInsecureSkipVerify : bool;
  HTTPClientTLSRootCAFile : bytes;
  HTTPClientTLSCert : bytes;
  HTTPClientTLSKey : bytes;
  AllowConfigFromCIDR : bytes;
  NotificationHTTPEndpoint : bytes;
  AclHttpHeader : bytes;
  AdminUsers : list bytes;
}.

Definition NewOptions : Options :=
  mkOptions Wire.INFO (tx "[nsqadmin] ") (tx "0.0.0.0:4171") (tx "/") [] false (tx "nsq.%s") (tx "stats.counters.%s.count") (tx "stats.gauges.%s")
    (60 * Second) [] [] (2 * Second) (5 * Second) false [] [] [] (tx "127.0.0.1/8") [] (tx "X-Forwarded-User") [].

Definition set_NSQLookupdHTTPAddresses (x : list bytes) (o : Options) : Options :=
  let 'mkOptions a0 a1 a2 a3 a4 a5 a6 a7 a8 a9 _ a11 a12 a13 a14 a15 a16 a17 a18 a19 a20 a21 := o in
  mkOptions a0 a1 a2 a3 a4 a5 a6 a7 a8 a9 x a11 a12 a13 a14 a15 a16 a17 a18 a19 a20 a21.
Definition set_LogLevel (x : Z) (o : Options) : Options :=
  let 'mkOptions _ a1 a2 a3 a4 a5 a6 a7 a8 a9 a10 a11 a12 a13 a14 a15 a16 a17 a18 a19 a20 a21 := o in
  mkOptions x a1 a2 a3 a4 a5 a6 a7 a8 a9 a10 a11 a12 a13 a14 a15 a16 a17 a18 a19 a20 a21.
Definition set_BasePath (x : bytes) (o : Options) : Options :=
  let 'mkOptions a0 a1 a2 _ a4 a5 a6 a7 a8 a9 a10 a11 a12 a13 a14 a15 a16 a17 a18 a19 a20 a21 := o in
  mkOptions a0 a1 a2 x a4 a5 a6 a7 a8 a9 a10 a11 a12 a13 a14 a15 a16 a17 a18 a19 a20 a21.

(** The fields with their tags [flag] and [cfg]; the logger has none. *)
Definition opt_fields (o : Options) : list (string * string * NsqdHTTP.opt_value) := [
  ("log-level", "", NsqdHTTP.OInt o.(LogLevel));
  ("log-prefix", "", NsqdHTTP.OStr o.(LogPrefix));
  ("http-address", "", NsqdHTTP.OStr o.(HTTPAddress));
  ("base-path", "", NsqdHTTP.OStr o.(BasePath));
  ("graphite-url", "", NsqdHTTP.OStr o.(GraphiteURL));
  ("proxy-graphite", "", NsqdHTTP.OBool o.(ProxyGraphite));
  ("statsd-prefix", "", NsqdHTTP.OStr o.(StatsdPrefix));
  ("statsd-counter-format", "", NsqdHTTP.OStr o.(StatsdCounterFormat));
  ("statsd-gauge-format", "", NsqdHTTP.OStr o.(StatsdGaugeFormat));
  ("statsd-interval", "", NsqdHTTP.OInt o.(StatsdInterval));
  ("lookupd-http-address", "nsqlookupd_http_addresses", NsqdHTTP.OStrs o.(NSQLookupdHTTPAddresses));
  ("nsqd-http-address", "nsqd_http_addresses", NsqdHTTP.OStrs o.(NSQDHTTPAddresses));
  ("http-client-connect-timeout", "", NsqdHTTP.OInt o.(HTTPClientConnectTimeout));
  ("http-client-request-timeout", "", NsqdHTTP.OInt o.(HTTPClientRequestTimeout));
  ("http-client-tls-insecure-skip-verify", "", NsqdHTTP.OBool o.(HTTPClientTLSInsecureSkipVerify));
  ("http-client-tls-root-ca-file", "", NsqdHTTP.OStr o.(HTTPClientTLSRootCAFile));
  ("http-client-tls-cert", "", NsqdHTTP.OStr o.(HTTPClientTLSCert));
  ("http-client-tls-key", "", NsqdHTTP.OStr o.(HTTPClientTLSKey));
  ("allow-config-from-cidr", "", NsqdHTTP.OStr o.(AllowConfigFromCIDR));
  ("notification-http-endpoint", "", NsqdHTTP.OStr o.(NotificationHTTPEndpoint));
  ("acl-http-header", "", NsqdHTTP.OStr o.(AclHttpHeader));
  ("admin-user", "admin_users", NsqdHTTP.OStrs o.(AdminUsers)) ]%string.

Definition getOptByCfgName (o : Options) (name : bytes) : option NsqdHTTP.opt_value := NsqdHTTP.find_opt (opt_fields o) name.

(** ** Paths *)

Definition normalizeBasePath (p : bytes) : bytes :=
  match p with
  | [] => tx "/"
  | b :: _ => Paths.Clean (if bool_decide (b = slash) then p else slash :: p)
  end.

(** ** State *)

Record AdminAction := mkAction {
  aa_Action : string;
  aa_Topic : bytes;
  aa_Channel : bytes;
  aa_Node : bytes;
  aa_Timestamp : Z;
  aa_User : bytes;
  aa_RemoteIP : bytes;
  aa_UserAgent : bytes;
  aa_URL : bytes;
  aa_Via : bytes;
}.

(** The web, the options in force, and the notifications whose goroutines
    wait until [handleAdminActions] takes them. *)
Record NSQAdmin (W : Type) := mkAdmin {
  ad_web : W;
  ad_opts : Options;
  ad_notifications : list AdminAction;
}.
Arguments mkAdmin {W} _ _ _.
Arguments ad_web {W} _.
Arguments ad_opts {W} _.
Arguments ad_notifications {W} _.

(** What else a request carries: the parameters of the route, the headers,
    where it comes from; and the time and [os.Hostname] when it does. *)
Record extras := mkExtras {
  x_ByName : string → bytes;
  x_Header : bytes → bytes;
  x_Host : bytes;
  x_TLS : bool;
  x_RemoteAddr : bytes;
  x_now : time;
  x_hostname : bytes;
}.

Record counterStats := mkCounter { ct_Node : bytes; ct_TopicName : bytes; ct_ChannelName : bytes; ct_MessageCount : Z }.

(** What the handlers marshal; pointers come with their heap. *)
Inductive json {V : Type} :=
| JTopicMap (topics : gmap (list Byte.byte) (list bytes)) (message : string)
| JTopics (topics : list bytes) (message : string)
| JTopic (h : heap) (t : nat) (message : string)
| JChannel (h : heap) (c : option nat) (message : string)
| JNodes (producers : list (Producer V)) (message : string)
| JNode (node : bytes) (h : heap) (topics : list nat) (totalMessages totalClients : Z) (message : string)
| JMessage (message : string)
| JCounter (stats : gmap (list Byte.byte) counterStats) (message : string)
| JRate (rate : bytes)
| JOption (v : NsqdHTTP.opt_value).
Arguments json : clear implicits.

(** What the template of the index page is filled with. *)
Record index_data := mkIndex {
  ix_Version : bytes;
  ix_ProxyGraphite : bool;
  ix_GraphEnabled : bool;
  ix_GraphiteURL : bytes;
  ix_StatsdInterval : Z;
  ix_StatsdCounterFormat : bytes;
  ix_StatsdGaugeFormat : bytes;
  ix_StatsdPrefix : bytes;
  ix_NSQLookupd : list bytes;
  ix_IsAdmin : bool;
}.

Definition version_Binary : bytes := tx "1.1.1-alpha".

Definition maybeWarnMsg (msgs : list string) : string :=
  match msgs with [] => "" | _ => "WARNING: " +:+ join_strings "; " msgs end.

(** A handler may end early with an error. *)
Definition AM (S A : Type) : Type := ST S (res Err A).
#[export] Instance AM_ret {S} : MRet (AM S) := λ A a s, Some (Ok a, s).
#[export] Instance AM_bind {S} : MBind (AM S) := λ A B f m s,
  match m s with
  | Some (Ok a, s) => f a s
  | Some (Prelude.Err e, s) => Some (Prelude.Err e, s)
  | None => None
  end.

Section admin.
Context {W V : Type} `{Web W, Semver V, ClusterJSON, GoSort}.
Context (sched range : ∀ A : Type, list A → list A).
Context (url_Parse : bytes → res string URL) (Quote : bytes → string).
(** The text of the error of a query that cannot be parsed; the JSON bodies
    of requests; what the array of addresses holds beyond them. *)
Context (params_error : request → string).
Context (decode_topic_body : request → res string bytes) (decode_create_body : request → res string (bytes * bytes)) (decode_action_body : request → res string string).
Context (parse_json : bytes → option Unmarshal.value) (beyond : list bytes).
(** Package net; base64; [url.URL.String] of a scheme, a host, a path and a
    query. *)
Context {IP IPNet : Type} (ParseIP : bytes → option IP) (ParseCIDR : bytes → option IPNet) (Contains : IPNet → IP → bool).
Context (DecodeString : bytes → option bytes) (url_String : bytes → bytes → bytes → bytes → bytes).
(** The assets of bindata.go and the template of the index page; the answer
    of graphite, and [%.2f] of a rate divided by a number of seconds. *)
Context (Asset : bytes → option bytes) (render : index_data → bytes).
Context (unmarshal_graphite : bytes → res string (list (list (list (option Q))))) (format_rate : Q → Z → bytes).
(** The request besides its query and body. *)
Context (x : extras).

Notation producer := (Producer V).
Notation admin := (NSQAdmin W).
Notation M := (AM admin).
Notation data := (HttpApi.data (json V)).

Definition throw {A} (code : Z) (text : string) : M A := λ s, Some (Prelude.Err (mkErr code text), s).
Definition throwIf (b : bool) (code : Z) (text : string) : M () := if b then throw code text else mret ().
Definition get : M admin := λ s, Some (Ok s, s).
Definition getOpts : M Options := λ s, Some (Ok s.(ad_opts), s).
Definition crash {A} : M A := λ _, None.
Definition lift_option {A} (o : option A) : M A := λ s, match o with Some a => Some (Ok a, s) | None => None end.
(** A query of the cluster, a change of it, and a query that makes objects. *)
Definition query {A} (q : W → option A) : M A := λ s, a ← q s.(ad_web); Some (Ok a, s).
Definition change {A} (m : ST W A) : M A := λ s, '(a, w) ← m s.(ad_web); Some (Ok a, mkAdmin w s.(ad_opts) s.(ad_notifications)).
Definition query_heap {A} (q : W → ST heap A) (h : heap) : M (A * heap) := λ s, r ← q s.(ad_web) h; Some (Ok r, s).

Definition UPSTREAM_ERROR (e : string) : string := "UPSTREAM_ERROR: " +:+ e.
(** A partial error becomes a message, another one ends the request. *)
Definition warn (err : option ci_err) (messages : list string) : M (list string) :=
  match err with
  | None => mret messages
  | Some (Failed e) => throw 502 (UPSTREAM_ERROR e)
  | Some (ErrList l) => mret (messages ++ [ErrList_Error l])
  end.

(** ** Authorization and notifications *)

Definition isAuthorizedAdminRequest (o : Options) : bool :=
  match o.(AdminUsers) with
  | [] => true
  | users => existsb (λ v, bool_decide (v = x.(x_Header) o.(AclHttpHeader))) users
  end.

Definition require_admin : M () := o ← getOpts; throwIf (negb (isAuthorizedAdminRequest o)) 403 "FORBIDDEN".

(** [strings.SplitN(s, sep, 2)] with two parts. *)
Definition split2 (sep : byte) (s : bytes) : option (bytes * bytes) := if bool_decide (sep ∈ s) then Some (cut sep s) else None.

Definition basicAuthUser : bytes :=
  match split2 space (x.(x_Header) (tx "Authorization")) with
  | Some (scheme, credentials) =>
    if bool_decide (scheme ≠ tx "Basic") then [] else
    match DecodeString credentials with
    | Some b => match split2 Net.colon b with Some (user, _) => user | None => [] end
    | None => []
    end
  | None => []
  end.

Definition notifyAdminAction (action : string) (topic channel node : bytes) (req : request) : M () := λ s,
  if bool_decide (s.(ad_opts).(NotificationHTTPEndpoint) = []) then Some (Ok (), s) else
  let scheme := if x.(x_TLS) || bool_decide (x.(x_Header) (tx "X-Scheme") = tx "https") then tx "https" else tx "http" in
  let a := mkAction action topic channel node (x.(x_now) / Second) basicAuthUser x.(x_RemoteAddr) (x.(x_Header) (tx "User-Agent"))
             (url_String scheme x.(x_Host) req.(Path) req.(RawQuery)) x.(x_hostname) in
  Some (Ok (), mkAdmin s.(ad_web) s.(ad_opts) (s.(ad_notifications) ++ [a])).

(** ** Queries *)

Definition pingHandler (req : request) : M data := mret (DString (tx "OK")).

Definition index_page (o : Options) : index_data :=
  mkIndex version_Binary o.(ProxyGraphite) (negb (bool_decide (o.(GraphiteURL) = []))) o.(GraphiteURL) (Z.quot o.(StatsdInterval) Second)
    o.(StatsdCounterFormat) o.(StatsdGaugeFormat) o.(StatsdPrefix) o.(NSQLookupdHTTPAddresses) (isAuthorizedAdminRequest o).
(** The page is written before the handler returns. *)
Definition indexHandler : APIHandler admin (json V) := λ req h,
  Some (Some (Ok DNil), mkHttp h.(hs_app) (h.(hs_sent) ++ [mkResponse 200 false (render (index_page h.(hs_app).(ad_opts)))]) h.(hs_log)).

Definition staticAssetHandler (req : request) : M data :=
  match Asset (x.(x_ByName) "asset") with
  | None => throw 404 "NOT_FOUND"
  | Some asset => mret (DString asset)
  end.

(** The topics that nobody produces, with their channels. *)
Fixpoint inactive_topics (topics : list bytes) (addrs : list bytes) (m : gmap (list Byte.byte) (list bytes)) : M (gmap (list Byte.byte) (list bytes)) :=
  match topics with
  | [] => mret m
  | topicName :: topics =>
    '(producers, _) ← query (GetLookupdTopicProducers sched url_Parse Quote topicName addrs);
    m ← (if bool_decide (length producers = 0%nat) then
           '(topicChannels, _) ← query (GetLookupdTopicChannels sched url_Parse Quote topicName addrs);
           mret (<[topicName := topicChannels]> m)
         else mret m);
    inactive_topics topics addrs m
  end.

Definition topicsHandler (req : request) : M data :=
  match NewReqParams req with
  | None => throw 400 (params_error req)
  | Some rp =>
    o ← getOpts;
    '(topics, err) ← query (if bool_decide (length o.(NSQLookupdHTTPAddresses) ≠ 0%nat)
                            then GetLookupdTopics sched url_Parse Quote o.(NSQLookupdHTTPAddresses)
                            else GetNSQDTopics sched url_Parse Quote o.(NSQDHTTPAddresses));
    messages ← warn err [];
    inactive ← lift_option (ReqParams_Get rp (tx "inactive"));
    if bool_decide (match inactive with Ok v => v | Prelude.Err _ => [] end = tx "true") then
      m ← (if bool_decide (length o.(NSQLookupdHTTPAddresses) = 0%nat) then mret ∅
           else inactive_topics topics o.(NSQLookupdHTTPAddresses) ∅);
      mret (DJson (JTopicMap m (maybeWarnMsg messages)))
    else mret (DJson (JTopics topics (maybeWarnMsg messages)))
  end.

(** The producers of the topic and their statistics. *)
Definition topic_stats (topicName channelName : bytes) (includeClients : bool) : M (list nat * gmap (list Byte.byte) nat * list string * heap) :=
  o ← getOpts;
  '(producers, err) ← query (GetTopicProducers sched url_Parse Quote topicName o.(NSQLookupdHTTPAddresses) o.(NSQDHTTPAddresses));
  messages ← warn err [];
  '(topicStats, channelStats, err, h) ← query_heap (λ w h, GetNSQDStats sched url_Parse Quote producers topicName channelName includeClients x.(x_now) w h) empty_heap;
  messages ← warn err messages;
  mret (topicStats, channelStats, messages, h).

Fixpoint add_all_topics (t : nat) (ts : list nat) : ST heap () :=
  match ts with
  | [] => mret ()
  | a :: ts => _ ← TopicStats_Add t a; add_all_topics t ts
  end.

Definition topicHandler (req : request) : M data :=
  let topicName := x.(x_ByName) "topic" in
  '(topicStats, _, messages, h) ← topic_stats topicName [] false;
  '(t, h) ← query_heap (λ _, t ← new_topic (mkTopicStats [] [] topicName 0 0 0 0 [] [] false None); _ ← add_all_topics t topicStats; mret t) h;
  mret (DJson (JTopic h t (maybeWarnMsg messages))).

Definition channelHandler (req : request) : M data :=
  let topicName := x.(x_ByName) "topic" in
  let channelName := x.(x_ByName) "channel" in
  '(_, channelStats, messages, h) ← topic_stats topicName channelName true;
  mret (DJson (JChannel h (channelStats !! channelName) (maybeWarnMsg messages))).

Definition all_producers : M (list producer * list string) :=
  o ← getOpts;
  '(producers, err) ← query (GetProducers sched url_Parse Quote o.(NSQLookupdHTTPAddresses) o.(NSQDHTTPAddresses));
  messages ← warn err [];
  mret (producers, messages).

Definition nodesHandler (req : request) : M data :=
  '(producers, messages) ← all_producers;
  mret (DJson (JNodes producers (maybeWarnMsg messages))).

(** [totalMessages] and [totalClients]. *)
Fixpoint channel_clients (h : heap) (cs : list nat) (total : Z) : option Z :=
  match cs with
  | [] => Some total
  | c :: cs => c ← h.(h_channels) !! c; channel_clients h cs (i64 (total + Z.of_nat (length c.(chs_Clients))))
  end.
Fixpoint node_totals (h : heap) (ts : list nat) (totalMessages totalClients : Z) : option (Z * Z) :=
  match ts with
  | [] => Some (totalMessages, totalClients)
  | t :: ts =>
    t ← h.(h_topics) !! t;
    totalClients ← channel_clients h t.(ts_Channels) totalClients;
    node_totals h ts (i64 (totalMessages + t.(ts_MessageCount))) totalClients
  end.

Definition nodeHandler (req : request) : M data :=
  let node := x.(x_ByName) "node" in
  '(producers, messages) ← all_producers;
  match Search producers node with
  | None => throw 404 "NODE_NOT_FOUND"
  | Some producer =>
    '(topicStats, _, err, h) ← query_heap (λ w h, GetNSQDStats sched url_Parse Quote [producer] [] [] true x.(x_now) w h) empty_heap;
    match err with
    | Some e => throw 502 (UPSTREAM_ERROR (Error e))
    | None =>
      '(totalMessages, totalClients) ← lift_option (node_totals h topicStats 0 0);
      mret (DJson (JNode node h topicStats totalMessages totalClients (maybeWarnMsg messages)))
    end
  end.

(** ** Changes *)

Definition message_of (err : option ci_err) (k : M ()) : M data :=
  messages ← warn err [];
  _ ← k;
  mret (DJson (JMessage (maybeWarnMsg messages))).

(** There is no check of the user. *)
Definition tombstoneNodeForTopicHandler (req : request) : M data :=
  let node := x.(x_ByName) "node" in
  match decode_topic_body req with
  | Prelude.Err _ => throw 400 "INVALID_BODY"
  | Ok topic =>
    _ ← throwIf (negb (Names.IsValidTopicName topic)) 400 "INVALID_TOPIC";
    o ← getOpts;
    err ← change (TombstoneNodeForTopic (V:=V) sched url_Parse Quote topic node o.(NSQLookupdHTTPAddresses));
    message_of err (notifyAdminAction "tombstone_topic_producer" topic [] node req)
  end.

Definition createTopicChannelHandler (req : request) : M data :=
  _ ← require_admin;
  match decode_create_body req with
  | Prelude.Err e => throw 400 e
  | Ok (topic, channel) =>
    _ ← throwIf (negb (Names.IsValidTopicName topic)) 400 "INVALID_TOPIC";
    _ ← throwIf (bool_decide (0 < length channel)%nat && negb (Names.IsValidChannelName channel)) 400 "INVALID_CHANNEL";
    o ← getOpts;
    err ← change (CreateTopicChannel (V:=V) sched url_Parse Quote topic channel o.(NSQLookupdHTTPAddresses));
    message_of err (
      _ ← notifyAdminAction "create_topic" topic [] [] req;
      if bool_decide (0 < length channel)%nat then notifyAdminAction "create_channel" topic channel [] req else mret ())
  end.

Definition deleteTopicHandler (req : request) : M data :=
  _ ← require_admin;
  let topicName := x.(x_ByName) "topic" in
  o ← getOpts;
  err ← change (DeleteTopic (V:=V) sched url_Parse Quote topicName o.(NSQLookupdHTTPAddresses) o.(NSQDHTTPAddresses));
  message_of err (notifyAdminAction "delete_topic" topicName [] [] req).

Definition deleteChannelHandler (req : request) : M data :=
  _ ← require_admin;
  let topicName := x.(x_ByName) "topic" in
  let channelName := x.(x_ByName) "channel" in
  o ← getOpts;
  err ← change (DeleteChannel (V:=V) sched url_Parse Quote topicName channelName o.(NSQLookupdHTTPAddresses) o.(NSQDHTTPAddresses));
  message_of err (notifyAdminAction "delete_channel" topicName channelName [] req).

(** One action, on the channel if there is one; the notification is made
    whether it failed or not. *)
Definition act (on_channel : bytes → bytes → list bytes → list bytes → ST W (option ci_err)) (on_topic : bytes → list bytes → list bytes → ST W (option ci_err))
    (channel_action topic_action : string) (topicName channelName : bytes) (req : request) : M (option ci_err) :=
  o ← getOpts;
  if bool_decide (channelName ≠ []) then
    err ← change (on_channel topicName channelName o.(NSQLookupdHTTPAddresses) o.(NSQDHTTPAddresses));
    _ ← notifyAdminAction channel_action topicName channelName [] req;
    mret err
  else
    err ← change (on_topic topicName o.(NSQLookupdHTTPAddresses) o.(NSQDHTTPAddresses));
    _ ← notifyAdminAction topic_action topicName [] [] req;
    mret err.

Definition topicChannelAction (req : request) (topicName channelName : bytes) : M data :=
  _ ← require_admin;
  match decode_action_body req with
  | Prelude.Err e => throw 400 e
  | Ok action =>
    err ← (if bool_decide (action = "pause"%string) then
             act (PauseChannel (V:=V) sched url_Parse Quote) (PauseTopic (V:=V) sched url_Parse Quote) "pause_channel" "pause_topic" topicName channelName req
           else if bool_decide (action = "unpause"%string) then
             act (UnPauseChannel (V:=V) sched url_Parse Quote) (UnPauseTopic (V:=V) sched url_Parse Quote) "unpause_channel" "unpause_topic" topicName channelName req
           else if bool_decide (action = "empty"%string) then
             act (EmptyChannel (V:=V) sched url_Parse Quote) (EmptyTopic (V:=V) sched url_Parse Quote) "empty_channel" "empty_topic" topicName channelName req
           else throw 400 "INVALID_ACTION");
    message_of err (mret ())
  end.
Definition topicActionHandler (req : request) : M data := topicChannelAction req (x.(x_ByName) "topic") [].
Definition channelActionHandler (req : request) : M data := topicChannelAction req (x.(x_ByName) "topic") (x.(x_ByName) "channel").

(** ** The counter and the rate *)

Definition count_node (h : heap) (c : ChannelStats) (stats : gmap (list Byte.byte) counterStats) (l : nat) : option (gmap (list Byte.byte) counterStats) :=
  n ← h.(h_channels) !! l;
  let key := c.(chs_TopicName) ++ tx ":" ++ c.(chs_ChannelName) ++ tx ":" ++ n.(chs_Node) in
  let s := default (mkCounter n.(chs_Node) c.(chs_TopicName) c.(chs_ChannelName) 0) (stats !! key) in
  Some (<[key := mkCounter s.(ct_Node) s.(ct_TopicName) s.(ct_ChannelName) (i64 (s.(ct_MessageCount) + n.(chs_MessageCount)))]> stats).
Fixpoint count_nodes (h : heap) (c : ChannelStats) (stats : gmap (list Byte.byte) counterStats) (ls : list nat) : option (gmap (list Byte.byte) counterStats) :=
  match ls with
  | [] => Some stats
  | l :: ls => stats ← count_node h c stats l; count_nodes h c stats ls
  end.
Fixpoint count_channels (h : heap) (stats : gmap (list Byte.byte) counterStats) (cs : list nat) : option (gmap (list Byte.byte) counterStats) :=
  match cs with
  | [] => Some stats
  | c :: cs => c ← h.(h_channels) !! c; stats ← count_nodes h c stats c.(chs_NodeStats); count_channels h stats cs
  end.

Definition counterHandler (req : request) : M data :=
  '(producers, messages) ← all_producers;
  '(_, channelStats, err, h) ← query_heap (λ w h, GetNSQDStats sched url_Parse Quote producers [] [] false x.(x_now) w h) empty_heap;
  messages ← warn err messages;
  stats ← lift_option (count_channels h ∅ (range _ (map_to_list channelStats).*2));
  mret (DJson (JCounter stats (maybeWarnMsg messages))).

Definition graphite_url (o : Options) (target : bytes) : bytes :=
  let seconds d := tx "-" ++ Decimal.fmt_d d ++ tx "sec" in
  o.(GraphiteURL) ++ tx "/render?format=json&from=" ++ QueryEscape (seconds (Z.quot (i64 (o.(StatsdInterval) * 2)) Second)) ++
  tx "&target=" ++ QueryEscape target ++ tx "&until=" ++ QueryEscape (seconds (Z.quot o.(StatsdInterval) Second)).

Definition graphiteHandler (req : request) : M data :=
  match NewReqParams req with
  | None => throw 400 "INVALID_REQUEST"
  | Some rp =>
    metric ← lift_option (ReqParams_Get rp (tx "metric"));
    _ ← throwIf (match metric with Ok m => bool_decide (m ≠ tx "rate") | Prelude.Err _ => true end) 400 "INVALID_ARG_METRIC";
    target ← lift_option (ReqParams_Get rp (tx "target"));
    match target with
    | Prelude.Err _ => throw 400 "INVALID_ARG_TARGET"
    | Ok target =>
      o ← getOpts;
      r ← query (GETV1 url_Parse cj_https_port Quote (no_panic unmarshal_graphite) 0 (graphite_url o target));
      match r with
      | Prelude.Err _ => throw 500 "INTERNAL_ERROR"
      | Ok response =>
        rate ← lift_option (datapoints ← response !! 0%nat; point ← datapoints !! 0%nat; value ← point !! 0%nat; value);
        mret (DJson (JRate (if negb (Qle_bool 0 rate) then tx "N/A" else format_rate rate (Z.quot o.(StatsdInterval) Second))))
      end
    end
  end.

(** ** Options at run time *)

(** Whether the request comes from the network that may configure. *)
Definition check_remote : M () :=
  o ← getOpts;
  if bool_decide (o.(AllowConfigFromCIDR) = []) then mret () else
  match Net.SplitHostPort x.(x_RemoteAddr) with
  | Prelude.Err _ => throw 400 "INVALID_REMOTE_ADDR"
  | Ok (addr, _) =>
    match ParseIP addr with
    | None => throw 400 "INVALID_REMOTE_ADDR"
    | Some ip =>
      ipnet ← lift_option (ParseCIDR o.(AllowConfigFromCIDR));
      throwIf (negb (Contains ipnet ip)) 403 "FORBIDDEN"
    end
  end.

Definition swapOpts (o : Options) : M () := λ s, Some (Ok (), mkAdmin s.(ad_web) o s.(ad_notifications)).
(** The options in force share the array of the addresses with the copy that
    is decoded into. *)
Definition write_shared (addrs : list bytes) : M () := o ← getOpts; swapOpts (set_NSQLookupdHTTPAddresses addrs o).

Definition config_value (opt body : bytes) (o : Options) : M Options :=
  if bool_decide (opt = tx "nsqlookupd_http_addresses") then
    match parse_json body with
    | None => throw 400 "INVALID_VALUE"
    | Some v =>
      _ ← write_shared (Unmarshal.shared_after v o.(NSQLookupdHTTPAddresses));
      match Unmarshal.unmarshal v o.(NSQLookupdHTTPAddresses) beyond with
      | None => throw 400 "INVALID_VALUE"
      | Some addrs => mret (set_NSQLookupdHTTPAddresses addrs o)
      end
    end
  else if bool_decide (opt = tx "log_level") then
    match ParseLogLevel (string_of_bytes body) with
    | Prelude.Err _ => throw 400 "INVALID_VALUE"
    | Ok level => mret (set_LogLevel level o)
    end
  else throw 400 "INVALID_OPTION".

Definition readMax : Z := 1024 * 1024 + 1.

Definition doConfig (req : request) : M data :=
  let opt := x.(x_ByName) "opt" in
  _ ← check_remote;
  _ ← (if bool_decide (req.(Method) = tx "PUT") then
         match ReadLimited readMax req with
         | None => throw 500 "INTERNAL_ERROR"
         | Some body =>
           _ ← throwIf ((Z.of_nat (length body) =? readMax) || bool_decide (body = [])) 413 "INVALID_VALUE";
           o ← getOpts;
           o ← config_value opt body o;
           swapOpts o
         end
       else mret ());
  o ← getOpts;
  match getOptByCfgName o opt with
  | None => throw 400 "INVALID_OPTION"
  | Some (NsqdHTTP.OStr v) => mret (DString v)
  | Some v => mret (DJson (JOption v))
  end.

(** ** Routes, without the proxy to graphite *)

Context (marshal : json V → res string bytes) (marshal_error : Err → bytes) (marshal_message : bytes → bytes).
Context (sprint : json V → bytes).

Notation V1 := (V1 marshal marshal_error marshal_message sprint).
Definition v1 (f : request → M data) : APIHandler admin (json V) := Decorate (on_app f) [Log; V1].
Definition plain (f : request → M data) : APIHandler admin (json V) := Decorate (on_app f) [Log; PlainText].
Definition page : APIHandler admin (json V) := Decorate indexHandler [Log].

Definition routes : list (string * string * APIHandler admin (json V)) :=
  [("GET", "/", page); ("GET", "/ping", plain pingHandler);
   ("GET", "/topics", page); ("GET", "/topics/:topic", page); ("GET", "/topics/:topic/:channel", page);
   ("GET", "/nodes", page); ("GET", "/nodes/:node", page); ("GET", "/counter", page); ("GET", "/lookup", page);
   ("GET", "/static/:asset", plain staticAssetHandler); ("GET", "/fonts/:asset", plain staticAssetHandler);
   ("GET", "/api/topics", v1 topicsHandler); ("GET", "/api/topics/:topic", v1 topicHandler); ("GET", "/api/topics/:topic/:channel", v1 channelHandler);
   ("GET", "/api/nodes", v1 nodesHandler); ("GET", "/api/nodes/:node", v1 nodeHandler);
   ("POST", "/api/topics", v1 createTopicChannelHandler); ("POST", "/api/topics/:topic", v1 topicActionHandler);
   ("POST", "/api/topics/:topic/:channel", v1 channelActionHandler); ("DELETE", "/api/nodes/:node", v1 tombstoneNodeForTopicHandler);
   ("DELETE", "/api/topics/:topic", v1 deleteTopicHandler); ("DELETE", "/api/topics/:topic/:channel", v1 deleteChannelHandler);
   ("GET", "/api/counter", v1 counterHandler); ("GET", "/api/graphite", v1 graphiteHandler);
   ("GET", "/config/:opt", v1 doConfig); ("PUT", "/config/:opt", v1 doConfig)]%string.

(** The paths are below [BasePath]. *)
Definition NewHTTPServer (basePath : bytes) : list (string * bytes * APIHandler admin (json V)) :=
  (λ r, (r.1.1, Paths.Join basePath (tx r.1.2), r.2)) <$> routes.

End admin.

(** ** The daemon (nsqadmin.go) *)

Section daemon.
Context {W IPNet : Type} (url_Parse : bytes → res string URL) (ParseCIDR : bytes → option IPNet).
(** Certificates and files, the resolver and the listener; errors as text. *)
Context (LoadX509KeyPair : bytes → bytes → res string ()) (ReadFile : bytes → res string bytes) (AppendCertsFromPEM : bytes → bool).
Context (ResolveTCPAddr : bytes → res string ()) (Listen : bytes → res string ()) (CIDR_error : bytes → string).
(** A notification as JSON, and its request. *)
Context (marshal_action : AdminAction → bytes) (post_notification : bytes → bytes → W → res string () * W).

Definition err_if (b : bool) (e : string) : res string () := if b then Prelude.Err e else Ok ().
Definition with_error {A} (r : res string A) (f : string → string) : res string A := match r with Ok a => Ok a | Prelude.Err e => Prelude.Err (f e) end.
Definition is_set (s : bytes) : bool := negb (bool_decide (s = [])).
Definition str := string_of_bytes.

Fixpoint resolve_all (flag : string) (addrs : list bytes) : res string () :=
  match addrs with
  | [] => Ok ()
  | a :: addrs =>
    _ ← with_error (ResolveTCPAddr a) (λ e, "failed to resolve --" +:+ flag +:+ " (" +:+ str a +:+ ") - " +:+ e);
    resolve_all flag addrs
  end.

Definition check_addresses (o : Options) : res string () :=
  let nsqd := bool_decide (length o.(NSQDHTTPAddresses) = 0%nat) in
  let lookupd := bool_decide (length o.(NSQLookupdHTTPAddresses) = 0%nat) in
  _ ← err_if (nsqd && lookupd) "--nsqd-http-address or --lookupd-http-address required";
  err_if (negb nsqd && negb lookupd) "use --nsqd-http-address or --lookupd-http-address not both".

Definition check_tls (o : Options) : res string () :=
  _ ← err_if (is_set o.(HTTPClientTLSCert) && negb (is_set o.(HTTPClientTLSKey))) "--http-client-tls-key must be specified with --http-client-tls-cert";
  _ ← err_if (is_set o.(HTTPClientTLSKey) && negb (is_set o.(HTTPClientTLSCert))) "--http-client-tls-cert must be specified with --http-client-tls-key";
  _ ← (if is_set o.(HTTPClientTLSCert) && is_set o.(HTTPClientTLSKey) then
         with_error (LoadX509KeyPair o.(HTTPClientTLSCert) o.(HTTPClientTLSKey))
           (λ e, "failed to LoadX509KeyPair " +:+ str o.(HTTPClientTLSCert) +:+ ", " +:+ str o.(HTTPClientTLSKey) +:+ " - " +:+ e)
       else Ok ());
  if is_set o.(HTTPClientTLSRootCAFile) then
    caCertFile ← with_error (ReadFile o.(HTTPClientTLSRootCAFile)) (λ e, "failed to read TLS root CA file " +:+ str o.(HTTPClientTLSRootCAFile) +:+ " - " +:+ e);
    err_if (negb (AppendCertsFromPEM caCertFile)) ("failed to AppendCertsFromPEM " +:+ str o.(HTTPClientTLSRootCAFile))
  else Ok ().

(** [New], with the web the new nsqadmin lives in. *)
Definition New (w : W) (o : Options) : res string (NSQAdmin W) :=
  _ ← check_addresses o;
  _ ← check_tls o;
  _ ← resolve_all "lookupd-http-address" o.(NSQLookupdHTTPAddresses);
  _ ← resolve_all "nsqd-http-address" o.(NSQDHTTPAddresses);
  _ ← (if o.(ProxyGraphite) then
         _ ← with_error (url_Parse o.(GraphiteURL)) (λ e, "failed to parse --graphite-url (" +:+ str o.(GraphiteURL) +:+ ") - " +:+ e); Ok ()
       else Ok ());
  _ ← (if is_set o.(AllowConfigFromCIDR) then
         match ParseCIDR o.(AllowConfigFromCIDR) with
         | Some _ => Ok ()
         | None => Prelude.Err ("failed to parse --allow-config-from-cidr (" +:+ str o.(AllowConfigFromCIDR) +:+ ") - " +:+ CIDR_error o.(AllowConfigFromCIDR))
         end
       else Ok ());
  let o := set_BasePath (normalizeBasePath o.(BasePath)) o in
  _ ← with_error (Listen o.(HTTPAddress)) (λ e, "listen (" +:+ str o.(HTTPAddress) +:+ ") failed - " +:+ e);
  Ok (mkAdmin w o []).

(** A turn of [handleAdminActions] takes the notification of goroutine [i];
    the answer of a request that failed is closed all the same. *)
Definition handleAdminActions_turn (i : nat) : ST (NSQAdmin W) () := λ s,
  match s.(ad_notifications) !! i with
  | None => Some ((), s)
  | Some action =>
    let '(resp, w) := post_notification s.(ad_opts).(NotificationHTTPEndpoint) (marshal_action action) s.(ad_web) in
    match resp with
    | Prelude.Err _ => None
    | Ok () => Some ((), mkAdmin w s.(ad_opts) (delete i s.(ad_notifications)))
    end
  end.

(** [Exit] closes the channel: the goroutines that wait to send panic. *)
Definition Exit : ST (NSQAdmin W) () := λ s,
  match s.(ad_notifications) with
  | [] => Some ((), s)
  | _ => None
  end.

End daemon.

End Admin.
