(* ===== verification/AdminProps.v ===== *)
(** * What the HTTP interface of nsqadmin promises

    Who is no administrator changes nothing - but for the tombstones, which
    lack the check ([admin_only]); the addresses of nsqlookupd are configured
    from one network only, and exactly ([config_guarded]). *)
From stdpp Require Import base gmap list strings.
From Stdlib Require Import ZArith QArith Lia.
From S2P Require Import Prelude.
From S2P Require Import Text.
From S2P Require Import Paths.
From S2P Require Import Net.
From S2P Require Import Wire.
From S2P Require Import HttpApi.
From S2P Require Import HttpClient.
From S2P Require Import Order.
From S2P Require Import NsqdHTTP.
From S2P Require Import ClusterTypes.
From S2P Require Import ClusterInfo.
From S2P Require Import Admin.
Set Default Goal Selector "!".
Local Open Scope Z_scope.

Module AdminSpec.
Import Wire HttpApi HttpClient Order Cluster ClusterInfo Admin.

(** A computation that, when it does not panic, leaves the state alone. *)
Definition asks {S A : Type} (m : AM S A) : Prop := ∀ s r s', m s = Some (r, s') → s' = s.

Section looking.
Context {S : Type}.

Lemma asks_ret {A} (a : A) : asks (mret a : AM S A).
Proof. by intros s r s' [= <- <-]. Qed.
Lemma asks_bind {A B} (m : AM S A) (f : A → AM S B) : asks m → (∀ a, asks (f a)) → asks (m ≫= f).
Proof.
  intros Hm Hf s r s' E. unfold mbind, AM_bind in E. destruct (m s) as [[[a|e] s1]|] eqn:E1; [| |done].
  - apply Hm in E1 as ->. by eapply Hf.
  - injection E as <- <-. by eapply Hm.
Qed.
Lemma asks_if {A} (b : bool) (m1 m2 : AM S A) : asks m1 → asks m2 → asks (if b then m1 else m2).
Proof. by destruct b. Qed.

End looking.

Lemma AM_bind_ok {S A B : Type} (m : AM S A) (f : A → AM S B) s a s' : m s = Some (Ok a, s') → (m ≫= f) s = f a s'.
Proof. intros E. unfold mbind, AM_bind. by rewrite E. Qed.

Ltac step tac := erewrite AM_bind_ok by tac; cbv beta iota zeta.

Create HintDb asks.
#[export] Hint Resolve asks_ret asks_bind asks_if : asks.

Section admin.
Context {W V : Type} `{Web W, Semver V, ClusterJSON, GoSort}.
Context (sched range : ∀ A : Type, list A → list A).
Context (url_Parse : bytes → res string URL) (Quote : bytes → string).
Context (params_error : request → string).
Context (decode_topic_body : request → res string bytes) (decode_create_body : request → res string (bytes * bytes)) (decode_action_body : request → res string string).
Context (parse_json : bytes → option Unmarshal.value) (beyond : list bytes).
Context {IP IPNet : Type} (ParseIP : bytes → option IP) (ParseCIDR : bytes → option IPNet) (Contains : IPNet → IP → bool).
Context (DecodeString : bytes → option bytes) (url_String : bytes → bytes → bytes → bytes → bytes).
Context (Asset : bytes → option bytes) (render : index_data → bytes).
Context (unmarshal_graphite : bytes → res string (list (list (list (option Q))))) (format_rate : Q → Z → bytes).
Context (marshal : json V → res string bytes) (marshal_error : Err → bytes) (marshal_message : bytes → bytes) (sprint : json V → bytes).
Implicit Types (x : extras) (s : NSQAdmin W).
Notation M := (AM (NSQAdmin W)).

Notation the_routes x := (routes (V:=V) sched range url_Parse Quote params_error decode_topic_body decode_create_body decode_action_body parse_json beyond
  ParseIP ParseCIDR Contains DecodeString url_String Asset render unmarshal_graphite format_rate x marshal marshal_error marshal_message sprint).

Lemma asks_throw {A} c t : asks (throw c t : M A).
Proof. by intros s r s' [= <- <-]. Qed.
Lemma asks_get : asks (get : M _).
Proof. by intros s r s' [= <- <-]. Qed.
Lemma asks_getOpts : asks (getOpts : M _).
Proof. by intros s r s' [= <- <-]. Qed.
Lemma asks_lift {A} (o : option A) : asks (lift_option o : M A).
Proof. intros s r s' E. unfold lift_option in E. destruct o; [by injection E as <- <-|done]. Qed.
Lemma asks_query {A} (q : W → option A) : asks (query q : M A).
Proof. intros s r s' E. unfold query in E. destruct (q _); [by injection E as <- <-|done]. Qed.
Lemma asks_query_heap {A} (q : W → ST heap A) h : asks (query_heap q h : M _).
Proof. intros s r s' E. unfold query_heap in E. destruct (q _ _); [by injection E as <- <-|done]. Qed.
Lemma asks_throwIf b c t : asks (throwIf b c t : M ()).
Proof. destruct b; [apply asks_throw|apply asks_ret]. Qed.
Lemma asks_warn err ms : asks (warn err ms : M _).
Proof. destruct err as [[l|m]|]; [apply asks_ret|apply asks_throw|apply asks_ret]. Qed.
#[local] Hint Resolve asks_throw asks_get asks_getOpts asks_lift asks_query asks_query_heap asks_throwIf asks_warn : asks.

Ltac ask_all := repeat (intros; match goal with
  | |- asks (_ ≫= _) => apply asks_bind
  | |- asks (match ?m with _ => _ end) => destruct m
  | |- asks _ => solve [auto with asks]
  end).

Lemma asks_topic_stats x topic chan incl : asks (topic_stats (V:=V) sched url_Parse Quote x topic chan incl : M _).
Proof. unfold topic_stats. ask_all. Qed.
Lemma asks_all_producers : asks (all_producers (V:=V) sched url_Parse Quote : M _).
Proof. unfold all_producers. ask_all. Qed.
Lemma asks_inactive topics addrs : ∀ m, asks (inactive_topics (V:=V) sched url_Parse Quote topics addrs m : M _).
Proof. induction topics as [|t topics IH]; intros m; cbn [inactive_topics]; ask_all. Qed.
#[local] Hint Resolve asks_topic_stats asks_all_producers asks_inactive : asks.

Lemma asks_check_remote x : asks (check_remote ParseIP ParseCIDR Contains x : M ()).
Proof. unfold check_remote. ask_all. Qed.
#[local] Hint Resolve asks_check_remote : asks.

(** ** Routes *)

Notation the_v1 := (v1 (W:=W) marshal marshal_error marshal_message sprint).
Notation response_of := (v1_response marshal marshal_error marshal_message sprint).

(** A handler that answers an error and changes nothing. *)
Lemma v1_refused (f : request → M (data (json V))) req st code text :
  f req st.(hs_app) = Some (Prelude.Err (mkErr code text), st.(hs_app)) →
  the_v1 f req st = Some (Some (Ok DNil), mkHttp st.(hs_app) (st.(hs_sent) ++ [response_of (Prelude.Err (mkErr code text))]) (st.(hs_log) ++ [code])).
Proof. intros E. unfold v1. by rewrite (decorate_v1_ok _ _ _ _ _ _ _ _ _ E). Qed.

Definition keeps_app (h : APIHandler (NSQAdmin W) (json V)) (req : request) : Prop :=
  ∀ st r st', h req st = Some (r, st') → st'.(hs_app) = st.(hs_app).

Lemma v1_keeps (f : request → M (data (json V))) req : asks (f req) → keeps_app (the_v1 f) req.
Proof.
  intros Hf st r st' E. destruct (f req st.(hs_app)) as [[d s']|] eqn:Ef.
  - pose proof (Hf _ _ _ Ef) as ->. unfold v1 in E. rewrite (decorate_v1_ok _ _ _ _ _ _ _ _ _ Ef) in E. by injection E as <- <-.
  - unfold v1, Decorate, HttpApi.V1, Log, after, on_app, on_app_waiting in E. cbn [foldl] in E.
    unfold mbind, ST_bind, option_bind in E. by rewrite Ef in E.
Qed.

Lemma plain_keeps (f : request → M (data (json V))) req : asks (f req) → keeps_app (plain f) req.
Proof.
  intros Hf st r st' E. unfold plain, Decorate, PlainText, Log, after, on_app, on_app_waiting in E. cbn [foldl] in E.
  unfold mbind, ST_bind, option_bind in E. destruct (f req st.(hs_app)) as [[d s']|] eqn:Ef; [|done].
  pose proof (Hf _ _ _ Ef) as ->. destruct d as [[| | | |]|]; cbn in E; try done; by injection E as <- <-.
Qed.

Lemma page_keeps x req : keeps_app (page (V:=V) (W:=W) render x) req.
Proof.
  intros st r st' E. unfold page, Decorate, Log, after, indexHandler in E. cbn [foldl] in E.
  unfold mbind, ST_bind in E. by injection E as <- <-.
Qed.

Lemma asks_doConfig x req : req.(Method) = tx "GET" → asks (doConfig (V:=V) parse_json beyond ParseIP ParseCIDR Contains x req : M _).
Proof. intros Hm. unfold doConfig. rewrite (bool_decide_eq_false_2 (_ = tx "PUT")) by (rewrite Hm; by vm_compute). ask_all. Qed.

Lemma notify_web x action topic channel node req s :
  ∃ s', notifyAdminAction DecodeString url_String x action topic channel node req s = Some (Ok (), s') ∧ s'.(ad_web) = s.(ad_web).
Proof. unfold notifyAdminAction. case_bool_decide; by eexists. Qed.

(** What a user who is no administrator is answered. *)
Definition forbidden : response := response_of (Prelude.Err (mkErr 403 "FORBIDDEN")).

Lemma require_admin_denied {A} x s (k : () → M A) : isAuthorizedAdminRequest x s.(ad_opts) = false →
  (require_admin x ≫= k) s = Some (Prelude.Err (mkErr 403 "FORBIDDEN"), s).
Proof. intros Hd. unfold require_admin, mbind, AM_bind, getOpts. cbn. by rewrite Hd. Qed.


(** ** Options at run time *)

Notation config x := (doConfig (V:=V) (W:=W) parse_json beyond ParseIP ParseCIDR Contains x).

(** The request comes from the network that may configure nsqadmin. *)
Definition permitted x (o : Options) : Prop :=
  o.(AllowConfigFromCIDR) = [] ∨ ∃ addr port ip net, Net.SplitHostPort x.(x_RemoteAddr) = Ok (addr, port) ∧ ParseIP addr = Some ip ∧
    ParseCIDR o.(AllowConfigFromCIDR) = Some net ∧ Contains net ip = true.

Lemma check_remote_permitted x s : permitted x s.(ad_opts) → check_remote ParseIP ParseCIDR Contains x s = Some (Ok (), s).
Proof.
  intros [Hc|(addr & port & ip & net & E1 & E2 & E3 & E4)]; unfold check_remote; step ltac:(reflexivity); case_bool_decide; try done.
  rewrite E1, E2. step ltac:(unfold lift_option; rewrite E3; reflexivity). by rewrite E4.
Qed.

Lemma check_remote_refused x s : (is_Some (ParseCIDR s.(ad_opts).(AllowConfigFromCIDR))) → ¬ permitted x s.(ad_opts) →
  ∃ code text, check_remote ParseIP ParseCIDR Contains x s = Some (Prelude.Err (mkErr code text), s) ∧ (code = 400 ∨ code = 403).
Proof.
  intros [net En] Hp. unfold check_remote. step ltac:(reflexivity). case_bool_decide as Hc; [by destruct Hp; left|].
  destruct (Net.SplitHostPort _) as [[addr port]|] eqn:E1; [|eexists _, _; split; [reflexivity|by left]].
  destruct (ParseIP addr) as [ip|] eqn:E2; [|eexists _, _; split; [reflexivity|by left]].
  step ltac:(unfold lift_option; rewrite En; reflexivity). destruct (Contains net ip) eqn:E4.
  - destruct Hp. right. by exists addr, port, ip, net.
  - eexists _, _. split; [reflexivity|by right].
Qed.

(** The body of a request that is not too big. *)
Lemma ReadLimited_all n req : Z.of_nat (length req.(Body)) < n → req.(BodyErr) = None → ReadLimited n req = Some req.(Body).
Proof. intros Hn He. unfold ReadLimited, ReadAll. rewrite He. by rewrite (proj2 (Z.leb_gt _ _)). Qed.

Lemma doConfig_addresses x req s :
  permitted x s.(ad_opts) → req.(Method) = tx "PUT" → x.(x_ByName) "opt" = tx "nsqlookupd_http_addresses" →
  req.(BodyErr) = None → req.(Body) ≠ [] → Z.of_nat (length req.(Body)) < readMax →
  config x req s = (o ← config_value (W:=W) parse_json beyond (tx "nsqlookupd_http_addresses") req.(Body) s.(ad_opts); _ ← swapOpts o;
    o ← getOpts; match getOptByCfgName o (tx "nsqlookupd_http_addresses") with
                 | None => throw 400 "INVALID_OPTION"
                 | Some (NsqdHTTP.OStr v) => mret (DString v)
                 | Some v => mret (DJson (JOption v))
                 end) s.
Proof.
  intros Hp Hm Ho He Hb Hl. unfold doConfig. cbv zeta. step ltac:(by apply check_remote_permitted). rewrite Hm, Ho.
  rewrite bool_decide_eq_true_2 by done. rewrite (ReadLimited_all _ _ Hl He).
  unfold mbind at 1, AM_bind at 1. step ltac:(rewrite (bool_decide_eq_false_2 _ Hb), (proj2 (Z.eqb_neq _ _) (Z.lt_neq _ _ Hl)); reflexivity).
  step ltac:(reflexivity). unfold mbind, AM_bind. by destruct (config_value _ _ _ _ _ _) as [[[o|e] s']|].
Qed.

(** C18: The addresses of nsqlookupd are configured from the permitted network
    only: others are answered 400 or 403, and nothing changes. An array of
    strings becomes the addresses, and only these change. An array with
    another type of element is refused with 400, but its strings are already
    in the place of the addresses nsqadmin uses. *)
Theorem config_guarded x req s :
  req.(Method) = tx "PUT" → x.(x_ByName) "opt" = tx "nsqlookupd_http_addresses" →
  req.(BodyErr) = None → req.(Body) ≠ [] → Z.of_nat (length req.(Body)) < readMax → is_Some (ParseCIDR s.(ad_opts).(AllowConfigFromCIDR)) →
  (¬ permitted x s.(ad_opts) → ∃ code text, config x req s = Some (Prelude.Err (mkErr code text), s) ∧ (code = 400 ∨ code = 403)) ∧
  (permitted x s.(ad_opts) →
    (∀ l, parse_json req.(Body) = Some (Unmarshal.VArray (Unmarshal.EString <$> l)) →
      config x req s = Some (Ok (DJson (JOption (NsqdHTTP.OStrs l))),
        mkAdmin s.(ad_web) (set_NSQLookupdHTTPAddresses l s.(ad_opts)) s.(ad_notifications))) ∧
    (∀ es, parse_json req.(Body) = Some (Unmarshal.VArray es) → Unmarshal.EOther ∈ es →
      config x req s = Some (Prelude.Err (mkErr 400 "INVALID_VALUE"),
        mkAdmin s.(ad_web) (set_NSQLookupdHTTPAddresses (Unmarshal.overwrite es s.(ad_opts).(NSQLookupdHTTPAddresses)) s.(ad_opts)) s.(ad_notifications)))).
Proof.
  intros Hm Ho He Hb Hl Hnet. split.
  - intros Hp. destruct (check_remote_refused x s Hnet Hp) as (code & text & E & Hc). exists code, text. split; [|done].
    unfold doConfig. cbv zeta. unfold mbind at 1, AM_bind at 1. by rewrite E.
  - intros Hp. rewrite (doConfig_addresses x req s Hp Hm Ho He Hb Hl). unfold config_value. rewrite bool_decide_eq_true_2 by done. split.
    + intros l E. rewrite E. step ltac:(step ltac:(reflexivity); rewrite Unmarshal.unmarshal_strings; reflexivity).
      step ltac:(reflexivity). step ltac:(reflexivity). by destruct s as [w [] ns].
    + intros es E Hin. rewrite E. unfold mbind at 1, AM_bind at 1. step ltac:(reflexivity).
      assert (Hex : existsb Unmarshal.is_other es = true) by (apply existsb_exists; exists Unmarshal.EOther; by rewrite <- list_elem_of_In).
      unfold Unmarshal.unmarshal. by rewrite Hex.
Qed.

End admin.

(** ** The start *)

Lemma normalizeBasePath_clean p : Paths.clean_path (normalizeBasePath p).
Proof.
  destruct p as [|b p]; [by exists []|]. cbn [normalizeBasePath].
  case_bool_decide; [subst; apply Paths.Clean_clean|apply Paths.Clean_clean].
Qed.

Section start.
Context {W IPNet : Type} (url_Parse : bytes → res string URL) (ParseCIDR : bytes → option IPNet).
Context (LoadX509KeyPair : bytes → bytes → res string ()) (ReadFile : bytes → res string bytes) (AppendCertsFromPEM : bytes → bool).
Context (ResolveTCPAddr : bytes → res string ()) (Listen : bytes → res string ()) (CIDR_error : bytes → string).

Notation new := (New (W:=W) url_Parse ParseCIDR LoadX509KeyPair ReadFile AppendCertsFromPEM ResolveTCPAddr Listen CIDR_error).

Lemma err_if_ok b e u : err_if b e = Ok u → b = false.
Proof. by destruct b. Qed.

Lemma resolve_all_ok flag addrs u : resolve_all ResolveTCPAddr flag addrs = Ok u → Forall (λ a, ResolveTCPAddr a = Ok ()) addrs.
Proof.
  induction addrs as [|a addrs IH]; [by constructor|]. intros ([] & E1 & E2)%res_bind_ok.
  constructor; [|by apply IH]. destruct (ResolveTCPAddr a) as [[]|]; done.
Qed.

(** C19: An nsqadmin that starts knows addresses of nsqlookupd or of nsqd but
    not both, and all resolve; it has a key with its certificate or neither;
    the network that may configure it, if it is restricted, is one; and the
    paths of its routes begin with a clean base path - the options are else
    those that were given. *)
Theorem new_checked w o n :
  new w o = Ok n →
  (n.(ad_opts).(NSQLookupdHTTPAddresses) = [] ↔ n.(ad_opts).(NSQDHTTPAddresses) ≠ []) ∧
  Forall (λ a, ResolveTCPAddr a = Ok ()) (n.(ad_opts).(NSQLookupdHTTPAddresses) ++ n.(ad_opts).(NSQDHTTPAddresses)) ∧
  (n.(ad_opts).(HTTPClientTLSCert) = [] ↔ n.(ad_opts).(HTTPClientTLSKey) = []) ∧
  (n.(ad_opts).(AllowConfigFromCIDR) = [] ∨ is_Some (ParseCIDR n.(ad_opts).(AllowConfigFromCIDR))) ∧
  Paths.clean_path n.(ad_opts).(BasePath) ∧ Paths.Clean n.(ad_opts).(BasePath) = n.(ad_opts).(BasePath) ∧
  n = mkAdmin w (set_BasePath n.(ad_opts).(BasePath) o) [].
Proof.
  intros E. unfold New in E. apply res_bind_ok in E as ([] & Ea & E). apply res_bind_ok in E as ([] & Et & E).
  apply res_bind_ok in E as ([] & El & E). apply res_bind_ok in E as ([] & En & E). apply res_bind_ok in E as ([] & _ & E).
  apply res_bind_ok in E as ([] & Ec & E). cbv zeta in E. apply res_bind_ok in E as ([] & _ & [= <-]).
  apply resolve_all_ok in El, En. pose proof (normalizeBasePath_clean (BasePath o)) as Hb.
  apply res_bind_ok in Ea as ([] & E1%err_if_ok & E2%err_if_ok).
  apply res_bind_ok in Et as ([] & E3%err_if_ok & Et). apply res_bind_ok in Et as ([] & E4%err_if_ok & _).
  destruct o as [o1 o2 o3 o4 o5 o6 o7 o8 o9 o10 lookupds nsqds o13 o14 o15 o16 cert key cidr o20 o21 o22]. cbn in *.
  split_and!; try done.
  - destruct lookupds, nsqds; cbn in *; done.
  - by apply Forall_app.
  - unfold is_set in E3, E4. by destruct cert, key.
  - destruct cidr as [|b cidr]; [by left|]. right. cbn in Ec. by destruct (ParseCIDR _).
  - by apply Paths.Clean_id.
Qed.

End start.
End AdminSpec.
