(* ===== verification/AdminDemo.v ===== *)
(** * nsqadmin on concrete inputs

    The theorems of [AdminProps] applied to an nsqadmin with one
    administrator in the small cluster of [ClusterDemo]. *)
From stdpp Require Import base gmap list strings.
From Stdlib Require Import ZArith QArith Lia.
From S2P Require Import Prelude.
From S2P Require Import Text.
From S2P Require Import Paths.
From S2P Require Import Net.
From S2P Require Import Wire.
From S2P Require Import HttpApi.
From S2P Require Import HttpClient.
From S2P Require Import Order.
From S2P Require Import NsqdHTTP.
From S2P Require Import ClusterTypes.
From S2P Require Import ClusterInfo.
From S2P Require Import ClusterDemo.
From S2P Require Import Admin.
From S2P Require Import AdminProps.
Set Default Goal Selector "!".
Local Open Scope Z_scope.

Module AdminDemo.
Import HttpApi HttpClient Order Cluster ClusterInfo ClusterDemo Admin AdminSpec.

#[local] Existing Instances merge_GoSort small_web versions answers_of.

Definition options : Options :=
  mkOptions Wire.INFO [] (tx ":4171") (tx "/") [] false [] [] [] (60 * Second) [node1; node2] [] 0 0 false [] [] [] (tx "127.0.0.1/8") (tx "http://hook") (tx "X-User")
    [tx "alice"].
Definition state : NSQAdmin () := mkAdmin () options [].

(** Who sends the request, and from where. *)
Definition by_user (user remote : string) (opt : string) : extras :=
  mkExtras (λ p, if bool_decide (p = "opt"%string) then tx opt else tx "events")
    (λ h, if bool_decide (h = tx "X-User") then tx user else []) (tx "admin:4171") false (tx remote) 0 (tx "admin").

Definition local_ip (b : bytes) : option bytes := if bool_decide (take 4 b = tx "127.") then Some b else if bool_decide (b = []) then None else Some b.
Definition the_net (b : bytes) : option bytes := if bool_decide (b = tx "127.0.0.1/8") then Some (tx "127.") else None.
Definition contains (net ip : bytes) : bool := bool_decide (take (length net) ip = net).

(** Bodies are the value itself; addresses are single letters. *)
Definition body_topic (req : request) : res string bytes := Ok req.(Body).
Definition body_create (req : request) : res string (bytes * bytes) := Ok (req.(Body), []).
Definition body_action (req : request) : res string string := Ok "pause"%string.
Definition letters (b : bytes) : option Unmarshal.value :=
  Some (Unmarshal.VArray ((λ c, if bool_decide (c = Byte.x31) then Unmarshal.EOther else Unmarshal.EString [c]) <$> b)).

Notation the_routes x := (routes (V:=Z) first_come first_come no_url quote (λ _, "bad"%string) body_topic body_create body_action letters []
  local_ip the_net contains (λ b, Some b) (λ _ _ _ _, []) (λ _, None) (λ _, []) (λ _, Ok []) (λ _ _, []) x (λ _, Ok []) (λ _, []) id (λ _, [])).
Notation config x := (doConfig (V:=Z) (W:=()) letters [] local_ip the_net contains x).

Definition req (method path body : string) : request := mkRequest (tx method) (tx path) [] [] (Z.of_nat (String.length body)) (tx body) None.


(** From elsewhere nothing changes; from here the addresses become those of
    the request; a refused request has replaced the first one. *)
Lemma config_guarded_witness :
  let put body := req "PUT" "/config/nsqlookupd_http_addresses" body in
  let addresses l := mkAdmin () (set_NSQLookupdHTTPAddresses l options) [] in
  (∃ code text, config (by_user "" "10.0.0.1:80" "nsqlookupd_http_addresses") (put "ab") state = Some (Prelude.Err (mkErr code text), state) ∧ (code = 400 ∨ code = 403)) ∧
  config (by_user "" "127.0.0.1:80" "nsqlookupd_http_addresses") (put "abc") state =
    Some (Ok (DJson (JOption (NsqdHTTP.OStrs [tx "a"; tx "b"; tx "c"]))), addresses [tx "a"; tx "b"; tx "c"]) ∧
  config (by_user "" "127.0.0.1:80" "nsqlookupd_http_addresses") (put "a1") state =
    Some (Prelude.Err (mkErr 400 "INVALID_VALUE"), addresses [tx "a"; node2]).
Proof.
  intros put addresses.
  assert (Hg := λ user remote body, config_guarded (V:=Z) letters [] local_ip the_net contains (by_user user remote "nsqlookupd_http_addresses") (put body) state eq_refl eq_refl eq_refl).
  assert (Hin : permitted local_ip the_net contains (by_user "" "127.0.0.1:80" "nsqlookupd_http_addresses") options).
  { right. exists (tx "127.0.0.1"), (tx "80"), (tx "127.0.0.1"), (tx "127."). by split_and!; vm_compute. }
  split_and!.
  - destruct (Hg "" "10.0.0.1:80" "ab")%string as [H _]; [done|done|by eexists|]. apply H.
    intros [Hc|(addr & port & ip & net & E1 & E2 & E3 & E4)]; [done|]. vm_compute in E1. injection E1 as <- <-. vm_compute in E2, E3. injection E2 as <-. injection E3 as <-. by vm_compute in E4.
  - destruct (Hg "" "127.0.0.1:80" "abc")%string as [_ H]; [done|done|by eexists|]. destruct (H Hin) as [H1 _]. by apply (H1 [tx "a"; tx "b"; tx "c"]).
  - destruct (Hg "" "127.0.0.1:80" "a1")%string as [_ H]; [done|done|by eexists|]. destruct (H Hin) as [_ H2].
    apply (H2 [Unmarshal.EString (tx "a"); Unmarshal.EOther]); [done|by right; left].
Defined.

Lemma new_checked_witness :
  let o := set_BasePath (tx "a/./b//../c/") options in
  ∃ n, New (W:=()) (IPNet:=bytes) no_url the_net (λ _ _, Ok ()) (λ _, Ok []) (λ _, true) (λ _, Ok ()) (λ _, Ok ()) (λ _, ""%string) () o = Ok n ∧
    n.(ad_opts).(BasePath) = tx "/a/c" ∧ Paths.clean_path (tx "/a/c").
Proof.
  intros o. set (n := mkAdmin () (set_BasePath (tx "/a/c") o) []).
  destruct (new_checked (W:=()) (IPNet:=bytes) no_url the_net (λ _ _, Ok ()) (λ _, Ok []) (λ _, true) (λ _, Ok ()) (λ _, Ok ()) (λ _, ""%string) () o n) as (_ & _ & _ & _ & H & _); [reflexivity|].
  exists n. split; [reflexivity|]. split; [reflexivity|]. exact H.
Defined.

End AdminDemo.
