(* ===== verification/FileLogger.v ===== *)
(** * nsq_to_file (apps/nsq_to_file/file_logger.go, strftime.go, options.go)

    A logger per topic writes the messages of its consumer to a file, which it
    rotates; messages are finished once the file is synced. The file system is
    a table of files with the names that lead to them; every call of it may
    fail. A turn of the router may end the program with [os.Exit], or search
    for a free name for ever; [None] is a panic. *)
From stdpp Require Import base gmap list strings.
From Stdlib Require Import ZArith Lia.
From S2P Require Import Prelude.
From S2P Require Import Decimal.
From S2P Require Import Text.
From S2P Require Import Paths.
Set Default Goal Selector "!".
Local Open Scope Z_scope.

(** [gzip.Writer]: a write and the end of a stream hand bytes to the file. *)
Class Gzip (G : Type) := {
  gz_new : Z → G;
  gz_Write : bytes → G → bytes * G;
  gz_Close : G → bytes * G;
}.

Module FileLogger.
Import Paths.

(** ** Options (options.go) *)

Record Options := mkOptions {
  Topics : list bytes;
  TopicPattern : bytes;
  TopicRefreshInterval : duration;
  Channel : bytes;
  NSQDTCPAddrs : list bytes;
  NSQLookupdHTTPAddrs : list bytes;
  ConsumerOpts : list bytes;
  MaxInFlight : Z;
  HTTPClientConnectTimeout : duration;
  HTTPClientRequestTimeout : duration;
  LogPrefix : bytes;
  LogLevel : bytes;
  OutputDir : bytes;
  WorkDir : bytes;
  DatetimeFormat : bytes;
  FilenameFormat : bytes;
  HostIdentifier : bytes;
  GZIPLevel : Z;
  GZIP : bool;
  SkipEmptyFiles : bool;
  RotateSize : Z;
  RotateInterval : duration;
  SyncInterval : duration;
}.

Definition NewOptions : Options :=
  mkOptions [] [] (60 * Second) (tx "nsq_to_file") [] [] [] 200 (2 * Second) (5 * Second) (tx "[nsq_to_file] ") (tx "info") (tx "/tmp") []
    (tx "%Y-%m-%d_%H") (tx "<TOPIC>.<HOST><REV>.<DATETIME>.log") [] 6 false false 0 0 (30 * Second).

(** ** Names *)

Definition REV : bytes := tx "<REV>".

(** The layouts of [time.Format] for the directives. *)
Definition conversion : list (bytes * bytes) :=
  (λ p, (tx p.1, tx p.2)) <$> [("B", "January"); ("b", "Jan"); ("m", "01"); ("A", "Monday"); ("a", "Mon"); ("d", "02"); ("H", "15"); ("I", "03");
    ("M", "04"); ("S", "05"); ("Y", "2006"); ("y", "06"); ("p", "PM"); ("Z", "MST"); ("z", "-0700"); ("%", "%")]%string.
Definition convert (b : byte) : option bytes := snd <$> (snd <$> list_find (λ p, p.1 = [b]) conversion).

Definition percent : byte := byte_of_Z 37.

Fixpoint layout_of (format : bytes) : bytes :=
  match format with
  | [] => []
  | b :: rest =>
    match rest with
    | c :: rest' =>
      match (if bool_decide (b = percent) then convert c else None) with
      | Some cmd => cmd ++ layout_of rest'
      | None => b :: layout_of rest
      end
    | [] => [b]
    end
  end.

Section names.
(** [t.Format] *)
Context (Format : bytes → time → bytes).
Definition strftime (format : bytes) (t : time) : bytes := Format (layout_of format) t.
End names.

(** [computeFilenameFormat], for [os.Hostname] and [os.Getpid]. *)
Definition needs_rev (o : Options) : bool :=
  o.(GZIP) || (0 <? o.(RotateSize)) || (0 <? o.(RotateInterval)) || negb (bool_decide (o.(WorkDir) = o.(OutputDir))).

Definition computeFilenameFormat (hostname : res string bytes) (pid : Z) (o : Options) (topic : bytes) : res string bytes :=
  hostname ← hostname;
  let shortHostname := default [] (head (Split.split (byte_of_Z 46) hostname)) in
  let identifier := if bool_decide (o.(HostIdentifier) = []) then shortHostname
                    else Replace (Replace o.(HostIdentifier) (tx "<SHORT_HOST>") shortHostname) (tx "<HOSTNAME>") hostname in
  let cff := o.(FilenameFormat) in
  cff ← (if needs_rev o then
           if Contains cff REV then Ok cff else Err "missing <REV> in --filename-format when gzip, rotation, or work dir enabled"%string
         else Ok (Replace cff REV []));
  let cff := Replace cff (tx "<TOPIC>") topic in
  let cff := Replace cff (tx "<HOST>") identifier in
  let cff := Replace cff (tx "<PID>") (Decimal.fmt_d pid) in
  Ok (if o.(GZIP) && negb (Names.HasSuffix cff (tx ".gz")) then cff ++ tx ".gz" else cff).

(** ** Files *)

(** A file has the bytes that were written and how many of them [Sync] has
    made durable. *)
Record file := mkFile { content : bytes; synced : nat }.
(** [os.File]: the file it was opened on, its name, and whether it is open. *)
Record handle := mkHandle { hd_file : nat; hd_name : bytes; hd_open : bool }.

Inductive oserr := EExist | ENotExist | EOther (text : string).
Definition os_text (e : oserr) : string := match e with EExist => "file exists" | ENotExist => "no such file or directory" | EOther t => t end.
Definition IsExist (e : oserr) : bool := match e with EExist => true | _ => false end.
Definition IsNotExist (e : oserr) : bool := match e with ENotExist => true | _ => false end.

Record message := mkMessage { ID : nat; Body : bytes }.
Definition newline : byte := byte_of_Z 10.
Definition line (m : message) : bytes := m.(Body) ++ [newline].

(** [FileLogger] with the locals of its router: the messages of [output], and
    whether the loop has ended; then the file system, what was finished and
    whether the consumer was told to stop. Last what happens outside: the
    failures of the calls of the system, a write with how many bytes it wrote,
    and the readings of the clock. *)
Record FileLogger (G : Type) := mkLogger {
  out : option nat;
  gzipWriter : option (G * nat);
  filename : bytes;
  openTime : time;
  filesize : Z;
  rev : Z;
  output : list message;
  ended : bool;
  dir : gmap (list Byte.byte) nat;
  files : gmap nat file;
  handles : gmap nat handle;
  fresh : nat;
  finished : list message;
  stopped : bool;
  faults : list (option (nat * string));
  clock : list time;
}.
Arguments mkLogger {G} _ _ _ _ _ _ _ _ _ _ _ _ _ _ _ _.
Arguments out {G} _.
Arguments gzipWriter {G} _.
Arguments filename {G} _.
Arguments openTime {G} _.
Arguments filesize {G} _.
Arguments rev {G} _.
Arguments output {G} _.
Arguments ended {G} _.
Arguments dir {G} _.
Arguments files {G} _.
Arguments handles {G} _.
Arguments fresh {G} _.
Arguments finished {G} _.
Arguments stopped {G} _.
Arguments faults {G} _.
Arguments clock {G} _.

(** How a turn stops. *)
Inductive stop := Exit (why : string) | Spin.
Definition LM (S A : Type) : Type := ST S (res stop A).
#[export] Instance LM_ret {S} : MRet (LM S) := λ A a s, Some (Ok a, s).
#[export] Instance LM_bind {S} : MBind (LM S) := λ A B f m s,
  match m s with
  | Some (Ok a, s) => f a s
  | Some (Err e, s) => Some (Err e, s)
  | None => None
  end.

Section logger.
Context {G : Type} `{Gzip G}.
Context (Format : bytes → time → bytes).
Context (o : Options) (filenameFormat : bytes).

Notation logger := (FileLogger G).
Notation M := (LM logger).

(** ** The state *)

Definition get : M logger := λ s, Some (Ok s, s).
Definition modify (f : logger → logger) : M () := λ s, Some (Ok (), f s).
Definition exit {A} (why : string) : M A := λ s, Some (Err (Exit why), s).
Definition spin {A} : M A := λ s, Some (Err Spin, s).
Definition crash {A} : M A := λ _, None.

Definition set_out (x : option nat) (s : logger) : logger :=
  mkLogger x s.(gzipWriter) s.(filename) s.(openTime) s.(filesize) s.(rev) s.(output) s.(ended) s.(dir) s.(files) s.(handles) s.(fresh) s.(finished) s.(stopped) s.(faults) s.(clock).
Definition set_gzip (x : option (G * nat)) (s : logger) : logger :=
  mkLogger s.(out) x s.(filename) s.(openTime) s.(filesize) s.(rev) s.(output) s.(ended) s.(dir) s.(files) s.(handles) s.(fresh) s.(finished) s.(stopped) s.(faults) s.(clock).
Definition set_filename (x : bytes) (s : logger) : logger :=
  mkLogger s.(out) s.(gzipWriter) x s.(openTime) s.(filesize) s.(rev) s.(output) s.(ended) s.(dir) s.(files) s.(handles) s.(fresh) s.(finished) s.(stopped) s.(faults) s.(clock).
Definition set_openTime (x : time) (s : logger) : logger :=
  mkLogger s.(out) s.(gzipWriter) s.(filename) x s.(filesize) s.(rev) s.(output) s.(ended) s.(dir) s.(files) s.(handles) s.(fresh) s.(finished) s.(stopped) s.(faults) s.(clock).
Definition set_filesize (x : Z) (s : logger) : logger :=
  mkLogger s.(out) s.(gzipWriter) s.(filename) s.(openTime) x s.(rev) s.(output) s.(ended) s.(dir) s.(files) s.(handles) s.(fresh) s.(finished) s.(stopped) s.(faults) s.(clock).
Definition set_rev (x : Z) (s : logger) : logger :=
  mkLogger s.(out) s.(gzipWriter) s.(filename) s.(openTime) s.(filesize) x s.(output) s.(ended) s.(dir) s.(files) s.(handles) s.(fresh) s.(finished) s.(stopped) s.(faults) s.(clock).
Definition set_output (x : list message) (s : logger) : logger :=
  mkLogger s.(out) s.(gzipWriter) s.(filename) s.(openTime) s.(filesize) s.(rev) x s.(ended) s.(dir) s.(files) s.(handles) s.(fresh) s.(finished) s.(stopped) s.(faults) s.(clock).
Definition set_ended (x : bool) (s : logger) : logger :=
  mkLogger s.(out) s.(gzipWriter) s.(filename) s.(openTime) s.(filesize) s.(rev) s.(output) x s.(dir) s.(files) s.(handles) s.(fresh) s.(finished) s.(stopped) s.(faults) s.(clock).
Definition set_fs (d : gmap (list Byte.byte) nat) (fs : gmap nat file) (hs : gmap nat handle) (fr : nat) (s : logger) : logger :=
  mkLogger s.(out) s.(gzipWriter) s.(filename) s.(openTime) s.(filesize) s.(rev) s.(output) s.(ended) d fs hs fr s.(finished) s.(stopped) s.(faults) s.(clock).
Definition set_finished (x : list message) (s : logger) : logger :=
  mkLogger s.(out) s.(gzipWriter) s.(filename) s.(openTime) s.(filesize) s.(rev) s.(output) s.(ended) s.(dir) s.(files) s.(handles) s.(fresh) x s.(stopped) s.(faults) s.(clock).
Definition set_stopped (x : bool) (s : logger) : logger :=
  mkLogger s.(out) s.(gzipWriter) s.(filename) s.(openTime) s.(filesize) s.(rev) s.(output) s.(ended) s.(dir) s.(files) s.(handles) s.(fresh) s.(finished) x s.(faults) s.(clock).
Definition set_faults (x : list (option (nat * string))) (s : logger) : logger :=
  mkLogger s.(out) s.(gzipWriter) s.(filename) s.(openTime) s.(filesize) s.(rev) s.(output) s.(ended) s.(dir) s.(files) s.(handles) s.(fresh) s.(finished) s.(stopped) x s.(clock).
Definition set_clock (x : list time) (s : logger) : logger :=
  mkLogger s.(out) s.(gzipWriter) s.(filename) s.(openTime) s.(filesize) s.(rev) s.(output) s.(ended) s.(dir) s.(files) s.(handles) s.(fresh) s.(finished) s.(stopped) s.(faults) x.

(** [time.Now()]; a clock that has nothing more to say stands still. *)
Definition now : M time := λ s,
  match s.(clock) with
  | [] => Some (Ok s.(openTime), s)
  | t :: ts => Some (Ok t, set_clock ts s)
  end.

(** ** The file system *)

(** The failure of the next call, if it fails. *)
Definition syscall : M (option (nat * string)) := λ s,
  match s.(faults) with
  | [] => Some (Ok None, s)
  | f :: fs => Some (Ok f, set_faults fs s)
  end.

Definition MkdirAll : M (option oserr) := f ← syscall; mret (match f with Some (_, e) => Some (EOther e) | None => None end).

Definition os_Stat (path : bytes) : M (option oserr) :=
  f ← syscall; s ← get;
  mret (match f with
        | Some (_, e) => Some (EOther e)
        | None => match s.(dir) !! path with Some _ => None | None => Some ENotExist end
        end).

(** Creates the file if there is none; with [O_EXCL] there must be none. *)
Definition OpenFile (path : bytes) (excl : bool) : M (res oserr nat) :=
  f ← syscall; s ← get;
  match f with
  | Some (_, e) => mret (Err (EOther e))
  | None =>
    match s.(dir) !! path with
    | Some i =>
      if excl then mret (Err EExist) else
      _ ← modify (set_fs s.(dir) s.(files) (<[s.(fresh) := mkHandle i path true]> s.(handles)) (S s.(fresh)));
      mret (Ok s.(fresh))
    | None =>
      _ ← modify (set_fs (<[path := s.(fresh)]> s.(dir)) (<[s.(fresh) := mkFile [] 0]> s.(files))
                    (<[S s.(fresh) := mkHandle s.(fresh) path true]> s.(handles)) (S (S s.(fresh))));
      mret (Ok (S s.(fresh)))
    end
  end.

(** An operation on the open file of a handle; [f] of the failure. *)
Definition on_file (h : option nat) (k : file → option (nat * string) → file * option string) : M (option string) :=
  f ← syscall; s ← get;
  match (h ← h; x ← s.(handles) !! h; if x.(hd_open) then y ← s.(files) !! x.(hd_file); Some (x, y) else None) with
  | None => mret (Some "file already closed"%string)
  | Some (x, y) =>
    let '(y, e) := k y f in
    _ ← modify (set_fs s.(dir) (<[x.(hd_file) := y]> s.(files)) s.(handles) s.(fresh));
    mret e
  end.

Definition f_Write (h : option nat) (p : bytes) : M (option string) :=
  on_file h (λ y f, match f with
                    | None => (mkFile (y.(content) ++ p) y.(synced), None)
                    | Some (n, e) => (mkFile (y.(content) ++ take n p) y.(synced), Some e)
                    end).
Definition f_Sync (h : option nat) : M (option string) :=
  on_file h (λ y f, match f with
                    | None => (mkFile y.(content) (length y.(content)), None)
                    | Some (_, e) => (y, Some e)
                    end).
Definition f_Close (h : option nat) : M (option string) :=
  e ← on_file h (λ y f, (y, snd <$> f));
  s ← get;
  match e, h with
  | None, Some i => _ ← modify (set_fs s.(dir) s.(files) (alter (λ x, mkHandle x.(hd_file) x.(hd_name) false) i s.(handles)) s.(fresh)); mret None
  | _, _ => mret e
  end.

(** The size of an open file; an error is only logged, and then the result is
    used: a panic. *)
Definition f_Size (h : nat) : M Z :=
  f ← syscall; s ← get;
  match f, (x ← s.(handles) !! h; s.(files) !! x.(hd_file)) with
  | None, Some y => mret (Z.of_nat (length y.(content)))
  | _, _ => crash
  end.

Definition os_Link (src dst : bytes) : M (option oserr) :=
  f ← syscall; s ← get;
  match f with
  | Some (_, e) => mret (Some (EOther e))
  | None =>
    match s.(dir) !! dst, s.(dir) !! src with
    | Some _, _ => mret (Some EExist)
    | None, None => mret (Some ENotExist)
    | None, Some i => _ ← modify (set_fs (<[dst := i]> s.(dir)) s.(files) s.(handles) s.(fresh)); mret None
    end
  end.
Definition os_Remove (path : bytes) : M (option oserr) :=
  f ← syscall; s ← get;
  match f with
  | Some (_, e) => mret (Some (EOther e))
  | None =>
    match s.(dir) !! path with
    | None => mret (Some ENotExist)
    | Some _ => _ ← modify (set_fs (delete path s.(dir)) s.(files) s.(handles) s.(fresh)); mret None
    end
  end.

(** ** The file of the logger (file_logger.go) *)

Definition exclusiveRename (src dst : bytes) : M (option oserr) :=
  e ← os_Link src dst;
  match e with
  | Some e => mret (Some e)
  | None => os_Remove src
  end.

Definition exit_on {A} (what : string) (e : option A) (text : A → string) : M () :=
  match e with Some e => exit (what +:+ ": " +:+ text e) | None => mret () end.

(** What the gzip writer hands over goes to the file it was made for. *)
Definition gzip_close (what : string) : M () :=
  s ← get;
  match s.(gzipWriter) with
  | None => mret ()
  | Some (g, h) =>
    let '(bs, g) := gz_Close g in
    _ ← modify (set_gzip (Some (g, h)));
    e ← (if bool_decide (bs = []) then mret None else f_Write (Some h) bs);
    exit_on what e id
  end.

Definition rev_name (template : bytes) (i : Z) : bytes := Replace template REV (tx "-" ++ Decimal.fmt_06d i).

(** The loop that looks for a free name in the output directory. *)
Fixpoint rename_loop (fuel : nat) (src dstTmpl : bytes) (i : Z) : M () :=
  match fuel with
  | O => spin
  | S fuel =>
    e ← exclusiveRename src (rev_name dstTmpl i);
    match e with
    | None => mret ()
    | Some e => if IsExist e then rename_loop fuel src dstTmpl (u64 (i + 1)) else exit ("unable to rename file: " +:+ os_text e)
    end
  end.

(** As many names as there are files may be taken. *)
Definition search_fuel (s : logger) : nat := S (2 * size s.(dir)).

Definition Close : M () :=
  s ← get;
  match s.(out) with
  | None => mret ()
  | Some h =>
    _ ← gzip_close "failed to close GZIP writer";
    e ← f_Sync (Some h);
    _ ← exit_on "failed to fsync output file" e id;
    e ← f_Close (Some h);
    _ ← exit_on "failed to close output file" e id;
    if bool_decide (o.(WorkDir) = o.(OutputDir)) then modify (set_out None) else
    let src := default [] (hd_name <$> s.(handles) !! h) in
    let dst := Join o.(OutputDir) (TrimPrefix src o.(WorkDir)) in
    e ← exclusiveRename src dst;
    match e with
    | None => mret ()
    | Some e =>
      if IsExist e then
        s ← get;
        let dstTmpl := Join (split_file dst).1 (split_file s.(filename)).2 in
        _ ← rename_loop (search_fuel s) src dstTmpl (u64 (s.(rev) + 1));
        modify (set_out None)
      else exit ("unable to move file: " +:+ os_text e)
    end
  end.

(** [Write] of the logger: to the gzip writer or the file. *)
Definition Write (p : bytes) : M (option string) :=
  s ← get;
  e ← match s.(gzipWriter) with
      | Some (g, h) =>
        let '(bs, g) := gz_Write p g in
        _ ← modify (set_gzip (Some (g, h)));
        if bool_decide (bs = []) then mret None else f_Write (Some h) bs
      | None => f_Write s.(out) p
      end;
  _ ← modify (λ s, set_filesize (i64 (s.(filesize) + match e with None => Z.of_nat (length p) | Some _ => 0 end)) s);
  mret e.

Definition Sync : M () :=
  s ← get;
  match s.(gzipWriter) with
  | Some _ =>
    _ ← gzip_close "failed syncing messages";
    e ← f_Sync s.(out);
    _ ← modify (set_gzip ((λ h, (gz_new o.(GZIPLevel), h)) <$> s.(out)));
    exit_on "failed syncing messages" e id
  | None => e ← f_Sync s.(out); exit_on "failed syncing messages" e id
  end.

Definition currentFilename : M bytes :=
  t ← now;
  mret (Replace filenameFormat (tx "<DATETIME>") (strftime Format o.(DatetimeFormat) t)).

Definition needsRotation : M bool :=
  s ← get;
  match s.(out) with
  | None => mret true
  | Some _ =>
    name ← currentFilename;
    if negb (bool_decide (name = s.(filename))) then mret true else
    late ← (if 0 <? o.(RotateInterval) then t ← now; mret (o.(RotateInterval) <? time_sub t s.(openTime)) else mret false);
    if late : bool then mret true else
    mret ((0 <? o.(RotateSize)) && (o.(RotateSize) <? s.(filesize)))
  end.

Definition excl : bool := o.(GZIP) || (0 <? o.(RotateInterval)).

(** The loop of [updateFile] opens the first name that is free, or whose file
    is not too big. *)
Definition next_rev : M () := modify (λ s, set_rev (u64 (s.(rev) + 1)) s).
Fixpoint open_loop (fuel : nat) (fullPath : bytes) : M () :=
  match fuel with
  | O => spin
  | S fuel =>
    s ← get;
    let absFilename := rev_name fullPath s.(rev) in
    taken ← (if bool_decide (o.(WorkDir) = o.(OutputDir)) then mret false else
             e ← MkdirAll;
             _ ← exit_on "unable to create dir" e os_text;
             e ← os_Stat (Join o.(OutputDir) (TrimPrefix absFilename o.(WorkDir)));
             match e with
             | None => mret true
             | Some e => if IsNotExist e then mret false else exit ("unable to stat output file: " +:+ os_text e)
             end);
    if taken : bool then _ ← next_rev; open_loop fuel fullPath else
    h ← OpenFile absFilename excl;
    match h with
    | Err e => if IsExist e then _ ← next_rev; open_loop fuel fullPath else exit ("unable to open: " +:+ os_text e)
    | Ok h =>
      _ ← modify (set_out (Some h));
      size ← f_Size h;
      _ ← modify (set_filesize size);
      if (0 <? o.(RotateSize)) && (o.(RotateSize) <? size) then _ ← next_rev; open_loop fuel fullPath else
      mret ()
    end
  end.

Definition updateFile : M () :=
  _ ← Close;
  name ← currentFilename;
  _ ← modify (λ s, set_filename name (set_rev (if bool_decide (name = s.(filename)) then u64 (s.(rev) + 1) else 0) s));
  t ← now;
  _ ← modify (set_openTime t);
  e ← MkdirAll;
  _ ← exit_on "unable to create dir" e os_text;
  s ← get;
  _ ← open_loop (search_fuel s) (Join o.(WorkDir) name);
  s ← get;
  if o.(GZIP) then modify (set_gzip ((λ h, (gz_new o.(GZIPLevel), h)) <$> s.(out))) else mret ().

(** ** The router *)

Inductive event := StopChan | TermChan | HupChan | Tick | LogChan (m : message).

(** A turn of the loop: what the select takes sets [sync] and [closeFile]. *)
Definition select (ev : event) : M (bool * bool) :=
  match ev with
  | StopChan => _ ← modify (set_ended true); mret (true, true)
  | TermChan => _ ← modify (set_stopped true); mret (true, false)
  | HupChan => mret (true, true)
  | Tick =>
    r ← needsRotation;
    if r : bool then
      if o.(SkipEmptyFiles) then mret (true, true) else _ ← updateFile; mret (true, false)
    else mret (true, false)
  | LogChan m =>
    r ← needsRotation;
    _ ← (if r : bool then updateFile else mret ());
    e ← Write m.(Body);
    _ ← exit_on "writing message to disk" e id;
    e ← Write [newline];
    _ ← exit_on "writing newline to disk" e id;
    s ← get;
    if Z.of_nat (length s.(output)) <? o.(MaxInFlight) then
      _ ← modify (set_output (s.(output) ++ [m]));
      mret (r || (Z.of_nat (length s.(output)) + 1 =? o.(MaxInFlight)), false)
    else crash
  end.

(** All messages are finished, the last one first. *)
Definition finish_all : M () := modify (λ s, set_output [] (set_finished (s.(finished) ++ reverse s.(output)) s)).

Definition router_turn (ev : event) (IsStarved : bool) : M () :=
  '(sync, closeFile) ← select ev;
  s ← get;
  _ ← (if (sync || IsStarved) && negb (bool_decide (s.(output) = [])) then _ ← Sync; finish_all else mret ());
  if closeFile : bool then Close else mret ().

(** The router runs until its loop ends, or the program does. *)
Fixpoint router (evs : list (event * bool)) : M () :=
  match evs with
  | [] => mret ()
  | (ev, starved) :: evs =>
    s ← get;
    if s.(ended) then mret () else _ ← router_turn ev starved; router evs
  end.

End logger.

(** [NewFileLogger], in a world with these files. *)
Definition new_logger {G : Type} (d : gmap (list Byte.byte) nat) (fs : gmap nat file) (fr : nat)
    (flts : list (option (nat * string))) (clk : list time) : FileLogger G :=
  mkLogger None None [] 0 0 0 [] false d fs ∅ fr [] false flts clk.

End FileLogger.
