(* ===== verification/FileLoggerCalls.v ===== *)
(** * The calls of nsq_to_file

    What a turn of the router does to the files: from any state they only
    grow, and each call of the system, then each operation of the logger, has
    a lemma that says what it leaves behind when it returns. *)
From stdpp Require Import base gmap list strings.
From Stdlib Require Import ZArith Lia.
From S2P Require Import Prelude.
From S2P Require Import Decimal.
From S2P Require Import Text.
From S2P Require Import Paths.
From S2P Require Import FileLogger.
Set Default Goal Selector "!".
Local Open Scope Z_scope.

Module FileLoggerCalls.
Import Paths FileLogger.

Section logger.
Context {G : Type} `{Gzip G}.
Notation logger := (FileLogger G).

(** ** The files only grow *)

Record wf (s : logger) : Prop := {
  wf_files : ∀ i f, s.(files) !! i = Some f → (i < s.(fresh))%nat ∧ (f.(synced) <= length f.(content))%nat;
  wf_handles : ∀ h x, s.(handles) !! h = Some x → (h < s.(fresh))%nat ∧ is_Some (s.(files) !! x.(hd_file));
  wf_dir : ∀ p i, s.(dir) !! p = Some i → is_Some (s.(files) !! i);
}.

Definition extends (f f' : file) : Prop := f.(content) `prefix_of` f'.(content) ∧ (f.(synced) <= f'.(synced))%nat.
Definition named (s : logger) (i : nat) : Prop := ∃ p, s.(dir) !! p = Some i.

Record fs_le (s s' : logger) : Prop := {
  le_files : ∀ i f, s.(files) !! i = Some f → ∃ f', s'.(files) !! i = Some f' ∧ extends f f';
  le_named : ∀ i, named s i → named s' i;
}.

(** What no call undoes: the files, and what was finished. *)
Record grows (s s' : logger) : Prop := {
  g_finished : s'.(finished) = s.(finished);
  g_output : s'.(output) = s.(output);
  g_wf : wf s → wf s';
  g_le : wf s → fs_le s s';
}.

Lemma fs_le_refl s : fs_le s s.
Proof. split; [|done]. intros i f E. exists f. by repeat split. Qed.
Lemma fs_le_trans s1 s2 s3 : fs_le s1 s2 → fs_le s2 s3 → fs_le s1 s3.
Proof.
  intros [F1 N1] [F2 N2]. split; [|auto]. intros i f (f2 & (f3 & E & P3 & L3)%F2 & P2 & L2)%F1.
  exists f3. split; [done|]. split; [by etrans|lia].
Qed.
Lemma grows_refl s : grows s s.
Proof. split; try done. intros _. apply fs_le_refl. Qed.
Lemma grows_trans s1 s2 s3 : grows s1 s2 → grows s2 s3 → grows s1 s3.
Proof. intros [] []. split; [congruence..|auto|]. intros W. eauto using fs_le_trans. Qed.

(** Nothing of the files changes. *)
Lemma grows_same s s' :
  s'.(dir) = s.(dir) → s'.(files) = s.(files) → s'.(handles) = s.(handles) → s'.(fresh) = s.(fresh) →
  s'.(finished) = s.(finished) → s'.(output) = s.(output) → grows s s'.
Proof.
  intros Ed Ef Eh Er E1 E2. split; [done..| |].
  - intros [F Hh D]. split; rewrite ?Ed, ?Ef, ?Eh, ?Er; done.
  - intros _. split; unfold named; rewrite ?Ed, ?Ef; [|done]. intros i f E. exists f. by repeat split.
Qed.

End logger.

(** ** Running a computation *)

Section running.
Context {G : Type} `{Gzip G}.
(** Whether it may search for ever. *)
Context (may_spin : Prop).
Notation logger := (FileLogger G).
Notation M := (LM logger).

(** From [s] the files grow whatever happens, and [Q] holds where the
    computation returns. *)
Definition run {A} (m : M A) (s : logger) (Q : A → logger → Prop) : Prop :=
  ∀ r s', m s = Some (r, s') → grows s s' ∧ match r with Ok a => Q a s' | Err Spin => may_spin | Err (Exit _) => True end.

Lemma run_ret {A} (a : A) s (Q : A → logger → Prop) : Q a s → run (mret a) s Q.
Proof. intros HQ r s' [= <- <-]. split; [apply grows_refl|done]. Qed.
Lemma run_bind {A B} (m : M A) (f : A → M B) s Q : run m s (λ a s', run (f a) s' Q) → run (m ≫= f) s Q.
Proof.
  intros Hm r s'. unfold mbind, LM_bind. destruct (m s) as [[r1 s1]|] eqn:E; [|done]. apply Hm in E as [Hg HQ].
  destruct r1 as [a|e]; [|intros [= <- <-]; by split]. intros [Hg2 HQ2]%HQ. split; [by eapply grows_trans|done].
Qed.
Lemma run_mono {A} (m : M A) s (P Q : A → logger → Prop) : run m s P → (∀ a s', grows s s' → P a s' → Q a s') → run m s Q.
Proof. intros Hm HPQ r s' [Hg HP]%Hm. split; [done|]. destruct r; [by apply HPQ|done]. Qed.
Lemma run_wf {A} (m : M A) s (Q : A → logger → Prop) : wf s → run m s (λ a s', wf s' → Q a s') → run m s Q.
Proof. intros Hw Hm. eapply run_mono; [exact Hm|]. intros a s' Hg HQ. by apply HQ, (g_wf _ _ Hg). Qed.
Lemma run_get s Q : Q s s → run get s Q.
Proof. intros HQ r s' [= <- <-]. split; [apply grows_refl|done]. Qed.
Lemma run_modify f s (Q : () → logger → Prop) : grows s (f s) → Q () (f s) → run (modify f) s Q.
Proof. intros Hg HQ r s' [= <- <-]. by split. Qed.
Lemma run_exit {A} why s (Q : A → logger → Prop) : run (exit why) s Q.
Proof. intros r s' [= <- <-]. split; [apply grows_refl|done]. Qed.
Lemma run_spin {A} s (Q : A → logger → Prop) : may_spin → run spin s Q.
Proof. intros Hs r s' [= <- <-]. split; [apply grows_refl|done]. Qed.
Lemma run_crash {A} s (Q : A → logger → Prop) : run crash s Q.
Proof. by intros r s'. Qed.
Lemma run_exit_on {A} what (e : option A) text s (Q : () → logger → Prop) : (e = None → Q () s) → run (exit_on what e text) s Q.
Proof. intros HQ. destruct e; [apply run_exit|by apply run_ret, HQ]. Qed.
(** Nothing of the files is changed. *)
Lemma run_set f s (Q : () → logger → Prop) :
  (f s).(dir) = s.(dir) → (f s).(files) = s.(files) → (f s).(handles) = s.(handles) → (f s).(fresh) = s.(fresh) →
  (f s).(finished) = s.(finished) → (f s).(output) = s.(output) → Q () (f s) → run (modify f) s Q.
Proof. intros. apply run_modify; [by apply grows_same|done]. Qed.

Lemma run_now s Q : (∀ t ts, Q t (set_clock ts s)) → run now s Q.
Proof.
  intros HQ r s'. unfold now. destruct (clock s) as [|t ts] eqn:E; intros [= <- <-]; (split; [|]).
  - apply grows_refl.
  - specialize (HQ (openTime s) []). destruct s; cbn in *. by subst.
  - by apply grows_same.
  - apply HQ.
Qed.
Lemma run_syscall s Q : (∀ f fs, Q f (set_faults fs s)) → run syscall s Q.
Proof.
  intros HQ r s'. unfold syscall. destruct (faults s) as [|f fs] eqn:E; intros [= <- <-]; (split; [|]).
  - apply grows_refl.
  - specialize (HQ None []). destruct s; cbn in *. by subst.
  - by apply grows_same.
  - apply HQ.
Qed.

(** ** The calls of the system *)

(** An open handle and its file. *)
Definition opened (s : logger) (h : nat) (x : handle) (y : file) : Prop :=
  s.(handles) !! h = Some x ∧ x.(hd_open) = true ∧ s.(files) !! x.(hd_file) = Some y.

(** What a write leaves alone. *)
Record frame (s s' : logger) : Prop := {
  f_out : s'.(out) = s.(out);
  f_filename : s'.(filename) = s.(filename);
  f_rev : s'.(rev) = s.(rev);
  f_output : s'.(output) = s.(output);
  f_ended : s'.(ended) = s.(ended);
  f_dir : s'.(dir) = s.(dir);
  f_handles : s'.(handles) = s.(handles);
}.
Lemma frame_refl s : frame s s.
Proof. by split. Qed.
Lemma frame_trans s1 s2 s3 : frame s1 s2 → frame s2 s3 → frame s1 s3.
Proof. intros [] []. split; congruence. Qed.

(** The file of the open handle is now [f] of what it was. *)
Definition updated (h : option nat) (f : file → file) (s s' : logger) : Prop :=
  frame s s' ∧ ∃ i x y, h = Some i ∧ opened s i x y ∧ s'.(files) = <[x.(hd_file) := f y]> s.(files).

Lemma run_on_file h k s (Q : option string → logger → Prop) :
  (∀ y f, (y.(synced) <= length y.(content))%nat → extends y (k y f).1 ∧ ((k y f).1.(synced) <= length (k y f).1.(content))%nat) →
  (∀ y f, (k y f).2 = snd <$> f) →
  (∀ e s', (e = None → updated h (λ y, (k y None).1) s s' ∧ s'.(gzipWriter) = s.(gzipWriter)) → Q e s') →
  run (on_file h k) s Q.
Proof.
  intros Hk He HQ. unfold on_file. apply run_bind, run_syscall. intros f fs. apply run_bind, run_get.
  destruct (h ≫= _) as [[x y]|] eqn:E; [|by apply run_ret, HQ].
  destruct h as [h|]; [|done]. cbn in E. destruct (handles s !! h) as [x'|] eqn:Ex; [|done]. cbn in E. destruct (hd_open x') eqn:Eo; [|done].
  destruct (files s !! hd_file x') as [y'|] eqn:Ey; [|done]. injection E as -> ->.
  pose proof (Hk y f) as Hy. specialize (He y f). destruct (k y f) as [y' e] eqn:Ek. cbn in Hy, He. subst e. apply run_bind, run_modify; [|apply run_ret, HQ].
  - split; cbn; [done..| |].
    + intros [F Hh D]. destruct (F _ _ Ey) as [Hlt Hs]. destruct (Hy Hs) as [_ Hl]. split; cbn.
      * intros i f' [[<- <-]|[? E]]%lookup_insert_Some; [done|by apply F].
      * intros h' x' E. destruct (Hh _ _ E) as [? ?]. split; [done|]. by apply lookup_insert_is_Some'; right.
      * intros p i E. apply lookup_insert_is_Some'; right. by eapply D.
    + intros [F Hh D]. destruct (F _ _ Ey) as [Hlt Hs]. destruct (Hy Hs) as [He _]. split; cbn; [|done].
      intros i f' E. destruct (decide (i = hd_file x)) as [->|Hn].
      * rewrite lookup_insert_eq. exists y'. split; [done|]. congruence.
      * rewrite lookup_insert_ne by done. exists f'. by repeat split.
  - intros Hf. destruct f as [[]|]; [done|]. split; [|done]. split; [by split|]. exists h, x, y. split; [done|]. split; [done|]. cbn. by rewrite Ek.
Qed.

Definition append (p : bytes) (y : file) : file := mkFile (y.(content) ++ p) y.(synced).
Definition flush (y : file) : file := mkFile y.(content) (length y.(content)).

Lemma run_f_Write h p s (Q : option string → logger → Prop) :
  (∀ e s', (e = None → updated h (append p) s s' ∧ s'.(gzipWriter) = s.(gzipWriter)) → Q e s') → run (f_Write h p) s Q.
Proof.
  intros HQ. apply run_on_file; [|by intros y [[]|]|exact HQ].
  intros y [[n e]|] Hs; cbn; unfold extends; cbn; rewrite length_app; (split; [split; [by eexists|done]|lia]).
Qed.
Lemma run_f_Sync h s (Q : option string → logger → Prop) :
  (∀ e s', (e = None → updated h flush s s' ∧ s'.(gzipWriter) = s.(gzipWriter)) → Q e s') → run (f_Sync h) s Q.
Proof.
  intros HQ. apply run_on_file; [|by intros y [[]|]|exact HQ].
  intros y [[n e]|] Hs; cbn; unfold extends; cbn; split; try split; done.
Qed.

(** What else is left alone when the names or the handles change. *)
Record frame0 (s s' : logger) : Prop := {
  f0_out : s'.(out) = s.(out);
  f0_gzip : s'.(gzipWriter) = s.(gzipWriter);
  f0_filename : s'.(filename) = s.(filename);
  f0_rev : s'.(rev) = s.(rev);
  f0_output : s'.(output) = s.(output);
  f0_ended : s'.(ended) = s.(ended);
}.

(** The handle is closed, the files are as they were. *)
Definition closed (h : nat) (s s' : logger) : Prop :=
  frame0 s s' ∧ (s'.(dir) = s.(dir) ∧ s'.(files) = s.(files)) ∧ s'.(handles) = alter (λ x, mkHandle x.(hd_file) x.(hd_name) false) h s.(handles).

Lemma run_f_Close h s (Q : option string → logger → Prop) :
  (∀ e s', (e = None → closed h s s' ∧ ∃ x y, opened s h x y) → Q e s') → run (f_Close (Some h)) s Q.
Proof.
  intros HQ. unfold f_Close. apply run_bind, run_on_file; [by intros y f ?; cbn; repeat split|by intros y [[]|]|].
  intros e s1 He. apply run_bind, run_get. destruct e as [e|]; [by apply run_ret, HQ|].
  destruct He as [[Hf (i & x & y & [= <-] & Ho & Ef)] Eg]; [done|]. cbn in Ef.
  apply run_bind, run_modify; [|apply run_ret, HQ; intros _; split; [|by exists x, y]].
  - split; [done..| |intros _; split; [|done]; intros j f E; exists f; by repeat split].
    intros [F Hh D]. split; cbn; [done| |done]. intros h' x'. rewrite lookup_alter. case_decide as Hc; [|apply Hh].
    intros (x2 & E2 & ->)%fmap_Some. subst. by apply (Hh _ x2).
  - destruct Hf. split; [by split|]. split; [split; cbn; [done|]|cbn; congruence]. rewrite Ef. apply insert_id. apply Ho.
Qed.

Lemma run_f_Size h s (Q : Z → logger → Prop) :
  (∀ z fs, (∀ x y, opened s h x y → z = Z.of_nat (length y.(content))) → Q z (set_faults fs s)) → run (f_Size h) s Q.
Proof.
  intros HQ. unfold f_Size. apply run_bind, run_syscall. intros f fs. apply run_bind, run_get. destruct f; [apply run_crash|].
  destruct (x ← _; _) as [y|] eqn:E; [|apply run_crash]. apply run_ret, HQ. intros x' y' (Ex & _ & Ey). cbn in E. rewrite Ex in E. cbn in E. congruence.
Qed.

Lemma run_MkdirAll s (Q : option oserr → logger → Prop) : (∀ e fs, Q e (set_faults fs s)) → run MkdirAll s Q.
Proof. intros HQ. apply run_bind, run_syscall. intros f fs. apply run_ret, HQ. Qed.
Lemma run_os_Stat p s (Q : option oserr → logger → Prop) :
  (∀ e fs, (e = None → is_Some (s.(dir) !! p)) → Q e (set_faults fs s)) → run (os_Stat p) s Q.
Proof.
  intros HQ. apply run_bind, run_syscall. intros f fs. apply run_bind, run_get, run_ret, HQ.
  destruct f as [[]|]; [done|]. cbn. by destruct (dir s !! p).
Qed.

(** The name was there, or leads to an empty file now. *)
Definition open_result (path : bytes) (s s' : logger) (h : nat) : Prop :=
  frame0 s s' ∧ ∃ x y, s'.(handles) = <[h := x]> s.(handles) ∧ x.(hd_name) = path ∧ opened s' h x y ∧ s'.(dir) !! path = Some x.(hd_file) ∧
    (s'.(dir) = s.(dir) ∧ is_Some (s.(dir) !! path) ∨ s.(dir) !! path = None ∧ y = mkFile [] 0 ∧ s'.(dir) = <[path := x.(hd_file)]> s.(dir)).

Lemma run_OpenFile path ex s (Q : res oserr nat → logger → Prop) :
  wf s →
  (∀ e fs, (IsExist e = true → ex = true ∧ is_Some (s.(dir) !! path)) → Q (Err e) (set_faults fs s)) →
  (∀ h s', open_result path s s' h → (ex = true → s.(dir) !! path = None) → Q (Ok h) s') →
  run (OpenFile path ex) s Q.
Proof.
  intros [F Hh D] HE HO. unfold OpenFile. apply run_bind, run_syscall. intros f fs. apply run_bind, run_get. cbn [dir set_faults].
  destruct f as [[n e]|]; [by apply run_ret, HE|]. destruct (dir s !! path) as [i|] eqn:Ep.
  - destruct ex; [apply run_ret, HE; intros _; split; [done|by eexists]|].
    destruct (D _ _ Ep) as [y Ey]. apply run_bind, run_modify; [|apply run_ret, HO; [|done]].
    + split; cbn; [done..| |intros _; split; [|done]; intros i' f E'; exists f; by repeat split].
      intros _. split; cbn; [|..|done].
      * intros i' f (? & ?)%F. split; [lia|done].
      * intros h x [[<- <-]|[? Ex]]%lookup_insert_Some; [split; [lia|by eapply D]|]. apply Hh in Ex as [? ?]. split; [lia|done].
    + split; [done|]. exists (mkHandle i path true), y. cbn. split; [done|]. split; [done|]. split; [split; [apply lookup_insert_eq|done]|].
      split; [done|]. left. split; [done|]. by eexists.
  - apply run_bind, run_modify; [|apply run_ret, HO; [|done]].
    + split; cbn; [done..| |].
      * intros _. split; cbn.
        -- intros i f [[<- <-]|[? Ef]]%lookup_insert_Some; [cbn; lia|]. apply F in Ef as [? ?]. split; [lia|done].
        -- intros h x [[<- <-]|[? Ex]]%lookup_insert_Some; cbn; [rewrite lookup_insert_eq; by split; [lia|]|].
           apply Hh in Ex as [? ?]. split; [lia|]. by apply lookup_insert_is_Some'; right.
        -- intros p i [[<- <-]|[? Ei]]%lookup_insert_Some; [by rewrite lookup_insert_eq|]. apply lookup_insert_is_Some'; right. by eapply D.
      * intros _. split; cbn.
        -- intros i f Ef. pose proof (F _ _ Ef) as [? ?]. rewrite lookup_insert_ne by lia. exists f. by repeat split.
        -- intros i [p Ei]. exists p. cbn. rewrite lookup_insert_ne; [done|cbn in *; congruence].
    + split; [done|]. exists (mkHandle (fresh s) path true), (mkFile [] 0). cbn. split; [done|]. split; [done|].
      split; [split; [apply lookup_insert_eq|split; [done|apply lookup_insert_eq]]|]. split; [apply lookup_insert_eq|]. by right.
Qed.

(** A file that has another name loses one. *)
Lemma run_exclusiveRename src dst s (Q : option oserr → logger → Prop) :
  (∀ e fs, (IsExist e = true → is_Some (s.(dir) !! dst)) → Q (Some e) (set_faults fs s)) →
  (∀ e s', IsExist e = false → Q (Some e) s') →
  (∀ s', frame0 s s' → s'.(files) = s.(files) ∧ s'.(handles) = s.(handles) → (size s'.(dir) <= size s.(dir))%nat → Q None s') →
  run (exclusiveRename src dst) s Q.
Proof.
  intros HE HO HN. unfold exclusiveRename. apply run_bind. unfold os_Link at 1. apply run_bind, run_syscall. intros f fs. apply run_bind, run_get.
  destruct f as [[n e]|]; [by apply run_ret, run_ret, HO|]. cbn [dir set_faults].
  destruct (dir s !! dst) as [j|] eqn:Ed; [apply run_ret, run_ret, HE; by eexists|].
  destruct (dir s !! src) as [i|] eqn:Es; [|by apply run_ret, run_ret, HO].
  assert (Hn : src ≠ dst) by congruence. apply run_bind, run_modify; [|apply run_ret].
  - split; [done..| |].
    + intros [F Hh D]. split; cbn; [done..|]. intros p k [[<- <-]|[? Ep]]%lookup_insert_Some; by eapply D.
    + intros _. split; cbn; [intros k f Ef; exists f; by repeat split|]. intros k [p Ep]. exists p. cbn. rewrite lookup_insert_ne; [done|cbn in *; congruence].
  - unfold os_Remove. apply run_bind, run_syscall. intros f fs'. apply run_bind, run_get. destruct f as [[n e]|]; [by apply run_ret, HO|].
    cbn [dir set_fs set_faults files handles fresh]. rewrite lookup_insert_ne, Es by done.
    apply run_bind, run_modify; [|apply run_ret, HN; [done|done|]].
    + split; [done..| |].
      * intros [F Hh D]. split; cbn; [done..|]. intros p k [? E]%lookup_delete_Some. by eapply D.
      * intros _. split; cbn; [intros k f Ef; exists f; by repeat split|]. intros k [p Ep]. cbn in Ep.
        destruct (decide (p = src)) as [->|]; [exists dst|exists p]; cbn; rewrite lookup_delete_ne by done; [|done].
        rewrite lookup_insert_ne, Es in Ep by done. injection Ep as <-. apply lookup_insert_eq.
    + cbn. rewrite map_size_delete_Some by (rewrite lookup_insert_ne, Es by done; done). rewrite map_size_insert_None by done. lia.
Qed.

End running.

(** ** Names that are not free *)

Lemma names_taken (D : gmap (list Byte.byte) nat) (f : Z → bytes) (ks : list Z) :
  NoDup ks → (∀ k k', k ∈ ks → k' ∈ ks → f k = f k' → k = k') → (∀ k, k ∈ ks → is_Some (D !! f k)) → (length ks <= size D)%nat.
Proof.
  intros Hn Hf Hk. rewrite <- size_dom. rewrite <- (length_fmap f). unfold size, set_size. cbn. apply submseteq_length, NoDup_submseteq.
  - apply NoDup_fmap_2_strong; [|done]. intros k k' ? ? E. by apply Hf.
  - intros x Hx. apply list_elem_of_fmap in Hx as (k & -> & Hin). apply elem_of_elements, elem_of_dom. by apply Hk.
Qed.

(** The numbers a search tries. *)
Definition tried (start : Z) (n : nat) : list Z := (λ k, u64 (start + Z.of_nat k)) <$> seq 0 n.

Lemma tried_NoDup start n : Z.of_nat n <= 2 ^ 64 → NoDup (tried start n).
Proof.
  intros Hn. apply NoDup_fmap_2_strong; [|apply NoDup_seq]. intros k k' Hk%elem_of_seq Hk'%elem_of_seq E.
  unfold u64 in E. assert (Hz : (Z.of_nat k - Z.of_nat k') `mod` 2 ^ 64 = 0).
  { replace (Z.of_nat k - Z.of_nat k') with (start + Z.of_nat k - (start + Z.of_nat k')) by lia. rewrite Zminus_mod, E, Z.sub_diag. done. }
  apply Z.mod_divide in Hz as [q Hq]; [|done]. assert (q = 0) as -> by nia. lia.
Qed.
Lemma tried_range start n k : k ∈ tried start n → 0 <= k < 2 ^ 64.
Proof. intros (j & -> & _)%list_elem_of_fmap. apply Z.mod_pos_bound. done. Qed.

(** Two families of names, each of different ones, cannot all be taken. *)
Lemma names_run_out (D : gmap (list Byte.byte) nat) (f g : Z → bytes) start n :
  (2 * size D < n)%nat → Z.of_nat n <= 2 ^ 64 →
  (∀ k k', 0 <= k < 2 ^ 64 → 0 <= k' < 2 ^ 64 → f k = f k' → k = k') →
  (∀ k k', 0 <= k < 2 ^ 64 → 0 <= k' < 2 ^ 64 → g k = g k' → k = k') →
  ¬ (∀ k, k ∈ tried start n → is_Some (D !! f k) ∨ is_Some (D !! g k)).
Proof.
  intros Hn Hmax Hf Hg Hk. pose proof (tried_NoDup start n Hmax) as Hd.
  assert (Hl : length (tried start n) = n) by (unfold tried; by rewrite length_fmap, length_seq).
  pose proof (names_taken D f (filter (λ k, is_Some (D !! f k)) (tried start n))) as H1.
  pose proof (names_taken D g (filter (λ k, ¬ is_Some (D !! f k)) (tried start n))) as H2.
  assert (Hs : (length (filter (λ k, is_Some (D !! f k)) (tried start n)) + length (filter (λ k, ¬ is_Some (D !! f k)) (tried start n)) = n)%nat).
  { rewrite <- Hl at 3. rewrite <- length_app. apply Permutation_length, filter_app_complement. }
  enough ((n <= size D + size D)%nat) by lia. rewrite <- Hs at 1. apply Nat.add_le_mono.
  - apply H1; [by apply NoDup_filter| |].
    + intros k k' [_ Hi]%list_elem_of_filter [_ Hi']%list_elem_of_filter. apply Hf; by eapply tried_range.
    + by intros k []%list_elem_of_filter.
  - apply H2; [by apply NoDup_filter| |].
    + intros k k' [_ Hi]%list_elem_of_filter [_ Hi']%list_elem_of_filter. apply Hg; by eapply tried_range.
    + intros k [? Hin]%list_elem_of_filter. by destruct (Hk k Hin).
Qed.

End FileLoggerCalls.
