(* ===== verification/FileLoggerOps.v ===== *)
(** * The operations of the logger of nsq_to_file

    What [Close], [Sync], [Write], [updateFile] leave behind when they return;
    that they return holds when their searches meet a free name. *)
From stdpp Require Import base gmap list strings.
From Stdlib Require Import ZArith Lia.
From S2P Require Import Prelude.
From S2P Require Import Decimal.
From S2P Require Import Text.
From S2P Require Import Paths.
From S2P Require Import FileLogger.
From S2P Require Import FileLoggerCalls.
Set Default Goal Selector "!".
Local Open Scope Z_scope.

Module FileLoggerOps.
Import Paths FileLogger FileLoggerCalls.

Section ops.
Context {G : Type} `{Gzip G}.
Context (o : Options).
Context (may_spin : Prop).
Notation logger := (FileLogger G).
Notation run := (run may_spin).

(** ** Writing *)

(** The bytes are at the end of the file of the handle. *)
Definition wrote (h : option nat) (p : bytes) (s s' : logger) : Prop :=
  frame s s' ∧ (p = [] ∧ s'.(files) = s.(files) ∨ updated h (append p) s s').

(** What the gzip writer makes of an operation. *)
Definition gzipped (f : G → bytes * G) (s s' : logger) : Prop :=
  match s.(gzipWriter) with
  | None => False
  | Some (g, h) => wrote (Some h) (f g).1 s s' ∧ s'.(gzipWriter) = Some ((f g).2, h)
  end.

Lemma frame_set_gzip x (s s' : logger) : frame (set_gzip x s) s' → frame s s'.
Proof. intros []. by split. Qed.

Lemma run_gzip_close what s (Q : () → logger → Prop) :
  (∀ s', (s.(gzipWriter) = None ∧ s' = s ∨ gzipped gz_Close s s') → Q () s') → run (gzip_close what) s Q.
Proof.
  intros HQ. unfold gzip_close. apply run_bind, run_get. unfold gzipped in HQ. destruct (gzipWriter s) as [[g h]|] eqn:Eg; [|apply run_ret, HQ; by left].
  destruct (gz_Close g) as [bs g'] eqn:Ec. cbn in HQ. apply run_bind, run_set; [done..|]. case_bool_decide as Hb.
  - apply run_bind, run_ret, run_exit_on. intros _. apply HQ. right. split; [|done]. split; [by split|]. by left.
  - apply run_bind, run_f_Write. intros e s' He. apply run_exit_on. intros ->. apply HQ. right. destruct He as [[Hf Hu] Eg']; [done|].
    apply frame_set_gzip in Hf. split; [|done]. split; [done|]. right. by split.
Qed.

Lemma run_Write p s (Q : option string → logger → Prop) :
  (∀ e s', (e = None → s.(gzipWriter) = None ∧ s'.(gzipWriter) = None ∧ wrote s.(out) p s s' ∨ gzipped (gz_Write p) s s') → Q e s') → run (Write p) s Q.
Proof.
  intros HQ. unfold Write. apply run_bind, run_get. unfold gzipped in HQ. apply run_bind. destruct (gzipWriter s) as [[g h]|] eqn:Eg.
  - destruct (gz_Write p g) as [bs g'] eqn:Ec. cbn in HQ. apply run_bind, run_set; [done..|]. case_bool_decide as Hb.
    + apply run_ret. apply run_bind, run_set; [done..|]. apply run_ret, HQ. intros _. right. split; [|done]. split; [by split|]. by left.
    + apply run_f_Write. intros e s' He. apply run_bind, run_set; [done..|]. apply run_ret, HQ. intros E. destruct He as [[Hf Hu] Eg']; [done|].
      apply frame_set_gzip in Hf. right. split; [|done]. split; [destruct Hf; by split|]. right. split; [destruct Hf; by split|done].
  - apply run_f_Write. intros e s' He. apply run_bind, run_set; [done..|]. apply run_ret, HQ. intros E. destruct He as [[Hf Hu] Eg']; [done|].
    left. split; [done|]. split; [cbn; congruence|]. split; [destruct Hf; by split|]. right. split; [destruct Hf; by split|done].
Qed.

Lemma gzipped_frame f (s s' : logger) : gzipped f s s' → frame s s'.
Proof. unfold gzipped. destruct (gzipWriter s) as [[g h]|]; [|done]. intros [[Hf _] _]. exact Hf. Qed.

(** [Sync]: the stream is ended, the file is synced, and the next stream
    begins. *)
Definition Synced (s s' : logger) : Prop :=
  ∃ s1, (s.(gzipWriter) = None ∧ s1 = s ∧ s'.(gzipWriter) = None ∨
         gzipped gz_Close s s1 ∧ s'.(gzipWriter) = (λ h, (gz_new o.(GZIPLevel), h)) <$> s.(out)) ∧ updated s.(out) flush s1 s'.

Lemma run_Sync s (Q : () → logger → Prop) : (∀ s', Synced s s' → Q () s') → run (Sync o) s Q.
Proof.
  intros HQ. unfold Sync. apply run_bind, run_get. destruct (gzipWriter s) as [[g h]|] eqn:Eg.
  - apply run_bind, run_gzip_close. intros s1 [[E _]|Hz]; [congruence|]. pose proof (gzipped_frame _ _ _ Hz) as Hf.
    rewrite <- (f_out _ _ Hf). apply run_bind, run_f_Sync. intros e s' He. apply run_bind, run_set; [done..|]. apply run_exit_on. intros ->.
    destruct He as [[Hf' Hu] _]; [done|]. apply HQ. exists s1. split; [right; split; [done|]; cbn; by rewrite (f_out _ _ Hf)|].
    split; [destruct Hf'; by split|]. by rewrite <- (f_out _ _ Hf).
  - apply run_bind, run_f_Sync. intros e s' He. apply run_exit_on. intros ->. destruct He as [Hu Eg']; [done|]. apply HQ. exists s. split; [|done]. left. rewrite Eg'. done.
Qed.

(** ** Closing *)

(** Another name for the file, and the rest is as it was. *)
Definition renamed (s s' : logger) : Prop :=
  frame0 s s' ∧ (s'.(files) = s.(files) ∧ s'.(handles) = s.(handles)) ∧ (size s'.(dir) <= size s.(dir))%nat.

Lemma renamed_same s fs : renamed s (set_faults fs s).
Proof. by repeat split. Qed.
Lemma renamed_trans s1 s2 s3 : renamed s1 s2 → renamed s2 s3 → renamed s1 s3.
Proof. intros ([] & [] & ?) ([] & [] & ?). split; [split; congruence|]. split; [split; congruence|lia]. Qed.

Lemma tried_S start n : tried start (S n) = u64 start :: tried (u64 (start + 1)) n.
Proof.
  unfold tried. cbn [seq fmap list_fmap]. f_equal; [by rewrite Z.add_0_r|].
  rewrite <- fmap_S_seq, <- list_fmap_compose. apply list_fmap_ext. intros _ k _. unfold compose, u64. rewrite Zplus_mod_idemp_l. f_equal. lia.
Qed.

Lemma run_rename_loop src tmpl fuel : ∀ i s (Q : () → logger → Prop),
  0 <= i < 2 ^ 64 →
  ((∀ k, k ∈ tried i fuel → is_Some (s.(dir) !! rev_name tmpl k)) → may_spin) →
  (∀ s', renamed s s' → Q () s') → run (rename_loop fuel src tmpl i) s Q.
Proof.
  induction fuel as [|fuel IH]; intros i s Q Hi Hs HQ; cbn [rename_loop].
  - apply run_spin, Hs. intros k Hk. by apply elem_of_nil in Hk.
  - apply run_bind, run_exclusiveRename.
    + intros e fs He. destruct (IsExist e); [|apply run_exit]. apply IH; [apply Z.mod_pos_bound; done| |].
      * intros Ht. apply Hs. rewrite tried_S. intros k [->|Hk]%elem_of_cons; [|by apply Ht]. unfold u64. rewrite Z.mod_small by done. by apply He.
      * intros s' Hr. apply HQ. by eapply renamed_trans; [apply renamed_same|].
    + intros e s' He. rewrite He. apply run_exit.
    + intros s' Hf Hr Hn. apply run_ret, HQ. by split.
Qed.

Lemma set_clock_id (s : logger) : set_clock (clock s) s = s.
Proof. by destruct s. Qed.
Lemma set_out_id (s : logger) : set_out (out s) s = s.
Proof. by destruct s. Qed.

(** The name in the output directory. *)
Definition moved_name (s : logger) (h : nat) : bytes :=
  Join o.(OutputDir) (TrimPrefix (default [] (hd_name <$> s.(handles) !! h)) o.(WorkDir)).

(** [Close] of an open file: the stream is ended, the file is synced and
    closed; it keeps [out] when the first name in the output directory was
    free. *)
Definition Closed (h : nat) (s s' : logger) : Prop :=
  ∃ s1 s2 x y, (s.(gzipWriter) = None ∧ s1 = s ∨ gzipped gz_Close s s1) ∧ updated (Some h) flush s1 s2 ∧ opened s2 h x y ∧
    s'.(files) = s2.(files) ∧ s'.(handles) = alter (λ x, mkHandle x.(hd_file) x.(hd_name) false) h s.(handles) ∧
    s'.(gzipWriter) = s1.(gzipWriter) ∧ s'.(filename) = s.(filename) ∧ s'.(rev) = s.(rev) ∧ s'.(output) = s.(output) ∧ s'.(ended) = s.(ended) ∧
    (size s'.(dir) <= size s.(dir))%nat ∧ (s'.(out) = None ∧ (o.(WorkDir) = o.(OutputDir) ∨ is_Some (s.(dir) !! moved_name s h)) ∨ s'.(out) = Some h ∧ o.(WorkDir) ≠ o.(OutputDir)).

(** Why the search for a name in the output directory ends. *)
Definition renames (s : logger) : Prop :=
  may_spin ∨ o.(WorkDir) = o.(OutputDir) ∨
  ∀ src start (D : gmap (list Byte.byte) nat), size D = size s.(dir) →
    ¬ (∀ k, k ∈ tried start (S (2 * size D)) → is_Some (D !! rev_name (Join (split_file (Join o.(OutputDir) (TrimPrefix src o.(WorkDir)))).1 (split_file s.(filename)).2) k)).

Lemma run_Close s (Q : () → logger → Prop) :
  (is_Some s.(out) → renames s) →
  (s.(out) = None → Q () s) →
  (∀ h s', s.(out) = Some h → Closed h s s' → Q () s') → run (Close o) s Q.
Proof.
  intros Hs HN HC. unfold Close. apply run_bind, run_get. destruct (out s) as [h|] eqn:Eo; [|by apply run_ret, HN].
  apply run_bind, run_gzip_close. intros s1 H1.
  assert (Hf1 : frame s s1) by (destruct H1 as [[_ ->]|Hz]; [apply frame_refl|by eapply gzipped_frame]).
  apply run_bind, run_f_Sync. intros e s2 H2. apply run_bind, run_exit_on. intros ->. destruct H2 as [H2 Eg2]; [done|].
  apply run_bind, run_f_Close. intros e s3 H3. apply run_bind, run_exit_on. intros ->. destruct H3 as [(H3 & [Ed3 Ef3] & Eh3) (x & y & Ho)]; [done|].
  pose proof (f_dir _ _ Hf1) as Ed1. pose proof (proj1 H2) as Hf2.
  assert (HC' : ∀ s4 out', renamed s3 s4 → (out' = None ∧ (o.(WorkDir) = o.(OutputDir) ∨ is_Some (s.(dir) !! moved_name s h)) ∨ out' = Some h ∧ o.(WorkDir) ≠ o.(OutputDir)) → Closed h s (set_out out' s4)).
  { intros s4 out' ([] & [] & Hn) Hc. destruct Hf1, Hf2, H3. exists s1, s2, x, y.
    split; [done|]. split; [done|]. split; [done|]. cbn. split; [congruence|]. split; [congruence|].
    do 5 (split; [congruence|]). split; [|done]. rewrite Ed3 in Hn. congruence. }
  case_bool_decide as Hw; [apply run_set; [done..|]; apply (HC h); [done|]; apply HC'; [by repeat split|left; split; [done|by left]]|].
  assert (Hout : out s3 = Some h) by (destruct Hf1, Hf2, H3; congruence).
  apply run_bind, run_exclusiveRename.
  - intros e fs He. destruct (IsExist e) eqn:Ex; [|apply run_exit]. apply run_bind, run_get. set (tmpl := Join _ _).
    apply run_bind, run_rename_loop; [apply Z.mod_pos_bound; done| |].
    + intros Ht. destruct (Hs (ex_intro _ _ eq_refl)) as [?|[?|Hr]]; [done|done|]. exfalso. eapply (Hr _ _ (dir s3)); [by rewrite Ed3, (f_dir _ _ Hf2), Ed1|].
      cbn in Ht. subst tmpl. cbn in Ht. rewrite (f0_filename _ _ H3), (f_filename _ _ Hf2), (f_filename _ _ Hf1) in Ht. exact Ht.
    + intros s4 Hr. apply run_set; [done..|]. apply (HC h); [done|]. apply HC'; [by eapply renamed_trans; [apply renamed_same|]|]. left. split; [done|]. right.
      specialize (He eq_refl). rewrite Ed3, (f_dir _ _ Hf2), Ed1 in He. exact He.
  - intros e s4 He. rewrite He. apply run_exit.
  - intros s4 Hf Hr Hn. apply run_ret. apply (HC h); [done|].
    rewrite <- (set_out_id s4), (f0_out _ _ Hf), Hout.
    apply HC'; [by split|by right].
Qed.

(** ** Opening *)

Definition dst_name (fullPath : bytes) (k : Z) : bytes := Join o.(OutputDir) (TrimPrefix (rev_name fullPath k) o.(WorkDir)).

(** Why the search for a name to open ends. *)
Definition opens (fullPath : bytes) (fuel : nat) (s : logger) : Prop :=
  (∀ k, k ∈ tried s.(rev) fuel → (is_Some (s.(dir) !! rev_name fullPath k) ∧ needs_rev o = true) ∨ (o.(WorkDir) ≠ o.(OutputDir) ∧ is_Some (s.(dir) !! dst_name fullPath k))) → may_spin.

(** A file is open, a new one where they are exclusive. *)
Definition Opened (s s' : logger) : Prop :=
  (∃ h x y, s'.(out) = Some h ∧ opened s' h x y ∧ named s' x.(hd_file) ∧ (excl o = true → y = mkFile [] 0)) ∧
  s'.(gzipWriter) = s.(gzipWriter) ∧ s'.(filename) = s.(filename) ∧ s'.(output) = s.(output) ∧ s'.(ended) = s.(ended) ∧
  0 <= s'.(rev) < 2 ^ 64 ∧ (size s'.(dir) <= S (size s.(dir)))%nat.

Lemma run_open_loop fullPath fuel : ∀ s (Q : () → logger → Prop),
  wf s → 0 <= s.(rev) < 2 ^ 64 → opens fullPath fuel s → (∀ s', Opened s s' → Q () s') → run (open_loop o fuel fullPath) s Q.
Proof.
  induction fuel as [|fuel IH]; intros s Q Hw Hr Ho HQ; cbn [open_loop].
  - apply run_spin, Ho. intros k Hk. by apply elem_of_nil in Hk.
  - (* the next number, when this one is taken *)
    assert (Hnext : ∀ s', wf s' → s'.(dir) = s.(dir) → s'.(rev) = s.(rev) → s'.(gzipWriter) = s.(gzipWriter) → s'.(filename) = s.(filename) →
      s'.(output) = s.(output) → s'.(ended) = s.(ended) →
      (is_Some (s.(dir) !! rev_name fullPath s.(rev)) ∧ needs_rev o = true) ∨ (o.(WorkDir) ≠ o.(OutputDir) ∧ is_Some (s.(dir) !! dst_name fullPath s.(rev))) →
      run (_ ← next_rev; open_loop o fuel fullPath) s' Q).
    { intros s' Hw' Ed Er Eg Ef Eo Ee Ht. apply run_bind, run_set; [done..|]. apply IH.
      - by destruct Hw'.
      - apply Z.mod_pos_bound. done.
      - intros Hk. apply Ho. rewrite tried_S. cbn in Hk. rewrite Er, Ed in Hk. intros k [->|Hin]%elem_of_cons; [|by apply Hk].
        unfold u64. by rewrite Z.mod_small.
      - intros s'' (H1 & H2 & H3 & H4 & H5 & H6 & H7). cbn in *. apply HQ. split; [done|]. rewrite Ed in H7. do 4 (split; [congruence|]). done. }
    apply run_bind, run_get. apply run_bind, (run_mono _ _ _ (λ taken s', ∃ fs, s' = set_faults fs s ∧
      (taken = true → o.(WorkDir) ≠ o.(OutputDir) ∧ is_Some (s.(dir) !! dst_name fullPath s.(rev))))).
    { case_bool_decide as Hwo; [apply run_ret; exists (faults s); by destruct s|].
      apply run_bind, run_MkdirAll. intros e fs. apply run_bind, run_exit_on. intros _. apply run_bind, run_os_Stat. intros e' fs' He.
      destruct e' as [e'|]; [|by apply run_ret; eexists; split; [reflexivity|]; intros _; split; [|by apply He]].
      destruct (IsNotExist e'); [by apply run_ret; eexists|apply run_exit]. }
    intros taken s0 _ (fs & -> & Htaken). assert (Hw0 : wf (set_faults fs s)) by by destruct Hw.
    destruct taken; [apply Hnext; auto|]. apply run_bind, run_wf; [done|]. apply run_OpenFile; [done| |].
    + intros e fs' He _. destruct (IsExist e) eqn:Ex; [|apply run_exit]. destruct He as [He Hs]; [done|]. apply Hnext; [by destruct Hw|done..|].
      left. split; [done|]. unfold excl in He. unfold needs_rev. by destruct (GZIP o), (0 <? RotateInterval o), (0 <? RotateSize o).
    + intros h s1 (Hf & x & y & Eh & En & Hop & Ed & Hd) Hexcl Hw1. destruct Hf.
      apply run_bind, run_set; [done..|]. apply run_bind, run_f_Size. intros z fs' Hz. apply run_bind, run_set; [done..|].
      specialize (Hz x y Hop). destruct ((0 <? RotateSize o) && (RotateSize o <? z)) eqn:Eb.
      * apply andb_true_iff in Eb as [Eb1%Z.ltb_lt Eb2%Z.ltb_lt]. destruct Hd as [[Hd Hs]|(_ & -> & _)]; [|cbn in Hz; lia].
        apply Hnext; [by destruct Hw1|done..|]. left. split; [done|]. unfold needs_rev. apply Z.ltb_lt in Eb1. rewrite Eb1. by rewrite orb_true_r.
      * apply run_ret, HQ. split; [exists h, x, y; split; [done|]; split; [done|]; split; [by eexists|]|].
        -- intros Hx. specialize (Hexcl Hx). destruct Hd as [[_ [? ?]]|(_ & -> & _)]; [cbn in *; congruence|done].
        -- cbn in *. do 4 (split; [congruence|]). split; [by rewrite f0_rev0|].
           destruct Hd as [[-> _]|(Hn & _ & ->)]; [lia|]. by rewrite map_size_insert_None.
Qed.

(** ** Names with a number *)

Lemma REV_part b : slash ∉ b → Contains b REV = true → normal_part b.
Proof.
  intros Hs Hc%Contains_length. change (length REV) with 5%nat in Hc. split_and!; [..|done]; intros ->; cbn in Hc; lia.
Qed.

Definition number (k : Z) : bytes := tx "-" ++ Decimal.fmt_06d k.

Lemma digit_slash b : Decimal.is_digit b = true → b ≠ slash.
Proof. intros Hd ->. by vm_compute in Hd. Qed.
Lemma number_slash k : 0 <= k → slash ∉ number k.
Proof.
  intros Hk [Hin|Hin]%elem_of_app; [by vm_compute in Hin; apply list_elem_of_singleton in Hin|].
  destruct (Decimal.fmt_06d_digits k Hk) as [Hf _]. rewrite Forall_forall in Hf. by apply Hf, digit_slash in Hin.
Qed.
Lemma number_length k : 0 <= k → (length REV <= length (number k))%nat.
Proof.
  intros Hk. unfold number. rewrite length_app. unfold Decimal.fmt_06d. change (length REV) with 5%nat. change (length (tx "-")) with 1%nat.
  destruct (k <? 0) eqn:E; [apply Z.ltb_lt in E; lia|]. rewrite length_app, length_replicate. lia.
Qed.

Lemma REV_not_nil : REV ≠ [].
Proof. by vm_compute. Qed.
Lemma slash_REV : slash ∉ REV.
Proof. apply (bool_decide_unpack _). by vm_compute. Qed.
Hint Resolve REV_not_nil slash_REV : core.

Lemma base_rev_name T k : 0 <= k → base (rev_name T k) = Replace (base T) REV (number k).
Proof.
  intros Hk. destruct (split_file_spec T) as (E & Hs & Hd). unfold rev_name. fold (number k).
  assert (Hs' : slash ∉ Replace (base T) REV (number k)) by (intros [?|?]%elem_of_replace; [done|by apply (number_slash k)]).
  destruct Hd as [Hd|[d Hd]]; rewrite Hd in E.
  - rewrite E at 1. cbn. unfold base at 1. by rewrite base_part.
  - rewrite E at 1. rewrite <- app_assoc. cbn. unfold Replace at 1. rewrite replace_sep by (done || cbn; lia). unfold base at 1. by rewrite split_file_app.
Qed.

Lemma rev_part b k : slash ∉ b → Contains b REV = true → 0 <= k → normal_part (Replace b REV (number k)).
Proof.
  intros Hs Hc%Contains_length Hk. pose proof (replace_grows REV (number k) b 0 (number_length k Hk) REV_not_nil ltac:(lia)) as Hl.
  change (replace 0 REV (number k) b) with (Replace b REV (number k)) in Hl. change (length REV) with 5%nat in Hc.
  assert (Hs' : slash ∉ Replace b REV (number k)) by (intros [?|?]%elem_of_replace; [done|by apply (number_slash k)]).
  split_and!; [..|done]; intros E; rewrite E in Hl; cbn in Hl; lia.
Qed.

(** Two names that end in the same template with different numbers differ. *)
Lemma numbered_inj b k k' : Contains b REV = true → 0 <= k → 0 <= k' → Replace b REV (number k) = Replace b REV (number k') → k = k'.
Proof. intros Hc Hk Hk' E. apply Replace_inj in E; [|done..]. apply app_inv_head in E. by apply Decimal.fmt_06d_inj. Qed.

Lemma rev_name_inj T k k' : Contains (base T) REV = true → 0 <= k → 0 <= k' → rev_name T k = rev_name T k' → k = k'.
Proof. intros Hc Hk Hk' E. apply (f_equal base) in E. rewrite !base_rev_name in E by done. by eapply numbered_inj. Qed.

(** A file name with a number in its last part, below the working directory. *)
Definition numbered (name : bytes) : Prop :=
  Contains (base name) REV = true ∧
  (o.(WorkDir) = o.(OutputDir) ∨ ∃ q, Join o.(WorkDir) name = q ++ slash :: base name ∧ (length o.(WorkDir) <= length q)%nat).

Lemma base_numbered d name : Contains (base name) REV = true → base (Join d name) = base name.
Proof. intros Hc. apply base_Join, REV_part; [|done]. apply split_file_spec. Qed.

Lemma base_dst_name name k : o.(WorkDir) ≠ o.(OutputDir) → numbered name → 0 <= k →
  base (dst_name (Join o.(WorkDir) name) k) = Replace (base name) REV (number k).
Proof.
  intros Hw [Hc [?|(q & Hq & Hl)]] Hk; [done|]. destruct (split_file_spec name) as (_ & Hs & _).
  set (b := Replace (base name) REV (number k)). assert (Hb : normal_part b) by by apply rev_part. pose proof Hb as (_ & _ & _ & Hsb).
  assert (∃ z, TrimPrefix (rev_name (Join o.(WorkDir) name) k) o.(WorkDir) = z ++ slash :: b) as [z E].
  { rewrite Hq. unfold rev_name. fold (number k). unfold Replace. rewrite replace_sep by (done || cbn; lia). fold b. unfold TrimPrefix.
    pose proof (replace_grows REV (number k) q 0 (number_length k Hk) REV_not_nil ltac:(lia)).
    destruct (has_prefix _ _); [|by eexists]. rewrite drop_app_le by lia. by eexists. }
  unfold dst_name. rewrite E. rewrite base_Join; unfold base; by rewrite split_file_app.
Qed.

(** The search for a file to open meets a free name. *)
Lemma opens_ok name s : Z.of_nat (search_fuel s) <= 2 ^ 64 → needs_rev o = false ∨ numbered name → opens (Join o.(WorkDir) name) (search_fuel s) s.
Proof.
  intros Hm Hn Hk. exfalso. destruct Hn as [Hn|Hn].
  - unfold needs_rev in Hn. destruct (Hk (u64 s.(rev))) as [[_ ?]|[Hw _]].
    + unfold search_fuel. rewrite tried_S. by left.
    + unfold needs_rev in *. congruence.
    + rewrite (bool_decide_eq_false_2 (o.(WorkDir) = o.(OutputDir))) in Hn by done. cbn in Hn. by rewrite orb_true_r in Hn.
  - destruct (decide (o.(WorkDir) = o.(OutputDir))) as [Hw|Hw].
    + apply (names_run_out s.(dir) (rev_name (Join o.(WorkDir) name)) (rev_name (Join o.(WorkDir) name)) s.(rev) (search_fuel s)); [unfold search_fuel; lia|done|..].
      * intros k k' [? _] [? _]. apply rev_name_inj; [|done..]. destruct Hn as [Hc _]. by rewrite base_numbered.
      * intros k k' [? _] [? _]. apply rev_name_inj; [|done..]. destruct Hn as [Hc _]. by rewrite base_numbered.
      * intros k Hin. destruct (Hk k Hin) as [[? _]|[? _]]; [by left|done].
    + apply (names_run_out s.(dir) (rev_name (Join o.(WorkDir) name)) (dst_name (Join o.(WorkDir) name)) s.(rev) (search_fuel s)); [unfold search_fuel; lia|done|..].
      * intros k k' [? _] [? _]. apply rev_name_inj; [|done..]. destruct Hn as [Hc _]. by rewrite base_numbered.
      * intros k k' [? _] [? _] E. apply (f_equal base) in E. rewrite !base_dst_name in E by done. destruct Hn as [Hc _]. by eapply numbered_inj.
      * intros k Hin. destruct (Hk k Hin) as [[? _]|[_ ?]]; [by left|by right].
Qed.

(** So does the search for a name in the output directory. *)
Lemma renames_ok s : Z.of_nat (search_fuel s) <= 2 ^ 64 → o.(WorkDir) = o.(OutputDir) ∨ Contains (base s.(filename)) REV = true → renames s.
Proof.
  intros Hm [Hn|Hc]; right; [by left|right]. intros src start D HD. set (T := Join _ _). intros Hk.
  assert (Hb : Contains (base T) REV = true).
  { unfold T. fold (base s.(filename)). assert (Hbb : base (base (filename s)) = base (filename s)).
    { unfold base at 1. rewrite base_part; [done|apply split_file_spec]. }
    rewrite base_numbered; by rewrite Hbb. }
  apply (names_run_out D (rev_name T) (rev_name T) start (S (2 * size D))); [lia|by rewrite HD| | |].
  - intros k k' [? _] [? _]. by apply rev_name_inj.
  - intros k k' [? _] [? _]. by apply rev_name_inj.
  - intros k Hin. left. by apply Hk.
Qed.

Context (Format : bytes → time → bytes) (filenameFormat : bytes).

(** ** Names and rotation *)

Definition name_at (t : time) : bytes := Replace filenameFormat (tx "<DATETIME>") (strftime Format o.(DatetimeFormat) t).

Lemma run_currentFilename s (Q : bytes → logger → Prop) : (∀ t ts, Q (name_at t) (set_clock ts s)) → run (currentFilename Format o filenameFormat) s Q.
Proof. intros HQ. apply run_bind, run_now. intros t ts. apply run_ret, HQ. Qed.

Lemma run_needsRotation s (Q : bool → logger → Prop) :
  (∀ r ts, (s.(out) = None → r = true) → Q r (set_clock ts s)) → run (needsRotation Format o filenameFormat) s Q.
Proof.
  intros HQ. unfold needsRotation. apply run_bind, run_get. destruct (out s) as [h|] eqn:Eo.
  - apply run_bind, run_currentFilename. intros t ts. destruct (negb _); [by apply run_ret, HQ|]. apply run_bind.
    destruct (0 <? RotateInterval o).
    + apply run_bind, run_now. intros t' ts'. apply run_ret. change (set_clock ts' (set_clock ts s)) with (set_clock ts' s).
      destruct (_ <? _); by apply run_ret, HQ.
    + by apply run_ret, run_ret, HQ.
  - apply run_ret. rewrite <- (set_clock_id s). by apply HQ.
Qed.

(** ** A new file *)

(** The names that are used, and that there are not too many files. *)
Definition searches (s : logger) : Prop :=
  may_spin ∨
  (∀ t, needs_rev o = false ∨ numbered (name_at t)) ∧ Z.of_nat (search_fuel s) <= 2 ^ 64 ∧ (s.(out) = None ∨ ∃ t, s.(filename) = name_at t).

(** From the state after [Close], a file is open and a stream begins. *)
Definition Reopened (s s' : logger) : Prop :=
  (∃ h x y, s'.(out) = Some h ∧ opened s' h x y ∧ named s' x.(hd_file) ∧ (excl o = true → y = mkFile [] 0) ∧
    s'.(gzipWriter) = if o.(GZIP) then Some (gz_new o.(GZIPLevel), h) else s.(gzipWriter)) ∧
  (∃ t, s'.(filename) = name_at t) ∧ s'.(output) = s.(output) ∧ s'.(ended) = s.(ended) ∧
  0 <= s'.(rev) < 2 ^ 64 ∧ (size s'.(dir) <= S (size s.(dir)))%nat.

Definition Updated (s s' : logger) : Prop :=
  ∃ s1, (s.(out) = None ∧ s1 = s ∨ ∃ h, s.(out) = Some h ∧ Closed h s s1) ∧ wf s1 ∧ grows s s1 ∧ grows s1 s' ∧ Reopened s1 s'.

Lemma searches_renames s : searches s → is_Some s.(out) → renames s.
Proof.
  intros [?|(Hn & Hm & Hf)] [h Ho]; [by left|]. destruct Hf as [?|[t Hf]]; [congruence|]. apply renames_ok; [done|].
  destruct (Hn t) as [Hr|[Hc _]]; [left|right; by rewrite Hf]. unfold needs_rev in Hr. destruct (decide (o.(WorkDir) = o.(OutputDir))) as [|Hw]; [done|].
  rewrite (bool_decide_eq_false_2 _ Hw) in Hr. cbn in Hr. by rewrite orb_true_r in Hr.
Qed.

Lemma run_updateFile s (Q : () → logger → Prop) :
  wf s → 0 <= s.(rev) < 2 ^ 64 → searches s → (∀ s', Updated s s' → Q () s') → run (updateFile Format o filenameFormat) s Q.
Proof.
  intros Hw Hr Hs HQ. unfold updateFile. apply run_bind, run_wf; [done|].
  apply (run_mono _ _ _ (λ _ s1, s.(out) = None ∧ s1 = s ∨ ∃ h, s.(out) = Some h ∧ Closed h s s1)).
  { apply run_Close; [by apply searches_renames|intros ?; by left|]. intros h s1 Eo Hc. right. by exists h. }
  intros [] s1 Hg1 Hc Hw1.
  assert (Hr1 : 0 <= s1.(rev) < 2 ^ 64 ∧ (size s1.(dir) <= size s.(dir))%nat).
  { destruct Hc as [[_ ->]|(h & _ & (? & ? & ? & ? & _ & _ & _ & _ & _ & _ & _ & -> & _ & _ & ? & _))]; [done|]. by split. }
  destruct Hr1 as [Hr1 Hn1]. apply (run_mono _ _ _ (λ _ s', Reopened s1 s')).
  2: { intros [] s' Hg2 Hro. apply HQ. by exists s1. }
  apply run_bind, run_currentFilename. intros t ts. apply run_bind, run_set; [done..|]. apply run_bind, run_now. intros t' ts'.
  apply run_bind, run_set; [done..|]. apply run_bind, run_MkdirAll. intros e fs. apply run_bind, run_exit_on. intros _. apply run_bind, run_get.
  set (s2 := set_faults _ _). assert (Hw2 : wf s2) by by destruct Hw1. assert (Hr2 : 0 <= s2.(rev) < 2 ^ 64).
  { cbn. case_bool_decide; [apply Z.mod_pos_bound; done|lia]. }
  apply run_bind, run_open_loop; [done|done| |].
  { destruct Hs as [?|(Hn & Hm & Hf)]; [by intros _|]. apply opens_ok; [|done]. unfold search_fuel in *. cbn. lia. }
  intros s3 ((h & x & y & Eo & Hop & Hnm & Hx) & Eg & Ef & Eout & Ee & Hr3 & Hn3). cbn in Eg, Ef, Eout, Ee, Hn3.
  apply run_bind, run_get. destruct (GZIP o) eqn:Ez.
  - apply run_set; [done..|]. split; [exists h, x, y; rewrite Ez; cbn; by rewrite Eo|]. split; [by exists t|]. done.
  - apply run_ret. split; [exists h, x, y; by rewrite Ez|]. split; [by exists t|]. done.
Qed.

End ops.
End FileLoggerOps.
