(* ===== verification/FileLoggerProps.v ===== *)
(** * What nsq_to_file promises

    A finished message is in a file, on the disk and readable, whatever fails
    and however the file is rotated ([acked_durable]); the search for a free
    name ends ([rotation_terminates]); after a file was moved on a HUP nothing
    is finished any more ([hup_stuck]). *)
From stdpp Require Import base gmap list strings.
From Stdlib Require Import ZArith Lia.
From S2P Require Import Prelude.
From S2P Require Import Decimal.
From S2P Require Import Text.
From S2P Require Import Paths.
From S2P Require Import FileLogger.
From S2P Require Import FileLoggerCalls.
From S2P Require Import FileLoggerOps.
Set Default Goal Selector "!".
Local Open Scope Z_scope.

(** What is written between the start of a stream and its end. *)
Fixpoint gz_run {G} `{Gzip G} (ps : list bytes) (g : G) : bytes * G :=
  match ps with
  | [] => ([], g)
  | p :: ps => let '(em, g) := gz_Write p g in let '(em', g) := gz_run ps g in (em ++ em', g)
  end.

(** [compress/gzip]: a stream that was closed is read back, and streams may
    follow each other. *)
Class GzipLaws (G : Type) `{Gzip G} (gunzip : bytes → option bytes) := {
  gunzip_nil : gunzip [] = Some [];
  gunzip_app : ∀ a d b, gunzip a = Some d → gunzip (a ++ b) = app d <$> gunzip b;
  gunzip_stream : ∀ level ps em g, gz_run ps (gz_new level) = (em, g) → gunzip (em ++ (gz_Close g).1) = Some (concat ps);
}.

Module FileLoggerSpec.
Import Paths FileLogger FileLoggerCalls FileLoggerOps.

Section turns.
Context {G : Type} `{Gzip G}.
Notation logger := (FileLogger G).

(** ** A turn of the router *)

(** [Q] holds where the computation returns, [E] where the program ends. *)
Definition turn {A} (m : LM logger A) (s : logger) (Q : A → logger → Prop) (E : stop → logger → Prop) : Prop :=
  ∀ r s', m s = Some (r, s') → match r with Ok a => Q a s' | Err e => E e s' end.

Lemma turn_bind {A B} (m : LM logger A) (f : A → LM logger B) s Q E : turn m s (λ a s', turn (f a) s' Q E) E → turn (m ≫= f) s Q E.
Proof.
  intros Hm r s'. unfold mbind, LM_bind. destruct (m s) as [[r1 s1]|] eqn:E1; [|done]. apply Hm in E1.
  destruct r1 as [a|e]; [apply E1|by intros [= <- <-]].
Qed.
Lemma turn_ret {A} (a : A) s (Q : A → logger → Prop) E : Q a s → turn (mret a) s Q E.
Proof. by intros HQ r s' [= <- <-]. Qed.
Lemma turn_get s (Q : logger → logger → Prop) E : Q s s → turn get s Q E.
Proof. by intros HQ r s' [= <- <-]. Qed.
Lemma turn_modify f s (Q : () → logger → Prop) E : Q () (f s) → turn (modify f) s Q E.
Proof. by intros HQ r s' [= <- <-]. Qed.

Lemma turn_mono {A} (m : LM logger A) s (Q : A → logger → Prop) (E E' : stop → logger → Prop) : (∀ e s', E e s' → E' e s') → turn m s Q E → turn m s Q E'.
Proof. intros HE Hm r s' Eq. specialize (Hm r s' Eq). destruct r; [done|by apply HE]. Qed.

End turns.

Section durable.
Context {G : Type} `{GzipLaws G gunzip}.
Context (o : Options).
Notation logger := (FileLogger G).
Notation run := (run True).

(** ** What a file says *)

Definition decode (bs : bytes) : option bytes := if o.(GZIP) then gunzip bs else Some bs.
Definition within (l d : bytes) : Prop := ∃ pre post, d = pre ++ l ++ post.

(** The line of the message is in a file that has a name, in a part of it that
    is on the disk and can be read. *)
Definition durable (s : logger) (m : message) : Prop :=
  ∃ i f n d, s.(files) !! i = Some f ∧ named s i ∧ (n <= f.(synced))%nat ∧ decode (take n f.(content)) = Some d ∧ within (line m) d.

Lemma within_app l d p : within l d → within l (d ++ p).
Proof. intros (pre & post & ->). exists pre, (post ++ p). by rewrite <- !app_assoc. Qed.

Lemma durable_le s s' m : wf s → fs_le s s' → durable s m → durable s' m.
Proof.
  intros Hw [Hf Hn] (i & f & n & d & Ef & Ei & Hs & Ed & Hd). destruct (Hf _ _ Ef) as (f' & Ef' & [k Hk] & Hl).
  exists i, f', n, d. split; [done|]. split; [by apply Hn|]. split; [lia|]. split; [|done].
  rewrite Hk, take_app_le; [done|]. apply (wf_files _ Hw) in Ef. lia.
Qed.
Lemma durable_grows s s' m : wf s → grows s s' → durable s m → durable s' m.
Proof. intros Hw Hg. apply durable_le; [done|]. by apply (g_le _ _ Hg). Qed.

(** What the open file will say when its stream has ended. *)
Definition text (s : logger) (h : nat) (y : file) (d : bytes) : Prop :=
  if o.(GZIP) then
    ∃ g ps bs em d0, s.(gzipWriter) = Some (g, h) ∧ gz_run ps (gz_new o.(GZIPLevel)) = (em, g) ∧
      y.(content) = bs ++ em ∧ gunzip bs = Some d0 ∧ d = d0 ++ concat ps
  else s.(gzipWriter) = None ∧ d = y.(content).

(** Messages that wait for their [Sync], and what was written after them. *)
Definition pending (s : logger) (ms : list message) (tail : bytes) : Prop :=
  match s.(out) with
  | None => tail = [] ∧ ∀ m, m ∈ ms → durable s m
  | Some h => ∀ x y, opened s h x y → named s x.(hd_file) ∧ ∃ d, text s h y (d ++ tail) ∧ ∀ m, m ∈ ms → durable s m ∨ within (line m) d
  end.

Record inv_at (s : logger) (ms : list message) (tail : bytes) : Prop := {
  i_wf : wf s;
  i_rev : 0 <= s.(rev) < 2 ^ 64;
  i_pending : pending s ms tail;
  i_gzip : o.(GZIP) = false → s.(gzipWriter) = None;
  i_finished : ∀ m, m ∈ s.(finished) → durable s m;
}.

(** The invariant between two steps. *)
Notation inv s := (inv_at s (output s) []).

Lemma opened_eq (s : logger) h x y x' y' : opened s h x y → opened s h x' y' → x' = x ∧ y' = y.
Proof. intros (E1 & _ & E2) (E1' & _ & E2'). rewrite E1 in E1'. injection E1' as <-. rewrite E2 in E2'. by injection E2' as <-. Qed.

Lemma opened_same (s s' : logger) h x y : s'.(handles) = s.(handles) → s'.(files) = s.(files) → opened s' h x y ↔ opened s h x y.
Proof. intros Eh Ef. unfold opened. by rewrite Eh, Ef. Qed.

(** Of an open handle, a write changes the file; it opens nothing. *)
Lemma wrote_opened h p (s s' : logger) x y : wrote (Some h) p s s' → opened s h x y → ∃ y', opened s' h x y' ∧ y'.(content) = y.(content) ++ p.
Proof.
  intros [Hf [[-> Ef]|(_ & i & x' & y' & [= <-] & Ho' & Ef)]] Ho.
  - exists y. rewrite app_nil_r. split; [|done]. apply (opened_same s); [apply (f_handles _ _ Hf)|done|done].
  - destruct (opened_eq _ _ _ _ _ _ Ho Ho') as [-> ->]. exists (append p y). split; [|done]. unfold opened. rewrite (f_handles _ _ Hf), Ef.
    destruct Ho as (? & ? & _). split; [done|]. split; [done|]. apply lookup_insert_eq.
Qed.
Lemma updated_opened_inv h f (s s' : logger) k x y : updated h f s s' → opened s' k x y → ∃ y', opened s k x y'.
Proof.
  intros (Hf & i & x' & y' & -> & Ho & Ef) (E1 & E2 & E3). rewrite (f_handles _ _ Hf) in E1. rewrite Ef in E3.
  apply lookup_insert_Some in E3 as [[E _]|[_ E3]]; [|by exists y]. exists y'. split; [done|]. split; [done|]. rewrite <- E. apply Ho.
Qed.
Lemma wrote_opened_inv h p (s s' : logger) k x y : wrote h p s s' → opened s' k x y → ∃ y', opened s k x y'.
Proof.
  intros [Hf [[_ Ef]|Hu]] Ho; [|by eapply updated_opened_inv]. exists y. eapply opened_same; [..|exact Ho]; [by rewrite (f_handles _ _ Hf)|done].
Qed.

Lemma gz_run_snoc ps p (g : G) : gz_run (ps ++ [p]) g = ((gz_run ps g).1 ++ (gz_Write p (gz_run ps g).2).1, (gz_Write p (gz_run ps g).2).2).
Proof.
  revert g. induction ps as [|q ps IH]; intros g; cbn.
  - destruct (gz_Write p g) as [em g']. cbn. by rewrite app_nil_r.
  - destruct (gz_Write q g) as [em g'] eqn:E. rewrite IH. destruct (gz_run ps g') as [em' g'']. cbn. by rewrite <- app_assoc.
Qed.

(** ** Writing *)

Lemma pending_write p s s' ms tail :
  wf s → grows s s' → is_Some s.(out) → pending s ms tail →
  (s.(gzipWriter) = None ∧ s'.(gzipWriter) = None ∧ wrote s.(out) p s s' ∨ gzipped (gz_Write p) s s') →
  s'.(out) = s.(out) ∧ pending s' ms (tail ++ p).
Proof.
  intros Hw Hg [h Eo] Hp Hwr. unfold pending in *. rewrite Eo in *.
  assert (Hf : frame s s') by (destruct Hwr as [(_ & _ & [Hf _])|Hz]; [done|by eapply gzipped_frame]).
  split; [by rewrite (f_out _ _ Hf)|]. rewrite (f_out _ _ Hf), Eo. intros x y' Ho'.
  assert (∃ y, opened s h x y) as [y Ho].
  { destruct Hwr as [(_ & _ & Hwr)|Hz]; [by eapply wrote_opened_inv|]. unfold gzipped in Hz. destruct (gzipWriter s) as [[g k]|]; [|done].
    destruct Hz as [Hwr _]. by eapply wrote_opened_inv. }
  destruct (Hp x y Ho) as (Hn & d & Ht & Hm). split; [by apply (le_named _ _ (g_le _ _ Hg Hw))|]. exists d. split.
  2: { intros m Hin. destruct (Hm m Hin) as [?|?]; [left; by eapply durable_grows|by right]. }
  unfold text in *. destruct (GZIP o).
  - destruct Ht as (g & ps & bs & em & d0 & Eg & Er & Ec & Ed & E). destruct Hwr as [(E' & _)|Hz]; [congruence|].
    unfold gzipped in Hz. rewrite Eg in Hz. destruct Hz as [Hwr Eg']. destruct (wrote_opened _ _ _ _ _ _ Hwr Ho) as (y2 & Ho2 & Ec2).
    destruct (opened_eq _ _ _ _ _ _ Ho' Ho2) as [_ ->]. exists (gz_Write p g).2, (ps ++ [p]), bs, (em ++ (gz_Write p g).1), d0.
    split; [done|]. split; [by rewrite gz_run_snoc, Er|]. split; [by rewrite Ec2, Ec, <- app_assoc|]. split; [done|].
    rewrite concat_app. cbn. by rewrite app_nil_r, !app_assoc, E.
  - destruct Ht as [Eg E]. destruct Hwr as [(_ & Eg' & Hwr)|Hz]; [|unfold gzipped in Hz; by rewrite Eg in Hz].
    destruct (wrote_opened _ _ _ _ _ _ Hwr Ho) as (y2 & Ho2 & Ec2). destruct (opened_eq _ _ _ _ _ _ Ho' Ho2) as [_ ->].
    split; [done|]. by rewrite Ec2, app_assoc, E.
Qed.

Lemma pending_snoc s ms m : is_Some s.(out) → pending s ms (line m) → pending s (ms ++ [m]) [].
Proof.
  intros [h Eo]. unfold pending. rewrite Eo. intros Hp x y Ho. destruct (Hp x y Ho) as (Hn & d & Ht & Hm). split; [done|].
  exists (d ++ line m). rewrite app_nil_r. split; [done|]. intros m' [Hin| ->%list_elem_of_singleton]%elem_of_app.
  - destruct (Hm m' Hin); [by left|right; by apply within_app].
  - right. exists d, []. by rewrite app_nil_r.
Qed.

(** ** The end of a stream *)

(** Once the stream has ended and the file is synced, what was pending can be
    read. *)
Lemma flushed s s1 s2 h ms :
  s.(out) = Some h → pending s ms [] →
  (s.(gzipWriter) = None ∧ s1 = s ∨ gzipped gz_Close s s1) → updated (Some h) flush s1 s2 →
  ∃ x y d, opened s2 h x y ∧ named s x.(hd_file) ∧ y.(synced) = length y.(content) ∧ decode y.(content) = Some d ∧
    ∀ m, m ∈ ms → durable s m ∨ within (line m) d.
Proof.
  intros Eo Hp H1 (Hf & i & x & y1 & [= <-] & Ho1 & Ef). unfold pending in Hp. rewrite Eo in Hp.
  assert (∃ y, opened s h x y) as [y Ho].
  { destruct H1 as [[_ ->]|Hz]; [by exists y1|]. unfold gzipped in Hz. destruct (gzipWriter s) as [[g k]|]; [|done].
    destruct Hz as [Hwr _]. by eapply wrote_opened_inv. }
  destruct (Hp x y Ho) as (Hn & d & Ht & Hm). exists x, (flush y1), d.
  split; [unfold opened; rewrite (f_handles _ _ Hf), Ef; destruct Ho1 as (? & ? & _); repeat (split; [done|]); apply lookup_insert_eq|].
  split; [done|]. split; [done|]. split; [|done]. cbn. rewrite app_nil_r in Ht. unfold text in Ht. unfold decode. destruct (GZIP o).
  - destruct Ht as (g & ps & bs & em & d0 & Eg & Er & Ec & Ed & ->). destruct H1 as [[E' _]|Hz]; [congruence|].
    unfold gzipped in Hz. rewrite Eg in Hz. destruct Hz as [Hwr _]. destruct (wrote_opened _ _ _ _ _ _ Hwr Ho) as (y2 & Ho2 & Ec2).
    destruct (opened_eq _ _ _ _ _ _ Ho1 Ho2) as [_ ->]. rewrite Ec2, Ec, <- app_assoc. erewrite gunzip_app by exact Ed.
    by erewrite gunzip_stream by exact Er.
  - destruct Ht as [Eg ->]. destruct H1 as [[_ ->]|Hz]; [|unfold gzipped in Hz; by rewrite Eg in Hz]. by destruct (opened_eq _ _ _ _ _ _ Ho1 Ho) as [_ ->].
Qed.

(** A synced file says what it says. *)
Lemma durable_file s i f d m :
  s.(files) !! i = Some f → named s i → f.(synced) = length f.(content) → decode f.(content) = Some d → within (line m) d → durable s m.
Proof. intros Ef Hn Es Ed Hd. exists i, f, (length f.(content)), d. rewrite take_ge by done. split_and!; [done..|lia|done|done]. Qed.

Lemma Closed_durable s s' h : wf s → grows s s' → s.(out) = Some h → pending s s.(output) [] → Closed o h s s' → ∀ m, m ∈ s.(output) → durable s' m.
Proof.
  intros Hw Hg Eo Hp (s1 & s2 & x & y & H1 & H2 & _ & Ef & _) m Hin.
  destruct (flushed _ _ _ _ _ Eo Hp H1 H2) as (x' & y' & d & Ho' & Hn & Hs & Hd & Hm). destruct (Hm m Hin); [by eapply durable_grows|].
  apply (durable_file s' (hd_file x') y' d); [rewrite Ef; apply Ho'|by apply (le_named _ _ (g_le _ _ Hg Hw))|done..].
Qed.

(** Nothing is pending in a file that was closed. *)
Lemma Closed_not_opened s s' h x y : Closed o h s s' → ¬ opened s' h x y.
Proof.
  intros (s1 & s2 & x' & y' & _ & _ & _ & _ & Eh & _) (E1 & E2 & _). rewrite Eh, lookup_alter_eq in E1.
  apply fmap_Some in E1 as (x2 & _ & ->). done.
Qed.

Lemma Closed_gzip s s' h : Closed o h s s' → s.(gzipWriter) = None → s'.(gzipWriter) = None.
Proof.
  intros (s1 & s2 & x & y & H1 & _ & _ & _ & _ & -> & _) E. destruct H1 as [[_ ->]|Hz]; [done|]. unfold gzipped in Hz. by rewrite E in Hz.
Qed.

(** What a step that finishes nothing keeps. *)
Lemma inv_finished s s' ms tail : inv_at s ms tail → grows s s' → ∀ m, m ∈ s'.(finished) → durable s' m.
Proof. intros Hi Hg m. rewrite (g_finished _ _ Hg). intros Hin. eapply durable_grows; [apply (i_wf _ _ _ Hi)|done|]. by apply (i_finished _ _ _ Hi). Qed.

Lemma inv_Closed s s' h : inv s → grows s s' → s.(out) = Some h → Closed o h s s' → inv s' ∧ (∀ m, m ∈ s'.(output) → durable s' m).
Proof.
  intros Hi Hg Eo Hc. assert (Hd : ∀ m, m ∈ s'.(output) → durable s' m).
  { intros m. rewrite (g_output _ _ Hg). eapply Closed_durable; [apply (i_wf _ _ _ Hi)|done..|apply (i_pending _ _ _ Hi)|done]. }
  split; [|done]. split.
  - apply (g_wf _ _ Hg), (i_wf _ _ _ Hi).
  - destruct Hc as (? & ? & ? & ? & _ & _ & _ & _ & _ & _ & _ & -> & _). apply (i_rev _ _ _ Hi).
  - unfold pending. assert (Ho : out s' = None ∨ out s' = Some h) by (destruct Hc as (? & ? & ? & ? & _ & _ & _ & _ & _ & _ & _ & _ & _ & _ & _ & [[? _]|[? _]]); auto).
    destruct Ho as [-> | ->]; [by split|]. intros x y Hop. by destruct (Closed_not_opened _ _ _ x y Hc).
  - intros Ez. eapply Closed_gzip; [done|]. by apply (i_gzip _ _ _ Hi).
  - by eapply inv_finished.
Qed.

Lemma run_Close_inv s : inv s → run (Close o) s (λ _ s', inv s').
Proof.
  intros Hi. apply (run_mono _ _ _ (λ _ s', s' = s ∨ ∃ h, s.(out) = Some h ∧ Closed o h s s')).
  { apply run_Close; [by left|by left|]. intros h s' Eo Hc. right. by exists h. }
  intros [] s' Hg [->|(h & Eo & Hc)]; [done|]. by eapply inv_Closed.
Qed.

(** After [Sync] everything is on the disk. *)
Lemma run_Sync_inv s : inv s → run (Sync o) s (λ _ s', inv s' ∧ ∀ m, m ∈ s'.(output) → durable s' m).
Proof.
  intros Hi. apply (run_mono _ _ _ (λ _ s', Synced o s s')); [by apply run_Sync|].
  intros [] s' Hg (s1 & H1 & H2). pose proof (i_wf _ _ _ Hi) as Hw. pose proof H2 as (Hf & h & _ & _ & Eo & _). rewrite Eo in H2.
  assert (H1' : s.(gzipWriter) = None ∧ s1 = s ∨ gzipped gz_Close s s1) by (destruct H1 as [(? & ? & _)|[? _]]; [by left|by right]).
  assert (Hf1 : frame s s1) by (destruct H1' as [[_ ->]|Hz]; [apply frame_refl|by eapply gzipped_frame]).
  assert (Eo' : out s' = Some h) by (by rewrite (f_out _ _ Hf), (f_out _ _ Hf1)).
  destruct (flushed _ _ _ _ _ Eo (i_pending _ _ _ Hi) H1' H2) as (x & y & d & Ho & Hn & Hs & Hd & Hm).
  assert (Hn' : named s' (hd_file x)) by by apply (le_named _ _ (g_le _ _ Hg Hw)).
  assert (Hdur : ∀ m, m ∈ s'.(output) → durable s' m).
  { intros m. rewrite (g_output _ _ Hg). intros Hin. destruct (Hm m Hin); [by eapply durable_grows|]. eapply durable_file; [apply Ho|done..]. }
  split; [|done]. split; [by apply (g_wf _ _ Hg)| | | |by eapply inv_finished].
  - rewrite (f_rev _ _ Hf), (f_rev _ _ Hf1). apply (i_rev _ _ _ Hi).
  - unfold pending. rewrite Eo'. intros x' y' Ho'. destruct (opened_eq _ _ _ _ _ _ Ho Ho') as [-> ->]. split; [done|].
    exists d. rewrite app_nil_r. split; [|intros m ?; left; by apply Hdur]. unfold text, decode in *. destruct (GZIP o) eqn:Ez.
    + destruct H1 as [(Eg & _)|[_ Eg']].
      * pose proof Ho as Hop. apply updated_opened_inv with (1 := H2) in Hop as [y0 Hop]. exfalso.
        pose proof (i_pending _ _ _ Hi) as Hp. unfold pending in Hp. rewrite Eo in Hp.
        assert (∃ y1, opened s h x y1) as [y1 Hop1] by (destruct H1' as [[_ ->]|Hz]; [by exists y0|unfold gzipped in Hz; by rewrite Eg in Hz]).
        destruct (Hp _ _ Hop1) as (_ & d1 & Ht & _). unfold text in Ht. rewrite Ez in Ht. destruct Ht as (g & ? & ? & ? & ? & Eg2 & _). congruence.
      * rewrite Eo in Eg'. exists (gz_new (GZIPLevel o)), [], y.(content), [], d. split_and!; try done; by rewrite app_nil_r.
    + injection Hd as <-. split; [|done]. pose proof (i_gzip _ _ _ Hi Ez) as Eg. destruct H1 as [(_ & _ & ?)|[Hz _]]; [done|]. unfold gzipped in Hz. by rewrite Eg in Hz.
  - intros Ez. pose proof (i_gzip _ _ _ Hi Ez) as Eg. destruct H1 as [(_ & _ & ?)|[Hz _]]; [done|]. unfold gzipped in Hz. by rewrite Eg in Hz.
Qed.

Lemma inv_new d fs fr flts clk : wf (new_logger (G:=G) d fs fr flts clk) → inv (new_logger (G:=G) d fs fr flts clk).
Proof. intros Hw. split; [done|cbn; lia| |done|]; [split; [done|]|]; by intros m ?%elem_of_nil. Qed.

Context (Format : bytes → time → bytes) (filenameFormat : bytes).

(** A new file: what was pending is on the disk. *)
Lemma run_updateFile_inv s : inv s → run (updateFile Format o filenameFormat) s (λ _ s', inv s' ∧ is_Some s'.(out)).
Proof.
  intros Hi. apply (run_mono _ _ _ (λ _ s', Updated o Format filenameFormat s s')).
  { apply run_updateFile; [apply Hi|apply Hi|by left|done]. }
  intros [] s' Hg (s1 & Hc & Hw1 & Hg1 & Hg2 & (h & x & y & Eo & Hop & Hn & Hx & Eg) & _ & Eout & _ & Hr & _).
  assert (Hi1 : inv s1 ∧ ∀ m, m ∈ s1.(output) → durable s1 m).
  { destruct Hc as [[Ho ->]|(h' & Eo' & Hc)]; [|by eapply inv_Closed]. split; [done|]. pose proof (i_pending _ _ _ Hi) as Hp. unfold pending in Hp. rewrite Ho in Hp. by destruct Hp. }
  destruct Hi1 as [Hi1 Hd1]. assert (Hd : ∀ m, m ∈ s'.(output) → durable s' m) by (intros m; rewrite Eout; intros ?; eapply durable_grows; eauto).
  split; [|by rewrite Eo]. split; [by apply (g_wf _ _ Hg2)|done| | |by eapply inv_finished].
  - unfold pending. rewrite Eo. intros x' y' Hop'. destruct (opened_eq _ _ _ _ _ _ Hop Hop') as [-> ->]. split; [done|]. unfold text. destruct (GZIP o) eqn:Ez.
    + exists []. split; [|intros m ?; left; by apply Hd]. exists (gz_new (GZIPLevel o)), [], [], [], []. rewrite Hx by (unfold excl; by rewrite Ez).
      split_and!; try done. apply gunzip_nil.
    + exists y.(content). rewrite app_nil_r. split; [|intros m ?; left; by apply Hd]. split; [|done]. rewrite Eg. by apply (i_gzip _ _ _ Hi1).
  - intros Ez. rewrite Ez in Eg. rewrite Eg. by apply (i_gzip _ _ _ Hi1).
Qed.

(** The messages that were taken, finished or not, and what was finished is
    durable. *)
Definition safe (L : list message) (s : logger) : Prop := (∀ m, m ∈ s.(finished) → durable s m) ∧ s.(finished) ++ s.(output) ⊆+ L.

Lemma inv_grows_safe s s' ms tail L : inv_at s ms tail → s.(finished) ++ s.(output) ⊆+ L → grows s s' → safe L s'.
Proof. intros Hi HL Hg. split; [by eapply inv_finished|]. by rewrite (g_finished _ _ Hg), (g_output _ _ Hg). Qed.

Lemma turn_run {A} (m : LM logger A) s (P Q : A → logger → Prop) ms tail L :
  inv_at s ms tail → s.(finished) ++ s.(output) ⊆+ L → run m s P →
  (∀ a s', grows s s' → s'.(finished) ++ s'.(output) ⊆+ L → P a s' → Q a s') → turn m s Q (λ _, safe L).
Proof.
  intros Hi HL Hm HQ r s' E. apply Hm in E as [Hg HP]. destruct r as [a|e]; [|by eapply inv_grows_safe]. apply HQ; [done| |done].
  by rewrite (g_finished _ _ Hg), (g_output _ _ Hg).
Qed.

Definition logged (ev : event) : list message := match ev with LogChan m => [m] | _ => [] end.

Lemma inv_set_clock ts s : inv s → inv (set_clock ts s).
Proof. by intros [[] ? ? ? ?]. Qed.
Lemma inv_set_ended b s : inv s → inv (set_ended b s).
Proof. by intros [[] ? ? ? ?]. Qed.
Lemma inv_set_stopped b s : inv s → inv (set_stopped b s).
Proof. by intros [[] ? ? ? ?]. Qed.

Lemma turn_needsRotation s (Q : bool → logger → Prop) L :
  inv s → s.(finished) ++ s.(output) ⊆+ L → (∀ r ts, (s.(out) = None → r = true) → Q r (set_clock ts s)) → turn (needsRotation Format o filenameFormat) s Q (λ _, safe L).
Proof.
  intros Hi HL HQ. eapply (turn_run _ _ (λ r s', ∃ ts, s' = set_clock ts s ∧ (s.(out) = None → r = true))); [done..| |].
  - apply run_needsRotation. intros r ts Hr. by exists ts.
  - intros r s' _ _ (ts & -> & Hr). by apply HQ.
Qed.

Lemma turn_updateFile s (Q : () → logger → Prop) L :
  inv s → s.(finished) ++ s.(output) ⊆+ L → (∀ s', inv s' → is_Some s'.(out) → s'.(finished) ++ s'.(output) ⊆+ L → Q () s') →
  turn (updateFile Format o filenameFormat) s Q (λ _, safe L).
Proof. intros Hi HL HQ. eapply turn_run; [done..|by apply run_updateFile_inv|]. intros [] s' _ HL' [Hi' Ho]. by apply HQ. Qed.

(** What is written comes after what is pending. *)
Lemma turn_Write {A} p what (k : LM logger A) s ms tail Q L :
  inv_at s ms tail → s.(finished) ++ s.(output) ⊆+ L → is_Some s.(out) →
  (∀ s', inv_at s' ms (tail ++ p) → s'.(output) = s.(output) → is_Some s'.(out) → s'.(finished) ++ s'.(output) ⊆+ L → turn k s' Q (λ _, safe L)) →
  turn (e ← Write p; _ ← exit_on what e id; k) s Q (λ _, safe L).
Proof.
  intros Hi HL Ho HQ. apply turn_bind.
  eapply (turn_run _ _ (λ e s', e = None → s.(gzipWriter) = None ∧ s'.(gzipWriter) = None ∧ wrote s.(out) p s s' ∨ gzipped (gz_Write p) s s')); [done..| |].
  - by apply run_Write.
  - intros [e|] s' Hg HL' Hw; [intros r s2 [= <- <-]; by eapply inv_grows_safe|]. specialize (Hw eq_refl). apply turn_bind, turn_ret.
    destruct (pending_write p s s' ms tail) as [Eo Hp]; [apply Hi|done|done|apply Hi|done|].
    apply HQ; [|apply (g_output _ _ Hg)|by rewrite Eo|done].
    assert (Hf : frame s s') by (destruct Hw as [(_ & _ & [Hf _])|Hz]; [done|by eapply gzipped_frame]).
    split; [apply (g_wf _ _ Hg), Hi|rewrite (f_rev _ _ Hf); apply Hi|done| |by eapply inv_finished].
    intros Ez. pose proof (i_gzip _ _ _ Hi Ez) as Eg. destruct Hw as [(_ & ? & _)|Hz]; [done|]. unfold gzipped in Hz. by rewrite Eg in Hz.
Qed.

Lemma safe_le L L' s : L ⊆+ L' → safe L s → safe L' s.
Proof. intros HL [Hd Hs]. split; [done|]. by etrans. Qed.

Lemma turn_select ev s L :
  inv s → s.(finished) ++ s.(output) ⊆+ L →
  turn (select Format o filenameFormat ev) s (λ _ s', inv s' ∧ s'.(finished) ++ s'.(output) ⊆+ L ++ logged ev) (λ _, safe (L ++ logged ev)).
Proof.
  intros Hi HL. assert (HL' : s.(finished) ++ s.(output) ⊆+ L ++ logged ev) by (by etrans; [|apply submseteq_inserts_r]).
  destruct ev as [| | | |m]; cbn [select].
  - apply turn_bind, turn_modify, turn_ret. split; [by apply inv_set_ended|done].
  - apply turn_bind, turn_modify, turn_ret. split; [by apply inv_set_stopped|done].
  - by apply turn_ret.
  - apply turn_bind, turn_needsRotation; [done..|]. intros r ts _. assert (Hi' := inv_set_clock ts _ Hi). destruct r; [|by apply turn_ret].
    destruct (SkipEmptyFiles o); [by apply turn_ret|]. apply turn_bind, turn_updateFile; [done..|]. intros s' ? _ ?. by apply turn_ret.
  - apply (turn_mono _ _ _ (λ _, safe L)); [intros _ s'; by apply safe_le, submseteq_inserts_r|].
    apply turn_bind, turn_needsRotation; [done..|]. intros r ts Hr. assert (Hi' := inv_set_clock ts _ Hi). apply turn_bind.
    assert (Hupd : ∀ Q : () → logger → Prop, (∀ s', inv s' → is_Some s'.(out) → s'.(finished) ++ s'.(output) ⊆+ L → Q () s') →
      turn (if r then updateFile Format o filenameFormat else mret ()) (set_clock ts s) Q (λ _, safe L)).
    { intros Q HQ. destruct r; [by apply turn_updateFile|]. apply turn_ret, HQ; [done| |done]. cbn. destruct (out s); [by eexists|]. by specialize (Hr eq_refl). }
    apply Hupd. intros s1 H1 Ho1 L1. clear Hupd.
    eapply turn_Write; [done..|]. intros s2 H2 Eo2 Ho2 L2. eapply turn_Write; [done..|]. intros s3 H3 Eo3 Ho3 L3. rewrite Eo2 in Eo3.
    apply turn_bind, turn_get. destruct (_ <? _); [|by intros r' s']. apply turn_bind, turn_modify, turn_ret.
    split; [|cbn; rewrite app_assoc; by apply submseteq_app].
    destruct H3 as [Hw Hr3 Hp Hz Hfin]. split; [by destruct Hw|done| |done|done]. cbn in Hp. rewrite <- Eo3 in Hp. by apply (pending_snoc _ _ _ Ho3) in Hp.
Qed.

(** A turn keeps the invariant; however it ends, what is finished is durable. *)
Lemma turn_router_turn ev starved s L :
  inv s → s.(finished) ++ s.(output) ⊆+ L →
  turn (router_turn Format o filenameFormat ev starved) s (λ _ s', inv s' ∧ s'.(finished) ++ s'.(output) ⊆+ L ++ logged ev) (λ _, safe (L ++ logged ev)).
Proof.
  intros Hi HL. unfold router_turn. apply turn_bind. intros r s1 E1. pose proof (turn_select ev s L Hi HL r s1 E1) as H1.
  destruct r as [[sync closeFile]|e]; [|done]. destruct H1 as [H1 L1]. apply turn_bind, turn_get, turn_bind.
  assert (Hclose : ∀ s', inv s' → s'.(finished) ++ s'.(output) ⊆+ L ++ logged ev →
    turn (if closeFile then Close o else mret ()) s' (λ _ s', inv s' ∧ s'.(finished) ++ s'.(output) ⊆+ L ++ logged ev) (λ _, safe (L ++ logged ev))).
  { intros s' Hi' HL'. destruct closeFile; [|by apply turn_ret]. eapply turn_run; [done..|by apply run_Close_inv|]. by intros [] s2 _ ? ?. }
  destruct ((sync || starved) && _); [|by apply turn_ret, Hclose].
  apply turn_bind. eapply turn_run; [done..|by apply run_Sync_inv|]. intros [] s2 _ L2 [H2 Hd2]. apply turn_modify. apply Hclose.
  - destruct H2 as [Hw Hr Hp Hz Hfin]. split; [by destruct Hw|done| |done|].
    + unfold pending in *. cbn. destruct (out s2); [|split; [done|]; by intros m ?%elem_of_nil]. intros x y Ho. destruct (Hp x y Ho) as (? & d & ? & _).
      split; [done|]. exists d. split; [done|]. by intros m ?%elem_of_nil.
    + cbn. intros m [Hx|Hx]%elem_of_app; [exact (Hfin m Hx)|]. rewrite reverse_Permutation in Hx. exact (Hd2 m Hx).
  - cbn. rewrite app_nil_r. etrans; [|exact L2]. apply submseteq_app; [done|]. by rewrite reverse_Permutation.
Qed.

Lemma turn_router evs : ∀ s L,
  inv s → s.(finished) ++ s.(output) ⊆+ L →
  turn (router Format o filenameFormat evs) s (λ _ s', safe (L ++ (evs ≫= λ e, logged e.1)) s') (λ _, safe (L ++ (evs ≫= λ e, logged e.1))).
Proof.
  induction evs as [|[ev starved] evs IH]; intros s L Hi HL; cbn [router mbind list_bind].
  - apply turn_ret. rewrite app_nil_r. split; [apply Hi|done].
  - apply turn_bind, turn_get. destruct (ended s).
    + apply turn_ret. split; [apply Hi|]. by etrans; [|apply submseteq_inserts_r].
    + apply turn_bind. intros r s1 E1. pose proof (turn_router_turn ev starved s L Hi HL r s1 E1) as H1. cbn [fst]. rewrite app_assoc. destruct r as [[]|e].
      * destruct H1 as [H1 L1]. apply IH; [done|done].
      * eapply safe_le; [|exact H1]. by apply submseteq_inserts_r.
Qed.

(** C12: Whatever happens - a failing call of the system, a partial write, a
    rotation, a HUP, the end of the program - a message that nsq_to_file has
    finished is in a file that has a name, in a part of it that was synced and
    that can be read, decompressed where it is compressed, with its newline;
    and no message is finished that was not received, or more often. *)
Theorem acked_durable d fs fr flts clk evs r s :
  wf (new_logger (G:=G) d fs fr flts clk) →
  router Format o filenameFormat evs (new_logger d fs fr flts clk) = Some (r, s) →
  (∀ m, m ∈ s.(finished) → durable s m) ∧ s.(finished) ⊆+ (evs ≫= λ e, logged e.1).
Proof.
  intros Hw E. apply inv_new in Hw. pose proof (turn_router evs _ [] Hw (submseteq_nil_l _) r s E) as Hs.
  assert (Hsafe : safe (evs ≫= λ e, logged e.1) s) by by destruct r. destruct Hsafe as [Hd Hl]. split; [done|]. etrans; [|exact Hl]. by apply submseteq_inserts_r.
Qed.

End durable.
(** ** The searches end *)

Section search.
Context {G : Type} `{Gzip G}.
Context (o : Options) (Format : bytes → time → bytes) (filenameFormat : bytes).
Notation logger := (FileLogger G).
Notation run := (run False).
Notation name_at := (name_at o Format filenameFormat).

Context (Hnames : ∀ t, needs_rev o = false ∨ numbered o (name_at t)).

(** There is room for [n] files more. *)
Record room (n : nat) (s : logger) : Prop := {
  r_wf : wf s;
  r_rev : 0 <= s.(rev) < 2 ^ 64;
  r_size : Z.of_nat (2 * (size s.(dir) + n) + 1) <= 2 ^ 64;
  r_name : s.(out) = None ∨ ∃ t, s.(filename) = name_at t;
}.

Lemma room_searches n s : room n s → searches o False Format filenameFormat s.
Proof. intros [Hw Hr Hs Hn]. right. split; [exact Hnames|]. split; [|done]. unfold search_fuel. lia. Qed.

Lemma room_less n n' s : (n' <= n)%nat → room n s → room n' s.
Proof. intros Hn [Hw Hr Hs Hf]. split; [done..| |done]. lia. Qed.

Lemma room_outside n fs ts s : room n s → room n (set_clock ts (set_faults fs s)).
Proof. by intros [[] ? ? ?]. Qed.

Lemma room_frame n s s' : grows s s' → frame s s' → room n s → room n s'.
Proof.
  intros Hg Hf [Hw Hr Hs Hn]. destruct Hf. split; [by apply (g_wf _ _ Hg)|by rewrite f_rev0|by rewrite f_dir0|]. by rewrite f_out0, f_filename0.
Qed.

Definition no_spin (e : stop) (_ : logger) : Prop := e ≠ Spin.

Lemma turn_search {A} (m : LM logger A) s (P Q : A → logger → Prop) :
  run m s P → (∀ a s', grows s s' → P a s' → Q a s') → turn m s Q no_spin.
Proof. intros Hm HQ r s' E. apply Hm in E as [Hg HP]. destruct r as [a|[why|]]; [by apply HQ|done|done]. Qed.

Lemma room_Closed n s s' h : grows s s' → s.(out) = Some h → Closed o h s s' → room n s → room n s'.
Proof.
  intros Hg Eo (s1 & s2 & x & y & _ & _ & _ & _ & _ & _ & Ef & Er & _ & _ & Hd & Ho) [Hw Hr Hs Hn].
  split; [by apply (g_wf _ _ Hg)|by rewrite Er|lia|]. destruct Ho as [[? _]|[Ho _]]; [by left|]. right. rewrite Ef.
  destruct Hn as [Hn|?]; [congruence|done].
Qed.

Lemma turn_Close_search n s : room n s → turn (Close o) s (λ _ s', room n s') no_spin.
Proof.
  intros Hr. eapply (turn_search _ _ (λ _ s', s' = s ∨ ∃ h, s.(out) = Some h ∧ Closed o h s s')).
  - apply run_Close; [by apply (searches_renames _ _ Format filenameFormat), (room_searches n)|by left|]. intros h s' Eo Hc. right. by exists h.
  - intros [] s' Hg [->|(h & Eo & Hc)]; [done|]. by eapply room_Closed.
Qed.

Lemma turn_updateFile_search n s : room (S n) s → turn (updateFile Format o filenameFormat) s (λ _ s', room n s') no_spin.
Proof.
  intros Hr. eapply (turn_search _ _ (λ _ s', Updated o Format filenameFormat s s')).
  - apply run_updateFile; [apply Hr|apply Hr|by eapply room_searches|done].
  - intros [] s' _ (s1 & Hc & Hw1 & Hg1 & Hg2 & _ & (t & Ef) & _ & _ & Hrev & Hd).
    assert (Hr1 : room (S n) s1) by (destruct Hc as [[_ ->]|(h & Eo & Hc)]; [done|by eapply room_Closed]).
    split; [by apply (g_wf _ _ Hg2)|done| |right; by exists t]. pose proof (r_size _ _ Hr1). lia.
Qed.

Lemma turn_needsRotation_search s (Q : bool → logger → Prop) :
  (∀ r ts, Q r (set_clock ts s)) → turn (needsRotation Format o filenameFormat) s Q no_spin.
Proof.
  intros HQ. eapply (turn_search _ _ (λ r s', ∃ ts, s' = set_clock ts s)).
  - apply run_needsRotation. intros r ts _. by exists ts.
  - intros r s' _ [ts ->]. apply HQ.
Qed.

Lemma turn_Write_search {A} p what (k : LM logger A) n s Q :
  room n s → (∀ s', room n s' → turn k s' Q no_spin) → turn (e ← Write p; _ ← exit_on what e id; k) s Q no_spin.
Proof.
  intros Hr HQ. apply turn_bind. eapply (turn_search _ _ (λ e s', e = None → frame s s')).
  - apply run_Write. intros e s' He E. destruct (He E) as [(_ & _ & [? _])|Hz]; [done|by eapply gzipped_frame].
  - intros [e|] s' Hg Hf; [by intros r s2 [= <- <-]|]. apply turn_bind, turn_ret, HQ. eapply room_frame; [exact Hg|by apply Hf|exact Hr].
Qed.

Lemma turn_Sync_search n s : room n s → turn (Sync o) s (λ _ s', room n s') no_spin.
Proof.
  intros Hr. eapply (turn_search _ _ (λ _ s', frame s s')).
  - apply run_Sync. intros s' (s1 & H1 & Hf & _). eapply frame_trans; [|exact Hf].
    destruct H1 as [(_ & -> & _)|[Hz _]]; [apply frame_refl|by eapply gzipped_frame].
  - intros [] s' Hg Hf. by eapply room_frame.
Qed.

Lemma room_set_clock n ts s : room n s → room n (set_clock ts s).
Proof. by intros [[] ? ? ?]. Qed.

Lemma turn_select_search ev n s : room (S n) s → turn (select Format o filenameFormat ev) s (λ _ s', room n s') no_spin.
Proof.
  intros Hr. assert (Hr' : room n s) by (by eapply room_less; [|exact Hr]; lia). destruct ev as [| | | |m]; cbn [select].
  - apply turn_bind, turn_modify, turn_ret. by destruct Hr' as [[] ? ? ?].
  - apply turn_bind, turn_modify, turn_ret. by destruct Hr' as [[] ? ? ?].
  - by apply turn_ret.
  - apply turn_bind, turn_needsRotation_search. intros r ts. destruct r; [|by apply turn_ret, room_set_clock].
    destruct (SkipEmptyFiles o); [by apply turn_ret, room_set_clock|]. apply turn_bind. intros r s' E.
    apply (turn_updateFile_search n) in E; [|by apply room_set_clock]. destruct r; [by apply turn_ret|done].
  - apply turn_bind, turn_needsRotation_search. intros r ts. apply turn_bind. intros r1 s1 E1.
    assert (H1 : match r1 with Ok _ => room n s1 | Err e => no_spin e s1 end).
    { destruct r; [|injection E1 as <- <-; by apply room_set_clock]. apply (turn_updateFile_search n) in E1; [done|by apply room_set_clock]. }
    destruct r1 as [[]|e]; [|done]. eapply turn_Write_search; [done|]. intros s2 H2. eapply turn_Write_search; [done|]. intros s3 H3.
    apply turn_bind, turn_get. destruct (_ <? _); [|by intros r' s']. apply turn_bind, turn_modify, turn_ret. by destruct H3 as [[] ? ? ?].
Qed.

Lemma turn_router_search evs : ∀ s, room (length evs) s → turn (router Format o filenameFormat evs) s (λ _ _, True) no_spin.
Proof.
  induction evs as [|[ev starved] evs IH]; intros s Hr; cbn [router]; [by apply turn_ret|].
  apply turn_bind, turn_get. destruct (ended s); [by apply turn_ret|]. apply turn_bind.
  assert (Ht : turn (router_turn Format o filenameFormat ev starved) s (λ _ s', room (length evs) s') no_spin).
  { unfold router_turn. apply turn_bind. intros r s1 E1. apply (turn_select_search ev (length evs)) in E1; [|done].
    destruct r as [[sync closeFile]|e]; [|done]. apply turn_bind, turn_get, turn_bind.
    assert (Hclose : ∀ s', room (length evs) s' → turn (if closeFile then Close o else mret ()) s' (λ _ s', room (length evs) s') no_spin).
    { intros s' H'. destruct closeFile; [by apply turn_Close_search|by apply turn_ret]. }
    destruct ((sync || starved) && _); [|by apply turn_ret, Hclose]. apply turn_bind. intros r2 s2 E2.
    apply (turn_Sync_search (length evs)) in E2; [|done]. destruct r2 as [[]|e]; [|done]. apply turn_modify, Hclose. by destruct E2 as [[] ? ? ?]. }
  intros r s' E. apply Ht in E. destruct r as [[]|e]; [by apply IH|done].
Qed.

End search.

(** C14: nsq_to_file never searches for a free name for ever: where the names
    of its files carry their revision in the last part, below the working
    directory, neither the search for a file to open nor the one for a name
    in the output directory fails to end - as long as the directory has room
    for the numbers. *)
Theorem rotation_terminates {G : Type} `{Gzip G} Format o filenameFormat d fs fr flts clk evs r s :
  wf (new_logger (G:=G) d fs fr flts clk) →
  (∀ t, needs_rev o = false ∨ numbered o (name_at o Format filenameFormat t)) →
  Z.of_nat (2 * (size d + length evs) + 1) <= 2 ^ 64 →
  router Format o filenameFormat evs (new_logger (G:=G) d fs fr flts clk) = Some (r, s) → r ≠ Err Spin.
Proof.
  intros Hw Hn Hs E. eapply (turn_router_search o Format filenameFormat Hn) in E; [|by split; [done|cbn; lia|done|left]].
  destruct r as [|e]; [done|]. intros [= ->]. by apply E.
Qed.

(** ** After a HUP that moved the file *)

Section stuck.
Context {G : Type} `{Gzip G}.
Context (o : Options) (Format : bytes → time → bytes) (filenameFormat : bytes).
Notation logger := (FileLogger G).
Notation run := (run True).

(** The logger still holds the file that it has closed. *)
Record stuck (F : list message) (b : bool) (s : logger) : Prop := {
  st_wf : wf s;
  st_rev : 0 <= s.(rev) < 2 ^ 64;
  st_gzip : o.(GZIP) = false → s.(gzipWriter) = None;
  st_out : ∃ h, s.(out) = Some h ∧ ∀ x y, ¬ opened s h x y;
  st_finished : s.(finished) = F;
  st_ended : s.(ended) = b;
}.

Definition keeps_finished (F : list message) (_ : stop) (s : logger) : Prop := s.(finished) = F.

Lemma turn_stuck {A} (m : LM logger A) s (P Q : A → logger → Prop) F b :
  stuck F b s → run m s P → (∀ a s', grows s s' → P a s' → Q a s') → turn m s Q (keeps_finished F).
Proof.
  intros Hs Hm HQ r s' E. apply Hm in E as [Hg HP]. destruct r as [a|e]; [by apply HQ|]. unfold keeps_finished. rewrite (g_finished _ _ Hg). apply Hs.
Qed.

Lemma stuck_frame F (b : bool) s s' : stuck F b s → grows s s' → frame s s' → s'.(gzipWriter) = s.(gzipWriter) ∨ is_Some s.(gzipWriter) →
  (∀ h x y, opened s' h x y → ∃ y', opened s h x y') → stuck F b s'.
Proof.
  intros [Hw Hr Hz (h & Eo & Hn) Hf He] Hg Hfr Hgz Ho. split.
  - by apply (g_wf _ _ Hg).
  - by rewrite (f_rev _ _ Hfr).
  - intros Ez. specialize (Hz Ez). rewrite Hz in Hgz. destruct Hgz as [->|[? ?]]; done.
  - exists h. rewrite (f_out _ _ Hfr). split; [done|]. intros x y Hop. destruct (Ho _ _ _ Hop) as [y' Hop']. by eapply Hn.
  - by rewrite (g_finished _ _ Hg).
  - by rewrite (f_ended _ _ Hfr).
Qed.

Lemma stuck_set F (b : bool) s f :
  stuck F b s → (f s).(out) = s.(out) → (f s).(gzipWriter) = s.(gzipWriter) → (f s).(rev) = s.(rev) → (f s).(dir) = s.(dir) → (f s).(files) = s.(files) →
  (f s).(handles) = s.(handles) → (f s).(fresh) = s.(fresh) → (f s).(finished) = s.(finished) → stuck F (ended (f s)) (f s).
Proof.
  intros [[W1 W2 W3] Hr Hz (h & Eo & Hn) Hf _] E1 E2 E3 E4 E5 E6 E7 E8. split; [split; by rewrite ?E4, ?E5, ?E6, ?E7|by rewrite E3|by rewrite E2| |by rewrite E8|done].
  exists h. rewrite E1. split; [done|]. intros x y Ho. eapply Hn. eapply opened_same; [..|exact Ho]; done.
Qed.

(** Neither the stream nor the file can be ended. *)
Lemma stuck_flush F (b : bool) s s1 s2 h : stuck F b s → s.(out) = Some h → (s.(gzipWriter) = None ∧ s1 = s ∨ gzipped gz_Close s s1) → ¬ updated (Some h) flush s1 s2.
Proof.
  intros Hs Eo H1 (_ & i & x & y & [= <-] & Ho & _). destruct (st_out _ _ _ Hs) as (h' & Eo' & Hn). rewrite Eo in Eo'. injection Eo' as <-.
  destruct H1 as [[_ ->]|Hz]; [by eapply Hn|]. unfold gzipped in Hz. destruct (gzipWriter s) as [[g k]|]; [|done].
  destruct Hz as [Hw _]. destruct (wrote_opened_inv _ _ _ _ _ _ _ Hw Ho) as [y' Ho']. by eapply Hn.
Qed.

Lemma stuck_Close F (b : bool) s h s' : stuck F b s → s.(out) = Some h → ¬ Closed o h s s'.
Proof. intros Hs Eo (s1 & s2 & _ & _ & H1 & H2 & _). by eapply stuck_flush. Qed.

Lemma turn_Close_stuck F (b : bool) s (Q : () → logger → Prop) : stuck F b s → turn (Close o) s Q (keeps_finished F).
Proof.
  intros Hs. destruct (st_out _ _ _ Hs) as (h & Eo & _). eapply (turn_stuck _ _ (λ _ _, False)); [done| |done].
  apply run_Close; [by left|congruence|]. intros h' s' Eo' Hc. by eapply stuck_Close in Hc.
Qed.
Lemma turn_updateFile_stuck F (b : bool) s (Q : () → logger → Prop) : stuck F b s → turn (updateFile Format o filenameFormat) s Q (keeps_finished F).
Proof.
  intros Hs. destruct (st_out _ _ _ Hs) as (h & Eo & _). eapply (turn_stuck _ _ (λ _ _, False)); [done| |done].
  apply run_updateFile; [apply Hs|apply Hs|by left|]. intros s' (s1 & [[? _]|(h' & Eo' & Hc)] & _); [congruence|]. by eapply stuck_Close in Hc.
Qed.
Lemma turn_Sync_stuck F (b : bool) s (Q : () → logger → Prop) : stuck F b s → turn (Sync o) s Q (keeps_finished F).
Proof.
  intros Hs. destruct (st_out _ _ _ Hs) as (h & Eo & _). eapply (turn_stuck _ _ (λ _ _, False)); [done| |done].
  apply run_Sync. intros s' (s1 & H1 & H2). rewrite Eo in H2. eapply stuck_flush; [done|done| |exact H2]. destruct H1 as [(? & ? & _)|[? _]]; [by left|by right].
Qed.
Lemma turn_needsRotation_stuck F (b : bool) s (Q : bool → logger → Prop) :
  stuck F b s → (∀ r s', stuck F b s' → Q r s') → turn (needsRotation Format o filenameFormat) s Q (keeps_finished F).
Proof.
  intros Hs HQ. eapply (turn_stuck _ _ (λ r s', ∃ ts, s' = set_clock ts s)); [done| |].
  - apply run_needsRotation. intros r ts _. by exists ts.
  - intros r s' _ [ts ->]. apply HQ. rewrite <- (st_ended _ _ _ Hs). by apply (stuck_set F b s (set_clock ts)).
Qed.

(** A write goes through only where it is kept by the gzip writer. *)
Lemma turn_Write_stuck {A} p what (k : LM logger A) F b s Q :
  stuck F b s → (∀ s', stuck F b s' → p = [] ∨ is_Some s.(gzipWriter) → turn k s' Q (keeps_finished F)) →
  turn (e ← Write p; _ ← exit_on what e id; k) s Q (keeps_finished F).
Proof.
  intros Hs HQ. apply turn_bind.
  eapply (turn_stuck _ _ (λ e s', e = None → s.(gzipWriter) = None ∧ s'.(gzipWriter) = None ∧ wrote s.(out) p s s' ∨ gzipped (gz_Write p) s s')); [done|by apply run_Write|].
  intros [e|] s' Hg Hw; [intros r s2 [= <- <-]; unfold keeps_finished; rewrite (g_finished _ _ Hg); apply Hs|]. apply turn_bind, turn_ret. destruct (Hw eq_refl) as [(E & E' & Hwr)|Hz].
  - apply HQ; [|destruct Hwr as [_ [[? _]|(_ & h & x & y & Eh & Ho & _)]]; [by left|]].
    + eapply stuck_frame; [done..|apply Hwr|left; congruence|]. intros h x y. by apply (wrote_opened_inv _ _ _ _ _ _ _ Hwr).
    + exfalso. destruct (st_out _ _ _ Hs) as (h' & Eo & Hn). rewrite Eo in Eh. injection Eh as ->. by eapply Hn.
  - pose proof (gzipped_frame _ _ _ Hz) as Hf. unfold gzipped in Hz. destruct (gzipWriter s) as [[g k']|] eqn:Eg; [|done]. destruct Hz as [Hwr Eg'].
    apply HQ; [|by right]. eapply stuck_frame; [done..|right; by rewrite Eg|]. intros h x y. by apply (wrote_opened_inv _ _ _ _ _ _ _ Hwr).
Qed.

(** What cannot be done any more. *)
Definition needs_file (ev : event) : bool := match ev with HupChan | StopChan => true | LogChan _ => negb o.(GZIP) | _ => false end.

Lemma turn_select_stuck ev F s : stuck F false s →
  turn (select Format o filenameFormat ev) s (λ r s', ∃ b, stuck F b s' ∧ (b || needs_file ev = true → r.2 = true)) (keeps_finished F).
Proof.
  intros Hs. destruct ev as [| | | |m]; cbn [select].
  - apply turn_bind, turn_modify, turn_ret. exists true. split; [|done]. by apply (stuck_set F false s (set_ended true)).
  - apply turn_bind, turn_modify, turn_ret. exists false. split; [|done]. rewrite <- (st_ended _ _ _ Hs). by apply (stuck_set F false s (set_stopped true)).
  - apply turn_ret. by exists false.
  - apply turn_bind. eapply turn_needsRotation_stuck; [done|]. intros r s1 H1. destruct r; [|apply turn_ret; by exists false].
    destruct (SkipEmptyFiles o); [apply turn_ret; by exists false|]. eapply turn_bind, turn_updateFile_stuck, H1.
  - apply turn_bind. eapply turn_needsRotation_stuck; [done|]. intros r s1 H1. apply turn_bind.
    assert (Hk : ∀ (Q : () → logger → Prop), Q () s1 → turn (if r then updateFile Format o filenameFormat else mret ()) s1 Q (keeps_finished F)).
    { intros Q HQ. destruct r; [by eapply turn_updateFile_stuck|by apply turn_ret]. }
    apply Hk. clear Hk. eapply turn_Write_stuck; [done|]. intros s2 H2 _. eapply turn_Write_stuck; [done|]. intros s3 H3 [?|Hz]; [done|].
    apply turn_bind, turn_get. destruct (_ <? _); [|by intros r' s']. apply turn_bind, turn_modify, turn_ret. exists false.
    split; [rewrite <- (st_ended _ _ _ H3); by apply (stuck_set F false s3 (set_output (output s3 ++ [m])))|].
    cbn. destruct (GZIP o) eqn:Ez; [done|]. rewrite (st_gzip _ _ _ H2 Ez) in Hz. by destruct Hz.
Qed.

Lemma turn_router_turn_stuck ev starved F s : stuck F false s →
  turn (router_turn Format o filenameFormat ev starved) s (λ _ s', stuck F false s' ∧ needs_file ev = false) (keeps_finished F).
Proof.
  intros Hs. unfold router_turn. apply turn_bind. intros r s1 E1. apply (turn_select_stuck ev F) in E1; [|done].
  destruct r as [[sync closeFile]|e]; [|done]. destruct E1 as (b & H1 & Hc). cbn in Hc. apply turn_bind, turn_get, turn_bind.
  destruct ((sync || starved) && _); [by eapply turn_bind, turn_Sync_stuck|]. apply turn_ret. destruct closeFile; [by eapply turn_Close_stuck|].
  apply turn_ret. destruct b, (needs_file ev); cbn in Hc; try done; by specialize (Hc eq_refl).
Qed.

Lemma turn_router_stuck evs : ∀ F s, stuck F false s →
  turn (router Format o filenameFormat evs) s (λ _ s', s'.(finished) = F ∧ Forall (λ ev, needs_file ev.1 = false) evs) (keeps_finished F).
Proof.
  induction evs as [|[ev starved] evs IH]; intros F s Hs; cbn [router]; [apply turn_ret; split; [apply Hs|done]|].
  apply turn_bind, turn_get. rewrite (st_ended _ _ _ Hs). apply turn_bind. intros r s1 E1.
  apply (turn_router_turn_stuck ev starved F) in E1; [|done]. destruct r as [[]|e]; [|done]. destruct E1 as [H1 Hev].
  intros r s2 E2. apply (IH F) in E2; [|done]. destruct r as [[]|]; [|done]. destruct E2 as [? ?]. split; [done|]. by constructor.
Qed.

End stuck.

(** A HUP: what is pending is synced and finished, and the file moves to a
    name that is free. *)
Lemma hup_stuck_state {G : Type} `{Gzip G} (o : Options) Format filenameFormat (s : FileLogger G) h starved s1 :
  wf s → 0 <= s.(rev) < 2 ^ 64 → (o.(GZIP) = false → s.(gzipWriter) = None) → s.(ended) = false → s.(out) = Some h →
  o.(WorkDir) ≠ o.(OutputDir) → s.(dir) !! moved_name o s h = None →
  router_turn Format o filenameFormat HupChan starved s = Some (Ok (), s1) →
  stuck o (s.(finished) ++ reverse s.(output)) false s1.
Proof.
  intros Hw Hr Hz He Eo Hwo Hd.
  assert (Hclose : ∀ s2, wf s2 → frame s (set_output (output s) s2) → (GZIP o = false → gzipWriter s2 = None) → finished s2 = finished s ++ reverse (output s) →
    turn (Close o) s2 (λ _ s1, stuck o (finished s ++ reverse (output s)) false s1) (λ _ _, True)).
  { intros s2 Hw2 [Fo _ Fr _ Fe Fd Fh] Hz2 Hf2. cbn in *. intros r s' E.
    assert (Hrun : run True (Close o) s2 (λ _ s', ∃ h', s2.(out) = Some h' ∧ Closed o h' s2 s')) by (apply run_Close; [by left|congruence|intros h' s3 ? ?; by exists h']).
    apply Hrun in E as [Hg HP]. destruct r as [[]|e]; [|done]. destruct HP as (h' & Eh' & Hc). rewrite Fo, Eo in Eh'. injection Eh' as <-.
    pose proof Hc as (_ & _ & _ & _ & _ & _ & _ & _ & _ & _ & _ & Er & _ & Ee & _ & Ho). destruct Ho as [[_ [?|Hsome]]|[Ho _]]; [done| |].
    - unfold moved_name in *. rewrite Fd, Fh, Hd in Hsome. by destruct Hsome.
    - split; [by apply (g_wf _ _ Hg)|by rewrite Er, Fr| | |by rewrite (g_finished _ _ Hg)|by rewrite Ee, Fe].
      + intros Ez. eapply Closed_gzip; [done|by apply Hz2].
      + exists h. split; [done|]. intros x y. by eapply Closed_not_opened. }
  intros E. enough (Ht : turn (router_turn Format o filenameFormat HupChan starved) s (λ _ s1, stuck o (finished s ++ reverse (output s)) false s1) (λ _ _, True)) by by apply Ht in E.
  unfold router_turn. cbn [select orb]. apply turn_bind, turn_ret, turn_bind, turn_get, turn_bind. cbn. case_bool_decide as Eout; cbn.
  - apply turn_ret, Hclose; [done|by split|done|]. by rewrite Eout, app_nil_r.
  - apply turn_bind. intros r s2 E2.
    assert (Hrun : run True (Sync o) s (λ _ s', Synced o s s')) by by apply run_Sync.
    apply Hrun in E2 as [Hg HP]. destruct r as [[]|e]; [|done]. destruct HP as (s3 & H3 & Hf & _). pose proof (g_wf _ _ Hg Hw) as Hw2.
    assert (Hf3 : frame s s3) by (destruct H3 as [(_ & -> & _)|[Hgz _]]; [apply frame_refl|by eapply gzipped_frame]).
    pose proof (frame_trans _ _ _ Hf3 Hf) as [F1 F2 F3 F4 F5 F6 F7]. apply turn_modify, Hclose.
    + by destruct Hw2.
    + by split.
    + intros Ez. specialize (Hz Ez). destruct H3 as [(_ & _ & ?)|[Hgz _]]; [done|]. unfold gzipped in Hgz. by rewrite Hz in Hgz.
    + cbn. by rewrite (g_finished _ _ Hg), (g_output _ _ Hg).
Qed.

(** With a directory for files in progress, a HUP ends the work of a
    logger: when its file has moved to the output directory, whatever comes
    next finishes no message; and the router returns only while there is
    neither a further HUP nor the end of the consumer nor, without gzip, a
    message - each of these makes it leave the program. *)
Theorem hup_stuck {G : Type} `{Gzip G} (o : Options) Format filenameFormat (s : FileLogger G) h starved s1 evs r s2 :
  wf s → 0 <= s.(rev) < 2 ^ 64 → (o.(GZIP) = false → s.(gzipWriter) = None) → s.(ended) = false → s.(out) = Some h →
  o.(WorkDir) ≠ o.(OutputDir) → s.(dir) !! moved_name o s h = None →
  router_turn Format o filenameFormat HupChan starved s = Some (Ok (), s1) →
  router Format o filenameFormat evs s1 = Some (r, s2) →
  s2.(finished) = s.(finished) ++ reverse s.(output) ∧ (r = Ok () → Forall (λ ev, needs_file o ev.1 = false) evs).
Proof.
  intros Hw Hr Hz He Eo Hwo Hd E1 E2. pose proof (hup_stuck_state _ _ _ _ _ _ _ Hw Hr Hz He Eo Hwo Hd E1) as Hs.
  apply (turn_router_stuck o Format filenameFormat evs _ s1 Hs) in E2. destruct r as [[]|e]; [by destruct E2|by split].
Qed.

End FileLoggerSpec.
