(* ===== verification/FileLoggerDemo.v ===== *)
(** * nsq_to_file on concrete inputs

    The theorems of [FileLoggerProps] applied to a logger of three messages
    that compresses, rotates, meets failures and is sent a HUP. *)
From stdpp Require Import base gmap list strings.
From Stdlib Require Import ZArith Lia.
From S2P Require Import Prelude.
From S2P Require Import Decimal.
From S2P Require Import Text.
From S2P Require Import Paths.
From S2P Require Import FileLogger.
From S2P Require Import FileLoggerCalls.
From S2P Require Import FileLoggerOps.
From S2P Require Import FileLoggerProps.
Set Default Goal Selector "!".
Local Open Scope Z_scope.

Module FileLoggerDemo.
Import Paths FileLogger FileLoggerCalls FileLoggerOps FileLoggerSpec.

(** ** A gzip that stores *)

(** A writer keeps what it is given; a stream marks each byte, and its end. *)
Definition mark (b : byte) : bytes := [byte_of_Z 1; b].
#[global] Instance stored : Gzip bytes := {
  gz_new _ := [];
  gz_Write p g := ([], g ++ p);
  gz_Close g := ((g ≫= mark) ++ [byte_of_Z 0], []);
}.

Fixpoint unpack (inside : bool) (bs : bytes) : option bytes :=
  match bs with
  | [] => if inside then None else Some []
  | t :: rest =>
    if bool_decide (t = byte_of_Z 0) then unpack false rest else
    match rest with
    | [] => None
    | b :: rest' => cons b <$> unpack true rest'
    end
  end.

Lemma unpack_end i rest : unpack i (byte_of_Z 0 :: rest) = unpack false rest.
Proof. cbn [unpack]. by rewrite bool_decide_eq_true_2. Qed.
Lemma unpack_byte i t b rest : t ≠ byte_of_Z 0 → unpack i (t :: b :: rest) = cons b <$> unpack true rest.
Proof. intros Ht. cbn [unpack]. by rewrite bool_decide_eq_false_2. Qed.

Lemma unpack_app n : ∀ i a d b, (length a <= n)%nat → unpack i a = Some d → unpack i (a ++ b) = app d <$> unpack false b.
Proof.
  induction n as [|n IH]; intros i [|t a] d b Hn E; cbn in Hn; try lia.
  - cbn in E. destruct i; [done|]. injection E as <-. cbn. by destruct (unpack false b).
  - cbn in E. destruct i; [done|]. injection E as <-. cbn. by destruct (unpack false b).
  - cbn [app]. destruct (decide (t = byte_of_Z 0)) as [->|Ht].
    + rewrite unpack_end in *. apply IH; [lia|done].
    + destruct a as [|x a]; [cbn in E; by rewrite bool_decide_eq_false_2 in E|]. cbn [app]. rewrite unpack_byte in * by done. cbn in Hn.
      destruct (unpack true a) as [d'|] eqn:E'; [|done]. injection E as <-. rewrite (IH true a d' b) by (done || lia). by destruct (unpack false b).
Qed.

Lemma stored_run ps : ∀ g, gz_run ps g = ([], g ++ concat ps).
Proof. induction ps as [|p ps IH]; intros g; cbn; [by rewrite app_nil_r|]. cbn in IH. by rewrite IH, <- app_assoc. Qed.

Lemma unpack_marked g : ∀ i, unpack i ((g ≫= mark) ++ [byte_of_Z 0]) = Some g.
Proof.
  induction g as [|b g IH]; intros i; [by destruct i|]. cbn [mbind list_bind mark app]. rewrite unpack_byte by done.
  change (_ ++ _) with ((g ≫= mark) ++ [byte_of_Z 0]). by rewrite IH.
Qed.

#[global] Instance stored_laws : GzipLaws bytes (unpack false).
Proof.
  split; [done| |].
  - intros a d b. by apply (unpack_app (length a)).
  - intros level ps em g E. cbn in E. rewrite stored_run in E. injection E as <- <-. cbn [app gz_Close stored fst]. apply unpack_marked.
Qed.

(** ** A logger *)

Definition set_options (W O : bytes) (gzip : bool) : Options :=
  mkOptions [] [] (60 * Second) (tx "nsq_to_file") [] [] [] 2 (2 * Second) (5 * Second) [] (tx "info") O W
    (tx "%Y") (tx "t<REV>.<DATETIME>.log") [] 6 gzip false 0 0 (30 * Second).
Definition year (layout : bytes) (t : time) : bytes := Decimal.fmt_d (2000 + t).
Definition template : bytes := tx "t<REV>.<DATETIME>.log".

Definition m1 : message := mkMessage 1 (tx "one").
Definition m2 : message := mkMessage 2 (tx "two").
Definition m3 : message := mkMessage 3 (tx "three").

Definition world (flts : list (option (nat * string))) (clk : list time) : FileLogger bytes := new_logger ∅ ∅ 0 flts clk.

Lemma world_wf flts clk : wf (world flts clk).
Proof. by split; intros ? ?; cbn; rewrite ?lookup_empty. Qed.

(** A year passes between the second message, which is not yet synced, and the
    third; the disk is full when the program stops. *)
Definition evs : list (event * bool) := [(LogChan m1, false); (LogChan m2, false); (LogChan m3, false); (StopChan, false)].
Definition full : list (option (nat * string)) := replicate 13 None ++ [Some (0%nat, "no space left on device"%string)].
Definition times : list time := [20; 20; 20; 21; 21; 21; 21].

(** What a run finishes, and how it ends. *)
Definition outcome (x : option (res stop () * FileLogger bytes)) : option (res stop () * list message) := (λ x, (x.1, x.2.(finished))) <$> x.

Lemma outcome_run x r l : outcome x = Some (r, l) → ∃ s, x = Some (r, s) ∧ s.(finished) = l.
Proof. destruct x as [[r' s]|]; [|done]. intros [= -> <-]. by exists s. Qed.

Lemma acked_durable_witness :
  let o := set_options (tx "/o") (tx "/o") true in
  ∃ s, router year o template evs (world full times) = Some (Err (Exit "failed to close GZIP writer: no space left on device"), s) ∧
    s.(finished) = [m1; m3; m2] ∧ durable (gunzip:=unpack false) o s m2.
Proof.
  intros o. destruct (outcome_run (router year o template evs (world full times)) (Err (Exit "failed to close GZIP writer: no space left on device")) [m1; m3; m2])
    as (s & E & Hf); [by vm_compute|].
  exists s. split; [done|]. split; [done|]. destruct (acked_durable (gunzip:=unpack false) o year template _ _ _ _ _ evs _ s (world_wf full _) E) as [Hd _].
  apply Hd. rewrite Hf. right; right; by left.
Defined.

Lemma Join_w : Join (tx "/w") (tx "t<REV>.2020.log") = tx "/w" ++ slash :: tx "t<REV>.2020.log".
Proof. by vm_compute. Qed.

(** With a directory for files in progress, where the first name is taken in
    the one and the second in the other. *)
Definition taken : gmap (list Byte.byte) nat := {[ tx "/w/t-000000.2020.log" := 0%nat; tx "/o/t-000001.2020.log" := 1%nat ]}.
Definition files_taken : gmap nat file := {[ 0%nat := mkFile [] 0; 1%nat := mkFile [] 0 ]}.

Lemma rotation_terminates_witness :
  let o := mkOptions [] [] 0 [] [] [] [] 2 0 0 [] [] (tx "/o") (tx "/w") (tx "%Y") template [] 6 false false 0 Second 0 in
  ∃ s, router (λ _ _, tx "2020") o template [(LogChan m1, false)] (new_logger (G:=bytes) taken files_taken 2 [] []) = Some (Ok (), s) ∧
    s.(finished) = [m1] ∧ Ok (E:=stop) () ≠ Err Spin.
Proof.
  intros o. set (w := new_logger (G:=bytes) taken files_taken 2 [] []).
  destruct (outcome_run (router (λ _ _, tx "2020") o template [(LogChan m1, false)] w) (Ok ()) [m1]) as (s & E & Hf); [by vm_compute|].
  exists s. split; [done|]. split; [done|]. apply (rotation_terminates (λ _ _, tx "2020") o template taken files_taken 2 [] [] [(LogChan m1, false)] (Ok ()) s); [..|done].
  - unfold taken, files_taken. split; cbn.
    + intros i f [[<- <-]|[_ [<- <-]%lookup_singleton_Some]]%lookup_insert_Some; cbn; lia.
    + intros h x. by rewrite lookup_empty.
    + intros p i [[_ <-]|[_ [_ <-]%lookup_singleton_Some]]%lookup_insert_Some; by eexists.
  - intros t. right. change (name_at o (λ _ _, tx "2020") template t) with (Replace template (tx "<DATETIME>") (tx "2020")).
    replace (Replace template (tx "<DATETIME>") (tx "2020")) with (tx "t<REV>.2020.log") by (by vm_compute).
    split; [by vm_compute|]. right. exists (tx "/w"). split; [exact Join_w|by vm_compute].
  - replace (size taken) with 2%nat by (by vm_compute). cbn; lia.
Defined.

(** A logger that moves its files, with one message in its file. *)
Definition moving : Options := set_options (tx "/o") (tx "/w") false.
Definition one_logged : FileLogger bytes := default (world [] []) (snd <$> router_turn year moving template (LogChan m1) false (world [] [20; 20])).

Lemma one_logged_inv : inv_at (gunzip:=unpack false) moving one_logged one_logged.(output) [].
Proof.
  assert (E : ∃ s, router_turn year moving template (LogChan m1) false (world [] [20; 20]) = Some (Ok (), s) ∧ s.(finished) = [m1]) by (apply outcome_run; by vm_compute).
  destruct E as (s & E & _). unfold one_logged. rewrite E. cbn [fmap option_fmap option_map snd default].
  assert (Hi : inv_at (gunzip:=unpack false) moving (world [] [20; 20]) (world [] [20; 20]).(output) []) by (by apply inv_new, world_wf).
  destruct (turn_router_turn (gunzip:=unpack false) moving year template (LogChan m1) false _ [] Hi (submseteq_nil_l _) _ _ E) as [Hs _]. exact Hs.
Qed.

Lemma hup_stuck_witness :
  ∃ s1 s2, router_turn year moving template HupChan false one_logged = Some (Ok (), s1) ∧
    router year moving template [(LogChan m2, false)] s1 = Some (Err (Exit "writing message to disk: file already closed"), s2) ∧ s2.(finished) = [m1].
Proof.
  destruct (outcome_run (router_turn year moving template HupChan false one_logged) (Ok ()) [m1]) as (s1 & E1 & F1); [by vm_compute|].
  assert (E2 : outcome (router year moving template [(LogChan m2, false)] (default one_logged (snd <$> router_turn year moving template HupChan false one_logged))) =
    Some (Err (Exit "writing message to disk: file already closed"), [m1])) by (by vm_compute).
  rewrite E1 in E2. apply outcome_run in E2 as (s2 & E2 & _). exists s1, s2. split; [done|]. split; [exact E2|].
  pose proof one_logged_inv as Hi.
  assert (Hrun : s2.(finished) = one_logged.(finished) ++ reverse one_logged.(output)).
  { eapply (hup_stuck moving year template one_logged 1 false s1); [apply Hi|apply Hi|apply Hi|by vm_compute..|exact E1|exact E2]. }
  rewrite Hrun. by vm_compute.
Defined.

End FileLoggerDemo.
