(* ===== verification/ToNsq.v ===== *)
(** * nsq_to_nsq (apps/nsq_to_nsq/nsq_to_nsq.go)

    A handler that publishes the messages of a consumer to a topic of other
    nsqds, with filters on JSON. The consumer, the producers and the host pool
    are go-nsq and go-hostpool: a handler's nil finishes its message and its
    error requeues it unless the automatic response is disabled, a producer
    answers each transaction once, and the pool picks one of its hosts. [None]
    is a panic. *)
From stdpp Require Import base gmap list strings.
From Stdlib Require Import ZArith Lia.
From S2P Require Import Prelude.
From S2P Require Import Text.
From S2P Require Import Paths.
Set Default Goal Selector "!".
Local Open Scope Z_scope.

(** [float64] as far as the filters use it. *)
Class Float64 (F : Type) := {
  ParseFloat : bytes → option F;
  f_eqb : F → F → bool;
  f_int64 : F → Z;
  f_of_int64 : Z → F;
}.

Module ToNsq.
Import Paths.

Record message := mkMessage { ID : nat; Body : bytes }.
Inductive response := Finish | Requeue.

(** What the flag [-mode] selects, its zero value first. *)
Inductive Mode := ModeAll | ModeRoundRobin | ModeHostPool.

(** The address of a request in round-robin mode: the counter wraps. *)
Definition round_robin (addresses : list bytes) (counter : Z) : Z * option bytes :=
  let counter := u64 (counter + 1) in
  (counter, if bool_decide (addresses = []) then None else addresses !! Z.to_nat (counter `mod` Z.of_nat (length addresses))).

(** [hostpool.Get().Host()]: one of the hosts. *)
Definition pick (addresses : list bytes) (choice : nat) : option bytes :=
  if bool_decide (addresses = []) then None else addresses !! (choice `mod` length addresses)%nat.

Record Flags := mkFlags {
  channel : bytes;
  destTopic : bytes;
  maxInFlight : Z;
  mode : bytes;
  nsqdTCPAddrs : list bytes;
  lookupdHTTPAddrs : list bytes;
  destNsqdTCPAddrs : list bytes;
  whitelistJSONFields : list bytes;
  topics : list bytes;
  requireJSONField : bytes;
  requireJSONValue : bytes;
}.

(** The checks of [main]. *)
Definition fatal (b : bool) (why : string) : res string () := if b then Err why else Ok ().
Definition is_empty {A} (l : list A) : bool := match l with [] => true | _ => false end.
Definition check_flags (f : Flags) : res string () :=
  _ ← fatal (is_empty f.(topics) || is_empty f.(channel)) "--topic and --channel are required";
  _ ← fatal (negb (forallb Names.IsValidTopicName f.(topics))) "--topic is invalid";
  _ ← fatal (negb (is_empty f.(destTopic)) && negb (Names.IsValidTopicName f.(destTopic))) "--destination-topic is invalid";
  _ ← fatal (negb (Names.IsValidChannelName f.(channel))) "--channel is invalid";
  _ ← fatal (is_empty f.(nsqdTCPAddrs) && is_empty f.(lookupdHTTPAddrs)) "--nsqd-tcp-address or --lookupd-http-address required";
  _ ← fatal (negb (is_empty f.(nsqdTCPAddrs)) && negb (is_empty f.(lookupdHTTPAddrs))) "use --nsqd-tcp-address or --lookupd-http-address not both";
  fatal (is_empty f.(destNsqdTCPAddrs)) "--destination-nsqd-tcp-address required".

Definition selectedMode (mode : bytes) : Mode :=
  if bool_decide (mode = tx "hostpool") || bool_decide (mode = tx "epsilon-greedy") then ModeHostPool else ModeRoundRobin.

(** The topic a message of [topic] is published to. *)
Definition publishTopic (f : Flags) (topic : bytes) : bytes := if is_empty f.(destTopic) then topic else f.(destTopic).

(** A value of a JSON object, and what [filterMessage] makes of it. *)
Inductive value (F V : Type) := VString (s : bytes) | VNumber (f : F) | VOther (v : V).
Arguments VString {F V} s.
Arguments VNumber {F V} f.
Arguments VOther {F V} v.
Inductive filtered (F V : Type) := OInt (i : Z) | OValue (v : value F V).
Arguments OInt {F V} i.
Arguments OValue {F V} v.

(** A transaction of a producer: the message, its address, what is published. *)
Record transaction := mkTransaction { t_msg : message; t_addr : bytes; t_topic : bytes; t_body : bytes }.

Section handler.
Context {F V : Type} `{Float64 F}.
Notation js := (gmap (list Byte.byte) (value F V)).
(** [json.Unmarshal] into a map and [json.Marshal] of one. *)
Context (Unmarshal : bytes → option js) (Marshal : gmap (list Byte.byte) (filtered F V) → option bytes).
Context (flags : Flags).

(** [PublishHandler] *)
Record PublishHandler := mkHandler {
  counter : Z;
  requireJSONValueParsed : bool;
  requireJSONValueIsNumber : bool;
  requireJSONNumber : option F;
}.
Definition new_handler : PublishHandler := mkHandler 0 false false None.

(** With the producers and their destinations: what was sent and is not yet
    answered, the answers in [respChan], what the destinations hold, what the
    host pool was told, and how messages were responded to. *)
Record World := mkWorld {
  ph : PublishHandler;
  sent : list transaction;
  respChan : list (transaction * option string);
  held : list transaction;
  marks : list (bytes * option string);
  responded : list (message * response);
}.
Definition new_world : World := mkWorld new_handler [] [] [] [] [].

(** [shouldPassMessage] *)
Definition parse_value (p : PublishHandler) : PublishHandler :=
  if negb (is_empty flags.(requireJSONValue)) && negb p.(requireJSONValueParsed) then
    let n := ParseFloat flags.(requireJSONValue) in mkHandler p.(counter) true (bool_decide (is_Some n)) n
  else p.

Definition shouldPassMessage (p : PublishHandler) (js : js) : PublishHandler * (bool * bool) :=
  if is_empty flags.(requireJSONField) then (p, (true, false)) else
  let p := parse_value p in
  let required := negb (is_empty flags.(requireJSONValue)) in
  (p,
   match js !! flags.(requireJSONField) with
   | None => (false, required)
   | Some v =>
     (if required then
        match v with
        | VString s => bool_decide (s = flags.(requireJSONValue))
        | VNumber f => p.(requireJSONValueIsNumber) && match p.(requireJSONNumber) with Some n => f_eqb f n | None => false end
        | VOther _ => false
        end
      else true, false)
   end).

Definition filter_value (v : value F V) : filtered F V :=
  match v with
  | VNumber f => let i := f_int64 f in if f_eqb (f_of_int64 i) f then OInt i else OValue v
  | _ => OValue v
  end.
Definition filterMessage (js : js) (rawMsg : bytes) : res string bytes :=
  if is_empty flags.(whitelistJSONFields) then Ok rawMsg else
  match Marshal (foldl (λ m key, match js !! key with Some v => <[key := filter_value v]> m | None => m end) ∅ flags.(whitelistJSONFields)) with
  | Some b => Ok b
  | None => Err "unable to marshal filtered message"%string
  end.

(** [PublishAsync]: an error at once, or a transaction on its way. *)
Definition PublishAsync (async : option string) (t : transaction) (w : World) : option string * World :=
  match async with
  | Some e => (Some e, w)
  | None => (None, mkWorld w.(ph) (w.(sent) ++ [t]) w.(respChan) w.(held) w.(marks) w.(responded))
  end.

Definition set_ph (p : PublishHandler) (w : World) : World := mkWorld p w.(sent) w.(respChan) w.(held) w.(marks) w.(responded).
Definition mark (addr : bytes) (e : option string) (w : World) : World :=
  mkWorld w.(ph) w.(sent) w.(respChan) w.(held) (w.(marks) ++ [(addr, e)]) w.(responded).
Definition respond (m : message) (r : response) (w : World) : World :=
  mkWorld w.(ph) w.(sent) w.(respChan) w.(held) w.(marks) (w.(responded) ++ [(m, r)]).

(** The message to publish: [inl] what the handler returns when there is none. *)
Definition prepare (m : message) (w : World) : (option string + bytes) * World :=
  if negb (is_empty flags.(requireJSONField)) || negb (is_empty flags.(whitelistJSONFields)) then
    match Unmarshal m.(Body) with
    | None => (inl None, w)
    | Some js =>
      let '(p, (pass, backoff)) := shouldPassMessage w.(ph) js in
      let w := set_ph p w in
      if negb pass then (inl (if backoff then Some "backoff"%string else None), w) else
      match filterMessage js m.(Body) with
      | Err e => (inl (Some e), w)
      | Ok b => (inr b, w)
      end
    end
  else (inr m.(Body), w).

Definition publish (md : Mode) (m : message) (topic body : bytes) (choice : nat) (async : option string) (w : World) : option (option string * World) :=
  match md with
  | ModeHostPool =>
    addr ← pick flags.(destNsqdTCPAddrs) choice;
    let '(err, w) := PublishAsync async (mkTransaction m addr topic body) w in
    Some (err, match err with Some _ => mark addr err w | None => w end)
  | _ =>
    let '(c, addr) := round_robin flags.(destNsqdTCPAddrs) w.(ph).(counter) in
    addr ← addr;
    let p := w.(ph) in
    let w := set_ph (mkHandler c p.(requireJSONValueParsed) p.(requireJSONValueIsNumber) p.(requireJSONNumber)) w in
    Some (PublishAsync async (mkTransaction m addr topic body) w)
  end.

(** [HandleMessage]: its error, and whether the automatic response is
    disabled. *)
Definition HandleMessage (m : message) (destinationTopic : bytes) (choice : nat) (async : option string) (w : World) : option ((option string * bool) * World) :=
  let '(body, w) := prepare m w in
  match body with
  | inl err => Some ((err, false), w)
  | inr body =>
    '(err, w) ← publish (selectedMode flags.(mode)) m destinationTopic body choice async w;
    Some (match err with Some e => (Some e, false) | None => (None, true) end, w)
  end.

(** A turn of the [responder], whose host pool response exists in the mode of
    the pool. *)
Definition responder_turn (w : World) : World :=
  match w.(respChan) with
  | [] => w
  | (t, err) :: rest =>
    let w := mkWorld w.(ph) w.(sent) rest w.(held) w.(marks) w.(responded) in
    let w := match selectedMode flags.(mode) with
             | ModeHostPool => mark t.(t_addr) (match err with Some _ => Some "failed"%string | None => None end) w
             | _ => w
             end in
    respond t.(t_msg) (match err with None => Finish | Some _ => Requeue end) w
  end.

(** The consumer hands a message of a topic to its handler and responds for
    it; a destination answers a transaction, when there is room for its
    answer; a responder takes one. *)
Inductive event := Consume (m : message) (topic : bytes) (choice : nat) (async : option string) | Answer (k : nat) (err : option string) | Respond.

Definition step (w : World) (ev : event) : option World :=
  match ev with
  | Consume m topic choice async =>
    '((err, disabled), w) ← HandleMessage m (publishTopic flags topic) choice async w;
    Some (match err with
          | Some _ => respond m Requeue w
          | None => if disabled : bool then w else respond m Finish w
          end)
  | Answer k err =>
    if (length w.(respChan) <? length flags.(destNsqdTCPAddrs))%nat then
      match w.(sent) !! k with
      | None => Some w
      | Some t => Some (mkWorld w.(ph) (delete k w.(sent)) (w.(respChan) ++ [(t, err)])
                          (match err with None => w.(held) ++ [t] | Some _ => w.(held) end) w.(marks) w.(responded))
      end
    else Some w
  | Respond => Some (responder_turn w)
  end.

Fixpoint run (evs : list event) (w : World) : option World :=
  match evs with
  | [] => Some w
  | ev :: evs => w ← step w ev; run evs w
  end.

End handler.
End ToNsq.
