(* ===== verification/ToNsqProps.v ===== *)
(** * What nsq_to_nsq promises

    A message is finished when a destination holds what was to be forwarded,
    or when the filters drop it, and is never lost on the way
    ([forwarded_once]). *)
From stdpp Require Import base gmap list strings.
From Stdlib Require Import ZArith Lia.
From S2P Require Import Prelude.
From S2P Require Import Text.
From S2P Require Import Paths.
From S2P Require Import ToNsq.
Set Default Goal Selector "!".
Local Open Scope Z_scope.

Module ToNsqSpec.
Import ToNsq.

Section forward.
Context {F V : Type} `{Float64 F}.
Notation js := (gmap (list Byte.byte) (value F V)).
Context (Unmarshal : bytes → option js) (Marshal : gmap (list Byte.byte) (filtered F V) → option bytes).
Context (flags : Flags).
Notation World := (World (F:=F)).
Notation step := (step Unmarshal Marshal flags).
Notation run := (run Unmarshal Marshal flags).

(** ** The filters *)

(** An object that passes: it has the field that is required, with the value
    that is required as a string or as a number. *)
Definition passes (js : js) : Prop :=
  flags.(requireJSONField) = [] ∨
  ∃ v, js !! flags.(requireJSONField) = Some v ∧
    (flags.(requireJSONValue) = [] ∨ v = VString flags.(requireJSONValue) ∨
     ∃ f n, v = VNumber f ∧ ParseFloat flags.(requireJSONValue) = Some n ∧ f_eqb f n = true).

Definition filters : bool := negb (is_empty flags.(requireJSONField)) || negb (is_empty flags.(whitelistJSONFields)).

(** The body that is to be published for a message, and the messages for which
    nothing is. *)
Definition to_forward (m : message) (body : bytes) : Prop :=
  if filters then ∃ js, Unmarshal m.(Body) = Some js ∧ passes js ∧ filterMessage Marshal flags js m.(Body) = Ok body else body = m.(Body).
Definition dropped (m : message) : Prop :=
  filters = true ∧ (Unmarshal m.(Body) = None ∨ ∃ js, Unmarshal m.(Body) = Some js ∧ ¬ passes js).

(** The conversion of the value is cached when it is first needed. *)
Definition cached (p : PublishHandler (F:=F)) : Prop :=
  p.(requireJSONValueParsed) = true →
  p.(requireJSONValueIsNumber) = bool_decide (is_Some (ParseFloat flags.(requireJSONValue))) ∧ p.(requireJSONNumber) = ParseFloat flags.(requireJSONValue).

Lemma is_empty_spec {A} (l : list A) : is_empty l = true ↔ l = [].
Proof. by destruct l. Qed.

Lemma parse_value_cached p : cached p → cached (parse_value flags p).
Proof. intros Hc. unfold parse_value. destruct (negb _ && _); [|done]. by intros _. Qed.

Lemma shouldPassMessage_spec p js :
  cached p →
  cached (shouldPassMessage flags p js).1 ∧ ((shouldPassMessage flags p js).2.1 = true ↔ passes js).
Proof.
  intros Hc. unfold shouldPassMessage, passes. destruct (requireJSONField flags) as [|b field]; cbn [is_empty]; [by split; [|split; [left|]]|].
  cbn [fst snd]. split; [by apply parse_value_cached|]. assert (Hk : b :: field ≠ []) by done. revert Hk. generalize (b :: field). intros k Hk.
  destruct (js !! k) as [v|] eqn:Ek; cbn [fst].
  2: { split; [done|]. intros [?|(v & E & _)]; congruence. }
  destruct (is_empty (requireJSONValue flags)) eqn:Ev; cbn [negb].
  { apply is_empty_spec in Ev. split; [|done]. intros _. right. exists v. split; [done|]. by left. }
  assert (Hv : requireJSONValue flags ≠ []) by (intros E; apply is_empty_spec in E; congruence).
  assert (Hp : requireJSONValueIsNumber (parse_value flags p) = bool_decide (is_Some (ParseFloat (requireJSONValue flags))) ∧
    requireJSONNumber (parse_value flags p) = ParseFloat (requireJSONValue flags)).
  { pose proof (parse_value_cached p Hc) as Hpc. apply Hpc. unfold parse_value. rewrite Ev. cbn. by destruct (requireJSONValueParsed p) eqn:Er. }
  destruct Hp as [-> ->]. destruct v as [s|f|v].
  - rewrite bool_decide_eq_true. split.
    + intros ->. right. exists (VString (requireJSONValue flags)). split; [done|]. right. by left.
    + intros [?|(v' & [= <-] & [?|[[= ->]|(f & n & ? & _)]])]; done.
  - destruct (ParseFloat (requireJSONValue flags)) as [n|] eqn:En; cbn [bool_decide].
    + rewrite bool_decide_eq_true_2 by by eexists. cbn. split.
      * intros Ef. right. exists (VNumber f). split; [done|]. right; right. by exists f, n.
      * intros [?|(v' & [= <-] & [?|[?|(f' & n' & [= <-] & [= <-] & ?)]])]; done.
    + rewrite bool_decide_eq_false_2 by (by intros []). cbn. split; [done|]. intros [?|(v' & [= <-] & [?|[?|(f' & n' & _ & ? & _)]])]; done.
  - split; [done|]. intros [?|(v' & [= <-] & [?|[?|(f' & n' & ? & _)]])]; done.
Qed.

(** What the handler makes of a message, and that it only caches. *)
Lemma prepare_spec m (w : World) :
  cached w.(ph) →
  (∃ p, cached p ∧ (prepare Unmarshal Marshal flags m w).2 = set_ph p w) ∧
  match (prepare Unmarshal Marshal flags m w).1 with
  | inl None => dropped m
  | inl (Some _) => True
  | inr body => to_forward m body
  end.
Proof.
  intros Hc. unfold prepare, dropped, to_forward. fold filters. destruct filters.
  - destruct (Unmarshal (Body m)) as [js|] eqn:Eu; [|split; [exists (ph w); by destruct w|split; [done|by left]]].
    pose proof (shouldPassMessage_spec (ph w) js Hc) as [Hc' Hp]. destruct (shouldPassMessage flags (ph w) js) as [p [pass backoff]]. cbn in *.
    destruct pass; cbn.
    + destruct (filterMessage Marshal flags js (Body m)) as [b|e] eqn:Ef; (split; [by exists p|]); [|done]. exists js. split; [done|]. split; [by apply Hp|done].
    + split; [by exists p|]. destruct backoff; [done|]. split; [done|]. right. exists js. split; [done|]. intros ?. by apply Hp in H0.
  - split; [|done]. exists (ph w). by destruct w.
Qed.

(** ** The way of a message *)

Definition consumed (evs : list event) : list (message * bytes) :=
  omap (λ ev, match ev with Consume m topic _ _ => Some (m, publishTopic flags topic) | _ => None end) evs.

(** A transaction publishes what is to be published of a message that was
    consumed. *)
Definition sound (L : list (message * bytes)) (t : transaction) : Prop :=
  to_forward t.(t_msg) t.(t_body) ∧ t.(t_addr) ∈ flags.(destNsqdTCPAddrs) ∧ (t.(t_msg), t.(t_topic)) ∈ L.

Record inv (L : list (message * bytes)) (w : World) : Prop := {
  i_cached : cached w.(ph);
  i_accounted : L.*1 ≡ₚ w.(responded).*1 ++ (t_msg <$> w.(sent)) ++ (t_msg ∘ fst <$> w.(respChan));
  i_sent : Forall (sound L) w.(sent);
  i_answered : Forall (λ x, x.2 = None → x.1 ∈ w.(held)) w.(respChan);
  i_held : Forall (sound L) w.(held);
  i_finished : ∀ m, (m, Finish) ∈ w.(responded) → dropped m ∨ ∃ t, t ∈ w.(held) ∧ t.(t_msg) = m;
}.

Lemma sound_le L L' t : L ⊆ L' → sound L t → sound L' t.
Proof. intros HL (? & ? & ?). split; [done|]. split; [done|]. by apply HL. Qed.

Lemma round_robin_in addrs c a : (round_robin addrs c).2 = Some a → a ∈ addrs.
Proof. unfold round_robin. cbn. case_bool_decide; [done|]. apply list_elem_of_lookup_2. Qed.
Lemma pick_in addrs c a : pick addrs c = Some a → a ∈ addrs.
Proof. unfold pick. case_bool_decide; [done|]. apply list_elem_of_lookup_2. Qed.
Lemma round_robin_total addrs c : addrs ≠ [] → is_Some (round_robin addrs c).2.
Proof.
  intros Hn. unfold round_robin. cbn. rewrite bool_decide_eq_false_2 by done. apply lookup_lt_is_Some.
  assert (0 < length addrs)%nat by (destruct addrs; cbn; [done|lia]). pose proof (Z.mod_pos_bound (u64 (c + 1)) (Z.of_nat (length addrs)) ltac:(lia)). lia.
Qed.
Lemma pick_total addrs c : addrs ≠ [] → is_Some (pick addrs c).
Proof.
  intros Hn. unfold pick. rewrite bool_decide_eq_false_2 by done. apply lookup_lt_is_Some.
  apply Nat.mod_upper_bound. by destruct addrs.
Qed.

(** What publishing does: an error, or a transaction more. *)
Lemma publish_spec md m topic body choice async (w : World) :
  flags.(destNsqdTCPAddrs) ≠ [] → cached w.(ph) →
  ∃ err w', publish flags md m topic body choice async w = Some (err, w') ∧ cached w'.(ph) ∧
    w'.(respChan) = w.(respChan) ∧ w'.(held) = w.(held) ∧ w'.(responded) = w.(responded) ∧
    match err with
    | Some _ => w'.(sent) = w.(sent)
    | None => ∃ a, a ∈ flags.(destNsqdTCPAddrs) ∧ w'.(sent) = w.(sent) ++ [mkTransaction m a topic body]
    end.
Proof.
  intros Hn Hc.
  assert (Hrr : ∃ err w', (let '(c, addr) := round_robin flags.(destNsqdTCPAddrs) w.(ph).(counter) in
    addr ← addr;
    let p := w.(ph) in
    let w := set_ph (mkHandler c p.(requireJSONValueParsed) p.(requireJSONValueIsNumber) p.(requireJSONNumber)) w in
    Some (PublishAsync async (mkTransaction m addr topic body) w)) = Some (err, w') ∧ cached w'.(ph) ∧
    w'.(respChan) = w.(respChan) ∧ w'.(held) = w.(held) ∧ w'.(responded) = w.(responded) ∧
    match err with Some _ => w'.(sent) = w.(sent) | None => ∃ a, a ∈ flags.(destNsqdTCPAddrs) ∧ w'.(sent) = w.(sent) ++ [mkTransaction m a topic body] end).
  { destruct (round_robin_total (destNsqdTCPAddrs flags) (counter (ph w)) Hn) as [a Ea]. pose proof (round_robin_in _ _ _ Ea).
    destruct (round_robin _ _) as [c addr]. cbn in Ea. subst addr. destruct async as [e|]; cbn; do 2 eexists; (split; [reflexivity|]); cbn; (split; [exact Hc|]); [by repeat split|].
    do 3 (split; [done|]). by exists a. }
  destruct md; cbn [publish]; [exact Hrr|exact Hrr|]. destruct (pick_total (destNsqdTCPAddrs flags) choice Hn) as [a Ea]. pose proof (pick_in _ _ _ Ea).
  rewrite Ea. cbn. destruct async as [e|]; cbn; do 2 eexists; (split; [reflexivity|]); cbn; (split; [exact Hc|]); [by repeat split|]. do 3 (split; [done|]). by exists a.
Qed.

Lemma consume_inv L (w : World) m topic choice async :
  flags.(destNsqdTCPAddrs) ≠ [] → inv L w →
  ∃ w', step w (Consume m topic choice async) = Some w' ∧ inv (L ++ [(m, publishTopic flags topic)]) w'.
Proof.
  intros Hn [Hc Ha Hs Hans Hh Hf]. cbn [ToNsq.step]. unfold HandleMessage. set (L' := L ++ _).
  assert (HL : L ⊆ L') by (intros x ?; apply elem_of_app; by left).
  destruct (prepare_spec m w Hc) as [(p & Hcp & Ew) Hb]. destruct (prepare Unmarshal Marshal flags m w) as [body w1]. cbn [fst snd] in *. subst w1.
  assert (Hs' : Forall (sound L') w.(sent)) by (eapply Forall_impl; [exact Hs|]; intros t; by apply sound_le).
  assert (Hh' : Forall (sound L') w.(held)) by (eapply Forall_impl; [exact Hh|]; intros t; by apply sound_le).
  assert (Ha' : L'.*1 ≡ₚ w.(responded).*1 ++ [m] ++ (t_msg <$> w.(sent)) ++ (t_msg ∘ fst <$> w.(respChan))).
  { unfold L'. rewrite fmap_app, Ha. cbn. solve_Permutation. }
  assert (Hinv : ∀ w' r, cached w'.(ph) → w'.(sent) = w.(sent) → w'.(respChan) = w.(respChan) → w'.(held) = w.(held) → w'.(responded) = w.(responded) →
    (r = Finish → dropped m) → inv L' (respond m r w')).
  { intros w' r Hc' E1 E2 E3 E4 Hr. split; cbn; rewrite ?E1, ?E2, ?E3, ?E4; [done| |done|done|done|].
    - rewrite fmap_app. cbn. rewrite <- app_assoc. exact Ha'.
    - intros m' [Hin|Hin]%elem_of_app; [by apply Hf|]. apply list_elem_of_singleton in Hin. injection Hin as -> <-. left. by apply Hr. }
  destruct body as [err|body].
  - cbn. eexists. split; [reflexivity|]. destruct err; by apply Hinv.
  - destruct (publish_spec (selectedMode (mode flags)) m (publishTopic flags topic) body choice async (set_ph p w) Hn Hcp)
      as (err & w' & -> & Hc' & E1 & E2 & E3 & E4). cbn in *. destruct err as [e|]; eexists; (split; [reflexivity|]); [by apply Hinv|].
    destruct E4 as (a & Hin & E4). split; rewrite ?E1, ?E2, ?E3, ?E4; [done| | |done|done|done].
    + rewrite fmap_app. cbn. rewrite Ha'. solve_Permutation.
    + apply Forall_app. split; [done|]. constructor; [|done]. split; [done|]. split; [done|]. apply elem_of_app. right. by left.
Qed.

Lemma answer_inv L (w : World) k err : inv L w → ∃ w', step w (Answer k err) = Some w' ∧ inv L w'.
Proof.
  intros Hi. cbn [ToNsq.step]. destruct (_ <? _)%nat; [|by exists w]. destruct (sent w !! k) as [t|] eqn:Ek; [|by exists w].
  eexists. split; [reflexivity|]. destruct Hi as [Hc Ha Hs Hans Hh Hf].
  assert (Hst : sound L t) by (rewrite Forall_forall in Hs; apply Hs; by eapply list_elem_of_lookup_2).
  split; cbn; [done| |by apply Forall_delete| | |].
  - rewrite Ha, (delete_Permutation _ _ _ Ek) at 1. rewrite !fmap_app. cbn. solve_Permutation.
  - apply Forall_app. split; [|constructor; [|done]; intros [= ->]; apply elem_of_app; right; by left].
    eapply Forall_impl; [exact Hans|]. intros x Hx E. specialize (Hx E). destruct err; [done|]. apply elem_of_app. by left.
  - destruct err; [done|]. apply Forall_app. split; [done|]. by constructor.
  - intros m Hin. destruct (Hf m Hin) as [?|(t' & Ht & ?)]; [by left|right]. exists t'. split; [|done]. destruct err; [done|]. apply elem_of_app. by left.
Qed.

Lemma responder_inv L (w : World) : inv L w → inv L (responder_turn flags w).
Proof.
  intros Hi. unfold responder_turn. destruct (respChan w) as [|[t err] rest] eqn:Er; [done|]. destruct Hi as [Hc Ha Hs Hans Hh Hf]. rewrite Er in *.
  apply Forall_cons in Hans as [Ht Hans]. cbn in Ht, Ha.
  assert (Hinv : ∀ w' : World, w'.(ph) = w.(ph) → w'.(sent) = w.(sent) → w'.(respChan) = rest → w'.(held) = w.(held) → w'.(responded) = w.(responded) →
    inv L (respond (t_msg t) (match err with None => Finish | Some _ => Requeue end) w')).
  { intros w' E0 E1 E2 E3 E4. split; cbn; rewrite ?E0, ?E1, ?E2, ?E3, ?E4; [done| |done|done|done|].
    - rewrite Ha, fmap_app. cbn. solve_Permutation.
    - intros m [Hin|Hin]%elem_of_app; [by apply Hf|]. apply list_elem_of_singleton in Hin. destruct err; [done|]. injection Hin as ->. right. exists t. by split; [apply Ht|]. }
  destruct (selectedMode _); by apply Hinv.
Qed.

Lemma run_inv evs : ∀ L (w : World), flags.(destNsqdTCPAddrs) ≠ [] → inv L w → ∃ w', run evs w = Some w' ∧ inv (L ++ consumed evs) w'.
Proof.
  induction evs as [|ev evs IH]; intros L w Hn Hi; [exists w; by rewrite app_nil_r|].
  assert (Hstep : ∃ w1, step w ev = Some w1 ∧ inv (L ++ consumed [ev]) w1).
  { destruct ev as [m topic choice async|k err|]; cbn [consumed omap list_omap]; [by apply consume_inv|..].
    - rewrite app_nil_r. by apply answer_inv.
    - rewrite app_nil_r. eexists. split; [reflexivity|]. by apply responder_inv. }
  destruct Hstep as (w1 & E1 & H1). destruct (IH _ _ Hn H1) as (w' & E & H'). exists w'. split; [cbn [ToNsq.run]; by rewrite E1|].
  rewrite <- app_assoc in H'. by destruct ev.
Qed.

(** C15: However consumers, destinations and responders interleave, an
    nsq_to_nsq that has started never panics; every message is either
    responded to, once, or still on its way to a destination or back; and a
    message is finished only when the filters drop it, or a destination holds
    it - a configured one, under the topic that was asked for, with the body
    that the filters make of it. *)
Theorem forwarded_once evs :
  check_flags flags = Ok () →
  ∃ w, run evs new_world = Some w ∧
    (consumed evs).*1 ≡ₚ w.(responded).*1 ++ (t_msg <$> w.(sent)) ++ (t_msg ∘ fst <$> w.(respChan)) ∧
    ∀ m, (m, Finish) ∈ w.(responded) →
      dropped m ∨ ∃ t, t ∈ w.(held) ∧ t.(t_msg) = m ∧ to_forward m t.(t_body) ∧ t.(t_addr) ∈ flags.(destNsqdTCPAddrs) ∧ (m, t.(t_topic)) ∈ consumed evs.
Proof.
  intros Hf. assert (Hn : flags.(destNsqdTCPAddrs) ≠ []).
  { unfold check_flags in Hf. do 6 (apply res_bind_ok in Hf as (_ & _ & Hf)). by destruct (destNsqdTCPAddrs flags). }
  destruct (run_inv evs [] new_world Hn) as (w & E & [_ Ha _ _ Hh Hfin]).
  { split; [done|done|done|done|done|]. by intros m ?%elem_of_nil. }
  exists w. split; [done|]. split; [done|]. intros m Hm. destruct (Hfin m Hm) as [?|(t & Hin & <-)]; [by left|right].
  exists t. split; [done|]. split; [done|]. rewrite Forall_forall in Hh. by destruct (Hh t Hin) as (? & ? & ?).
Qed.

End forward.

(** ** On concrete inputs *)

(** Numbers of one digit, and objects that have one field, a number. *)
#[local] Instance digits : Float64 Z := {
  ParseFloat b := match b with [c] => Some (Z_of_byte c - 48) | _ => None end;
  f_eqb := Z.eqb;
  f_int64 z := z;
  f_of_int64 z := z;
}.
Definition field (b : bytes) : option (gmap (list Byte.byte) (value Z ())) := (λ z, {[ bytes_of_string "n" := VNumber z ]}) <$> ParseFloat b.
Definition demo_flags : Flags :=
  mkFlags (bytes_of_string "copy") [] 200 (bytes_of_string "round-robin") [bytes_of_string "10.0.0.1:4150"] []
    [bytes_of_string "10.1.0.1:4150"; bytes_of_string "10.1.0.2:4150"] [] [bytes_of_string "events"] (bytes_of_string "n") (bytes_of_string "7").

Definition seven : message := mkMessage 1 (bytes_of_string "7").
Definition eight : message := mkMessage 2 (bytes_of_string "8").
Definition seven_again : message := mkMessage 3 (bytes_of_string "7").
Definition demo_events : list event :=
  [Consume seven (bytes_of_string "events") 0 None; Consume eight (bytes_of_string "events") 0 None; Consume seven_again (bytes_of_string "events") 0 None;
   Answer 1 (Some "E_PUB_FAILED"%string); Answer 0 None; Respond; Respond].

Lemma forwarded_once_witness :
  ∃ w, run field (λ _, Some []) demo_flags demo_events new_world = Some w ∧
    w.(responded) = [(eight, Finish); (seven_again, Requeue); (seven, Finish)] ∧ ∃ t, t ∈ w.(held) ∧ t.(t_msg) = seven.
Proof.
  destruct (forwarded_once field (λ _, Some []) demo_flags demo_events) as (w & E & _ & Hf); [reflexivity|].
  assert (Hr : w.(responded) = [(eight, Finish); (seven_again, Requeue); (seven, Finish)]).
  { change w.(responded) with (default [] (responded <$> Some w)). rewrite <- E. by vm_compute. }
  exists w. split; [exact E|]. split; [exact Hr|]. rewrite Hr in Hf.
  destruct (Hf seven) as [Hd|(t & Ht & Em & _)]; [apply list_elem_of_further, list_elem_of_further, list_elem_of_here| |exists t; split; [exact Ht|exact Em]].
  exfalso. destruct Hd as [_ [Hd|(js & Hj & Hd)]]; [discriminate Hd|]. apply Hd. right. injection Hj as <-. exists (VNumber 7).
  split; [by vm_compute|]. right; right. exists 7, 7. split; [reflexivity|]. split; reflexivity.
Defined.

End ToNsqSpec.
