(* ===== verification/ToHttp.v ===== *)
(** * nsq_to_http (apps/nsq_to_http/nsq_to_http.go, http.go)

    A handler that sends the messages of a consumer to HTTP endpoints, to all
    of them or to one. Its nil finishes the message, its error requeues it.
    [None] is a panic. *)
From stdpp Require Import base gmap list strings.
From Stdlib Require Import ZArith Lia.
From S2P Require Import Prelude.
From S2P Require Import Decimal.
From S2P Require Import Text.
From S2P Require Import Paths.
From S2P Require Import Wire.
From S2P Require Import ToNsq.
Set Default Goal Selector "!".
Local Open Scope Z_scope.

Module ToHttp.
Import Paths.
Notation is_empty := ToNsq.is_empty.
Notation fatal := ToNsq.fatal.
Notation message := ToNsq.message.

Record Flags := mkFlags {
  topic : bytes;
  channel : bytes;
  mode : bytes;
  contentType : bytes;
  getAddrs : list bytes;
  postAddrs : list bytes;
  customHeaders : list bytes;
  nsqdTCPAddrs : list bytes;
  lookupdHTTPAddrs : list bytes;
  sample_out_of_range : bool;
}.

Definition default_contentType : bytes := tx "application/octet-stream".

(** [strings.SplitN(s, ":", 2)] *)
Fixpoint split_colon (s : bytes) : option (bytes * bytes) :=
  match s with
  | [] => None
  | b :: s => if bool_decide (b = byte_of_Z 58) then Some ([], s) else (λ p, (b :: p.1, p.2)) <$> split_colon s
  end.
Fixpoint parseCustomHeaders (strs : list bytes) (parsed : gmap (list Byte.byte) bytes) : res string (gmap (list Byte.byte) bytes) :=
  match strs with
  | [] => Ok parsed
  | s :: strs =>
    match split_colon s with
    | None => Err "Invalid headers"%string
    | Some (key, val) =>
      let key := Wire.TrimSpace key in
      let val := Wire.TrimSpace val in
      if is_empty key || is_empty val then Err "Invalid headers"%string else parseCustomHeaders strs (<[key := val]> parsed)
    end
  end.

(** [strings.Count(get, "%s")] *)
Fixpoint count_verb (s : bytes) : nat :=
  match s with
  | a :: ((b :: _) as rest) => (if bool_decide ([a; b] = tx "%s") then 1 else 0) + count_verb rest
  | _ => 0
  end.

(** The checks of [main]. *)
Definition check_flags (f : Flags) : res string (gmap (list Byte.byte) bytes) :=
  headers ← (match f.(customHeaders) with
             | [] => Ok ∅
             | hs => match parseCustomHeaders hs ∅ with Ok m => Ok m | Err _ => Err "--header value format should be 'key=value'"%string end
             end);
  _ ← fatal (is_empty f.(topic) || is_empty f.(channel)) "--topic and --channel are required";
  _ ← (if bool_decide (f.(contentType) = default_contentType) then Ok () else
       _ ← fatal (is_empty f.(postAddrs)) "--content-type only used with --post";
       fatal (is_empty f.(contentType)) "--content-type requires a value when used");
  _ ← fatal (is_empty f.(nsqdTCPAddrs) && is_empty f.(lookupdHTTPAddrs)) "--nsqd-tcp-address or --lookupd-http-address required";
  _ ← fatal (negb (is_empty f.(nsqdTCPAddrs)) && negb (is_empty f.(lookupdHTTPAddrs))) "use --nsqd-tcp-address or --lookupd-http-address not both";
  _ ← fatal (is_empty f.(getAddrs) && is_empty f.(postAddrs)) "--get or --post required";
  _ ← fatal (negb (is_empty f.(getAddrs)) && negb (is_empty f.(postAddrs))) "use --get or --post not both";
  _ ← fatal (negb (forallb (λ g, Nat.eqb (count_verb g) 1) f.(getAddrs))) "invalid GET address - must be a printf string";
  _ ← fatal f.(sample_out_of_range) "ERROR: --sample must be between 0.0 and 1.0";
  Ok headers.

(** A mode that is none of these is the first of the constants. *)
Definition selectedMode (mode : bytes) : ToNsq.Mode :=
  if bool_decide (mode = tx "round-robin") then ToNsq.ModeRoundRobin else
  if bool_decide (mode = tx "hostpool") || bool_decide (mode = tx "epsilon-greedy") then ToNsq.ModeHostPool else ToNsq.ModeAll.

Record request := mkRequest { r_method : bytes; r_url : bytes; r_headers : gmap (list Byte.byte) bytes; r_body : bytes }.

Section publisher.
Context {W : Type}.
(** [http.NewRequest] may refuse an address; the client makes a request, of
    which the status matters; the canonical
    form of the key of a header; [fmt.Sprintf] of an address and [QueryEscape]. *)
Context (NewRequest_ok : bytes → bytes → option string) (Do : request → W → res string Z * W).
Context (Canonical : bytes → bytes) (Sprintf : bytes → bytes → bytes) (QueryEscape : bytes → bytes) (userAgent : bytes).
Context (flags : Flags) (headers : gmap (list Byte.byte) bytes).

Definition set_headers (h : gmap (list Byte.byte) bytes) : gmap (list Byte.byte) bytes :=
  foldl (λ h p, <[Canonical p.1 := p.2]> h) h (map_to_list headers).
Definition HTTPGet (endpoint : bytes) (w : W) : res string Z * W :=
  match NewRequest_ok (tx "GET") endpoint with
  | Some e => (Err e, w)
  | None => Do (mkRequest (tx "GET") endpoint (set_headers {[ tx "User-Agent" := userAgent ]}) []) w
  end.
Definition HTTPPost (endpoint body : bytes) (w : W) : res string Z * W :=
  match NewRequest_ok (tx "POST") endpoint with
  | Some e => (Err e, w)
  | None => Do (mkRequest (tx "POST") endpoint (set_headers (<[ tx "Content-Type" := flags.(contentType) ]> {[ tx "User-Agent" := userAgent ]})) body) w
  end.

Definition got_status (ok : Z → bool) (r : res string Z * W) : res string () * W :=
  (match r.1 with
   | Err e => Err e
   | Ok code => if ok code then Ok () else Err ("got status code " +:+ string_of_bytes (Decimal.fmt_d code))
   end, r.2).
Definition PostPublisher_Publish (addr msg : bytes) (w : W) : res string () * W :=
  got_status (λ code, (200 <=? code) && (code <? 300)) (HTTPPost addr msg w).
Definition GetPublisher_Publish (addr msg : bytes) (w : W) : res string () * W :=
  got_status (Z.eqb 200) (HTTPGet (Sprintf addr (QueryEscape msg)) w).

(** The publisher and the addresses that [main] chooses. *)
Definition addresses : list bytes := match flags.(postAddrs) with [] => flags.(getAddrs) | l => l end.
Definition Publish (addr msg : bytes) (w : W) : res string () * W :=
  match flags.(postAddrs) with [] => GetPublisher_Publish addr msg w | _ => PostPublisher_Publish addr msg w end.

Record PublishHandler := mkHandler { counter : Z; marks : list (bytes * option string) }.

Fixpoint publish_all (addrs : list bytes) (msg : bytes) (w : W) : res string () * W :=
  match addrs with
  | [] => (Ok (), w)
  | a :: addrs => match Publish a msg w with
                  | (Ok _, w) => publish_all addrs msg w
                  | (Err e, w) => (Err e, w)
                  end
  end.

(** [HandleMessage]; [skip] is what the sampling says. *)
Definition HandleMessage (skip : bool) (choice : nat) (m : message) (ph : PublishHandler) (w : W) : option (res string () * PublishHandler * W) :=
  if skip then Some (Ok (), ph, w) else
  match selectedMode flags.(mode) with
  | ToNsq.ModeAll => let '(r, w) := publish_all addresses m.(ToNsq.Body) w in Some (r, ph, w)
  | ToNsq.ModeRoundRobin =>
    let '(c, addr) := ToNsq.round_robin addresses ph.(counter) in
    addr ← addr;
    let '(r, w) := Publish addr m.(ToNsq.Body) w in Some (r, mkHandler c ph.(marks), w)
  | ToNsq.ModeHostPool =>
    addr ← ToNsq.pick addresses choice;
    let '(r, w) := Publish addr m.(ToNsq.Body) w in
    Some (r, mkHandler ph.(counter) (ph.(marks) ++ [(addr, match r with Err e => Some e | Ok _ => None end)]), w)
  end.

End publisher.
End ToHttp.
