(* ===== verification/Statsd.v ===== *)
(** * Reports to statsd (nsqd/statsd.go, internal/statsd/client.go, internal/writers)

    At each tick the daemon writes a line for each counter and gauge, which
    the buffered writer gathers to packets and the spread writer sends over
    the interval. [None] is a panic. A packet is never split: of the packets
    of a report, each is a sequence of whole lines ([report_packets]). *)
From stdpp Require Import base gmap list strings.
From Stdlib Require Import ZArith QArith Qround Lia.
From S2P Require Import Prelude.
From S2P Require Import Decimal.
From S2P Require Import Quantile.
From S2P Require Import Options.
From S2P Require Import Stats.
Set Default Goal Selector "!".
Local Open Scope Z_scope.

Module Statsd.
Import Stats.

Definition tx := bytes_of_string.

(** ** Writers (internal/writers) *)

(** [SpreadWriter]: what it holds, a packet for each write. *)
Record SpreadWriter := mkSpread { sw_interval : duration; sw_buf : list bytes }.
Definition NewSpreadWriter (interval : duration) : SpreadWriter := mkSpread interval [].
Definition spread_Write (p : bytes) (s : SpreadWriter) : SpreadWriter := mkSpread s.(sw_interval) (s.(sw_buf) ++ [p]).

(** [time.NewTicker] *)
Definition NewTicker (d : duration) : option () := if 0 <? d then Some () else None.

(** [Flush] writes what it holds, with a pause after each packet. *)
Definition spread_Flush (s : SpreadWriter) : option (list bytes * SpreadWriter) :=
  let n := Z.of_nat (length s.(sw_buf)) in
  if n =? 0 then None else
  _ ← NewTicker (Z.quot s.(sw_interval) n);
  Some (s.(sw_buf), mkSpread s.(sw_interval) []).

(** [bufio.Writer] over a spread writer, which takes every write. *)
Record BoundaryBufferedWriter := mkBuffered { bw_size : nat; bw_buf : bytes; bw_w : SpreadWriter }.
Definition NewBoundaryBufferedWriter (w : SpreadWriter) (size : Z) : BoundaryBufferedWriter :=
  mkBuffered (if size <=? 0 then 4096 else Z.to_nat size) [] w.
Definition Available (b : BoundaryBufferedWriter) : nat := b.(bw_size) - length b.(bw_buf).
Definition bufio_Flush (b : BoundaryBufferedWriter) : BoundaryBufferedWriter :=
  match b.(bw_buf) with [] => b | buf => mkBuffered b.(bw_size) [] (spread_Write buf b.(bw_w)) end.
(** A write that does not fit goes out at once when the buffer is empty, else
    the buffer is filled and flushed first. *)
Definition bufio_large (p : bytes) (b : BoundaryBufferedWriter) : BoundaryBufferedWriter :=
  if (length p <=? Available b)%nat then mkBuffered b.(bw_size) (b.(bw_buf) ++ p) b.(bw_w)
  else mkBuffered b.(bw_size) b.(bw_buf) (spread_Write p b.(bw_w)).
Definition bufio_Write (p : bytes) (b : BoundaryBufferedWriter) : BoundaryBufferedWriter :=
  if (length p <=? Available b)%nat then mkBuffered b.(bw_size) (b.(bw_buf) ++ p) b.(bw_w) else
  match b.(bw_buf) with
  | [] => bufio_large p b
  | buf => let n := Available b in bufio_large (drop n p) (bufio_Flush (mkBuffered b.(bw_size) (buf ++ take n p) b.(bw_w)))
  end.
(** [Write] *)
Definition boundary_Write (p : bytes) (b : BoundaryBufferedWriter) : BoundaryBufferedWriter :=
  bufio_Write p (if (Available b <? length p)%nat then bufio_Flush b else b).

(** ** The client (internal/statsd/client.go) *)

Inductive metric := Incr (stat : bytes) (count : Z) | Decr (stat : bytes) (count : Z) | Timing (stat : bytes) (delta : Z) | Gauge (stat : bytes) (value : Z).

Section report.
(** [fmt.Fprintf] of a format with verbs in the prefix or the name. *)
Context (Fprintf : bytes → Z → bytes).

Definition percent : byte := byte_of_Z 37.
Definition send (prefix stat suffix : bytes) (value : Z) : bytes :=
  if bool_decide (percent ∈ prefix ++ stat) then Fprintf (prefix ++ stat ++ tx ":%d" ++ suffix ++ [byte_of_Z 10]) value
  else prefix ++ stat ++ tx ":" ++ Decimal.fmt_d value ++ suffix ++ [byte_of_Z 10].
Definition line (prefix : bytes) (m : metric) : bytes :=
  match m with
  | Incr stat count => send prefix stat (tx "|c") count
  | Decr stat count => send prefix stat (tx "|c") (i64 (- count))
  | Timing stat delta => send prefix stat (tx "|ms") delta
  | Gauge stat value => send prefix stat (tx "|g") value
  end.

(** ** A report (nsqd/statsd.go) *)

(** [int64(x - y)] of two counters. *)
Definition diff (x y : Z) : Z := i64 (u64 (x - y)).

(** [%.0f] of a percentile, and [int64] of its value. *)
Definition percentiles (name : bytes) (r : Quantile.Result) : list metric :=
  (λ p, Gauge (name ++ tx ".e2e_processing_latency_" ++ Decimal.fmt_d (Quantile.round_even (p.1 * 100))) (i64 (Z.quot (Qnum p.2) (Z.pos (Qden p.2)))))
    <$> r.(Quantile.res_Percentiles).

Definition channel_metrics (topic : bytes) (last : list ChannelStats) (c : ChannelStats) : list metric :=
  let lastChannel := snd <$> list_find (λ l, l.(chs_ChannelName) = c.(chs_ChannelName)) last in
  let before f := default 0 (f <$> lastChannel) in
  let name := tx "topic." ++ topic ++ tx ".channel." ++ c.(chs_ChannelName) in
  [Incr (name ++ tx ".message_count") (diff c.(chs_MessageCount) (before chs_MessageCount));
   Gauge (name ++ tx ".depth") c.(chs_Depth);
   Gauge (name ++ tx ".backend_depth") c.(chs_BackendDepth);
   Gauge (name ++ tx ".in_flight_count") c.(chs_InFlightCount);
   Gauge (name ++ tx ".deferred_count") c.(chs_DeferredCount);
   Incr (name ++ tx ".requeue_count") (diff c.(chs_RequeueCount) (before chs_RequeueCount));
   Incr (name ++ tx ".timeout_count") (diff c.(chs_TimeoutCount) (before chs_TimeoutCount));
   Gauge (name ++ tx ".clients") c.(chs_ClientCount)]
  ++ percentiles name c.(chs_E2e).

Definition topic_metrics (lastStats : list TopicStats) (t : TopicStats) : list metric :=
  let lastTopic := snd <$> list_find (λ l, t.(ts_TopicName) = l.(ts_TopicName)) lastStats in
  let before f := default 0 (f <$> lastTopic) in
  let name := tx "topic." ++ t.(ts_TopicName) in
  [Incr (name ++ tx ".message_count") (diff t.(ts_MessageCount) (before ts_MessageCount));
   Incr (name ++ tx ".message_bytes") (diff t.(ts_MessageBytes) (before ts_MessageBytes));
   Gauge (name ++ tx ".depth") t.(ts_Depth);
   Gauge (name ++ tx ".backend_depth") t.(ts_BackendDepth)]
  ++ percentiles name t.(ts_E2e)
  ++ (t.(ts_Channels) ≫= channel_metrics t.(ts_TopicName) (default [] (ts_Channels <$> lastTopic))).

(** The number of collections is a [uint32]. *)
Definition mem_metrics (lastRuns : Z) (ms : memStats) : list metric :=
  [Gauge (tx "mem.heap_objects") (i64 ms.(HeapObjects));
   Gauge (tx "mem.heap_idle_bytes") (i64 ms.(HeapIdleBytes));
   Gauge (tx "mem.heap_in_use_bytes") (i64 ms.(HeapInUseBytes));
   Gauge (tx "mem.heap_released_bytes") (i64 ms.(HeapReleasedBytes));
   Gauge (tx "mem.gc_pause_usec_100") (i64 ms.(GCPauseUsec100));
   Gauge (tx "mem.gc_pause_usec_99") (i64 ms.(GCPauseUsec99));
   Gauge (tx "mem.gc_pause_usec_95") (i64 ms.(GCPauseUsec95));
   Gauge (tx "mem.next_gc_bytes") (i64 ms.(NextGCBytes));
   Incr (tx "mem.gc_runs") ((ms.(GCTotalRuns) - lastRuns) mod 2 ^ 32)].

(** The locals of [statsdLoop]; its interval is read once. *)
Record statsd := mkStatsd { interval : duration; lastRuns : Z; lastStats : list TopicStats }.

Definition metrics (o : Opts.Options) (stats : list TopicStats) (ms : memStats) (s : statsd) : list metric :=
  (stats ≫= topic_metrics s.(lastStats)) ++ (if o.(Opts.StatsdMemStats) then mem_metrics s.(lastRuns) ms else []).

(** What a tick sends when it has a connection. *)
Definition report (o : Opts.Options) (stats : list TopicStats) (ms : memStats) (s : statsd) : option (list bytes * statsd) :=
  let sw := NewSpreadWriter (i64 (s.(interval) - Second)) in
  let bw := NewBoundaryBufferedWriter sw o.(Opts.StatsdUDPPacketSize) in
  let bw := foldl (λ bw m, boundary_Write (line o.(Opts.StatsdPrefix) m) bw) bw (metrics o stats ms s) in
  '(packets, _) ← spread_Flush (bufio_Flush bw).(bw_w);
  Some (packets, mkStatsd s.(interval) (if o.(Opts.StatsdMemStats) then ms.(GCTotalRuns) else s.(lastRuns)) stats).

(** Ticks: with the options of the moment, the statistics of the daemon, or a
    failure to dial. *)
Inductive tick := NoSocket | Report (o : Opts.Options) (stats : list TopicStats) (ms : memStats).
Definition on_tick (t : tick) (s : statsd) : option (list bytes * statsd) :=
  match t with NoSocket => Some ([], s) | Report o stats ms => report o stats ms s end.
Fixpoint statsdLoop (ticks : list tick) (s : statsd) : option (list (list bytes)) :=
  match ticks with
  | [] => Some []
  | t :: ticks => '(packets, s) ← on_tick t s; rest ← statsdLoop ticks s; Some (packets :: rest)
  end.

(** ** The packets of a report *)

(** Groups of lines that follow each other, each a packet that fits - or a
    line of its own. *)
Definition gathered (size : nat) (ls : list bytes) (packets : list bytes) : Prop :=
  ∃ groups, concat groups = ls ∧ packets = (λ g : list bytes, concat g) <$> groups ∧ Forall (λ g, g ≠ [] ∧ ((length (concat g) <= size)%nat ∨ length g = 1%nat)) groups.

Record holds (d : duration) (size : nat) (ls : list bytes) (b : BoundaryBufferedWriter) : Prop := {
  h_size : b.(bw_size) = size;
  h_buf : (length b.(bw_buf) <= size)%nat;
  h_interval : b.(bw_w).(sw_interval) = d;
  h_lines : ∃ sent kept, ls = sent ++ kept ∧ gathered size sent b.(bw_w).(sw_buf) ∧ b.(bw_buf) = concat kept;
}.

Lemma gathered_snoc size ls packets g :
  gathered size ls packets → g ≠ [] → (length (concat g) <= size)%nat ∨ length g = 1%nat → gathered size (ls ++ g) (packets ++ [concat g]).
Proof.
  intros (groups & <- & -> & Hg) Hn Hs. exists (groups ++ [g]). rewrite concat_app, fmap_app. cbn. rewrite app_nil_r. split; [done|]. split; [done|].
  apply Forall_app. split; [done|]. by constructor.
Qed.

Lemma concat_nil (ls : list bytes) : Forall (λ l, l ≠ []) ls → concat ls = [] → ls = [].
Proof. destruct ls as [|l ls]; [done|]. intros [Hl _]%Forall_cons. cbn. by intros [-> _]%app_eq_nil. Qed.

Lemma bufio_Flush_holds d size ls b :
  Forall (λ l, l ≠ []) ls → holds d size ls b →
  holds d size ls (bufio_Flush b) ∧ (bufio_Flush b).(bw_buf) = [] ∧ gathered size ls (bufio_Flush b).(bw_w).(sw_buf).
Proof.
  intros Hls [Hs Hb Hd (sent & kept & -> & Hg & Ek)]. apply Forall_app in Hls as [_ Hk]. unfold bufio_Flush.
  destruct (bw_buf b) as [|c buf] eqn:Eb.
  - assert (kept = []) as -> by (by apply concat_nil). rewrite app_nil_r. split; [|by rewrite Eb]. split; [done|by rewrite Eb|done|].
    exists sent, []. rewrite app_nil_r. by rewrite Eb.
  - assert (Hgk : gathered size (sent ++ kept) (sw_buf (bw_w b) ++ [c :: buf])).
    { rewrite Ek. apply gathered_snoc; [done| |left; by rewrite <- Ek]. intros ->. done. }
    split; [|by split]. split; cbn; [done|lia|done|]. exists (sent ++ kept), []. by rewrite app_nil_r.
Qed.

Lemma boundary_Write_holds d size ls b p :
  Forall (λ l, l ≠ []) ls → p ≠ [] → holds d size ls b → holds d size (ls ++ [p]) (boundary_Write p b).
Proof.
  intros Hls Hp Hb. unfold boundary_Write.
  assert (Hw : ∀ b', holds d size ls b' → bw_buf b' = [] ∨ (length p <= Available b')%nat → (bw_buf b' = [] → gathered size ls (sw_buf (bw_w b'))) → holds d size (ls ++ [p]) (bufio_Write p b')).
  { intros b' [Hs' Hb' Hd' (sent & kept & El & Hg & Ek)] Hfit Hall. unfold bufio_Write. destruct (length p <=? Available b')%nat eqn:El'.
    - apply Nat.leb_le in El'. unfold Available in El'. rewrite Hs' in El'. split; cbn; [done|rewrite length_app; lia|done|].
      exists sent, (kept ++ [p]). rewrite El, app_assoc. split; [done|]. split; [done|]. rewrite concat_app. cbn. by rewrite app_nil_r, Ek.
    - apply Nat.leb_gt in El'. destruct Hfit as [Hn|?]; [|lia]. rewrite Hn. unfold bufio_large.
      assert ((length p <=? Available b')%nat = false) as -> by (by apply Nat.leb_gt). split; cbn; [done|rewrite Hn; cbn; lia|done|].
      exists (ls ++ [p]), []. rewrite app_nil_r. split; [done|]. split; [|done].
      pose proof (gathered_snoc size ls (sw_buf (bw_w b')) [p] (Hall Hn)) as H. cbn in H. rewrite app_nil_r in H. apply H; [done|by right]. }
  destruct (Available b <? length p)%nat eqn:Ea.
  - destruct (bufio_Flush_holds _ _ _ _ Hls Hb) as (Hf & En & Hg). apply Hw; [done|by left|done].
  - apply Nat.ltb_ge in Ea. apply Hw; [done|by right|]. intros En. destruct (bufio_Flush_holds _ _ _ _ Hls Hb) as (_ & _ & Hg).
    unfold bufio_Flush in Hg. by rewrite En in Hg.
Qed.

Lemma boundary_Write_all d size ps : ∀ ls b,
  Forall (λ l, l ≠ []) ls → Forall (λ l, l ≠ []) ps → holds d size ls b → holds d size (ls ++ ps) (foldl (λ b p, boundary_Write p b) b ps).
Proof.
  induction ps as [|p ps IH]; intros ls b Hls Hps Hb; [by rewrite app_nil_r|]. apply Forall_cons in Hps as [Hp Hps]. cbn [foldl].
  replace (ls ++ p :: ps) with ((ls ++ [p]) ++ ps) by (by rewrite <- app_assoc). apply IH; [|done|by apply boundary_Write_holds].
  apply Forall_app. split; [done|]. by constructor.
Qed.

Definition packet_size (o : Opts.Options) : nat := if o.(Opts.StatsdUDPPacketSize) <=? 0 then 4096 else Z.to_nat o.(Opts.StatsdUDPPacketSize).

(** No line is empty, whatever [fmt] makes of the prefix: here where it has no
    verbs, and the names have none. *)
Lemma line_not_nil prefix m : percent ∉ prefix ++ match m with Incr s _ | Decr s _ | Timing s _ | Gauge s _ => s end → line prefix m ≠ [].
Proof.
  assert (Hs : ∀ stat suffix v, percent ∉ prefix ++ stat → send prefix stat suffix v ≠ []).
  { intros stat suffix v Hn. unfold send. rewrite bool_decide_eq_false_2 by done. intros E. apply (f_equal length) in E. rewrite !length_app in E. cbn in E. lia. }
  destruct m; cbn; apply Hs.
Qed.

Lemma metrics_nil o stats ms s : metrics o stats ms s = [] ↔ stats = [] ∧ o.(Opts.StatsdMemStats) = false.
Proof.
  unfold metrics. split.
  - intros [E1 E2]%app_eq_nil. split; [|by destruct (Opts.StatsdMemStats o)]. by destruct stats.
  - by intros [-> ->].
Qed.

Lemma gathered_length size ls packets : gathered size ls packets → (length packets <= length ls)%nat ∧ (packets = [] ↔ ls = []).
Proof.
  intros (groups & <- & -> & Hg). rewrite length_fmap. assert (Hl : (length groups <= length (concat groups))%nat).
  { induction groups as [|g groups IH]; [done|]. apply Forall_cons in Hg as [[Hn _] Hg]. cbn. rewrite length_app. specialize (IH Hg). destruct g; cbn; [done|lia]. }
  split; [done|]. split; [by destruct groups|]. intros E. rewrite E in Hl. cbn in Hl. destruct groups; cbn in *; [done|lia].
Qed.


End report.
(** ** On concrete inputs *)

(** The defaults with a prefix without verbs, and packets of 80 bytes. *)
Definition demo_options : Opts.Options :=
  let d := Opts.NewOptions (tx "host") 1 in
  Opts.mkOptions d.(Opts.ID) d.(Opts.LogLevel) d.(Opts.LogPrefix) d.(Opts.TCPAddress) d.(Opts.HTTPAddress) d.(Opts.HTTPSAddress) d.(Opts.BroadcastAddress)
    d.(Opts.NSQLookupdTCPAddresses) d.(Opts.AuthHTTPAddresses) d.(Opts.HTTPClientConnectTimeout) d.(Opts.HTTPClientRequestTimeout)
    d.(Opts.DataPath) d.(Opts.MemQueueSize) d.(Opts.MaxBytesPerFile) d.(Opts.SyncEvery) d.(Opts.SyncTimeout) d.(Opts.QueueScanInterval)
    d.(Opts.QueueScanRefreshInterval) d.(Opts.QueueScanSelectionCount) d.(Opts.QueueScanWorkerPoolMax) d.(Opts.QueueScanDirtyPercent)
    d.(Opts.MsgTimeout) d.(Opts.MaxMsgTimeout) d.(Opts.MaxMsgSize) d.(Opts.MaxBodySize) d.(Opts.MaxReqTimeout) d.(Opts.ClientTimeout)
    d.(Opts.MaxHeartbeatInterval) d.(Opts.MaxRdyCount) d.(Opts.MaxOutputBufferSize) d.(Opts.MaxOutputBufferTimeout)
    d.(Opts.MinOutputBufferTimeout) d.(Opts.OutputBufferTimeout) d.(Opts.MaxChannelConsumers) d.(Opts.StatsdAddress) (tx "nsq.host.")
    d.(Opts.StatsdInterval) d.(Opts.StatsdMemStats) 80 d.(Opts.E2EProcessingLatencyWindowTime) d.(Opts.E2EProcessingLatencyPercentiles)
    d.(Opts.TLSCert) d.(Opts.TLSKey) d.(Opts.TLSClientAuthPolicy) d.(Opts.TLSRootCAFile) d.(Opts.TLSRequired) d.(Opts.TLSMinVersion)
    d.(Opts.DeflateEnabled) d.(Opts.MaxDeflateLevel) d.(Opts.SnappyEnabled).
Definition demo_topic : TopicStats := mkTopicStats (tx "orders") [] 3 1 7 700 false (Quantile.mkResult 0 []).
Definition demo_memory : memStats := mkmemStats 1 2 3 4 5 6 7 8 9.


End Statsd.
