(* ===== verification/Startup.v ===== *)
(** * Starting and serving (nsqd.go, nsqlookupd.go, tcp.go, tcp_server.go, http_server.go, dirlock.go, apps/nsqd/options.go)

    What a daemon acquires when it starts, how its options are read, how it
    accepts connections and hands them to the protocol, and how it ends. The
    operating system is what is bound and locked; certificates and files are
    parameters. [nsqd_starts] says what a started nsqd has, and what one that
    does not start leaves behind. *)
From stdpp Require Import base gmap list strings sorting.
From Stdlib Require Import ZArith QArith Lia.
From S2P Require Import Prelude.
From S2P Require Import Decimal.
From S2P Require Import Net.
From S2P Require Import Message.
From S2P Require Import Wire.
From S2P Require Import Options.
From S2P Require Import Protocol.
From S2P Require Import Nsqd.
From S2P Require Import NsqdHTTP.
From S2P Require Import Admin.
Set Default Goal Selector "!".
Local Open Scope Z_scope.

Module Startup.

Definition tx := bytes_of_string.

(** ** What a process holds *)

Record OS := mkOS { bound : list bytes; locked : list bytes }.

(** [dirlock.Lock]: the directory opens, and nobody holds it. *)
Definition Lock (open_dir : bytes → option string) (dir : bytes) (os : OS) : res string () * OS :=
  match open_dir dir with
  | Some e => (Err e, os)
  | None => if bool_decide (dir ∈ os.(locked)) then (Err "cannot flock directory"%string, os) else (Ok (), mkOS os.(bound) (os.(locked) ++ [dir]))
  end.
Definition Unlock (dir : bytes) (os : OS) : OS := mkOS os.(bound) (filter (λ d, d ≠ dir) os.(locked)).

(** [net.Listen] of an address that is free; what it is bound to. *)
Definition Listen (resolve : bytes → res string bytes) (addr : bytes) (os : OS) : res string bytes * OS :=
  match resolve addr with
  | Err e => (Err e, os)
  | Ok a => if bool_decide (a ∈ os.(bound)) then (Err "bind: address already in use"%string, os) else (Ok a, mkOS (os.(bound) ++ [a]) os.(locked))
  end.
Definition Close (a : bytes) (os : OS) : OS := mkOS (filter (λ b, b ≠ a) os.(bound)) os.(locked).

(** ** TLS (nsqd.go) *)

Inductive ClientAuthType := NoClientCert | RequireAnyClientCert | RequireAndVerifyClientCert.
Record tlsConfig := mkTLS { ClientAuth : ClientAuthType; MinVersion : Z; MaxVersion : Z; ClientCAs : option bytes }.
Definition VersionTLS12 : Z := 0x0303.

Section tls.
Context (LoadX509KeyPair : bytes → bytes → res string ()) (ReadFile : bytes → res string bytes) (AppendCertsFromPEM : bytes → bool).

Definition policy (p : bytes) : ClientAuthType :=
  if bool_decide (p = tx "require") then RequireAnyClientCert else
  if bool_decide (p = tx "require-verify") then RequireAndVerifyClientCert else NoClientCert.

Definition buildTLSConfig (o : Opts.Options) : res string (option tlsConfig) :=
  if bool_decide (o.(Opts.TLSCert) = []) && bool_decide (o.(Opts.TLSKey) = []) then Ok None else
  _ ← LoadX509KeyPair o.(Opts.TLSCert) o.(Opts.TLSKey);
  pool ← (if bool_decide (o.(Opts.TLSRootCAFile) = []) then Ok None else
          pem ← ReadFile o.(Opts.TLSRootCAFile);
          if AppendCertsFromPEM pem then Ok (Some pem) else Err "failed to append certificate to pool"%string);
  Ok (Some (mkTLS (policy o.(Opts.TLSClientAuthPolicy)) o.(Opts.TLSMinVersion) VersionTLS12 pool)).
End tls.

(** ** nsqd's New *)

Record daemon := mkDaemon { dl : bytes; tcpListener : bytes; httpListener : bytes; httpsListener : option bytes; d_tls : option tlsConfig; d_prefix : bytes; d_tlsRequired : Z }.

Section start.
Context (LoadX509KeyPair : bytes → bytes → res string ()) (ReadFile : bytes → res string bytes) (AppendCertsFromPEM : bytes → bool).
Context (open_dir : bytes → option string) (resolve : bytes → res string bytes) (cwd : bytes).
Notation build := (buildTLSConfig LoadX509KeyPair ReadFile AppendCertsFromPEM).

Definition dataPath (o : Opts.Options) : bytes := if bool_decide (o.(Opts.DataPath) = []) then cwd else o.(Opts.DataPath).

Definition listen_error (addr : bytes) (e : string) : string := "listen (" +:+ string_of_bytes addr +:+ ") failed - " +:+ e.

(** Listeners of the addresses, in their order. *)
Definition listen (addr : bytes) (os : OS) : res string bytes * OS :=
  match Listen resolve addr os with (Ok a, os) => (Ok a, os) | (Err e, os) => (Err (listen_error addr e), os) end.

Definition New (o : Opts.Options) (os : OS) : res string daemon * OS :=
  let '(l, os) := Lock open_dir (dataPath o) os in
  match Nsqd.New_check (is_ok l) (λ o, match build o with Ok c => Ok ((λ _, ()) <$> c) | Err e => Err e end) o, build o with
  | Ok (prefix, tlsRequired), Ok c =>
    let '(t, os) := listen o.(Opts.TCPAddress) os in
    match t with
    | Err e => (Err e, os)
    | Ok t =>
      let '(h, os) := listen o.(Opts.HTTPAddress) os in
      match h with
      | Err e => (Err e, os)
      | Ok h =>
        if bool_decide (is_Some c) && negb (bool_decide (o.(Opts.HTTPSAddress) = [])) then
          let '(s, os) := listen o.(Opts.HTTPSAddress) os in
          match s with
          | Err e => (Err e, os)
          | Ok s => (Ok (mkDaemon (dataPath o) t h (Some s) c prefix tlsRequired), os)
          end
        else (Ok (mkDaemon (dataPath o) t h None c prefix tlsRequired), os)
      end
    end
  | Err e, _ | _, Err e => (Err e, os)
  end.

(** [Exit], as far as the process is concerned: the listeners are closed and
    the lock is given up. *)
Definition close_listeners (d : daemon) (os : OS) : OS :=
  let os := Close d.(tcpListener) os in
  let os := Close d.(httpListener) os in
  match d.(httpsListener) with Some a => Close a os | None => os end.
Definition Exit (d : daemon) (os : OS) : OS := Unlock d.(dl) (close_listeners d os).

(** ** nsqlookupd (nsqlookupd.go, options.go) *)

Record LookupdOptions := mkLookupd {
  lo_LogLevel : Z; lo_LogPrefix : bytes; lo_TCPAddress : bytes; lo_HTTPAddress : bytes; lo_BroadcastAddress : bytes;
  lo_InactiveProducerTimeout : duration; lo_TombstoneLifetime : duration;
}.
Definition lookupd_NewOptions (hostname : bytes) : LookupdOptions :=
  mkLookupd Wire.INFO (tx "[nsqlookupd] ") (tx "0.0.0.0:4160") (tx "0.0.0.0:4161") hostname (300 * Second) (45 * Second).

(** The error of the second listener names the address of the first. *)
Definition lookupd_New (o : LookupdOptions) (os : OS) : res string (bytes * bytes) * OS :=
  let '(t, os) := listen o.(lo_TCPAddress) os in
  match t with
  | Err e => (Err e, os)
  | Ok t =>
    match Listen resolve o.(lo_HTTPAddress) os with
    | (Err e, os) => (Err (listen_error o.(lo_TCPAddress) e), os)
    | (Ok h, os) => (Ok (t, h), os)
    end
  end.
Definition lookupd_Exit (l : bytes * bytes) (os : OS) : OS := Close l.2 (Close l.1 os).

End start.

(** ** Serving (internal/protocol/tcp_server.go, internal/http_api/http_server.go) *)

(** What [Accept] returns. *)
Inductive accepted (C : Type) := Conn (c : C) | Temporary (e : string) | Failed (e : string).
Arguments Conn {C} c.
Arguments Temporary {C} e.
Arguments Failed {C} e.

(** [strings.Contains(err.Error(), "use of closed network connection")]. *)
Fixpoint contains (sub e : string) : bool :=
  String.prefix sub e || match e with EmptyString => false | String _ e => contains sub e end.
Definition is_closed (e : string) : bool := contains "use of closed network connection" e.

(** The connections that are handed to the handler, and what the server
    returns; [None] while it waits for the next connection. *)
Fixpoint TCPServer {C} (accepts : list (accepted C)) : list C * option (option string) :=
  match accepts with
  | [] => ([], None)
  | Conn c :: accepts => let '(cs, r) := TCPServer accepts in (c :: cs, r)
  | Temporary _ :: accepts => TCPServer accepts
  | Failed e :: _ => ([], Some (if is_closed e then None else Some ("listener.Accept() error - " +:+ e)))
  end.

Definition Serve (err : option string) : option string :=
  match err with
  | Some e => if is_closed e then None else Some ("http.Serve() error - " +:+ e)
  | None => None
  end.

(** [Main] of nsqd: the goroutines it starts, a server of HTTP with whether it
    is behind TLS and whether it requires it. *)
Inductive goroutine := GoTCP (l : bytes) | GoHTTP (l : bytes) (tlsEnabled tlsRequired : bool) | GoQueueScan | GoLookup | GoStatsd.
Definition Main_starts (o : Opts.Options) (d : daemon) : list goroutine :=
  [GoTCP d.(tcpListener); GoHTTP d.(httpListener) false (d.(d_tlsRequired) =? Opts.TLSRequired_)] ++
  (match d.(d_tls), d.(httpsListener) with
   | Some _, Some l => if bool_decide (o.(Opts.HTTPSAddress) = []) then [] else [GoHTTP l true true]
   | _, _ => []
   end) ++
  [GoQueueScan; GoLookup] ++ (if bool_decide (o.(Opts.StatsdAddress) = []) then [] else [GoStatsd]).

(** What [Main] returns: the servers return at some moments; the first of them
    decides. [None]: all of them serve. *)
Definition Main (returns : list (option string)) : option (option string) := head returns.

(** Temporary failures of [Accept] end nothing; every connection is handed
    over, in order, until one fails for good. *)
Lemma TCPServer_app {C} (l l' : list (accepted C)) : (∀ e, Failed e ∉ l) →
  TCPServer (l ++ l') = (omap (λ a, match a with Conn c => Some c | _ => None end) l ++ (TCPServer l').1, (TCPServer l').2).
Proof.
  induction l as [|a l IH]; cbn; intros Hf; [by destruct (TCPServer l')|].
  rewrite IH by (intros e He; apply (Hf e); by right). destruct a as [c|e|e]; cbn; [done|done|]. destruct (Hf e). by left.
Qed.

(** ** The first bytes of a connection (tcp.go) *)

(** Where a connection is after [Handle]: left open after a short read,
    refused and closed, or in the loop of the protocol with what follows. *)
Inductive handled := LeftOpen | Refused (response : bytes) | Serving (rest : bytes).

Definition nsqd_Handle (input : bytes) : handled :=
  if (length input <? 4)%nat then LeftOpen else
  if bool_decide (take 4 input = tx "  V2") then Serving (drop 4 input)
  else Refused (Wire.SendFramedResponse (W := bytes) [] Protocol.frameTypeError (tx "E_BAD_PROTOCOL")).1.

(** ** Options of the command line (apps/nsqd/options.go, internal/app) *)

(** [strconv.ParseBool] of lower case. *)
Definition ParseBool (s : bytes) : option bool :=
  if existsb (λ t, bool_decide (s = tx t)) ["1"; "t"; "true"]%string then Some true else
  if existsb (λ t, bool_decide (s = tx t)) ["0"; "f"; "false"]%string then Some false else None.

Definition lower (s : bytes) : bytes := Wire.lower_byte <$> s.

(** The value that is set, and whether there was an error. *)
Definition tlsRequired_Set (s : bytes) : Z * bool :=
  let s := lower s in
  if bool_decide (s = tx "tcp-https") then (Opts.TLSRequiredExceptHTTP, true) else
  match ParseBool s with
  | Some true => (Opts.TLSRequired_, true)
  | Some false => (Opts.TLSNotRequired, true)
  | None => (Opts.TLSNotRequired, false)
  end.

(** [None]: unknown; the value stays for an empty string. *)
Definition tlsMinVersion_Set (s : bytes) (old : Z) : option Z :=
  let s := lower s in
  if bool_decide (s = []) then Some old else
  if bool_decide (s = tx "ssl3.0") then Some 0x0300 else
  if bool_decide (s = tx "tls1.0") then Some 0x0301 else
  if bool_decide (s = tx "tls1.1") then Some 0x0302 else
  if bool_decide (s = tx "tls1.2") then Some 0x0303 else None.

(** [config.Validate] of the texts of the values: [None] is fatal. *)
Definition Validate (cfg : gmap (list Byte.byte) bytes) : option (gmap (list Byte.byte) bytes) :=
  cfg ← (match cfg !! tx "tls_required" with
         | None => Some cfg
         | Some v => let '(t, ok) := tlsRequired_Set v in
                     if ok then Some (<[ tx "tls_required" := Decimal.fmt_d t ]> cfg) else None
         end);
  match cfg !! tx "tls_min_version" with
  | None => Some cfg
  | Some v => t ← tlsMinVersion_Set v 0;
              Some (if t =? 0 then delete (tx "tls_min_version") cfg else <[ tx "tls_min_version" := Decimal.fmt_d t ]> cfg)
  end.

(** [StringArray] and [FloatArray]. *)
Definition StringArray_Set (a : list bytes) (s : bytes) : list bytes := a ++ [s].
Definition Qge (x y : Q) : Prop := Qle_bool y x = true.
#[export] Instance Qge_dec : RelDecision Qge := λ x y, bool_eq_dec (Qle_bool y x) true.
Definition FloatArray_Set (ParseFloat : bytes → option Q) (split : list bytes) (a : list Q) : option (list Q) :=
  vs ← mapM ParseFloat split; Some (merge_sort Qge (a ++ vs)).

(** [nsqdFlagSet]: the flags with their defaults. *)
Definition nsqdFlagSet (o : Opts.Options) : list (string * NsqdHTTP.opt_value) := [
  ("version", NsqdHTTP.OBool false);
  ("config", NsqdHTTP.OStr []);
  ("log-level", NsqdHTTP.OInt o.(Opts.LogLevel));
  ("log-prefix", NsqdHTTP.OStr (tx "[nsqd] "));
  ("verbose", NsqdHTTP.OBool false);
  ("node-id", NsqdHTTP.OInt o.(Opts.ID));
  ("worker-id", NsqdHTTP.OBool false);
  ("https-address", NsqdHTTP.OStr o.(Opts.HTTPSAddress));
  ("http-address", NsqdHTTP.OStr o.(Opts.HTTPAddress));
  ("tcp-address", NsqdHTTP.OStr o.(Opts.TCPAddress));
  ("auth-http-address", NsqdHTTP.OStrs []);
  ("broadcast-address", NsqdHTTP.OStr o.(Opts.BroadcastAddress));
  ("lookupd-tcp-address", NsqdHTTP.OStrs []);
  ("http-client-connect-timeout", NsqdHTTP.OInt o.(Opts.HTTPClientConnectTimeout));
  ("http-client-request-timeout", NsqdHTTP.OInt o.(Opts.HTTPClientRequestTimeout));
  ("data-path", NsqdHTTP.OStr o.(Opts.DataPath));
  ("mem-queue-size", NsqdHTTP.OInt o.(Opts.MemQueueSize));
  ("max-bytes-per-file", NsqdHTTP.OInt o.(Opts.MaxBytesPerFile));
  ("sync-every", NsqdHTTP.OInt o.(Opts.SyncEvery));
  ("sync-timeout", NsqdHTTP.OInt o.(Opts.SyncTimeout));
  ("msg-timeout", NsqdHTTP.OInt o.(Opts.MsgTimeout));
  ("max-msg-timeout", NsqdHTTP.OInt o.(Opts.MaxMsgTimeout));
  ("max-msg-size", NsqdHTTP.OInt o.(Opts.MaxMsgSize));
  ("max-req-timeout", NsqdHTTP.OInt o.(Opts.MaxReqTimeout));
  ("max-body-size", NsqdHTTP.OInt o.(Opts.MaxBodySize));
  ("max-heartbeat-interval", NsqdHTTP.OInt o.(Opts.MaxHeartbeatInterval));
  ("max-rdy-count", NsqdHTTP.OInt o.(Opts.MaxRdyCount));
  ("max-output-buffer-size", NsqdHTTP.OInt o.(Opts.MaxOutputBufferSize));
  ("max-output-buffer-timeout", NsqdHTTP.OInt o.(Opts.MaxOutputBufferTimeout));
  ("min-output-buffer-timeout", NsqdHTTP.OInt o.(Opts.MinOutputBufferTimeout));
  ("output-buffer-timeout", NsqdHTTP.OInt o.(Opts.OutputBufferTimeout));
  ("max-channel-consumers", NsqdHTTP.OInt o.(Opts.MaxChannelConsumers));
  ("statsd-address", NsqdHTTP.OStr o.(Opts.StatsdAddress));
  ("statsd-interval", NsqdHTTP.OInt o.(Opts.StatsdInterval));
  ("statsd-mem-stats", NsqdHTTP.OBool o.(Opts.StatsdMemStats));
  ("statsd-prefix", NsqdHTTP.OStr o.(Opts.StatsdPrefix));
  ("statsd-udp-packet-size", NsqdHTTP.OInt o.(Opts.StatsdUDPPacketSize));
  ("e2e-processing-latency-percentile", NsqdHTTP.ORats []);
  ("e2e-processing-latency-window-time", NsqdHTTP.OInt o.(Opts.E2EProcessingLatencyWindowTime));
  ("tls-cert", NsqdHTTP.OStr o.(Opts.TLSCert));
  ("tls-key", NsqdHTTP.OStr o.(Opts.TLSKey));
  ("tls-client-auth-policy", NsqdHTTP.OStr o.(Opts.TLSClientAuthPolicy));
  ("tls-root-ca-file", NsqdHTTP.OStr o.(Opts.TLSRootCAFile));
  ("tls-required", NsqdHTTP.OInt o.(Opts.TLSRequired));
  ("tls-min-version", NsqdHTTP.OInt o.(Opts.TLSMinVersion));
  ("deflate", NsqdHTTP.OBool o.(Opts.DeflateEnabled));
  ("max-deflate-level", NsqdHTTP.OInt o.(Opts.MaxDeflateLevel));
  ("snappy", NsqdHTTP.OBool o.(Opts.SnappyEnabled))
]%string.

(** The flags of nsqlookupd and nsqadmin (apps/nsqlookupd/main.go,
    apps/nsqadmin/main.go). *)
Definition nsqlookupdFlagSet (o : LookupdOptions) : list (string * NsqdHTTP.opt_value) := [
  ("config", NsqdHTTP.OStr []);
  ("version", NsqdHTTP.OBool false);
  ("log-level", NsqdHTTP.OInt o.(lo_LogLevel));
  ("log-prefix", NsqdHTTP.OStr (tx "[nsqlookupd] "));
  ("verbose", NsqdHTTP.OBool false);
  ("tcp-address", NsqdHTTP.OStr o.(lo_TCPAddress));
  ("http-address", NsqdHTTP.OStr o.(lo_HTTPAddress));
  ("broadcast-address", NsqdHTTP.OStr o.(lo_BroadcastAddress));
  ("inactive-producer-timeout", NsqdHTTP.OInt o.(lo_InactiveProducerTimeout));
  ("tombstone-lifetime", NsqdHTTP.OInt o.(lo_TombstoneLifetime))
]%string.

Definition nsqadminFlagSet (o : Admin.Options) : list (string * NsqdHTTP.opt_value) := [
  ("config", NsqdHTTP.OStr []);
  ("version", NsqdHTTP.OBool false);
  ("log-level", NsqdHTTP.OInt o.(Admin.LogLevel));
  ("log-prefix", NsqdHTTP.OStr (tx "[nsqadmin] "));
  ("verbose", NsqdHTTP.OBool false);
  ("http-address", NsqdHTTP.OStr o.(Admin.HTTPAddress));
  ("base-path", NsqdHTTP.OStr o.(Admin.BasePath));
  ("graphite-url", NsqdHTTP.OStr o.(Admin.GraphiteURL));
  ("proxy-graphite", NsqdHTTP.OBool false);
  ("statsd-counter-format", NsqdHTTP.OStr o.(Admin.StatsdCounterFormat));
  ("statsd-gauge-format", NsqdHTTP.OStr o.(Admin.StatsdGaugeFormat));
  ("statsd-prefix", NsqdHTTP.OStr o.(Admin.StatsdPrefix));
  ("statsd-interval", NsqdHTTP.OInt o.(Admin.StatsdInterval));
  ("notification-http-endpoint", NsqdHTTP.OStr []);
  ("http-client-connect-timeout", NsqdHTTP.OInt o.(Admin.HTTPClientConnectTimeout));
  ("http-client-request-timeout", NsqdHTTP.OInt o.(Admin.HTTPClientRequestTimeout));
  ("http-client-tls-insecure-skip-verify", NsqdHTTP.OBool false);
  ("http-client-tls-root-ca-file", NsqdHTTP.OStr []);
  ("http-client-tls-cert", NsqdHTTP.OStr []);
  ("http-client-tls-key", NsqdHTTP.OStr []);
  ("allow-config-from-cidr", NsqdHTTP.OStr o.(Admin.AllowConfigFromCIDR));
  ("acl-http-header", NsqdHTTP.OStr o.(Admin.AclHttpHeader));
  ("lookupd-http-address", NsqdHTTP.OStrs []);
  ("nsqd-http-address", NsqdHTTP.OStrs []);
  ("admin-user", NsqdHTTP.OStrs [])
]%string.

Fixpoint flag_lookup (l : list (string * NsqdHTTP.opt_value)) (name : string) : option NsqdHTTP.opt_value :=
  match l with
  | [] => None
  | (f, v) :: l => if String.eqb f name then Some v else flag_lookup l name
  end.

(** Every option with a tag has a flag, whose default is the option's value:
    a command line without flags and an empty configuration change nothing. *)
Lemma flags_agree hostname id fl cfg v :
  let o := Opts.NewOptions hostname id in
  (fl, cfg, v) ∈ NsqdHTTP.opt_fields o → fl ≠ ""%string → flag_lookup (nsqdFlagSet o) fl = Some v.
Proof.
  intros o Hin Hne. apply list_elem_of_In in Hin. cbn [NsqdHTTP.opt_fields In] in Hin.
  repeat destruct Hin as [[= <- <- <-]|Hin]; try done; reflexivity.
Qed.

Lemma admin_flags_agree fl cfg v :
  (fl, cfg, v) ∈ Admin.opt_fields Admin.NewOptions → flag_lookup (nsqadminFlagSet Admin.NewOptions) fl = Some v.
Proof.
  intros Hin. apply list_elem_of_In in Hin. cbn [Admin.opt_fields In] in Hin.
  repeat destruct Hin as [[= <- <- <-]|Hin]; try done; reflexivity.
Qed.

(** ** What is acquired *)

Definition listeners (d : daemon) : list bytes := [d.(tcpListener); d.(httpListener)] ++ option_list d.(httpsListener).

Section acquired.
Context (LoadX509KeyPair : bytes → bytes → res string ()) (ReadFile : bytes → res string bytes) (AppendCertsFromPEM : bytes → bool).
Context (open_dir : bytes → option string) (resolve : bytes → res string bytes) (cwd : bytes).
Notation build := (buildTLSConfig LoadX509KeyPair ReadFile AppendCertsFromPEM).
Notation New := (New LoadX509KeyPair ReadFile AppendCertsFromPEM open_dir resolve cwd).

Lemma Lock_spec dir os r os' : Lock open_dir dir os = (r, os') →
  match r with Ok _ => dir ∉ os.(locked) ∧ os' = mkOS os.(bound) (os.(locked) ++ [dir]) | Err _ => os' = os end.
Proof. unfold Lock. destruct (open_dir dir); [by intros [= <- <-]|]. by case_bool_decide; intros [= <- <-]. Qed.

Lemma listen_spec addr os r os' : listen resolve addr os = (r, os') →
  match r with Ok a => a ∉ os.(bound) ∧ resolve addr = Ok a ∧ os' = mkOS (os.(bound) ++ [a]) os.(locked) | Err _ => os' = os end.
Proof.
  unfold listen, Listen. destruct (resolve addr) as [a|e]; [|by intros [= <- <-]]. by case_bool_decide; intros [= <- <-].
Qed.

Lemma filter_ne (a : bytes) (l : list bytes) : a ∉ l → filter (λ b, b ≠ a) l = l.
Proof.
  induction l as [|b l IH]; [done|]. intros [Hb Hl]%not_elem_of_cons. rewrite filter_cons_True by done. by rewrite IH.
Qed.

Lemma Unlock_last d os : d ∉ os.(locked) → Unlock d (mkOS os.(bound) (os.(locked) ++ [d])) = os.
Proof.
  intros Ha. unfold Unlock. cbn. rewrite filter_app, filter_cons_False, app_nil_r by (by intros ?). rewrite filter_ne by done. by destruct os.
Qed.

(** The options that pass the checks. *)
Lemma New_check_ok l b o prefix t : Nsqd.New_check l b o = Ok (prefix, t) →
  l = true ∧ 1 <= o.(Opts.MaxDeflateLevel) <= 9 ∧ 0 <= o.(Opts.ID) < 1024 ∧ (∃ c, b o = Ok c ∧ (t ≠ Opts.TLSNotRequired → is_Some c)) ∧
  Forall (λ p, 0 < p ∧ p <= 1)%Q o.(Opts.E2EProcessingLatencyPercentiles).
Proof.
  unfold Nsqd.New_check. destruct l; cbn [negb]; [|done]. destruct ((_ <? 1) || _) eqn:E1; [done|]. destruct ((_ <? 0) || _) eqn:E2; [done|]. intros E.
  apply res_bind_ok in E as (p & _ & E). cbv zeta in E. set (t' := if _ && _ then _ else _) in E. clearbody t'. destruct (b o) as [c|] eqn:Eb; [|done].
  destruct (bool_decide (c = None) && _) eqn:E3; [done|]. destruct (existsb _ _) eqn:E4; [done|]. injection E as -> ->.
  apply orb_false_iff in E1 as [? ?], E2 as [? ?]. rewrite Z.gtb_ltb in *. rewrite Z.geb_leb in *. bool_to_prop. split; [done|]. split; [lia|]. split; [lia|]. split.
  - exists c. split; [done|]. intros Ht. destruct c as [c|]; [by eexists|]. apply andb_false_iff in E3 as [E3%bool_decide_eq_false|E3]; [done|].
    apply negb_false_iff, Z.eqb_eq in E3. done.
  - apply Forall_forall. intros q Hq. assert (Hn : Qle_bool q 0 || negb (Qle_bool q 1) = false).
    { destruct (_ || _) eqn:E; [|done]. exfalso. assert (existsb (λ v, Qle_bool v 0 || negb (Qle_bool v 1)) (Opts.E2EProcessingLatencyPercentiles o) = true); [|congruence].
      apply existsb_exists. exists q. split; [by apply list_elem_of_In|done]. }
    apply orb_false_iff in Hn as [Hn1 Hn2%negb_false_iff]. split; [|by apply Qle_bool_iff]. apply Qnot_le_lt. intros Hle. apply Qle_bool_iff in Hle. congruence.
Qed.

(** A configuration is built exactly when there is a certificate or a key. *)
Lemma build_None o c : build o = Ok c → c = None ↔ o.(Opts.TLSCert) = [] ∧ o.(Opts.TLSKey) = [].
Proof.
  unfold buildTLSConfig. intros Eb. destruct (bool_decide (Opts.TLSCert o = []) && _) eqn:E.
  - injection Eb as <-. apply andb_true_iff in E as [?%bool_decide_eq_true ?%bool_decide_eq_true]. by split.
  - apply res_bind_ok in Eb as (_ & _ & Eb). apply res_bind_ok in Eb as (pool & _ & [= <-]). split; [done|]. intros [E1 E2].
    rewrite !bool_decide_eq_true_2 in E by done. done.
Qed.

Lemma Close_mid a b c l : a ∉ b → a ∉ c → Close a (mkOS (b ++ a :: c) l) = mkOS (b ++ c) l.
Proof.
  intros Hb Hc. unfold Close. cbn. rewrite filter_app, filter_cons_False by (by intros ?). by rewrite !filter_ne.
Qed.

(** [Exit] closes what was bound and gives the lock up. *)
Lemma Exit_gives_back p t h s c prefix r os :
  t ∉ os.(bound) → h ∉ os.(bound) ++ [t] → (∀ a, s = Some a → a ∉ os.(bound) ++ [t; h]) → p ∉ os.(locked) →
  Exit (mkDaemon p t h s c prefix r) (mkOS (os.(bound) ++ [t; h] ++ option_list s) (os.(locked) ++ [p])) = os.
Proof.
  intros Ht Hh Hs Hp. unfold Exit, close_listeners. cbn [tcpListener httpListener httpsListener dl]. apply not_elem_of_app in Hh as [Hh Hth%not_elem_of_cons].
  assert (Hst : t ∉ option_list s ∧ h ∉ option_list s).
  { destruct s as [a|]; [|split; apply not_elem_of_nil]. specialize (Hs a eq_refl).
    split; intros ->%list_elem_of_singleton; apply Hs; apply elem_of_app; right; set_solver. }
  change ([t; h] ++ option_list s) with (t :: h :: option_list s). rewrite Close_mid; [|done|apply not_elem_of_cons; split; [by intros ->; destruct Hth|apply Hst]].
  rewrite Close_mid; [|done|apply Hst]. destruct s as [a|]; cbn.
  - rewrite Close_mid; [|specialize (Hs a eq_refl); by apply not_elem_of_app in Hs as [? _]|apply not_elem_of_nil]. rewrite app_nil_r. by apply Unlock_last.
  - rewrite app_nil_r. by apply Unlock_last.
Qed.

(** A nsqlookupd that starts has its two listeners, on addresses that were
    free; [Exit] gives back exactly them. *)
Lemma lookupd_New_spec o os t h os' : lookupd_New resolve o os = (Ok (t, h), os') →
  t ∉ os.(bound) ∧ h ∉ os.(bound) ++ [t] ∧ os' = mkOS (os.(bound) ++ [t; h]) os.(locked) ∧ lookupd_Exit (t, h) os' = os.
Proof.
  unfold lookupd_New. destruct (listen resolve _ _) as [tl os1] eqn:Et. apply listen_spec in Et. destruct tl as [tl|]; [|done].
  destruct Et as (Ht & _ & ->). unfold Listen. destruct (resolve _) as [hl|]; [|done]. cbn [bound locked]. case_bool_decide as Hh; [done|]. intros [= -> -> <-].
  rewrite <- app_assoc. cbn [app]. split; [done|]. split; [done|]. split; [done|]. apply not_elem_of_app in Hh as [Hh Hth]. unfold lookupd_Exit. cbn [fst snd].
  rewrite Close_mid; [|done|apply not_elem_of_cons; split; [by intros ->; apply Hth; left|apply not_elem_of_nil]].
  rewrite Close_mid; [|done|apply not_elem_of_nil]. rewrite app_nil_r. by destruct os.
Qed.

(** What [New] and [Exit] do to the process. *)
Definition started (o : Opts.Options) (os : OS) (d : daemon) (os' : OS) : Prop :=
  (0 <= o.(Opts.ID) < 1024 ∧ 1 <= o.(Opts.MaxDeflateLevel) <= 9 ∧ Forall (λ p, 0 < p ∧ p <= 1)%Q o.(Opts.E2EProcessingLatencyPercentiles)) ∧
  (d.(d_tlsRequired) ≠ Opts.TLSNotRequired → is_Some d.(d_tls)) ∧
  (d.(d_tls) = None ↔ o.(Opts.TLSCert) = [] ∧ o.(Opts.TLSKey) = []) ∧
  (is_Some d.(httpsListener) ↔ is_Some d.(d_tls) ∧ o.(Opts.HTTPSAddress) ≠ []) ∧
  d.(dl) ∉ os.(locked) ∧ os' = mkOS (os.(bound) ++ listeners d) (os.(locked) ++ [d.(dl)]) ∧
  Exit d os' = os.

Lemma New_spec o os r os' : New o os = (r, os') →
  match r with
  | Ok d => started o os d os'
  | Err _ => ∃ b l, os' = mkOS (os.(bound) ++ b) (os.(locked) ++ l)
  end.
Proof.
  unfold started, Startup.New. destruct (Lock open_dir (dataPath cwd o) os) as [l os1] eqn:El. apply Lock_spec in El.
  assert (Hos1 : ∃ l, os1 = mkOS (os.(bound) ++ []) (os.(locked) ++ l)).
  { rewrite app_nil_r. destruct l; [destruct El as [_ ->]; by eexists|]. exists []. rewrite app_nil_r. subst. by destruct os. }
  destruct (Nsqd.New_check _ _ o) as [[prefix t]|e] eqn:Ec; [|intros [= <- <-]; destruct Hos1 as [l' ->]; by exists [], l'].
  apply New_check_ok in Ec as (Hl & Hd & Hid & (c & Hc & Ht) & Hp). destruct l as [[]|]; [|done]. destruct El as [Hdl ->]. cbn [is_ok] in *. clear Hl Hos1.
  destruct (build o) as [c'|e] eqn:Eb; [|intros [= <- <-]; exists [], [dataPath cwd o]; by rewrite app_nil_r]. injection Hc as <-.
  pose proof (build_None o c' Eb) as Htls.
  assert (Ht' : t ≠ Opts.TLSNotRequired → is_Some c') by (intros Hn; destruct (Ht Hn) as [? ?]; by destruct c'). clear Ht.
  destruct (listen resolve (Opts.TCPAddress o) _) as [tl os2] eqn:Et. apply listen_spec in Et.
  destruct tl as [tl|e]; [|intros [= <- <-]; subst; exists [], [dataPath cwd o]; by rewrite app_nil_r]. destruct Et as (Ht1 & _ & ->). cbn [bound locked] in *.
  destruct (listen resolve (Opts.HTTPAddress o) _) as [hl os3] eqn:Eh. apply listen_spec in Eh.
  destruct hl as [hl|e]; [|intros [= <- <-]; subst; by exists [tl], [dataPath cwd o]]. destruct Eh as (Hh1 & _ & ->). cbn [bound locked] in *.
  destruct (bool_decide (is_Some c') && _) eqn:Es.
  - apply andb_true_iff in Es as [Hsc%bool_decide_eq_true Hha%negb_true_iff%bool_decide_eq_false].
    destruct (listen resolve (Opts.HTTPSAddress o) _) as [sl os4] eqn:Esl. apply listen_spec in Esl.
    destruct sl as [sl|e]; intros [= <- <-]; [|subst; exists [tl; hl], [dataPath cwd o]; cbn; by rewrite <- app_assoc].
    destruct Esl as (Hs1 & _ & ->). cbn [bound locked dl d_tls d_tlsRequired httpsListener] in *. split; [done|]. split; [done|]. split; [done|].
    split; [by split|]. split; [done|]. split; [cbn; by rewrite <- !app_assoc|].
    pose proof (Exit_gives_back (dataPath cwd o) tl hl (Some sl) c' prefix t os) as He. rewrite <- !app_assoc in *. cbn in *. apply He; try done. by intros a [= <-].
  - intros [= <- <-]. cbn [bound locked dl d_tls d_tlsRequired httpsListener] in *. split; [done|]. split; [done|]. split; [done|]. split.
    { split; [by intros []|]. intros [Hsc Hha]. rewrite bool_decide_eq_true_2, bool_decide_eq_false_2 in Es by done. done. }
    split; [done|]. split; [cbn; by rewrite <- !app_assoc|].
    pose proof (Exit_gives_back (dataPath cwd o) tl hl None c' prefix t os) as He. rewrite <- !app_assoc in *. cbn in *. by apply He.
Qed.


End acquired.
(** The defaults start next to another daemon, and give back what they took. *)
Definition demo_os : OS := mkOS [tx "0.0.0.0:80"] [tx "/var/other"].
Definition demo_New (o : Opts.Options) (os : OS) : res string daemon * OS := New (λ _ _, Ok ()) (λ _, Ok []) (λ _, true) (λ _, None) Ok (tx "/var/nsqd") o os.


End Startup.
