(* ===== verification/Pipes.v ===== *)
(** * to_nsq and nsq_tail (apps/to_nsq/to_nsq.go, apps/nsq_tail/nsq_tail.go)

    [Feed]: lines of the standard input are published to every producer, at
    most at a given rate; the producers are go-nsq, and [publish] answers each
    call. [Tail]: the messages of topics are written to the standard output;
    the consumers are go-nsq, one handler for each topic, its messages one
    after the other, and what the handlers write comes in the order of the
    events. *)
From stdpp Require Import base gmap list strings.
From Stdlib Require Import ZArith Lia.
From S2P Require Import Prelude.
From S2P Require Import Text.
From S2P Require Import Decimal.
Set Default Goal Selector "!".
Local Open Scope Z_scope.

Module Feed.

Record Flags := mkFlags { topic : bytes; delimiter : bytes; destNsqdTCPAddrs : list bytes; rate : Z }.

(** The checks of [main], and the addresses of the producers: the keys of a
    map; [NewProducer] is go-nsq. *)
Definition check_flags (NewProducer : bytes → option string) (f : Flags) : res string (list bytes) :=
  if bool_decide (f.(topic) = []) then Err "--topic required"%string else
  if negb (length f.(delimiter) =? 1)%nat then Err "--delimiter must be a single byte"%string else
  match omap NewProducer f.(destNsqdTCPAddrs) with
  | e :: _ => Err ("failed to create nsq.Producer - " +:+ e)%string
  | [] =>
    if bool_decide (f.(destNsqdTCPAddrs) = []) then Err "--nsqd-tcp-address required"%string
    else Ok (remove_dups f.(destNsqdTCPAddrs))
  end.

(** [bufio.Reader.ReadBytes]: what was read with the delimiter, or with the
    end of the input. *)
Fixpoint ReadBytes (delim : byte) (r : bytes) : bytes * bool * bytes :=
  match r with
  | [] => ([], true, [])
  | b :: r => if bool_decide (b = delim) then ([b], false, r) else
              let '(l, eof, r) := ReadBytes delim r in (b :: l, eof, r)
  end.

(** How the loop ends: [io.EOF], or what is fatal. *)
Inductive ended := Eof | Fatal (e : string).

(** What is unread, and what the producers took. *)
Record feeding := mkFeeding { stdin : bytes; calls : nat; published : list (bytes * bytes) }.

Section feed.
Context (publish : nat → bytes → bytes → option string).
(** The order of the map of producers, at each call. *)
Context (range : nat → list bytes → list bytes).
Context (delim : byte) (producers : list bytes).

Fixpoint publish_each (addrs : list bytes) (line : bytes) (s : feeding) : option string * feeding :=
  match addrs with
  | [] => (None, s)
  | a :: addrs =>
    match publish s.(calls) a line with
    | Some e => (Some e, mkFeeding s.(stdin) (S s.(calls)) s.(published))
    | None => publish_each addrs line (mkFeeding s.(stdin) (S s.(calls)) (s.(published) ++ [(a, line)]))
    end
  end.

(** [None]: no error. *)
Definition readAndPublish (s : feeding) : option ended * feeding :=
  let '(line, eof, rest) := ReadBytes delim s.(stdin) in
  let s := mkFeeding rest s.(calls) s.(published) in
  let readErr := if eof : bool then Some Eof else None in
  let line := if (0 <? length line)%nat then take (length line - 1) line else line in
  if (length line =? 0)%nat then (readErr, s) else
  let '(err, s) := publish_each (range s.(calls) producers) line s in
  match err with
  | Some e => (Some (Fatal e), s)
  | None => (readErr, s)
  end.

(** The goroutine, without a rate; [None] is not enough fuel. *)
Fixpoint feed (fuel : nat) (s : feeding) : option (ended * feeding) :=
  match fuel with
  | O => None
  | S fuel =>
    match readAndPublish s with
    | (Some e, s) => Some (e, s)
    | (None, s) => feed fuel s
    end
  end.

(** ** What is published *)

(** The lines, without the empty ones; what follows the last delimiter loses
    its last byte. *)
Definition non_empty (l : bytes) : list bytes := if bool_decide (l = []) then [] else [l].
Definition cut_last (l : bytes) : bytes := take (length l - 1) l.
Fixpoint lines_of (ws : list bytes) : list bytes :=
  match ws with
  | [] => []
  | [w] => non_empty (cut_last w)
  | w :: ws => non_empty w ++ lines_of ws
  end.
Definition to_each (a : bytes) (s : feeding) : list bytes := snd <$> filter (λ p, p.1 = a) s.(published).

Hypothesis Hrange : ∀ i l, range i l ≡ₚ l.
Hypothesis Hproducers : NoDup producers.

Lemma ReadBytes_spec r :
  (∃ w rest, delim ∉ w ∧ r = w ++ delim :: rest ∧ ReadBytes delim r = (w ++ [delim], false, rest)) ∨
  (delim ∉ r ∧ ReadBytes delim r = (r, true, [])).
Proof.
  induction r as [|b r IH]; cbn; [right; split; [apply not_elem_of_nil|done]|]. case_bool_decide as Hb; [subst b; left; exists [], r; split; [apply not_elem_of_nil|done]|].
  destruct IH as [(w & rest & Hw & -> & ->)|[Hr ->]]; [left|right].
  - exists (b :: w), rest. split; [by apply not_elem_of_cons|done].
  - split; [by apply not_elem_of_cons|done].
Qed.

(** Publishing gives the line to the producers before the one that fails. *)
Lemma publish_each_spec addrs line s r s' : publish_each addrs line s = (r, s') →
  ∃ k, s'.(published) = s.(published) ++ ((λ a, (a, line)) <$> take k addrs) ∧ s'.(stdin) = s.(stdin) ∧
    match r with None => take k addrs = addrs | Some e => ∃ i a, publish i a line = Some e end.
Proof.
  revert s. induction addrs as [|a addrs IH]; cbn; intros s; [intros [= <- <-]; exists 0%nat; by rewrite app_nil_r|].
  destruct (publish (calls s) a line) as [e|] eqn:E.
  - intros [= <- <-]. exists 0%nat. cbn. rewrite app_nil_r. split; [done|]. split; [done|]. by eexists _, _.
  - intros H. apply IH in H as (k & H1 & H2 & H3). exists (S k). cbn in *. rewrite H1, <- app_assoc. split; [done|]. split; [done|]. destruct r; [done|]. by rewrite H3.
Qed.

Lemma each_gets a line addrs k : NoDup addrs → a ∈ addrs →
  let got := snd <$> filter (λ p : bytes * bytes, p.1 = a) ((λ a, (a, line)) <$> take k addrs) in
  (got = [] ∨ got = [line]) ∧ (take k addrs = addrs → got = [line]).
Proof.
  intros Hnd Ha got. assert (Hno : ∀ l, a ∉ l → filter (λ p : bytes * bytes, p.1 = a) ((λ a, (a, line)) <$> l) = []).
  { intros l Hl. induction l as [|b l IH]; [done|]. apply not_elem_of_cons in Hl as [Hb Hl]. rewrite fmap_cons, filter_cons_False by (cbn; congruence). by apply IH. }
  assert (Hyes : ∀ l, NoDup l → a ∈ l → snd <$> filter (λ p : bytes * bytes, p.1 = a) ((λ a, (a, line)) <$> l) = [line]).
  { induction l as [|b l IH]; [by intros ? ?%elem_of_nil|]. intros [Hb Hl]%NoDup_cons. rewrite fmap_cons. destruct (decide (b = a)) as [->|Hne].
    - intros _. rewrite filter_cons_True by done. rewrite fmap_cons. by rewrite Hno.
    - intros [?|?]%elem_of_cons; [by subst|]. rewrite filter_cons_False by done. by apply IH. }
  split; [|intros Hk; subst got; rewrite Hk; by apply Hyes]. destruct (decide (a ∈ take k addrs)) as [Hin|Hin].
  - right. apply Hyes; [|done]. eapply sublist_NoDup; [exact Hnd|apply sublist_take].
  - left. subst got. by rewrite Hno.
Qed.

(** A call publishes a line to everyone, to some, or to nobody. *)
Lemma readAndPublish_spec a s : a ∈ producers →
  let '(r, s') := readAndPublish s in
  let ws := lines_of (Split.split delim s.(stdin)) in
  match r with
  | None => (length s'.(stdin) < length s.(stdin))%nat ∧ ∃ l, to_each a s' = to_each a s ++ l ∧ ws = l ++ lines_of (Split.split delim s'.(stdin))
  | Some Eof => to_each a s' = to_each a s ++ ws
  | Some (Fatal e) => ∃ l, to_each a s' = to_each a s ++ l ∧ l `prefix_of` ws ∧ ∃ i b line, publish i b line = Some e
  end.
Proof.
  intros Ha. unfold readAndPublish. cbn zeta.
  assert (Hpub : ∀ line rest, ¬ (length line =? 0)%nat → ∀ r s', publish_each (range (calls s) producers) line (mkFeeding rest (calls s) (published s)) = (r, s') →
    s'.(stdin) = rest ∧ ∃ l, to_each a s' = to_each a s ++ l ∧ (l = [] ∨ l = non_empty line) ∧ match r with None => l = non_empty line | Some e => ∃ i b line, publish i b line = Some e end).
  { intros line rest Hl r s' H. apply publish_each_spec in H as (k & H1 & H2 & H3). split; [done|]. assert (Hne : non_empty line = [line]) by (destruct line; [by destruct Hl|done]).
    destruct (each_gets a line (range (calls s) producers) k) as [Hg Hg']; [by rewrite Hrange|by rewrite Hrange|]. rewrite Hne.
    eexists. split; [unfold to_each; rewrite H1; cbn; rewrite filter_app, fmap_app; reflexivity|]. split; [exact Hg|]. destruct r; [destruct H3 as (i & b & H3); by exists i, b, line|by apply Hg']. }
  destruct (ReadBytes_spec (stdin s)) as [(w & rest & Hw & E & ->)|[Hw ->]]; cbn [stdin calls published].
  - rewrite E, Split.split_app by done. rewrite length_app. cbn [length]. replace (0 <? length w + 1)%nat with true by (symmetry; apply Nat.ltb_lt; lia).
    replace (length w + 1 - 1)%nat with (length w) by lia. rewrite take_app_length. rewrite length_app. cbn [length].
    assert (Hls : lines_of (w :: Split.split delim rest) = non_empty w ++ lines_of (Split.split delim rest)).
    { destruct (Split.split_cons delim rest) as (w' & ws & ->). done. }
    rewrite Hls. destruct (length w =? 0)%nat eqn:El.
    + apply Nat.eqb_eq, nil_length_inv in El as ->. cbn [stdin length]. split; [lia|]. exists []. by rewrite app_nil_r.
    + destruct (publish_each _ _ _) as [r s'] eqn:Ep. apply Hpub in Ep as (Hs & l & Hl & Hor & Hr); [|rewrite ?El; cbn; tauto]. destruct r as [e|].
      * exists l. split; [done|]. split; [|done]. destruct Hor as [->| ->]; [apply prefix_nil|by eexists].
      * rewrite Hs. split; [lia|]. exists l. by rewrite Hr in *.
  - rewrite (Split.split_word delim) by done. cbn [lines_of]. unfold cut_last.
    replace (if (0 <? length (stdin s))%nat then take (length (stdin s) - 1) (stdin s) else stdin s) with (take (length (stdin s) - 1) (stdin s)) by (by destruct (stdin s)).
    set (line := take _ _). destruct (length line =? 0)%nat eqn:El.
    + apply Nat.eqb_eq, nil_length_inv in El as ->. cbn. by rewrite app_nil_r.
    + destruct (publish_each _ _ _) as [r s'] eqn:Ep. apply Hpub in Ep as (Hs & l & Hl & Hor & Hr); [|rewrite ?El; cbn; tauto]. destruct r as [e|].
      * exists l. split; [done|]. split; [|done]. destruct Hor as [->| ->]; [apply prefix_nil|done].
      * by rewrite Hl, Hr.
Qed.

Lemma feed_spec a fuel s : a ∈ producers → (length s.(stdin) < fuel)%nat →
  ∃ r s' l, feed fuel s = Some (r, s') ∧ to_each a s' = to_each a s ++ l ∧ l `prefix_of` lines_of (Split.split delim s.(stdin)) ∧
    match r with Eof => l = lines_of (Split.split delim s.(stdin)) | Fatal e => ∃ i b line, publish i b line = Some e end.
Proof.
  intros Ha. revert s. induction fuel as [|fuel IH]; intros s Hf; [lia|]. cbn. pose proof (readAndPublish_spec a s Ha) as Hs.
  destruct (readAndPublish s) as [[[|e]|] s1].
  - exists Eof, s1, (lines_of (Split.split delim (stdin s))). by repeat split.
  - destruct Hs as (l & Hl & Hp & He). by exists (Fatal e), s1, l.
  - destruct Hs as (Hlen & l & Hl & Hws). destruct (IH s1) as (r & s' & l' & Hf' & Hl' & Hp & Hr); [lia|]. exists r, s', (l ++ l').
    split; [done|]. split; [by rewrite Hl', Hl, app_assoc|]. rewrite Hws. split; [by apply prefix_app|]. destruct r; [by rewrite Hr|done].
Qed.

(** Reading the standard input ends. Every producer has got, in order, the
    lines that were read before a call failed, and all of them when none
    failed: the pieces between the delimiters that are not empty, and what
    follows the last delimiter without its last byte. *)
Theorem lines_fed a input : a ∈ producers →
  ∃ r s', feed (S (length input)) (mkFeeding input 0 []) = Some (r, s') ∧
    to_each a s' `prefix_of` lines_of (Split.split delim input) ∧
    match r with Eof => to_each a s' = lines_of (Split.split delim input) | Fatal e => ∃ i b line, publish i b line = Some e end.
Proof.
  intros Ha. destruct (feed_spec a (S (length input)) (mkFeeding input 0 []) Ha) as (r & s' & l & Hf & Hl & Hp & Hr); [cbn; lia|].
  exists r, s'. split; [done|]. rewrite Hl. split; [done|]. by destruct r.
Qed.

End feed.

(** ** The rate *)

(** The loop with a rate: where it is, whether the ticker has ticked since it
    went to sleep; how many lines it has read. *)
Inductive at_ := Idle | Sleeping (ticked : bool) | Publishing.
Record throttle := mkThrottle { balance : Z; loop : at_; read : nat; ticks : nat }.

(** A tick: the balance grows, up to the rate. *)
Definition on_tick (rate : Z) (t : throttle) : throttle :=
  let n := i64 (t.(balance) + 1) in
  mkThrottle (if n >? rate then rate else n) (match t.(loop) with Sleeping _ => Sleeping true | l => l end) t.(read) (S t.(ticks)).
(** The next step of the loop. *)
Definition on_step (t : throttle) : throttle :=
  match t.(loop) with
  | Idle => mkThrottle t.(balance) (if t.(balance) <=? 0 then Sleeping false else Publishing) t.(read) t.(ticks)
  | Sleeping _ => mkThrottle t.(balance) Publishing t.(read) t.(ticks)
  | Publishing => mkThrottle (i64 (t.(balance) - 1)) Idle (S t.(read)) t.(ticks)
  end.

(** Runs in which a sleep of the ticker's interval sees a tick. *)
Inductive runs (rate : Z) : throttle → throttle → Prop :=
| runs_nil t : runs rate t t
| runs_tick t t' : runs rate t t' → runs rate t (on_tick rate t')
| runs_step t t' : runs rate t t' → t'.(loop) ≠ Sleeping false → runs rate t (on_step t').

Definition throttled (rate : Z) (t : throttle) : Prop :=
  0 <= t.(balance) <= rate ∧
  match t.(loop) with Publishing | Sleeping true => 0 < t.(balance) | _ => True end.

Lemma throttled_run rate t t' : 1 <= rate < 2 ^ 62 → runs rate t t' → throttled rate t →
  throttled rate t' ∧ Z.of_nat t'.(read) - Z.of_nat t.(read) <= t.(balance) - t'.(balance) + (Z.of_nat t'.(ticks) - Z.of_nat t.(ticks)).
Proof.
  intros Hr H Ht. change (2 ^ 62) with 4611686018427387904 in Hr.
  induction H as [t|t t' _ IH|t t' _ IH Hs]; [split; [done|lia]| |]; destruct (IH Ht) as [[Hb Hl] Hn]; clear IH; unfold throttled.
  - unfold on_tick. cbn. rewrite i64_id by (pow2; lia). destruct (_ >? rate) eqn:E; [apply Z.gtb_lt in E|rewrite Z.gtb_ltb in E; apply Z.ltb_ge in E]; cbn; (split; [split; [lia|destruct (loop t') as [|[]|]; cbn; lia]|lia]).
  - unfold on_step. destruct (loop t') as [|[]|] eqn:El; cbn in *; try done.
    + destruct (balance t' <=? 0) eqn:E; [apply Z.leb_le in E|apply Z.leb_gt in E]; (split; [by split|lia]).
    + rewrite i64_id by (pow2; lia). split; [split; [lia|done]|lia].
Qed.

(** With a rate, whatever the order of the ticks and the loop, to_nsq reads
    no more lines than the ticker has ticked and the balance it had, which is
    never more than a second's worth. *)
Theorem rate_bounded rate t t' :
  1 <= rate < 2 ^ 62 → runs rate (mkThrottle 1 Idle 0 0) t → runs rate t t' →
  0 <= t.(balance) <= rate ∧
  Z.of_nat t'.(read) - Z.of_nat t.(read) <= rate + (Z.of_nat t'.(ticks) - Z.of_nat t.(ticks)).
Proof.
  intros Hr H1 H2. destruct (throttled_run rate _ _ Hr H1) as [Ht _]; [split; cbn; [lia|done]|].
  destruct (throttled_run rate _ _ Hr H2 Ht) as [[? _] ?]. destruct Ht as [? _]. split; [done|lia].
Qed.

(** ** An input, and a run *)

Definition demo_input : bytes := bytes_of_string "one" ++ [byte_of_Z 10; byte_of_Z 10] ++ bytes_of_string "two" ++ [byte_of_Z 10] ++ bytes_of_string "three".
Definition demo_feed : option (ended * feeding) :=
  feed (λ _ _ _, None) (λ _ l, l) (byte_of_Z 10) [bytes_of_string "a:4150"; bytes_of_string "b:4150"] (S (length demo_input)) (mkFeeding demo_input 0 []).

Lemma lines_fed_witness :
  ∃ s, demo_feed = Some (Eof, s) ∧
    to_each (bytes_of_string "b:4150") s = [bytes_of_string "one"; bytes_of_string "two"; bytes_of_string "thre"].
Proof.
  destruct (lines_fed (λ _ _ _, None) (λ _ l, l) (byte_of_Z 10) [bytes_of_string "a:4150"; bytes_of_string "b:4150"] (λ _ _, Permutation_refl _)
    ltac:(apply (bool_decide_unpack _); vm_compute; exact I) (bytes_of_string "b:4150") demo_input ltac:(apply (bool_decide_unpack _); vm_compute; exact I)) as (r & s & Hf & _ & Hr).
  destruct r as [|e]; [|destruct Hr as (i & b & line & [=])]. exists s. split; [exact Hf|]. rewrite Hr. vm_compute. reflexivity.
Defined.

Lemma rate_bounded_witness :
  let t := on_step (on_step (on_step (on_tick 1 (on_step (on_step (on_step (mkThrottle 1 Idle 0 0))))))) in
  t.(read) = 2%nat ∧ 0 <= 1 <= 1 ∧ Z.of_nat t.(read) <= 2.
Proof.
  intros t. split; [reflexivity|].
  destruct (rate_bounded 1 (mkThrottle 1 Idle 0 0) t ltac:(lia) (runs_nil _ _)) as [H1 H2].
  - repeat first [apply runs_nil | apply runs_tick | apply runs_step; [|discriminate]].
  - split; [exact H1|]. vm_compute in H2. vm_compute. exact H2.
Defined.

End Feed.

Module Tail.

Definition tx := bytes_of_string.
Definition none {A} (l : list A) : bool := match l with [] => true | _ => false end.

Record Flags := mkFlags {
  channel : bytes; maxInFlight : Z; totalMessages : Z; printTopic : bool;
  nsqdTCPAddrs : list bytes; lookupdHTTPAddrs : list bytes; topics : list bytes;
}.

(** [fmt.Sprintf("tail%06d#ephemeral", random%999999)] *)
Definition pad6 (s : bytes) : bytes := replicate (6 - length s) (byte_of_Z 48) ++ s.
Definition a_channel (random : Z) : bytes := tx "tail" ++ pad6 (Decimal.fmt_d (random `mod` 999999)) ++ tx "#ephemeral".

(** The checks of [main]: the channel and the messages in flight it goes on
    with. *)
Definition main_check (random : Z) (f : Flags) : res string (bytes * Z) :=
  let channel := if none f.(channel) then a_channel random else f.(channel) in
  if none f.(nsqdTCPAddrs) && none f.(lookupdHTTPAddrs) then Err "--nsqd-tcp-address or --lookupd-http-address required"%string else
  if negb (none f.(nsqdTCPAddrs)) && negb (none f.(lookupdHTTPAddrs)) then Err "use --nsqd-tcp-address or --lookupd-http-address not both"%string else
  if none f.(topics) then Err "--topic required"%string else
  Ok (channel, if (0 <? f.(totalMessages)) && (f.(totalMessages) <? f.(maxInFlight)) then f.(totalMessages) else f.(maxInFlight)).

(** ** The handlers *)

Record TailHandler := mkTail { topicName : bytes; messagesShown : Z }.

(** The handlers by their position, what was written in how many writes, and
    how the program ended. *)
Inductive ended := ExitOk | FatalWrite (e : string).
Record tail := mkTailing { handlers : list TailHandler; written : bytes; writes : nat; over : option ended }.

Section tail.
Context (write_error : nat → option string).
Context (f : Flags).

Definition start : tail := mkTailing ((λ t, mkTail t 0) <$> f.(topics)) [] 0 None.

(** Writes to the standard output, until one fails. *)
Fixpoint write_all (ws : list bytes) (s : tail) : tail :=
  match ws with
  | [] => s
  | w :: ws =>
    match write_error s.(writes) with
    | Some e => mkTailing s.(handlers) s.(written) (S s.(writes)) (Some (FatalWrite e))
    | None => write_all ws (mkTailing s.(handlers) (s.(written) ++ w) (S s.(writes)) s.(over))
    end
  end.

Definition pieces (topicName body : bytes) : list bytes :=
  (if f.(printTopic) then [topicName; tx " | "] else []) ++ [body; [byte_of_Z 10]].

(** [HandleMessage] of the handler [k]. *)
Definition HandleMessage (k : nat) (body : bytes) (s : tail) : tail :=
  match s.(handlers) !! k with
  | None => s
  | Some th =>
    let th := mkTail th.(topicName) (th.(messagesShown) + 1) in
    let s := write_all (pieces th.(topicName) body) (mkTailing (<[k := th]> s.(handlers)) s.(written) s.(writes) s.(over)) in
    match s.(over) with
    | Some _ => s
    | None =>
      if (0 <? f.(totalMessages)) && (f.(totalMessages) <=? th.(messagesShown))
      then mkTailing s.(handlers) s.(written) s.(writes) (Some ExitOk) else s
    end
  end.

(** The messages come to the handlers until the program ends. *)
Fixpoint run (evs : list (nat * bytes)) (s : tail) : tail :=
  match evs with
  | [] => s
  | (k, body) :: evs => match s.(over) with Some _ => s | None => run evs (HandleMessage k body s) end
  end.

(** ** What is shown *)

Definition shown (k : nat) (evs : list (nat * bytes)) : Z := Z.of_nat (length (filter (λ e, e.1 = k) evs)).
Definition text (evs : list (nat * bytes)) : bytes :=
  mjoin ((λ '(k, body), mjoin (pieces (default [] (f.(topics) !! k)) body)) <$> evs).
(** No handler has shown its number. *)
Definition below (evs : list (nat * bytes)) : Prop := f.(totalMessages) <= 0 ∨ ∀ k, (k < length f.(topics))%nat → shown k evs < f.(totalMessages).

Hypothesis Hwrite : ∀ i, write_error i = None.

Lemma write_all_appends ws s : write_all ws s = mkTailing s.(handlers) (s.(written) ++ mjoin ws) (s.(writes) + length ws) s.(over).
Proof.
  revert s. induction ws as [|w ws IH]; intros s; cbn; [rewrite app_nil_r, Nat.add_0_r; by destruct s|]. rewrite Hwrite, IH. cbn. by rewrite app_assoc, Nat.add_succ_r.
Qed.

(** The state after the messages [evs], before the program ends. *)
Definition tailed (evs : list (nat * bytes)) (s : tail) : Prop :=
  s.(handlers) = imap (λ k t, mkTail t (shown k evs)) f.(topics) ∧ s.(written) = text evs.

Lemma shown_snoc k k' body evs : shown k (evs ++ [(k', body)]) = shown k evs + (if decide (k' = k) then 1 else 0).
Proof.
  unfold shown. rewrite filter_app, length_app. destruct (decide (k' = k)) as [->|Hne]; [rewrite filter_cons_True by done|rewrite filter_cons_False by done]; cbn; lia.
Qed.

Lemma HandleMessage_tailed evs k body s : (k < length f.(topics))%nat → s.(over) = None → tailed evs s →
  let s' := HandleMessage k body s in
  tailed (evs ++ [(k, body)]) s' ∧
  s'.(over) = if (0 <? f.(totalMessages)) && (f.(totalMessages) <=? shown k (evs ++ [(k, body)])) then Some ExitOk else None.
Proof.
  intros Hk Ho [Hh Hw]. destruct (lookup_lt_is_Some_2 f.(topics) k Hk) as [t Ht]. unfold HandleMessage. rewrite Hh, list_lookup_imap, Ht. cbn.
  rewrite write_all_appends. cbn [over handlers written writes]. rewrite Ho, Hw.
  assert (Hs : shown k evs + 1 = shown k (evs ++ [(k, body)])) by (rewrite shown_snoc, decide_True by done; done). rewrite Hs.
  assert (Htl : ∀ w o', tailed (evs ++ [(k, body)]) (mkTailing (<[k:=mkTail t (shown k (evs ++ [(k, body)]))]> (imap (λ k t, mkTail t (shown k evs)) (topics f))) (text evs ++ mjoin (pieces t body)) w o')).
  { intros w o'. split; cbn.
    - apply list_eq. intros j. destruct (decide (k = j)) as [<-|Hne].
      + rewrite list_lookup_insert_eq by (by rewrite length_imap). by rewrite list_lookup_imap, Ht.
      + rewrite list_lookup_insert_ne by done. rewrite !list_lookup_imap. destruct (topics f !! j); [|done]. cbn. by rewrite shown_snoc, decide_False, Z.add_0_r.
    - unfold text. rewrite fmap_app, join_app. cbn. by rewrite Ht, app_nil_r. }
  destruct (_ && _); split; try done; apply Htl.
Qed.

Lemma run_tailed evs before s : Forall (λ e, e.1 < length f.(topics))%nat evs → s.(over) = None → tailed before s → below before →
  ∃ pre post, evs = pre ++ post ∧ (run evs s).(written) = text (before ++ pre) ∧
    (∀ pre' e, pre = pre' ++ [e] → below (before ++ pre')) ∧
    ((run evs s).(over) = None → post = [] ∧ below (before ++ evs)) ∧
    (∀ e, (run evs s).(over) = Some e → e = ExitOk ∧ ∃ k, (k < length f.(topics))%nat ∧ 0 < f.(totalMessages) ∧ shown k (before ++ pre) = f.(totalMessages)).
Proof.
  revert before s. induction evs as [|[k body] evs IH]; intros before s Hk Ho Ht Hb.
  { exists [], []. cbn. rewrite !app_nil_r, Ho. split; [done|]. split; [apply Ht|]. split; [by intros [] ? [=]|]. by split. }
  apply Forall_cons in Hk as [Hk0 Hk]. cbn in Hk0. cbn [run]. rewrite Ho. destruct (HandleMessage_tailed before k body s Hk0 Ho Ht) as [Ht' Ho'].
  set (s' := HandleMessage k body s) in *. destruct ((0 <? totalMessages f) && (totalMessages f <=? shown k (before ++ [(k, body)]))) eqn:Ee.
  - apply andb_true_iff in Ee as [Hp%Z.ltb_lt Hge%Z.leb_le]. assert (Hr : run evs s' = s') by (destruct evs as [|[] ?]; cbn; [done|by rewrite Ho']).
    rewrite Hr, Ho'. exists [(k, body)], evs. split; [done|]. split; [apply Ht'|]. split.
    { intros [|? pre'] e [= He]; [by rewrite app_nil_r|by destruct pre']. }
    split; [done|]. intros e [= <-]. split; [done|]. exists k. split; [done|]. split; [done|]. rewrite shown_snoc, decide_True in * by done.
    destruct Hb as [?|Hb]; [lia|]. specialize (Hb k Hk0). lia.
  - assert (Hb' : below (before ++ [(k, body)])).
    { apply andb_false_iff in Ee as [Ep%Z.ltb_ge|Ee%Z.leb_gt]; [by left|]. destruct Hb as [?|Hb]; [by left|right]. intros j Hj.
      destruct (decide (k = j)) as [<-|Hne]; [done|]. rewrite shown_snoc, decide_False, Z.add_0_r by done. by apply Hb. }
    destruct (IH _ s' Hk Ho' Ht' Hb') as (pre & post & -> & Hw & Hpre & Hn & He). rewrite <- app_assoc in *. cbn [app] in *.
    exists ((k, body) :: pre), post. split; [done|]. split; [done|]. split; [|by split].
    intros pre' e Hpe. destruct pre' as [|x pre']; cbn in Hpe; injection Hpe as <- Hpe; [by rewrite app_nil_r|].
    rewrite (cons_middle _ before), app_assoc. by apply (Hpre pre' e).
Qed.

(** Nsq_tail shows every message in the order they come, behind its topic
    if asked to, until the first handler has shown the number asked for, and
    exits just then: the number counts for each topic. *)
Theorem tail_counts evs : Forall (λ e, e.1 < length f.(topics))%nat evs →
  let s := run evs start in
  ∃ pre post, evs = pre ++ post ∧ s.(written) = text pre ∧
    (∀ pre' e, pre = pre' ++ [e] → below pre') ∧
    (s.(over) = None → post = [] ∧ below evs) ∧
    (∀ e, s.(over) = Some e → e = ExitOk ∧ ∃ k, (k < length f.(topics))%nat ∧ 0 < f.(totalMessages) ∧ shown k pre = f.(totalMessages)).
Proof.
  intros Hk. cbn zeta. apply (run_tailed evs [] start Hk); [done| |].
  - split; [|done]. cbn. apply list_eq. intros k. rewrite list_lookup_fmap, list_lookup_imap. done.
  - unfold below. destruct (decide (f.(totalMessages) <= 0)); [by left|right]. intros k _. unfold shown. cbn. lia.
Qed.

End tail.

(** Two topics, of which each shows one message. *)
Definition demo_flags : Flags := mkFlags [] 200 1 true [tx "127.0.0.1:4150"] [] [tx "events"; tx "audit"].

Lemma tail_counts_witness :
  ∃ pre post, [(1, tx "in"); (0, tx "x")]%nat = pre ++ post ∧
    (run (λ _, None) demo_flags [(1, tx "in"); (0, tx "x")]%nat (start demo_flags)).(written) = text demo_flags pre ∧
    text demo_flags pre = tx "audit | in" ++ [byte_of_Z 10].
Proof.
  destruct (tail_counts (λ _, None) demo_flags (λ _, eq_refl) [(1, tx "in"); (0, tx "x")]%nat) as (pre & post & E & Hw & _).
  - repeat constructor.
  - exists pre, post. split; [exact E|]. split; [exact Hw|]. rewrite <- Hw. vm_compute. reflexivity.
Defined.

End Tail.
