(* ===== verification/Discoverer.v ===== *)
(** * The topics of nsq_to_file (apps/nsq_to_file/{nsq_to_file,topic_discoverer}.go)

    The checks of the options, and the loop that starts a logger for each
    topic it finds and passes the signals on. The loggers' own work is that of
    [FileLogger]; here a logger is its file name format, the signals its
    router has taken and whether the router still runs. go-nsq and regexp are
    parameters. *)
From stdpp Require Import base gmap list strings.
From Stdlib Require Import ZArith Lia.
From S2P Require Import Prelude.
From S2P Require Import Text.
From S2P Require Import Wire.
From S2P Require Import Net.
From S2P Require Import Order.
From S2P Require Import Paths.
From S2P Require Import HttpClient.
From S2P Require Import ClusterTypes.
From S2P Require Import ClusterInfo.
From S2P Require Import ClusterDemo.
From S2P Require Import FileLogger.
Set Default Goal Selector "!".
Local Open Scope Z_scope.

Module Discoverer.
Import FileLogger.

(** ** The options (main) *)

Definition fatal_if (b : bool) (why : string) : res string () := if b then Err why else Ok ().
Definition none {A} (l : list A) : bool := match l with [] => true | _ => false end.
Definition set_WorkDir (x : bytes) (o : Options) : Options :=
  let 'mkOptions a0 a1 a2 a3 a4 a5 a6 a7 a8 a9 a10 a11 a12 _ a14 a15 a16 a17 a18 a19 a20 a21 a22 := o in
  mkOptions a0 a1 a2 a3 a4 a5 a6 a7 a8 a9 a10 a11 a12 x a14 a15 a16 a17 a18 a19 a20 a21 a22.

(** The options [main] goes on with, or what is fatal. *)
Definition check_options (ParseLogLevel : bytes → option Z) (o : Options) : res string Options :=
  _ ← fatal_if (bool_decide (ParseLogLevel o.(LogLevel) = None)) "--log-level is invalid";
  _ ← fatal_if (none o.(Channel)) "--channel is required";
  _ ← fatal_if (o.(HTTPClientConnectTimeout) <=? 0) "--http-client-connect-timeout should be positive";
  _ ← fatal_if (o.(HTTPClientRequestTimeout) <=? 0) "--http-client-request-timeout should be positive";
  _ ← fatal_if (none o.(NSQDTCPAddrs) && none o.(NSQLookupdHTTPAddrs)) "--nsqd-tcp-address or --lookupd-http-address required.";
  _ ← fatal_if (negb (none o.(NSQDTCPAddrs)) && negb (none o.(NSQLookupdHTTPAddrs))) "use --nsqd-tcp-address or --lookupd-http-address not both";
  _ ← fatal_if ((o.(GZIPLevel) <? 1) || (9 <? o.(GZIPLevel))) "invalid --gzip-level value, should be 1-9";
  _ ← fatal_if (none o.(Topics) && none o.(TopicPattern)) "--topic or --topic-pattern required";
  _ ← fatal_if (none o.(Topics) && none o.(NSQLookupdHTTPAddrs)) "--lookupd-http-address must be specified when no --topic specified";
  Ok (if none o.(WorkDir) then set_WorkDir o.(OutputDir) o else o).

(** ** The loop *)

Inductive signal := Hup | Term.
Record logger := mkLog { lg_format : bytes; lg_signals : list signal; lg_running : bool }.

Notation loggers := (gmap (list Byte.byte) logger).
(** The loggers by topic, and how many have been asked for. *)
Record discoverer := mkDiscoverer { d_topics : loggers; d_made : nat }.

(** What the loop selects: a tick, with the answer of nsqlookupd in the world
    it finds; a signal; and the end of a router by itself, of which the
    discoverer is not told. *)
Inductive event (W : Type) := Ticked (w : W) | GotTerm | GotHup | RouterEnds (topic : bytes).
Arguments Ticked {W} w.
Arguments GotTerm {W}.
Arguments GotHup {W}.
Arguments RouterEnds {W} topic.

(** The loop goes on, has ended and waits for the routers, or waits for ever
    for a router that does not take its signal. *)
Inductive outcome := Going | Waiting | Stuck (topic : bytes).

Section discoverer.
Context {W V : Type} `{Web W, Semver V, ClusterJSON, Order.GoSort}.
Context (sched : ∀ A : Type, list A → list A).
Context (url_Parse : bytes → res string HttpClient.URL) (Quote : bytes → string).
Context (MatchString : bytes → bytes → option bool).
(** [NewConsumer] and its two connections, at each attempt. *)
Context (consumer : nat → bytes → option string).
Context (hostname : res string bytes) (pid : Z).
(** The order in which the map of loggers is walked. *)
Context (range : loggers → list (bytes * logger)).
Context (o : Options).

(** A pattern that is no regular expression allows nothing. *)
Definition isTopicAllowed (topic : bytes) : bool :=
  if bool_decide (o.(TopicPattern) = []) then true else default false (MatchString o.(TopicPattern) topic).

Definition NewFileLogger (attempt : nat) (topic : bytes) : res string logger :=
  f ← computeFilenameFormat hostname pid o topic;
  match consumer attempt topic with Some e => Err e | None => Ok (mkLog f [] true) end.

Definition update_topic (topic : bytes) (d : discoverer) : discoverer :=
  match d.(d_topics) !! topic with
  | Some _ => d
  | None =>
    if negb (isTopicAllowed topic) then d else
    match NewFileLogger d.(d_made) topic with
    | Err _ => mkDiscoverer d.(d_topics) (S d.(d_made))
    | Ok fl => mkDiscoverer (<[topic := fl]> d.(d_topics)) (S d.(d_made))
    end
  end.
Definition updateTopics (topics : list bytes) (d : discoverer) : discoverer := foldl (λ d t, update_topic t d) d topics.

(** A signal for a logger; [fl.hupChan <- true] waits for its router, and
    closing [fl.termChan] does not. *)
Definition add_signal (s : signal) (fl : logger) : logger := mkLog fl.(lg_format) (fl.(lg_signals) ++ [s]) fl.(lg_running).
Fixpoint send_hups (fls : list (bytes * logger)) (m : loggers) : outcome * loggers :=
  match fls with
  | [] => (Going, m)
  | (topic, fl) :: fls => if fl.(lg_running) then send_hups fls (<[topic := add_signal Hup fl]> m) else (Stuck topic, m)
  end.

Definition GetLookupdTopics (w : W) : option (list bytes * option ClusterInfo.ci_err) :=
  ClusterInfo.GetLookupdTopics sched url_Parse Quote o.(NSQLookupdHTTPAddrs) w.

(** A turn of the loop; the ticker is only there without topics in the
    options. [None]: the event does not happen. *)
Definition turn (ev : event W) (d : discoverer) : option (outcome * discoverer) :=
  match ev with
  | Ticked w =>
    if negb (none o.(Topics)) then None else
    '(newTopics, err) ← GetLookupdTopics w;
    Some (Going, match err with Some _ => d | None => updateTopics newTopics d end)
  | GotTerm => Some (Waiting, mkDiscoverer (add_signal Term <$> d.(d_topics)) d.(d_made))
  | GotHup => let '(out, m) := send_hups (range d.(d_topics)) d.(d_topics) in Some (out, mkDiscoverer m d.(d_made))
  | RouterEnds topic =>
    fl ← d.(d_topics) !! topic;
    Some (Going, mkDiscoverer (<[topic := mkLog fl.(lg_format) fl.(lg_signals) false]> d.(d_topics)) d.(d_made))
  end.

Fixpoint run_loop (evs : list (event W)) (d : discoverer) : option (outcome * discoverer) :=
  match evs with
  | [] => Some (Going, d)
  | ev :: evs =>
    '(out, d) ← turn ev d;
    match out with Going => run_loop evs d | _ => Some (out, d) end
  end.
Definition run (evs : list (event W)) : option (outcome * discoverer) := run_loop evs (updateTopics o.(Topics) (mkDiscoverer ∅ 0)).

(** ** What it has started *)

(** The topics of the answers, which count only without any error. *)
Definition answers (evs : list (event W)) : list bytes :=
  mjoin (omap (λ ev, match ev with
                     | Ticked w => match GetLookupdTopics w with Some (ts, None) => Some ts | _ => None end
                     | _ => None
                     end) evs).

(** The topics a logger can be made for. *)
Definition wanted (t : bytes) : Prop := isTopicAllowed t = true ∧ ∃ f, computeFilenameFormat hostname pid o t = Ok f.

Hypothesis Hconsumer : ∀ i t, consumer i t = None.
Hypothesis Hrange : ∀ m, range m ≡ₚ map_to_list m.

Definition logged (ts : list bytes) (d : discoverer) : Prop :=
  (∀ t, is_Some (d.(d_topics) !! t) ↔ t ∈ ts ∧ wanted t) ∧
  (∀ t fl, d.(d_topics) !! t = Some fl → computeFilenameFormat hostname pid o t = Ok fl.(lg_format)).

Lemma update_topic_logged ts t d : logged ts d → logged (ts ++ [t]) (update_topic t d).
Proof.
  intros [Hdom Hf]. unfold update_topic. assert (Hskip : (is_Some (d_topics d !! t) ∨ ¬ wanted t) → logged (ts ++ [t]) d).
  { intros Hor. split; [|done]. intros t'. rewrite elem_of_app, list_elem_of_singleton, Hdom. split; [by intros [? ?]; split; [left|]|].
    intros [[?| ->] Hw]; [done|]. destruct Hor as [Hs|Hn]; [by apply Hdom|done]. }
  destruct (d_topics d !! t) as [fl|] eqn:Et; [apply Hskip; left; by eexists|].
  destruct (isTopicAllowed t) eqn:Ea; cbn [negb]; [|apply Hskip; right; by intros [? _]; congruence].
  unfold NewFileLogger. rewrite Hconsumer. destruct (computeFilenameFormat hostname pid o t) as [f|e] eqn:Ef; cbn.
  - split.
    + intros t'. cbn. rewrite lookup_insert_is_Some, Hdom, elem_of_app, list_elem_of_singleton. split.
      * intros [<-|[? [? ?]]]; [split; [by right|split; [done|by exists f]]|by split; [left|]].
      * intros [[?| ->] Hw]; [|by left]. destruct (decide (t = t')); [by left|right]. by split.
    + intros t' fl. cbn. rewrite lookup_insert_Some. intros [[<- <-]|[_ ?]]; [done|by apply Hf].
  - apply Hskip. right. by intros [_ [f ?]]; congruence.
Qed.

Lemma updateTopics_logged ts ts' d : logged ts d → logged (ts ++ ts') (updateTopics ts' d).
Proof.
  revert ts d. induction ts' as [|t ts' IH]; intros ts d Hd; cbn; [by rewrite app_nil_r|].
  replace (ts ++ t :: ts') with ((ts ++ [t]) ++ ts') by (by rewrite <- app_assoc). apply IH. by apply update_topic_logged.
Qed.

(** A change of the loggers that keeps their topics and formats. *)
Definition same_formats (m m' : loggers) : Prop := ∀ t, lg_format <$> m' !! t = lg_format <$> m !! t.
#[local] Instance same_formats_refl : Reflexive same_formats.
Proof. by intros m t. Qed.
#[local] Instance same_formats_trans : Transitive same_formats.
Proof. intros m1 m2 m3 H12 H23 t. by rewrite H23, H12. Qed.

Lemma same_formats_insert m t fl fl' : m !! t = Some fl → fl'.(lg_format) = fl.(lg_format) → same_formats m (<[t := fl']> m).
Proof.
  intros Ht Hf t'. destruct (decide (t = t')) as [<-|Hne]; [rewrite lookup_insert_eq, Ht; cbn; by rewrite Hf|by rewrite lookup_insert_ne].
Qed.

Lemma same_formats_logged ts d m n : same_formats d.(d_topics) m → logged ts d → logged ts (mkDiscoverer m n).
Proof.
  intros Hs [Hdom Hf]. split; cbn.
  - intros t. rewrite <- Hdom. specialize (Hs t). destruct (m !! t), (d_topics d !! t); try done; split; by intros [].
  - intros t fl Ht. specialize (Hs t). rewrite Ht in Hs. destruct (d_topics d !! t) as [fl'|] eqn:E; [|done]. cbn in Hs. injection Hs as ->. by apply Hf.
Qed.

Lemma send_hups_formats fls m out m' : (∀ t fl, (t, fl) ∈ fls → lg_format <$> m !! t = Some fl.(lg_format)) →
  send_hups fls m = (out, m') → same_formats m m'.
Proof.
  revert m. induction fls as [|[t fl] fls IH]; cbn; intros m Hm; [by intros [= _ <-]|]. destruct (lg_running fl); [|by intros [= _ <-]].
  intros Hsend. assert (Hi : same_formats m (<[t := add_signal Hup fl]> m)).
  { specialize (Hm t fl ltac:(by left)). destruct (m !! t) as [fl'|] eqn:E; [|done]. injection Hm as Hm. by apply (same_formats_insert _ _ fl'). }
  etrans; [exact Hi|]. apply (IH _ ltac:(intros t' fl' Hin; rewrite (Hi t'); apply Hm; by right) Hsend).
Qed.

Lemma turn_logged ts ev d out d' : turn ev d = Some (out, d') → logged ts d → logged (ts ++ answers [ev]) d'.
Proof.
  intros Ht Hd. destruct ev as [w| | |t]; cbn in *.
  - destruct (none (Topics o)); [|done]. cbn in Ht. unfold answers. cbn. destruct (GetLookupdTopics w) as [[ts' err]|]; [|done]. cbn in Ht.
    injection Ht as <- <-. destruct err; cbn; [by rewrite app_nil_r|]. rewrite app_nil_r. by apply updateTopics_logged.
  - injection Ht as <- <-. rewrite app_nil_r. apply (same_formats_logged _ d); [|done]. intros t. rewrite lookup_fmap. by destruct (d_topics d !! t).
  - destruct (send_hups _ _) as [out' m] eqn:E. injection Ht as <- <-. rewrite app_nil_r. apply (same_formats_logged _ d); [|done].
    apply send_hups_formats in E; [done|]. intros t fl Hin. rewrite Hrange in Hin. apply elem_of_map_to_list in Hin. by rewrite Hin.
  - destruct (d_topics d !! t) as [fl|] eqn:E; [|done]. injection Ht as <- <-. rewrite app_nil_r. apply (same_formats_logged _ d); [|done].
    by apply (same_formats_insert _ _ fl).
Qed.

Lemma answers_cons ev evs : answers (ev :: evs) = answers [ev] ++ answers evs.
Proof. unfold answers. cbn. destruct ev as [w| | |t]; [|done..]. destruct (GetLookupdTopics w) as [[ts [e|]]|]; cbn; [done|by rewrite app_nil_r|done]. Qed.

(** Every router that runs gets the signal, in the order of the map. *)
Lemma send_hups_exact fls m out m' : NoDup fls.*1 → (∀ t fl, (t, fl) ∈ fls → m !! t = Some fl) → send_hups fls m = (out, m') →
  match out with
  | Going => ∀ t, m' !! t = if decide (t ∈ fls.*1) then add_signal Hup <$> m !! t else m !! t
  | Stuck t => ∃ fl, (t, fl) ∈ fls ∧ fl.(lg_running) = false
  | Waiting => False
  end.
Proof.
  revert m. induction fls as [|[t fl] fls IH]; intros m Hnd Hm; cbn.
  { intros [= <- <-] t. destruct (decide _) as [?%elem_of_nil|]; done. }
  destruct (lg_running fl) eqn:Er; [|intros [= <- <-]; exists fl; by split; [left|]].
  apply NoDup_cons in Hnd as [Ht Hnd]. cbn in Ht. intros Hsend. apply IH in Hsend; [|done|].
  - destruct out as [| |t']; [|done|destruct Hsend as (fl' & ? & ?); exists fl'; by split; [right|]]. intros t'. rewrite Hsend. destruct (decide (t = t')) as [<-|Hne].
    + rewrite decide_False by done. rewrite decide_True by (by left). rewrite lookup_insert_eq. rewrite (Hm t fl) by (by left). done.
    + rewrite lookup_insert_ne by done. destruct (decide (t' ∈ fls.*1)) as [Hin|Hn]; [by rewrite decide_True by (by right)|].
      rewrite decide_False; [done|]. cbn. by intros [?|?]%elem_of_cons.
  - intros t' fl' Hin. rewrite lookup_insert_ne; [apply Hm; by right|]. intros ->. apply Ht. apply list_elem_of_fmap. by exists (t', fl').
Qed.

Lemma run_loop_logged ts evs d0 d : run_loop evs d0 = Some (Going, d) → logged ts d0 → logged (ts ++ answers evs) d.
Proof.
  revert ts d0. induction evs as [|ev evs IH]; intros ts d0 Hr Hd; [injection Hr as <-; by rewrite app_nil_r|].
  cbn [run_loop] in Hr. destruct (turn ev d0) as [[[] d1]|] eqn:Et; cbn in Hr; try done. rewrite (answers_cons ev), app_assoc. apply (IH _ d1); [done|].
  by apply (turn_logged _ _ d0 Going).
Qed.


End discoverer.
End Discoverer.

(** ** The topics of the cluster of [ClusterDemo] *)

Module DiscovererDemo.
Import ClusterDemo.

#[local] Existing Instance Order.merge_GoSort.
#[local] Existing Instance ClusterDemo.small_web.
#[local] Existing Instance ClusterDemo.versions.
#[local] Existing Instance ClusterDemo.answers_of.

Definition tx := bytes_of_string.

(** Two of three nsqlookupds answer; only the topics with an s at the end. *)
Definition log_options : FileLogger.Options :=
  FileLogger.mkOptions [] (tx "pattern") (60 * Second) (tx "nsq_to_file") [] [node1; node2] [] 200 (2 * Second) (5 * Second) (tx "[nsq_to_file] ") (tx "info")
    (tx "/tmp") (tx "/tmp") (tx "%Y") (tx "<TOPIC>.<HOST><REV>.log") [] 6 false false 0 0 (30 * Second).
Definition ends_in_s (pattern topic : bytes) : option bool := Some (bool_decide (last topic = Some (byte_of_Z 115))).
Definition host : res string bytes := Ok (tx "host.example").

Definition log_run : option (Discoverer.outcome * Discoverer.discoverer) :=
  Discoverer.run first_come no_url quote ends_in_s (λ _ _, None) host 7 map_to_list log_options [Discoverer.Ticked (); Discoverer.GotHup].
Definition log_end : Discoverer.discoverer := match log_run with Some (_, d) => d | None => Discoverer.mkDiscoverer ∅ 0 end.


End DiscovererDemo.
