(* ===== verification/Stat.v ===== *)
(** * nsq_stat (apps/nsq_stat/nsq_stat.go)

    The statistics of a channel, polled through [ClusterInfo], with the rates
    between two polls. Floats are rationals; [None] is a panic. *)
From stdpp Require Import base gmap list strings.
From Stdlib Require Import ZArith Lia.
From S2P Require Import Prelude.
From S2P Require Import Decimal.
From S2P Require Import Net.
From S2P Require Import Order.
From S2P Require Import HttpClient.
From S2P Require Import ClusterTypes.
From S2P Require Import ClusterInfo.
From S2P Require Import ClusterDemo.
Set Default Goal Selector "!".
Local Open Scope Z_scope.

Module Stat.
Import Cluster.

Definition none {A} (l : list A) : bool := match l with [] => true | _ => false end.
Definition fatal_if (b : bool) (why : string) : res string () := if b then Err why else Ok ().

(** The flags; [count] is [None] where it is not set. *)
Record Flags := mkFlags {
  topic : bytes; channel : bytes; interval : duration; httpConnectTimeout : duration; httpRequestTimeout : duration;
  count : option Z; nsqdHTTPAddrs : list bytes; lookupdHTTPAddrs : list bytes;
}.

Definition checkAddrs (addrs : list bytes) : res string () :=
  fatal_if (existsb (λ a, HttpClient.HasPrefix a (tx "http")) addrs) "address should not contain scheme".

Definition main_check (f : Flags) : res string () :=
  _ ← fatal_if (none f.(topic) || none f.(channel)) "--topic and --channel are required";
  _ ← fatal_if (f.(interval) <=? 0) "--interval should be positive";
  _ ← fatal_if (f.(httpConnectTimeout) <=? 0) "--http-client-connect-timeout should be positive";
  _ ← fatal_if (f.(httpRequestTimeout) <=? 0) "--http-client-request-timeout should be positive";
  _ ← fatal_if (match f.(count) with Some n => n <=? 0 | None => false end) "--count should be positive";
  _ ← fatal_if (none f.(nsqdHTTPAddrs) && none f.(lookupdHTTPAddrs)) "--nsqd-http-address or --lookupd-http-address required";
  _ ← fatal_if (negb (none f.(nsqdHTTPAddrs)) && negb (none f.(lookupdHTTPAddrs))) "use --nsqd-http-address or --lookupd-http-address not both";
  _ ← checkAddrs f.(nsqdHTTPAddrs);
  checkAddrs f.(lookupdHTTPAddrs).

(** The columns of a line. *)
Record row := mkRow {
  ingress : Z; egress : Z; total : Z; mem : Z; disk : Z; inflt : Z; def : Z; req : Z; t_o : Z; msgs : Z; clients : Z;
}.
Inductive printed := Heading | Line (r : row).

(** [int64(float64(x)/interval.Seconds())] *)
Definition per_second (interval : duration) (x : Z) : Z := Z.quot (x * Second) interval.

Definition report (interval : duration) (o c : ChannelStats) : row :=
  let messages := i64 (c.(chs_MessageCount) - o.(chs_MessageCount)) in
  mkRow (per_second interval messages)
        (per_second interval (i64 (messages - i64 (c.(chs_Depth) - o.(chs_Depth)))))
        c.(chs_Depth) c.(chs_MemoryDepth) c.(chs_BackendDepth) c.(chs_InFlightCount) c.(chs_DeferredCount)
        c.(chs_RequeueCount) c.(chs_TimeoutCount) c.(chs_MessageCount) c.(chs_ClientCount).

(** The loop sleeps before its next poll, has exited, or died. *)
Inductive outcome := Sleeping | Exited | Died (why : string).

Section stat.
Context {W V : Type} `{Web W, Semver V, ClusterJSON, Order.GoSort}.
Context (sched : ∀ A : Type, list A → list A).
Context (url_Parse : bytes → res string HttpClient.URL) (Quote : bytes → string).
Context (f : Flags).

(** A poll of the cluster at some time. *)
Definition poll (now : time) (w : W) : option (res string ChannelStats) :=
  '(producers, err) ← (if negb (none f.(lookupdHTTPAddrs)) then ClusterInfo.GetLookupdTopicProducers sched url_Parse Quote f.(topic) f.(lookupdHTTPAddrs) w
                       else ClusterInfo.GetNSQDTopicProducers sched url_Parse Quote f.(topic) f.(nsqdHTTPAddrs) w);
  match err with
  | Some e => Some (Err ("ERROR: failed to get topic producers - " +:+ ClusterInfo.Error e)%string)
  | None =>
    '((_, channelStats, err), h) ← ClusterInfo.GetNSQDStats (V:=V) sched url_Parse Quote producers f.(topic) f.(channel) false now w empty_heap;
    match err with
    | Some e => Some (Err ("ERROR: failed to get nsqd stats - " +:+ ClusterInfo.Error e)%string)
    | None =>
      match channelStats !! f.(channel) with
      | None => Some (Err "ERROR: failed to find channel in stats metadata for topic"%string)
      | Some l => c ← h.(h_channels) !! l; Some (Ok c)
      end
    end
  end.

(** The loop from its [i]th turn, over the moments it polls at. *)
Fixpoint statLoop (i : Z) (o : option ChannelStats) (polls : list (time * W)) : option (list printed * outcome) :=
  if match f.(count) with Some n => n <? i | None => false end then Some ([], Exited) else
  match polls with
  | [] => Some ([], Sleeping)
  | (now, w) :: polls =>
    r ← poll now w;
    match r with
    | Err e => Some ([], Died e)
    | Ok c =>
      let heading := if i mod 25 =? 0 then [Heading] else [] in
      let line := match o with None => [] | Some o => [Line (report f.(interval) o c)] end in
      '(out, r) ← statLoop (i + 1) (Some c) polls;
      Some (heading ++ line ++ out, r)
    end
  end.

(** ** The reports *)

Definition rows (out : list printed) : list row := omap (λ p, match p with Line r => Some r | Heading => None end) out.
Definition reports (interval : duration) (o : option ChannelStats) (cs : list ChannelStats) : list row :=
  match o with
  | None => zip_with (report interval) cs (drop 1 cs)
  | Some o => zip_with (report interval) (o :: cs) cs
  end.

Lemma statLoop_rows polls cs i o rest out r :
  mapM (λ p : time * W, poll p.1 p.2) polls = Some (Ok <$> cs) →
  match f.(count) with Some n => i + Z.of_nat (length polls) <= n + 1 | None => True end →
  statLoop (i + Z.of_nat (length polls)) (match last cs with Some c => Some c | None => o end) rest = Some (out, r) →
  ∃ out', statLoop i o (polls ++ rest) = Some (out', r) ∧ rows out' = reports f.(interval) o cs ++ rows out.
Proof.
  revert cs i o. induction polls as [|[now w] polls IH]; intros cs i o Hp Hn Hrest.
  - destruct cs; [|done]. cbn in *. rewrite Z.add_0_r in Hrest. exists out. split; [done|]. by destruct o.
  - apply mapM_Some in Hp. destruct cs as [|c cs]; [inversion Hp|]. apply Forall2_cons in Hp as [Hc Hp']. cbn in Hc. apply mapM_Some in Hp'.
    cbn [app statLoop length] in *. replace (match count f with Some n => n <? i | None => false end) with false by (destruct (count f); [symmetry; apply Z.ltb_ge; lia|done]).
    rewrite Hc. cbn. destruct (IH cs (i + 1) (Some c) Hp') as (out' & Hl & Hr).
    + destruct (count f); [lia|done].
    + rewrite <- Hrest. f_equal; [lia|]. destruct cs as [|c' cs]; [done|]. rewrite !last_cons. by destruct (last cs).
    + rewrite Hl. cbn. eexists. split; [done|]. unfold rows in *. rewrite !omap_app, Hr.
      replace (omap _ (if i mod 25 =? 0 then [Heading] else [])) with (@nil row) by (by destruct (i mod 25 =? 0)). by destruct o.
Qed.

(** With [--count n], nsq_stat exits after its (n+1)th poll, having
    printed n lines, each with the rates between two successive polls; a poll
    that fails ends it after the lines of the polls before. *)
Theorem stat_reports n polls cs rest :
  f.(count) = Some n → 1 <= n → mapM (λ p : time * W, poll p.1 p.2) polls = Some (Ok <$> cs) →
  (Z.of_nat (length polls) = n + 1 → ∃ out, statLoop 0 None (polls ++ rest) = Some (out, Exited) ∧
     rows out = zip_with (report f.(interval)) cs (drop 1 cs) ∧ Z.of_nat (length (rows out)) = n) ∧
  (∀ now w e, Z.of_nat (length polls) <= n → poll now w = Some (Err e) →
     ∃ out, statLoop 0 None (polls ++ (now, w) :: rest) = Some (out, Died e) ∧ rows out = zip_with (report f.(interval)) cs (drop 1 cs)).
Proof.
  intros Hc Hn Hp. assert (Hlen : length cs = length polls) by (pose proof (length_mapM _ _ _ Hp); by rewrite length_fmap in *).
  split.
  - intros Hl. destruct (statLoop_rows polls cs 0 None rest [] Exited Hp) as (out & Hs & Hr).
    + rewrite Hc. lia.
    + destruct rest as [|[now w] rest]; cbn; rewrite Hc; replace (n <? _) with true; [done|symmetry; apply Z.ltb_lt; lia|done|symmetry; apply Z.ltb_lt; lia].
    + exists out. rewrite app_nil_r in Hr. split; [done|]. rewrite Hr. split; [done|]. cbn. rewrite length_zip_with, length_drop. lia.
  - intros now w e Hl He. destruct (statLoop_rows polls cs 0 None ((now, w) :: rest) [] (Died e) Hp) as (out & Hs & Hr).
    + rewrite Hc. lia.
    + cbn. rewrite Hc. replace (n <? _) with false by (symmetry; apply Z.ltb_ge; lia). by rewrite He.
    + exists out. by rewrite app_nil_r in Hr.
Qed.

End stat.
End Stat.

(** ** The statistics of the cluster of [ClusterDemo] *)

Module StatDemo.
Import ClusterDemo.

#[local] Existing Instance Order.merge_GoSort.
#[local] Existing Instance ClusterDemo.small_web.
#[local] Existing Instance ClusterDemo.versions.
#[local] Existing Instance ClusterDemo.answers_of.

Definition tx := bytes_of_string.

(** The archive of the topic, through one nsqlookupd, twice in two seconds. *)
Definition stat_flags : Stat.Flags := Stat.mkFlags (tx "events") (tx "archive") (2 * Second) Second Second (Some 1) [] [node1].

Definition no_stats : Cluster.ChannelStats := Cluster.mkChannelStats [] [] [] [] 0 0 0 0 0 0 0 0 0 false [] [] false None.
Definition stats_at (now : time) : Cluster.ChannelStats :=
  match Stat.poll first_come no_url quote stat_flags now () with Some (Ok c) => c | _ => no_stats end.

Lemma stat_reports_witness :
  ∃ out, Stat.statLoop first_come no_url quote stat_flags 0 None [(0, ()); (2 * Second, ())] = Some (out, Stat.Exited) ∧
    Stat.rows out = [Stat.mkRow 0 0 8 8 0 0 0 0 0 0 0].
Proof.
  assert (E : mapM (λ p : time * (), Stat.poll first_come no_url quote stat_flags p.1 p.2) [(0, ()); (2 * Second, ())] =
    Some (Ok <$> [stats_at 0; stats_at (2 * Second)])) by (vm_compute; reflexivity).
  destruct (Stat.stat_reports first_come no_url quote stat_flags 1 [(0, ()); (2 * Second, ())] _ [] eq_refl ltac:(lia) E) as [H _].
  destruct (H eq_refl) as (out & Hout & Hr & _). exists out. split; [exact Hout|]. rewrite Hr. vm_compute. reflexivity.
Defined.

End StatDemo.
